(* ===== verification/_CoqProject ===== *)
-Q . S2P
Prelude.v
Status.v
Bytes.v
Digest.v
Codec.v
Ids.v
StateObject.v
Provenance.v
Movement.v
MovementStore.v
Framing.v
Session.v
Policy.v
Topology.v
Compatibility.v
CommitMarker.v
ObjectStore.v
WireFields.v
Wire.v
Effect.v
Links.v
Coordinator.v
Recovery.v
Authority.v
Driver.v
Agent.v
Transfer.v
Publication.v
Text.v
Transport.v
Faults.v
Diagnostics.v
Options.v
Console.v
Endpoint.v
Files.v
Durable.v
Device.v
LogFile.v
Threads.v
Services.v
