(* ===== verification/Prelude.v ===== *)
(** * State Movement Fabric: a verification development

    The program moves versions of state objects (model weights, key-value
    caches, checkpoints) between machines.  A coordinator decides whether a
    version may move, grants the transfer to both endpoints, has the destination
    pull the bytes from the source, checks what arrived and commits the movement
    through a marker the destination writes.  This library translates that
    program from its C++ sources (paths below are relative to the repository)
    and proves what makes it correct.

    ** The parts and where they are modelled

    Foundations.  [Prelude] has the bytes, machine words, tactics and hint
    databases the other files share.  [Status] models reason codes, [Status] and
    [Result] (include/smf/status.hpp).  [Bytes] models hexadecimal, UTF-8
    validation and checked arithmetic (src/bytes.cpp), [Digest] SHA-256 and HMAC
    as written (src/digest.cpp), [Codec] the canonical encoder and decoder with
    its limits (src/codec.cpp), as decoders over remaining input.

    Data.  [Ids] has identifiers, generations, incarnations and the id issuer
    (src/ids.cpp), [StateObject] descriptors, segmentation and resume states
    (src/state_object.cpp, src/chunk_plan.cpp), [Provenance] the history of a
    movement (src/provenance.cpp), [Movement] the movement record, its state
    machine and its mutators (src/movement.cpp), [Policy], [Topology] and
    [Compatibility] the files of those names.

    Storage.  [MovementStore] is the coordinator's append-only log: recovery,
    compaction, retention (src/movement_store.cpp).  Its file is a byte list and
    its writes follow an [IoPlan] that says which of them fail and how much of a
    failed one reaches the disk.  [CommitMarker] and [ObjectStore] are the
    destination's store: staging journals, the staging writer, promotion, commit
    markers, authority and cleanup (src/object_store.cpp).  Every file operation
    there is an [IO] step whose outcome the environment chooses.

    Protocol.  [Framing] has frame headers, the authenticating codec and the
    stream over a connection (src/framing.cpp), [Session] the handshake
    (src/session.cpp), [WireFields] and [Wire] every message with validate,
    encode and decode and the transfer grant's signature (src/wire.cpp).

    Coordinator.  [Effect] is the monad of stateful, fallible code with its
    rules, [Links] the control sessions and their tables of awaited responses,
    [Coordinator] start, recovery, sessions, handlers and operator operations,
    [Driver] the movement engine (src/coordinator.cpp).  [Recovery] and
    [Authority] hold the theorems about restart and about the coordinator's
    decisions.

    Endpoint.  [Agent] is the endpoint agent: its start with a persistent epoch,
    registration, the handlers of the coordinator's messages, the tables of
    grants and cancellation flags.  [Transfer] is the data plane, the source that
    serves an object under a grant and the destination that stages, verifies,
    places and reports it; [Publication] the publication of local files and
    buffers (all of src/endpoint_agent.cpp).

    Platform and programs.  [Transport] has addresses, connections and listeners
    (src/transport.cpp) over an interface to the operating system, and shows that
    a TCP connection is the byte stream [Framing] assumes.  [Faults] is fault
    injection (src/fault_injection.cpp), [Diagnostics] time and logging
    (src/time.cpp, src/logging.cpp), [Text] what the parsers share.  [Options]
    reads command lines and configures the two services (apps/args.cpp,
    apps/smf-coordinator.cpp, apps/smf-endpoint.cpp), [Console] is the operator's
    program (apps/smf.cpp), [Endpoint] the publications an endpoint process makes
    on request (apps/smf-endpoint.cpp, apps/smf-endpoint-cuda.cpp), [Device] the
    publication of a buffer that a kernel fills on a CUDA device
    (apps/cuda_publish.cu), [Services] the two service processes from the command
    line to the exit code.  [Threads] has the loops of the services' worker and
    listener threads, their waits and their shutdown (src/coordinator.cpp,
    src/endpoint_agent.cpp) as steps over mutexes, condition variables and
    atomics.

    Files.  [Files] is the layer under both stores (src/file_utils.cpp): file
    handles over buffered streams, the atomic replacement and the lock file, on a
    machine whose calls can fail and which can crash between any two changes.
    [Durable] connects it to the stores: the replacement [ObjectStore] and the
    append [MovementStore] are modelled with are those the file layer performs,
    and the log is opened under its lock.  [LogFile] does the same for the rest of
    the movement log, the recovery that reads it record by record and the
    compaction that replaces it.

    ** How state and effects are represented

    Structures are records with the source's fields, enumerations inductive types
    in a module of a short name ([MS], [RC], [MT], ...), a function that returns
    [Status] or [Result] returns [Result unit] or [Result A], one that mutates
    its object returns the new object beside the result.  Machine integers are
    [Z] with [wrap] where the source can wrap; an operation that is undefined in
    the source is a value of its own.  Maps are stdpp's [gmap]s, where the
    iteration order matters an association list.

    What lies outside the sources is a class with the laws the code relies on:
    [EntropySource] (the operating system's random numbers), [Connection] and
    [ConnectionLaws] (a TCP connection), [CompatibilityProvider] and
    [HonestProvider], [Kernel] and [KernelLaws] (the socket calls of POSIX),
    [MonotonicClock] and [ClockLaws], [Cuda] and [CudaLaws] (the CUDA runtime).
    Each has an instance, so that the theorems that use them are applied to
    concrete inputs.

    The coordinator is multi-threaded.  An operation of it runs in a [CWorld]:
    each access to shared state under its lock is one step, and before each step
    other threads may have changed the coordinator in any way ([cw_others]); the
    endpoints' answers are among those changes.  The world also records what the
    thread stored, sent and was answered ([cw_events]).  Theorems about ordering
    hold for every world; theorems that say what an operation leaves behind
    assume a [quiet] world, in which no other thread interferes.  The endpoint
    agent runs in an [AWorld] built the same way, with its store and its disk.
    In [Transport] the interference is explicit: [nt_others] lists what other
    threads do to the process's connection objects before each atomic access and
    each system call.  In [Threads] all threads of a service are in the state,
    each at its program point, and take turns.

    ** What the theorems show

    Commit safety: the movement engine refines a protocol ([Driver]) in which a
    commit is requested only for bytes that were verified and stored as such, and
    a movement is COMMITTED only on the destination's answer to that request; the
    destination's marker is all or nothing and the first one wins
    ([ObjectStore]); an unknown outcome is resolved only by proof ([Authority]);
    a restart resurrects nothing ([Recovery]).
    Durability: log and index agree after any run of operations, a torn log opens
    to its intact prefix, reopening restores the index ([MovementStore]); a put
    that was acknowledged survives a crash, and a store opened exclusively is the
    only one ([Durable]).  The log read through its handle is the log the model
    opens, and a compaction keeps the index wherever a crash stops it
    ([LogFile]).  A replaced file has its old or its new contents
    wherever a crash stops the replacement, and a handle is a file with a
    position however its buffer moves ([Files]).
    Integrity: a finished transfer is exactly the staged bytes ([ObjectStore]),
    chunks partition an object ([StateObject]), digests bind what they cover up
    to a collision, streaming SHA-256 equals its specification ([Digest]).
    Authentication and transport: handshake, frame authentication, ordered
    delivery, grant signatures, responses that reach their waiter ([Session],
    [Framing], [Wire], [Links]).
    Data plane: an endpoint reports bytes as arrived only when they are placed and
    match the digest it was authorized for, and serves data under one grant, once
    ([Transfer]); it commits only what it holds ([Agent]); an object sent is
    placed ([Transfer]), a buffer published is placed and marked ([Publication]).
    Sockets: a descriptor is open exactly as long as an object holds it, connect
    leaks none, sending is all or a prefix, a shutdown releases every user and
    every call returns within its budget ([Transport]).
    Threads: the queue loses and repeats nothing and strands nothing, a shutdown
    outside one window of the waits ends every thread, sessions and waiting
    connections are bounded ([Threads]).
    Devices: the pattern does not depend on the schedule or the grid, the device's
    memory is given back on every path and what is published is what the kernel
    wrote ([Device]).
    Programs: the console reports success only on the coordinator's answer
    ([Console]); options, addresses and specifications are read back as written
    ([Options], [Transport], [Faults], [Endpoint]); injected faults fire on
    schedule ([Faults]).
    Formats: every message and record round trips, and decoders accept only
    canonical encodings of valid values.
    Life cycle: the transition table is the specified one, runs are bounded and
    commit at most once ([Movement]).
    Errors: theorems whose comment starts with (error) record behaviour that
    contradicts the documentation or cannot be intended.

    ** Fuel and bounds

    Recursion of the source's loops is structural on the input, on a count taken
    from it, or on fuel given as the length of the remaining bytes (the log
    replay, the UTF-8 scan, reading from a connection), which no run exhausts:
    each such loop has a lemma that enough fuel gives the result.  The attempt
    loop runs [max_attempts] turns, waiting past stale completions discards at
    most four.  [session_frames] bounds the frames a session handles, since a
    session of the source ends only with its connection; the readers of [Agent]
    and [Transfer] take the number of frames the peer sends in the same way.  The
    loops of [Transport] have as fuel the readings left before the clock reaches
    the deadline (and, sending, the bytes left), which [ClockLaws] makes enough.

    The recovery loop of [LogFile] has the length of the file as fuel, like the
    one on bytes; a thread of the kernel in [Device] has the number of words, of
    which a turn passes at least one.  The runs of [Threads] are not bounded.

    ** What is not modelled

    The Windows branches of the transport and of the file layer.  In the object
    store, platform calls and directory creation are behind the outcomes of file
    operations: [Durable] covers the replacement with a flush to disk, not the
    other reads and not a replacement without the flush, whose failures [Files]
    shows.  The system clock and the C library's calendar are arguments.  The
    operations of coordinator and agent meet other threads as interference between
    their steps; the waits on their condition variables, the creation of threads
    and the joins are in [Threads], where an operation is one step of a worker.
    The calls of the runtime to the logger and the fault hooks are not steps of
    its models: the first has no effect on the state modelled, the second only
    ends the process, which the theorems on restart cover.
*)
From stdpp Require Export base list list_numbers gmap numbers.
From Stdlib Require Export ZArith Lia Strings.Byte.
From Stdlib Require String.
Export String.StringSyntax.

#[global] Open Scope Z_scope.

(** ** Bytes

    A [std::uint8_t] is the 256-constructor [byte]; a [std::vector<Byte>], a
    [ByteView] and a [std::string] are all [bytes]. *)

Abbreviation bytes := (list byte).

Definition zb (b : byte) : Z := Z.of_N (Byte.to_N b).

(** [static_cast<Byte>(v)]: reduction modulo 256. *)
Definition bz (v : Z) : byte :=
  match Byte.of_N (Z.to_N (v mod 256)) with Some b => b | None => x00 end.

(** A string literal of the source. *)
Definition lit (s : String.string) : bytes := String.list_byte_of_string s.
Arguments lit _%_string_scope : simpl never.

#[global] Instance byte_eq_dec : EqDecision byte := Byte.byte_eq_dec.
#[global] Instance byte_countable : Countable byte.
Proof.
  refine {| encode := fun b => encode (Byte.to_N b);
            decode := fun p => n ← decode p; Byte.of_N n |}.
  intros b. rewrite decode_encode. simpl. apply Byte.of_to_N.
Defined.

Lemma bz_zb b : bz (zb b) = b.
Proof. destruct b; reflexivity. Qed.

Lemma zb_range b : 0 <= zb b < 256.
Proof.
  unfold zb. pose proof (Byte.to_N_bounded b). lia.
Qed.

Lemma zb_bz v : zb (bz v) = v mod 256.
Proof.
  unfold zb, bz. pose proof (Z.mod_pos_bound v 256 ltac:(lia)) as Hr.
  destruct (Byte.of_N (Z.to_N (v mod 256))) as [b|] eqn:E.
  - apply Byte.to_of_N in E. rewrite E. lia.
  - apply Byte.of_N_None_iff in E. lia.
Qed.

Lemma zb_bz_small v : 0 <= v < 256 -> zb (bz v) = v.
Proof. intros H. rewrite zb_bz. by apply Z.mod_small. Qed.

Lemma zb_inj a b : zb a = zb b -> a = b.
Proof. intros H. by rewrite <- (bz_zb a), <- (bz_zb b), H. Qed.

(** Every byte, for decision by enumeration. *)
Definition all_bytes : list byte := map (fun n => bz (Z.of_nat n)) (seq 0 256).

Lemma byte_forall (P : byte -> bool) :
  forallb P all_bytes = true -> forall b, P b = true.
Proof.
  intros H b. rewrite forallb_forall in H. apply H.
  unfold all_bytes. apply in_map_iff. exists (Z.to_nat (zb b)).
  pose proof (zb_range b) as Hb. split.
  - rewrite Z2Nat.id by lia. apply bz_zb.
  - apply in_seq. lia.
Qed.

(** ** Machine integers

    A [w]-bit unsigned integer is a [Z] in [0, 2^w); [wrap] is the C++
    unsigned wrap-around, written at every arithmetic operation that the
    source leaves unchecked. *)

Definition wrap (w v : Z) : Z := v mod 2 ^ w.
Definition in_u (w v : Z) : Prop := 0 <= v < 2 ^ w.
(** A signed 64-bit value ([Millis] is [std::int64_t]). *)
Definition in_i64 (v : Z) : Prop := - 2 ^ 63 <= v < 2 ^ 63.

#[global] Instance in_u_dec w v : Decision (in_u w v).
Proof. unfold in_u. apply _. Defined.
#[global] Instance in_i64_dec v : Decision (in_i64 v).
Proof. unfold in_i64. apply _. Defined.

Definition u64_max : Z := 2 ^ 64 - 1.

Lemma wrap_small w v : in_u w v -> wrap w v = v.
Proof. apply Z.mod_small. Qed.

Lemma wrap_in_u w v : 0 <= w -> in_u w (wrap w v).
Proof. intros. apply Z.mod_pos_bound. by apply Z.pow_pos_nonneg. Qed.

(** [std::size()] of a byte string or a vector, as a 64-bit count. *)
Definition zlen {A} (l : list A) : Z := Z.of_nat (length l).

Lemma zlen_app {A} (l k : list A) : zlen (l ++ k) = zlen l + zlen k.
Proof. unfold zlen. rewrite length_app. lia. Qed.

Lemma zlen_nonneg {A} (l : list A) : 0 <= zlen l.
Proof. unfold zlen. lia. Qed.

Lemma zlen_nil {A} (l : list A) : zlen l = 0 <-> l = [].
Proof. unfold zlen. destruct l; simpl; split; intros; try done; lia. Qed.

(** ** Boolean equality of bytes and byte strings ([==] on strings, vectors
    and arrays). *)

Definition bytes_eqb (a b : bytes) : bool := bool_decide (a = b).

Lemma bytes_eqb_eq a b : bytes_eqb a b = true <-> a = b.
Proof. apply bool_decide_eq_true. Qed.

Lemma bytes_eqb_neq a b : bytes_eqb a b = false <-> a <> b.
Proof. apply bool_decide_eq_false. Qed.

Lemma bytes_eqb_refl a : bytes_eqb a a = true.
Proof. by apply bytes_eqb_eq. Qed.

(** ** Generic list lemmas *)

Lemma take_app_exact {A} (l k : list A) : take (length l) (l ++ k) = l.
Proof. rewrite take_app_le by done. apply firstn_all. Qed.

Lemma drop_app_exact {A} (l k : list A) : drop (length l) (l ++ k) = k.
Proof. rewrite drop_app_ge by done. by rewrite Nat.sub_diag. Qed.

Lemma forallb_app_iff {A} (f : A -> bool) l k :
  forallb f (l ++ k) = forallb f l && forallb f k.
Proof. apply forallb_app. Qed.

Lemma forallb_seq (P : nat -> bool) n :
  forallb P (seq 0 n) = true -> forall i, (i < n)%nat -> P i = true.
Proof. rewrite forallb_forall. intros H i Hi. apply H, in_seq. lia. Qed.

(** ** Decimal rendering: [std::to_string] of an unsigned integer. *)

Fixpoint dec_digits (fuel : nat) (v : Z) (acc : bytes) : bytes :=
  match fuel with
  | O => acc
  | S f => let acc' := bz (48 + v mod 10) :: acc in
           if v <? 10 then acc' else dec_digits f (v / 10) acc'
  end.

(** Twenty digits suffice for every 64-bit value. *)
Definition std_to_string (v : Z) : bytes := dec_digits 20 v [].

(** ** Tactics *)

Create HintDb smf.

(** [lia] with division and modulo by constants. *)
Ltac zdiv := Z.to_euclidean_division_equations; lia.

(** Turn boolean tests in the context into propositions. *)
Ltac b2p :=
  repeat match goal with
  | H : _ && _ = true |- _ => apply andb_true_iff in H as [? ?]
  | H : _ || _ = false |- _ => apply orb_false_iff in H as [? ?]
  | H : negb _ = true |- _ => apply negb_true_iff in H
  | H : negb _ = false |- _ => apply negb_false_iff in H
  | H : (_ <? _) = true |- _ => apply Z.ltb_lt in H
  | H : (_ <? _) = false |- _ => apply Z.ltb_ge in H
  | H : (_ <=? _) = true |- _ => apply Z.leb_le in H
  | H : (_ <=? _) = false |- _ => apply Z.leb_gt in H
  | H : (_ =? _) = true |- _ => apply Z.eqb_eq in H
  | H : (_ =? _) = false |- _ => apply Z.eqb_neq in H
  | H : bytes_eqb _ _ = true |- _ => apply bytes_eqb_eq in H
  | H : bytes_eqb _ _ = false |- _ => apply bytes_eqb_neq in H
  | H : bool_decide _ = true |- _ => apply bool_decide_eq_true in H
  | H : bool_decide _ = false |- _ => apply bool_decide_eq_false in H
  end.

(** Split every conditional of hypothesis [H], discarding the branches in
    which it is contradictory. *)
Ltac split_ifs H :=
  repeat match type of H with
  | context [if ?c then _ else _] =>
      let E := fresh "E" in destruct c eqn:E; try discriminate H
  end.

(** Split every match of [H] the same way. *)
Ltac split_matches H :=
  repeat match type of H with
  | context [match ?c with _ => _ end] =>
      let E := fresh "E" in destruct c eqn:E; try discriminate H
  end.
