(* ===== verification/Status.v ===== *)
(** * Reason codes, [Status] and [Result<T>]

    Models [include/smf/status.hpp] and [src/status.cpp].  A function that
    returns [Status] is a [Result unit]: [Ok tt] is [Status::success()], and
    [Err s] carries a status whose code is not [OK]. *)
From S2P Require Import Prelude.

Module RC.

(** The enumeration has a fixed 16-bit underlying type, so a value outside the
  list (decoded from a store or a peer) is still a value of the type. *)
Inductive ReasonCode : Type :=
| OK | INTERNAL_ERROR | NOT_IMPLEMENTED | UNSUPPORTED | INVALID_ARGUMENT | INVALID_ID
| INVALID_GENERATION | INVALID_DIGEST | INVALID_UTF8 | INVALID_STATE_KIND
| INVALID_SIZE | INVALID_POLICY | INVALID_ADDRESS | INVALID_STATE_TRANSITION
| NOT_FOUND | OBJECT_NOT_FOUND | OBJECT_VERSION_NOT_FOUND | MOVEMENT_NOT_FOUND
| ENDPOINT_NOT_FOUND | ATTEMPT_NOT_FOUND | NOT_AUTHORIZED | AUTHORITY_EXPIRED
| AUTHORITY_CONSUMED | AUTHORITY_MISMATCH | AUTHORITY_REVOKED | AUTHORITY_STALE
| STALE_GENERATION | STALE_STATE_GENERATION | STALE_MOVEMENT_GENERATION
| STALE_POLICY_GENERATION | STALE_TOPOLOGY_GENERATION
| STALE_COMPATIBILITY_GENERATION | STALE_INCARNATION | STALE_EPOCH | STALE_ATTEMPT
| STALE_SESSION | STALE_REPLAY | ENDPOINT_NOT_LIVE | ENDPOINT_LIVENESS_UNKNOWN
| ENDPOINT_CONTRACT_MISMATCH | COORDINATOR_INCARNATION_MISMATCH
| REVALIDATION_REQUIRED | COMPATIBILITY_EVIDENCE_MISSING | COMPATIBILITY_UNKNOWN
| COMPATIBILITY_UNSUPPORTED | COMPATIBILITY_MISMATCH | COMPATIBILITY_STALE_EVIDENCE
| ILLEGAL_TRANSITION | ALREADY_TERMINAL | MOVEMENT_NOT_CANCELLABLE
| MOVEMENT_NOT_RECONCILABLE | MOVEMENT_SUPERSEDED | MOVEMENT_CANCELLED
| MOVEMENT_FAILED | OUTCOME_UNKNOWN | COMMIT_ALREADY_EXISTS | COMMIT_MARKER_INVALID
| COMMIT_REFUSED | VERIFY_FAILED | INTEGRITY_CHECK_FAILED | CHUNK_OUT_OF_ORDER
| CHUNK_CONFLICT | CHUNK_INDEX_OUT_OF_RANGE | CHUNK_TOO_LARGE | CHUNK_DIGEST_MISMATCH
| CONTENT_DIGEST_MISMATCH | TRANSFER_INCOMPLETE | BYTE_COUNT_MISMATCH
| RESUME_INCOMPATIBLE | RESUME_NOT_ALLOWED | DUPLICATE_ATTEMPT | ATTEMPT_EXHAUSTED
| RETRY_NOT_REPEATABLE | SOURCE_REJECTED | DESTINATION_REJECTED
| PROTOCOL_VERSION_MISMATCH | PROTOCOL_MAGIC_MISMATCH | PROTOCOL_RESERVED_NONZERO
| PROTOCOL_FLAGS_INVALID | PROTOCOL_UNKNOWN_MESSAGE | PROTOCOL_PAYLOAD_TOO_LARGE
| PROTOCOL_TRUNCATED | PROTOCOL_TRAILING_GARBAGE | PROTOCOL_AUTH_FAILED
| PROTOCOL_SEQUENCE_REPLAY | PROTOCOL_SEQUENCE_REGRESSION | PROTOCOL_STATE_VIOLATION
| PROTOCOL_CANONICAL_VIOLATION | PROTOCOL_MALFORMED | PROTOCOL_HANDSHAKE_REQUIRED
| PROTOCOL_HANDSHAKE_FAILED | PROTOCOL_BOUNDS_EXCEEDED | STORE_IO_ERROR
| STORE_CORRUPT | STORE_VERSION_UNSUPPORTED | STORE_TRUNCATED | STORE_OVERSIZED
| STORE_RECORD_INVALID | STORE_CHECKSUM_MISMATCH | STORE_PARTIAL_TAIL | STORE_LOCKED
| STORE_RECOVERY_REQUIRED | IO_ERROR | IO_TIMEOUT | CONNECTION_CLOSED
| CONNECTION_REFUSED | CONNECTION_RESET | ADDRESS_INVALID | BIND_FAILED
| LISTEN_FAILED | CONNECT_FAILED | NETWORK_UNAVAILABLE | SHUTTING_DOWN
| RESOURCE_EXHAUSTED | QUEUE_FULL | TOO_MANY_SESSIONS | TOO_MANY_MOVEMENTS
| HISTORY_LIMIT_REACHED | ALLOCATION_LIMIT_EXCEEDED | BUSY | DEADLINE_EXCEEDED
| CANCELLED_BY_OPERATOR | CLEANUP_FAILED | CLEANUP_SKIPPED | QUARANTINED
| POLICY_VIOLATION | SIZE_OVERFLOW | DUPLICATE_IDENTITY | SELF_MOVEMENT | NO_EVIDENCE
| UNRECOGNIZED (v : Z).

End RC.

Abbreviation ReasonCode := RC.ReasonCode.

(** The declared codes in declaration order; position is value. *)
Definition reason_code_list : list ReasonCode :=
  [RC.OK; RC.INTERNAL_ERROR; RC.NOT_IMPLEMENTED; RC.UNSUPPORTED; RC.INVALID_ARGUMENT;
   RC.INVALID_ID; RC.INVALID_GENERATION; RC.INVALID_DIGEST; RC.INVALID_UTF8;
   RC.INVALID_STATE_KIND; RC.INVALID_SIZE; RC.INVALID_POLICY; RC.INVALID_ADDRESS;
   RC.INVALID_STATE_TRANSITION; RC.NOT_FOUND; RC.OBJECT_NOT_FOUND;
   RC.OBJECT_VERSION_NOT_FOUND; RC.MOVEMENT_NOT_FOUND; RC.ENDPOINT_NOT_FOUND;
   RC.ATTEMPT_NOT_FOUND; RC.NOT_AUTHORIZED; RC.AUTHORITY_EXPIRED;
   RC.AUTHORITY_CONSUMED; RC.AUTHORITY_MISMATCH; RC.AUTHORITY_REVOKED;
   RC.AUTHORITY_STALE; RC.STALE_GENERATION; RC.STALE_STATE_GENERATION;
   RC.STALE_MOVEMENT_GENERATION; RC.STALE_POLICY_GENERATION;
   RC.STALE_TOPOLOGY_GENERATION; RC.STALE_COMPATIBILITY_GENERATION;
   RC.STALE_INCARNATION; RC.STALE_EPOCH; RC.STALE_ATTEMPT; RC.STALE_SESSION;
   RC.STALE_REPLAY; RC.ENDPOINT_NOT_LIVE; RC.ENDPOINT_LIVENESS_UNKNOWN;
   RC.ENDPOINT_CONTRACT_MISMATCH; RC.COORDINATOR_INCARNATION_MISMATCH;
   RC.REVALIDATION_REQUIRED; RC.COMPATIBILITY_EVIDENCE_MISSING;
   RC.COMPATIBILITY_UNKNOWN; RC.COMPATIBILITY_UNSUPPORTED; RC.COMPATIBILITY_MISMATCH;
   RC.COMPATIBILITY_STALE_EVIDENCE; RC.ILLEGAL_TRANSITION; RC.ALREADY_TERMINAL;
   RC.MOVEMENT_NOT_CANCELLABLE; RC.MOVEMENT_NOT_RECONCILABLE; RC.MOVEMENT_SUPERSEDED;
   RC.MOVEMENT_CANCELLED; RC.MOVEMENT_FAILED; RC.OUTCOME_UNKNOWN;
   RC.COMMIT_ALREADY_EXISTS; RC.COMMIT_MARKER_INVALID; RC.COMMIT_REFUSED;
   RC.VERIFY_FAILED; RC.INTEGRITY_CHECK_FAILED; RC.CHUNK_OUT_OF_ORDER;
   RC.CHUNK_CONFLICT; RC.CHUNK_INDEX_OUT_OF_RANGE; RC.CHUNK_TOO_LARGE;
   RC.CHUNK_DIGEST_MISMATCH; RC.CONTENT_DIGEST_MISMATCH; RC.TRANSFER_INCOMPLETE;
   RC.BYTE_COUNT_MISMATCH; RC.RESUME_INCOMPATIBLE; RC.RESUME_NOT_ALLOWED;
   RC.DUPLICATE_ATTEMPT; RC.ATTEMPT_EXHAUSTED; RC.RETRY_NOT_REPEATABLE;
   RC.SOURCE_REJECTED; RC.DESTINATION_REJECTED; RC.PROTOCOL_VERSION_MISMATCH;
   RC.PROTOCOL_MAGIC_MISMATCH; RC.PROTOCOL_RESERVED_NONZERO; RC.PROTOCOL_FLAGS_INVALID;
   RC.PROTOCOL_UNKNOWN_MESSAGE; RC.PROTOCOL_PAYLOAD_TOO_LARGE; RC.PROTOCOL_TRUNCATED;
   RC.PROTOCOL_TRAILING_GARBAGE; RC.PROTOCOL_AUTH_FAILED; RC.PROTOCOL_SEQUENCE_REPLAY;
   RC.PROTOCOL_SEQUENCE_REGRESSION; RC.PROTOCOL_STATE_VIOLATION;
   RC.PROTOCOL_CANONICAL_VIOLATION; RC.PROTOCOL_MALFORMED;
   RC.PROTOCOL_HANDSHAKE_REQUIRED; RC.PROTOCOL_HANDSHAKE_FAILED;
   RC.PROTOCOL_BOUNDS_EXCEEDED; RC.STORE_IO_ERROR; RC.STORE_CORRUPT;
   RC.STORE_VERSION_UNSUPPORTED; RC.STORE_TRUNCATED; RC.STORE_OVERSIZED;
   RC.STORE_RECORD_INVALID; RC.STORE_CHECKSUM_MISMATCH; RC.STORE_PARTIAL_TAIL;
   RC.STORE_LOCKED; RC.STORE_RECOVERY_REQUIRED; RC.IO_ERROR; RC.IO_TIMEOUT;
   RC.CONNECTION_CLOSED; RC.CONNECTION_REFUSED; RC.CONNECTION_RESET;
   RC.ADDRESS_INVALID; RC.BIND_FAILED; RC.LISTEN_FAILED; RC.CONNECT_FAILED;
   RC.NETWORK_UNAVAILABLE; RC.SHUTTING_DOWN; RC.RESOURCE_EXHAUSTED; RC.QUEUE_FULL;
   RC.TOO_MANY_SESSIONS; RC.TOO_MANY_MOVEMENTS; RC.HISTORY_LIMIT_REACHED;
   RC.ALLOCATION_LIMIT_EXCEEDED; RC.BUSY; RC.DEADLINE_EXCEEDED;
   RC.CANCELLED_BY_OPERATOR; RC.CLEANUP_FAILED; RC.CLEANUP_SKIPPED; RC.QUARANTINED;
   RC.POLICY_VIOLATION; RC.SIZE_OVERFLOW; RC.DUPLICATE_IDENTITY; RC.SELF_MOVEMENT;
   RC.NO_EVIDENCE].

(** [static_cast<std::uint16_t>(code)] *)
Definition reason_value (c : ReasonCode) : Z :=
  match c with
  | RC.OK => 0 | RC.INTERNAL_ERROR => 1 | RC.NOT_IMPLEMENTED => 2 | RC.UNSUPPORTED => 3
  | RC.INVALID_ARGUMENT => 4 | RC.INVALID_ID => 5 | RC.INVALID_GENERATION => 6
  | RC.INVALID_DIGEST => 7 | RC.INVALID_UTF8 => 8 | RC.INVALID_STATE_KIND => 9
  | RC.INVALID_SIZE => 10 | RC.INVALID_POLICY => 11 | RC.INVALID_ADDRESS => 12
  | RC.INVALID_STATE_TRANSITION => 13 | RC.NOT_FOUND => 14 | RC.OBJECT_NOT_FOUND => 15
  | RC.OBJECT_VERSION_NOT_FOUND => 16 | RC.MOVEMENT_NOT_FOUND => 17
  | RC.ENDPOINT_NOT_FOUND => 18 | RC.ATTEMPT_NOT_FOUND => 19 | RC.NOT_AUTHORIZED => 20
  | RC.AUTHORITY_EXPIRED => 21 | RC.AUTHORITY_CONSUMED => 22
  | RC.AUTHORITY_MISMATCH => 23 | RC.AUTHORITY_REVOKED => 24 | RC.AUTHORITY_STALE => 25
  | RC.STALE_GENERATION => 26 | RC.STALE_STATE_GENERATION => 27
  | RC.STALE_MOVEMENT_GENERATION => 28 | RC.STALE_POLICY_GENERATION => 29
  | RC.STALE_TOPOLOGY_GENERATION => 30 | RC.STALE_COMPATIBILITY_GENERATION => 31
  | RC.STALE_INCARNATION => 32 | RC.STALE_EPOCH => 33 | RC.STALE_ATTEMPT => 34
  | RC.STALE_SESSION => 35 | RC.STALE_REPLAY => 36 | RC.ENDPOINT_NOT_LIVE => 37
  | RC.ENDPOINT_LIVENESS_UNKNOWN => 38 | RC.ENDPOINT_CONTRACT_MISMATCH => 39
  | RC.COORDINATOR_INCARNATION_MISMATCH => 40 | RC.REVALIDATION_REQUIRED => 41
  | RC.COMPATIBILITY_EVIDENCE_MISSING => 42 | RC.COMPATIBILITY_UNKNOWN => 43
  | RC.COMPATIBILITY_UNSUPPORTED => 44 | RC.COMPATIBILITY_MISMATCH => 45
  | RC.COMPATIBILITY_STALE_EVIDENCE => 46 | RC.ILLEGAL_TRANSITION => 47
  | RC.ALREADY_TERMINAL => 48 | RC.MOVEMENT_NOT_CANCELLABLE => 49
  | RC.MOVEMENT_NOT_RECONCILABLE => 50 | RC.MOVEMENT_SUPERSEDED => 51
  | RC.MOVEMENT_CANCELLED => 52 | RC.MOVEMENT_FAILED => 53 | RC.OUTCOME_UNKNOWN => 54
  | RC.COMMIT_ALREADY_EXISTS => 55 | RC.COMMIT_MARKER_INVALID => 56
  | RC.COMMIT_REFUSED => 57 | RC.VERIFY_FAILED => 58 | RC.INTEGRITY_CHECK_FAILED => 59
  | RC.CHUNK_OUT_OF_ORDER => 60 | RC.CHUNK_CONFLICT => 61
  | RC.CHUNK_INDEX_OUT_OF_RANGE => 62 | RC.CHUNK_TOO_LARGE => 63
  | RC.CHUNK_DIGEST_MISMATCH => 64 | RC.CONTENT_DIGEST_MISMATCH => 65
  | RC.TRANSFER_INCOMPLETE => 66 | RC.BYTE_COUNT_MISMATCH => 67
  | RC.RESUME_INCOMPATIBLE => 68 | RC.RESUME_NOT_ALLOWED => 69
  | RC.DUPLICATE_ATTEMPT => 70 | RC.ATTEMPT_EXHAUSTED => 71
  | RC.RETRY_NOT_REPEATABLE => 72 | RC.SOURCE_REJECTED => 73
  | RC.DESTINATION_REJECTED => 74 | RC.PROTOCOL_VERSION_MISMATCH => 75
  | RC.PROTOCOL_MAGIC_MISMATCH => 76 | RC.PROTOCOL_RESERVED_NONZERO => 77
  | RC.PROTOCOL_FLAGS_INVALID => 78 | RC.PROTOCOL_UNKNOWN_MESSAGE => 79
  | RC.PROTOCOL_PAYLOAD_TOO_LARGE => 80 | RC.PROTOCOL_TRUNCATED => 81
  | RC.PROTOCOL_TRAILING_GARBAGE => 82 | RC.PROTOCOL_AUTH_FAILED => 83
  | RC.PROTOCOL_SEQUENCE_REPLAY => 84 | RC.PROTOCOL_SEQUENCE_REGRESSION => 85
  | RC.PROTOCOL_STATE_VIOLATION => 86 | RC.PROTOCOL_CANONICAL_VIOLATION => 87
  | RC.PROTOCOL_MALFORMED => 88 | RC.PROTOCOL_HANDSHAKE_REQUIRED => 89
  | RC.PROTOCOL_HANDSHAKE_FAILED => 90 | RC.PROTOCOL_BOUNDS_EXCEEDED => 91
  | RC.STORE_IO_ERROR => 92 | RC.STORE_CORRUPT => 93
  | RC.STORE_VERSION_UNSUPPORTED => 94 | RC.STORE_TRUNCATED => 95
  | RC.STORE_OVERSIZED => 96 | RC.STORE_RECORD_INVALID => 97
  | RC.STORE_CHECKSUM_MISMATCH => 98 | RC.STORE_PARTIAL_TAIL => 99
  | RC.STORE_LOCKED => 100 | RC.STORE_RECOVERY_REQUIRED => 101 | RC.IO_ERROR => 102
  | RC.IO_TIMEOUT => 103 | RC.CONNECTION_CLOSED => 104 | RC.CONNECTION_REFUSED => 105
  | RC.CONNECTION_RESET => 106 | RC.ADDRESS_INVALID => 107 | RC.BIND_FAILED => 108
  | RC.LISTEN_FAILED => 109 | RC.CONNECT_FAILED => 110 | RC.NETWORK_UNAVAILABLE => 111
  | RC.SHUTTING_DOWN => 112 | RC.RESOURCE_EXHAUSTED => 113 | RC.QUEUE_FULL => 114
  | RC.TOO_MANY_SESSIONS => 115 | RC.TOO_MANY_MOVEMENTS => 116
  | RC.HISTORY_LIMIT_REACHED => 117 | RC.ALLOCATION_LIMIT_EXCEEDED => 118
  | RC.BUSY => 119 | RC.DEADLINE_EXCEEDED => 120 | RC.CANCELLED_BY_OPERATOR => 121
  | RC.CLEANUP_FAILED => 122 | RC.CLEANUP_SKIPPED => 123 | RC.QUARANTINED => 124
  | RC.POLICY_VIOLATION => 125 | RC.SIZE_OVERFLOW => 126 | RC.DUPLICATE_IDENTITY => 127
  | RC.SELF_MOVEMENT => 128 | RC.NO_EVIDENCE => 129
  | RC.UNRECOGNIZED v => v
  end.

Definition reason_listed (c : ReasonCode) : bool :=
  match c with RC.UNRECOGNIZED _ => false | _ => true end.

(** Two codes are equal when their values are, listed and unlisted ones kept
    apart. *)
Definition reason_key (c : ReasonCode) : bool * Z := (reason_listed c, reason_value c).

Lemma reason_key_inj a b : reason_key a = reason_key b -> a = b.
Proof.
  assert (forall c, (if (reason_key c).1
                     then nth (Z.to_nat (reason_key c).2) reason_code_list RC.OK
                     else RC.UNRECOGNIZED (reason_key c).2) = c) as Hinv
    by (intros c; destruct c; reflexivity).
  intros H. rewrite <- (Hinv a), <- (Hinv b). by rewrite H.
Qed.

#[global] Instance ReasonCode_eq_dec : EqDecision ReasonCode.
Proof.
  refine (fun a b => cast_if (decide (reason_key a = reason_key b))).
  - by apply reason_key_inj.
  - abstract congruence.
Defined.

(** [static_cast<ReasonCode>(value)] *)
Definition reason_of_value (v : Z) : ReasonCode :=
  match reason_code_list !! Z.to_nat v with
  | Some c => c
  | None => RC.UNRECOGNIZED v
  end.

(** [to_string(ReasonCode)] *)
Definition reason_to_string (c : ReasonCode) : bytes :=
  match c with
  | RC.OK => lit "OK"
  | RC.INTERNAL_ERROR => lit "INTERNAL_ERROR"
  | RC.NOT_IMPLEMENTED => lit "NOT_IMPLEMENTED"
  | RC.UNSUPPORTED => lit "UNSUPPORTED"
  | RC.INVALID_ARGUMENT => lit "INVALID_ARGUMENT"
  | RC.INVALID_ID => lit "INVALID_ID"
  | RC.INVALID_GENERATION => lit "INVALID_GENERATION"
  | RC.INVALID_DIGEST => lit "INVALID_DIGEST"
  | RC.INVALID_UTF8 => lit "INVALID_UTF8"
  | RC.INVALID_STATE_KIND => lit "INVALID_STATE_KIND"
  | RC.INVALID_SIZE => lit "INVALID_SIZE"
  | RC.INVALID_POLICY => lit "INVALID_POLICY"
  | RC.INVALID_ADDRESS => lit "INVALID_ADDRESS"
  | RC.INVALID_STATE_TRANSITION => lit "INVALID_STATE_TRANSITION"
  | RC.NOT_FOUND => lit "NOT_FOUND"
  | RC.OBJECT_NOT_FOUND => lit "OBJECT_NOT_FOUND"
  | RC.OBJECT_VERSION_NOT_FOUND => lit "OBJECT_VERSION_NOT_FOUND"
  | RC.MOVEMENT_NOT_FOUND => lit "MOVEMENT_NOT_FOUND"
  | RC.ENDPOINT_NOT_FOUND => lit "ENDPOINT_NOT_FOUND"
  | RC.ATTEMPT_NOT_FOUND => lit "ATTEMPT_NOT_FOUND"
  | RC.NOT_AUTHORIZED => lit "NOT_AUTHORIZED"
  | RC.AUTHORITY_EXPIRED => lit "AUTHORITY_EXPIRED"
  | RC.AUTHORITY_CONSUMED => lit "AUTHORITY_CONSUMED"
  | RC.AUTHORITY_MISMATCH => lit "AUTHORITY_MISMATCH"
  | RC.AUTHORITY_REVOKED => lit "AUTHORITY_REVOKED"
  | RC.AUTHORITY_STALE => lit "AUTHORITY_STALE"
  | RC.STALE_GENERATION => lit "STALE_GENERATION"
  | RC.STALE_STATE_GENERATION => lit "STALE_STATE_GENERATION"
  | RC.STALE_MOVEMENT_GENERATION => lit "STALE_MOVEMENT_GENERATION"
  | RC.STALE_POLICY_GENERATION => lit "STALE_POLICY_GENERATION"
  | RC.STALE_TOPOLOGY_GENERATION => lit "STALE_TOPOLOGY_GENERATION"
  | RC.STALE_COMPATIBILITY_GENERATION => lit "STALE_COMPATIBILITY_GENERATION"
  | RC.STALE_INCARNATION => lit "STALE_INCARNATION"
  | RC.STALE_EPOCH => lit "STALE_EPOCH"
  | RC.STALE_ATTEMPT => lit "STALE_ATTEMPT"
  | RC.STALE_SESSION => lit "STALE_SESSION"
  | RC.STALE_REPLAY => lit "STALE_REPLAY"
  | RC.ENDPOINT_NOT_LIVE => lit "ENDPOINT_NOT_LIVE"
  | RC.ENDPOINT_LIVENESS_UNKNOWN => lit "ENDPOINT_LIVENESS_UNKNOWN"
  | RC.ENDPOINT_CONTRACT_MISMATCH => lit "ENDPOINT_CONTRACT_MISMATCH"
  | RC.COORDINATOR_INCARNATION_MISMATCH => lit "COORDINATOR_INCARNATION_MISMATCH"
  | RC.REVALIDATION_REQUIRED => lit "REVALIDATION_REQUIRED"
  | RC.COMPATIBILITY_EVIDENCE_MISSING => lit "COMPATIBILITY_EVIDENCE_MISSING"
  | RC.COMPATIBILITY_UNKNOWN => lit "COMPATIBILITY_UNKNOWN"
  | RC.COMPATIBILITY_UNSUPPORTED => lit "COMPATIBILITY_UNSUPPORTED"
  | RC.COMPATIBILITY_MISMATCH => lit "COMPATIBILITY_MISMATCH"
  | RC.COMPATIBILITY_STALE_EVIDENCE => lit "COMPATIBILITY_STALE_EVIDENCE"
  | RC.ILLEGAL_TRANSITION => lit "ILLEGAL_TRANSITION"
  | RC.ALREADY_TERMINAL => lit "ALREADY_TERMINAL"
  | RC.MOVEMENT_NOT_CANCELLABLE => lit "MOVEMENT_NOT_CANCELLABLE"
  | RC.MOVEMENT_NOT_RECONCILABLE => lit "MOVEMENT_NOT_RECONCILABLE"
  | RC.MOVEMENT_SUPERSEDED => lit "MOVEMENT_SUPERSEDED"
  | RC.MOVEMENT_CANCELLED => lit "MOVEMENT_CANCELLED"
  | RC.MOVEMENT_FAILED => lit "MOVEMENT_FAILED"
  | RC.OUTCOME_UNKNOWN => lit "OUTCOME_UNKNOWN"
  | RC.COMMIT_ALREADY_EXISTS => lit "COMMIT_ALREADY_EXISTS"
  | RC.COMMIT_MARKER_INVALID => lit "COMMIT_MARKER_INVALID"
  | RC.COMMIT_REFUSED => lit "COMMIT_REFUSED"
  | RC.VERIFY_FAILED => lit "VERIFY_FAILED"
  | RC.INTEGRITY_CHECK_FAILED => lit "INTEGRITY_CHECK_FAILED"
  | RC.CHUNK_OUT_OF_ORDER => lit "CHUNK_OUT_OF_ORDER"
  | RC.CHUNK_CONFLICT => lit "CHUNK_CONFLICT"
  | RC.CHUNK_INDEX_OUT_OF_RANGE => lit "CHUNK_INDEX_OUT_OF_RANGE"
  | RC.CHUNK_TOO_LARGE => lit "CHUNK_TOO_LARGE"
  | RC.CHUNK_DIGEST_MISMATCH => lit "CHUNK_DIGEST_MISMATCH"
  | RC.CONTENT_DIGEST_MISMATCH => lit "CONTENT_DIGEST_MISMATCH"
  | RC.TRANSFER_INCOMPLETE => lit "TRANSFER_INCOMPLETE"
  | RC.BYTE_COUNT_MISMATCH => lit "BYTE_COUNT_MISMATCH"
  | RC.RESUME_INCOMPATIBLE => lit "RESUME_INCOMPATIBLE"
  | RC.RESUME_NOT_ALLOWED => lit "RESUME_NOT_ALLOWED"
  | RC.DUPLICATE_ATTEMPT => lit "DUPLICATE_ATTEMPT"
  | RC.ATTEMPT_EXHAUSTED => lit "ATTEMPT_EXHAUSTED"
  | RC.RETRY_NOT_REPEATABLE => lit "RETRY_NOT_REPEATABLE"
  | RC.SOURCE_REJECTED => lit "SOURCE_REJECTED"
  | RC.DESTINATION_REJECTED => lit "DESTINATION_REJECTED"
  | RC.PROTOCOL_VERSION_MISMATCH => lit "PROTOCOL_VERSION_MISMATCH"
  | RC.PROTOCOL_MAGIC_MISMATCH => lit "PROTOCOL_MAGIC_MISMATCH"
  | RC.PROTOCOL_RESERVED_NONZERO => lit "PROTOCOL_RESERVED_NONZERO"
  | RC.PROTOCOL_FLAGS_INVALID => lit "PROTOCOL_FLAGS_INVALID"
  | RC.PROTOCOL_UNKNOWN_MESSAGE => lit "PROTOCOL_UNKNOWN_MESSAGE"
  | RC.PROTOCOL_PAYLOAD_TOO_LARGE => lit "PROTOCOL_PAYLOAD_TOO_LARGE"
  | RC.PROTOCOL_TRUNCATED => lit "PROTOCOL_TRUNCATED"
  | RC.PROTOCOL_TRAILING_GARBAGE => lit "PROTOCOL_TRAILING_GARBAGE"
  | RC.PROTOCOL_AUTH_FAILED => lit "PROTOCOL_AUTH_FAILED"
  | RC.PROTOCOL_SEQUENCE_REPLAY => lit "PROTOCOL_SEQUENCE_REPLAY"
  | RC.PROTOCOL_SEQUENCE_REGRESSION => lit "PROTOCOL_SEQUENCE_REGRESSION"
  | RC.PROTOCOL_STATE_VIOLATION => lit "PROTOCOL_STATE_VIOLATION"
  | RC.PROTOCOL_CANONICAL_VIOLATION => lit "PROTOCOL_CANONICAL_VIOLATION"
  | RC.PROTOCOL_MALFORMED => lit "PROTOCOL_MALFORMED"
  | RC.PROTOCOL_HANDSHAKE_REQUIRED => lit "PROTOCOL_HANDSHAKE_REQUIRED"
  | RC.PROTOCOL_HANDSHAKE_FAILED => lit "PROTOCOL_HANDSHAKE_FAILED"
  | RC.PROTOCOL_BOUNDS_EXCEEDED => lit "PROTOCOL_BOUNDS_EXCEEDED"
  | RC.STORE_IO_ERROR => lit "STORE_IO_ERROR"
  | RC.STORE_CORRUPT => lit "STORE_CORRUPT"
  | RC.STORE_VERSION_UNSUPPORTED => lit "STORE_VERSION_UNSUPPORTED"
  | RC.STORE_TRUNCATED => lit "STORE_TRUNCATED"
  | RC.STORE_OVERSIZED => lit "STORE_OVERSIZED"
  | RC.STORE_RECORD_INVALID => lit "STORE_RECORD_INVALID"
  | RC.STORE_CHECKSUM_MISMATCH => lit "STORE_CHECKSUM_MISMATCH"
  | RC.STORE_PARTIAL_TAIL => lit "STORE_PARTIAL_TAIL"
  | RC.STORE_LOCKED => lit "STORE_LOCKED"
  | RC.STORE_RECOVERY_REQUIRED => lit "STORE_RECOVERY_REQUIRED"
  | RC.IO_ERROR => lit "IO_ERROR"
  | RC.IO_TIMEOUT => lit "IO_TIMEOUT"
  | RC.CONNECTION_CLOSED => lit "CONNECTION_CLOSED"
  | RC.CONNECTION_REFUSED => lit "CONNECTION_REFUSED"
  | RC.CONNECTION_RESET => lit "CONNECTION_RESET"
  | RC.ADDRESS_INVALID => lit "ADDRESS_INVALID"
  | RC.BIND_FAILED => lit "BIND_FAILED"
  | RC.LISTEN_FAILED => lit "LISTEN_FAILED"
  | RC.CONNECT_FAILED => lit "CONNECT_FAILED"
  | RC.NETWORK_UNAVAILABLE => lit "NETWORK_UNAVAILABLE"
  | RC.SHUTTING_DOWN => lit "SHUTTING_DOWN"
  | RC.RESOURCE_EXHAUSTED => lit "RESOURCE_EXHAUSTED"
  | RC.QUEUE_FULL => lit "QUEUE_FULL"
  | RC.TOO_MANY_SESSIONS => lit "TOO_MANY_SESSIONS"
  | RC.TOO_MANY_MOVEMENTS => lit "TOO_MANY_MOVEMENTS"
  | RC.HISTORY_LIMIT_REACHED => lit "HISTORY_LIMIT_REACHED"
  | RC.ALLOCATION_LIMIT_EXCEEDED => lit "ALLOCATION_LIMIT_EXCEEDED"
  | RC.BUSY => lit "BUSY"
  | RC.DEADLINE_EXCEEDED => lit "DEADLINE_EXCEEDED"
  | RC.CANCELLED_BY_OPERATOR => lit "CANCELLED_BY_OPERATOR"
  | RC.CLEANUP_FAILED => lit "CLEANUP_FAILED"
  | RC.CLEANUP_SKIPPED => lit "CLEANUP_SKIPPED"
  | RC.QUARANTINED => lit "QUARANTINED"
  | RC.POLICY_VIOLATION => lit "POLICY_VIOLATION"
  | RC.SIZE_OVERFLOW => lit "SIZE_OVERFLOW"
  | RC.DUPLICATE_IDENTITY => lit "DUPLICATE_IDENTITY"
  | RC.SELF_MOVEMENT => lit "SELF_MOVEMENT"
  | RC.NO_EVIDENCE => lit "NO_EVIDENCE"
  | RC.UNRECOGNIZED _ => lit "UNRECOGNIZED_REASON_CODE"
  end.

(** [reason_code_from_string]: the declared codes are tried in order. *)
Definition reason_code_from_string (text : bytes) : option ReasonCode :=
  List.find (fun c => bytes_eqb text (reason_to_string c)) reason_code_list.

Definition is_transient (c : ReasonCode) : bool :=
  match c with
  | RC.IO_ERROR | RC.IO_TIMEOUT | RC.CONNECTION_CLOSED | RC.CONNECTION_RESET
  | RC.CONNECTION_REFUSED | RC.CONNECT_FAILED | RC.BUSY | RC.QUEUE_FULL
  | RC.STORE_IO_ERROR | RC.DEADLINE_EXCEEDED | RC.TRANSFER_INCOMPLETE => true
  | _ => false
  end.

Definition is_staleness (c : ReasonCode) : bool :=
  match c with
  | RC.STALE_GENERATION | RC.STALE_STATE_GENERATION | RC.STALE_MOVEMENT_GENERATION
  | RC.STALE_POLICY_GENERATION | RC.STALE_TOPOLOGY_GENERATION
  | RC.STALE_COMPATIBILITY_GENERATION | RC.STALE_INCARNATION | RC.STALE_EPOCH
  | RC.STALE_ATTEMPT | RC.STALE_SESSION | RC.STALE_REPLAY | RC.AUTHORITY_EXPIRED
  | RC.AUTHORITY_CONSUMED | RC.AUTHORITY_STALE | RC.REVALIDATION_REQUIRED
  | RC.COMPATIBILITY_STALE_EVIDENCE => true
  | _ => false
  end.

(** ** Status and Result *)

Record Status := mkStatus { st_code : ReasonCode; st_message : bytes }.

#[global] Instance Status_eq_dec : EqDecision Status.
Proof. solve_decision. Defined.

(** [Status::to_string] *)
Definition Status_to_string (s : Status) : bytes :=
  if bool_decide (st_message s = []) then reason_to_string (st_code s)
  else reason_to_string (st_code s) ++ lit ": " ++ st_message s.

Inductive Result (A : Type) : Type :=
  | Ok (a : A)
  | Err (s : Status).
Arguments Ok {A} _.
Arguments Err {A} _.

(** [return Status(ReasonCode::c, "m");] *)
Definition fail {A} (c : ReasonCode) (m : String.string) : Result A :=
  Err (mkStatus c (lit m)).
Arguments fail {A} c m%_string_scope.

Definition rbind {A B} (m : Result A) (k : A -> Result B) : Result B :=
  match m with Ok a => k a | Err s => Err s end.

Definition is_ok {A} (r : Result A) : bool :=
  match r with Ok _ => true | Err _ => false end.

Declare Scope smf_scope.
Delimit Scope smf_scope with smf.
Notation "'let!' x := m 'in' k" := (rbind m (fun x => k))
  (at level 10, x pattern, m at level 100, k at level 200) : smf_scope.
(** [SMF_RETURN_IF_ERROR(m); k] *)
Notation "m ;! k" := (rbind m (fun _ => k))
  (at level 199, right associativity) : smf_scope.
#[global] Open Scope smf_scope.

Lemma rbind_Ok {A B} (m : Result A) (k : A -> Result B) b :
  rbind m k = Ok b <-> exists a, m = Ok a /\ k a = Ok b.
Proof. destruct m; simpl; naive_solver. Qed.

(** A guard [if (c) return e;] was passed. *)
Lemma reject_Ok {A} (c : bool) (e r : Result A) v :
  e <> Ok v -> (if c then e else r) = Ok v <-> c = false /\ r = Ok v.
Proof. intros H. destruct c; naive_solver. Qed.

Lemma is_ok_Ok {A} (r : Result A) : is_ok r = true <-> exists a, r = Ok a.
Proof. destruct r; simpl; naive_solver. Qed.

(** ** Values and spellings *)

Definition reason_wf (c : ReasonCode) : Prop :=
  match c with RC.UNRECOGNIZED v => 129 < v < 2 ^ 16 | _ => True end.

#[global] Instance reason_wf_dec c : Decision (reason_wf c).
Proof. destruct c; simpl; apply _. Defined.

Lemma reason_value_range c : reason_wf c -> in_u 16 (reason_value c).
Proof. unfold in_u. destruct c; simpl; lia. Qed.

Lemma reason_of_value_value c : reason_wf c -> reason_of_value (reason_value c) = c.
Proof.
  destruct c; try reflexivity. simpl. intros Hv. unfold reason_of_value.
  rewrite lookup_ge_None_2; [done|]. change (length reason_code_list) with 130%nat. lia.
Qed.

Lemma reason_value_of_value v : in_u 16 v -> reason_value (reason_of_value v) = v.
Proof.
  intros Hv. unfold reason_of_value.
  destruct (decide (v < 130)) as [Hlt|Hge].
  - assert (forallb (fun n => reason_value (default RC.OK (reason_code_list !! n)) =? Z.of_nat n)
              (seq 0 130) = true) as Hall by (vm_compute; reflexivity).
    unfold in_u in Hv.
    pose proof (forallb_seq _ _ Hall (Z.to_nat v) ltac:(lia)) as H.
    destruct (lookup_lt_is_Some_2 reason_code_list (Z.to_nat v)) as [c Hc].
    { change (length reason_code_list) with 130%nat. lia. }
    clear Hall. cbv beta in H. rewrite Hc in H |- *. apply Z.eqb_eq in H.
    rewrite Z2Nat.id in H by lia. exact H.
  - rewrite lookup_ge_None_2; [done|]. change (length reason_code_list) with 130%nat.
    unfold in_u in Hv. lia.
Qed.

Lemma reason_of_value_wf v : in_u 16 v -> reason_wf (reason_of_value v).
Proof.
  intros Hv. unfold reason_of_value.
  destruct (reason_code_list !! Z.to_nat v) as [c|] eqn:E.
  - assert (forallb (fun c => bool_decide (reason_wf c)) reason_code_list = true) as Hall
      by (vm_compute; reflexivity).
    rewrite forallb_forall in Hall. apply (bool_decide_eq_true_1 _), Hall.
    apply list_elem_of_In. by eapply list_elem_of_lookup_2.
  - apply lookup_ge_None in E. change (length reason_code_list) with 130%nat in E.
    simpl. unfold in_u in Hv. lia.
Qed.

#[export] Hint Resolve reason_value_range reason_of_value_wf : smf.

(** ** Properties *)

(** (round trip) Reason codes survive the wire and the command line: a declared
    code is recovered from its spelling, and every 16-bit value, declared or
    not, is recovered from the code it is cast to. *)
Theorem reason_codes_roundtrip (c : ReasonCode) (v : Z) :
  (In c reason_code_list -> reason_code_from_string (reason_to_string c) = Some c) /\
  (in_u 16 v -> reason_value (reason_of_value v) = v /\ reason_wf (reason_of_value v)).
Proof.
  split.
  - intros Hin. assert (forallb (fun c => bool_decide (reason_code_from_string (reason_to_string c) = Some c))
      reason_code_list = true) as Hall by (vm_compute; reflexivity).
    rewrite forallb_forall in Hall. by apply (bool_decide_eq_true_1 _), Hall.
  - intros Hv. split; [by apply reason_value_of_value|by apply reason_of_value_wf].
Qed.

Lemma reason_codes_roundtrip_witness : reason_value (reason_of_value 40000) = 40000.
Proof.
  exact (proj1 (proj2 (reason_codes_roundtrip RC.OK 40000) ltac:(vm_compute; split; congruence))).
Defined.
