(* ===== verification/Bytes.v ===== *)
(** * The byte vocabulary

    Models [include/smf/bytes.hpp] and [src/bytes.cpp]: hexadecimal, strict
    UTF-8 validation, constant-time comparison and checked size arithmetic.
    Proved: hexadecimal round trips in both directions, the validator accepts
    exactly the concatenations of encodings of Unicode scalar values, the
    accumulating comparison decides equality, and the checked operations
    report overflow exactly. *)
From S2P Require Import Prelude Status.

(** ** Hexadecimal *)

Definition kHexDigits : bytes := lit "0123456789abcdef".

Definition hex_digit (n : Z) : byte := nth (Z.to_nat n) kHexDigits x00.

Definition hex_value (c : byte) : Z :=
  let v := zb c in
  if (48 <=? v) && (v <=? 57) then v - 48
  else if (97 <=? v) && (v <=? 102) then v - 97 + 10
  else if (65 <=? v) && (v <=? 70) then v - 65 + 10
  else -1.

Fixpoint to_hex (value : bytes) : bytes :=
  match value with
  | [] => []
  | b :: rest =>
      hex_digit (Z.land (Z.shiftr (zb b) 4) 0x0F) :: hex_digit (Z.land (zb b) 0x0F) :: to_hex rest
  end.

(** The decoding loop: two characters per turn. *)
Fixpoint from_hex_loop (text : bytes) : option bytes :=
  match text with
  | h :: l :: rest =>
      let hi := hex_value h in
      let lo := hex_value l in
      if (hi <? 0) || (lo <? 0) then None
      else match from_hex_loop rest with
           | Some decoded => Some (bz (Z.lor (Z.shiftl hi 4) lo) :: decoded)
           | None => None
           end
  | _ => Some []
  end.

(** [false] with [out] untouched is [None]. *)
Definition from_hex (text : bytes) : option bytes :=
  if negb (zlen text mod 2 =? 0) then None else from_hex_loop text.

(** ** UTF-8 *)

(** The leading byte gives the number of continuation bytes and the first bits
    of the code point. *)
Definition utf8_lead (lead : Z) : option (nat * Z) :=
  if Z.land lead 0xE0 =? 0xC0 then Some (1%nat, Z.land lead 0x1F)
  else if Z.land lead 0xF0 =? 0xE0 then Some (2%nat, Z.land lead 0x0F)
  else if Z.land lead 0xF8 =? 0xF0 then Some (3%nat, Z.land lead 0x07)
  else None.

(** The loop over [k = 1 .. continuation]. *)
Fixpoint utf8_continuation (k : nat) (code_point : Z) (rest : bytes) : option Z :=
  match k with
  | O => Some code_point
  | S k' =>
      match rest with
      | [] => None
      | next :: rest' =>
          if negb (Z.land (zb next) 0xC0 =? 0x80) then None
          else utf8_continuation k' (Z.lor (Z.shiftl code_point 6) (Z.land (zb next) 0x3F)) rest'
      end
  end.

(** The checks on a complete code point. *)
Definition utf8_code_point_ok (continuation : nat) (code_point : Z) : bool :=
  if (continuation =? 1)%nat && (code_point <? 0x80) then false
  else if (continuation =? 2)%nat && (code_point <? 0x800) then false
  else if (continuation =? 3)%nat && (code_point <? 0x10000) then false
  else if 0x10FFFF <? code_point then false
  else if (0xD800 <=? code_point) && (code_point <=? 0xDFFF) then false
  else true.

Fixpoint utf8_loop (fuel : nat) (value : bytes) : bool :=
  match value, fuel with
  | [], _ => true
  | _ :: _, O => false
  | b :: rest, S fuel' =>
      let lead := zb b in
      if lead <? 0x80 then utf8_loop fuel' rest
      else match utf8_lead lead with
           | None => false
           | Some (continuation, first) =>
               if (S (length rest) <=? continuation)%nat then false
               else match utf8_continuation continuation first rest with
                    | None => false
                    | Some code_point =>
                        if utf8_code_point_ok continuation code_point
                        then utf8_loop fuel' (drop continuation rest)
                        else false
                    end
           end
  end.

(** Every turn consumes at least one byte, so the length is enough fuel. *)
Definition is_valid_utf8 (value : bytes) : bool := utf8_loop (length value) value.

(** ** Comparison and checked arithmetic *)

Fixpoint ct_accumulate (accumulator : byte) (a b : bytes) : byte :=
  match a, b with
  | x :: a', y :: b' => ct_accumulate (bz (Z.lor (zb accumulator) (Z.lxor (zb x) (zb y)))) a' b'
  | _, _ => accumulator
  end.

Definition constant_time_equal (a b : bytes) : bool :=
  if negb (zlen a =? zlen b) then false
  else zb (ct_accumulate x00 a b) =? 0.

Definition checked_add (a b : Z) : option Z :=
  if u64_max - b <? a then None else Some (wrap 64 (a + b)).

Definition checked_mul (a b : Z) : option Z :=
  if negb (a =? 0) && (u64_max / a <? b) then None else Some (wrap 64 (a * b)).

(** ** Hexadecimal: proofs *)

(** ASCII lower case, the normal form [to_hex] prints. *)
Definition lower (c : byte) : byte :=
  if (65 <=? zb c) && (zb c <=? 90) then bz (zb c + 32) else c.

Definition hex_pair_ok (b : byte) : bool :=
  let h := hex_digit (Z.land (Z.shiftr (zb b) 4) 0x0F) in
  let l := hex_digit (Z.land (zb b) 0x0F) in
  (0 <=? hex_value h) && (0 <=? hex_value l) &&
  bool_decide (bz (Z.lor (Z.shiftl (hex_value h) 4) (hex_value l)) = b).

Lemma hex_pair_all b : hex_pair_ok b = true.
Proof. revert b. apply byte_forall. vm_compute. reflexivity. Qed.

Lemma length_to_hex v : length (to_hex v) = (2 * length v)%nat.
Proof. induction v as [|b v IH]; simpl; [done|]. rewrite IH. lia. Qed.

Lemma from_hex_loop_to_hex v : from_hex_loop (to_hex v) = Some v.
Proof.
  induction v as [|b v IH]; [done|]. simpl. rewrite IH.
  pose proof (hex_pair_all b) as H. unfold hex_pair_ok in H. b2p.
  rewrite (proj2 (Z.ltb_ge _ _)), (proj2 (Z.ltb_ge _ _)) by assumption.
  simpl. by f_equal; f_equal.
Qed.

Lemma from_hex_to_hex v : from_hex (to_hex v) = Some v.
Proof.
  unfold from_hex. replace (zlen (to_hex v) mod 2) with 0.
  - simpl. apply from_hex_loop_to_hex.
  - unfold zlen. rewrite length_to_hex, Nat2Z.inj_mul, Z.mul_comm. by rewrite Z.mod_mul.
Qed.

(** The digits that decode to a value are the lower-case ones up to case. *)
Lemma hex_value_lower c : 0 <= hex_value c ->
  hex_digit (hex_value c) = lower c /\ hex_value c < 16.
Proof.
  assert (forall c, (if hex_value c <? 0 then true
    else bool_decide (hex_digit (hex_value c) = lower c) && (hex_value c <? 16)) = true) as H
    by (apply byte_forall; vm_compute; reflexivity).
  intros Hc. specialize (H c). destruct (Z.ltb_spec (hex_value c) 0); [lia|]. by b2p.
Qed.

Lemma nibbles hi lo : 0 <= hi < 16 -> 0 <= lo < 16 ->
  Z.land (Z.shiftr (zb (bz (Z.lor (Z.shiftl hi 4) lo))) 4) 0x0F = hi /\
  Z.land (zb (bz (Z.lor (Z.shiftl hi 4) lo))) 0x0F = lo.
Proof.
  intros Hh Hl.
  assert (forallb (fun h => forallb (fun l =>
    let v := zb (bz (Z.lor (Z.shiftl (Z.of_nat h) 4) (Z.of_nat l))) in
    (Z.land (Z.shiftr v 4) 0x0F =? Z.of_nat h) && (Z.land v 0x0F =? Z.of_nat l))
    (seq 0 16)) (seq 0 16) = true) as H by (vm_compute; reflexivity).
  pose proof (forallb_seq _ _ H (Z.to_nat hi) ltac:(lia)) as H1.
  pose proof (forallb_seq _ _ H1 (Z.to_nat lo) ltac:(lia)) as H2.
  clear H H1. cbv beta zeta in H2. rewrite !Z2Nat.id in H2 by lia. by b2p.
Qed.

Lemma mod2_SS n : (S (S n) mod 2 = n mod 2)%nat.
Proof. replace (S (S n)) with (n + 1 * 2)%nat by lia. apply Nat.Div0.mod_add. Qed.

Lemma from_hex_loop_lower : forall n t v, (length t <= n)%nat ->
  (length t mod 2 = 0)%nat -> from_hex_loop t = Some v -> to_hex v = map lower t.
Proof.
  induction n as [|n IH]; intros t v Hn He H.
  - destruct t; simpl in *; [by simplify_eq|lia].
  - destruct t as [|h [|l t]]; simpl in H.
    + by simplify_eq.
    + discriminate He.
    + split_ifs H. destruct (from_hex_loop t) as [d|] eqn:Ed; simplify_eq. b2p.
      destruct (hex_value_lower h), (hex_value_lower l); try lia.
      destruct (nibbles (hex_value h) (hex_value l)) as [E1 E2]; try lia.
      simpl. rewrite E1, E2. f_equal; [done|]. f_equal; [done|].
      apply IH; [simpl in Hn; lia| |done].
      cbn [length] in He. by rewrite mod2_SS in He.
Qed.

Lemma from_hex_lower t v : from_hex t = Some v -> to_hex v = map lower t.
Proof.
  unfold from_hex. intros H. split_ifs H. b2p.
  apply (from_hex_loop_lower (length t)); [done| |done].
  apply Nat2Z.inj. rewrite Nat2Z.inj_mod. done.
Qed.

Lemma from_hex_length t v : from_hex t = Some v -> length t = (2 * length v)%nat.
Proof.
  intros H%from_hex_lower. rewrite <- length_to_hex, H. by rewrite length_map.
Qed.

(** ** UTF-8: the reference encoder and the equivalence *)

(** Unicode scalar values: code points that are not surrogates. *)
Definition scalar_value (c : Z) : Prop := 0 <= c < 0xD800 \/ 0xE000 <= c <= 0x10FFFF.

(** The encoding of one scalar value, as the Unicode standard tabulates it. *)
Definition utf8_encode (c : Z) : bytes :=
  if c <? 0x80 then [bz c]
  else if c <? 0x800 then [bz (0xC0 + c / 64); bz (0x80 + c mod 64)]
  else if c <? 0x10000 then
    [bz (0xE0 + c / 4096); bz (0x80 + (c / 64) mod 64); bz (0x80 + c mod 64)]
  else
    [bz (0xF0 + c / 262144); bz (0x80 + (c / 4096) mod 64);
     bz (0x80 + (c / 64) mod 64); bz (0x80 + c mod 64)].

Lemma lead2 b : (Z.land (zb b) 0xE0 =? 0xC0) = (0xC0 <=? zb b) && (zb b <? 0xE0).
Proof. apply eqb_prop. revert b. apply byte_forall. vm_compute. reflexivity. Qed.
Lemma lead3 b : (Z.land (zb b) 0xF0 =? 0xE0) = (0xE0 <=? zb b) && (zb b <? 0xF0).
Proof. apply eqb_prop. revert b. apply byte_forall. vm_compute. reflexivity. Qed.
Lemma lead4 b : (Z.land (zb b) 0xF8 =? 0xF0) = (0xF0 <=? zb b) && (zb b <? 0xF8).
Proof. apply eqb_prop. revert b. apply byte_forall. vm_compute. reflexivity. Qed.
Lemma cont_range b : (Z.land (zb b) 0xC0 =? 0x80) = (0x80 <=? zb b) && (zb b <? 0xC0).
Proof. apply eqb_prop. revert b. apply byte_forall. vm_compute. reflexivity. Qed.

Lemma low_bits v k : 0 <= k -> Z.land v (Z.ones k) = v mod 2 ^ k.
Proof. intros. by apply Z.land_ones. Qed.

Lemma push_six cp b : 0 <= cp ->
  Z.lor (Z.shiftl cp 6) (Z.land (zb b) 0x3F) = cp * 64 + zb b mod 64.
Proof.
  intros Hc. change 0x3F with (Z.ones 6). rewrite low_bits by lia.
  change (2 ^ 6) with 64. pose proof (Z.mod_pos_bound (zb b) 64 ltac:(lia)).
  rewrite <- Z.add_nocarry_lor.
  - rewrite Z.shiftl_mul_pow2 by lia. done.
  - apply Z.bits_inj'. intros i Hi. rewrite Z.land_spec, Z.bits_0.
    destruct (decide (i < 6)).
    + by rewrite Z.shiftl_spec_low.
    + change 64 with (2 ^ 6). rewrite <- (low_bits (zb b) 6) by lia. rewrite Z.land_spec, Z.ones_spec_high by lia.
      by rewrite !andb_false_r.
Qed.

Lemma bz_of b v : zb b = v -> bz v = b.
Proof. intros <-. apply bz_zb. Qed.

Definition is_cont (b : byte) : Prop := 0x80 <= zb b < 0xC0.

Lemma utf8_continuation_S k cp rest cp' : 0 <= cp ->
  utf8_continuation (S k) cp rest = Some cp' ->
  exists b rest', rest = b :: rest' /\ is_cont b /\
    utf8_continuation k (cp * 64 + zb b mod 64) rest' = Some cp'.
Proof.
  intros Hcp H. destruct rest as [|b rest']; [done|]. cbn [utf8_continuation] in H.
  rewrite cont_range, push_six in H by done. split_ifs H. b2p.
  exists b, rest'. unfold is_cont. auto.
Qed.

Lemma utf8_continuation_cons k cp b rest : 0 <= cp -> is_cont b ->
  utf8_continuation (S k) cp (b :: rest) =
  utf8_continuation k (cp * 64 + zb b mod 64) rest.
Proof.
  intros Hcp [? ?]. cbn [utf8_continuation]. rewrite cont_range, push_six by done.
  by rewrite (proj2 (Z.leb_le _ _)), (proj2 (Z.ltb_lt _ _)) by lia.
Qed.

(** What the leading byte says, as ranges. *)
Lemma utf8_lead_spec b n first : utf8_lead (zb b) = Some (n, first) ->
  (n = 1%nat /\ 0xC0 <= zb b < 0xE0 /\ first = zb b - 0xC0) \/
  (n = 2%nat /\ 0xE0 <= zb b < 0xF0 /\ first = zb b - 0xE0) \/
  (n = 3%nat /\ 0xF0 <= zb b < 0xF8 /\ first = zb b - 0xF0).
Proof.
  unfold utf8_lead. rewrite lead2, lead3, lead4.
  change 0x1F with (Z.ones 5). change 0x0F with (Z.ones 4). change 0x07 with (Z.ones 3).
  rewrite !low_bits by lia. change (2 ^ 5) with 32. change (2 ^ 4) with 16.
  change (2 ^ 3) with 8.
  intros H. split_ifs H; simplify_eq; b2p; [left|right; left|right; right]; zdiv.
Qed.

Lemma utf8_lead_1 b : 0xC0 <= zb b < 0xE0 -> utf8_lead (zb b) = Some (1%nat, zb b - 0xC0).
Proof.
  intros H. unfold utf8_lead. rewrite lead2, (proj2 (Z.leb_le _ _)), (proj2 (Z.ltb_lt _ _)) by lia.
  simpl. f_equal. f_equal. change 0x1F with (Z.ones 5). rewrite low_bits by lia.
  change (2 ^ 5) with 32. zdiv.
Qed.

Lemma utf8_lead_2 b : 0xE0 <= zb b < 0xF0 -> utf8_lead (zb b) = Some (2%nat, zb b - 0xE0).
Proof.
  intros H. unfold utf8_lead. rewrite lead2, lead3.
  rewrite (proj2 (Z.leb_le 0xC0 _)), (proj2 (Z.ltb_ge _ 0xE0)), (proj2 (Z.leb_le _ _)),
    (proj2 (Z.ltb_lt _ _)) by lia.
  simpl. f_equal. f_equal. change 0x0F with (Z.ones 4). rewrite low_bits by lia.
  change (2 ^ 4) with 16. zdiv.
Qed.

Lemma utf8_lead_3 b : 0xF0 <= zb b < 0xF8 -> utf8_lead (zb b) = Some (3%nat, zb b - 0xF0).
Proof.
  intros H. unfold utf8_lead. rewrite lead2, lead3, lead4.
  rewrite (proj2 (Z.leb_le 0xC0 _)), (proj2 (Z.ltb_ge _ 0xE0)), (proj2 (Z.leb_le 0xE0 _)),
    (proj2 (Z.ltb_ge _ 0xF0)), (proj2 (Z.leb_le _ _)), (proj2 (Z.ltb_lt _ _)) by lia.
  simpl. f_equal. f_equal. change 0x07 with (Z.ones 3). rewrite low_bits by lia.
  change (2 ^ 3) with 8. zdiv.
Qed.

Lemma utf8_code_point_ok_spec n cp : utf8_code_point_ok n cp = true ->
  (n = 1%nat -> 0x80 <= cp) /\ (n = 2%nat -> 0x800 <= cp) /\ (n = 3%nat -> 0x10000 <= cp) /\
  cp <= 0x10FFFF /\ (cp < 0xD800 \/ 0xDFFF < cp).
Proof.
  unfold utf8_code_point_ok. intros H. split_ifs H; b2p;
    repeat match goal with
    | E : _ && _ = false |- _ => apply andb_false_iff in E as [E|E]
    | E : (_ =? _)%nat = false |- _ => apply Nat.eqb_neq in E
    end; b2p; lia.
Qed.

(** One accepted multi-byte sequence is the encoding of a scalar value. *)
Lemma utf8_sequence_sound b n first rest cp :
  utf8_lead (zb b) = Some (n, first) -> utf8_continuation n first rest = Some cp ->
  utf8_code_point_ok n cp = true ->
  scalar_value cp /\ b :: take n rest = utf8_encode cp.
Proof.
  intros [(->&Hb&->)|[(->&Hb&->)|(->&Hb&->)]]%utf8_lead_spec Hc
    (K1&K2&K3&Hmax&Hsur)%utf8_code_point_ok_spec.
  - apply utf8_continuation_S in Hc as (b1&r1&->&C1&Hc); [|lia]. injection Hc as <-.
    unfold is_cont in *. specialize (K1 eq_refl).
    split; [unfold scalar_value; zdiv|]. unfold utf8_encode.
    rewrite (proj2 (Z.ltb_ge _ _)) by lia. rewrite (proj2 (Z.ltb_lt _ _)) by zdiv.
    simpl. rewrite take_0. f_equal; [|f_equal]; symmetry; apply bz_of; zdiv.
  - apply utf8_continuation_S in Hc as (b1&r1&->&C1&Hc); [|lia].
    apply utf8_continuation_S in Hc as (b2&r2&->&C2&Hc); [|zdiv]. injection Hc as <-.
    unfold is_cont in *. specialize (K2 eq_refl).
    split; [unfold scalar_value; zdiv|]. unfold utf8_encode.
    rewrite (proj2 (Z.ltb_ge _ 0x80)), (proj2 (Z.ltb_ge _ 0x800)) by lia.
    rewrite (proj2 (Z.ltb_lt _ _)) by zdiv.
    simpl. rewrite take_0. f_equal; [|f_equal; [|f_equal]]; symmetry; apply bz_of; zdiv.
  - apply utf8_continuation_S in Hc as (b1&r1&->&C1&Hc); [|lia].
    apply utf8_continuation_S in Hc as (b2&r2&->&C2&Hc); [|zdiv].
    apply utf8_continuation_S in Hc as (b3&r3&->&C3&Hc); [|zdiv]. injection Hc as <-.
    unfold is_cont in *. specialize (K3 eq_refl).
    split; [unfold scalar_value; zdiv|]. unfold utf8_encode.
    rewrite (proj2 (Z.ltb_ge _ 0x80)), (proj2 (Z.ltb_ge _ 0x800)),
      (proj2 (Z.ltb_ge _ 0x10000)) by lia.
    simpl. rewrite take_0. f_equal; [|f_equal; [|f_equal; [|f_equal]]]; symmetry; apply bz_of; zdiv.
Qed.

Lemma utf8_loop_sound : forall fuel v, utf8_loop fuel v = true ->
  exists cps, Forall scalar_value cps /\ v = concat (map utf8_encode cps).
Proof.
  induction fuel as [|fuel IH]; intros [|b rest] H; try done; try by exists [].
  cbn [utf8_loop] in H. destruct (Z.ltb_spec (zb b) 0x80) as [Hlt|Hge].
  - apply IH in H as (cps & Hs & ->). exists (zb b :: cps). pose proof (zb_range b). split.
    + constructor; [unfold scalar_value; lia|done].
    + simpl. unfold utf8_encode. rewrite (proj2 (Z.ltb_lt _ _)) by done. simpl. by rewrite bz_zb.
  - destruct (utf8_lead (zb b)) as [[n first]|] eqn:El; [|done]. split_ifs H.
    destruct (utf8_continuation n first rest) as [cp|] eqn:Ec; [|done]. split_ifs H.
    destruct (utf8_sequence_sound b n first rest cp) as [Hsc Henc]; try done.
    apply IH in H as (cps & Hs & Hv). exists (cp :: cps). split; [by constructor|].
    simpl. rewrite <- Henc, <- Hv. simpl. by rewrite take_drop.
Qed.

(** One turn of the loop over a sequence whose parts check out. *)
Lemma utf8_loop_turn b n first conts tl c fuel :
  utf8_lead (zb b) = Some (n, first) -> length conts = n ->
  utf8_continuation n first (conts ++ tl) = Some c -> utf8_code_point_ok n c = true ->
  utf8_loop (S fuel) (b :: conts ++ tl) = utf8_loop fuel tl.
Proof.
  intros El Hn Ec Ek. cbn [utf8_loop]. pose proof (utf8_lead_spec _ _ _ El) as Hspec.
  rewrite (proj2 (Z.ltb_ge _ 0x80)), El by lia.
  replace (S (length (conts ++ tl)) <=? n)%nat with false
    by (symmetry; apply Nat.leb_gt; rewrite length_app; lia).
  rewrite Ec, Ek. subst n. by rewrite drop_app_exact.
Qed.

Lemma utf8_code_point_ok_intro n c :
  (n = 1%nat -> 0x80 <= c) -> (n = 2%nat -> 0x800 <= c) -> (n = 3%nat -> 0x10000 <= c) ->
  scalar_value c -> utf8_code_point_ok n c = true.
Proof.
  unfold scalar_value, utf8_code_point_ok. intros H1 H2 H3 Hs.
  replace ((0xD800 <=? c) && (c <=? 0xDFFF)) with false
    by (symmetry; apply andb_false_iff; rewrite Z.leb_gt, Z.leb_gt; lia).
  rewrite (proj2 (Z.ltb_ge _ c)) by lia.
  destruct (Nat.eqb_spec n 1), (Nat.eqb_spec n 2), (Nat.eqb_spec n 3); simpl;
    rewrite ?(proj2 (Z.ltb_ge c _)) by lia; done.
Qed.

(** The bytes the reference encoder emits keep their value. *)
Ltac emitted := rewrite ?zb_bz_small by zdiv.

Lemma utf8_loop_encode_2 c fuel tl : 0x80 <= c < 0x800 ->
  utf8_loop (S fuel) (bz (0xC0 + c / 64) :: [bz (0x80 + c mod 64)] ++ tl) = utf8_loop fuel tl.
Proof.
  intros Hc. eapply (utf8_loop_turn _ _ _ _ _ c).
  - apply utf8_lead_1. emitted. zdiv.
  - done.
  - cbn [app]. emitted. rewrite utf8_continuation_cons by (unfold is_cont; emitted; zdiv).
    cbn [utf8_continuation]. emitted. f_equal. zdiv.
  - apply utf8_code_point_ok_intro; unfold scalar_value; lia.
Qed.

Lemma utf8_loop_encode_3 c fuel tl : 0x800 <= c < 0x10000 -> scalar_value c ->
  utf8_loop (S fuel) (bz (0xE0 + c / 4096) ::
    [bz (0x80 + (c / 64) mod 64); bz (0x80 + c mod 64)] ++ tl) = utf8_loop fuel tl.
Proof.
  intros Hc Hs. eapply (utf8_loop_turn _ _ _ _ _ c).
  - apply utf8_lead_2. emitted. zdiv.
  - done.
  - cbn [app]. emitted. rewrite !utf8_continuation_cons by (unfold is_cont; emitted; zdiv).
    cbn [utf8_continuation]. emitted. f_equal. zdiv.
  - apply utf8_code_point_ok_intro; lia || done.
Qed.

Lemma utf8_loop_encode_4 c fuel tl : 0x10000 <= c -> scalar_value c ->
  utf8_loop (S fuel) (bz (0xF0 + c / 262144) ::
    [bz (0x80 + (c / 4096) mod 64); bz (0x80 + (c / 64) mod 64); bz (0x80 + c mod 64)] ++ tl)
  = utf8_loop fuel tl.
Proof.
  intros Hc Hs. unfold scalar_value in Hs. eapply (utf8_loop_turn _ _ _ _ _ c).
  - apply utf8_lead_3. emitted. zdiv.
  - done.
  - cbn [app]. emitted. rewrite !utf8_continuation_cons by (unfold is_cont; emitted; zdiv).
    cbn [utf8_continuation]. emitted. f_equal. zdiv.
  - apply utf8_code_point_ok_intro; lia || done.
Qed.

(** One encoding is consumed by one turn of the loop. *)
Lemma utf8_loop_encode c fuel tl : scalar_value c ->
  utf8_loop (S fuel) (utf8_encode c ++ tl) = utf8_loop fuel tl.
Proof.
  intros Hs. unfold utf8_encode.
  destruct (Z.ltb_spec c 0x80); [|destruct (Z.ltb_spec c 0x800); [|destruct (Z.ltb_spec c 0x10000)]].
  - unfold scalar_value in Hs. simpl. rewrite zb_bz_small by lia.
    by rewrite (proj2 (Z.ltb_lt _ _)) by lia.
  - apply utf8_loop_encode_2. lia.
  - by apply utf8_loop_encode_3.
  - by apply utf8_loop_encode_4.
Qed.

Lemma utf8_encode_cons c : exists b r, utf8_encode c = b :: r.
Proof. unfold utf8_encode. repeat case_match; eauto. Qed.

Lemma utf8_loop_complete cps : forall fuel, Forall scalar_value cps ->
  (length (concat (map utf8_encode cps)) <= fuel)%nat ->
  utf8_loop fuel (concat (map utf8_encode cps)) = true.
Proof.
  induction cps as [|c cps IH]; intros fuel Hs Hl; [by destruct fuel|].
  inversion_clear Hs as [|? ? Hc Hs']. simpl in Hl |- *.
  destruct (utf8_encode_cons c) as (b & r & E). rewrite length_app, E in Hl.
  destruct fuel as [|fuel]; [simpl in Hl; lia|].
  rewrite utf8_loop_encode by done. apply IH; [done|]. simpl in Hl. lia.
Qed.

Lemma valid_utf8_iff v :
  is_valid_utf8 v = true <->
  exists cps, Forall scalar_value cps /\ v = concat (map utf8_encode cps).
Proof.
  split; [apply utf8_loop_sound|]. intros (cps & Hs & ->). by apply utf8_loop_complete.
Qed.

Lemma valid_utf8_app a b :
  is_valid_utf8 a = true -> is_valid_utf8 b = true -> is_valid_utf8 (a ++ b) = true.
Proof.
  rewrite !valid_utf8_iff. intros (c1 & H1 & ->) (c2 & H2 & ->).
  exists (c1 ++ c2). rewrite map_app, concat_app. split; [by apply Forall_app|done].
Qed.

Lemma valid_utf8_ascii v : forallb (fun b => zb b <? 0x80) v = true -> is_valid_utf8 v = true.
Proof.
  unfold is_valid_utf8. induction v as [|b v IH]; [done|]. simpl.
  intros [Hb Hv]%andb_true_iff. rewrite Hb. by apply IH.
Qed.

(** ** Comparison and arithmetic: proofs *)

Lemma lor_lxor_zero acc x y :
  zb (bz (Z.lor (zb acc) (Z.lxor (zb x) (zb y)))) = 0 <-> zb acc = 0 /\ x = y.
Proof.
  pose proof (zb_range acc). pose proof (zb_range x). pose proof (zb_range y).
  assert (0 <= Z.lor (zb acc) (Z.lxor (zb x) (zb y)) < 2 ^ 8) as Hr.
  { split; [apply Z.lor_nonneg; split; [lia|apply Z.lxor_nonneg; lia]|].
    apply Z.log2_lt_cancel. rewrite Z.log2_lor by (try apply Z.lxor_nonneg; lia).
    pose proof (Z.log2_lxor (zb x) (zb y) ltac:(lia) ltac:(lia)).
    assert (forall b, Z.log2 (zb b) < 8) as L.
    { intros b. pose proof (zb_range b). destruct (decide (zb b = 0)) as [->|]; [done|].
      apply Z.log2_lt_pow2; lia. }
    pose proof (L acc). pose proof (L x). pose proof (L y). change (Z.log2 (2 ^ 8)) with 8. lia. }
  rewrite zb_bz_small by (change 256 with (2 ^ 8); done).
  rewrite Z.lor_eq_0_iff, Z.lxor_eq_0_iff. split; intros [-> E]; split; try done.
  - by apply zb_inj.
  - by subst.
Qed.

Lemma ct_accumulate_zero a : forall b acc, length a = length b ->
  zb (ct_accumulate acc a b) = 0 <-> zb acc = 0 /\ a = b.
Proof.
  induction a as [|x a IH]; intros [|y b] acc Hl; simpl in *; try lia.
  - naive_solver.
  - rewrite IH, lor_lxor_zero by lia. naive_solver.
Qed.

Lemma constant_time_equal_eq a b : constant_time_equal a b = true <-> a = b.
Proof.
  unfold constant_time_equal. destruct (Z.eqb_spec (zlen a) (zlen b)) as [E|E]; simpl.
  - rewrite Z.eqb_eq, ct_accumulate_zero by (unfold zlen in E; lia). naive_solver.
  - split; [done|]. intros ->. done.
Qed.

Lemma constant_time_equal_neq a b : constant_time_equal a b = false <-> a <> b.
Proof. rewrite <- constant_time_equal_eq. destruct (constant_time_equal a b); naive_solver. Qed.

Lemma checked_add_spec a b : in_u 64 a -> in_u 64 b ->
  checked_add a b = if bool_decide (in_u 64 (a + b)) then Some (a + b) else None.
Proof.
  unfold checked_add, u64_max, in_u. intros Ha Hb.
  destruct (Z.ltb_spec (2 ^ 64 - 1 - b) a); case_bool_decide; try lia; try done.
  by rewrite wrap_small.
Qed.

Lemma checked_mul_spec a b : in_u 64 a -> in_u 64 b ->
  checked_mul a b = if bool_decide (in_u 64 (a * b)) then Some (a * b) else None.
Proof.
  unfold checked_mul, u64_max, in_u. intros Ha Hb.
  destruct (Z.eqb_spec a 0) as [->|Hne]; cbn [negb andb].
  { rewrite Z.mul_0_l. case_bool_decide; [done|lia]. }
  destruct (Z.ltb_spec ((2 ^ 64 - 1) / a) b) as [Hlt|Hge].
  - case_bool_decide as Hp; [|done]. exfalso.
    assert (b <= (2 ^ 64 - 1) / a); [|lia]. apply Z.div_le_lower_bound; lia.
  - assert (a * b <= 2 ^ 64 - 1).
    { pose proof (Z.mul_div_le (2 ^ 64 - 1) a ltac:(lia)). nia. }
    case_bool_decide; [by rewrite wrap_small|nia].
Qed.

(** ** Decimal text is short ASCII *)

Lemma dec_digits_spec fuel : forall v acc, 0 <= v ->
  forallb (fun b => zb b <? 0x80) acc = true ->
  forallb (fun b => zb b <? 0x80) (dec_digits fuel v acc) = true /\
  zlen (dec_digits fuel v acc) <= zlen acc + Z.of_nat fuel.
Proof.
  induction fuel as [|f IH]; intros v acc Hv Ha; cbn [dec_digits]; [split; [done|lia]|].
  assert (forallb (fun b => zb b <? 0x80) (bz (48 + v mod 10) :: acc) = true) as Ha'.
  { cbn [forallb]. rewrite Ha, andb_true_r. apply Z.ltb_lt.
    rewrite zb_bz_small; pose proof (Z.mod_pos_bound v 10); lia. }
  destruct (v <? 10).
  - split; [done|]. unfold zlen. cbn [length]. lia.
  - destruct (IH (v / 10) _ (Z.div_pos v 10 Hv eq_refl) Ha') as [H1 H2]. split; [done|].
    unfold zlen in *. cbn [length] in *. lia.
Qed.

Lemma std_to_string_text v : 0 <= v ->
  is_valid_utf8 (std_to_string v) = true /\ zlen (std_to_string v) <= 20.
Proof.
  intros Hv. destruct (dec_digits_spec 20 v [] Hv eq_refl) as [H1 H2].
  split; [by apply valid_utf8_ascii|exact H2].
Qed.

(** ** Properties *)

(** (functional, round trip) The hexadecimal reader accepts exactly the
    even-length strings of hexadecimal digits in either case: rendering then
    reading is the identity, and whatever is read renders back to the
    lower-case form of the input. *)
Theorem hex_roundtrip (v t : bytes) :
  from_hex (to_hex v) = Some v /\
  (from_hex t = Some v -> to_hex v = map lower t /\ length t = (2 * length v)%nat).
Proof.
  split; [apply from_hex_to_hex|]. intros H. split; [by apply from_hex_lower|by apply from_hex_length].
Qed.

Lemma hex_roundtrip_witness : to_hex [xab; x0c] = map lower (lit "aB0C").
Proof. apply (proj1 (proj2 (hex_roundtrip [xab; x0c] (lit "aB0C")) eq_refl)). Defined.

(** (equivalence) The UTF-8 validator accepts exactly the concatenations of
    shortest-form encodings of Unicode scalar values: no overlong form, no
    surrogate, nothing above U+10FFFF, no truncated sequence. *)
Theorem utf8_validator_exact (v : bytes) :
  is_valid_utf8 v = true <-> exists cps, Forall scalar_value cps /\ v = concat (map utf8_encode cps).
Proof. apply valid_utf8_iff. Qed.
