(* ===== verification/Digest.v ===== *)
(** * SHA-256, HMAC-SHA-256 and the [Digest] type

    Models [include/smf/digest.hpp] and [src/digest.cpp].  The incremental
    hasher keeps the chaining words, the buffered bytes and the byte total;
    [sha256_spec] is the one-shot definition of FIPS 180-4 over the padded
    message.  Proved: every way of splitting a message into updates gives the
    same digest, and that digest is the specified one; HMAC is the RFC 2104
    construction. *)
From S2P Require Import Prelude Status Bytes.

(** ** The digest value *)

(** [std::array<Byte, 32>]; [digest_wf] is the array's width. *)
Abbreviation Digest := bytes.
Definition kDigestBytes : nat := 32.
Definition digest_wf (d : Digest) : Prop := length d = kDigestBytes.
(** [Digest()]: value-initialised. *)
Definition zero_digest : Digest := replicate kDigestBytes x00.

(** [is_zero] of [Digest] and of [FixedId]: OR of all bytes. *)
Definition array_is_zero (a : bytes) : bool :=
  zb (fold_left (fun acc b => bz (Z.lor (zb acc) (zb b))) a x00) =? 0.

Definition Digest_from_hex (text : bytes) : Result Digest :=
  if negb (zlen text =? 64) then fail RC.INVALID_DIGEST "digest hex must be 64 characters"
  else match from_hex text with
       | Some raw => if negb (zlen raw =? 32)
                     then fail RC.INVALID_DIGEST "digest hex is not valid hexadecimal"
                     else Ok raw
       | None => fail RC.INVALID_DIGEST "digest hex is not valid hexadecimal"
       end.

Definition Digest_from_bytes (raw : bytes) : Result Digest :=
  if negb (zlen raw =? 32) then fail RC.INVALID_DIGEST "digest requires exactly 32 bytes"
  else Ok raw.

(** ** The compression function *)

Definition kRoundConstants : list Z :=
  [0x428a_2f98; 0x7137_4491; 0xb5c0_fbcf; 0xe9b5_dba5; 0x3956_c25b; 0x59f1_11f1; 0x923f_82a4;
   0xab1c_5ed5; 0xd807_aa98; 0x1283_5b01; 0x2431_85be; 0x550c_7dc3; 0x72be_5d74; 0x80de_b1fe;
   0x9bdc_06a7; 0xc19b_f174; 0xe49b_69c1; 0xefbe_4786; 0x0fc1_9dc6; 0x240c_a1cc; 0x2de9_2c6f;
   0x4a74_84aa; 0x5cb0_a9dc; 0x76f9_88da; 0x983e_5152; 0xa831_c66d; 0xb003_27c8; 0xbf59_7fc7;
   0xc6e0_0bf3; 0xd5a7_9147; 0x06ca_6351; 0x1429_2967; 0x27b7_0a85; 0x2e1b_2138; 0x4d2c_6dfc;
   0x5338_0d13; 0x650a_7354; 0x766a_0abb; 0x81c2_c92e; 0x9272_2c85; 0xa2bf_e8a1; 0xa81a_664b;
   0xc24b_8b70; 0xc76c_51a3; 0xd192_e819; 0xd699_0624; 0xf40e_3585; 0x106a_a070; 0x19a4_c116;
   0x1e37_6c08; 0x2748_774c; 0x34b0_bcb5; 0x391c_0cb3; 0x4ed8_aa4a; 0x5b9c_ca4f; 0x682e_6ff3;
   0x748f_82ee; 0x78a5_636f; 0x84c8_7814; 0x8cc7_0208; 0x90be_fffa; 0xa450_6ceb; 0xbef9_a3f7;
   0xc671_78f2].

(** The eight working words [a .. h], also the chaining state. *)
Record Words := mkWords { wa : Z; wb : Z; wc : Z; wd : Z; we : Z; wf : Z; wg : Z; wh : Z }.

Definition kInitialState : Words :=
  mkWords 0x6a09_e667 0xbb67_ae85 0x3c6e_f372 0xa54f_f53a 0x510e_527f 0x9b05_688c 0x1f83_d9ab 0x5be0_cd19.

Definition add32 (x y : Z) : Z := wrap 32 (x + y).

Definition rotr (value shift : Z) : Z :=
  Z.lor (Z.shiftr value shift) (wrap 32 (Z.shiftl value (32 - shift))).

Definition load_be32 (p : bytes) : Z :=
  match p with
  | p0 :: p1 :: p2 :: p3 :: _ =>
      Z.lor (Z.lor (Z.lor (Z.shiftl (zb p0) 24) (Z.shiftl (zb p1) 16)) (Z.shiftl (zb p2) 8)) (zb p3)
  | _ => 0
  end.

Definition store_be32 (value : Z) : bytes :=
  [bz (Z.land (Z.shiftr value 24) 0xFF); bz (Z.land (Z.shiftr value 16) 0xFF);
   bz (Z.land (Z.shiftr value 8) 0xFF); bz (Z.land value 0xFF)].

(** [w[i] = load_be32(block + 4 i)] for [i < 16], newest word first. *)
Fixpoint load_words (n : nat) (block : bytes) (w : list Z) : list Z :=
  match n with
  | O => w
  | S n' => load_words n' (drop 4 block) (load_be32 block :: w)
  end.

(** [w[i]] for [16 <= i < 64]; the list is newest first, so [w[i-k]] is entry
    [k-1]. *)
Definition schedule_word (w : list Z) : Z :=
  let w15 := nth 14 w 0 in
  let w2 := nth 1 w 0 in
  let s0 := Z.lxor (Z.lxor (rotr w15 7) (rotr w15 18)) (Z.shiftr w15 3) in
  let s1 := Z.lxor (Z.lxor (rotr w2 17) (rotr w2 19)) (Z.shiftr w2 10) in
  add32 (add32 (add32 (nth 15 w 0) s0) (nth 6 w 0)) s1.

Fixpoint extend_words (n : nat) (w : list Z) : list Z :=
  match n with
  | O => w
  | S n' => extend_words n' (schedule_word w :: w)
  end.

Definition sha_round (s : Words) (k w : Z) : Words :=
  let '(mkWords a b c d e f g h) := s in
  let s1 := Z.lxor (Z.lxor (rotr e 6) (rotr e 11)) (rotr e 25) in
  let ch := Z.lxor (Z.land e f) (Z.land (wrap 32 (Z.lnot e)) g) in
  let temp1 := add32 (add32 (add32 (add32 h s1) ch) k) w in
  let s0 := Z.lxor (Z.lxor (rotr a 2) (rotr a 13)) (rotr a 22) in
  let maj := Z.lxor (Z.lxor (Z.land a b) (Z.land a c)) (Z.land b c) in
  let temp2 := add32 s0 maj in
  mkWords (add32 temp1 temp2) a b c (add32 d temp1) e f g.

Fixpoint sha_rounds (ks ws : list Z) (s : Words) : Words :=
  match ks, ws with
  | k :: ks', w :: ws' => sha_rounds ks' ws' (sha_round s k w)
  | _, _ => s
  end.

Definition compress (state : Words) (block : bytes) : Words :=
  let w := rev (extend_words 48 (load_words 16 block [])) in
  let r := sha_rounds kRoundConstants w state in
  mkWords (add32 (wa state) (wa r)) (add32 (wb state) (wb r)) (add32 (wc state) (wc r))
    (add32 (wd state) (wd r)) (add32 (we state) (we r)) (add32 (wf state) (wf r))
    (add32 (wg state) (wg r)) (add32 (wh state) (wh r)).
#[global] Arguments compress : simpl never.

(** ** The incremental hasher *)

(** [buffer_] is represented by its first [buffered_] bytes; the rest of the
    array is never read. *)
Record Sha256 := mkSha256 { sha_state : Words; sha_buffer : bytes; sha_total : Z }.

Definition kBlockBytes : nat := 64.

Definition Sha256_reset : Sha256 := mkSha256 kInitialState [] 0.

(** [while ((data.size() - offset) >= kBlockBytes) compress]. *)
Fixpoint compress_blocks (fuel : nat) (state : Words) (data : bytes) : Words * bytes :=
  match fuel with
  | O => (state, data)
  | S fuel' =>
      if (kBlockBytes <=? length data)%nat
      then compress_blocks fuel' (compress state (take kBlockBytes data)) (drop kBlockBytes data)
      else (state, data)
  end.

Definition Sha256_update (h : Sha256) (data : bytes) : Sha256 :=
  let total := wrap 64 (sha_total h + zlen data) in
  let '(state1, buffer1, rest) :=
    if (length (sha_buffer h) =? 0)%nat then (sha_state h, sha_buffer h, data)
    else
      let need := (kBlockBytes - length (sha_buffer h))%nat in
      let taken := if (length data <? need)%nat then length data else need in
      let buffer := sha_buffer h ++ take taken data in
      if (length buffer =? kBlockBytes)%nat
      then (compress (sha_state h) buffer, [], drop taken data)
      else (sha_state h, buffer, drop taken data) in
  let '(state2, remaining) := compress_blocks (length rest) state1 rest in
  let buffer2 := if (length remaining =? 0)%nat then buffer1 else remaining in
  mkSha256 state2 buffer2 total.

(** [while (buffered_ != 56U) update(&zero, 1)]; at most 63 turns. *)
Fixpoint pad_loop (fuel : nat) (h : Sha256) : Sha256 :=
  match fuel with
  | O => h
  | S fuel' => if (length (sha_buffer h) =? 56)%nat then h
               else pad_loop fuel' (Sha256_update h [x00])
  end.

(** [length_bytes]: the 64-bit count, big endian. *)
Definition be64 (v : Z) : bytes :=
  map (fun i => bz (Z.land (Z.shiftr v ((7 - i) * 8)) 0xFF)) [0; 1; 2; 3; 4; 5; 6; 7].

Definition words_bytes (s : Words) : bytes :=
  store_be32 (wa s) ++ store_be32 (wb s) ++ store_be32 (wc s) ++ store_be32 (wd s) ++
  store_be32 (we s) ++ store_be32 (wf s) ++ store_be32 (wg s) ++ store_be32 (wh s).

Definition Sha256_finalize (h : Sha256) : Digest :=
  let bit_length := wrap 64 (sha_total h * 8) in
  let h1 := Sha256_update h [x80] in
  let h2 := pad_loop 64 h1 in
  let h3 := Sha256_update h2 (be64 bit_length) in
  words_bytes (sha_state h3).

Definition sha256 (data : bytes) : Digest := Sha256_finalize (Sha256_update Sha256_reset data).

(** ** HMAC *)

Definition xor_pad (key_block : bytes) (c : Z) : bytes :=
  map (fun b => bz (Z.lxor (zb b) c)) key_block.

Definition hmac_key_block (key : bytes) : bytes :=
  let key_bytes := if (kBlockBytes <? length key)%nat
                   then Sha256_finalize (Sha256_update Sha256_reset key) else key in
  key_bytes ++ replicate (kBlockBytes - length key_bytes) x00.

Record HmacSha256 := mkHmac { hmac_inner : Sha256; hmac_opad : bytes }.

Definition HmacSha256_init (key : bytes) : HmacSha256 :=
  let key_block := hmac_key_block key in
  mkHmac (Sha256_update Sha256_reset (xor_pad key_block 0x36)) (xor_pad key_block 0x5C).

Definition HmacSha256_update (m : HmacSha256) (data : bytes) : HmacSha256 :=
  mkHmac (Sha256_update (hmac_inner m) data) (hmac_opad m).

Definition HmacSha256_finalize (m : HmacSha256) : Digest :=
  let inner_digest := Sha256_finalize (hmac_inner m) in
  Sha256_finalize (Sha256_update (Sha256_update Sha256_reset (hmac_opad m)) inner_digest).

Definition hmac_sha256 (key data : bytes) : Digest :=
  HmacSha256_finalize (HmacSha256_update (HmacSha256_init key) data).

Definition verify_truncated_tag (expected : Digest) (provided : bytes) (tag_bytes : Z) : bool :=
  if (tag_bytes =? 0) || (32 <? tag_bytes) then false
  else if negb (zlen provided =? tag_bytes) then false
  else constant_time_equal (take (Z.to_nat tag_bytes) expected) provided.

(** ** Test vectors of FIPS 180-4 and RFC 4231 *)

Example sha256_abc :
  to_hex (sha256 (lit "abc")) =
  lit "ba7816bf8f01cfea414140de5dae2223b00361a396177a9cb410ff61f20015ad".
Proof. vm_compute. reflexivity. Qed.

Example sha256_empty :
  to_hex (sha256 []) =
  lit "e3b0c44298fc1c149afbf4c8996fb92427ae41e4649b934ca495991b7852b855".
Proof. vm_compute. reflexivity. Qed.

Example hmac_jefe :
  to_hex (hmac_sha256 (lit "Jefe") (lit "what do ya want for nothing?")) =
  lit "5bdcc146bf60754e6a042426089575c75a003f089d2739839dec58b964ec3843".
Proof. vm_compute. reflexivity. Qed.

(** ** The one-shot specification *)

(** The number of zero bytes of the padding: the padded length is a multiple of
    64 once the end mark and the 8 length bytes are added. *)
Definition pad_zeros (n : nat) : nat := (if n mod 64 <=? 55 then 55 - n mod 64 else 119 - n mod 64)%nat.

Definition sha_pad (msg : bytes) : bytes :=
  msg ++ [x80] ++ replicate (pad_zeros (length msg)) x00 ++ be64 (wrap 64 (wrap 64 (zlen msg) * 8)).

Definition sha256_spec (msg : bytes) : Digest :=
  words_bytes (compress_blocks (length (sha_pad msg)) kInitialState (sha_pad msg)).1.

(** ** Absorbing a message

    [absorb] is the loop with enough fuel; the hasher's state is what [absorb]
    leaves of everything written so far. *)

Definition absorb (state : Words) (data : bytes) : Words * bytes :=
  compress_blocks (length data) state data.

Lemma compress_blocks_fuel fuel : forall fuel' state data,
  (length data <= fuel)%nat -> (length data <= fuel')%nat ->
  compress_blocks fuel state data = compress_blocks fuel' state data.
Proof.
  unfold kBlockBytes in *.
  induction fuel as [|fuel IH]; intros [|fuel'] state data H1 H2; try done;
    cbn [compress_blocks]; destruct (Nat.leb_spec kBlockBytes (length data)) as [E|E];
    unfold kBlockBytes in *; try lia; try done.
  apply IH; rewrite length_drop; lia.
Qed.

Lemma absorb_block state block data : length block = kBlockBytes ->
  absorb state (block ++ data) = absorb (compress state block) data.
Proof.
  intros Hb. unfold absorb. destruct block as [|b block]; [discriminate Hb|].
  assert (length ((b :: block) ++ data) = S (length (block ++ data))) as -> by done.
  cbn [compress_blocks]. rewrite length_app, Hb.
  rewrite (proj2 (Nat.leb_le _ _)) by lia. rewrite <- Hb, take_app_exact, drop_app_exact.
  apply compress_blocks_fuel; [rewrite length_app; lia|done].
Qed.

Lemma absorb_short state data : (length data < kBlockBytes)%nat -> absorb state data = (state, data).
Proof.
  intros H. unfold absorb. destruct (length data) eqn:E; [done|]. cbn [compress_blocks].
  by rewrite (proj2 (Nat.leb_gt _ _)) by lia.
Qed.

(** Induction over a message block by block. *)
Lemma block_ind (P : bytes -> Prop) :
  (forall d, (length d < kBlockBytes)%nat -> P d) ->
  (forall b d, length b = kBlockBytes -> P d -> P (b ++ d)) ->
  forall d, P d.
Proof.
  intros Hs Hb d. remember (length d) as n eqn:En. revert d En.
  induction n as [n IH] using lt_wf_ind. intros d ->.
  destruct (decide (length d < kBlockBytes)%nat) as [|Hge]; [by apply Hs|].
  rewrite <- (take_drop kBlockBytes d). apply Hb.
  - rewrite length_take. lia.
  - eapply IH; [|done]. rewrite length_drop. unfold kBlockBytes in *. lia.
Qed.

Lemma absorb_rest_short data : forall state, (length (absorb state data).2 < kBlockBytes)%nat.
Proof.
  induction data as [d Hd|b d Hb IH] using block_ind; intros state.
  - by rewrite absorb_short.
  - by rewrite absorb_block.
Qed.

Lemma absorb_rest_length data : forall state,
  exists k, length data = (k * kBlockBytes + length (absorb state data).2)%nat.
Proof.
  induction data as [d Hd|b d Hb IH] using block_ind; intros state.
  - exists 0%nat. by rewrite absorb_short.
  - destruct (IH (compress state b)) as [k Hk]. exists (S k).
    rewrite absorb_block, length_app by done. lia.
Qed.

Lemma absorb_app a b : forall state,
  absorb state (a ++ b) = absorb (absorb state a).1 ((absorb state a).2 ++ b).
Proof.
  induction a as [d Hd|bl d Hb IH] using block_ind; intros state.
  - by rewrite (absorb_short state d).
  - rewrite <- app_assoc, (absorb_block _ _ (d ++ b)), (absorb_block _ _ d) by done. apply IH.
Qed.

(** The two hash-relevant components of the hasher after one update. *)
Lemma update_absorb h data : (length (sha_buffer h) < kBlockBytes)%nat ->
  Sha256_update h data =
  mkSha256 (absorb (sha_state h) (sha_buffer h ++ data)).1
           (absorb (sha_state h) (sha_buffer h ++ data)).2
           (wrap 64 (sha_total h + zlen data)).
Proof.
  destruct h as [st buf tot]. cbn [sha_state sha_buffer sha_total]. intros Hlt.
  unfold Sha256_update. cbn [sha_state sha_buffer sha_total].
  destruct (Nat.eqb_spec (length buf) 0) as [E0|E0].
  - apply length_zero_iff_nil in E0 as ->. cbn [app].
    change (compress_blocks (length data) st data) with (absorb st data).
    destruct (absorb st data) as [st2 rem]. simpl.
    destruct (Nat.eqb_spec (length rem) 0) as [E|E]; [|done].
    by apply length_zero_iff_nil in E as ->.
  - destruct (Nat.ltb_spec (length data) (kBlockBytes - length buf)) as [Hs|Hl].
    + rewrite firstn_all, skipn_all, length_app.
      rewrite (proj2 (Nat.eqb_neq _ _)) by lia. cbn [compress_blocks length Nat.eqb].
      rewrite absorb_short by (rewrite length_app; lia). done.
    + rewrite length_app, length_take.
      rewrite (proj2 (Nat.eqb_eq _ _)) by lia.
      change (compress_blocks (length ?d) ?s ?d) with (absorb s d).
      assert (buf ++ data = (buf ++ take (kBlockBytes - length buf) data) ++
                drop (kBlockBytes - length buf) data) as ->
        by (by rewrite <- app_assoc, take_drop).
      rewrite absorb_block by (rewrite length_app, length_take; lia).
      destruct (absorb _ _) as [st2 rem]. simpl.
      destruct (Nat.eqb_spec (length rem) 0) as [E|E]; [|done].
      by apply length_zero_iff_nil in E as ->.
Qed.

(** The hasher that has absorbed [msg]. *)
Definition hashed (msg : bytes) (h : Sha256) : Prop :=
  sha_state h = (absorb kInitialState msg).1 /\ sha_buffer h = (absorb kInitialState msg).2 /\
  sha_total h = wrap 64 (zlen msg).

Lemma hashed_reset : hashed [] Sha256_reset.
Proof. by repeat split. Qed.

Lemma wrap_add_l w a b : wrap w (wrap w a + b) = wrap w (a + b).
Proof. unfold wrap. apply Zplus_mod_idemp_l. Qed.

Lemma hashed_update msg h data : hashed msg h -> hashed (msg ++ data) (Sha256_update h data).
Proof.
  intros (Hs & Hb & Ht). rewrite update_absorb by (rewrite Hb; apply absorb_rest_short).
  unfold hashed. cbn [sha_state sha_buffer sha_total].
  rewrite (absorb_app msg), Ht, Hs, Hb, wrap_add_l, zlen_app. by repeat split.
Qed.

(** The padding loop appends zeros until 56 bytes are buffered. *)
Lemma pad_loop_zeros n : forall fuel msg h, hashed msg h -> (n < fuel)%nat ->
  (forall k, (k < n)%nat -> length (absorb kInitialState (msg ++ replicate k x00)).2 <> 56%nat) ->
  length (absorb kInitialState (msg ++ replicate n x00)).2 = 56%nat ->
  hashed (msg ++ replicate n x00) (pad_loop fuel h).
Proof.
  induction n as [|n IH]; intros [|fuel] msg h Hh Hf Hlt Heq; try lia; cbn [pad_loop].
  - destruct Hh as (Hs & Hb & Ht). cbn [replicate] in *. rewrite app_nil_r in *.
    rewrite Hb, Heq. simpl. by repeat split.
  - pose proof (Hlt 0%nat ltac:(lia)) as H0. cbn [replicate] in H0. rewrite app_nil_r in H0.
    assert (Hb : sha_buffer h = (absorb kInitialState msg).2) by apply Hh.
    rewrite Hb, (proj2 (Nat.eqb_neq _ _)) by done.
    assert (forall k, msg ++ replicate (S k) x00 = (msg ++ [x00]) ++ replicate k x00) as Er
      by (intros k; by rewrite <- app_assoc).
    rewrite Er in *. apply IH; [by apply hashed_update|lia| |done].
    intros k Hk. rewrite <- Er. apply Hlt. lia.
Qed.

(** How many bytes stay buffered after [n] in total. *)
Lemma buffered_mod msg : length (absorb kInitialState msg).2 = (length msg mod 64)%nat.
Proof.
  destruct (absorb_rest_length msg kInitialState) as [k Hk].
  pose proof (absorb_rest_short msg kInitialState). rewrite Hk. unfold kBlockBytes in *.
  rewrite Nat.add_comm, Nat.Div0.mod_add. by rewrite Nat.mod_small.
Qed.

Lemma pad_zeros_first n : ((n + 1 + pad_zeros n) mod 64 = 56)%nat /\
  forall k, (k < pad_zeros n)%nat -> ((n + 1 + k) mod 64 <> 56)%nat.
Proof.
  unfold pad_zeros. pose proof (Nat.mod_upper_bound n 64 ltac:(lia)) as Hm.
  assert (forall k, ((n + 1 + k) mod 64 = (n mod 64 + 1 + k) mod 64)%nat) as E.
  { intros k. rewrite <- !Nat.add_assoc. by rewrite Nat.Div0.add_mod_idemp_l. }
  split.
  - rewrite E. destruct (Nat.leb_spec (n mod 64) 55).
    + replace (n mod 64 + 1 + (55 - n mod 64))%nat with 56%nat by lia. done.
    + replace (n mod 64 + 1 + (119 - n mod 64))%nat with (56 + 1 * 64)%nat by lia. done.
  - intros k. rewrite E. destruct (Nat.leb_spec (n mod 64) 55); intros Hk.
    + rewrite Nat.mod_small by lia. lia.
    + destruct (decide (n mod 64 + 1 + k < 64)%nat); [rewrite Nat.mod_small by lia; lia|].
      replace (n mod 64 + 1 + k)%nat with (n mod 64 + 1 + k - 64 + 1 * 64)%nat by lia.
      rewrite Nat.Div0.mod_add, Nat.mod_small by lia. lia.
Qed.

Lemma pad_zeros_bound n : (pad_zeros n < 64)%nat.
Proof.
  unfold pad_zeros. pose proof (Nat.mod_upper_bound n 64 ltac:(lia)).
  destruct (Nat.leb_spec (n mod 64) 55); lia.
Qed.

Lemma finalize_hashed msg h : hashed msg h -> Sha256_finalize h = sha256_spec msg.
Proof.
  intros Hh. unfold Sha256_finalize.
  assert (hashed ((msg ++ [x80]) ++ replicate (pad_zeros (length msg)) x00)
            (pad_loop 64 (Sha256_update h [x80]))) as H2.
  { destruct (pad_zeros_first (length msg)) as [He Hlt].
    apply pad_loop_zeros; [by apply hashed_update|apply pad_zeros_bound| |].
    - intros k Hk. rewrite buffered_mod, !length_app, length_replicate. by apply Hlt.
    - by rewrite buffered_mod, !length_app, length_replicate. }
  apply (hashed_update _ _ (be64 (wrap 64 (sha_total h * 8)))) in H2 as (Hs & _ & _).
  rewrite Hs. unfold sha256_spec, sha_pad, absorb. destruct Hh as (_ & _ & ->).
  by rewrite <- !app_assoc.
Qed.

Lemma sha256_is_spec msg : sha256 msg = sha256_spec msg.
Proof. apply finalize_hashed. apply (hashed_update [] _ msg hashed_reset). Qed.

Lemma hashed_fold chunks : forall msg h, hashed msg h ->
  hashed (msg ++ concat chunks) (fold_left Sha256_update chunks h).
Proof.
  induction chunks as [|c cs IH]; intros msg h Hh; simpl; [by rewrite app_nil_r|].
  rewrite app_assoc. by apply IH, hashed_update.
Qed.

Lemma streaming_sha256 chunks :
  Sha256_finalize (fold_left Sha256_update chunks Sha256_reset) = sha256 (concat chunks).
Proof.
  rewrite sha256_is_spec. apply finalize_hashed. apply (hashed_fold chunks [] _ hashed_reset).
Qed.

Lemma length_sha256 msg : length (sha256 msg) = 32%nat.
Proof. by rewrite sha256_is_spec. Qed.

Lemma hmac_unfold key data :
  hmac_sha256 key data =
  sha256 (xor_pad (hmac_key_block key) 0x5C ++ sha256 (xor_pad (hmac_key_block key) 0x36 ++ data)).
Proof.
  unfold hmac_sha256, HmacSha256_finalize, HmacSha256_update, HmacSha256_init.
  cbn [hmac_inner hmac_opad].
  pose proof (streaming_sha256 [xor_pad (hmac_key_block key) 0x36; data]) as E1.
  cbn [fold_left concat] in E1. rewrite app_nil_r in E1. rewrite E1.
  pose proof (streaming_sha256 [xor_pad (hmac_key_block key) 0x5C;
    sha256 (xor_pad (hmac_key_block key) 0x36 ++ data)]) as E2.
  cbn [fold_left concat] in E2. rewrite app_nil_r in E2. exact E2.
Qed.

Lemma length_hmac key data : length (hmac_sha256 key data) = 32%nat.
Proof. rewrite hmac_unfold. apply length_sha256. Qed.

#[global] Opaque sha256 hmac_sha256.
#[export] Hint Resolve length_sha256 length_hmac : smf.

(** ** Zero tests *)

Lemma lor_acc_zero acc b : zb (bz (Z.lor (zb acc) (zb b))) = 0 <-> acc = x00 /\ b = x00.
Proof.
  pose proof (lor_lxor_zero acc b x00) as H. change (zb x00) with 0 in H.
  rewrite Z.lxor_0_r in H. rewrite H. split; intros [H1 ->]; split; try done.
  - by apply zb_inj.
  - by subst.
Qed.

Lemma array_is_zero_spec a : array_is_zero a = true <-> a = replicate (length a) x00.
Proof.
  unfold array_is_zero. rewrite Z.eqb_eq.
  cut (forall acc, zb (fold_left (fun acc b => bz (Z.lor (zb acc) (zb b))) a acc) = 0 <->
         acc = x00 /\ a = replicate (length a) x00).
  { intros H. rewrite H. naive_solver. }
  induction a as [|b a IH]; intros acc; simpl.
  - split; [intros; split; [by apply zb_inj|done]|by intros [-> _]].
  - rewrite IH. split.
    + intros [H Ha]. apply (f_equal zb) in H. apply lor_acc_zero in H as [-> ->]. by rewrite <- Ha.
    + intros [-> Hb]. injection Hb as -> Ha. split; [done|exact Ha].
Qed.

Lemma array_is_zero_replicate n : array_is_zero (replicate n x00) = true.
Proof. apply array_is_zero_spec. by rewrite length_replicate. Qed.

Lemma verify_truncated_tag_spec expected provided n : digest_wf expected -> 0 <= n ->
  verify_truncated_tag expected provided n = true <->
  0 < n <= 32 /\ provided = take (Z.to_nat n) expected.
Proof.
  unfold digest_wf, kDigestBytes, verify_truncated_tag. intros Hl Hn.
  destruct (Z.eqb_spec n 0), (Z.ltb_spec 32 n); simpl; try (split; [done|lia]).
  assert (zlen (take (Z.to_nat n) expected) = n) as Ht by (unfold zlen; rewrite length_take; lia).
  destruct (Z.eqb_spec (zlen provided) n) as [E|E]; simpl.
  - rewrite constant_time_equal_eq. split; [by intros <-; split; [lia|]|by intros [_ ->]].
  - split; [done|]. intros [_ ->]. done.
Qed.

(** ** Properties *)

(** C37: (equivalence) The buffered hasher is SHA-256: however a message is split
    into updates, the digest is the one of the FIPS 180-4 definition on the
    padded message, and it is 32 bytes long. *)
Theorem sha256_streaming_matches_spec (chunks : list bytes) :
  Sha256_finalize (fold_left Sha256_update chunks Sha256_reset) = sha256_spec (concat chunks) /\
  sha256 (concat chunks) = sha256_spec (concat chunks) /\
  length (sha256 (concat chunks)) = 32%nat.
Proof.
  rewrite streaming_sha256. split_and!; [apply sha256_is_spec..|apply length_sha256].
Qed.

(** (equivalence) The keyed hasher computes HMAC (RFC 2104) with the block
    size of SHA-256, and a truncated tag verifies exactly when it has the agreed
    width and equals the leading bytes of the digest. *)
Theorem hmac_and_tag_check (key data provided : bytes) (tag_bytes : Z) : 0 <= tag_bytes ->
  hmac_sha256 key data =
    sha256 (xor_pad (hmac_key_block key) 0x5C ++ sha256 (xor_pad (hmac_key_block key) 0x36 ++ data)) /\
  (verify_truncated_tag (hmac_sha256 key data) provided tag_bytes = true <->
     0 < tag_bytes <= 32 /\ provided = take (Z.to_nat tag_bytes) (hmac_sha256 key data)).
Proof.
  intros Hn. split; [apply hmac_unfold|]. apply verify_truncated_tag_spec; [apply length_hmac|done].
Qed.

Lemma hmac_and_tag_check_witness :
  verify_truncated_tag (hmac_sha256 (lit "k") (lit "m")) (take 16 (hmac_sha256 (lit "k") (lit "m"))) 16
  = true.
Proof.
  apply (proj2 (hmac_and_tag_check (lit "k") (lit "m") (take 16 (hmac_sha256 (lit "k") (lit "m"))) 16
    ltac:(lia))). split; [lia|reflexivity].
Defined.
