(* ===== verification/Codec.v ===== *)
(** * Canonical binary encoding (src/src/codec.cpp, include/smf/codec.hpp)

    The encoder appends to a buffer; here every encoder operation returns the
    bytes it appends and a sequence of operations is their concatenation.  The
    decoder is the source's cursor over an input view; a decoding function is a
    [Dec A], which returns a value and the advanced cursor or the first error.

    The class [Codec] is the interface every encodable type of the program is
    proved against: [codec_reads] is the round trip and [codec_canon] says that
    a successful decode consumed exactly the encoding of the value it returned,
    so no two byte strings decode to one value. *)
From S2P Require Import Prelude Status Bytes Digest.

(** ** Limits (include/smf/limits.hpp) *)

Definition kMaxObjectNameBytes : Z := 4096.
Definition kMaxEndpointIdBytes : Z := 63.
Definition kMaxTextBytes : Z := 4096.
Definition kMaxDetailBytes : Z := 1024.
Definition kMaxEvidenceAttributes : Z := 64.
Definition kMaxCapabilities : Z := 64.
Definition kMaxEndpoints : Z := 4096.
Definition kMaxLinks : Z := 16384.
Definition kMaxProvenanceEvents : Z := 256.
Definition kMaxChunksPerObject : Z := 2 ^ 24.
Definition kMaxAttemptsHardLimit : Z := 64.
Definition kMinChunkBytes : Z := 1024.
Definition kMaxChunkBytes : Z := 64 * 2 ^ 20.
Definition kMaxObjectBytes : Z := 2 ^ 40.
Definition kMaxFramePayloadBytes : Z := 2 ^ 20.
Definition kPeerContract : bytes := lit "smf.peer.v1".

(** ** Encoder *)

(** [CanonicalEncoder::store_le]: the loop body at index [i]. *)
Fixpoint store_le_at (value : Z) (i width : nat) : bytes :=
  match width with
  | O => []
  | S w => bz (Z.land (Z.shiftr value (8 * Z.of_nat i)) 0xFF) :: store_le_at value (S i) w
  end.

Definition store_le (value : Z) (width : nat) : bytes := store_le_at value 0 width.

Definition enc_u8 (v : Z) : bytes := [bz v].
Definition enc_boolean (v : bool) : bytes := [if v then x01 else x00].
Definition enc_u16 (v : Z) : bytes := store_le v 2.
Definition enc_u32 (v : Z) : bytes := store_le v 4.
Definition enc_u64 (v : Z) : bytes := store_le v 8.
Definition enc_i64 (v : Z) : bytes := store_le (wrap 64 v) 8.
Definition enc_blob (v : bytes) : bytes := store_le (zlen v) 8 ++ v.
Definition enc_text (v : bytes) : bytes := store_le (zlen v) 8 ++ v.
Definition enc_digest (d : Digest) : bytes := d.

(** ** Decoder *)

Record DecodeLimits := mkLimits {
  max_blob_bytes : Z;
  max_text_bytes : Z;
  max_input_bytes : Z }.

Definition default_limits : DecodeLimits := mkLimits (2 ^ 20) (64 * 2 ^ 10) (8 * 2 ^ 20).

Record Decoder := mkDecoder {
  input_ : bytes;
  limits_ : DecodeLimits;
  offset_ : nat;
  over_limit_ : bool }.

Definition Decoder_make (input : bytes) (limits : DecodeLimits) : Decoder :=
  mkDecoder input limits 0 (max_input_bytes limits <? zlen input).

Definition remaining (d : Decoder) : nat := (length (input_ d) - offset_ d)%nat.
Definition at_end (d : Decoder) : bool := Nat.eqb (offset_ d) (length (input_ d)).
Definition advance (d : Decoder) (n : nat) : Decoder :=
  mkDecoder (input_ d) (limits_ d) (offset_ d + n) (over_limit_ d).

(** The view [input_.data() + offset_], [n] bytes long. *)
Definition peek (d : Decoder) (n : nat) : bytes := take n (drop (offset_ d) (input_ d)).

(** [load_le]: the loop body at index [i]. *)
Fixpoint load_le_at (data : bytes) (i : nat) (value : Z) : Z :=
  match data with
  | [] => value
  | b :: rest => load_le_at rest (S i) (Z.lor value (Z.shiftl (zb b) (8 * Z.of_nat i)))
  end.

Definition load_le (data : bytes) : Z := load_le_at data 0 0.

Definition bounds_failure (d : Decoder) (what : String.string) : Status :=
  if over_limit_ d
  then mkStatus RC.PROTOCOL_BOUNDS_EXCEEDED (lit "decoded buffer exceeds the configured input limit")
  else mkStatus RC.PROTOCOL_TRUNCATED (lit what).

(** A decoding function.  Every caller in the source returns at the first
    error, so the cursor left behind by a failed read is never observed. *)
Definition Dec (A : Type) : Type := Decoder -> Result (A * Decoder).

Definition dret {A} (x : A) : Dec A := fun d => Ok (x, d).
Definition dlift {A} (r : Result A) : Dec A := fun d => rbind r (fun x => Ok (x, d)).
Definition dfail {A} (c : ReasonCode) (m : String.string) : Dec A := fun _ => fail c m.
Definition dbind {A B} (m : Dec A) (k : A -> Dec B) : Dec B :=
  fun d => rbind (m d) (fun p => k p.1 p.2).
(** [if (cond) return Status(c, m);] *)
Definition dreject (cond : bool) (c : ReasonCode) (m : String.string) : Dec unit :=
  dlift (if cond then fail c m else Ok tt).

Notation "'let?' x := m 'in' k" := (dbind m (fun x => k))
  (at level 10, x pattern, m at level 100, k at level 200) : smf_scope.
Notation "m ;? k" := (dbind m (fun _ => k)) (at level 199, right associativity) : smf_scope.
Open Scope smf_scope.
Arguments bounds_failure _ _%_string_scope.
Arguments dfail {A} _ _%_string_scope.
Arguments dreject _ _ _%_string_scope.

Definition dec_u8 : Dec Z := fun d =>
  if over_limit_ d then Err (bounds_failure d "u8 read past the end of the buffer")
  else if Nat.ltb (remaining d) 1 then Err (bounds_failure d "u8 read past the end of the buffer")
  else Ok (zb (nth (offset_ d) (input_ d) x00), advance d 1).

Definition dec_boolean : Dec bool :=
  let? raw := dec_u8 in
  dreject (1 <? raw) RC.PROTOCOL_CANONICAL_VIOLATION
    "boolean must be encoded as exactly 0x00 or 0x01" ;?
  dret (raw =? 1).

(** The common body of [u16], [u32] and [u64]. *)
Definition dec_le (width : nat) (what : String.string) : Dec Z := fun d =>
  if over_limit_ d then Err (bounds_failure d what)
  else if Nat.ltb (remaining d) width then Err (bounds_failure d what)
  else Ok (load_le (peek d width), advance d width).

Arguments dec_le _%_nat_scope _%_string_scope.

Definition dec_u16 : Dec Z := dec_le 2 "u16 read past the end of the buffer".
Definition dec_u32 : Dec Z := dec_le 4 "u32 read past the end of the buffer".
Definition dec_u64 : Dec Z := dec_le 8 "u64 read past the end of the buffer".

(** [static_cast<std::int64_t>]: two's complement. *)
Definition to_signed64 (v : Z) : Z := if v <? 2 ^ 63 then v else v - 2 ^ 64.

Definition dec_i64 : Dec Z := let? raw := dec_u64 in dret (to_signed64 raw).

Definition dec_blob (max_bytes : Z) : Dec bytes :=
  let? len := dec_u64 in
  fun d =>
    let allowed := if max_bytes <? max_blob_bytes (limits_ d)
                   then max_bytes else max_blob_bytes (limits_ d) in
    if allowed <? len
    then fail RC.PROTOCOL_BOUNDS_EXCEEDED "declared blob length exceeds the permitted maximum"
    else if Z.of_nat (remaining d) <? len
    then fail RC.PROTOCOL_TRUNCATED "declared blob length exceeds the remaining input"
    else Ok (peek d (Z.to_nat len), advance d (Z.to_nat len)).

Definition dec_text (max_bytes : Z) : Dec bytes := fun d =>
  (let? raw := dec_blob (if max_bytes <? max_text_bytes (limits_ d)
                         then max_bytes else max_text_bytes (limits_ d)) in
   dreject (negb (is_valid_utf8 raw)) RC.INVALID_UTF8 "text field is not valid UTF-8" ;?
   dret raw) d.

Definition dec_digest : Dec Digest := fun d =>
  if over_limit_ d then Err (bounds_failure d "digest read past the end of the buffer")
  else if Nat.ltb (remaining d) kDigestBytes
  then fail RC.PROTOCOL_TRUNCATED "digest requires 32 bytes"
  else let! v := Digest_from_bytes (peek d kDigestBytes) in Ok (v, advance d kDigestBytes).

Definition dec_count (max_count : Z) : Dec Z :=
  let? raw := dec_u32 in
  dreject (max_count <? raw) RC.PROTOCOL_BOUNDS_EXCEEDED
    "declared collection count exceeds the maximum" ;?
  dret raw.

Definition dec_require_end : Dec unit := fun d =>
  if over_limit_ d
  then fail RC.PROTOCOL_BOUNDS_EXCEEDED "decoded buffer exceeds the configured input limit"
  else if negb (at_end d)
  then fail RC.PROTOCOL_TRAILING_GARBAGE "message carried unconsumed trailing bytes"
  else Ok (tt, d).

Definition canonical_digest (encoder : bytes) : Digest := sha256 encoder.
Definition canonical_mac (key encoder : bytes) : Digest := hmac_sha256 key encoder.

(** ** Laws *)

(** The bytes the cursor has not consumed. *)
Definition unread (d : Decoder) : bytes := drop (offset_ d) (input_ d).

(** A cursor inside its input, under limits [lim], whose input was accepted. *)
Definition live (lim : DecodeLimits) (d : Decoder) : Prop :=
  limits_ d = lim /\ over_limit_ d = false /\ (offset_ d <= length (input_ d))%nat.

(** [d'] is [d] after reading exactly [bs]. *)
Definition consumed (d d' : Decoder) (bs : bytes) : Prop :=
  unread d = bs ++ unread d' /\ d' = advance d (length bs).

(** [dec] reads [x] off any live cursor whose unread bytes begin with [bs]. *)
Definition reads {A} (lim : DecodeLimits) (dec : Dec A) (bs : bytes) (x : A) : Prop :=
  forall d rest, live lim d -> unread d = bs ++ rest -> dec d = Ok (x, advance d (length bs)).

(** The interface between the encoding layer and every type it carries. *)
Class Codec {A} (lim : DecodeLimits) (enc : A -> bytes) (dec : Dec A) (ok : A -> Prop) : Prop := {
  codec_reads : forall x, ok x -> reads lim dec (enc x) x;
  codec_canon : forall d x d', live lim d -> dec d = Ok (x, d') -> ok x /\ consumed d d' (enc x) }.

(** Limits under which the bounded text and blob fields of the program fit. *)
Class Roomy (lim : DecodeLimits) : Prop := {
  roomy_text : 4096 <= max_text_bytes lim;
  roomy_blob : 4096 <= max_blob_bytes lim }.

#[global] Instance default_roomy : Roomy default_limits.
Proof. split; vm_compute; discriminate. Qed.

Lemma unread_advance d bs rest : unread d = bs ++ rest -> unread (advance d (length bs)) = rest.
Proof.
  unfold unread, advance. simpl. intros H. by rewrite <- drop_drop, H, drop_app_exact.
Qed.

Lemma unread_length d : length (unread d) = remaining d.
Proof. unfold unread, remaining. apply length_drop. Qed.

Lemma live_advance lim d bs rest : live lim d -> unread d = bs ++ rest ->
  live lim (advance d (length bs)).
Proof.
  intros (Hlim & Hov & Hle) H. repeat split; [done..|]. simpl.
  apply (f_equal length) in H. rewrite unread_length, length_app in H. unfold remaining in H. lia.
Qed.

Lemma advance_0 d : advance d 0 = d.
Proof. destruct d. unfold advance. simpl. by rewrite Nat.add_0_r. Qed.

Lemma advance_advance d m n : advance (advance d m) n = advance d (m + n).
Proof. unfold advance. simpl. f_equal. lia. Qed.

Lemma consumed_nil d : consumed d d [].
Proof. split; [done|]. by rewrite advance_0. Qed.

Lemma consumed_app d d1 d2 a b : consumed d d1 a -> consumed d1 d2 b -> consumed d d2 (a ++ b).
Proof.
  intros [H1 ->] [H2 ->]. split; [by rewrite H1, H2, app_assoc|].
  by rewrite advance_advance, length_app.
Qed.

Lemma consumed_live lim d d' bs : live lim d -> consumed d d' bs -> live lim d'.
Proof. intros Hl [H ->]. by eapply live_advance. Qed.

Lemma consumed_eq d d' bs bs' : consumed d d' bs -> bs = bs' -> consumed d d' bs'.
Proof. by intros ? <-. Qed.

Lemma peek_unread d n : peek d n = take n (unread d).
Proof. done. Qed.

Lemma consumed_peek d n : (n <= remaining d)%nat -> consumed d (advance d n) (peek d n).
Proof.
  intros H. rewrite peek_unread. rewrite <- unread_length in H.
  assert (length (take n (unread d)) = n) as E by (rewrite length_take; lia).
  split; [|by rewrite E]. unfold unread at 3, advance. simpl.
  rewrite <- drop_drop. by rewrite take_drop.
Qed.

(** *** Combinators *)

Section combinators.
Context {A B : Type} (lim : DecodeLimits).

Lemma reads_ret (x : A) : reads lim (dret x) [] x.
Proof. intros d rest _ _. unfold dret. by rewrite advance_0. Qed.

Lemma reads_lift (r : Result A) x : r = Ok x -> reads lim (dlift r) [] x.
Proof. intros -> d rest _ _. unfold dlift. simpl. by rewrite advance_0. Qed.

Lemma reads_bind (m : Dec A) (k : A -> Dec B) x y a b :
  reads lim m a x -> reads lim (k x) b y -> reads lim (dbind m k) (a ++ b) y.
Proof.
  intros Hm Hk d rest Hl Hu. rewrite <- app_assoc in Hu. unfold dbind.
  rewrite (Hm d _ Hl Hu). simpl. rewrite (Hk _ rest).
  - by rewrite advance_advance, length_app.
  - by eapply live_advance.
  - by eapply unread_advance.
Qed.

Lemma reads_eq (m : Dec A) x bs bs' : reads lim m bs x -> bs = bs' -> reads lim m bs' x.
Proof. by intros ? <-. Qed.

Lemma dbind_Ok (m : Dec A) (k : A -> Dec B) d y d' :
  dbind m k d = Ok (y, d') <-> exists x d1, m d = Ok (x, d1) /\ k x d1 = Ok (y, d').
Proof.
  unfold dbind. rewrite rbind_Ok. split.
  - intros ([x d1] & ? & ?). eauto.
  - intros (x & d1 & ? & ?). by exists (x, d1).
Qed.

Lemma dlift_Ok (r : Result A) d x d' : dlift r d = Ok (x, d') <-> r = Ok x /\ d' = d.
Proof. unfold dlift. rewrite rbind_Ok. naive_solver. Qed.

Lemma dret_Ok (x y : A) d d' : dret x d = Ok (y, d') <-> y = x /\ d' = d.
Proof. unfold dret. naive_solver. Qed.
End combinators.

Lemma dreject_Ok cond c m d u d' : dreject cond c m d = Ok (u, d') <-> cond = false /\ d' = d.
Proof. unfold dreject. rewrite dlift_Ok. destruct cond, u; naive_solver. Qed.

Lemma reads_reject lim cond c m : cond = false -> reads lim (dreject cond c m) [] tt.
Proof. intros ->. by apply reads_lift. Qed.

(** Read the next field of a decoder hypothesis and record what it consumed. *)
Ltac dstep H :=
  first
  [ let x := fresh "v" in let d1 := fresh "dd" in let E := fresh "Ed" in
    apply dbind_Ok in H as (x & d1 & E & H)
  | apply dret_Ok in H as [? ?]
  | apply dlift_Ok in H as [? ?]
  | apply dreject_Ok in H as [? ?] ].

(** Turn every remaining step [m d = Ok (x, d1)] into its consequences. *)
Ltac dfacts :=
  repeat match goal with
  | E : dret _ _ = Ok _ |- _ => apply dret_Ok in E as [? ?]
  | E : dlift _ _ = Ok _ |- _ => apply dlift_Ok in E as [? ?]
  | E : dreject _ _ _ _ = Ok _ |- _ => apply dreject_Ok in E as [? ?]
  end; subst.

Ltac dcanon :=
  repeat match goal with
  | L : live ?lim ?d, E : ?m ?d = Ok (?x, ?d1) |- _ =>
      let Hok := fresh "Hok" in let Hc := fresh "Hc" in let L1 := fresh "Hl" in
      apply (codec_canon d x d1 L) in E as [Hok Hc];
      pose proof (consumed_live lim d d1 _ L Hc) as L1
  end.

(** Assemble the consumed pieces of a chain of cursors. *)
Ltac consumed_chain :=
  lazymatch goal with
  | |- consumed ?d ?d _ => apply consumed_nil
  | H : consumed ?d ?d1 _ |- consumed ?d ?d2 _ =>
      first [ exact H | eapply consumed_app; [exact H|consumed_chain] ]
  end.

Ltac app_norm := rewrite ?app_nil_r, <- ?app_assoc; cbn [app]; rewrite ?app_nil_r; try reflexivity.

Ltac solve_consumed := eapply consumed_eq; [consumed_chain|app_norm].

Lemma reads_bind_nil {A B} lim (m : Dec A) (k : A -> Dec B) x y bs :
  reads lim m [] x -> reads lim (k x) bs y -> reads lim (dbind m k) bs y.
Proof. intros Hm Hk. apply (reads_bind lim m k x y [] bs Hm Hk). Qed.

Lemma reads_ret_eq {A} lim (x y : A) : y = x -> reads lim (dret y) [] x.
Proof. intros ->. apply reads_ret. Qed.

Lemma reads_nil_r {A} lim (m : Dec A) bs x : reads lim m (bs ++ []) x -> reads lim m bs x.
Proof. by rewrite app_nil_r. Qed.

(** Prove [reads] of a decoder written with the combinators, the encoding
    given as the concatenation of its fields. *)
Ltac reads_step :=
  lazymatch goal with
  | |- reads _ (dbind (dreject _ _ _) _) _ _ =>
      eapply reads_bind_nil; [apply reads_reject|cbv beta]
  | |- reads _ (dbind (dlift _) _) _ _ => eapply reads_bind_nil; [apply reads_lift|cbv beta]
  | |- reads _ (dbind _ _) _ _ => eapply reads_bind; [eapply codec_reads|cbv beta]
  | |- reads _ (dret _) [] _ => apply reads_ret_eq
  | |- reads _ (dlift _) [] _ => apply reads_lift
  end.
Ltac solve_reads := apply reads_nil_r; rewrite <- ?app_assoc; repeat reads_step.

(** ** Little-endian integers *)

Lemma store_le_at_S value n : forall i,
  store_le_at value (S i) n = store_le_at (Z.shiftr value 8) i n.
Proof.
  induction n as [|n IH]; intros i; cbn [store_le_at]; [done|]. rewrite IH. f_equal.
  rewrite Z.shiftr_shiftr by lia. do 3 f_equal. lia.
Qed.

Lemma store_le_S value n : store_le value (S n) = bz value :: store_le (Z.shiftr value 8) n.
Proof.
  unfold store_le. cbn [store_le_at]. rewrite store_le_at_S. f_equal.
  rewrite Z.shiftr_0_r. apply zb_inj. rewrite !zb_bz.
  change 255 with (Z.ones 8). rewrite Z.land_ones by lia. by rewrite Z.mod_mod by lia.
Qed.

Lemma length_store_le n : forall v, length (store_le v n) = n.
Proof.
  induction n as [|n IH]; intros v; [done|]. rewrite store_le_S. simpl. by rewrite IH.
Qed.

Lemma load_le_at_shift data : forall i value,
  load_le_at data i value = Z.lor value (Z.shiftl (load_le_at data 0 0) (8 * Z.of_nat i)).
Proof.
  induction data as [|b rest IH]; intros i value; cbn [load_le_at].
  - by rewrite Z.shiftl_0_l, Z.lor_0_r.
  - rewrite IH. rewrite (IH 1%nat). rewrite Z.lor_0_l, Z.shiftl_0_r.
    rewrite Z.shiftl_lor, <- Z.lor_assoc, Z.shiftl_shiftl by lia.
    do 3 f_equal. lia.
Qed.

Lemma load_le_nonneg data : 0 <= load_le data.
Proof.
  unfold load_le. induction data as [|b rest IH]; simpl; [lia|].
  rewrite load_le_at_shift. apply Z.lor_nonneg. rewrite Z.lor_0_l, Z.shiftl_0_r.
  split; [apply zb_range|]. by apply Z.shiftl_nonneg.
Qed.

Lemma lor_low8 a v : 0 <= a < 256 -> Z.lor a (Z.shiftl v 8) = a + 256 * v.
Proof.
  intros Ha. rewrite Z.lor_comm.
  assert (Z.land (Z.shiftl v 8) a = 0) as Hz.
  { apply Z.bits_inj'. intros n Hn. rewrite Z.land_spec, Z.bits_0.
    destruct (decide (n < 8)).
    - rewrite Z.shiftl_spec_low by lia. done.
    - rewrite <- (Z.mod_small a (2 ^ 8)) by lia. rewrite Z.mod_pow2_bits_high by lia.
      by rewrite andb_false_r. }
  rewrite <- Z.add_nocarry_lor by done. rewrite Z.shiftl_mul_pow2 by lia. lia.
Qed.

Lemma load_le_cons b rest : load_le (b :: rest) = zb b + 256 * load_le rest.
Proof.
  unfold load_le at 1. simpl. rewrite load_le_at_shift, Z.lor_0_l, Z.shiftl_0_r.
  change (8 * Z.of_nat 1) with 8. apply lor_low8, zb_range.
Qed.

Lemma load_le_range data : 0 <= load_le data < 2 ^ (8 * zlen data).
Proof.
  split; [apply load_le_nonneg|].
  induction data as [|b rest IH]; [done|]. rewrite load_le_cons.
  pose proof (zb_range b). unfold zlen in *. cbn [length].
  replace (8 * Z.of_nat (S (length rest))) with (8 + 8 * Z.of_nat (length rest)) by lia.
  rewrite Z.pow_add_r by lia. change (2 ^ 8) with 256. nia.
Qed.

Lemma load_store_le n : forall v, load_le (store_le v n) = v mod 2 ^ (8 * Z.of_nat n).
Proof.
  induction n as [|n IH]; intros v.
  - by rewrite Z.mod_1_r.
  - rewrite store_le_S, load_le_cons, IH, zb_bz, Z.shiftr_div_pow2 by lia.
    replace (8 * Z.of_nat (S n)) with (8 + 8 * Z.of_nat n) by lia.
    pose proof (Z.pow_pos_nonneg 2 (8 * Z.of_nat n)).
    rewrite Z.pow_add_r by lia. change (2 ^ 8) with 256.
    rewrite Z.rem_mul_r by lia. lia.
Qed.

Lemma store_load_le data : store_le (load_le data) (length data) = data.
Proof.
  induction data as [|b rest IH]; [done|]. cbn [length]. rewrite store_le_S, load_le_cons.
  pose proof (zb_range b). f_equal.
  - apply zb_inj. rewrite zb_bz, Z.mul_comm, Z.mod_add by lia. by apply Z.mod_small.
  - rewrite Z.shiftr_div_pow2 by lia. change (2 ^ 8) with 256.
    rewrite Z.mul_comm, Z.div_add, Z.div_small by lia. simpl. done.
Qed.

(** Lengths of the encodings, for bounds on whole messages. *)
Lemma zlen_store_le v n : zlen (store_le v n) = Z.of_nat n.
Proof. unfold zlen. by rewrite length_store_le. Qed.
Lemma zlen_enc_u8 v : zlen (enc_u8 v) = 1.
Proof. done. Qed.
Lemma zlen_enc_boolean v : zlen (enc_boolean v) = 1.
Proof. done. Qed.
Lemma zlen_enc_u16 v : zlen (enc_u16 v) = 2.
Proof. apply zlen_store_le. Qed.
Lemma zlen_enc_u32 v : zlen (enc_u32 v) = 4.
Proof. apply zlen_store_le. Qed.
Lemma zlen_enc_u64 v : zlen (enc_u64 v) = 8.
Proof. apply zlen_store_le. Qed.
Lemma zlen_enc_i64 v : zlen (enc_i64 v) = 8.
Proof. apply zlen_store_le. Qed.
Lemma zlen_enc_blob v : zlen (enc_blob v) = 8 + zlen v.
Proof. unfold enc_blob. rewrite zlen_app, zlen_store_le. done. Qed.
Lemma zlen_enc_text v : zlen (enc_text v) = 8 + zlen v.
Proof. apply zlen_enc_blob. Qed.
Lemma zlen_enc_digest v : digest_wf v -> zlen (enc_digest v) = 32.
Proof. unfold digest_wf, zlen, enc_digest. by intros ->. Qed.

Create Rewrite HintDb enc_len.
#[export] Hint Rewrite @zlen_app zlen_enc_u8 zlen_enc_boolean zlen_enc_u16 zlen_enc_u32 zlen_enc_u64
  zlen_enc_i64 zlen_enc_blob zlen_enc_text : enc_len.

(** ** The primitive codecs *)

Lemma peek_prefix d bs rest : unread d = bs ++ rest -> peek d (length bs) = bs.
Proof. intros H. by rewrite peek_unread, H, take_app_exact. Qed.

Lemma remaining_prefix d bs rest : unread d = bs ++ rest -> (length bs <= remaining d)%nat.
Proof. intros H. rewrite <- unread_length, H, length_app. lia. Qed.

Lemma dec_le_codec lim n what :
  Codec lim (fun v => store_le v n) (dec_le n what) (in_u (8 * Z.of_nat n)).
Proof.
  split.
  - intros v Hv d rest (_ & Ho & _) Hu. unfold dec_le. rewrite Ho.
    pose proof (remaining_prefix _ _ _ Hu) as Hr. pose proof (peek_prefix _ _ _ Hu) as Hp.
    rewrite length_store_le in *. rewrite (proj2 (Nat.ltb_ge _ _)) by lia.
    rewrite Hp, load_store_le. by rewrite Z.mod_small.
  - intros d x d' Hl H. unfold dec_le in H. split_ifs H. injection H as <- <-.
    apply Nat.ltb_ge in E0. pose proof (consumed_peek d n E0) as Hc.
    assert (length (peek d n) = n) as En
      by (rewrite peek_unread, length_take, unread_length; lia).
    pose proof (load_le_range (peek d n)) as Hr. unfold zlen in Hr. rewrite En in Hr.
    split; [done|]. eapply consumed_eq; [exact Hc|].
    pose proof (store_load_le (peek d n)) as Es. by rewrite En in Es.
Qed.

#[global] Instance u16_codec lim : Codec lim enc_u16 dec_u16 (in_u 16).
Proof. apply dec_le_codec. Qed.
#[global] Instance u32_codec lim : Codec lim enc_u32 dec_u32 (in_u 32).
Proof. apply dec_le_codec. Qed.
#[global] Instance u64_codec lim : Codec lim enc_u64 dec_u64 (in_u 64).
Proof. apply dec_le_codec. Qed.

#[global] Instance u8_codec lim : Codec lim enc_u8 dec_u8 (in_u 8).
Proof.
  assert (forall d, (offset_ d <= length (input_ d))%nat -> Nat.ltb (remaining d) 1 = false ->
            unread d = nth (offset_ d) (input_ d) x00 :: drop (S (offset_ d)) (input_ d)) as Hn.
  { intros d Hle Hr. apply Nat.ltb_ge in Hr. unfold remaining in Hr. unfold unread.
    destruct (lookup_lt_is_Some_2 (input_ d) (offset_ d) ltac:(lia)) as [b Hb].
    rewrite (drop_S _ b) by done. f_equal. symmetry. by apply nth_lookup_Some. }
  split.
  - intros v Hv d rest (_ & Ho & Hle) Hu. unfold dec_u8. rewrite Ho.
    pose proof (remaining_prefix _ _ _ Hu) as Hr. cbn [enc_u8 length] in *.
    assert (Nat.ltb (remaining d) 1 = false) as E by (apply Nat.ltb_ge; lia).
    rewrite E. rewrite (Hn d Hle E) in Hu. injection Hu as -> _.
    by rewrite zb_bz_small.
  - intros d x d' (_ & _ & Hle) H. unfold dec_u8 in H. split_ifs H. injection H as <- <-.
    split; [apply zb_range|]. unfold enc_u8. rewrite bz_zb. split; [|done].
    rewrite (Hn d Hle E0). unfold unread, advance. simpl. by rewrite Nat.add_1_r.
Qed.

#[global] Instance boolean_codec lim : Codec lim enc_boolean dec_boolean (fun _ => True).
Proof.
  split.
  - intros b _. unfold dec_boolean.
    assert (exists v, in_u 8 v /\ enc_u8 v = enc_boolean b /\ (1 <? v) = false /\ (v =? 1) = b)
      as (v & Hv & <- & H1 & H2).
    { destruct b; [exists 1|exists 0]; repeat split; vm_compute; congruence. }
    solve_reads; done.
  - intros d x d' Hl H. unfold dec_boolean in H. repeat dstep H. dfacts. dcanon. b2p.
    split; [done|]. eapply consumed_eq; [done|]. unfold enc_u8, enc_boolean, in_u in *.
    assert (v = 0 \/ v = 1) as [-> | ->] by lia; done.
Qed.

Lemma to_signed64_wrap v : in_i64 v -> to_signed64 (wrap 64 v) = v.
Proof.
  unfold in_i64, to_signed64, wrap. intros Hv. destruct (Z.ltb_spec (v mod 2 ^ 64) (2 ^ 63)); zdiv.
Qed.

Lemma wrap_to_signed64 v : in_u 64 v -> wrap 64 (to_signed64 v) = v /\ in_i64 (to_signed64 v).
Proof.
  unfold in_i64, in_u, to_signed64, wrap. intros Hv.
  destruct (Z.ltb_spec v (2 ^ 63)); split; try lia; zdiv.
Qed.

#[global] Instance i64_codec lim : Codec lim enc_i64 dec_i64 in_i64.
Proof.
  split.
  - intros v Hv. unfold dec_i64, enc_i64.
    change (store_le (wrap 64 v) 8) with (enc_u64 (wrap 64 v)). solve_reads.
    + by apply wrap_in_u.
    + by apply to_signed64_wrap.
  - intros d x d' Hl H. unfold dec_i64 in H. repeat dstep H. dfacts. dcanon.
    destruct (wrap_to_signed64 v Hok) as [Ew Hs]. split; [done|].
    unfold enc_i64. by rewrite Ew.
Qed.

Lemma length_peek d n : (n <= remaining d)%nat -> length (peek d n) = n.
Proof. intros. rewrite peek_unread, length_take, unread_length. lia. Qed.

Lemma dec_blob_reads lim max v : zlen v <= max -> zlen v <= max_blob_bytes lim -> in_u 64 (zlen v) ->
  reads lim (dec_blob max) (enc_blob v) v.
Proof.
  intros Hm Hb Hu. unfold dec_blob, enc_blob.
  change (store_le (zlen v) 8) with (enc_u64 (zlen v)).
  apply (reads_bind _ _ _ (zlen v)); [by apply codec_reads|].
  intros d rest (Hlim & _ & _) Hr. rewrite Hlim.
  pose proof (remaining_prefix _ _ _ Hr). unfold zlen in *.
  rewrite (proj2 (Z.ltb_ge _ _)) by (destruct (_ <? _); lia).
  rewrite (proj2 (Z.ltb_ge _ _)) by lia. rewrite Nat2Z.id. by erewrite peek_prefix.
Qed.

Lemma dec_blob_canon lim max d v d' : live lim d -> dec_blob max d = Ok (v, d') ->
  (zlen v <= max /\ zlen v <= max_blob_bytes lim /\ in_u 64 (zlen v)) /\ consumed d d' (enc_blob v).
Proof.
  intros Hl H. unfold dec_blob in H. apply dbind_Ok in H as (len & d1 & E & H).
  pose proof Hl as (Hlim & _). apply (codec_canon d len d1 Hl) in E as [Hok Hc].
  pose proof (consumed_live _ _ _ _ Hl Hc) as (Hlim1 & _ & _).
  cbv zeta in H. split_matches H. injection H as <- <-. b2p. rewrite Hlim1 in *.
  unfold in_u in *. assert (Hrem : (Z.to_nat len <= remaining d1)%nat) by lia.
  pose proof (length_peek d1 _ Hrem) as Hlen. assert (zlen (peek d1 (Z.to_nat len)) = len) as Ez
    by (unfold zlen; lia).
  split; [rewrite Ez; destruct (max <? max_blob_bytes lim) eqn:Em; b2p; lia|].
  unfold enc_blob. rewrite Ez. eapply consumed_app; [exact Hc|by apply consumed_peek].
Qed.

Definition text_ok (max : Z) (t : bytes) : Prop := zlen t <= max /\ is_valid_utf8 t = true.

(** A text field whose bound fits the limits. *)
Class TextBound (lim : DecodeLimits) (max : Z) : Prop :=
  text_bound : max <= max_text_bytes lim /\ max <= max_blob_bytes lim /\ max < 2 ^ 64.

#[global] Instance text_codec lim max `{!TextBound lim max} :
  Codec lim enc_text (dec_text max) (text_ok max).
Proof.
  destruct TextBound0 as (Ht & Hb & Hm). split.
  - intros t [Hlen Hutf] d rest Hl Hu. pose proof Hl as (Hlim & _). unfold dec_text. rewrite Hlim.
    revert d rest Hl Hu Hlim. intros d rest Hl Hu _. revert d rest Hl Hu. fold (reads lim
      (let? raw := dec_blob (if max <? max_text_bytes lim then max else max_text_bytes lim) in
       dreject (negb (is_valid_utf8 raw)) RC.INVALID_UTF8 "text field is not valid UTF-8" ;?
       dret raw) (enc_text t) t).
    change (enc_text t) with (enc_blob t). eapply reads_eq.
    + apply (reads_bind _ _ _ t t (enc_blob t) []); [apply dec_blob_reads|].
      * destruct (_ <? _); lia.
      * lia.
      * split; [apply zlen_nonneg|lia].
      * eapply (reads_bind _ _ _ tt t [] []); [apply reads_reject; by rewrite Hutf|apply reads_ret].
    + app_norm.
  - intros d t d' Hl H. pose proof Hl as (Hlim & _). unfold dec_text in H. rewrite Hlim in H.
    clear Hlim. repeat dstep H. dfacts. apply (dec_blob_canon lim) in Ed as [(Hl1 & Hl2 & _) Hc]; [|done].
    b2p. repeat split; try done; try apply Hc. destruct (max <? max_text_bytes lim) eqn:E; b2p; lia.
Qed.

#[global] Instance digest_codec lim : Codec lim enc_digest dec_digest digest_wf.
Proof.
  split.
  - intros g Hg d rest (_ & Ho & _) Hu. unfold dec_digest, enc_digest in *. rewrite Ho.
    pose proof (remaining_prefix _ _ _ Hu) as Hr. pose proof (peek_prefix _ _ _ Hu) as Hp.
    unfold digest_wf in Hg. rewrite Hg in *. rewrite (proj2 (Nat.ltb_ge _ _)) by lia.
    rewrite Hp. unfold Digest_from_bytes, zlen. rewrite Hg. done.
  - intros d g d' _ H. unfold dec_digest in H. split_ifs H. apply Nat.ltb_ge in E0.
    apply rbind_Ok in H as (g' & Hf & H). injection H as <- <-.
    unfold Digest_from_bytes in Hf. split_ifs Hf. injection Hf as <-.
    split; [by apply length_peek|by apply consumed_peek].
Qed.

Lemma dec_count_codec lim max : max < 2 ^ 32 ->
  Codec lim enc_u32 (dec_count max) (fun n => 0 <= n <= max).
Proof.
  intros Hm. split.
  - intros n Hn. unfold dec_count. solve_reads; [unfold in_u; lia|apply Z.ltb_ge; lia|done].
  - intros d n d' Hl H. unfold dec_count in H. repeat dstep H. dfacts. dcanon. b2p.
    split; [unfold in_u in *; lia|done].
Qed.

#[global] Instance text_bound_name lim `{!Roomy lim} : TextBound lim kMaxObjectNameBytes.
Proof. destruct Roomy0. unfold TextBound, kMaxObjectNameBytes. lia. Qed.
#[global] Instance text_bound_endpoint lim `{!Roomy lim} : TextBound lim kMaxEndpointIdBytes.
Proof. destruct Roomy0. unfold TextBound, kMaxEndpointIdBytes. lia. Qed.
#[global] Instance text_bound_text lim `{!Roomy lim} : TextBound lim kMaxTextBytes.
Proof. destruct Roomy0. unfold TextBound, kMaxTextBytes. lia. Qed.
#[global] Instance text_bound_detail lim `{!Roomy lim} : TextBound lim kMaxDetailBytes.
Proof. destruct Roomy0. unfold TextBound, kMaxDetailBytes. lia. Qed.

(** ** Counted sequences: [for (i = 0; i < count; ++i) out.push_back(decode())] *)

Fixpoint dec_repeat {A} (dec : Dec A) (n : nat) : Dec (list A) :=
  match n with
  | O => dret []
  | S n' => let? x := dec in let? xs := dec_repeat dec n' in dret (x :: xs)
  end.

Definition enc_seq {A} (enc : A -> bytes) (xs : list A) : bytes := concat (map enc xs).

Section sequences.
Context {A : Type} (lim : DecodeLimits) (enc : A -> bytes) (dec : Dec A) (ok : A -> Prop).
Context `{!Codec lim enc dec ok}.

Lemma dec_repeat_reads xs : Forall ok xs ->
  reads lim (dec_repeat dec (length xs)) (enc_seq enc xs) xs.
Proof.
  induction 1 as [|x xs Hx Hxs IH]; [apply reads_ret|]. cbn [dec_repeat length].
  unfold enc_seq in *. cbn [map concat]. eapply reads_eq.
  - eapply reads_bind; [by apply codec_reads|]. eapply reads_bind; [exact IH|]. apply reads_ret.
  - app_norm.
Qed.

Lemma dec_repeat_canon n : forall d xs d', live lim d -> dec_repeat dec n d = Ok (xs, d') ->
  (Forall ok xs /\ length xs = n) /\ consumed d d' (enc_seq enc xs).
Proof.
  induction n as [|n IH]; intros d xs d' Hl H; cbn [dec_repeat] in H.
  - apply dret_Ok in H as [-> ->]. split; [done|]. apply consumed_nil.
  - repeat dstep H. subst. apply (codec_canon d v dd Hl) in Ed as [Hok Hc].
    pose proof (consumed_live _ _ _ _ Hl Hc) as Hl'.
    destruct (IH _ _ _ Hl' Ed0) as [[Hf Hn] Hc']. split; [split; [by constructor|by simpl; rewrite Hn]|].
    unfold enc_seq. cbn [map concat]. by eapply consumed_app.
Qed.

(** The encodings of a codec are prefix-free: the reading of a buffer is
    unique however it continues. *)
Lemma codec_prefix_free x y r r' : ok x -> ok y ->
  zlen (enc x ++ r) <= max_input_bytes lim -> enc x ++ r = enc y ++ r' -> x = y /\ r = r'.
Proof.
  intros Hx Hy Hlen Heq.
  assert (Hl : live lim (Decoder_make (enc x ++ r) lim)).
  { repeat split; simpl; [by apply Z.ltb_ge|lia]. }
  pose proof (codec_reads x Hx _ r Hl eq_refl) as H1.
  pose proof (codec_reads y Hy _ r' Hl Heq) as H2.
  rewrite H1 in H2. injection H2 as -> _. by simplify_list_eq.
Qed.

(** ** Whole messages: decode, then require the end of the input *)

Definition decode_all (input : bytes) : Result A :=
  let! r := (let? x := dec in dec_require_end ;? dret x) (Decoder_make input lim) in Ok r.1.

Lemma decode_all_encode x : ok x -> zlen (enc x) <= max_input_bytes lim ->
  decode_all (enc x) = Ok x.
Proof.
  intros Hx Hlen. unfold decode_all. set (d := Decoder_make (enc x) lim).
  assert (Hl : live lim d) by (repeat split; simpl; [by apply Z.ltb_ge|lia]).
  assert (Hu : unread d = enc x ++ []) by (by rewrite app_nil_r).
  unfold dbind. rewrite (codec_reads x Hx d [] Hl Hu). simpl.
  unfold dec_require_end, advance, at_end. destruct Hl as (_ & -> & _). simpl.
  by rewrite Nat.eqb_refl.
Qed.

Lemma decode_all_canonical input x : zlen input <= max_input_bytes lim ->
  decode_all input = Ok x -> ok x /\ input = enc x.
Proof.
  unfold decode_all. intros Hlen H. apply rbind_Ok in H as ([y d2] & H & E). injection E as ->.
  repeat dstep H. subst. unfold dec_require_end in Ed0.
  destruct (over_limit_ dd) eqn:Eo; [discriminate|].
  destruct (at_end dd) eqn:Ea; [|discriminate]. clear Ed0. apply Nat.eqb_eq in Ea.
  assert (Hl : live lim (Decoder_make input lim)) by (repeat split; simpl; [by apply Z.ltb_ge|lia]).
  apply (codec_canon _ _ _ Hl) in Ed as [Hok [Hu Hd]]. split; [done|].
  unfold unread in Hu. rewrite Ea, drop_all, app_nil_r in Hu. exact Hu.
Qed.
End sequences.

(** ** Properties *)

(** (round trip, canonicality) The interface laws at the primitive fields:
    every in-range integer, boolean, bounded UTF-8 text and digest is read back
    from its encoding wherever it stands in a buffer, and a successful read
    consumed exactly the encoding of the value it returned. *)
Theorem primitive_fields_canonical (lim : DecodeLimits) : Roomy lim ->
  Codec lim enc_u8 dec_u8 (in_u 8) /\ Codec lim enc_u16 dec_u16 (in_u 16) /\
  Codec lim enc_u32 dec_u32 (in_u 32) /\ Codec lim enc_u64 dec_u64 (in_u 64) /\
  Codec lim enc_i64 dec_i64 in_i64 /\ Codec lim enc_boolean dec_boolean (fun _ => True) /\
  Codec lim enc_text (dec_text kMaxTextBytes) (text_ok kMaxTextBytes) /\
  Codec lim enc_digest dec_digest digest_wf.
Proof. intros Hr. split_and!; apply _. Qed.

Lemma primitive_fields_canonical_witness :
  decode_all default_limits dec_u64 (enc_u64 77) = Ok 77.
Proof.
  destruct (primitive_fields_canonical default_limits default_roomy) as (_ & _ & _ & Hc & _).
  apply (decode_all_encode default_limits enc_u64 dec_u64 (in_u 64)); vm_compute; try split; congruence.
Defined.

(** (safety) Encodings of any type with the codec laws are prefix-free: two
    buffers that start with encodings of well-formed values and are equal start
    with the same value and continue equally, so concatenated fields are never
    ambiguous. *)
Theorem encodings_prefix_free {A} (lim : DecodeLimits) (enc : A -> bytes) (dec : Dec A) (ok : A -> Prop)
    (x y : A) (r r' : bytes) :
  Codec lim enc dec ok -> ok x -> ok y -> zlen (enc x ++ r) <= max_input_bytes lim ->
  enc x ++ r = enc y ++ r' -> x = y /\ r = r'.
Proof. intros Hc Hx Hy Hl H. by eapply (codec_prefix_free lim enc dec ok). Qed.

Lemma encodings_prefix_free_witness : 5 = 5 /\ lit "rest" = lit "rest".
Proof.
  apply (encodings_prefix_free default_limits enc_u64 dec_u64 (in_u 64) 5 5 (lit "rest") (lit "rest"));
    first [apply u64_codec | reflexivity | vm_compute; split; congruence | vm_compute; congruence].
Defined.
