(* ===== verification/Ids.v ===== *)
(** * Identities, generations and incarnations (src/src/ids.cpp, include/smf/ids.hpp)

    Fixed-width identifiers are byte strings of the array's width, generations
    are 64-bit integers in which zero means "not set", an endpoint name is its
    restricted ASCII string.  Proved here: the codecs of the identifiers, that
    object ids and chunk digests bind every field they are computed from (a
    clash exhibits a SHA-256 collision), and the deterministic entropy stream. *)
From S2P Require Import Prelude Status Bytes Digest Codec.

(** ** Fixed-width identifiers *)

Abbreviation FixedId := bytes (only parsing).
Definition id_wf (n : nat) (v : bytes) : Prop := length v = n.

Definition FixedId_from_bytes (n : nat) (raw : bytes) : Result bytes :=
  if negb (zlen raw =? Z.of_nat n) then fail RC.INVALID_ID "identifier has the wrong width"
  else Ok raw.

Definition FixedId_from_hex (n : nat) (text : bytes) : Result bytes :=
  match from_hex text with
  | Some raw => if negb (zlen raw =? Z.of_nat n)
                then fail RC.INVALID_ID "identifier is not valid hexadecimal of the expected width"
                else Ok raw
  | None => fail RC.INVALID_ID "identifier is not valid hexadecimal of the expected width"
  end.

(** The first [n] bytes of the digest, zero-filled when [n] exceeds its width. *)
Definition FixedId_from_digest (n : nat) (digest : Digest) : bytes :=
  take n digest ++ replicate (n - kDigestBytes) x00.

Definition FixedId_encode (v : bytes) : bytes := enc_blob v.

Definition FixedId_decode (n : nat) : Dec bytes :=
  let? raw := dec_blob (Z.of_nat n) in
  dreject (negb (zlen raw =? Z.of_nat n)) RC.PROTOCOL_CANONICAL_VIOLATION
    "identifier field has the wrong width" ;?
  dlift (FixedId_from_bytes n raw).

Definition kStateObjectIdBytes : nat := 32.
Definition kMovementIdBytes : nat := 16.
Definition kTransferAttemptIdBytes : nat := 16.
Definition kBootIdBytes : nat := 16.
Definition kSessionIdBytes : nat := 16.
Definition kNonceBytes : nat := 32.

(** [operator<] of the underlying array or string: lexicographic. *)
Fixpoint bytes_ltb (a b : bytes) : bool :=
  match a, b with
  | [], [] => false
  | [], _ :: _ => true
  | _ :: _, [] => false
  | x :: a', y :: b' =>
      if zb x <? zb y then true else if zb y <? zb x then false else bytes_ltb a' b'
  end.

(** ** Generations *)

Definition Generation_from_value (value : Z) : Result Z :=
  if value =? 0 then fail RC.INVALID_GENERATION "generation zero is not a valid generation"
  else Ok value.

Definition is_set (g : Z) : bool := negb (g =? 0).

Definition Generation_next (g : Z) : Result Z :=
  if g =? u64_max then fail RC.SIZE_OVERFLOW "generation space exhausted"
  else Ok (wrap 64 (g + 1)).

(** ** Endpoint names *)

Definition is_name_byte (c : byte) : bool :=
  let v := zb c in
  ((48 <=? v) && (v <=? 57)) || ((97 <=? v) && (v <=? 122)) || ((65 <=? v) && (v <=? 90)) ||
  (v =? 46) || (v =? 95) || (v =? 45).

Definition kMaxLength : Z := 63.

(** [text.front() == '-' || text.front() == '.'] *)
Definition bad_front (text : bytes) : bool :=
  match text with [] => false | c :: _ => (zb c =? 45) || (zb c =? 46) end.

Definition EndpointId_parse (text : bytes) : Result bytes :=
  if bytes_eqb text [] then fail RC.INVALID_ID "endpoint id must not be empty"
  else if kMaxLength <? zlen text then fail RC.INVALID_ID "endpoint id exceeds the maximum length"
  else if bad_front text then fail RC.INVALID_ID "endpoint id must not start with '-' or '.'"
  else if negb (forallb is_name_byte text)
  then fail RC.INVALID_ID "endpoint id may only contain ASCII letters, digits, '.', '_', and '-'"
  else Ok text.

Definition EndpointId_is_valid (text : bytes) : bool :=
  if bytes_eqb text [] || (kMaxLength <? zlen text) then false
  else if bad_front text then false
  else forallb is_name_byte text.

(** ** Incarnations *)

Record Incarnation := mkIncarnation {
  inc_endpoint : bytes;
  inc_boot : bytes;
  inc_epoch : Z }.

(** [Incarnation()] *)
Definition no_incarnation : Incarnation := mkIncarnation [] (replicate kBootIdBytes x00) 0.

#[global] Instance Incarnation_eq_dec : EqDecision Incarnation.
Proof. solve_decision. Defined.

Definition Incarnation_make (endpoint boot : bytes) (epoch : Z) : Result Incarnation :=
  if negb (is_set epoch) then fail RC.INVALID_GENERATION "incarnation epoch must be non-zero"
  else if bytes_eqb endpoint [] then fail RC.INVALID_ID "incarnation endpoint must not be empty"
  else if array_is_zero boot then fail RC.INVALID_ID "incarnation boot id must not be zero"
  else Ok (mkIncarnation endpoint boot epoch).

Definition Incarnation_is_set (i : Incarnation) : bool :=
  negb (bytes_eqb (inc_endpoint i) []) && negb (array_is_zero (inc_boot i)) && is_set (inc_epoch i).

Definition Incarnation_eqb (a b : Incarnation) : bool :=
  bytes_eqb (inc_endpoint a) (inc_endpoint b) && bytes_eqb (inc_boot a) (inc_boot b) &&
  (inc_epoch a =? inc_epoch b).

(** ** State kinds *)

Module SK.
Inductive StateKind : Set :=
  | UNKNOWN | MODEL | ADAPTER | TENSOR | KV | PREFIX | CHECKPOINT | ARTIFACT | GENERIC_BLOB.
End SK.
Abbreviation StateKind := SK.StateKind.

#[global] Instance StateKind_eq_dec : EqDecision StateKind.
Proof. solve_decision. Defined.

(** [kAll]: the declared kinds in the order of their values. *)
Definition all_state_kinds : list StateKind :=
  [SK.UNKNOWN; SK.MODEL; SK.ADAPTER; SK.TENSOR; SK.KV; SK.PREFIX; SK.CHECKPOINT; SK.ARTIFACT;
   SK.GENERIC_BLOB].

Definition state_kind_value (k : StateKind) : Z :=
  match k with
  | SK.UNKNOWN => 0 | SK.MODEL => 1 | SK.ADAPTER => 2 | SK.TENSOR => 3 | SK.KV => 4
  | SK.PREFIX => 5 | SK.CHECKPOINT => 6 | SK.ARTIFACT => 7 | SK.GENERIC_BLOB => 8
  end.

(** [static_cast<StateKind>(v)] for a value in range. *)
Definition state_kind_of_value (v : Z) : StateKind := nth (Z.to_nat v) all_state_kinds SK.UNKNOWN.

Definition state_kind_to_string (k : StateKind) : bytes :=
  match k with
  | SK.UNKNOWN => lit "UNKNOWN"
  | SK.MODEL => lit "MODEL"
  | SK.ADAPTER => lit "ADAPTER"
  | SK.TENSOR => lit "TENSOR"
  | SK.KV => lit "KV"
  | SK.PREFIX => lit "PREFIX"
  | SK.CHECKPOINT => lit "CHECKPOINT"
  | SK.ARTIFACT => lit "ARTIFACT"
  | SK.GENERIC_BLOB => lit "GENERIC_BLOB"
  end.

Definition state_kind_from_string (text : bytes) : option StateKind :=
  List.find (fun k => bytes_eqb text (state_kind_to_string k)) all_state_kinds.

Definition is_known_state_kind (k : StateKind) : bool := negb (bool_decide (k = SK.UNKNOWN)).

(** ** Canonical identity *)

(** The canonical encoding [derive_state_object_id] hashes. *)
Definition object_id_preimage (kind : StateKind) (name : bytes) : bytes :=
  enc_text (lit "SMF-STATE-OBJECT-ID-v1") ++ enc_u8 (state_kind_value kind) ++ enc_text name.

Definition derive_state_object_id (kind : StateKind) (name : bytes) : Result bytes :=
  if bytes_eqb name [] then fail RC.INVALID_ARGUMENT "state object name must not be empty"
  else if 4096 <? zlen name
  then fail RC.INVALID_ARGUMENT "state object name exceeds the maximum length"
  else if negb (is_valid_utf8 name)
  then fail RC.INVALID_UTF8 "state object name is not valid UTF-8"
  else Ok (FixedId_from_digest kStateObjectIdBytes (canonical_digest (object_id_preimage kind name))).

Definition chunk_preimage (object_id : bytes) (generation chunk_index chunk_offset chunk_length : Z)
    (payload : bytes) : bytes :=
  enc_text (lit "SMF-CHUNK-v1") ++ enc_digest object_id ++ enc_u64 generation ++
  enc_u32 chunk_index ++ enc_u64 chunk_offset ++ enc_u64 chunk_length ++ enc_blob payload.

Definition compute_chunk_digest (object_id : bytes)
    (generation chunk_index chunk_offset chunk_length : Z) (payload : bytes) : Digest :=
  canonical_digest
    (chunk_preimage object_id generation chunk_index chunk_offset chunk_length payload).

(** ** Entropy *)

(** [splitmix64]: the new state and the output. *)
Definition splitmix64 (state : Z) : Z * Z :=
  let state := wrap 64 (state + 0x9E3779B97F4A7C15) in
  let z := state in
  let z := wrap 64 (Z.lxor z (Z.shiftr z 30) * 0xBF58476D1CE4E5B9) in
  let z := wrap 64 (Z.lxor z (Z.shiftr z 27) * 0x94D049BB133111EB) in
  (state, Z.lxor z (Z.shiftr z 31)).

(** The interface [EntropySource]: filling [n] bytes from a source in state
    [s].  The operating system's source is an instance the model does not
    have; [DeterministicEntropySource] is one it does. *)
Class EntropySource (S : Type) := {
  entropy_fill : S -> nat -> bytes * S;
  entropy_fill_length : forall s n, length (entropy_fill s n).1 = n }.

Record DeterministicEntropy := mkDetEntropy { det_state : Z; det_counter : Z }.

Definition det_next_u64 (e : DeterministicEntropy) : Z * DeterministicEntropy :=
  let '(s, w) := splitmix64 (det_state e) in (w, mkDetEntropy s (wrap 64 (det_counter e + 1))).

(** The outer loop of [fill]: one word per turn, at most eight bytes of it. *)
Fixpoint det_fill_loop (fuel n : nat) (e : DeterministicEntropy) : bytes * DeterministicEntropy :=
  match fuel with
  | O => ([], e)
  | S f =>
      match n with
      | O => ([], e)
      | _ => let '(word, e1) := det_next_u64 e in
             let '(rest, e2) := det_fill_loop f (n - 8) e1 in
             (store_le word (Nat.min 8 n) ++ rest, e2)
      end
  end.

Definition det_fill (e : DeterministicEntropy) (n : nat) : bytes * DeterministicEntropy :=
  det_fill_loop n n e.

(** [IdIssuer::new_*_id]: a fresh identifier of the given width. *)
Definition new_fixed_id {S} `{EntropySource S} (n : nat) (s : S) : bytes * S := entropy_fill s n.
Definition new_movement_id {S} `{EntropySource S} (s : S) : bytes * S := new_fixed_id kMovementIdBytes s.
Definition new_attempt_id {S} `{EntropySource S} (s : S) : bytes * S := new_fixed_id kTransferAttemptIdBytes s.
Definition new_boot_id {S} `{EntropySource S} (s : S) : bytes * S := new_fixed_id kBootIdBytes s.
Definition new_session_id {S} `{EntropySource S} (s : S) : bytes * S := new_fixed_id kSessionIdBytes s.
Definition new_nonce {S} `{EntropySource S} (s : S) : bytes * S := new_fixed_id kNonceBytes s.

(** ** Lemmas *)

Lemma fixed_id_codec lim n : Roomy lim -> (n <= 4096)%nat ->
  Codec lim FixedId_encode (FixedId_decode n) (id_wf n).
Proof.
  intros [_ Hb] Hn. unfold id_wf, FixedId_encode. split.
  - intros v Hv. unfold FixedId_decode, FixedId_from_bytes. eapply reads_eq.
    + eapply reads_bind; [apply (dec_blob_reads _ _ v); unfold in_u, zlen; lia|].
      unfold zlen. rewrite Hv, Z.eqb_refl. eapply reads_bind; by apply reads_lift.
    + app_norm.
  - intros d v d' Hl H. unfold FixedId_decode in H. repeat dstep H. dfacts.
    apply (dec_blob_canon lim) in Ed as [_ Hc]; [|done].
    unfold FixedId_from_bytes in *. split_ifs H. injection H as <-. b2p. unfold zlen in *.
    split; [lia|done].
Qed.

#[global] Instance id16_codec lim `{!Roomy lim} : Codec lim FixedId_encode (FixedId_decode 16) (id_wf 16).
Proof. apply fixed_id_codec; [done|lia]. Qed.
#[global] Instance id32_codec lim `{!Roomy lim} : Codec lim FixedId_encode (FixedId_decode 32) (id_wf 32).
Proof. apply fixed_id_codec; [done|lia]. Qed.

Lemma FixedId_from_hex_to_hex n v : length v = n -> FixedId_from_hex n (to_hex v) = Ok v.
Proof.
  intros <-. unfold FixedId_from_hex. rewrite from_hex_to_hex. unfold zlen. by rewrite Z.eqb_refl.
Qed.

Lemma from_digest_32 d : digest_wf d -> FixedId_from_digest kStateObjectIdBytes d = d.
Proof.
  intros H. unfold FixedId_from_digest, kStateObjectIdBytes, kDigestBytes.
  rewrite app_nil_r. apply take_ge. rewrite H. done.
Qed.

(** Generations never wrap. *)
Lemma Generation_next_spec g : in_u 64 g ->
  match Generation_next g with
  | Ok g' => g' = g + 1 /\ in_u 64 g'
  | Err s => g = u64_max /\ st_code s = RC.SIZE_OVERFLOW
  end.
Proof.
  intros Hg. unfold Generation_next, u64_max. destruct (Z.eqb_spec g (2 ^ 64 - 1)); [done|].
  unfold in_u in *. rewrite wrap_small; unfold in_u; lia.
Qed.

Lemma Generation_next_Ok g g' : in_u 64 g -> Generation_next g = Ok g' -> g' = g + 1 /\ in_u 64 g'.
Proof. intros Hg E. pose proof (Generation_next_spec g Hg) as H. by rewrite E in H. Qed.

Lemma EndpointId_parse_spec t r : EndpointId_parse t = Ok r <-> r = t /\ EndpointId_is_valid t = true.
Proof.
  unfold EndpointId_parse, EndpointId_is_valid.
  destruct (bytes_eqb t []), (kMaxLength <? zlen t), (bad_front t), (forallb is_name_byte t);
    simpl; naive_solver.
Qed.

Lemma EndpointId_parse_self t : EndpointId_is_valid t = true -> EndpointId_parse t = Ok t.
Proof. intros H. by apply EndpointId_parse_spec. Qed.

Lemma is_name_byte_ascii : forall b, implb (is_name_byte b) (zb b <? 0x80) = true.
Proof. apply byte_forall. vm_compute. reflexivity. Qed.

Lemma endpoint_text t : EndpointId_is_valid t = true -> text_ok kMaxEndpointIdBytes t /\ t <> [].
Proof.
  unfold EndpointId_is_valid, text_ok, kMaxEndpointIdBytes, kMaxLength. intros H.
  split_ifs H. apply orb_false_iff in E as [? ?]. b2p. repeat split; [lia| |done].
  apply valid_utf8_ascii. apply forallb_forall. intros b Hb.
  rewrite forallb_forall in H. specialize (H b Hb). pose proof (is_name_byte_ascii b) as Hn.
  by rewrite H in Hn.
Qed.

(** An endpoint field: [decoder.text(kMaxEndpointIdBytes)] then [EndpointId::parse]. *)
Definition dec_endpoint : Dec bytes :=
  let? raw := dec_text kMaxEndpointIdBytes in dlift (EndpointId_parse raw).

#[global] Instance endpoint_codec lim `{!Roomy lim} :
  Codec lim enc_text dec_endpoint (fun t => EndpointId_is_valid t = true).
Proof.
  split.
  - intros t Ht. unfold dec_endpoint. solve_reads; [by apply endpoint_text|].
    by apply EndpointId_parse_spec.
  - intros d t d' Hl H. unfold dec_endpoint in H. repeat dstep H. subst. dcanon.
    apply EndpointId_parse_spec in H as [-> Hv]. split; [done|solve_consumed].
Qed.

Lemma Incarnation_eqb_eq a b : Incarnation_eqb a b = true <-> a = b.
Proof.
  unfold Incarnation_eqb. destruct a, b; simpl. rewrite !andb_true_iff, !bytes_eqb_eq, Z.eqb_eq.
  naive_solver.
Qed.

Lemma Incarnation_make_spec e b ep i : Incarnation_make e b ep = Ok i <->
  i = mkIncarnation e b ep /\ Incarnation_is_set i = true.
Proof.
  unfold Incarnation_make, Incarnation_is_set.
  destruct (is_set ep) eqn:E1, (bytes_eqb e []) eqn:E2, (array_is_zero b) eqn:E3; simpl;
    (split; [intros H; try discriminate H; injection H as <-; simpl; rewrite ?E1, ?E2, ?E3; done
            |intros [-> H]; simpl in H; rewrite ?E1, ?E2, ?E3 in H; simpl in H; congruence]).
Qed.

Lemma Incarnation_make_self i : Incarnation_is_set i = true ->
  Incarnation_make (inc_endpoint i) (inc_boot i) (inc_epoch i) = Ok i.
Proof. intros H. apply Incarnation_make_spec. by destruct i. Qed.

Lemma state_kind_of_value_value k : state_kind_of_value (state_kind_value k) = k.
Proof. by destruct k. Qed.

Lemma state_kind_value_range k : 0 <= state_kind_value k <= 8.
Proof. destruct k; simpl; lia. Qed.

Lemma state_kind_value_of_value v : 0 <= v <= 8 -> state_kind_value (state_kind_of_value v) = v.
Proof.
  intros H. assert (In (Z.to_nat v) (seq 0 9)) as Hin by (apply in_seq; lia).
  rewrite <- (Z2Nat.id v) at 2 by lia. unfold state_kind_of_value. revert Hin.
  generalize (Z.to_nat v) as n. simpl. intros n Hin. naive_solver.
Qed.

Lemma state_kind_from_to_string k : state_kind_from_string (state_kind_to_string k) = Some k.
Proof. by destruct k. Qed.

(** ** Binding *)

(** Two different byte strings with one SHA-256 digest. *)
Definition sha256_collision (a b : bytes) : Prop := a <> b /\ sha256 a = sha256 b.

Lemma sha256_binds a b : sha256 a = sha256 b -> a = b \/ sha256_collision a b.
Proof. intros H. destruct (decide (a = b)); [by left|by right]. Qed.

Lemma enc_u8_inj a b : in_u 8 a -> in_u 8 b -> enc_u8 a = enc_u8 b -> a = b.
Proof.
  intros Ha Hb H. injection H as H. apply (f_equal zb) in H. rewrite !zb_bz_small in H by done. done.
Qed.

Lemma store_le_inj n a b : in_u (8 * Z.of_nat n) a -> in_u (8 * Z.of_nat n) b ->
  store_le a n = store_le b n -> a = b.
Proof.
  intros Ha Hb H. apply (f_equal load_le) in H. rewrite !load_store_le in H.
  unfold in_u in *. by rewrite !Z.mod_small in H by done.
Qed.

(** Concatenations whose first parts have one length split. *)
Lemma app_split {A} (a b x y : list A) : a ++ x = b ++ y -> length a = length b -> a = b /\ x = y.
Proof. intros H Hl. by apply app_inj_1. Qed.

Lemma enc_blob_inj a b x y : in_u 64 (zlen a) -> in_u 64 (zlen b) ->
  enc_blob a ++ x = enc_blob b ++ y -> a = b /\ x = y.
Proof.
  intros Ha Hb H. unfold enc_blob in H. rewrite <- !app_assoc in H.
  apply app_split in H as [H1 H2]; [|by rewrite !length_store_le].
  apply (store_le_inj 8) in H1; [|done|done].
  apply app_split in H2; [done|]. unfold zlen in H1. lia.
Qed.

Lemma object_id_preimage_inj k k' n n' : zlen n <= 4096 -> zlen n' <= 4096 ->
  object_id_preimage k n = object_id_preimage k' n' -> k = k' /\ n = n'.
Proof.
  intros Hn Hn' H. unfold object_id_preimage in H. apply app_inv_head in H.
  apply app_split in H as [H1 H2]; [|done].
  pose proof (state_kind_value_range k). pose proof (state_kind_value_range k').
  apply enc_u8_inj in H1; [|unfold in_u; lia..].
  split; [by rewrite <- (state_kind_of_value_value k), H1, state_kind_of_value_value|].
  pose proof (zlen_nonneg n). pose proof (zlen_nonneg n').
  change (enc_text ?x) with (enc_blob x) in H2.
  apply (enc_blob_inj n n' [] []); [unfold in_u; lia..|]. by rewrite !app_nil_r.
Qed.

Lemma derive_state_object_id_Ok k n i : derive_state_object_id k n = Ok i <->
  n <> [] /\ text_ok 4096 n /\ i = sha256 (object_id_preimage k n).
Proof.
  unfold derive_state_object_id, text_ok, canonical_digest.
  rewrite from_digest_32 by apply length_sha256.
  destruct (bytes_eqb n []) eqn:E1, (4096 <? zlen n) eqn:E2, (is_valid_utf8 n) eqn:E3; b2p; simpl;
    (split; [intros H; try discriminate H; injection H as <-; done
            |intros (? & [? ?] & ->); first [done|lia|congruence]]).
Qed.

Lemma derive_state_object_id_binds k n k' n' i :
  derive_state_object_id k n = Ok i -> derive_state_object_id k' n' = Ok i ->
  (k = k' /\ n = n') \/ sha256_collision (object_id_preimage k n) (object_id_preimage k' n').
Proof.
  rewrite !derive_state_object_id_Ok. intros (_ & [Hn _] & ->) (_ & [Hn' _] & H).
  apply sha256_binds in H as [H|H]; [left|by right]. by apply object_id_preimage_inj.
Qed.

Lemma chunk_preimage_inj o g i off len p o' g' i' off' len' p' :
  digest_wf o -> digest_wf o' -> in_u 64 g -> in_u 64 g' -> in_u 32 i -> in_u 32 i' ->
  in_u 64 off -> in_u 64 off' -> in_u 64 len -> in_u 64 len' ->
  in_u 64 (zlen p) -> in_u 64 (zlen p') ->
  chunk_preimage o g i off len p = chunk_preimage o' g' i' off' len' p' ->
  (o, g, i, off, len, p) = (o', g', i', off', len', p').
Proof.
  unfold digest_wf. intros Ho Ho' Hg Hg' Hi Hi' Hf Hf' Hl Hl' Hp Hp' H.
  unfold chunk_preimage in H. apply app_inv_head in H.
  apply app_split in H as [E0 H]; [|unfold enc_digest; congruence].
  change (o = o') in E0. subst o'.
  apply app_split in H as [E1 H]; [|unfold enc_u64; by rewrite !length_store_le].
  apply app_split in H as [E2 H]; [|unfold enc_u32; by rewrite !length_store_le].
  apply app_split in H as [E3 H]; [|unfold enc_u64; by rewrite !length_store_le].
  apply app_split in H as [E4 H]; [|unfold enc_u64; by rewrite !length_store_le].
  apply store_le_inj in E1 as ->; [|done..]. apply store_le_inj in E2 as ->; [|done..].
  apply store_le_inj in E3 as ->; [|done..]. apply store_le_inj in E4 as ->; [|done..].
  destruct (enc_blob_inj p p' [] []) as [-> _]; [done..|by rewrite !app_nil_r|done].
Qed.

(** ** The deterministic stream fills what it is asked to *)

Lemma det_fill_loop_length : forall fuel n e, (n <= fuel)%nat ->
  length (det_fill_loop fuel n e).1 = n.
Proof.
  induction fuel as [|f IH]; intros [|n] e Hn; try done; [lia|]. cbn [det_fill_loop].
  destruct (det_next_u64 e) as [word e1]. pose proof (IH (S n - 8)%nat e1 ltac:(lia)) as E.
  destruct (det_fill_loop f (S n - 8) e1) as [rest e2]. cbn [fst] in *.
  rewrite length_app, length_store_le, E. lia.
Qed.

#[global] Instance DeterministicEntropySource : EntropySource DeterministicEntropy :=
  {| entropy_fill := det_fill;
     entropy_fill_length := fun e n => det_fill_loop_length n n e (le_n n) |}.

(** ** Properties *)

(** (safety) A chunk digest binds everything it is computed from: if two chunk
    claims have one digest, then object, generation, index, offset, length and
    payload agree, or the two encodings are an explicit SHA-256 collision.  So a
    chunk cannot be replayed into another slot. *)
Theorem chunk_digest_binds_slot (o o' : bytes) (g g' i i' off off' len len' : Z) (p p' : bytes) :
  digest_wf o -> digest_wf o' -> in_u 64 g -> in_u 64 g' -> in_u 32 i -> in_u 32 i' ->
  in_u 64 off -> in_u 64 off' -> in_u 64 len -> in_u 64 len' ->
  in_u 64 (zlen p) -> in_u 64 (zlen p') ->
  compute_chunk_digest o g i off len p = compute_chunk_digest o' g' i' off' len' p' ->
  (o, g, i, off, len, p) = (o', g', i', off', len', p') \/
  sha256_collision (chunk_preimage o g i off len p) (chunk_preimage o' g' i' off' len' p').
Proof.
  intros Ho Ho' Hg Hg' Hi Hi' Hf Hf' Hl Hl' Hp Hp' H.
  apply sha256_binds in H as [H|H]; [left|by right]. by apply chunk_preimage_inj.
Qed.

Lemma chunk_digest_binds_slot_witness :
  (sha256 [], 1, 0, 0, 3, lit "abc") = (sha256 [], 1, 0, 0, 3, lit "abc") \/
  sha256_collision (chunk_preimage (sha256 []) 1 0 0 3 (lit "abc"))
    (chunk_preimage (sha256 []) 1 0 0 3 (lit "abc")).
Proof.
  apply (chunk_digest_binds_slot (sha256 []) (sha256 []) 1 1 0 0 0 0 3 3 (lit "abc") (lit "abc"));
    first [reflexivity | apply length_sha256 | vm_compute; split; congruence].
Defined.

(** (safety) Object identity is determined by kind and name: two well-formed
    names with one object id are the same name of the same kind, or exhibit a
    SHA-256 collision; and a name is refused exactly when it is empty, longer
    than 4096 bytes or not UTF-8. *)
Theorem object_id_binds_kind_and_name (k k' : StateKind) (n n' i : bytes) :
  (derive_state_object_id k n = Ok i -> derive_state_object_id k' n' = Ok i ->
   (k = k' /\ n = n') \/ sha256_collision (object_id_preimage k n) (object_id_preimage k' n')) /\
  (is_ok (derive_state_object_id k n) = true <->
   n <> [] /\ zlen n <= 4096 /\ is_valid_utf8 n = true).
Proof.
  split; [apply derive_state_object_id_binds|]. rewrite is_ok_Ok.
  setoid_rewrite derive_state_object_id_Ok. unfold text_ok. naive_solver.
Qed.

Lemma object_id_binds_kind_and_name_witness :
  (SK.KV = SK.KV /\ lit "n" = lit "n") \/
  sha256_collision (object_id_preimage SK.KV (lit "n")) (object_id_preimage SK.KV (lit "n")).
Proof.
  apply (proj1 (object_id_binds_kind_and_name SK.KV SK.KV (lit "n") (lit "n")
    (sha256 (object_id_preimage SK.KV (lit "n"))))); vm_compute; reflexivity.
Defined.
