(* ===== verification/StateObject.v ===== *)
(** * State objects, chunk plans and resume state

    Models src/src/state_object.cpp and src/src/chunk_plan.cpp.  Proved: the
    descriptor codec; that the chunks of a validated descriptor partition its
    bytes (contiguous, in bounds, no gap, no overlap, sum equal to the total);
    that a decoded resume state accounts exactly for its verified prefix; the
    meaning of resume compatibility; and that the verification sample is
    strictly increasing, in range and within its budget. *)
From Stdlib Require Import Sorting.Sorted.
From S2P Require Import Prelude Status Bytes Digest Codec Ids.

(** ** Descriptor *)

Record StateObjectDescriptor := mkDescriptor {
  d_object_id : bytes;
  d_kind : StateKind;
  d_name : bytes;
  d_generation : Z;
  d_content_digest : Digest;
  d_total_bytes : Z;
  d_chunk_bytes : Z;
  d_chunk_count : Z;
  d_created_unix_millis : Z;
  d_producer : bytes;
  d_repeatable : bool }.

#[global] Instance StateObjectDescriptor_eq_dec : EqDecision StateObjectDescriptor.
Proof. solve_decision. Defined.

(** Unsigned arithmetic: the sum wraps, the division is by a non-zero value. *)
Definition ceil_div (numerator denominator : Z) : Z :=
  wrap 64 (wrap 64 (numerator + denominator) - 1) / denominator.

Definition expected_chunks (total_bytes chunk_bytes : Z) : Z :=
  if total_bytes =? 0 then 0 else ceil_div total_bytes chunk_bytes.

Definition StateObjectDescriptor_validate (d : StateObjectDescriptor) : Result unit :=
  if array_is_zero (d_object_id d) then fail RC.INVALID_ID "state object id must not be zero"
  else if bytes_eqb (d_name d) [] then fail RC.INVALID_ARGUMENT "state object name must not be empty"
  else if kMaxObjectNameBytes <? zlen (d_name d)
  then fail RC.INVALID_ARGUMENT "state object name exceeds the maximum length"
  else if negb (is_valid_utf8 (d_name d))
  then fail RC.INVALID_UTF8 "state object name is not valid UTF-8"
  else if kMaxTextBytes <? zlen (d_name d)
  then fail RC.INVALID_ARGUMENT "state object name exceeds the text bound"
  else
    let! derived := derive_state_object_id (d_kind d) (d_name d) in
    if negb (bytes_eqb derived (d_object_id d))
    then fail RC.INVALID_ID
           "state object id does not match the canonical identity of its kind and name"
    else if negb (is_set (d_generation d))
    then fail RC.INVALID_GENERATION "state generation must be non-zero"
    else if array_is_zero (d_content_digest d)
    then fail RC.INVALID_DIGEST "content digest must not be zero"
    else if kMaxObjectBytes <? d_total_bytes d
    then fail RC.INVALID_SIZE "state object exceeds the maximum supported size"
    else if (d_chunk_bytes d <? kMinChunkBytes) || (kMaxChunkBytes <? d_chunk_bytes d)
    then fail RC.INVALID_SIZE "chunk size is outside the supported range"
    else if d_chunk_bytes d =? 0 then fail RC.INVALID_SIZE "chunk size must not be zero"
    else if kMaxChunksPerObject <? expected_chunks (d_total_bytes d) (d_chunk_bytes d)
    then fail RC.INVALID_SIZE "state object would require too many chunks"
    else if negb (expected_chunks (d_total_bytes d) (d_chunk_bytes d) =? d_chunk_count d)
    then fail RC.INVALID_SIZE "chunk count is inconsistent with the total size and chunk size"
    else if kMaxTextBytes <? zlen (d_producer d)
    then fail RC.INVALID_ARGUMENT "producer string exceeds the text bound"
    else if negb (bytes_eqb (d_producer d) []) && negb (is_valid_utf8 (d_producer d))
    then fail RC.INVALID_UTF8 "producer string is not valid UTF-8"
    else Ok tt.

(** [create].  [None] is the undefined behaviour of the division by a zero
    chunk size, which is computed before [validate] rejects it. *)
Definition StateObjectDescriptor_create (kind : StateKind) (name : bytes) (generation : Z)
    (content_digest : Digest) (total_bytes chunk_bytes created_unix_millis : Z) (producer : bytes)
    : option (Result StateObjectDescriptor) :=
  match derive_state_object_id kind name with
  | Err s => Some (Err s)
  | Ok object_id =>
      if negb (total_bytes =? 0) && (chunk_bytes =? 0) then None
      else
        let descriptor :=
          mkDescriptor object_id kind name generation content_digest total_bytes chunk_bytes
            (wrap 32 (expected_chunks total_bytes chunk_bytes)) created_unix_millis producer true in
        Some (StateObjectDescriptor_validate descriptor ;! Ok descriptor)
  end.

Definition same_version (a b : StateObjectDescriptor) : bool :=
  bytes_eqb (d_object_id a) (d_object_id b) && (d_generation a =? d_generation b) &&
  bytes_eqb (d_content_digest a) (d_content_digest b) && (d_total_bytes a =? d_total_bytes b) &&
  (d_chunk_bytes a =? d_chunk_bytes b) && (d_chunk_count a =? d_chunk_count b).

Definition same_object (a b : StateObjectDescriptor) : bool :=
  bytes_eqb (d_object_id a) (d_object_id b).

Definition chunk_offset (d : StateObjectDescriptor) (index : Z) : Result Z :=
  if d_chunk_count d <=? index
  then fail RC.CHUNK_INDEX_OUT_OF_RANGE "chunk index is outside the object"
  else match checked_mul index (d_chunk_bytes d) with
       | None => fail RC.SIZE_OVERFLOW "chunk offset computation overflowed"
       | Some offset =>
           if d_total_bytes d <=? offset
           then fail RC.CHUNK_INDEX_OUT_OF_RANGE "chunk offset is beyond the object"
           else Ok offset
       end.

Definition chunk_length (d : StateObjectDescriptor) (index : Z) : Result Z :=
  let! offset := chunk_offset d index in
  let remaining := wrap 64 (d_total_bytes d - offset) in
  Ok (if remaining <? d_chunk_bytes d then remaining else d_chunk_bytes d).

Definition StateObjectDescriptor_encode (d : StateObjectDescriptor) : bytes :=
  enc_digest (d_object_id d) ++ enc_u8 (state_kind_value (d_kind d)) ++ enc_text (d_name d) ++
  enc_u64 (d_generation d) ++ enc_digest (d_content_digest d) ++ enc_u64 (d_total_bytes d) ++
  enc_u64 (d_chunk_bytes d) ++ enc_u32 (d_chunk_count d) ++ enc_i64 (d_created_unix_millis d) ++
  enc_text (d_producer d) ++ enc_boolean (d_repeatable d).

Definition StateObjectDescriptor_decode : Dec StateObjectDescriptor :=
  let? object_id := dec_digest in
  let? kind := dec_u8 in
  dreject (state_kind_value SK.GENERIC_BLOB <? kind) RC.INVALID_STATE_KIND
    "state kind is not recognized" ;?
  let? name := dec_text kMaxObjectNameBytes in
  let? generation := dec_u64 in
  let? content := dec_digest in
  let? total := dec_u64 in
  let? chunk := dec_u64 in
  let? count := dec_u32 in
  let? created := dec_i64 in
  let? producer := dec_text kMaxTextBytes in
  let? repeatable := dec_boolean in
  let descriptor :=
    mkDescriptor (FixedId_from_digest kStateObjectIdBytes object_id) (state_kind_of_value kind)
      name generation content total chunk count created producer repeatable in
  dlift (StateObjectDescriptor_validate descriptor) ;?
  dret descriptor.

Definition descriptor_digest (d : StateObjectDescriptor) : Digest :=
  canonical_digest (enc_text (lit "SMF-STATE-OBJECT-DESCRIPTOR-v1") ++ StateObjectDescriptor_encode d).

Definition describe (d : StateObjectDescriptor) : bytes :=
  state_kind_to_string (d_kind d) ++ lit " " ++ d_name d ++ lit "@" ++
  std_to_string (d_generation d) ++ lit " " ++ std_to_string (d_total_bytes d) ++ lit "B/" ++
  std_to_string (d_chunk_count d) ++ lit "chunks/" ++ take 12 (to_hex (d_content_digest d)).

(** ** Chunk plan: a wrapper around a descriptor *)

Record ChunkPlan := mkChunkPlan { plan_descriptor : StateObjectDescriptor }.

Definition ChunkPlan_create (d : StateObjectDescriptor) : Result ChunkPlan :=
  StateObjectDescriptor_validate d ;! Ok (mkChunkPlan d).

Definition ChunkPlan_offset_of (p : ChunkPlan) (index : Z) : Result Z := chunk_offset (plan_descriptor p) index.
Definition ChunkPlan_length_of (p : ChunkPlan) (index : Z) : Result Z := chunk_length (plan_descriptor p) index.

Definition chunk_digest_of (p : ChunkPlan) (index : Z) (payload : bytes) : Result Digest :=
  let d := plan_descriptor p in
  let! offset := chunk_offset d index in
  let! length := chunk_length d index in
  if negb (zlen payload =? length)
  then fail RC.BYTE_COUNT_MISMATCH "chunk payload length does not match the planned chunk length"
  else Ok (compute_chunk_digest (d_object_id d) (d_generation d) index offset length payload).

Definition same_segmentation (a b : ChunkPlan) : bool :=
  same_version (plan_descriptor a) (plan_descriptor b).

Definition enforce_policy_bounds (p : ChunkPlan) (min_chunk_bytes max_chunk_bytes max_object_bytes : Z)
    : Result unit :=
  let d := plan_descriptor p in
  if (d_chunk_bytes d <? min_chunk_bytes) || (max_chunk_bytes <? d_chunk_bytes d)
  then fail RC.POLICY_VIOLATION "object chunk size is outside the policy bounds for this coordinator"
  else if max_object_bytes <? d_total_bytes d
  then fail RC.POLICY_VIOLATION "object exceeds the maximum size this coordinator will move"
  else Ok tt.

Definition ChunkPlan_encode (p : ChunkPlan) : bytes := StateObjectDescriptor_encode (plan_descriptor p).
Definition ChunkPlan_decode : Dec ChunkPlan :=
  let? d := StateObjectDescriptor_decode in dret (mkChunkPlan d).

(** ** Resume state *)

Record ResumeState := mkResume {
  rs_descriptor : StateObjectDescriptor;
  rs_verified_chunks : Z;
  rs_verified_bytes : Z;
  rs_rolling_digest : Digest }.

Definition ResumeState_complete (r : ResumeState) : bool :=
  (rs_verified_chunks r =? d_chunk_count (rs_descriptor r)) &&
  (rs_verified_bytes r =? d_total_bytes (rs_descriptor r)).

Definition ResumeState_encode (r : ResumeState) : bytes :=
  StateObjectDescriptor_encode (rs_descriptor r) ++ enc_u32 (rs_verified_chunks r) ++
  enc_u64 (rs_verified_bytes r) ++ enc_digest (rs_rolling_digest r).

(** The byte-accounting loop, [n] more turns from [index]; the staging journal
    has the same loop with its own message. *)
Fixpoint prefix_bytes_loop (overflow : String.string) (d : StateObjectDescriptor) (n : nat)
    (index expected_bytes : Z) : Result Z :=
  match n with
  | O => Ok expected_bytes
  | S n' =>
      let! length := chunk_length d index in
      match checked_add expected_bytes length with
      | None => fail RC.SIZE_OVERFLOW overflow
      | Some next => prefix_bytes_loop overflow d n' (index + 1) next
      end
  end.

Arguments prefix_bytes_loop _%_string_scope _ _%_nat_scope _%_Z_scope _%_Z_scope.

Definition ResumeState_decode : Dec ResumeState :=
  let? descriptor := StateObjectDescriptor_decode in
  let? chunks := dec_u32 in
  let? nbytes := dec_u64 in
  let? digest := dec_digest in
  dreject (d_chunk_count descriptor <? chunks) RC.STORE_RECORD_INVALID
    "resume state claims more chunks than the object has" ;?
  let? expected := dlift (prefix_bytes_loop "resume state byte accounting overflowed" descriptor
                            (Z.to_nat chunks) 0 0) in
  dreject (negb (expected =? nbytes)) RC.STORE_RECORD_INVALID
    "resume state byte count is inconsistent with its verified chunk prefix" ;?
  dret (mkResume descriptor chunks nbytes digest).

Definition check_resume_compatible (planned staged : StateObjectDescriptor) : Result unit :=
  if negb (same_object planned staged)
  then fail RC.RESUME_INCOMPATIBLE "staged state belongs to a different state object"
  else if negb (d_generation planned =? d_generation staged)
  then fail RC.RESUME_INCOMPATIBLE "staged state belongs to a different state generation"
  else if negb (bytes_eqb (d_content_digest planned) (d_content_digest staged))
  then fail RC.RESUME_INCOMPATIBLE "staged state was produced from different content"
  else if negb (d_chunk_bytes planned =? d_chunk_bytes staged)
  then fail RC.RESUME_INCOMPATIBLE "staged state used a different chunk size"
  else if negb (d_chunk_count planned =? d_chunk_count staged)
  then fail RC.RESUME_INCOMPATIBLE "staged state used a different segmentation"
  else if negb (d_total_bytes planned =? d_total_bytes staged)
  then fail RC.RESUME_INCOMPATIBLE "staged state has a different total size"
  else Ok tt.

(** ** Verification sample *)

(** [std::set<std::uint32_t>::insert] on the set's sorted contents. *)
Fixpoint set_insert (x : Z) (l : list Z) : list Z :=
  match l with
  | [] => [x]
  | y :: r => if x <? y then x :: l else if x =? y then l else y :: set_insert x r
  end.

(** The [while] loop; [attempts_left] is [sample_count * 16U - attempts]. *)
Fixpoint sample_loop (attempts_left : nat) (mixer chunk_count sample_count : Z) (unique : list Z) : list Z :=
  match attempts_left with
  | O => unique
  | S n =>
      if zlen unique <? sample_count then
        let '(mixer, z) := splitmix64 mixer in
        sample_loop n mixer chunk_count sample_count (set_insert (wrap 32 (z mod chunk_count)) unique)
      else unique
  end.

Definition verification_sample (movement_id : bytes) (chunk_count sample_count : Z) : list Z :=
  if (chunk_count =? 0) || (sample_count =? 0) then []
  else if chunk_count <=? sample_count then seqZ 0 chunk_count
  else
    let mixer := load_le (take 8 (sha256 movement_id)) in
    sample_loop (Z.to_nat (wrap 32 (sample_count * 16))) mixer chunk_count sample_count [].

(** ** Validated descriptors *)

(** The machine widths of the fields [validate] does not look at. *)
Definition descriptor_range (d : StateObjectDescriptor) : Prop :=
  in_u 64 (d_generation d) /\ digest_wf (d_content_digest d) /\ 0 <= d_total_bytes d /\
  in_i64 (d_created_unix_millis d).

(** What [validate] accepts, as a specification. *)
Record valid_descriptor (d : StateObjectDescriptor) : Prop := {
  vd_id : d_object_id d = sha256 (object_id_preimage (d_kind d) (d_name d));
  vd_id_nz : array_is_zero (d_object_id d) = false;
  vd_name_ne : d_name d <> [];
  vd_name : text_ok 4096 (d_name d);
  vd_gen : d_generation d <> 0;
  vd_content : array_is_zero (d_content_digest d) = false;
  vd_total : d_total_bytes d <= 2 ^ 40;
  vd_chunk : 1024 <= d_chunk_bytes d <= 2 ^ 26;
  vd_count : d_chunk_count d = expected_chunks (d_total_bytes d) (d_chunk_bytes d);
  vd_count_max : d_chunk_count d <= 2 ^ 24;
  vd_producer : text_ok 4096 (d_producer d) }.

Lemma utf8_or_empty p : negb (bytes_eqb p []) && negb (is_valid_utf8 p) = false <->
  is_valid_utf8 p = true.
Proof.
  destruct (decide (p = [])) as [->|Hn]; [done|].
  rewrite (proj2 (bytes_eqb_neq _ _) Hn). destruct (is_valid_utf8 p); done.
Qed.

Lemma validate_spec d : StateObjectDescriptor_validate d = Ok tt <-> valid_descriptor d.
Proof.
  unfold StateObjectDescriptor_validate, kMaxObjectNameBytes, kMaxTextBytes, kMaxObjectBytes,
    kMinChunkBytes, kMaxChunkBytes, kMaxChunksPerObject, is_set.
  split.
  - intros H.
    repeat match type of H with (if ?c then _ else _) = _ => destruct c eqn:?; [discriminate H|] end.
    apply rbind_Ok in H as (i & Hi & H). apply derive_state_object_id_Ok in Hi as (? & ? & ->).
    repeat match type of H with (if ?c then _ else _) = _ => destruct c eqn:?; [discriminate H|] end.
    match goal with E : negb (bytes_eqb (d_producer d) []) && _ = false |- _ =>
      apply utf8_or_empty in E end.
    b2p. unfold text_ok in *. split; unfold text_ok; auto; lia.
  - intros []. unfold text_ok in *.
    assert (derive_state_object_id (d_kind d) (d_name d) = Ok (d_object_id d)) as E
      by (apply derive_state_object_id_Ok; done).
    destruct vd_name0 as [Hn Hu], vd_producer0 as [Hp Hpu].
    rewrite vd_id_nz0, (proj2 (bytes_eqb_neq _ _) vd_name_ne0), (proj2 (Z.ltb_ge 4096 _) Hn), Hu, E.
    simpl negb. cbn [rbind]. rewrite bytes_eqb_refl, (proj2 (Z.eqb_neq _ _) vd_gen0), vd_content0.
    simpl negb. cbv iota.
    rewrite (proj2 (Z.ltb_ge (2 ^ 40) _) vd_total0).
    rewrite (proj2 (Z.ltb_ge _ 1024)), (proj2 (Z.ltb_ge (64 * 2 ^ 20) _)) by lia. simpl orb. cbv iota.
    rewrite (proj2 (Z.eqb_neq _ 0)) by lia. rewrite <- vd_count0, Z.eqb_refl.
    rewrite (proj2 (Z.ltb_ge (2 ^ 24) _) vd_count_max0), (proj2 (Z.ltb_ge 4096 _) Hp).
    by rewrite (proj2 (utf8_or_empty _) Hpu).
Qed.

Lemma validate_unit d u : StateObjectDescriptor_validate d = Ok u <-> valid_descriptor d.
Proof. destruct u. apply validate_spec. Qed.

Definition descriptor_ok (d : StateObjectDescriptor) : Prop := descriptor_range d /\ valid_descriptor d.

Lemma ceil_div_spec t c : 0 < t <= 2 ^ 40 -> 1024 <= c <= 2 ^ 26 ->
  0 < ceil_div t c /\ (ceil_div t c - 1) * c < t <= ceil_div t c * c.
Proof.
  intros Ht Hc. unfold ceil_div. rewrite (wrap_small 64 (t + c)) by (unfold in_u; lia).
  rewrite wrap_small by (unfold in_u; lia).
  pose proof (Z.div_mod (t + c - 1) c ltac:(lia)) as E.
  pose proof (Z.mod_pos_bound (t + c - 1) c ltac:(lia)) as Hm. nia.
Qed.

(** The chunk count brackets the total. *)
Lemma chunk_count_spec d : descriptor_ok d ->
  0 <= d_chunk_count d <= 2 ^ 24 /\
  (d_chunk_count d = 0 <-> d_total_bytes d = 0) /\
  (d_total_bytes d <= d_chunk_count d * d_chunk_bytes d) /\
  (0 < d_chunk_count d -> (d_chunk_count d - 1) * d_chunk_bytes d < d_total_bytes d).
Proof.
  intros [(_ & _ & Ht & _) []]. unfold expected_chunks in *.
  destruct (Z.eqb_spec (d_total_bytes d) 0) as [E|E]; [lia|].
  pose proof (ceil_div_spec (d_total_bytes d) (d_chunk_bytes d)). lia.
Qed.

Lemma descriptor_range_count d : descriptor_ok d -> in_u 64 (d_total_bytes d) /\
  in_u 64 (d_chunk_bytes d) /\ in_u 32 (d_chunk_count d).
Proof.
  intros Hd. pose proof (chunk_count_spec d Hd). destruct Hd as [(_ & _ & Ht & _) []].
  unfold in_u. lia.
Qed.

#[global] Instance descriptor_codec lim `{!Roomy lim} :
  Codec lim StateObjectDescriptor_encode StateObjectDescriptor_decode descriptor_ok.
Proof.
  split.
  - intros d Hd. destruct (descriptor_range_count d Hd) as (Hrt & Hrc & Hrn).
    destruct Hd as [(Hg & Hc & _ & Hm) Hv]. pose proof (state_kind_value_range (d_kind d)) as Hk.
    assert (digest_wf (d_object_id d)) as Hid by (rewrite (vd_id d Hv); apply length_sha256).
    unfold StateObjectDescriptor_decode, StateObjectDescriptor_encode. solve_reads; try done.
    + unfold in_u; lia.
    + apply Z.ltb_ge; simpl; lia.
    + apply (vd_name d Hv).
    + apply (vd_producer d Hv).
    + rewrite from_digest_32, state_kind_of_value_value by done. apply validate_spec. by destruct d.
    + rewrite from_digest_32, state_kind_of_value_value by done. by destruct d.
  - intros d x d' Hl H. unfold StateObjectDescriptor_decode in H. repeat dstep H. dfacts. dcanon.
    match goal with E : StateObjectDescriptor_validate _ = Ok _ |- _ =>
      apply validate_unit in E as Hv end.
    b2p. simpl in *. unfold in_u in *. rewrite from_digest_32 in * by done.
    split; [split; [|done]|]; [unfold descriptor_range, in_u; simpl; split_and!; try done; lia|].
    unfold StateObjectDescriptor_encode; simpl d_object_id; simpl.
    rewrite state_kind_value_of_value by lia. solve_consumed.
Qed.

Lemma descriptor_encode_bound d : descriptor_ok d ->
  zlen (StateObjectDescriptor_encode d) <= 8310.
Proof.
  intros [(_ & Hc & _) [Hid _ _ [Hn _] _ _ _ _ _ _ [Hp _]]]. unfold StateObjectDescriptor_encode.
  autorewrite with enc_len. rewrite !zlen_enc_digest; [lia|done|].
  rewrite Hid. apply length_sha256.
Qed.

(** ** Chunk geometry *)

Lemma chunk_offset_spec d i : descriptor_ok d -> 0 <= i ->
  chunk_offset d i =
  if i <? d_chunk_count d then Ok (i * d_chunk_bytes d)
  else fail RC.CHUNK_INDEX_OUT_OF_RANGE "chunk index is outside the object".
Proof.
  intros Hd Hi. pose proof (chunk_count_spec d Hd) as (Hn & _ & _ & Hlast).
  destruct (descriptor_range_count d Hd) as (Ht & Hc & _).
  unfold chunk_offset. rewrite Z.leb_antisym. destruct (Z.ltb_spec i (d_chunk_count d)); [|done].
  cbn [negb]. assert (i * d_chunk_bytes d < d_total_bytes d) as Hlt by (unfold in_u in *; nia).
  rewrite checked_mul_spec; [|unfold in_u in *; lia|done].
  unfold in_u in *. rewrite bool_decide_true by nia.
  by rewrite (proj2 (Z.leb_gt (d_total_bytes d) _)).
Qed.

(** The reference length of chunk [i]. *)
Definition plan_length (d : StateObjectDescriptor) (i : Z) : Z :=
  Z.min (d_chunk_bytes d) (d_total_bytes d - i * d_chunk_bytes d).

Lemma chunk_length_spec d i : descriptor_ok d -> 0 <= i ->
  chunk_length d i =
  if i <? d_chunk_count d then Ok (plan_length d i)
  else fail RC.CHUNK_INDEX_OUT_OF_RANGE "chunk index is outside the object".
Proof.
  intros Hd Hi. unfold chunk_length. rewrite chunk_offset_spec by done.
  destruct (Z.ltb_spec i (d_chunk_count d)) as [Hlt|]; [|done]. simpl.
  pose proof (chunk_count_spec d Hd) as (Hn & _ & _ & Hlast).
  destruct (descriptor_range_count d Hd) as (Ht & Hc & _). unfold in_u in *.
  rewrite wrap_small by (unfold in_u; nia). unfold plan_length. f_equal.
  destruct (Z.ltb_spec (d_total_bytes d - i * d_chunk_bytes d) (d_chunk_bytes d)); lia.
Qed.

Lemma plan_length_pos d i : descriptor_ok d -> 0 <= i < d_chunk_count d ->
  0 < plan_length d i <= d_chunk_bytes d /\
  i * d_chunk_bytes d + plan_length d i = Z.min ((i + 1) * d_chunk_bytes d) (d_total_bytes d).
Proof.
  intros Hd Hi. pose proof (chunk_count_spec d Hd) as (Hn & _ & _ & Hlast).
  destruct Hd as [_ []]. unfold plan_length. nia.
Qed.

(** The verified prefix of [n] chunks. *)
Definition prefix_bytes (d : StateObjectDescriptor) (n : Z) : Z :=
  Z.min (n * d_chunk_bytes d) (d_total_bytes d).

Lemma prefix_bytes_loop_spec overflow d n : descriptor_ok d -> forall i,
  0 <= i -> i + Z.of_nat n <= d_chunk_count d ->
  prefix_bytes_loop overflow d n i (prefix_bytes d i) = Ok (prefix_bytes d (i + Z.of_nat n)).
Proof.
  intros Hd. induction n as [|n IH]; intros i Hi Hn; cbn [prefix_bytes_loop].
  - do 2 f_equal. lia.
  - rewrite chunk_length_spec by done. rewrite (proj2 (Z.ltb_lt _ _)) by lia. cbn [rbind].
    destruct (plan_length_pos d i Hd ltac:(lia)) as [Hp Hs].
    pose proof (chunk_count_spec d Hd) as (_ & _ & _ & Hlast).
    destruct (descriptor_range_count d Hd) as (Ht & Hc & _).
    assert (prefix_bytes d i = i * d_chunk_bytes d) as Ei by (unfold prefix_bytes, in_u in *; nia).
    assert (prefix_bytes d i + plan_length d i = prefix_bytes d (i + 1)) as Es
      by (unfold prefix_bytes in *; lia).
    rewrite checked_add_spec; [|unfold prefix_bytes, plan_length, in_u in *; nia..].
    rewrite Es, bool_decide_true by (unfold prefix_bytes, in_u in *; lia).
    rewrite (IH (i + 1)) by lia. do 2 f_equal. lia.
Qed.

Definition resume_ok (r : ResumeState) : Prop :=
  descriptor_ok (rs_descriptor r) /\
  0 <= rs_verified_chunks r <= d_chunk_count (rs_descriptor r) /\
  rs_verified_bytes r = prefix_bytes (rs_descriptor r) (rs_verified_chunks r) /\
  digest_wf (rs_rolling_digest r).

Lemma prefix_bytes_total overflow d n : descriptor_ok d -> 0 <= n <= d_chunk_count d ->
  prefix_bytes_loop overflow d (Z.to_nat n) 0 0 = Ok (prefix_bytes d n).
Proof.
  intros Hd Hn. pose proof (prefix_bytes_loop_spec overflow d (Z.to_nat n) Hd 0 ltac:(lia) ltac:(lia)) as H.
  assert (prefix_bytes d 0 = 0) as E by (unfold prefix_bytes; destruct Hd as [(_ & _ & ? & _) _]; lia).
  rewrite E in H. rewrite H. do 2 f_equal. lia.
Qed.

#[global] Instance resume_codec lim `{!Roomy lim} :
  Codec lim ResumeState_encode ResumeState_decode resume_ok.
Proof.
  split.
  - intros r (Hd & Hn & Hb & Hg). destruct (descriptor_range_count _ Hd) as (Ht & _ & Hc).
    pose proof Hd as [_ []]. unfold ResumeState_decode, ResumeState_encode. solve_reads; try done.
    + unfold in_u in *. lia.
    + unfold in_u, prefix_bytes in *. lia.
    + apply Z.ltb_ge; lia.
    + by apply prefix_bytes_total.
    + by rewrite Hb, Z.eqb_refl.
    + by destruct r.
  - intros d r d' Hl H. unfold ResumeState_decode in H. repeat dstep H. dfacts. dcanon. b2p.
    unfold in_u in *. rewrite prefix_bytes_total in * by (simpl; try done; lia).
    match goal with E : Ok _ = Ok _ |- _ => injection E as <- end.
    split; [repeat split; simpl; try done; try apply Hok; lia|].
    unfold ResumeState_encode; simpl. solve_consumed.
Qed.

Lemma check_resume_compatible_spec p s :
  check_resume_compatible p s = Ok tt <-> same_version p s = true.
Proof.
  unfold check_resume_compatible, same_version, same_object.
  destruct (bytes_eqb (d_object_id p) (d_object_id s)), (d_generation p =? d_generation s),
    (bytes_eqb (d_content_digest p) (d_content_digest s)), (d_chunk_bytes p =? d_chunk_bytes s),
    (d_chunk_count p =? d_chunk_count s), (d_total_bytes p =? d_total_bytes s); simpl; split; done.
Qed.

(** ** The verification sample *)

Lemma set_insert_spec x l : StronglySorted Z.lt l ->
  StronglySorted Z.lt (set_insert x l) /\ (forall y, In y (set_insert x l) <-> y = x \/ In y l).
Proof.
  induction 1 as [|y l Hs [IHs IHi] Hf]; simpl.
  - split; [repeat constructor|naive_solver].
  - destruct (Z.ltb_spec x y); [|destruct (Z.eqb_spec x y) as [->|]].
    + split; [|naive_solver]. constructor; [by constructor|]. constructor; [done|].
      revert Hf. apply Forall_impl. intros. lia.
    + split; [by constructor|naive_solver].
    + split; [|simpl; setoid_rewrite IHi; naive_solver].
      constructor; [done|]. apply Forall_forall. intros z Hz.
      apply IHi in Hz as [->|Hz]; [lia|].
      rewrite Forall_forall in Hf. by apply Hf.
Qed.

Lemma set_insert_length x l : zlen l <= zlen (set_insert x l) <= zlen l + 1.
Proof.
  unfold zlen. induction l as [|y l IH]; simpl; [lia|].
  destruct (x <? y); [simpl; lia|]. destruct (x =? y); simpl; lia.
Qed.

Lemma sample_loop_spec n : forall mixer cc sc u, 0 < cc < 2 ^ 32 -> 0 <= zlen u <= sc ->
  StronglySorted Z.lt u -> Forall (fun i => 0 <= i < cc) u ->
  let r := sample_loop n mixer cc sc u in
  StronglySorted Z.lt r /\ Forall (fun i => 0 <= i < cc) r /\ zlen u <= zlen r <= sc.
Proof.
  induction n as [|n IH]; intros mixer cc sc u Hc Hl Hs Hf; cbn [sample_loop]; [naive_solver lia|].
  destruct (Z.ltb_spec (zlen u) sc) as [Hlt|]; [|naive_solver lia].
  destruct (splitmix64 mixer) as [m z]. set (x := wrap 32 (z mod cc)).
  assert (0 <= x < cc) as Hx.
  { pose proof (Z.mod_pos_bound z cc ltac:(lia)). unfold x. rewrite wrap_small; unfold in_u; lia. }
  destruct (set_insert_spec x u Hs) as [Hs' Hi]. pose proof (set_insert_length x u).
  destruct (IH m cc sc (set_insert x u)) as (? & ? & ?); [done|lia|done| |].
  - apply Forall_forall. intros y Hy. apply Hi in Hy as [->|Hy]; [done|].
    rewrite Forall_forall in Hf. by apply Hf.
  - split_and!; try done; lia.
Qed.

Lemma seqZ_sorted n : forall m, StronglySorted Z.lt (seqZ m n).
Proof.
  intros m. unfold seqZ. generalize (Z.to_nat n) as k. intros k. revert m.
  assert (forall s m, StronglySorted Z.lt ((fun i : nat => m + Z.of_nat i) <$> seq s k)) as H.
  { induction k as [|k IH]; intros s m; simpl; constructor; [apply IH|].
    apply Forall_forall. intros x Hx. apply list_elem_of_In, list_elem_of_fmap in Hx as (i & -> & Hi).
    apply elem_of_seq in Hi. lia. }
  intros m. specialize (H 0%nat m). erewrite list_fmap_ext; [exact H|]. intros; simpl; lia.
Qed.

Lemma verification_sample_spec mid cc sc : in_u 32 cc -> in_u 32 sc ->
  let s := verification_sample mid cc sc in
  StronglySorted Z.lt s /\ Forall (fun i => 0 <= i < cc) s /\ zlen s <= Z.min cc sc /\
  (sc < 2 ^ 28 -> 0 < cc -> 0 < sc -> s <> []) /\
  (cc <= sc -> s = seqZ 0 cc).
Proof.
  unfold in_u, verification_sample. intros Hc Hs.
  destruct (Z.eqb_spec cc 0) as [->|]; simpl.
  { split_and!; [apply SSorted_nil|done|unfold zlen; simpl; lia|lia|done]. }
  destruct (Z.eqb_spec sc 0) as [->|]; simpl.
  { split_and!; [apply SSorted_nil|done|unfold zlen; simpl; lia|lia|lia]. }
  destruct (Z.leb_spec cc sc).
  - split_and!; try done; [apply seqZ_sorted| | |].
    + apply Forall_forall. intros x Hx. apply list_elem_of_In, elem_of_seqZ in Hx. lia.
    + unfold zlen. rewrite length_seqZ. lia.
    + intros _ ? _ E. apply (f_equal length) in E. rewrite length_seqZ in E. simpl in E. lia.
  - set (mx := load_le _).
    destruct (sample_loop_spec (Z.to_nat (wrap 32 (sc * 16))) mx cc sc []) as (Ha & Hb & Hl);
      [lia|unfold zlen; simpl; lia|constructor|constructor|].
    split_and!; try done; [lia| |lia].
    + intros Hsm _ _. rewrite wrap_small by (unfold in_u; lia).
      destruct (Z.to_nat (sc * 16)) as [|k] eqn:Ek; [lia|]. cbn [sample_loop].
      assert ((0 <? sc) = true) as E by (apply Z.ltb_lt; lia).
      change (zlen []) with 0. rewrite E. destruct (splitmix64 mx) as [m z].
      intros En. apply (f_equal zlen) in En.
      destruct (sample_loop_spec k m cc sc (set_insert (wrap 32 (z mod cc)) [])) as (_ & _ & ?);
        [lia|unfold zlen; simpl; lia|repeat constructor| |].
      * simpl. constructor; [|constructor]. pose proof (Z.mod_pos_bound z cc ltac:(lia)).
        rewrite wrap_small; unfold in_u; lia.
      * rewrite En in *. unfold zlen in *. simpl in *. lia.
Qed.

(** ** Properties *)

(** (round trip and canonicality) Encoding a well-formed descriptor and
    decoding it as a whole message gives it back, and any accepted input is
    byte for byte the encoding of the descriptor it was decoded to, which
    passes [validate]. *)
Theorem descriptor_roundtrip_canonical (d : StateObjectDescriptor) (input : bytes) :
  (descriptor_ok d ->
     decode_all default_limits StateObjectDescriptor_decode (StateObjectDescriptor_encode d) = Ok d) /\
  (zlen input <= max_input_bytes default_limits ->
   decode_all default_limits StateObjectDescriptor_decode input = Ok d ->
     input = StateObjectDescriptor_encode d /\ StateObjectDescriptor_validate d = Ok tt).
Proof.
  split.
  - intros Hd. apply (decode_all_encode _ _ _ descriptor_ok); [done|].
    pose proof (descriptor_encode_bound d Hd). simpl. lia.
  - intros Hl H. apply (decode_all_canonical _ _ _ descriptor_ok) in H as [[_ Hv] ->]; [|done].
    split; [done|by apply validate_spec].
Qed.

(** C38: (functional, bounds) The chunks of a validated descriptor partition the
    object: every byte position below the total lies in exactly one chunk, at
    the offset and within the length the two accessors return, each chunk is
    non-empty and no longer than the chunk size, and an index at or past the
    chunk count is refused by both accessors. *)
Theorem chunks_partition_object (d : StateObjectDescriptor) : descriptor_ok d ->
  (forall p, 0 <= p < d_total_bytes d ->
     exists i off len, 0 <= i < d_chunk_count d /\ chunk_offset d i = Ok off /\
       chunk_length d i = Ok len /\ off <= p < off + len /\
       forall j off' len', 0 <= j -> chunk_offset d j = Ok off' -> chunk_length d j = Ok len' ->
         off' <= p < off' + len' -> j = i) /\
  (forall i, 0 <= i < d_chunk_count d ->
     exists len, chunk_length d i = Ok len /\ 0 < len <= d_chunk_bytes d) /\
  (forall i, d_chunk_count d <= i ->
     chunk_offset d i = fail RC.CHUNK_INDEX_OUT_OF_RANGE "chunk index is outside the object" /\
     chunk_length d i = fail RC.CHUNK_INDEX_OUT_OF_RANGE "chunk index is outside the object").
Proof.
  intros Hd. pose proof (chunk_count_spec d Hd) as (Hn & _ & Hup & Hlast).
  pose proof Hd as [_ [_ _ _ _ _ _ _ Hcb _ _ _]]. split_and!.
  - intros p Hp. set (i := p / d_chunk_bytes d).
    pose proof (Z.div_mod p (d_chunk_bytes d) ltac:(lia)) as Ediv.
    pose proof (Z.mod_pos_bound p (d_chunk_bytes d) ltac:(lia)) as Hmod.
    fold i in Ediv. assert (0 <= i < d_chunk_count d) as Hi by nia.
    exists i, (i * d_chunk_bytes d), (plan_length d i).
    rewrite chunk_offset_spec, chunk_length_spec, (proj2 (Z.ltb_lt _ _)) by (done || lia).
    split_and!; try done; try (unfold plan_length; nia).
    intros j off' len' Hj. rewrite chunk_offset_spec, chunk_length_spec by done.
    destruct (Z.ltb_spec j (d_chunk_count d)); [|done]. intros [= <-] [= <-] Hr.
    unfold plan_length in Hr. nia.
  - intros i Hi. rewrite chunk_length_spec, (proj2 (Z.ltb_lt _ _)) by lia || done.
    exists (plan_length d i). split; [done|]. by apply plan_length_pos.
  - intros i Hi. rewrite chunk_offset_spec, chunk_length_spec, (proj2 (Z.ltb_ge _ _)) by lia || done.
    done.
Qed.

(** (functional) A resume state accepted by the decoder claims a prefix of
    whole chunks: the count is within the object, the byte count is exactly the
    sum of the planned lengths of those chunks, and it is complete precisely
    when every chunk is verified. *)
Theorem resume_state_accounts_prefix (input : bytes) (r : ResumeState) :
  zlen input <= max_input_bytes default_limits ->
  decode_all default_limits ResumeState_decode input = Ok r ->
  let d := rs_descriptor r in
  0 <= rs_verified_chunks r <= d_chunk_count d /\
  prefix_bytes_loop "resume state byte accounting overflowed" d (Z.to_nat (rs_verified_chunks r)) 0 0 = Ok (rs_verified_bytes r) /\
  rs_verified_bytes r = Z.min (rs_verified_chunks r * d_chunk_bytes d) (d_total_bytes d) /\
  (ResumeState_complete r = true <-> rs_verified_chunks r = d_chunk_count d) /\
  input = ResumeState_encode r.
Proof.
  intros Hl H. apply (decode_all_canonical _ _ _ resume_ok) in H as [(Hd & Hn & Hb & _) ->]; [|done].
  pose proof (chunk_count_spec _ Hd) as (_ & _ & Hup & _). cbv zeta.
  split_and!; try done; try lia.
  - rewrite Hb. by apply prefix_bytes_total.
  - unfold ResumeState_complete. rewrite andb_true_iff, !Z.eqb_eq, Hb. unfold prefix_bytes.
    split; [by intros [? _]|]. intros ->. lia.
Qed.

(** (equivalence) Staged bytes may be resumed exactly when planned and staged
    descriptor are the same version, and then every chunk of the plan has the
    same offset and length on both sides. *)
Theorem resume_compatible_same_segments (planned staged : StateObjectDescriptor) :
  (check_resume_compatible planned staged = Ok tt <-> same_version planned staged = true) /\
  (check_resume_compatible planned staged = Ok tt ->
   forall i, chunk_offset planned i = chunk_offset staged i /\
             chunk_length planned i = chunk_length staged i).
Proof.
  split; [apply check_resume_compatible_spec|].
  rewrite check_resume_compatible_spec. unfold same_version. intros H i. b2p.
  unfold chunk_length, chunk_offset. repeat match goal with E : _ planned = _ |- _ => rewrite E end.
  done.
Qed.

(** (functional, bounds) The chunks a coordinator probes are strictly
    increasing, below the chunk count and no more than asked for; for every
    sample size below 2^28 at least one chunk of a non-empty object is probed,
    and a sample size at or above the chunk count probes every chunk. *)
Theorem verification_sample_wellformed (movement_id : bytes) (chunk_count sample_count : Z) :
  in_u 32 chunk_count -> in_u 32 sample_count ->
  let s := verification_sample movement_id chunk_count sample_count in
  StronglySorted Z.lt s /\ Forall (fun i => 0 <= i < chunk_count) s /\
  zlen s <= Z.min chunk_count sample_count /\
  (sample_count < 2 ^ 28 -> 0 < chunk_count -> 0 < sample_count -> s <> []) /\
  (chunk_count <= sample_count -> s = seqZ 0 chunk_count).
Proof. apply verification_sample_spec. Qed.

(** (error) [create] returns a descriptor only if it passes [validate], with
    the identity derived from kind and name; the division in it is undefined
    exactly for a non-empty object with chunk size zero, since the chunk count
    is computed before the chunk size is checked. *)
Theorem create_validates_or_divides_by_zero (kind : StateKind) (name : bytes) (generation : Z)
    (content : Digest) (total chunk created : Z) (producer : bytes) :
  (forall d, StateObjectDescriptor_create kind name generation content total chunk created producer =
               Some (Ok d) ->
     StateObjectDescriptor_validate d = Ok tt /\ d_kind d = kind /\ d_name d = name /\
     derive_state_object_id kind name = Ok (d_object_id d)) /\
  (StateObjectDescriptor_create kind name generation content total chunk created producer = None <->
     is_ok (derive_state_object_id kind name) = true /\ total <> 0 /\ chunk = 0).
Proof.
  unfold StateObjectDescriptor_create.
  destruct (derive_state_object_id kind name) as [i|s]; [|split; [done|naive_solver]]. simpl.
  destruct (Z.eqb_spec total 0), (Z.eqb_spec chunk 0); simpl; split; try naive_solver;
    intros d H; injection H as H; apply rbind_Ok in H as ([] & Hv & [= <-]); done.
Qed.

(** *** Witnesses *)

(** A three-chunk model object. *)
Definition demo_descriptor : StateObjectDescriptor :=
  mkDescriptor (sha256 (object_id_preimage SK.MODEL (lit "demo"))) SK.MODEL (lit "demo") 1
    (sha256 (lit "content")) 2500 1024 3 1767225600000 (lit "producer") true.

Lemma demo_descriptor_ok : descriptor_ok demo_descriptor.
Proof.
  split; [repeat split; try (vm_compute; congruence)|].
  apply validate_spec. vm_compute. reflexivity.
Qed.

Lemma descriptor_roundtrip_canonical_witness :
  decode_all default_limits StateObjectDescriptor_decode
    (StateObjectDescriptor_encode demo_descriptor) = Ok demo_descriptor.
Proof. exact (proj1 (descriptor_roundtrip_canonical demo_descriptor []) demo_descriptor_ok). Defined.

Lemma chunks_partition_object_witness :
  exists len, chunk_length demo_descriptor 2 = Ok len /\ 0 < len <= 1024.
Proof.
  exact (proj1 (proj2 (chunks_partition_object demo_descriptor demo_descriptor_ok)) 2
           ltac:(vm_compute; split; congruence)).
Defined.

Definition demo_resume : ResumeState := mkResume demo_descriptor 2 2048 (sha256 []).

Lemma resume_state_accounts_prefix_witness :
  prefix_bytes_loop "resume state byte accounting overflowed" demo_descriptor 2 0 0 = Ok 2048.
Proof.
  exact (proj1 (proj2 (resume_state_accounts_prefix (ResumeState_encode demo_resume) demo_resume
    ltac:(vm_compute; congruence) ltac:(vm_compute; reflexivity)))).
Defined.

Lemma resume_compatible_same_segments_witness :
  chunk_offset demo_descriptor 1 = chunk_offset demo_descriptor 1 /\
  chunk_length demo_descriptor 1 = chunk_length demo_descriptor 1.
Proof.
  exact (proj2 (resume_compatible_same_segments demo_descriptor demo_descriptor)
           ltac:(vm_compute; reflexivity) 1).
Defined.

Lemma verification_sample_wellformed_witness :
  verification_sample (replicate 16 x01) 1000 4 <> [].
Proof.
  refine (proj1 (proj2 (proj2 (proj2
    (verification_sample_wellformed (replicate 16 x01) 1000 4 _ _)))) _ _ _);
    vm_compute; (congruence || split; congruence).
Defined.

Lemma create_validates_or_divides_by_zero_witness :
  StateObjectDescriptor_create SK.MODEL (lit "demo") 1 (sha256 []) 5 0 1 [] = None.
Proof.
  apply create_validates_or_divides_by_zero. vm_compute. split_and!; congruence.
Defined.
