(* ===== verification/Provenance.v ===== *)
(** * Movement states and provenance

    Models include/smf/movement_state.hpp (the enumeration), src/src/provenance.cpp
    and include/smf/provenance.hpp.  Proved: the event and chain codecs, and the
    chain invariant (bounded, sequences contiguous from one, append-only). *)
From S2P Require Import Prelude Status Bytes Digest Codec Ids StateObject.

(** ** Movement states *)

Module MS.
Inductive MovementState : Set :=
  | PLANNED | AUTHORIZED | TRANSFERRING | BYTES_ARRIVED | VERIFIED | COMMITTED | CANCELLED
  | FAILED | OUTCOME_UNKNOWN | SUPERSEDED.
End MS.
Abbreviation MovementState := MS.MovementState.

#[global] Instance MovementState_eq_dec : EqDecision MovementState.
Proof. solve_decision. Defined.

Definition all_movement_states : list MovementState :=
  [MS.PLANNED; MS.AUTHORIZED; MS.TRANSFERRING; MS.BYTES_ARRIVED; MS.VERIFIED; MS.COMMITTED;
   MS.CANCELLED; MS.FAILED; MS.OUTCOME_UNKNOWN; MS.SUPERSEDED].

Definition movement_state_value (s : MovementState) : Z :=
  match s with
  | MS.PLANNED => 0 | MS.AUTHORIZED => 1 | MS.TRANSFERRING => 2 | MS.BYTES_ARRIVED => 3
  | MS.VERIFIED => 4 | MS.COMMITTED => 5 | MS.CANCELLED => 6 | MS.FAILED => 7
  | MS.OUTCOME_UNKNOWN => 8 | MS.SUPERSEDED => 9
  end.

(** [static_cast<MovementState>(v)] for a value in range. *)
Definition movement_state_of_value (v : Z) : MovementState :=
  nth (Z.to_nat v) all_movement_states MS.PLANNED.

(** ** Event kinds *)

Module PK.
Inductive ProvenanceEventKind : Set :=
  | CREATED | AUTHORIZED | GRANT_ISSUED | ATTEMPT_STARTED | PROGRESS | BYTES_ARRIVED | VERIFIED
  | COMMIT_REQUESTED | COMMITTED | CANCELLED | FAILED | OUTCOME_UNKNOWN | SUPERSEDED | RECONCILED
  | RETRY_SCHEDULED | STALE_REJECTED | CLEANED | QUARANTINED.
End PK.
Abbreviation ProvenanceEventKind := PK.ProvenanceEventKind.

#[global] Instance ProvenanceEventKind_eq_dec : EqDecision ProvenanceEventKind.
Proof. solve_decision. Defined.

Definition all_provenance_kinds : list ProvenanceEventKind :=
  [PK.CREATED; PK.AUTHORIZED; PK.GRANT_ISSUED; PK.ATTEMPT_STARTED; PK.PROGRESS; PK.BYTES_ARRIVED;
   PK.VERIFIED; PK.COMMIT_REQUESTED; PK.COMMITTED; PK.CANCELLED; PK.FAILED; PK.OUTCOME_UNKNOWN;
   PK.SUPERSEDED; PK.RECONCILED; PK.RETRY_SCHEDULED; PK.STALE_REJECTED; PK.CLEANED; PK.QUARANTINED].

Definition provenance_kind_value (k : ProvenanceEventKind) : Z :=
  match k with
  | PK.CREATED => 0 | PK.AUTHORIZED => 1 | PK.GRANT_ISSUED => 2 | PK.ATTEMPT_STARTED => 3
  | PK.PROGRESS => 4 | PK.BYTES_ARRIVED => 5 | PK.VERIFIED => 6 | PK.COMMIT_REQUESTED => 7
  | PK.COMMITTED => 8 | PK.CANCELLED => 9 | PK.FAILED => 10 | PK.OUTCOME_UNKNOWN => 11
  | PK.SUPERSEDED => 12 | PK.RECONCILED => 13 | PK.RETRY_SCHEDULED => 14 | PK.STALE_REJECTED => 15
  | PK.CLEANED => 16 | PK.QUARANTINED => 17
  end.

Definition provenance_kind_of_value (v : Z) : ProvenanceEventKind :=
  nth (Z.to_nat v) all_provenance_kinds PK.CREATED.

Definition provenance_kind_to_string (k : ProvenanceEventKind) : bytes :=
  match k with
  | PK.CREATED => lit "CREATED"
  | PK.AUTHORIZED => lit "AUTHORIZED"
  | PK.GRANT_ISSUED => lit "GRANT_ISSUED"
  | PK.ATTEMPT_STARTED => lit "ATTEMPT_STARTED"
  | PK.PROGRESS => lit "PROGRESS"
  | PK.BYTES_ARRIVED => lit "BYTES_ARRIVED"
  | PK.VERIFIED => lit "VERIFIED"
  | PK.COMMIT_REQUESTED => lit "COMMIT_REQUESTED"
  | PK.COMMITTED => lit "COMMITTED"
  | PK.CANCELLED => lit "CANCELLED"
  | PK.FAILED => lit "FAILED"
  | PK.OUTCOME_UNKNOWN => lit "OUTCOME_UNKNOWN"
  | PK.SUPERSEDED => lit "SUPERSEDED"
  | PK.RECONCILED => lit "RECONCILED"
  | PK.RETRY_SCHEDULED => lit "RETRY_SCHEDULED"
  | PK.STALE_REJECTED => lit "STALE_REJECTED"
  | PK.CLEANED => lit "CLEANED"
  | PK.QUARANTINED => lit "QUARANTINED"
  end.

Definition provenance_kind_from_string (text : bytes) : option ProvenanceEventKind :=
  List.find (fun k => bytes_eqb text (provenance_kind_to_string k)) all_provenance_kinds.

(** ** Events *)

Record ProvenanceEvent := mkEvent {
  ev_sequence : Z;
  ev_unix_millis : Z;
  ev_kind : ProvenanceEventKind;
  ev_state : MovementState;
  ev_movement_generation : Z;
  ev_reason : ReasonCode;
  ev_actor : bytes;
  ev_actor_boot : bytes;
  ev_actor_epoch : Z;
  ev_attempt : bytes;
  ev_evidence : Digest;
  ev_detail : bytes }.

#[global] Instance ProvenanceEvent_eq_dec : EqDecision ProvenanceEvent.
Proof. solve_decision. Defined.

Definition zero_id (n : nat) : bytes := replicate n x00.

Definition ProvenanceEvent_validate (e : ProvenanceEvent) : Result unit :=
  if ev_sequence e =? 0
  then fail RC.STORE_RECORD_INVALID "provenance sequence must start at one"
  else if ev_unix_millis e <=? 0
  then fail RC.STORE_RECORD_INVALID "provenance event requires a timestamp"
  else if negb (is_set (ev_movement_generation e))
  then fail RC.INVALID_GENERATION "provenance event requires a movement generation"
  else if kMaxDetailBytes <? zlen (ev_detail e)
  then fail RC.STORE_RECORD_INVALID "provenance detail exceeds the text bound"
  else if negb (bytes_eqb (ev_detail e) []) && negb (is_valid_utf8 (ev_detail e))
  then fail RC.INVALID_UTF8 "provenance detail is not valid UTF-8"
  else Ok tt.

Definition ProvenanceEvent_encode (e : ProvenanceEvent) : bytes :=
  enc_u64 (ev_sequence e) ++ enc_i64 (ev_unix_millis e) ++
  enc_u8 (provenance_kind_value (ev_kind e)) ++ enc_u8 (movement_state_value (ev_state e)) ++
  enc_u64 (ev_movement_generation e) ++ enc_u16 (reason_value (ev_reason e)) ++
  enc_text (ev_actor e) ++ FixedId_encode (ev_actor_boot e) ++ enc_u64 (ev_actor_epoch e) ++
  FixedId_encode (ev_attempt e) ++ enc_digest (ev_evidence e) ++ enc_text (ev_detail e).

Definition ProvenanceEvent_decode : Dec ProvenanceEvent :=
  let? sequence := dec_u64 in
  let? time := dec_i64 in
  let? kind := dec_u8 in
  dreject (provenance_kind_value PK.QUARANTINED <? kind) RC.STORE_RECORD_INVALID
    "provenance kind is not recognized" ;?
  let? state := dec_u8 in
  dreject (movement_state_value MS.SUPERSEDED <? state) RC.STORE_RECORD_INVALID
    "provenance movement state is not recognized" ;?
  let? generation := dec_u64 in
  let? reason := dec_u16 in
  let? actor_text := dec_text kMaxEndpointIdBytes in
  let? actor := dlift (if bytes_eqb actor_text [] then Ok [] else EndpointId_parse actor_text) in
  let? boot := FixedId_decode kBootIdBytes in
  let? epoch := dec_u64 in
  let? attempt := FixedId_decode kTransferAttemptIdBytes in
  let? evidence := dec_digest in
  let? detail := dec_text kMaxDetailBytes in
  let event :=
    mkEvent sequence time (provenance_kind_of_value kind) (movement_state_of_value state)
      generation (reason_of_value reason) actor boot epoch attempt evidence detail in
  dlift (ProvenanceEvent_validate event) ;?
  dret event.

(** ** Chain *)

Record ProvenanceChain := mkChain {
  pc_events : list ProvenanceEvent;
  pc_bound : Z }.

Definition empty_chain : ProvenanceChain := mkChain [] kMaxProvenanceEvents.
Definition next_sequence (c : ProvenanceChain) : Z := zlen (pc_events c) + 1.

(** The state after the call and its status; a refused append changes nothing. *)
Definition chain_append_event (c : ProvenanceChain) (event : ProvenanceEvent) : ProvenanceChain * Result unit :=
  if pc_bound c <=? zlen (pc_events c)
  then (c, fail RC.HISTORY_LIMIT_REACHED
             "provenance bound reached; the movement's history is already complete")
  else
    let event := if ev_sequence event =? 0
                 then mkEvent (next_sequence c) (ev_unix_millis event) (ev_kind event) (ev_state event)
                        (ev_movement_generation event) (ev_reason event) (ev_actor event)
                        (ev_actor_boot event) (ev_actor_epoch event) (ev_attempt event)
                        (ev_evidence event) (ev_detail event)
                 else event in
    if negb (ev_sequence event =? next_sequence c)
    then (c, fail RC.STORE_RECORD_INVALID
               "provenance events must be appended with contiguous sequences")
    else match ProvenanceEvent_validate event with
         | Err s => (c, Err s)
         | Ok _ => (mkChain (pc_events c ++ [event]) (pc_bound c), Ok tt)
         end.

(** An event with only the given fields set. *)
Definition plain_event (c : ProvenanceChain) (kind : ProvenanceEventKind) (state : MovementState)
    (generation : Z) (reason : ReasonCode) (now : Z) (attempt detail : bytes) : ProvenanceEvent :=
  mkEvent (next_sequence c) now kind state generation reason [] (zero_id kBootIdBytes) 0 attempt
    zero_digest detail.

Definition chain_append (c : ProvenanceChain) (kind : ProvenanceEventKind) (state : MovementState)
    (generation : Z) (reason : ReasonCode) (now : Z) (detail : bytes) : ProvenanceChain * Result unit :=
  chain_append_event c
    (plain_event c kind state generation reason now (zero_id kTransferAttemptIdBytes) detail).

Definition chain_set_bound (c : ProvenanceChain) (bound : Z) : ProvenanceChain :=
  mkChain (pc_events c)
    (if bound =? 0 then 1 else if kMaxProvenanceEvents <? bound then kMaxProvenanceEvents else bound).

Definition last_of (c : ProvenanceChain) (kind : ProvenanceEventKind) : option ProvenanceEvent :=
  List.find (fun e => bool_decide (ev_kind e = kind)) (rev (pc_events c)).

Definition ProvenanceChain_encode (c : ProvenanceChain) : bytes :=
  enc_u32 (wrap 32 (zlen (pc_events c))) ++ enc_seq ProvenanceEvent_encode (pc_events c).

(** The decoding loop: [n] more events, the chain holding those read so far. *)
Fixpoint chain_decode_loop (n : nat) (chain : ProvenanceChain) : Dec ProvenanceChain :=
  match n with
  | O => dret chain
  | S n' =>
      let? event := ProvenanceEvent_decode in
      dreject (negb (ev_sequence event =? zlen (pc_events chain) + 1)) RC.STORE_RECORD_INVALID
        "provenance chain is not contiguous or is out of order" ;?
      dlift (chain_append_event chain event).2 ;?
      chain_decode_loop n' (chain_append_event chain event).1
  end.

Definition ProvenanceChain_decode : Dec ProvenanceChain :=
  let? count := dec_count kMaxProvenanceEvents in
  let? chain := chain_decode_loop (Z.to_nat count) empty_chain in
  dreject (pc_bound chain <? zlen (pc_events chain)) RC.STORE_RECORD_INVALID
    "provenance chain exceeds its bound" ;?
  dret chain.

(** ** Lemmas *)

Lemma movement_state_of_value_value s : movement_state_of_value (movement_state_value s) = s.
Proof. by destruct s. Qed.
Lemma movement_state_value_range s : 0 <= movement_state_value s <= 9.
Proof. destruct s; simpl; lia. Qed.
Lemma provenance_kind_of_value_value k : provenance_kind_of_value (provenance_kind_value k) = k.
Proof. by destruct k. Qed.
Lemma provenance_kind_value_range k : 0 <= provenance_kind_value k <= 17.
Proof. destruct k; simpl; lia. Qed.

(** A table indexed by the values of an enumeration inverts it. *)
Lemma table_inverse {A} (value : A -> Z) (tbl : list A) (dflt : A) (v : Z) :
  forallb (fun n => value (nth n tbl dflt) =? Z.of_nat n) (seq 0 (length tbl)) = true ->
  0 <= v < zlen tbl -> value (nth (Z.to_nat v) tbl dflt) = v.
Proof.
  intros H Hv. unfold zlen in Hv. pose proof (forallb_seq _ _ H (Z.to_nat v) ltac:(lia)) as E.
  cbv beta in E. apply Z.eqb_eq in E. lia.
Qed.

Lemma movement_state_value_of_value v : 0 <= v <= 9 ->
  movement_state_value (movement_state_of_value v) = v.
Proof. intros. apply table_inverse; [done|]. change (zlen all_movement_states) with 10. lia. Qed.
Lemma provenance_kind_value_of_value v : 0 <= v <= 17 ->
  provenance_kind_value (provenance_kind_of_value v) = v.
Proof. intros. apply table_inverse; [done|]. change (zlen all_provenance_kinds) with 18. lia. Qed.

Lemma provenance_kind_from_to_string k :
  provenance_kind_from_string (provenance_kind_to_string k) = Some k.
Proof. by destruct k. Qed.

Definition actor_ok (a : bytes) : Prop := a = [] \/ EndpointId_is_valid a = true.

Lemma actor_text a : actor_ok a -> text_ok kMaxEndpointIdBytes a.
Proof. intros [->|H]; [split; [vm_compute; congruence|done]|by apply endpoint_text]. Qed.

Lemma actor_parse t a :
  (if bytes_eqb t [] then Ok [] else EndpointId_parse t) = Ok a <-> a = t /\ actor_ok a.
Proof.
  unfold actor_ok. destruct (bytes_eqb t []) eqn:E; b2p; [subst; naive_solver|].
  rewrite EndpointId_parse_spec. naive_solver.
Qed.

Record event_ok (e : ProvenanceEvent) : Prop := {
  eo_seq : in_u 64 (ev_sequence e);
  eo_time : in_i64 (ev_unix_millis e);
  eo_gen : in_u 64 (ev_movement_generation e);
  eo_reason : reason_wf (ev_reason e);
  eo_actor : actor_ok (ev_actor e);
  eo_boot : id_wf 16 (ev_actor_boot e);
  eo_epoch : in_u 64 (ev_actor_epoch e);
  eo_attempt : id_wf 16 (ev_attempt e);
  eo_evidence : digest_wf (ev_evidence e);
  eo_valid : ProvenanceEvent_validate e = Ok tt }.

Lemma event_validate_spec e : ProvenanceEvent_validate e = Ok tt <->
  ev_sequence e <> 0 /\ 0 < ev_unix_millis e /\ ev_movement_generation e <> 0 /\
  text_ok kMaxDetailBytes (ev_detail e).
Proof.
  unfold ProvenanceEvent_validate, text_ok, is_set. split.
  - intros H. split_ifs H. apply utf8_or_empty in E3. b2p. repeat split; done.
  - intros (H1 & H2 & H3 & H4 & H5). rewrite (proj2 (Z.eqb_neq _ _) H1), (proj2 (Z.leb_gt _ _) H2),
      (proj2 (Z.eqb_neq _ _) H3), (proj2 (Z.ltb_ge _ _) H4), (proj2 (utf8_or_empty _) H5). done.
Qed.

#[global] Instance event_codec lim `{!Roomy lim} :
  Codec lim ProvenanceEvent_encode ProvenanceEvent_decode event_ok.
Proof.
  split.
  - intros e []. pose proof (movement_state_value_range (ev_state e)).
    pose proof (provenance_kind_value_range (ev_kind e)).
    pose proof (proj1 (event_validate_spec e) eo_valid0) as (_ & _ & _ & Hdet).
    unfold ProvenanceEvent_decode, ProvenanceEvent_encode. solve_reads; try done;
      try (unfold in_u; lia); try (apply Z.ltb_ge; simpl; lia).
    + by apply reason_value_range.
    + by apply actor_text.
    + by apply actor_parse.
    + rewrite movement_state_of_value_value, provenance_kind_of_value_value, reason_of_value_value by done.
      by destruct e.
  - intros d e d' Hl H. unfold ProvenanceEvent_decode in H. repeat dstep H. dfacts. dcanon. b2p.
    match goal with E : (if bytes_eqb _ [] then _ else _) = Ok _ |- _ => apply actor_parse in E as [-> Ha] end.
    match goal with u : unit |- _ => destruct u end.
    simpl in *. unfold in_u in *. split.
    + split; simpl; try done. by apply reason_of_value_wf.
    + unfold ProvenanceEvent_encode; simpl.
      rewrite movement_state_value_of_value, provenance_kind_value_of_value, reason_value_of_value
        by (done || lia). solve_consumed.
Qed.

(** *** The chain invariant *)

(** Bounded, contiguous from one, every event valid. *)
Definition chain_wf (c : ProvenanceChain) : Prop :=
  0 <= pc_bound c <= 256 /\ zlen (pc_events c) <= pc_bound c /\
  forall i e, pc_events c !! i = Some e ->
    ev_sequence e = Z.of_nat i + 1 /\ ProvenanceEvent_validate e = Ok tt.

Lemma empty_chain_wf : chain_wf empty_chain.
Proof. split_and!; try done. Qed.

(** What one append does, on every branch. *)
Lemma chain_append_cases c e : chain_wf c ->
  let '(c', r) := chain_append_event c e in
  chain_wf c' /\ pc_bound c' = pc_bound c /\
  match r with
  | Ok _ => exists e', pc_events c' = pc_events c ++ [e'] /\ ev_sequence e' = next_sequence c /\
              ProvenanceEvent_validate e' = Ok tt /\ zlen (pc_events c) < pc_bound c /\
              (ev_sequence e <> 0 -> e' = e)
  | Err _ => c' = c
  end.
Proof.
  intros Hc. pose proof Hc as (Hb & Hl & He). unfold chain_append_event.
  destruct (Z.leb_spec (pc_bound c) (zlen (pc_events c))); [done|].
  set (e' := if ev_sequence e =? 0 then _ else e).
  destruct (Z.eqb_spec (ev_sequence e') (next_sequence c)) as [Es|]; cbn [negb]; [|done].
  destruct (ProvenanceEvent_validate e') as [[]|s] eqn:Ev; [|done].
  split_and!; [|done|].
  - split; [done|]. split; simpl; [rewrite zlen_app; unfold zlen in *; simpl; lia|].
    intros i x Hx. apply lookup_app_Some in Hx as [Hx|[Hge Hx]]; [by apply He|].
    apply list_lookup_singleton_Some in Hx as [Hi <-]. split; [|done].
    rewrite Es. unfold next_sequence, zlen. lia.
  - exists e'. split_and!; try done. intros Hn. unfold e'. by rewrite (proj2 (Z.eqb_neq _ _) Hn).
Qed.

Lemma chain_append_event_wf c e : chain_wf c -> chain_wf (chain_append_event c e).1.
Proof.
  intros Hc. pose proof (chain_append_cases c e Hc) as H.
  destruct (chain_append_event c e). apply H.
Qed.

Lemma chain_append_bound c e : pc_bound (chain_append_event c e).1 = pc_bound c.
Proof.
  unfold chain_append_event. destruct (_ <=? _); [done|].
  destruct (negb _); [done|]. by destruct (ProvenanceEvent_validate _).
Qed.

(** A valid event with the next sequence is appended when there is room. *)
Lemma chain_append_event_Ok c e : zlen (pc_events c) < pc_bound c ->
  ev_sequence e = next_sequence c -> ProvenanceEvent_validate e = Ok tt ->
  chain_append_event c e = (mkChain (pc_events c ++ [e]) (pc_bound c), Ok tt).
Proof.
  intros Hlt Hs Hv. unfold chain_append_event. rewrite (proj2 (Z.leb_gt _ _) Hlt).
  assert (ev_sequence e <> 0) as Hn by (rewrite Hs; unfold next_sequence, zlen; lia).
  rewrite (proj2 (Z.eqb_neq _ _) Hn), Hs, Z.eqb_refl. simpl. by rewrite Hv.
Qed.

(** *** The chain codec *)

Definition chain_ok (c : ProvenanceChain) : Prop :=
  chain_wf c /\ pc_bound c = kMaxProvenanceEvents /\ Forall event_ok (pc_events c).

Lemma chain_decode_loop_reads lim `{!Roomy lim} es : forall c,
  chain_ok (mkChain (pc_events c ++ es) kMaxProvenanceEvents) -> pc_bound c = kMaxProvenanceEvents ->
  reads lim (chain_decode_loop (length es) c) (enc_seq ProvenanceEvent_encode es)
    (mkChain (pc_events c ++ es) kMaxProvenanceEvents).
Proof.
  induction es as [|e es IH]; intros c Hok Hb; cbn [chain_decode_loop length].
  - rewrite app_nil_r. apply reads_ret_eq. destruct c. simpl in *. by subst.
  - pose proof Hok as ((_ & Hlen & Hes) & _ & Hev). simpl in *.
    assert (event_ok e) as He by (apply Forall_app in Hev as [_ Hev]; by inversion Hev).
    assert ((pc_events c ++ e :: es) !! length (pc_events c) = Some e) as Hlk
      by (by rewrite list_lookup_middle).
    destruct (Hes _ _ Hlk) as [Hseq Hval].
    assert (chain_append_event c e = (mkChain (pc_events c ++ [e]) (pc_bound c), Ok tt)) as Ea.
    { apply chain_append_event_Ok; [|done|done]. rewrite Hb. rewrite zlen_app in Hlen.
      unfold zlen in *. simpl in *. lia. }
    unfold enc_seq. cbn [map concat]. eapply reads_bind; [by apply codec_reads|]. rewrite Ea.
    eapply reads_bind_nil; [apply reads_reject|].
    { rewrite Hseq. unfold zlen. by rewrite Z.eqb_refl. }
    eapply reads_bind_nil; [by apply reads_lift|].
    assert (pc_events c ++ e :: es = (pc_events c ++ [e]) ++ es) as Eapp by (by rewrite <- app_assoc).
    rewrite Eapp in *. apply (IH (mkChain (pc_events c ++ [e]) (pc_bound c))); done.
Qed.

Lemma chain_decode_loop_canon lim `{!Roomy lim} n : forall c d c' d', live lim d ->
  chain_ok c -> chain_decode_loop n c d = Ok (c', d') ->
  chain_ok c' /\ exists es, pc_events c' = pc_events c ++ es /\ length es = n /\
    consumed d d' (enc_seq ProvenanceEvent_encode es).
Proof.
  induction n as [|n IH]; intros c d c' d' Hl Hc H; cbn [chain_decode_loop] in H.
  - apply dret_Ok in H as [-> ->]. split; [done|]. exists [].
    rewrite app_nil_r. split_and!; try done. apply consumed_nil.
  - repeat dstep H. dfacts. dcanon. b2p. destruct Hc as (Hw & Hb & Hf).
    pose proof (chain_append_cases c v Hw) as Ha. destruct (chain_append_event c v) as [c1 r].
    simpl in *. subst r. destruct Ha as (Hw1 & Hb1 & e' & He1 & _ & _ & _ & Heq).
    rewrite Heq in He1 by (unfold zlen in *; lia). clear Heq.
    destruct (IH c1 _ c' d' Hl0) as (Hc' & es & Hes & Hn & Hcons); [|done|].
    { split_and!; [done|congruence|]. rewrite He1. apply Forall_app. split; [done|by constructor]. }
    split; [done|]. exists (v :: es). rewrite Hes, He1, <- app_assoc. split_and!; try done.
    + simpl. by rewrite Hn.
    + unfold enc_seq. cbn [map concat]. by eapply consumed_app.
Qed.

#[global] Instance chain_codec lim `{!Roomy lim} :
  Codec lim ProvenanceChain_encode ProvenanceChain_decode chain_ok.
Proof.
  pose proof (dec_count_codec lim kMaxProvenanceEvents ltac:(done)) as Hcnt. split.
  - intros c Hc. pose proof Hc as ((Hb & Hl & _) & Hbd & _).
    unfold ProvenanceChain_decode, ProvenanceChain_encode. unfold kMaxProvenanceEvents in *.
    pose proof (zlen_nonneg (pc_events c)). rewrite wrap_small by (unfold in_u; lia).
    apply reads_nil_r. rewrite <- app_assoc.
    eapply reads_bind; [apply codec_reads; lia|]. cbv beta.
    assert (Z.to_nat (zlen (pc_events c)) = length (pc_events c)) as -> by (unfold zlen; lia).
    assert (mkChain (pc_events c) 256 = c) as Ec by (destruct c; simpl in *; by subst).
    pose proof (chain_decode_loop_reads lim (pc_events c) empty_chain) as Hloop.
    unfold empty_chain, kMaxProvenanceEvents in Hloop. cbn [pc_events app] in Hloop. rewrite Ec in Hloop.
    eapply (reads_bind _ _ _ c); [by apply Hloop|].
    cbv beta. repeat reads_step; [|done]. apply Z.ltb_ge. lia.
  - intros d c d' Hl H. unfold ProvenanceChain_decode in H. repeat dstep H. dfacts.
    apply (codec_canon _ _ _ Hl) in Ed as [Hn Hc1].
    pose proof (consumed_live _ _ _ _ Hl Hc1) as Hl1.
    apply (chain_decode_loop_canon lim) in Ed0 as (Hok & es & Hes & Hlen & Hc2); [|done|].
    2: { split_and!; [apply empty_chain_wf|done|constructor]. }
    split; [done|]. unfold ProvenanceChain_encode. simpl in Hes. rewrite Hes in *.
    rewrite wrap_small.
    + assert (zlen es = v) as -> by (unfold zlen; lia). by eapply consumed_app.
    + unfold in_u, zlen. unfold kMaxProvenanceEvents in *. lia.
Qed.

(** ** Properties *)

(** Appending a batch of events, refused ones included. *)
Definition chain_append_all (c : ProvenanceChain) (es : list ProvenanceEvent) : ProvenanceChain :=
  fold_left (fun c e => (chain_append_event c e).1) es c.

Lemma chain_append_all_prefix es : forall c, chain_wf c ->
  chain_wf (chain_append_all c es) /\ pc_events c `prefix_of` pc_events (chain_append_all c es) /\
  pc_bound (chain_append_all c es) = pc_bound c.
Proof.
  induction es as [|e es IH]; intros c Hc; simpl; [done|].
  destruct (IH _ (chain_append_event_wf c e Hc)) as (Hw & Hp & Hb).
  pose proof (chain_append_cases c e Hc) as Ha. destruct (chain_append_event c e) as [c1 r]. simpl in *.
  destruct Ha as (_ & Hb1 & Hr). split_and!; [done| |congruence].
  etrans; [|exact Hp]. destruct r; [|by subst]. destruct Hr as (e' & -> & _). by apply prefix_app_r.
Qed.

(** (invariant) A provenance chain is append-only history: whatever sequence
    of events is offered, the events already in the chain stay in place, the
    chain never exceeds its bound, and its events are valid and numbered
    contiguously from one. *)
Theorem provenance_append_only (c : ProvenanceChain) (es : list ProvenanceEvent) :
  chain_wf c ->
  pc_events c `prefix_of` pc_events (chain_append_all c es) /\
  zlen (pc_events (chain_append_all c es)) <= pc_bound c /\
  (forall i e, pc_events (chain_append_all c es) !! i = Some e ->
     ev_sequence e = Z.of_nat i + 1 /\ ProvenanceEvent_validate e = Ok tt).
Proof.
  intros Hc. destruct (chain_append_all_prefix es c Hc) as ((_ & Hl & He) & Hp & Hb).
  split_and!; [done|lia|done].
Qed.

(** (round trip) Decoding the encoding of a well-formed chain restores every
    event, but the bound a policy set on it is not part of the encoding: the
    reloaded chain has the structural bound of 256 events. *)
Theorem chain_reload_forgets_bound (c : ProvenanceChain) :
  chain_wf c -> Forall event_ok (pc_events c) ->
  zlen (ProvenanceChain_encode c) <= max_input_bytes default_limits ->
  decode_all default_limits ProvenanceChain_decode (ProvenanceChain_encode c) =
  Ok (mkChain (pc_events c) kMaxProvenanceEvents).
Proof.
  intros (Hb & Hl & He) Hf Hlen.
  change (ProvenanceChain_encode c)
    with (ProvenanceChain_encode (mkChain (pc_events c) kMaxProvenanceEvents)) in *.
  apply (decode_all_encode _ _ _ chain_ok); [|done].
  unfold kMaxProvenanceEvents in *. split; [|done]. split_and!; simpl; try done; lia.
Qed.

(** *** Witnesses *)

Definition demo_event : ProvenanceEvent :=
  plain_event empty_chain PK.CREATED MS.PLANNED 1 RC.OK 1767225600000
    (zero_id kTransferAttemptIdBytes) (lit "movement planned").

Definition demo_chain : ProvenanceChain := mkChain [demo_event] 2.

Lemma demo_chain_wf : chain_wf demo_chain.
Proof.
  split_and!; try (vm_compute; congruence). intros [|i] e H; [|discriminate H].
  injection H as <-. done.
Qed.

Lemma provenance_append_only_witness :
  zlen (pc_events (chain_append_all demo_chain [demo_event; demo_event; demo_event])) <= 2.
Proof.
  exact (proj1 (proj2 (provenance_append_only demo_chain [demo_event; demo_event; demo_event]
           demo_chain_wf))).
Defined.

Lemma demo_event_ok : event_ok demo_event.
Proof. split; try done; try (by left); vm_compute; split; congruence. Qed.

Lemma chain_reload_forgets_bound_witness :
  decode_all default_limits ProvenanceChain_decode (ProvenanceChain_encode demo_chain) =
  Ok (mkChain [demo_event] 256).
Proof.
  apply (chain_reload_forgets_bound demo_chain demo_chain_wf);
    [constructor; [apply demo_event_ok|constructor]|vm_compute; congruence].
Defined.
