(* ===== verification/Movement.v ===== *)
(** * The movement record and its state machine

    Models src/src/movement.cpp, include/smf/movement.hpp and the functions of
    include/smf/movement_state.hpp.  The transition table is data, as in the
    source; [apply_transition] and [record_attempt_started] return the mutated
    record together with the status, because both mutate before they can fail.

    Proved: the legal transitions as a relation with its reachability facts
    (terminal states are final, COMMITTED is reached only through VERIFIED or
    OUTCOME_UNKNOWN, every run is finite up to retries), the fencing generation,
    the record codec and the effect of every mutation. *)
From S2P Require Import Prelude Status Bytes Digest Codec Ids StateObject Provenance.

(** ** The state machine *)

Definition kTransitions : list (MovementState * MovementState) :=
  [(MS.PLANNED, MS.AUTHORIZED); (MS.PLANNED, MS.CANCELLED); (MS.PLANNED, MS.FAILED);
   (MS.PLANNED, MS.SUPERSEDED);
   (MS.AUTHORIZED, MS.TRANSFERRING); (MS.AUTHORIZED, MS.CANCELLED); (MS.AUTHORIZED, MS.FAILED);
   (MS.AUTHORIZED, MS.SUPERSEDED); (MS.AUTHORIZED, MS.OUTCOME_UNKNOWN);
   (MS.TRANSFERRING, MS.BYTES_ARRIVED); (MS.TRANSFERRING, MS.CANCELLED);
   (MS.TRANSFERRING, MS.FAILED); (MS.TRANSFERRING, MS.SUPERSEDED);
   (MS.TRANSFERRING, MS.OUTCOME_UNKNOWN);
   (MS.BYTES_ARRIVED, MS.TRANSFERRING); (MS.BYTES_ARRIVED, MS.VERIFIED);
   (MS.BYTES_ARRIVED, MS.CANCELLED); (MS.BYTES_ARRIVED, MS.FAILED);
   (MS.BYTES_ARRIVED, MS.SUPERSEDED); (MS.BYTES_ARRIVED, MS.OUTCOME_UNKNOWN);
   (MS.VERIFIED, MS.COMMITTED); (MS.VERIFIED, MS.CANCELLED); (MS.VERIFIED, MS.FAILED);
   (MS.VERIFIED, MS.SUPERSEDED); (MS.VERIFIED, MS.OUTCOME_UNKNOWN);
   (MS.OUTCOME_UNKNOWN, MS.COMMITTED); (MS.OUTCOME_UNKNOWN, MS.FAILED);
   (MS.OUTCOME_UNKNOWN, MS.CANCELLED); (MS.OUTCOME_UNKNOWN, MS.SUPERSEDED)].

Definition movement_state_to_string (s : MovementState) : bytes :=
  match s with
  | MS.PLANNED => lit "PLANNED"
  | MS.AUTHORIZED => lit "AUTHORIZED"
  | MS.TRANSFERRING => lit "TRANSFERRING"
  | MS.BYTES_ARRIVED => lit "BYTES_ARRIVED"
  | MS.VERIFIED => lit "VERIFIED"
  | MS.COMMITTED => lit "COMMITTED"
  | MS.CANCELLED => lit "CANCELLED"
  | MS.FAILED => lit "FAILED"
  | MS.OUTCOME_UNKNOWN => lit "OUTCOME_UNKNOWN"
  | MS.SUPERSEDED => lit "SUPERSEDED"
  end.

Definition movement_state_from_string (text : bytes) : option MovementState :=
  List.find (fun s => bytes_eqb text (movement_state_to_string s)) all_movement_states.

Definition is_terminal (s : MovementState) : bool :=
  match s with
  | MS.COMMITTED | MS.CANCELLED | MS.FAILED | MS.SUPERSEDED => true
  | _ => false
  end.

Definition is_active (s : MovementState) : bool :=
  match s with
  | MS.PLANNED | MS.AUTHORIZED | MS.TRANSFERRING | MS.BYTES_ARRIVED | MS.VERIFIED
  | MS.OUTCOME_UNKNOWN => true
  | _ => false
  end.

Definition is_committed (s : MovementState) : bool := bool_decide (s = MS.COMMITTED).

Definition check_transition (from to : MovementState) : Result unit :=
  if is_terminal from
  then Err (mkStatus RC.ALREADY_TERMINAL
              (lit "movement is already terminal in state " ++ movement_state_to_string from))
  else if existsb (fun t => bool_decide (t.1 = from) && bool_decide (t.2 = to)) kTransitions
  then Ok tt
  else Err (mkStatus RC.ILLEGAL_TRANSITION
              (lit "cannot move from " ++ movement_state_to_string from ++ lit " to " ++
               movement_state_to_string to)).

Definition describe_transitions (from : MovementState) : bytes :=
  match from with
  | MS.PLANNED => lit "AUTHORIZED, CANCELLED, FAILED, SUPERSEDED"
  | MS.AUTHORIZED => lit "TRANSFERRING, CANCELLED, FAILED, SUPERSEDED, OUTCOME_UNKNOWN"
  | MS.TRANSFERRING => lit "BYTES_ARRIVED, CANCELLED, FAILED, SUPERSEDED, OUTCOME_UNKNOWN"
  | MS.BYTES_ARRIVED =>
      lit "VERIFIED, TRANSFERRING (retry), CANCELLED, FAILED, SUPERSEDED, OUTCOME_UNKNOWN"
  | MS.VERIFIED => lit "COMMITTED, CANCELLED, FAILED, SUPERSEDED, OUTCOME_UNKNOWN"
  | MS.OUTCOME_UNKNOWN => lit "COMMITTED, FAILED, CANCELLED, SUPERSEDED"
  | MS.COMMITTED | MS.CANCELLED | MS.FAILED | MS.SUPERSEDED => lit "none: terminal"
  end.

(** ** Decisions *)

Record MovementDecision := mkDecision {
  dec_allowed : bool;
  dec_code : ReasonCode;
  dec_detail : bytes }.

Definition decision_allow : MovementDecision := mkDecision true RC.OK [].
Definition decision_allow_with (code : ReasonCode) (detail : bytes) : MovementDecision :=
  mkDecision true code detail.
Definition decision_deny (code : ReasonCode) (detail : bytes) : MovementDecision :=
  mkDecision false code detail.
Definition decision_status (d : MovementDecision) : Result unit :=
  if dec_allowed d then Ok tt else Err (mkStatus (dec_code d) (dec_detail d)).

(** ** The record *)

Record MovementRecord := mkMovement {
  m_id : bytes;
  m_generation : Z;
  m_object : StateObjectDescriptor;
  m_source : bytes;
  m_destination : bytes;
  m_source_incarnation : Incarnation;
  m_destination_incarnation : Incarnation;
  m_compatibility_generation : Z;
  m_compatibility_evidence : Digest;
  m_topology_generation : Z;
  m_policy_generation : Z;
  m_state : MovementState;
  m_last_reason : ReasonCode;
  m_last_detail : bytes;
  m_attempt : bytes;
  m_attempt_count : Z;
  m_bytes_transferred : Z;
  m_chunks_verified : Z;
  m_source_verified_digest : Digest;
  m_destination_verified_digest : Digest;
  m_commit_marker_digest : Digest;
  m_created_unix_millis : Z;
  m_updated_unix_millis : Z;
  m_repeatable : bool;
  m_cancel_requested : bool;
  m_provenance : ProvenanceChain }.

#[global] Instance ProvenanceChain_eq_dec : EqDecision ProvenanceChain.
Proof. solve_decision. Defined.
#[global] Instance MovementRecord_eq_dec : EqDecision MovementRecord.
Proof. solve_decision. Defined.

Definition MovementRecord_validate (r : MovementRecord) : Result unit :=
  if array_is_zero (m_id r) then fail RC.INVALID_ID "movement id must not be zero"
  else if negb (is_set (m_generation r))
  then fail RC.INVALID_GENERATION "movement generation must be non-zero"
  else
    StateObjectDescriptor_validate (m_object r) ;!
    if bytes_eqb (m_source r) [] || bytes_eqb (m_destination r) []
    then fail RC.INVALID_ID "movement must name a source and a destination"
    else if bytes_eqb (m_source r) (m_destination r)
    then fail RC.SELF_MOVEMENT "source and destination endpoints are the same"
    else if negb (Incarnation_is_set (m_source_incarnation r)) ||
            negb (Incarnation_is_set (m_destination_incarnation r))
    then fail RC.STALE_INCARNATION "movement must bind both endpoint incarnations"
    else if negb (bytes_eqb (inc_endpoint (m_source_incarnation r)) (m_source r))
    then fail RC.STALE_INCARNATION "source incarnation names a different endpoint"
    else if negb (bytes_eqb (inc_endpoint (m_destination_incarnation r)) (m_destination r))
    then fail RC.STALE_INCARNATION "destination incarnation names a different endpoint"
    else if negb (is_set (m_topology_generation r)) || negb (is_set (m_policy_generation r))
    then fail RC.INVALID_GENERATION
           "movement must record the topology and policy generations it was decided under"
    else if kMaxAttemptsHardLimit <? m_attempt_count r
    then fail RC.ATTEMPT_EXHAUSTED "movement records more attempts than are permitted"
    else if d_chunk_count (m_object r) <? m_chunks_verified r
    then fail RC.STORE_RECORD_INVALID "movement claims more verified chunks than exist"
    else if is_committed (m_state r) && array_is_zero (m_commit_marker_digest r)
    then fail RC.COMMIT_MARKER_INVALID
           "a committed movement must record the digest of its commit marker"
    else if kMaxDetailBytes <? zlen (m_last_detail r)
    then fail RC.INVALID_ARGUMENT "movement detail exceeds the text bound"
    else Ok tt.

Definition MovementRecord_encode (r : MovementRecord) : bytes :=
  FixedId_encode (m_id r) ++ enc_u64 (m_generation r) ++ StateObjectDescriptor_encode (m_object r) ++
  enc_text (m_source r) ++ enc_text (m_destination r) ++
  enc_text (inc_endpoint (m_source_incarnation r)) ++
  FixedId_encode (inc_boot (m_source_incarnation r)) ++
  enc_u64 (inc_epoch (m_source_incarnation r)) ++
  enc_text (inc_endpoint (m_destination_incarnation r)) ++
  FixedId_encode (inc_boot (m_destination_incarnation r)) ++
  enc_u64 (inc_epoch (m_destination_incarnation r)) ++
  enc_u64 (m_compatibility_generation r) ++ enc_digest (m_compatibility_evidence r) ++
  enc_u64 (m_topology_generation r) ++ enc_u64 (m_policy_generation r) ++
  enc_u8 (movement_state_value (m_state r)) ++ enc_u16 (reason_value (m_last_reason r)) ++
  enc_text (m_last_detail r) ++ FixedId_encode (m_attempt r) ++ enc_u32 (m_attempt_count r) ++
  enc_u64 (m_bytes_transferred r) ++ enc_u32 (m_chunks_verified r) ++
  enc_digest (m_source_verified_digest r) ++ enc_digest (m_destination_verified_digest r) ++
  enc_digest (m_commit_marker_digest r) ++ enc_i64 (m_created_unix_millis r) ++
  enc_i64 (m_updated_unix_millis r) ++ enc_boolean (m_repeatable r) ++
  enc_boolean (m_cancel_requested r) ++ ProvenanceChain_encode (m_provenance r).

Definition MovementRecord_decode : Dec MovementRecord :=
  let? id := FixedId_decode kMovementIdBytes in
  let? generation := dec_u64 in
  let? object := StateObjectDescriptor_decode in
  let? source := dec_endpoint in
  let? destination := dec_endpoint in
  let? source_endpoint := dec_text kMaxEndpointIdBytes in
  let? source_boot := FixedId_decode kBootIdBytes in
  let? source_epoch := dec_u64 in
  let? destination_endpoint := dec_text kMaxEndpointIdBytes in
  let? destination_boot := FixedId_decode kBootIdBytes in
  let? destination_epoch := dec_u64 in
  let? source_parsed := dlift (EndpointId_parse source_endpoint) in
  let? destination_parsed := dlift (EndpointId_parse destination_endpoint) in
  let? source_incarnation := dlift (Incarnation_make source_parsed source_boot source_epoch) in
  let? destination_incarnation :=
    dlift (Incarnation_make destination_parsed destination_boot destination_epoch) in
  let? compatibility_generation := dec_u64 in
  let? compatibility_evidence := dec_digest in
  let? topology_generation := dec_u64 in
  let? policy_generation := dec_u64 in
  let? state := dec_u8 in
  dreject (movement_state_value MS.SUPERSEDED <? state) RC.STORE_RECORD_INVALID
    "recorded movement state is not recognized" ;?
  let? reason := dec_u16 in
  let? detail := dec_text kMaxDetailBytes in
  let? attempt := FixedId_decode kTransferAttemptIdBytes in
  let? attempt_count := dec_u32 in
  let? nbytes := dec_u64 in
  let? chunks := dec_u32 in
  let? source_digest := dec_digest in
  let? destination_digest := dec_digest in
  let? marker := dec_digest in
  let? created := dec_i64 in
  let? updated := dec_i64 in
  let? repeatable := dec_boolean in
  let? cancel_requested := dec_boolean in
  let? provenance := ProvenanceChain_decode in
  let record :=
    mkMovement id generation object source destination source_incarnation destination_incarnation
      compatibility_generation compatibility_evidence topology_generation policy_generation
      (movement_state_of_value state) (reason_of_value reason) detail attempt attempt_count nbytes
      chunks source_digest destination_digest marker created updated repeatable cancel_requested
      provenance in
  dlift (MovementRecord_validate record) ;?
  dret record.

Definition record_digest (r : MovementRecord) : Digest :=
  canonical_digest (enc_text (lit "SMF-MOVEMENT-RECORD-v1") ++ MovementRecord_encode r).

(** ** Mutations *)

(** The fields the two mutators below assign. *)
Definition with_decision (r : MovementRecord) (reason : ReasonCode) (detail : bytes)
    (chain : ProvenanceChain) : MovementRecord :=
  mkMovement (m_id r) (m_generation r) (m_object r) (m_source r) (m_destination r)
    (m_source_incarnation r) (m_destination_incarnation r) (m_compatibility_generation r)
    (m_compatibility_evidence r) (m_topology_generation r) (m_policy_generation r) (m_state r)
    reason detail (m_attempt r) (m_attempt_count r) (m_bytes_transferred r) (m_chunks_verified r)
    (m_source_verified_digest r) (m_destination_verified_digest r) (m_commit_marker_digest r)
    (m_created_unix_millis r) (m_updated_unix_millis r) (m_repeatable r) (m_cancel_requested r) chain.

Definition with_state (r : MovementRecord) (generation : Z) (state : MovementState)
    (reason : ReasonCode) (detail : bytes) (updated : Z) (chain : ProvenanceChain) : MovementRecord :=
  mkMovement (m_id r) generation (m_object r) (m_source r) (m_destination r)
    (m_source_incarnation r) (m_destination_incarnation r) (m_compatibility_generation r)
    (m_compatibility_evidence r) (m_topology_generation r) (m_policy_generation r) state
    reason detail (m_attempt r) (m_attempt_count r) (m_bytes_transferred r) (m_chunks_verified r)
    (m_source_verified_digest r) (m_destination_verified_digest r) (m_commit_marker_digest r)
    (m_created_unix_millis r) updated (m_repeatable r) (m_cancel_requested r) chain.

Definition with_attempt (r : MovementRecord) (generation : Z) (attempt : bytes) (count updated : Z)
    (chain : ProvenanceChain) : MovementRecord :=
  mkMovement (m_id r) generation (m_object r) (m_source r) (m_destination r)
    (m_source_incarnation r) (m_destination_incarnation r) (m_compatibility_generation r)
    (m_compatibility_evidence r) (m_topology_generation r) (m_policy_generation r) (m_state r)
    (m_last_reason r) (m_last_detail r) attempt count (m_bytes_transferred r) (m_chunks_verified r)
    (m_source_verified_digest r) (m_destination_verified_digest r) (m_commit_marker_digest r)
    (m_created_unix_millis r) updated (m_repeatable r) (m_cancel_requested r) chain.

Definition apply_transition (record : MovementRecord) (next : MovementState)
    (decision : MovementDecision) (kind : ProvenanceEventKind) (now : Z)
    : MovementRecord * Result unit :=
  match check_transition (m_state record) next with
  | Err legality =>
      let chain := (chain_append (m_provenance record) PK.STALE_REJECTED (m_state record)
                      (m_generation record) (st_code legality) now (st_message legality)).1 in
      (with_decision record (st_code legality) (st_message legality) chain, Err legality)
  | Ok _ =>
      match Generation_next (m_generation record) with
      | Err s => (record, Err s)
      | Ok advanced =>
          let '(chain, status) :=
            chain_append_event (m_provenance record)
              (plain_event (m_provenance record) kind next advanced (dec_code decision) now
                 (zero_id kTransferAttemptIdBytes) (dec_detail decision)) in
          (with_state record advanced next (dec_code decision) (dec_detail decision) now chain, status)
      end
  end.

Definition record_attempt_started (record : MovementRecord) (attempt : bytes) (now : Z)
    : MovementRecord * Result unit :=
  if is_terminal (m_state record)
  then (record, fail RC.ALREADY_TERMINAL "movement is already terminal")
  else match Generation_next (m_generation record) with
       | Err s => (record, Err s)
       | Ok advanced =>
           let count := wrap 32 (m_attempt_count record + 1) in
           let '(chain, status) :=
             chain_append_event (m_provenance record)
               (plain_event (m_provenance record) PK.ATTEMPT_STARTED (m_state record) advanced RC.OK
                  now attempt (lit "attempt " ++ std_to_string count)) in
           (with_attempt record advanced attempt count now chain, status)
       end.

Definition evaluate_supersession (record : MovementRecord) (current : StateObjectDescriptor)
    : MovementDecision :=
  if negb (same_object current (m_object record))
  then decision_deny RC.STALE_STATE_GENERATION (lit "source announced a different state object")
  else if d_generation (m_object record) <? d_generation current
  then decision_deny RC.MOVEMENT_SUPERSEDED
         (lit "source state generation advanced from " ++
          std_to_string (d_generation (m_object record)) ++ lit " to " ++
          std_to_string (d_generation current))
  else if negb (bytes_eqb (d_content_digest current) (d_content_digest (m_object record)))
  then decision_deny RC.STALE_STATE_GENERATION
         (lit "source content digest changed for the same generation")
  else decision_allow.

Definition summarize (r : MovementRecord) : bytes :=
  take 12 (to_hex (m_id r)) ++ lit " " ++ movement_state_to_string (m_state r) ++ lit " gen=" ++
  std_to_string (d_generation (m_object r)) ++ lit " " ++ m_source r ++ lit "->" ++
  m_destination r ++ lit " attempts=" ++ std_to_string (m_attempt_count r) ++ lit " bytes=" ++
  std_to_string (m_bytes_transferred r) ++ lit " reason=" ++ reason_to_string (m_last_reason r).

(** ** The life cycle as a specification *)

Inductive lifecycle : MovementState -> MovementState -> Prop :=
  | lc_authorize : lifecycle MS.PLANNED MS.AUTHORIZED
  | lc_transfer : lifecycle MS.AUTHORIZED MS.TRANSFERRING
  | lc_arrive : lifecycle MS.TRANSFERRING MS.BYTES_ARRIVED
  | lc_retry : lifecycle MS.BYTES_ARRIVED MS.TRANSFERRING
  | lc_verify : lifecycle MS.BYTES_ARRIVED MS.VERIFIED
  | lc_commit : lifecycle MS.VERIFIED MS.COMMITTED
  | lc_stop s t : is_terminal s = false -> t <> MS.COMMITTED -> is_terminal t = true -> lifecycle s t
  | lc_lose s : is_terminal s = false -> s <> MS.PLANNED -> s <> MS.OUTCOME_UNKNOWN ->
      lifecycle s MS.OUTCOME_UNKNOWN
  | lc_resolve : lifecycle MS.OUTCOME_UNKNOWN MS.COMMITTED.

Lemma check_transition_unit s t u : check_transition s t = Ok u -> check_transition s t = Ok tt.
Proof. by destruct u. Qed.

Lemma check_transition_iff s t : check_transition s t = Ok tt <-> lifecycle s t.
Proof.
  split.
  - destruct s, t; intros H; try discriminate H; by constructor.
  - intros H. destruct H as [| | | | | |s t Hs Ht1 Ht2|s Hs H1 H2|]; try done.
    + destruct s; try discriminate Hs; destruct t; try discriminate Ht2; done.
    + destruct s; try discriminate Hs; done.
Qed.

Lemma terminal_no_step s t : is_terminal s = true ->
  exists m, check_transition s t = Err (mkStatus RC.ALREADY_TERMINAL m).
Proof. intros H. unfold check_transition. rewrite H. eauto. Qed.

(** *** Runs *)

Inductive run : MovementState -> list MovementState -> Prop :=
  | run_nil s : run s []
  | run_cons s t l : check_transition s t = Ok tt -> run t l -> run s (t :: l).

(** The progress of a state; only the retry edge lowers it. *)
Definition rank (s : MovementState) : Z :=
  match s with
  | MS.PLANNED => 0 | MS.AUTHORIZED => 1 | MS.TRANSFERRING => 2 | MS.BYTES_ARRIVED => 3
  | MS.VERIFIED => 4 | MS.OUTCOME_UNKNOWN => 5
  | MS.COMMITTED | MS.CANCELLED | MS.FAILED | MS.SUPERSEDED => 6
  end.

Definition is_retry (s t : MovementState) : bool :=
  bool_decide (s = MS.BYTES_ARRIVED) && bool_decide (t = MS.TRANSFERRING).

Fixpoint retries (s : MovementState) (l : list MovementState) : Z :=
  match l with
  | [] => 0
  | t :: r => (if is_retry s t then 1 else 0) + retries t r
  end.

Lemma rank_step s t : check_transition s t = Ok tt ->
  rank t >= rank s + (if is_retry s t then -1 else 1).
Proof. destruct s, t; intros H; try discriminate H; vm_compute; congruence. Qed.

Lemma rank_range s : 0 <= rank s <= 6.
Proof. destruct s; simpl; lia. Qed.

Lemma run_length s l : run s l -> zlen l <= 6 - rank s + 2 * retries s l.
Proof.
  induction 1 as [s|s t l Hc Hr IH]; [pose proof (rank_range s); simpl; unfold zlen; simpl; lia|].
  pose proof (rank_step s t Hc). cbn [retries]. unfold zlen in *. cbn [length].
  destruct (is_retry s t); lia.
Qed.

(** The state a run ends in. *)
Fixpoint final (s : MovementState) (l : list MovementState) : MovementState :=
  match l with [] => s | t :: r => final t r end.

(** In every run that ends COMMITTED the state before it is VERIFIED or
    OUTCOME_UNKNOWN, and nothing follows it. *)
Lemma run_commit s l1 l2 : run s (l1 ++ MS.COMMITTED :: l2) ->
  l2 = [] /\ (final s l1 = MS.VERIFIED \/ final s l1 = MS.OUTCOME_UNKNOWN).
Proof.
  revert s. induction l1 as [|t l1 IH]; intros s Hr; simpl in Hr; inversion Hr as [|? ? ? Hc Hr']; subst.
  - split; [|destruct s; try discriminate Hc; eauto].
    inversion Hr' as [|? t ? Hc' _]; subst; [done|]. by destruct t.
  - by destruct (IH _ Hr') as [-> Hl].
Qed.

(** ** The record invariant *)

Record movement_range (r : MovementRecord) : Prop := {
  mr_id : id_wf 16 (m_id r);
  mr_gen : in_u 64 (m_generation r);
  mr_obj : descriptor_range (m_object r);
  mr_src : EndpointId_is_valid (m_source r) = true;
  mr_dst : EndpointId_is_valid (m_destination r) = true;
  mr_sboot : id_wf 16 (inc_boot (m_source_incarnation r));
  mr_sep : in_u 64 (inc_epoch (m_source_incarnation r));
  mr_dboot : id_wf 16 (inc_boot (m_destination_incarnation r));
  mr_dep : in_u 64 (inc_epoch (m_destination_incarnation r));
  mr_cgen : in_u 64 (m_compatibility_generation r);
  mr_cev : digest_wf (m_compatibility_evidence r);
  mr_tgen : in_u 64 (m_topology_generation r);
  mr_pgen : in_u 64 (m_policy_generation r);
  mr_reason : reason_wf (m_last_reason r);
  mr_att : id_wf 16 (m_attempt r);
  mr_acount : in_u 32 (m_attempt_count r);
  mr_bytes : in_u 64 (m_bytes_transferred r);
  mr_chunks : in_u 32 (m_chunks_verified r);
  mr_sdig : digest_wf (m_source_verified_digest r);
  mr_ddig : digest_wf (m_destination_verified_digest r);
  mr_cdig : digest_wf (m_commit_marker_digest r);
  mr_created : in_i64 (m_created_unix_millis r);
  mr_updated : in_i64 (m_updated_unix_millis r) }.

(** What [validate] accepts. *)
Record valid_movement (r : MovementRecord) : Prop := {
  vm_id : array_is_zero (m_id r) = false;
  vm_gen : m_generation r <> 0;
  vm_obj : valid_descriptor (m_object r);
  vm_self : m_source r <> m_destination r;
  vm_ends : m_source r <> [] /\ m_destination r <> [];
  vm_sinc : Incarnation_is_set (m_source_incarnation r) = true;
  vm_dinc : Incarnation_is_set (m_destination_incarnation r) = true;
  vm_sname : inc_endpoint (m_source_incarnation r) = m_source r;
  vm_dname : inc_endpoint (m_destination_incarnation r) = m_destination r;
  vm_topo : m_topology_generation r <> 0;
  vm_pol : m_policy_generation r <> 0;
  vm_att : m_attempt_count r <= 64;
  vm_chunks : m_chunks_verified r <= d_chunk_count (m_object r);
  vm_marker : m_state r = MS.COMMITTED -> array_is_zero (m_commit_marker_digest r) = false;
  vm_detail : zlen (m_last_detail r) <= 1024 }.

Lemma movement_validate_spec r : MovementRecord_validate r = Ok tt <-> valid_movement r.
Proof.
  unfold MovementRecord_validate, is_set, is_committed, kMaxAttemptsHardLimit, kMaxDetailBytes. split.
  - intros H.
    repeat match type of H with (if ?c then _ else _) = _ => destruct c eqn:?; [discriminate H|] end.
    apply rbind_Ok in H as (u & Hv & H). apply validate_unit in Hv.
    repeat match type of H with (if ?c then _ else _) = _ => destruct c eqn:?; [discriminate H|] end.
    match goal with E : bool_decide _ && _ = false |- _ => apply andb_false_iff in E end. b2p.
    split; try done; try lia. intros Hs.
    match goal with E : _ = false \/ _ = false |- _ => destruct E; b2p; congruence end.
  - intros [H1 H2 Hobj H3 [H4 H5] H6 H7 H8 H9 H10 H11 H12 H13 H14 H15].
    rewrite H1, (proj2 (Z.eqb_neq _ _) H2). simpl.
    rewrite (proj2 (validate_spec _) Hobj). cbn [rbind].
    rewrite (proj2 (bytes_eqb_neq _ _) H4), (proj2 (bytes_eqb_neq _ _) H5),
      (proj2 (bytes_eqb_neq _ _) H3), H6, H7, H8, H9, !bytes_eqb_refl.
    rewrite (proj2 (Z.eqb_neq _ _) H10), (proj2 (Z.eqb_neq _ _) H11), (proj2 (Z.ltb_ge 64 _) H12),
      (proj2 (Z.ltb_ge _ _) H13), (proj2 (Z.ltb_ge 1024 _) H15). simpl.
    destruct (bool_decide (m_state r = MS.COMMITTED)) eqn:Es; [|done]. b2p. by rewrite H14.
Qed.

Definition movement_ok (r : MovementRecord) : Prop :=
  movement_range r /\ valid_movement r /\ chain_ok (m_provenance r) /\
  is_valid_utf8 (m_last_detail r) = true.

#[global] Instance movement_codec lim `{!Roomy lim} :
  Codec lim MovementRecord_encode MovementRecord_decode movement_ok.
Proof.
  split.
  - intros r ([] & Hv & Hc & Hu). pose proof Hv as [].
    pose proof (movement_state_value_range (m_state r)).
    assert (EndpointId_is_valid (inc_endpoint (m_source_incarnation r)) = true) as Hse
      by (by rewrite vm_sname0).
    assert (EndpointId_is_valid (inc_endpoint (m_destination_incarnation r)) = true) as Hde
      by (by rewrite vm_dname0).
    unfold MovementRecord_decode, MovementRecord_encode. solve_reads; try done;
      try (unfold in_u; lia); try (apply Z.ltb_ge; simpl; lia);
      try (by apply endpoint_text); try (by apply EndpointId_parse_self).
    + by apply Incarnation_make_self.
    + by apply Incarnation_make_self.
    + by apply reason_value_range.
    + apply movement_validate_spec. rewrite movement_state_of_value_value, reason_of_value_value by done.
      by destruct r.
    + rewrite movement_state_of_value_value, reason_of_value_value by done.
      by destruct r.
  - intros d r d' Hl H. unfold MovementRecord_decode in H. repeat dstep H. dfacts. dcanon. b2p.
    repeat match goal with
    | E : EndpointId_parse _ = Ok _ |- _ => apply EndpointId_parse_spec in E as [-> ?]
    | E : Incarnation_make _ _ _ = Ok _ |- _ => apply Incarnation_make_spec in E as [-> ?]
    | u : unit |- _ => destruct u
    end.
    match goal with E : MovementRecord_validate _ = Ok _ |- _ =>
      apply movement_validate_spec in E end.
    repeat match goal with Hd : descriptor_ok _ |- _ => destruct Hd as [? ?] end.
    repeat match goal with Hd : text_ok _ _ |- _ => destruct Hd as [? ?] end.
    simpl in *. unfold in_u in *. split.
    + split_and!; simpl; try done. split; simpl; try done. by apply reason_of_value_wf.
    + unfold MovementRecord_encode; simpl.
      rewrite movement_state_value_of_value, reason_value_of_value by (done || lia). solve_consumed.
Qed.

(** The invariant of a record in memory: as [movement_ok], for any chain bound. *)
Definition movement_inv (r : MovementRecord) : Prop :=
  movement_range r /\ valid_movement r /\ chain_wf (m_provenance r) /\
  Forall event_ok (pc_events (m_provenance r)) /\ is_valid_utf8 (m_last_detail r) = true.

(** The record as a store reload returns it: the chain bound is the structural one. *)
Definition reloaded (r : MovementRecord) : MovementRecord :=
  with_decision r (m_last_reason r) (m_last_detail r)
    (mkChain (pc_events (m_provenance r)) kMaxProvenanceEvents).

Lemma reloaded_encode r : MovementRecord_encode (reloaded r) = MovementRecord_encode r.
Proof. done. Qed.

Lemma reloaded_ok r : movement_inv r -> movement_ok (reloaded r).
Proof.
  intros (Hr & Hv & (Hb & Hl & He) & Hf & Hu). split_and!; try done.
  - destruct Hr. by split.
  - destruct Hv. by split.
  - split; [|done]. change (m_provenance (reloaded r)) with (mkChain (pc_events (m_provenance r)) 256).
    split; [done|]. split; [simpl; lia|done].
Qed.

Lemma movement_ok_inv r : movement_ok r -> movement_inv r.
Proof. intros (? & ? & (? & ? & ?) & ?). done. Qed.

(** *** Effects of the mutators *)

(** Appending a plain event: either it is the last event afterwards or the
    chain is unchanged. *)
Lemma chain_append_plain c kind state gen reason now attempt detail : chain_wf c ->
  let e := plain_event c kind state gen reason now attempt detail in
  let '(c', r) := chain_append_event c e in
  chain_wf c' /\ pc_bound c' = pc_bound c /\
  (r = Ok tt <-> (zlen (pc_events c) < pc_bound c /\ 0 < now /\ gen <> 0 /\ text_ok 1024 detail)) /\
  match r with Ok _ => pc_events c' = pc_events c ++ [e] | Err _ => c' = c end.
Proof.
  intros Hc e. assert (ev_sequence e <> 0) as Hseq by (simpl; unfold next_sequence, zlen; lia).
  assert (ProvenanceEvent_validate e = Ok tt <-> 0 < now /\ gen <> 0 /\ text_ok 1024 detail) as Hv.
  { rewrite event_validate_spec. change (ev_unix_millis e) with now.
    change (ev_movement_generation e) with gen. change (ev_detail e) with detail. tauto. }
  pose proof (chain_append_cases c e Hc) as H.
  destruct (decide (zlen (pc_events c) < pc_bound c)) as [Hlt|Hge].
  - destruct (ProvenanceEvent_validate e) as [[]|s] eqn:Ev.
    + rewrite (chain_append_event_Ok c e Hlt eq_refl Ev) in *. destruct H as (H1 & H2 & _).
      split_and!; try done. tauto.
    + assert (chain_append_event c e = (c, Err s)) as ->.
      { unfold chain_append_event. rewrite (proj2 (Z.leb_gt _ _) Hlt), (proj2 (Z.eqb_neq _ _) Hseq).
        cbn [ev_sequence e plain_event]. rewrite Z.eqb_refl. cbn [negb]. by rewrite Ev. }
      split_and!; try done. split; [done|]. intros (_ & Hx). apply Hv in Hx. congruence.
  - assert (exists s, chain_append_event c e = (c, Err s)) as [s ->].
    { unfold chain_append_event. rewrite (proj2 (Z.leb_le _ _)) by lia. unfold fail. eauto. }
    split_and!; try done. split; [done|]. intros (? & _). lia.
Qed.

Lemma plain_event_ok c kind state gen reason now attempt detail : chain_wf c ->
  in_u 64 gen -> in_i64 now -> reason_wf reason -> id_wf 16 attempt ->
  0 < now -> gen <> 0 -> text_ok 1024 detail ->
  event_ok (plain_event c kind state gen reason now attempt detail).
Proof.
  intros (Hb & Hl & _) Hg Hn Hr Ha Hp Hz Ht. split; simpl; try done.
  - unfold next_sequence, in_u. pose proof (zlen_nonneg (pc_events c)). lia.
  - by left.
  - apply event_validate_spec. simpl. split_and!; try done; [unfold next_sequence, zlen; lia|apply Ht..].
Qed.

Lemma zero_id_wf n : id_wf n (zero_id n).
Proof. apply length_replicate. Qed.

(** The message of an illegal transition is short ASCII text. *)
Lemma check_transition_err s t st : check_transition s t = Err st ->
  text_ok 1024 (st_message st) /\ reason_wf (st_code st) /\
  (st_code st = RC.ALREADY_TERMINAL \/ st_code st = RC.ILLEGAL_TRANSITION).
Proof.
  destruct s, t; intros H; try discriminate H; injection H as <-;
    (split; [split; vm_compute; congruence|split; [done|first [by left|by right]]]).
Qed.

(** Every branch of [apply_transition]. *)
Lemma apply_transition_cases r next dec kind now : movement_inv r ->
  let '(r', st) := apply_transition r next dec kind now in
  match check_transition (m_state r) next with
  | Err e => st = Err e /\ m_state r' = m_state r /\ m_generation r' = m_generation r /\
             m_last_reason r' = st_code e /\ m_last_detail r' = st_message e
  | Ok _ =>
      if decide (m_generation r = u64_max) then r' = r /\ is_ok st = false
      else m_state r' = next /\ m_generation r' = m_generation r + 1 /\
           m_last_reason r' = dec_code dec /\ m_last_detail r' = dec_detail dec /\
           m_updated_unix_millis r' = now /\
           (st = Ok tt <-> zlen (pc_events (m_provenance r)) < pc_bound (m_provenance r) /\
                           0 < now /\ text_ok 1024 (dec_detail dec)) /\
           match st with
           | Ok _ => exists e, pc_events (m_provenance r') = pc_events (m_provenance r) ++ [e] /\
                       ev_state e = next /\ ev_kind e = kind /\
                       ev_movement_generation e = m_generation r'
           | Err _ => m_provenance r' = m_provenance r
           end
  end.
Proof.
  intros (Hr & Hv & Hc & _). unfold apply_transition.
  destruct (check_transition (m_state r) next) as [u|e] eqn:Et; [|done].
  pose proof (Generation_next_spec (m_generation r) (mr_gen r Hr)) as Hg.
  destruct (Generation_next (m_generation r)) as [g|s].
  - destruct Hg as [-> Hg]. destruct (decide (m_generation r = u64_max)) as [E|E];
      [exfalso; unfold in_u, u64_max in *; lia|].
    assert (m_generation r + 1 <> 0) as Hnz by (destruct (mr_gen r Hr); lia).
    pose proof (chain_append_plain (m_provenance r) kind next (m_generation r + 1) (dec_code dec) now
      (zero_id kTransferAttemptIdBytes) (dec_detail dec) Hc) as Ha. cbv zeta in Ha.
    destruct (chain_append_event _ _) as [c' st]. destruct Ha as (_ & _ & Hst & Hevs). simpl.
    split_and!; try done; [rewrite Hst; naive_solver|].
    destruct st; [|done]. eexists. split; [exact Hevs|done].
  - destruct Hg as [Hg _]. by rewrite decide_True.
Qed.

(** [apply_transition] keeps the invariant, whether or not it is refused. *)
Lemma apply_transition_inv r next dec kind now : movement_inv r ->
  reason_wf (dec_code dec) -> text_ok 1024 (dec_detail dec) -> 0 < now -> in_i64 now ->
  (next = MS.COMMITTED -> array_is_zero (m_commit_marker_digest r) = false) ->
  movement_inv (apply_transition r next dec kind now).1.
Proof.
  intros Hinv Hcode Hdet Hnow Hi Hmark. pose proof Hinv as (Hr & Hv & Hc & Hf & Hu).
  unfold apply_transition. destruct (check_transition (m_state r) next) as [u|e] eqn:Et.
  - pose proof (Generation_next_spec (m_generation r) (mr_gen r Hr)) as Hg.
    destruct (Generation_next (m_generation r)) as [g|s]; [|done]. destruct Hg as [-> Hg].
    assert (m_generation r + 1 <> 0) as Hnz by (destruct (mr_gen r Hr); lia).
    pose proof (chain_append_plain (m_provenance r) kind next (m_generation r + 1) (dec_code dec) now
      (zero_id kTransferAttemptIdBytes) (dec_detail dec) Hc) as Ha. cbv zeta in Ha.
    destruct (chain_append_event _ _) as [c' st]. destruct Ha as (Hc' & _ & _ & Hevs). simpl.
    split_and!; simpl; try done; [by destruct Hr; split|destruct Hv; split; simpl; try done| |].
    + apply Hdet.
    + destruct st; rewrite Hevs; [|done]. apply Forall_app. split; [done|].
      constructor; [|constructor]. by apply plain_event_ok; [..|apply zero_id_wf|done|done|done].
    + apply Hdet.
  - apply check_transition_err in Et as (Ht & Hw & _).
    unfold chain_append. pose proof (chain_append_plain (m_provenance r) PK.STALE_REJECTED (m_state r)
      (m_generation r) (st_code e) now (zero_id kTransferAttemptIdBytes) (st_message e) Hc) as Ha.
    cbv zeta in Ha. destruct (chain_append_event _ _) as [c' st].
    destruct Ha as (Hc' & _ & _ & Hevs). simpl.
    split_and!; simpl; try done; [by destruct Hr; split|destruct Hv; split; simpl; try done| |].
    + apply Ht.
    + destruct st; rewrite Hevs; [|done]. apply Forall_app. split; [done|].
      constructor; [|constructor]. destruct Hr, Hv.
      by apply plain_event_ok; [..|apply zero_id_wf|done|done|done].
    + apply Ht.
Qed.

Lemma attempt_detail_text n : 0 <= n -> text_ok 1024 (lit "attempt " ++ std_to_string n).
Proof.
  intros Hn. destruct (std_to_string_text n Hn) as [Hu Hl]. split.
  - rewrite zlen_app. change (zlen (lit "attempt ")) with 8. lia.
  - by apply valid_utf8_app.
Qed.

(** Every branch of [record_attempt_started]. *)
Lemma record_attempt_started_cases r attempt now : movement_inv r ->
  let '(r', st) := record_attempt_started r attempt now in
  if is_terminal (m_state r) || bool_decide (m_generation r = u64_max)
  then r' = r /\ is_ok st = false
  else m_state r' = m_state r /\ m_generation r' = m_generation r + 1 /\ m_attempt r' = attempt /\
       m_attempt_count r' = m_attempt_count r + 1 /\
       (st = Ok tt <-> zlen (pc_events (m_provenance r)) < pc_bound (m_provenance r) /\ 0 < now) /\
       match st with
       | Ok _ => exists e, pc_events (m_provenance r') = pc_events (m_provenance r) ++ [e] /\
                   ev_kind e = PK.ATTEMPT_STARTED /\ ev_attempt e = attempt
       | Err _ => m_provenance r' = m_provenance r
       end.
Proof.
  intros (Hr & Hv & Hc & _). unfold record_attempt_started.
  destruct (is_terminal (m_state r)); [done|]. simpl orb.
  pose proof (Generation_next_spec (m_generation r) (mr_gen r Hr)) as Hg.
  destruct (Generation_next (m_generation r)) as [g|s].
  - destruct Hg as [-> Hg]. rewrite bool_decide_false by (unfold in_u, u64_max in *; lia).
    assert (m_generation r + 1 <> 0) as Hnz by (destruct (mr_gen r Hr); lia).
    pose proof (vm_att r Hv). destruct (mr_acount r Hr) as [Hc0 _].
    rewrite wrap_small by (unfold in_u; lia).
    pose proof (chain_append_plain (m_provenance r) PK.ATTEMPT_STARTED (m_state r)
      (m_generation r + 1) RC.OK now attempt
      (lit "attempt " ++ std_to_string (m_attempt_count r + 1)) Hc) as Ha. cbv zeta in Ha.
    destruct (chain_append_event _ _) as [c' st]. destruct Ha as (_ & _ & Hst & Hevs). simpl.
    pose proof (attempt_detail_text (m_attempt_count r + 1) ltac:(lia)).
    split_and!; try done; [rewrite Hst; tauto|].
    destruct st; [|done]. eexists. split; [exact Hevs|done].
  - destruct Hg as [Hg _]. by rewrite bool_decide_true.
Qed.

Lemma record_attempt_started_inv r attempt now : movement_inv r -> id_wf 16 attempt ->
  0 < now -> in_i64 now -> m_attempt_count r < 64 ->
  movement_inv (record_attempt_started r attempt now).1.
Proof.
  intros Hinv Hatt Hnow Hi Hcount. pose proof Hinv as (Hr & Hv & Hc & Hf & Hu).
  unfold record_attempt_started. destruct (is_terminal (m_state r)); [done|].
  pose proof (Generation_next_spec (m_generation r) (mr_gen r Hr)) as Hg.
  destruct (Generation_next (m_generation r)) as [g|s]; [|done]. destruct Hg as [-> Hg].
  assert (m_generation r + 1 <> 0) as Hnz by (destruct (mr_gen r Hr); lia).
  destruct (mr_acount r Hr) as [Hc0 _]. rewrite wrap_small by (unfold in_u; lia).
  pose proof (chain_append_plain (m_provenance r) PK.ATTEMPT_STARTED (m_state r)
    (m_generation r + 1) RC.OK now attempt
    (lit "attempt " ++ std_to_string (m_attempt_count r + 1)) Hc) as Ha. cbv zeta in Ha.
  destruct (chain_append_event _ _) as [c' st]. destruct Ha as (Hc' & _ & _ & Hevs). simpl.
  split_and!; simpl; try done.
  - destruct Hr; split; simpl; try done. unfold in_u. lia.
  - destruct Hv; split; simpl; try done. lia.
  - destruct st; rewrite Hevs; [|done]. apply Forall_app. split; [done|].
    constructor; [|constructor]. apply plain_event_ok; try done. apply attempt_detail_text. lia.
Qed.

(** ** Properties *)


(** C18: (termination, safety) Every run of the state machine is finite up to
    retries: a run with [k] re-transfers has at most [6 + 2k] steps.  COMMITTED
    can only be the last state of a run, entered from VERIFIED or from
    OUTCOME_UNKNOWN. *)
Theorem runs_terminate_and_commit_once (s : MovementState) (l : list MovementState) :
  run s l ->
  zlen l <= 6 + 2 * retries s l /\
  (forall l1 l2, l = l1 ++ MS.COMMITTED :: l2 ->
     l2 = [] /\ (final s l1 = MS.VERIFIED \/ final s l1 = MS.OUTCOME_UNKNOWN)).
Proof.
  intros H. pose proof (run_length s l H). pose proof (rank_range s). split; [lia|].
  intros l1 l2 ->. by apply run_commit.
Qed.

(** (functional, error) The effect of [apply_transition] on every branch of a
    well-formed record.  An illegal transition leaves state and fencing
    generation alone and reports the legality error; an exhausted generation
    leaves the record alone; otherwise state, reason, detail and time are the
    decision's, the generation advances by exactly one, and on success exactly
    one provenance event with the new state and generation is appended. *)
Theorem apply_transition_effect (r : MovementRecord) (next : MovementState) (d : MovementDecision)
    (kind : ProvenanceEventKind) (now : Z) :
  movement_inv r ->
  let '(r', st) := apply_transition r next d kind now in
  match check_transition (m_state r) next with
  | Err e => st = Err e /\ m_state r' = m_state r /\ m_generation r' = m_generation r /\
             m_last_reason r' = st_code e /\ m_last_detail r' = st_message e
  | Ok _ =>
      if decide (m_generation r = u64_max) then r' = r /\ is_ok st = false
      else m_state r' = next /\ m_generation r' = m_generation r + 1 /\
           m_last_reason r' = dec_code d /\ m_last_detail r' = dec_detail d /\
           m_updated_unix_millis r' = now /\
           (st = Ok tt <-> zlen (pc_events (m_provenance r)) < pc_bound (m_provenance r) /\
                           0 < now /\ text_ok 1024 (dec_detail d)) /\
           match st with
           | Ok _ => exists e, pc_events (m_provenance r') = pc_events (m_provenance r) ++ [e] /\
                       ev_state e = next /\ ev_kind e = kind /\
                       ev_movement_generation e = m_generation r'
           | Err _ => m_provenance r' = m_provenance r
           end
  end.
Proof. apply apply_transition_cases. Qed.


(** (round trip, canonicality) A record that satisfies the invariant is
    restored by decoding its encoding, except for its chain bound, and every
    accepted input is the encoding of a valid record. *)
Theorem movement_record_roundtrip (r : MovementRecord) (input : bytes) :
  (movement_inv r -> zlen (MovementRecord_encode r) <= max_input_bytes default_limits ->
   decode_all default_limits MovementRecord_decode (MovementRecord_encode r) = Ok (reloaded r)) /\
  (zlen input <= max_input_bytes default_limits ->
   decode_all default_limits MovementRecord_decode input = Ok r ->
   input = MovementRecord_encode r /\ MovementRecord_validate r = Ok tt /\ movement_inv r).
Proof.
  split.
  - intros Hr Hl. rewrite <- reloaded_encode in *.
    apply (decode_all_encode _ _ _ movement_ok); [by apply reloaded_ok|done].
  - intros Hl H. apply (decode_all_canonical _ _ _ movement_ok) in H as [Hok ->]; [|done].
    pose proof (movement_ok_inv r Hok) as Hinv. split_and!; try apply Hinv; [done|].
    apply movement_validate_spec, Hinv.
Qed.

(** (functional) The source's current announcement lets a movement proceed
    exactly when it names the same object with the same content at a generation
    no later than the authorized one; a later generation supersedes. *)
Theorem supersession_decision (r : MovementRecord) (cur : StateObjectDescriptor) :
  (dec_allowed (evaluate_supersession r cur) = true <->
     d_object_id cur = d_object_id (m_object r) /\
     d_generation cur <= d_generation (m_object r) /\
     d_content_digest cur = d_content_digest (m_object r)) /\
  (dec_code (evaluate_supersession r cur) = RC.MOVEMENT_SUPERSEDED <->
     d_object_id cur = d_object_id (m_object r) /\
     d_generation (m_object r) < d_generation cur).
Proof.
  unfold evaluate_supersession, same_object.
  destruct (bytes_eqb (d_object_id cur) _) eqn:E1; b2p; simpl; [|split; split; [done|tauto|done|tauto]].
  destruct (Z.ltb_spec (d_generation (m_object r)) (d_generation cur)) as [Hlt|Hge]; simpl.
  { split; split; [done|lia|done|done]. }
  destruct (bytes_eqb (d_content_digest cur) _) eqn:E2; b2p; simpl; split; split; try done; lia || tauto.
Qed.

(** (error) When the provenance chain is full, a legal transition reports
    HISTORY_LIMIT_REACHED although the state and the fencing generation of the
    record have already changed: the error does not mean nothing happened. *)
Theorem full_history_error_still_transitions (r : MovementRecord) (next : MovementState)
    (d : MovementDecision) (kind : ProvenanceEventKind) (now : Z) :
  movement_inv r -> check_transition (m_state r) next = Ok tt -> m_generation r <> u64_max ->
  zlen (pc_events (m_provenance r)) = pc_bound (m_provenance r) ->
  let '(r', st) := apply_transition r next d kind now in
  st = fail RC.HISTORY_LIMIT_REACHED
         "provenance bound reached; the movement's history is already complete" /\
  m_state r' = next /\ m_generation r' = m_generation r + 1 /\
  m_provenance r' = m_provenance r.
Proof.
  intros (Hr & _) Hc Hg Hl. unfold apply_transition. rewrite Hc.
  pose proof (Generation_next_spec (m_generation r) (mr_gen r Hr)) as Hn.
  destruct (Generation_next (m_generation r)) as [g|s]; [|tauto]. destruct Hn as [-> _].
  unfold chain_append_event. rewrite Hl, Z.leb_refl. done.
Qed.

(** *** Witnesses *)

Definition demo_incarnation (e : bytes) : Incarnation := mkIncarnation e (replicate 16 x07) 3.

Definition demo_movement (state : MovementState) (detail : bytes) (chain : ProvenanceChain)
    : MovementRecord :=
  mkMovement (replicate 16 x01) 5 demo_descriptor (lit "alpha") (lit "beta")
    (demo_incarnation (lit "alpha")) (demo_incarnation (lit "beta")) 1 zero_digest 2 1 state RC.OK
    detail (zero_id 16) 0 0 0 zero_digest zero_digest zero_digest 1767225600000 1767225600000 true
    false chain.

Definition demo_planned : MovementRecord := demo_movement MS.PLANNED (lit "planned") demo_chain.

Lemma demo_movement_inv s c : s <> MS.COMMITTED -> chain_wf c -> Forall event_ok (pc_events c) ->
  movement_inv (demo_movement s (lit "planned") c).
Proof.
  intros Hs Hc Hf. by split_and!.
Qed.

Lemma demo_planned_inv : movement_inv demo_planned.
Proof.
  apply demo_movement_inv; [done|apply demo_chain_wf|].
  constructor; [apply demo_event_ok|constructor].
Qed.


Lemma runs_terminate_and_commit_once_witness :
  zlen [MS.AUTHORIZED; MS.TRANSFERRING; MS.BYTES_ARRIVED; MS.VERIFIED; MS.COMMITTED] <= 6 + 2 * 0.
Proof.
  refine (proj1 (runs_terminate_and_commit_once MS.PLANNED
    [MS.AUTHORIZED; MS.TRANSFERRING; MS.BYTES_ARRIVED; MS.VERIFIED; MS.COMMITTED] _)).
  repeat (constructor; [reflexivity|]). constructor.
Defined.

Lemma apply_transition_effect_witness :
  m_generation (apply_transition demo_planned MS.AUTHORIZED decision_allow PK.AUTHORIZED 9).1 = 6.
Proof.
  pose proof (apply_transition_effect demo_planned MS.AUTHORIZED decision_allow PK.AUTHORIZED 9
                demo_planned_inv) as H.
  destruct (apply_transition demo_planned MS.AUTHORIZED decision_allow PK.AUTHORIZED 9) as [r' st].
  apply H.
Defined.


Lemma movement_record_roundtrip_witness :
  decode_all default_limits MovementRecord_decode (MovementRecord_encode demo_planned) =
  Ok (reloaded demo_planned).
Proof.
  exact (proj1 (movement_record_roundtrip demo_planned []) demo_planned_inv
           ltac:(vm_compute; congruence)).
Defined.

Definition demo_full : MovementRecord :=
  demo_movement MS.PLANNED (lit "planned") (mkChain [demo_event] 1).

Lemma full_history_error_still_transitions_witness :
  m_state (apply_transition demo_full MS.AUTHORIZED decision_allow PK.AUTHORIZED 9).1 = MS.AUTHORIZED.
Proof.
  assert (movement_inv demo_full) as Hi.
  { apply demo_movement_inv; [done| |constructor; [apply demo_event_ok|constructor]].
    split_and!; try (vm_compute; congruence). intros [|i] e H; [|discriminate H]. by injection H as <-. }
  pose proof (full_history_error_still_transitions demo_full MS.AUTHORIZED decision_allow
    PK.AUTHORIZED 9 Hi eq_refl ltac:(vm_compute; congruence) eq_refl) as H.
  destruct (apply_transition demo_full MS.AUTHORIZED decision_allow PK.AUTHORIZED 9) as [r' st].
  apply H.
Defined.

(** (error) [validate] bounds the length of the detail but not its encoding,
    while the decoder requires UTF-8: there is a record that validates and
    encodes to bytes its own decoder refuses. *)
Theorem validated_record_may_not_decode :
  exists r, MovementRecord_validate r = Ok tt /\ movement_range r /\ chain_ok (m_provenance r) /\
    decode_all default_limits MovementRecord_decode (MovementRecord_encode r) =
    fail RC.INVALID_UTF8 "text field is not valid UTF-8".
Proof.
  exists (demo_movement MS.PLANNED [xff] empty_chain). split; [|split; [|split]].
  - vm_compute. reflexivity.
  - by split.
  - split; [apply empty_chain_wf|]. split; [done|constructor].
  - vm_compute. reflexivity.
Qed.
