(* ===== verification/MovementStore.v ===== *)
(** * The durable movement store (src/src/movement_store.cpp)

    An append-only log of checksummed records and the index rebuilt from it.
    The log file is its bytes; a write at the append offset overwrites in place
    and never shortens the file, as [fseek]/[fwrite] do.  A fault plan says
    which append fails and how many of its bytes reached the file, so partial
    writes are part of the model.  Reads, directory creation and the lock file
    are assumed to succeed here: they change no state of the store ([Durable] has
    the lock and the file layer beneath the append).

    Proved: re-opening the log after any sequence of successful operations
    restores the index (up to the chain bound, which is not stored); a log cut
    anywhere after its file header recovers the records wholly before the cut;
    retention only drops terminal movements; listing is newest first; and a
    failed append followed by a shorter one leaves a log that cannot be opened. *)
From S2P Require Import Prelude Status Bytes Digest Codec Ids StateObject Provenance Movement.

(** ** On-disk layout *)

Definition kFileMagic : bytes := lit "SMFMST01".
Definition kRecordMagic : bytes := lit "SMFR".
Definition kFileHeaderBytes : Z := 96.
Definition kRecordHeaderBytes : Z := 56.
Definition kRecordMovement : Z := 1.
Definition kRecordCoordinatorState : Z := 2.
Definition kRecordRetire : Z := 3.
Definition kMovementStoreFormatVersion : Z := 1.

(** [record_checksum]: the hasher fed the first 24 header bytes, then the payload. *)
Definition record_checksum (header_prefix payload : bytes) : Digest :=
  Sha256_finalize (Sha256_update (Sha256_update Sha256_reset header_prefix) payload).

(** The header [open] and [compact] write: 64 bytes and their digest. *)
Definition file_header_prefix : bytes :=
  kFileMagic ++ store_le kMovementStoreFormatVersion 2 ++ replicate 2 x00 ++
  store_le kFileHeaderBytes 4 ++ replicate 48 x00.
Definition file_header : bytes := file_header_prefix ++ sha256 file_header_prefix.

(** The first 24 bytes of a record header. *)
Definition record_prefix (type sequence payload_length : Z) : bytes :=
  kRecordMagic ++ [bz kMovementStoreFormatVersion] ++ [bz type] ++ replicate 2 x00 ++
  store_le sequence 8 ++ store_le payload_length 4 ++ replicate 4 x00.

(** A whole record: header with checksum, payload. *)
Definition record_frame (type sequence : Z) (payload : bytes) : bytes :=
  let prefix := record_prefix type sequence (zlen payload) in
  prefix ++ record_checksum prefix payload ++ payload.

(** ** Coordinator state *)

Record CoordinatorPersistentState := mkPersistent {
  cp_epoch : Z;
  cp_policy_generation : Z;
  cp_compatibility_generation : Z;
  cp_topology_generation : Z;
  cp_policy_digest : Digest;
  cp_last_saved_unix_millis : Z }.

Definition CoordinatorPersistentState_encode (c : CoordinatorPersistentState) : bytes :=
  enc_u64 (cp_epoch c) ++ enc_u64 (cp_policy_generation c) ++
  enc_u64 (cp_compatibility_generation c) ++ enc_u64 (cp_topology_generation c) ++
  enc_digest (cp_policy_digest c) ++ enc_i64 (cp_last_saved_unix_millis c).

Definition CoordinatorPersistentState_decode : Dec CoordinatorPersistentState :=
  let? epoch := dec_u64 in
  let? policy := dec_u64 in
  let? compatibility := dec_u64 in
  let? topology := dec_u64 in
  let? digest := dec_digest in
  let? saved := dec_i64 in
  dreject (negb (is_set epoch)) RC.STORE_RECORD_INVALID
    "persisted coordinator epoch must be non-zero" ;?
  dret (mkPersistent epoch policy compatibility topology digest saved).

(** ** The store *)

Record MovementStoreOptions := mkStoreOptions {
  so_directory : bytes;
  so_max_record_bytes : Z;
  so_max_store_bytes : Z;
  so_max_history_records : Z;
  so_retention_completed : Z;
  so_sync_on_write : bool;
  so_exclusive_lock : bool }.

Record StoreRecoveryReport := mkReport {
  rp_created : bool;
  rp_partial_tail_truncated : bool;
  rp_truncated_bytes : Z;
  rp_records_read : Z;
  rp_records_applied : Z;
  rp_movements_loaded : Z;
  rp_retired_loaded : Z }.

Record MovementStoreStats := mkStats {
  ss_records_appended : Z;
  ss_records_read : Z;
  ss_index_lookup_steps : Z;
  ss_compactions : Z;
  ss_retired_total : Z;
  ss_bytes_written : Z;
  ss_bytes_on_disk : Z;
  ss_live_movements : Z }.

Definition zero_stats : MovementStoreStats := mkStats 0 0 0 0 0 0 0 0.

(** [ms_file] is the log on disk, [ms_open] whether [file_] holds an open handle. *)
Record MovementStore := mkStore {
  ms_options : MovementStoreOptions;
  ms_file : bytes;
  ms_open : bool;
  ms_append_offset : Z;
  ms_next_sequence : Z;
  ms_records : gmap bytes MovementRecord;
  ms_order : list bytes;
  ms_coordinator_state : option CoordinatorPersistentState;
  ms_stats : MovementStoreStats }.

Definition with_index (s : MovementStore) (records : gmap bytes MovementRecord) (order : list bytes)
    (state : option CoordinatorPersistentState) (stats : MovementStoreStats) : MovementStore :=
  mkStore (ms_options s) (ms_file s) (ms_open s) (ms_append_offset s) (ms_next_sequence s) records
    order state stats.

Definition with_log (s : MovementStore) (file : bytes) (is_open : bool) (append_offset next_sequence : Z)
    (stats : MovementStoreStats) : MovementStore :=
  mkStore (ms_options s) file is_open append_offset next_sequence (ms_records s) (ms_order s)
    (ms_coordinator_state s) stats.

Definition map_size (m : gmap bytes MovementRecord) : Z := Z.of_nat (size m).

Definition stats_live (st : MovementStoreStats) (live : Z) : MovementStoreStats :=
  mkStats (ss_records_appended st) (ss_records_read st) (ss_index_lookup_steps st) (ss_compactions st)
    (ss_retired_total st) (ss_bytes_written st) (ss_bytes_on_disk st) live.
Definition stats_retired (st : MovementStoreStats) : MovementStoreStats :=
  mkStats (ss_records_appended st) (ss_records_read st) (ss_index_lookup_steps st) (ss_compactions st)
    (wrap 64 (ss_retired_total st + 1)) (ss_bytes_written st) (ss_bytes_on_disk st)
    (ss_live_movements st).
Definition stats_lookup (st : MovementStoreStats) : MovementStoreStats :=
  mkStats (ss_records_appended st) (ss_records_read st) (wrap 64 (ss_index_lookup_steps st + 1))
    (ss_compactions st) (ss_retired_total st) (ss_bytes_written st) (ss_bytes_on_disk st)
    (ss_live_movements st).
Definition stats_disk (st : MovementStoreStats) (on_disk : Z) : MovementStoreStats :=
  mkStats (ss_records_appended st) (ss_records_read st) (ss_index_lookup_steps st) (ss_compactions st)
    (ss_retired_total st) (ss_bytes_written st) on_disk (ss_live_movements st).

(** [order_.erase(std::remove(...))] *)
Definition order_remove (id : bytes) (order : list bytes) : list bytes :=
  List.filter (fun x => negb (bytes_eqb x id)) order.

(** [records_.insert_or_assign] with the order list. *)
Definition index_put (s : MovementStore) (r : MovementRecord) : MovementStore :=
  let order := if bool_decide (ms_records s !! m_id r = None)
               then ms_order s ++ [m_id r] else ms_order s in
  let records := <[m_id r := r]> (ms_records s) in
  with_index s records order (ms_coordinator_state s)
    (stats_live (ms_stats s) (map_size records)).

(** [records_.erase] with the order list. *)
Definition index_retire (s : MovementStore) (id : bytes) : MovementStore :=
  with_index s (delete id (ms_records s)) (order_remove id (ms_order s)) (ms_coordinator_state s)
    (stats_live (stats_retired (ms_stats s)) (map_size (delete id (ms_records s)))).

Definition store_limits (options : MovementStoreOptions) : DecodeLimits :=
  mkLimits (so_max_record_bytes options) kMaxTextBytes
    (wrap 32 (so_max_record_bytes options + 2 ^ 16)).

Definition apply_record (s : MovementStore) (type : Z) (payload : bytes) : Result MovementStore :=
  let lim := store_limits (ms_options s) in
  if type =? kRecordMovement then
    let! record := decode_all lim MovementRecord_decode payload in
    Ok (index_put s record)
  else if type =? kRecordCoordinatorState then
    let! state := decode_all lim CoordinatorPersistentState_decode payload in
    Ok (with_index s (ms_records s) (ms_order s) (Some state) (ms_stats s))
  else if type =? kRecordRetire then
    let! id := decode_all lim (FixedId_decode kMovementIdBytes) payload in
    Ok (if bool_decide (ms_records s !! id = None) then s else index_retire s id)
  else fail RC.STORE_RECORD_INVALID "store record type is not recognized".

(** ** Opening and recovery *)

Definition report_torn (rp : StoreRecoveryReport) (nbytes : Z) : StoreRecoveryReport :=
  mkReport (rp_created rp) true nbytes (rp_records_read rp) (rp_records_applied rp)
    (rp_movements_loaded rp) (rp_retired_loaded rp).
Definition report_applied (rp : StoreRecoveryReport) : StoreRecoveryReport :=
  mkReport (rp_created rp) (rp_partial_tail_truncated rp) (rp_truncated_bytes rp)
    (rp_records_read rp + 1) (rp_records_applied rp + 1) (rp_movements_loaded rp) (rp_retired_loaded rp).
Definition report_loaded (rp : StoreRecoveryReport) (movements retired : Z) : StoreRecoveryReport :=
  mkReport (rp_created rp) (rp_partial_tail_truncated rp) (rp_truncated_bytes rp) (rp_records_read rp)
    (rp_records_applied rp) movements retired.

(** [load_le(header.data() + at, width)] *)
Definition field_le (header : bytes) (at_ width : nat) : Z := load_le (take width (drop at_ header)).

(** The recovery loop.  [rest] is the file from [offset] on; every turn that
    continues consumes at least a record header, so the file length is fuel
    enough. *)
Fixpoint recover_loop (fuel : nat) (s : MovementStore) (file_size offset sequence : Z) (rest : bytes)
    (rp : StoreRecoveryReport) : Result (MovementStore * Z * Z * StoreRecoveryReport) :=
  match fuel with
  | O => Ok (s, offset, sequence, rp)
  | S f =>
      if file_size <=? offset then Ok (s, offset, sequence, rp)
      else
        let header := take (Z.to_nat kRecordHeaderBytes) rest in
        if negb (zlen header =? kRecordHeaderBytes)
        then Ok (s, offset, sequence, report_torn rp (file_size - offset))
        else if negb (bytes_eqb (take 4 header) kRecordMagic)
        then fail RC.STORE_CORRUPT "store record magic does not match"
        else if negb (field_le header 4 1 =? kMovementStoreFormatVersion)
        then fail RC.STORE_VERSION_UNSUPPORTED "store record version is not supported"
        else if negb (field_le header 6 2 =? 0) || negb (field_le header 20 4 =? 0)
        then fail RC.STORE_RECORD_INVALID "store record reserved fields are non-zero"
        else
          let payload_length := field_le header 16 4 in
          if so_max_record_bytes (ms_options s) <? payload_length
          then fail RC.STORE_OVERSIZED "store record declares an oversized payload"
          else if file_size - offset - kRecordHeaderBytes <? payload_length
          then Ok (s, offset, sequence, report_torn rp (file_size - offset))
          else
            let payload := take (Z.to_nat payload_length) (drop (Z.to_nat kRecordHeaderBytes) rest) in
            if negb (zlen payload =? payload_length)
            then Ok (s, offset, sequence, report_torn rp (file_size - offset))
            else
              let expected := record_checksum (take 24 header) payload in
              let next_offset := offset + kRecordHeaderBytes + payload_length in
              if negb (constant_time_equal expected (drop 24 header))
              then if file_size <=? next_offset
                   then Ok (s, offset, sequence, report_torn rp (file_size - offset))
                   else fail RC.STORE_CHECKSUM_MISMATCH "store record checksum mismatch"
              else
                let record_sequence := field_le header 8 8 in
                if record_sequence <=? sequence
                then fail RC.STORE_RECORD_INVALID "store record sequence is not strictly increasing"
                else
                  let! s' := apply_record s (field_le header 5 1) payload in
                  recover_loop f s' file_size next_offset record_sequence
                    (drop (Z.to_nat (kRecordHeaderBytes + payload_length)) rest) (report_applied rp)
  end.

(** The checks on the file header of an existing log. *)
Definition check_file_header (file : bytes) : Result unit :=
  let header := take (Z.to_nat kFileHeaderBytes) file in
  if negb (zlen header =? kFileHeaderBytes)
  then fail RC.STORE_TRUNCATED "store file header is incomplete"
  else if negb (bytes_eqb (take 8 header) kFileMagic)
  then fail RC.STORE_CORRUPT "store file magic does not match"
  else if negb (field_le header 8 2 =? kMovementStoreFormatVersion)
  then fail RC.STORE_VERSION_UNSUPPORTED "store file format version is not supported"
  else if negb (field_le header 12 4 =? kFileHeaderBytes)
  then fail RC.STORE_CORRUPT "store file header size is not recognised"
  else if negb (constant_time_equal (sha256 (take 64 header)) (drop 64 header))
  then fail RC.STORE_CHECKSUM_MISMATCH "store file header checksum mismatch"
  else Ok tt.

(** [open] on the contents of the log, empty when there is no file. *)
Definition MovementStore_open (options : MovementStoreOptions) (existing : bytes)
    : Result (MovementStore * StoreRecoveryReport) :=
  if bytes_eqb (so_directory options) []
  then fail RC.INVALID_ARGUMENT "store directory must not be empty"
  else if (so_max_record_bytes options =? 0) || (64 * 2 ^ 20 <? so_max_record_bytes options)
  then fail RC.INVALID_ARGUMENT "max_record_bytes is outside the supported range"
  else if so_max_history_records options =? 0
  then fail RC.INVALID_ARGUMENT "max_history_records must be non-zero"
  else
    let created := zlen existing =? 0 in
    let file := if created then file_header else existing in
    (if created then Ok tt else check_file_header file) ;!
    let s0 := mkStore options file true 0 1 ∅ [] None zero_stats in
    let! (s, offset, sequence, rp) :=
      recover_loop (length file) s0 (zlen file) kFileHeaderBytes 0
        (drop (Z.to_nat kFileHeaderBytes) file) (mkReport created false 0 0 0 0 0) in
    let file := if rp_partial_tail_truncated rp then take (Z.to_nat offset) file else file in
    let rp := report_loaded rp (map_size (ms_records s)) (ss_retired_total (ms_stats s)) in
    let st := ms_stats s in
    let stats := mkStats (ss_records_appended st) (rp_records_read rp) (ss_index_lookup_steps st)
                   (ss_compactions st) (ss_retired_total st) (ss_bytes_written st) offset
                   (map_size (ms_records s)) in
    Ok (with_log s file true offset (wrap 64 (sequence + 1)) stats, rp).

(** ** Appending *)

(** A failed write or sync: how much of the record reached the file, and the
    status the file layer reported. *)
Record IoFault := mkFault { fault_bytes : nat; fault_status : Status }.
(** Which append fails, by the sequence number it uses. *)
Definition IoPlan : Type := Z -> option IoFault.
Definition no_faults : IoPlan := fun _ => None.

(** [seek] and [write]: overwrite in place, extending the file if needed. *)
Definition write_at (file : bytes) (offset : nat) (data : bytes) : bytes :=
  take offset file ++ data ++ drop (offset + length data) file.

Definition append_record (io : IoPlan) (s : MovementStore) (type : Z) (payload : bytes)
    : MovementStore * Result unit :=
  if negb (ms_open s) then (s, fail RC.STORE_IO_ERROR "store file is not open")
  else if so_max_record_bytes (ms_options s) <? zlen payload
  then (s, fail RC.STORE_OVERSIZED "record payload exceeds the configured maximum")
  else
    let sequence := ms_next_sequence s in
    let frame := record_frame type sequence payload in
    let next := wrap 64 (sequence + 1) in
    let at_ := Z.to_nat (ms_append_offset s) in
    match io sequence with
    | Some fault =>
        (with_log s (write_at (ms_file s) at_ (take (fault_bytes fault) frame)) true
           (ms_append_offset s) next (ms_stats s), Err (fault_status fault))
    | None =>
        let offset := ms_append_offset s + kRecordHeaderBytes + zlen payload in
        let st := ms_stats s in
        let stats := mkStats (ss_records_appended st + 1) (ss_records_read st)
                       (ss_index_lookup_steps st) (ss_compactions st) (ss_retired_total st)
                       (ss_bytes_written st + kRecordHeaderBytes + zlen payload) offset
                       (ss_live_movements st) in
        (with_log s (write_at (ms_file s) at_ frame) true offset next stats, Ok tt)
    end.

(** ** Retention *)

(** The victims: terminal movements, oldest first, at most [to_retire]. *)
Fixpoint retention_victims (records : gmap bytes MovementRecord) (order : list bytes) (to_retire : nat)
    : list bytes :=
  match order, to_retire with
  | [], _ | _, O => []
  | id :: rest, S n =>
      match records !! id with
      | Some r => if is_terminal (m_state r) then id :: retention_victims records rest n
                  else retention_victims records rest to_retire
      | None => retention_victims records rest to_retire
      end
  end.

Definition index_erase (s : MovementStore) (id : bytes) : MovementStore :=
  with_index s (delete id (ms_records s)) (order_remove id (ms_order s)) (ms_coordinator_state s)
    (stats_retired (ms_stats s)).

Fixpoint retire_victims (io : IoPlan) (s : MovementStore) (victims : list bytes)
    : MovementStore * Result unit :=
  match victims with
  | [] => (with_index s (ms_records s) (ms_order s) (ms_coordinator_state s)
             (stats_disk (stats_live (ms_stats s) (map_size (ms_records s))) (ms_append_offset s)), Ok tt)
  | id :: rest =>
      match append_record io s kRecordRetire (FixedId_encode id) with
      | (s1, Err e) => (s1, Err e)
      | (s1, Ok _) => retire_victims io (index_erase s1 id) rest
      end
  end.

Definition enforce_retention (io : IoPlan) (s : MovementStore) : MovementStore * Result unit :=
  let n := map_size (ms_records s) in
  if so_retention_completed (ms_options s) =? 0 then (s, Ok tt)
  else if n <=? so_retention_completed (ms_options s) then (s, Ok tt)
  else if n <=? so_max_history_records (ms_options s) then (s, Ok tt)
  else retire_victims io s
         (retention_victims (ms_records s) (ms_order s)
            (Z.to_nat (n - so_retention_completed (ms_options s)))).

(** ** Public operations *)

Definition store_put (io : IoPlan) (s : MovementStore) (r : MovementRecord)
    : MovementStore * Result unit :=
  match MovementRecord_validate r with
  | Err e => (s, Err e)
  | Ok _ =>
      match append_record io s kRecordMovement (MovementRecord_encode r) with
      | (s1, Err e) => (s1, Err e)
      | (s1, Ok _) =>
          match enforce_retention io (index_put s1 r) with
          | (s3, Err e) => (s3, Err e)
          | (s3, Ok _) =>
              (with_index s3 (ms_records s3) (ms_order s3) (ms_coordinator_state s3)
                 (stats_disk (ms_stats s3) (ms_append_offset s3)), Ok tt)
          end
      end
  end.

Definition store_retire (io : IoPlan) (s : MovementStore) (id : bytes) : MovementStore * Result unit :=
  if bool_decide (ms_records s !! id = None)
  then (s, fail RC.MOVEMENT_NOT_FOUND "movement is not present in the store")
  else match append_record io s kRecordRetire (FixedId_encode id) with
       | (s1, Err e) => (s1, Err e)
       | (s1, Ok _) => (index_retire s1 id, Ok tt)
       end.

Definition store_get (s : MovementStore) (id : bytes) : MovementStore * Result MovementRecord :=
  (with_index s (ms_records s) (ms_order s) (ms_coordinator_state s) (stats_lookup (ms_stats s)),
   match ms_records s !! id with
   | Some r => Ok r
   | None => fail RC.MOVEMENT_NOT_FOUND "movement is not present in the store"
   end).

Definition store_contains (s : MovementStore) (id : bytes) : MovementStore * bool :=
  (with_index s (ms_records s) (ms_order s) (ms_coordinator_state s) (stats_lookup (ms_stats s)),
   negb (bool_decide (ms_records s !! id = None))).

Definition store_size (s : MovementStore) : Z := map_size (ms_records s).

(** The index loop of [list], [i] ascending. *)
Fixpoint list_loop (s : MovementStore) (offset i count : nat) : list MovementRecord :=
  match count with
  | O => []
  | S c =>
      let id := nth (length (ms_order s) - 1 - offset - i) (ms_order s) [] in
      match ms_records s !! id with
      | Some r => r :: list_loop s offset (S i) c
      | None => list_loop s offset (S i) c
      end
  end.

Definition store_list (s : MovementStore) (limit offset : Z) : list MovementRecord :=
  if zlen (ms_order s) <=? offset then []
  else
    let available := zlen (ms_order s) - offset in
    let take_ := Z.min available limit in
    list_loop s (Z.to_nat offset) 0 (Z.to_nat take_).

Definition save_coordinator_state (io : IoPlan) (s : MovementStore) (state : CoordinatorPersistentState)
    : MovementStore * Result unit :=
  match append_record io s kRecordCoordinatorState (CoordinatorPersistentState_encode state) with
  | (s1, Err e) => (s1, Err e)
  | (s1, Ok _) => (with_index s1 (ms_records s1) (ms_order s1) (Some state) (ms_stats s1), Ok tt)
  end.

Definition load_coordinator_state (s : MovementStore) : Result CoordinatorPersistentState :=
  match ms_coordinator_state s with
  | Some c => Ok c
  | None => fail RC.NOT_FOUND "no coordinator state has been persisted yet"
  end.

(** ** Compaction *)

(** How far the replacement of the log gets. *)
Inductive CompactIo : Type :=
  | CompactDone
  | CompactWriteFails (s : Status)
  | CompactReplaceFails
  | CompactReopenFails (s : Status).

(** [write_record] over a list of records: sequences count from [sequence + 1]. *)
Fixpoint compact_frames (sequence : Z) (records : list (Z * bytes)) : bytes :=
  match records with
  | [] => []
  | (type, payload) :: rest =>
      record_frame type (sequence + 1) payload ++ compact_frames (sequence + 1) rest
  end.

(** What is rewritten: the live records in order, then the coordinator state. *)
Definition compact_records (s : MovementStore) : list (Z * bytes) :=
  flat_map (fun id => match ms_records s !! id with
                      | Some r => [(kRecordMovement, MovementRecord_encode r)]
                      | None => []
                      end) (ms_order s) ++
  match ms_coordinator_state s with
  | Some c => [(kRecordCoordinatorState, CoordinatorPersistentState_encode c)]
  | None => []
  end.

Definition compact (io : CompactIo) (s : MovementStore) : MovementStore * Result unit :=
  let fresh := file_header ++ compact_frames 0 (compact_records s) in
  match io with
  | CompactWriteFails e => (s, Err e)
  | CompactReplaceFails =>
      (with_log s (ms_file s) false (ms_append_offset s) (ms_next_sequence s) (ms_stats s),
       fail RC.STORE_IO_ERROR "atomic store replacement failed")
  | CompactReopenFails e =>
      (with_log s fresh false (ms_append_offset s) (ms_next_sequence s) (ms_stats s), Err e)
  | CompactDone =>
      let st := ms_stats s in
      let stats := mkStats (ss_records_appended st) (ss_records_read st) (ss_index_lookup_steps st)
                     (ss_compactions st + 1) (ss_retired_total st) (ss_bytes_written st) (zlen fresh)
                     (ss_live_movements st) in
      (with_log s fresh true (zlen fresh) (ms_next_sequence s) stats, Ok tt)
  end.

(** ** The log as a list of records *)

(** A record of the log: type, sequence, payload. *)
Definition LogRecord : Type := Z * Z * bytes.
Definition frame_of (r : LogRecord) : bytes := record_frame r.1.1 r.1.2 r.2.
Definition log_frames (recs : list LogRecord) : bytes := concat (map frame_of recs).

(** Records the writer produces: strictly increasing sequences above [seq]. *)
Fixpoint log_ok (options : MovementStoreOptions) (seq : Z) (recs : list LogRecord) : Prop :=
  match recs with
  | [] => True
  | r :: rest => seq < r.1.2 < 2 ^ 64 /\ in_u 8 r.1.1 /\ zlen r.2 <= so_max_record_bytes options /\
                 log_ok options r.1.2 rest
  end.

Fixpoint last_seq (seq : Z) (recs : list LogRecord) : Z :=
  match recs with [] => seq | r :: rest => last_seq r.1.2 rest end.

(** The meaning of a log: its records applied in order. *)
Fixpoint replay (s : MovementStore) (recs : list LogRecord) : Result MovementStore :=
  match recs with
  | [] => Ok s
  | r :: rest => let! s' := apply_record s r.1.1 r.2 in replay s' rest
  end.

Lemma record_checksum_sha prefix payload : record_checksum prefix payload = sha256 (prefix ++ payload).
Proof.
  unfold record_checksum. pose proof (streaming_sha256 [prefix; payload]) as H.
  cbn [fold_left concat] in H. by rewrite app_nil_r in H.
Qed.

Lemma length_record_prefix t q l : length (record_prefix t q l) = 24%nat.
Proof. done. Qed.

Lemma length_frame r : length (frame_of r) = (56 + length r.2)%nat.
Proof.
  unfold frame_of, record_frame. rewrite record_checksum_sha, !length_app, length_sha256. simpl. lia.
Qed.

Lemma zlen_frame r : zlen (frame_of r) = 56 + zlen r.2.
Proof. unfold zlen. rewrite length_frame. lia. Qed.

Lemma log_frames_app a b : log_frames (a ++ b) = log_frames a ++ log_frames b.
Proof. unfold log_frames. by rewrite map_app, concat_app. Qed.

Lemma log_ok_app o a : forall seq b,
  log_ok o seq (a ++ b) <-> log_ok o seq a /\ log_ok o (last_seq seq a) b.
Proof. induction a as [|r a IH]; intros seq b; simpl; [tauto|]. rewrite IH. tauto. Qed.

Lemma last_seq_app a : forall seq b, last_seq seq (a ++ b) = last_seq (last_seq seq a) b.
Proof. induction a as [|r a IH]; intros seq b; simpl; [done|apply IH]. Qed.

Lemma last_seq_ge o recs : forall seq, log_ok o seq recs -> seq + zlen recs <= last_seq seq recs.
Proof.
  induction recs as [|r recs IH]; intros seq H; simpl; [unfold zlen; simpl; lia|].
  destruct H as (Hq & _ & _ & H). specialize (IH _ H). unfold zlen in *. simpl length. lia.
Qed.

Lemma replay_app a : forall s b, replay s (a ++ b) = rbind (replay s a) (fun s' => replay s' b).
Proof.
  induction a as [|r a IH]; intros s b; simpl; [done|].
  destruct (apply_record s r.1.1 r.2); simpl; [apply IH|done].
Qed.

Lemma apply_record_options s t p s' : apply_record s t p = Ok s' -> ms_options s' = ms_options s.
Proof.
  unfold apply_record. intros H. split_ifs H; apply rbind_Ok in H as (x & _ & H); injection H as <-;
    [done|done|]. by destruct (bool_decide _).
Qed.

Lemma replay_options recs : forall s s', replay s recs = Ok s' -> ms_options s' = ms_options s.
Proof.
  induction recs as [|r recs IH]; intros s s' H; simpl in H; [by injection H as ->|].
  apply rbind_Ok in H as (s1 & Ha & H). rewrite (IH _ _ H). by eapply apply_record_options.
Qed.

(** *** Reading one record back *)

Section header.
Context (t q l : Z) (ck : bytes).
Let header := record_prefix t q l ++ ck.

Lemma header_magic : take 4 header = kRecordMagic.
Proof. done. Qed.
Lemma header_version : field_le header 4 1 = kMovementStoreFormatVersion.
Proof. done. Qed.
Lemma header_reserved1 : field_le header 6 2 = 0.
Proof. done. Qed.
Lemma header_reserved2 : field_le header 20 4 = 0.
Proof. done. Qed.
Lemma header_type : in_u 8 t -> field_le header 5 1 = t.
Proof.
  intros Ht. change (field_le header 5 1) with (load_le [bz t]). rewrite load_le_cons, zb_bz_small by done.
  change (load_le []) with 0. lia.
Qed.
Lemma header_sequence : in_u 64 q -> field_le header 8 8 = q.
Proof.
  intros Hq. change (field_le header 8 8) with (load_le (store_le q 8)).
  rewrite load_store_le. by apply Z.mod_small.
Qed.
Lemma header_length : in_u 32 l -> field_le header 16 4 = l.
Proof.
  intros Hq. change (field_le header 16 4) with (load_le (store_le l 4)).
  rewrite load_store_le. by apply Z.mod_small.
Qed.
Lemma header_prefix : take 24 header = record_prefix t q l.
Proof. done. Qed.
Lemma header_checksum : drop 24 header = ck.
Proof. done. Qed.
End header.

Definition options_ok (o : MovementStoreOptions) : Prop :=
  so_directory o <> [] /\ 4096 <= so_max_record_bytes o <= 64 * 2 ^ 20 /\
  0 < so_max_history_records o.

Lemma take_app_len {A} n (a b : list A) : length a = n -> take n (a ++ b) = a.
Proof. intros <-. apply take_app_exact. Qed.
Lemma drop_app_len {A} n (a b : list A) : length a = n -> drop n (a ++ b) = b.
Proof. intros <-. apply drop_app_exact. Qed.

(** The header and payload slices of a frame at the cursor. *)
Lemma frame_slices r rest :
  let ck := record_checksum (record_prefix r.1.1 r.1.2 (zlen r.2)) r.2 in
  take 56 (frame_of r ++ rest) = record_prefix r.1.1 r.1.2 (zlen r.2) ++ ck /\
  drop 56 (frame_of r ++ rest) = r.2 ++ rest /\ length ck = 32%nat.
Proof.
  intros ck. assert (length ck = 32%nat) as Hck by (unfold ck; rewrite record_checksum_sha; apply length_sha256).
  unfold frame_of, record_frame. fold ck. rewrite <- !app_assoc.
  rewrite (app_assoc (record_prefix _ _ _) ck (r.2 ++ rest)).
  split_and!; [apply take_app_len|apply drop_app_len|done];
    rewrite length_app, length_record_prefix, Hck; done.
Qed.

Lemma recover_step f s fs off seq r rest rp :
  in_u 8 r.1.1 -> in_u 64 r.1.2 -> seq < r.1.2 -> zlen r.2 <= so_max_record_bytes (ms_options s) ->
  so_max_record_bytes (ms_options s) <= 64 * 2 ^ 20 -> fs - off = zlen (frame_of r ++ rest) ->
  recover_loop (S f) s fs off seq (frame_of r ++ rest) rp =
  rbind (apply_record s r.1.1 r.2) (fun s' =>
    recover_loop f s' fs (off + zlen (frame_of r)) r.1.2 rest (report_applied rp)).
Proof.
  intros Ht Hq Hlt Hmax Hm Hfs. destruct (frame_slices r rest) as (Htk & Hdr & Hck).
  set (ck := record_checksum _ _) in *. pose proof (zlen_nonneg r.2) as Hp0.
  rewrite zlen_app, zlen_frame in Hfs. pose proof (zlen_nonneg rest).
  cbn [recover_loop]. rewrite (proj2 (Z.leb_gt fs off)) by lia. cbv zeta.
  change (Z.to_nat kRecordHeaderBytes) with 56%nat. rewrite Htk.
  assert (zlen (record_prefix r.1.1 r.1.2 (zlen r.2) ++ ck) = 56) as E56
    by (unfold zlen; rewrite length_app, length_record_prefix, Hck; done).
  rewrite E56. change (56 =? kRecordHeaderBytes) with true. cbn [negb].
  rewrite header_magic, bytes_eqb_refl, header_version, header_reserved1, header_reserved2,
    header_prefix, header_checksum, header_type, header_sequence, header_length
    by (done || (unfold in_u; lia)). cbn [negb orb].
  change (kMovementStoreFormatVersion =? kMovementStoreFormatVersion) with true.
  change (0 =? 0) with true. cbn [negb orb].
  rewrite (proj2 (Z.ltb_ge _ (zlen r.2))) by done. unfold kRecordHeaderBytes.
  rewrite (proj2 (Z.ltb_ge _ (zlen r.2))) by lia. rewrite Hdr.
  assert (Z.to_nat (zlen r.2) = length r.2) as En by (unfold zlen; lia).
  rewrite En, take_app_exact, Z.eqb_refl. cbn [negb].
  fold ck. rewrite (proj2 (constant_time_equal_eq ck ck) eq_refl). cbn [negb].
  rewrite (proj2 (Z.leb_gt _ seq)) by done.
  assert (drop (Z.to_nat (56 + zlen r.2)) (frame_of r ++ rest) = rest) as ->
    by (apply drop_app_len; rewrite length_frame; unfold zlen; lia).
  by replace (off + 56 + zlen r.2) with (off + zlen (frame_of r)) by (rewrite zlen_frame; lia).
Qed.

(** *** Torn tails *)

(** A proper non-empty prefix of a good record is recognised as torn. *)
Lemma recover_torn f s fs off seq r n rp :
  zlen r.2 <= so_max_record_bytes (ms_options s) -> so_max_record_bytes (ms_options s) <= 64 * 2 ^ 20 ->
  (0 < n < length (frame_of r))%nat -> fs - off = Z.of_nat n ->
  recover_loop (S f) s fs off seq (take n (frame_of r)) rp =
  Ok (s, off, seq, report_torn rp (fs - off)).
Proof.
  intros Hmax Hm Hn Hfs. rewrite length_frame in Hn. destruct (frame_slices r []) as (Htk & Hdr & Hck).
  set (ck := record_checksum _ _) in *. rewrite app_nil_r in *. pose proof (zlen_nonneg r.2) as Hp0.
  cbn [recover_loop]. rewrite (proj2 (Z.leb_gt fs off)) by lia. cbv zeta.
  change (Z.to_nat kRecordHeaderBytes) with 56%nat. rewrite take_take.
  destruct (decide (n < 56)%nat) as [Hs|Hs].
  { assert (zlen (take (56 `min` n) (frame_of r)) = Z.of_nat n) as ->
      by (unfold zlen; rewrite length_take, length_frame; lia).
    rewrite (proj2 (Z.eqb_neq (Z.of_nat n) _)) by (unfold kRecordHeaderBytes; lia). done. }
  rewrite Nat.min_l by lia. rewrite Htk.
  assert (zlen (record_prefix r.1.1 r.1.2 (zlen r.2) ++ ck) = 56) as E56
    by (unfold zlen; rewrite length_app, length_record_prefix, Hck; done).
  rewrite E56. change (56 =? kRecordHeaderBytes) with true. cbn [negb].
  rewrite header_magic, bytes_eqb_refl, header_version, header_reserved1, header_reserved2,
    header_length by (done || (unfold in_u; lia)). cbn [negb orb].
  change (kMovementStoreFormatVersion =? kMovementStoreFormatVersion) with true.
  change (0 =? 0) with true. cbn [negb orb].
  rewrite (proj2 (Z.ltb_ge _ (zlen r.2))) by done. unfold kRecordHeaderBytes.
  rewrite (proj2 (Z.ltb_lt _ (zlen r.2))) by (unfold zlen in *; lia). done.
Qed.

Definition report_after (rp : StoreRecoveryReport) (n : Z) : StoreRecoveryReport :=
  mkReport (rp_created rp) (rp_partial_tail_truncated rp) (rp_truncated_bytes rp)
    (rp_records_read rp + n) (rp_records_applied rp + n) (rp_movements_loaded rp) (rp_retired_loaded rp).

(** Recovery of whole records followed by whatever [tail] does. *)
Lemma recover_log recs : forall f s s' fs off seq tail rp,
  log_ok (ms_options s) seq recs -> so_max_record_bytes (ms_options s) <= 64 * 2 ^ 20 -> 0 <= seq ->
  replay s recs = Ok s' -> fs - off = zlen (log_frames recs ++ tail) ->
  recover_loop (length recs + f) s fs off seq (log_frames recs ++ tail) rp =
  recover_loop f s' fs (off + zlen (log_frames recs)) (last_seq seq recs) tail
    (report_after rp (zlen recs)).
Proof.
  induction recs as [|r recs IH]; intros f s s' fs off seq tail rp Hok Hm Hseq Hre Hfs.
  - injection Hre as <-. unfold report_after, log_frames, zlen. simpl. rewrite !Z.add_0_r. by destruct rp.
  - cbn [log_ok] in Hok. destruct Hok as (Hq & Ht & Hmax & Hok).
    cbn [replay] in Hre. apply rbind_Ok in Hre as (s1 & Ha & Hre).
    assert (log_frames (r :: recs) = frame_of r ++ log_frames recs) as El by done.
    rewrite El, <- app_assoc in *. cbn [length Nat.add].
    rewrite recover_step; [|done|unfold in_u; lia|lia|done|done|done]. rewrite Ha. cbn [rbind].
    pose proof (apply_record_options _ _ _ _ Ha) as Ho.
    rewrite (IH f s1 s' fs _ r.1.2 tail); [|by rewrite Ho|by rewrite Ho|lia|done|].
    + rewrite (zlen_app (frame_of r)), Z.add_assoc. f_equal.
      unfold report_after, report_applied, zlen. cbn [length]. simpl. f_equal; lia.
    + rewrite zlen_app in Hfs. lia.
Qed.

(** *** Opening a log *)

Definition empty_store (o : MovementStoreOptions) (file : bytes) : MovementStore :=
  mkStore o file true 0 1 ∅ [] None zero_stats.

Definition with_file (s : MovementStore) (file : bytes) : MovementStore :=
  with_log s file (ms_open s) (ms_append_offset s) (ms_next_sequence s) (ms_stats s).

Lemma apply_record_file s f t p :
  apply_record (with_file s f) t p = rbind (apply_record s t p) (fun s' => Ok (with_file s' f)).
Proof.
  unfold apply_record. cbn [ms_options with_file with_log].
  destruct (t =? kRecordMovement); [by destruct (decode_all _ MovementRecord_decode p)|].
  destruct (t =? kRecordCoordinatorState); [by destruct (decode_all _ _ p)|].
  destruct (t =? kRecordRetire); [|done]. destruct (decode_all _ _ p) as [id|]; [|done].
  cbn [rbind ms_records with_file with_log]. by destruct (bool_decide _).
Qed.

Lemma replay_file recs : forall s f,
  replay (with_file s f) recs = rbind (replay s recs) (fun s' => Ok (with_file s' f)).
Proof.
  induction recs as [|r recs IH]; intros s f; simpl; [done|]. rewrite apply_record_file.
  destruct (apply_record s r.1.1 r.2); simpl; [apply IH|done].
Qed.

Lemma length_file_header : length file_header = 96%nat.
Proof. unfold file_header. rewrite length_app, length_sha256. done. Qed.

Lemma check_file_header_ok rest : check_file_header (file_header ++ rest) = Ok tt.
Proof.
  unfold check_file_header. change (Z.to_nat kFileHeaderBytes) with 96%nat.
  rewrite (take_app_len 96) by apply length_file_header.
  assert (zlen file_header = 96) as -> by (unfold zlen; by rewrite length_file_header).
  unfold file_header. change (take 64 (file_header_prefix ++ ?x)) with file_header_prefix.
  change (drop 64 (file_header_prefix ++ ?x)) with x.
  change (bytes_eqb (take 8 (file_header_prefix ++ ?x)) kFileMagic) with (bytes_eqb kFileMagic kFileMagic).
  change (field_le (file_header_prefix ++ ?x) 8 2) with 1.
  change (field_le (file_header_prefix ++ ?x) 12 4) with 96.
  rewrite bytes_eqb_refl, (proj2 (constant_time_equal_eq _ _) eq_refl). done.
Qed.

(** What follows the whole records of a log: nothing, or a cut record. *)
Inductive log_tail (o : MovementStoreOptions) : bytes -> Prop :=
  | tail_clean : log_tail o []
  | tail_torn r n : zlen r.2 <= so_max_record_bytes o -> (0 < n < length (frame_of r))%nat ->
      log_tail o (take n (frame_of r)).

(** Opening such a file yields the store its whole records replay to, on a file
    cut back to them. *)
Lemma open_log o recs tail s1 : options_ok o -> log_ok o 0 recs -> log_tail o tail ->
  replay (empty_store o []) recs = Ok s1 ->
  exists s rp, MovementStore_open o (file_header ++ log_frames recs ++ tail) = Ok (s, rp) /\
    ms_options s = o /\ ms_records s = ms_records s1 /\ ms_order s = ms_order s1 /\
    ms_coordinator_state s = ms_coordinator_state s1 /\ ms_open s = true /\
    ms_file s = file_header ++ log_frames recs /\ ms_append_offset s = zlen (ms_file s) /\
    ms_next_sequence s = wrap 64 (last_seq 0 recs + 1) /\
    rp_records_applied rp = zlen recs /\ rp_truncated_bytes rp = zlen tail /\
    rp_created rp = false /\ (rp_partial_tail_truncated rp = false <-> tail = []).
Proof.
  intros (Hdir & Hmax & Hhist) Hok Ht Hre. set (file := file_header ++ log_frames recs ++ tail).
  assert (Hlen : zlen file = 96 + zlen (log_frames recs) + zlen tail)
    by (unfold file; rewrite !zlen_app; unfold zlen at 1; rewrite length_file_header; lia).
  pose proof (zlen_nonneg (log_frames recs)). pose proof (zlen_nonneg tail).
  unfold MovementStore_open. rewrite (proj2 (bytes_eqb_neq _ _) Hdir).
  rewrite (proj2 (Z.eqb_neq (so_max_record_bytes o) 0)), (proj2 (Z.ltb_ge (64 * 2 ^ 20) _)) by lia.
  simpl orb. cbv iota. rewrite (proj2 (Z.eqb_neq (so_max_history_records o) 0)) by lia. cbv zeta.
  rewrite (proj2 (Z.eqb_neq (zlen file) 0)) by lia.
  unfold file at 1. rewrite check_file_header_ok. cbn [rbind].
  assert (drop (Z.to_nat kFileHeaderBytes) file = log_frames recs ++ tail) as ->
    by (apply drop_app_len, length_file_header).
  assert (length recs <= length (log_frames recs))%nat as Hfuel.
  { clear. induction recs as [|r recs IH]; [done|].
    change (log_frames (r :: recs)) with (frame_of r ++ log_frames recs).
    rewrite length_app, length_frame. simpl. lia. }
  assert (exists f, length file = (length recs + S f)%nat) as [f ->].
  { exists (length file - length recs - 1)%nat. unfold file. rewrite !length_app, length_file_header. lia. }
  change (mkStore o file true 0 1 ∅ [] None zero_stats) with (with_file (empty_store o []) file).
  rewrite (recover_log recs _ _ (with_file s1 file)); try done; try (simpl; lia).
  2: by rewrite replay_file, Hre.
  2: { rewrite zlen_app, Hlen. unfold kFileHeaderBytes. lia. }
  pose proof (replay_options _ _ _ Hre) as Ho. cbn [ms_options empty_store] in Ho.
  destruct Ht as [|r n Hr Hn].
  - cbn [recover_loop]. rewrite (proj2 (Z.leb_le (zlen file) _)) by (change (zlen []) with 0 in Hlen; unfold kFileHeaderBytes; lia).
    cbn [rbind]. eexists _, _. split; [reflexivity|]. simpl.
    unfold file. rewrite app_nil_r. split_and!; try done.
    unfold kFileHeaderBytes. rewrite zlen_app. unfold zlen at 2. rewrite length_file_header. done.
  - assert (zlen (take n (frame_of r)) = Z.of_nat n) as Etn
      by (unfold zlen; rewrite length_take; lia).
    rewrite recover_torn; [|by simpl; rewrite Ho|simpl; rewrite Ho; lia|done|unfold kFileHeaderBytes; lia].
    cbn [rbind]. eexists _, _. split; [reflexivity|]. simpl.
    assert (take (Z.to_nat (kFileHeaderBytes + zlen (log_frames recs))) file =
            file_header ++ log_frames recs) as Ef.
    { unfold file. rewrite app_assoc. apply take_app_len. rewrite length_app, length_file_header.
      unfold kFileHeaderBytes, zlen. lia. }
    rewrite Ef. split_and!; try done.
    + unfold kFileHeaderBytes. rewrite zlen_app. unfold zlen at 2. rewrite length_file_header. done.
    + rewrite Etn. unfold kFileHeaderBytes. lia.
    + split; [done|]. intros E. apply (f_equal zlen) in E. rewrite Etn in E. unfold zlen in E. simpl in E. lia.
Qed.

(** ** The store invariant *)

Definition persistent_ok (c : CoordinatorPersistentState) : Prop :=
  in_u 64 (cp_epoch c) /\ cp_epoch c <> 0 /\ in_u 64 (cp_policy_generation c) /\
  in_u 64 (cp_compatibility_generation c) /\ in_u 64 (cp_topology_generation c) /\
  digest_wf (cp_policy_digest c) /\ in_i64 (cp_last_saved_unix_millis c).

#[global] Instance persistent_codec lim :
  Codec lim CoordinatorPersistentState_encode CoordinatorPersistentState_decode persistent_ok.
Proof.
  split.
  - intros c (H1 & Hnz & H2 & H3 & H4 & H5 & H6).
    unfold CoordinatorPersistentState_decode, CoordinatorPersistentState_encode. solve_reads; try done.
    + unfold is_set. by rewrite (proj2 (Z.eqb_neq _ _) Hnz).
    + by destruct c.
  - intros d c d' Hl H. unfold CoordinatorPersistentState_decode in H. repeat dstep H. dfacts. dcanon.
    unfold is_set in *. b2p.
    split; [unfold persistent_ok; simpl; split_and!; done|].
    unfold CoordinatorPersistentState_encode; simpl. solve_consumed.
Qed.

(** The index a log replays to, up to the reload of every record. *)
Definition mirrors (s1 s : MovementStore) : Prop :=
  ms_options s1 = ms_options s /\ ms_records s1 = reloaded <$> ms_records s /\
  ms_order s1 = ms_order s /\ ms_coordinator_state s1 = ms_coordinator_state s.

Definition coord_count (s : MovementStore) : Z :=
  match ms_coordinator_state s with Some _ => 1 | None => 0 end.

(** The order list enumerates the index; every record is well formed. *)
Record index_inv (s : MovementStore) : Prop := {
  ix_nodup : NoDup (ms_order s);
  ix_dom : forall id, id ∈ ms_order s <-> is_Some (ms_records s !! id);
  ix_recs : forall id r, ms_records s !! id = Some r ->
     m_id r = id /\ movement_inv r /\
     zlen (MovementRecord_encode r) <= so_max_record_bytes (ms_options s);
  ix_coord : forall c, ms_coordinator_state s = Some c -> persistent_ok c }.

(** The log on disk replays to the index. *)
Definition log_inv (s : MovementStore) : Prop :=
  exists recs s1, ms_file s = file_header ++ log_frames recs /\
    log_ok (ms_options s) 0 recs /\ last_seq 0 recs < ms_next_sequence s /\
    replay (empty_store (ms_options s) []) recs = Ok s1 /\ mirrors s1 s.

Record store_inv (s : MovementStore) : Prop := {
  si_options : options_ok (ms_options s);
  si_open : ms_open s = true;
  si_offset : ms_append_offset s = zlen (ms_file s);
  si_index : index_inv s;
  si_log : log_inv s;
  si_count : zlen (ms_order s) + coord_count s < ms_next_sequence s }.

(** Room for the sequence numbers of one more operation. *)
Definition sequence_room (s : MovementStore) : Prop :=
  ms_next_sequence s + zlen (ms_order s) + 3 < 2 ^ 64.

Lemma store_limits_roomy o : options_ok o -> Roomy (store_limits o).
Proof. intros (_ & H & _). unfold store_limits, kMaxTextBytes. split; simpl; lia. Qed.

Lemma store_limits_input o (p : bytes) : options_ok o -> zlen p <= so_max_record_bytes o ->
  zlen p <= max_input_bytes (store_limits o).
Proof.
  intros (_ & H & _) Hp. unfold store_limits. cbn [max_input_bytes].
  rewrite wrap_small by (unfold in_u; lia). lia.
Qed.

(** *** Replaying what was just written *)

Lemma replay_put s1 s r : options_ok (ms_options s) -> mirrors s1 s -> movement_inv r ->
  zlen (MovementRecord_encode r) <= so_max_record_bytes (ms_options s) ->
  exists s1', apply_record s1 kRecordMovement (MovementRecord_encode r) = Ok s1' /\
    mirrors s1' (index_put s r).
Proof.
  intros Ho (Hopt & Hrec & Hord & Hco) Hr Hlen. pose proof (store_limits_roomy _ Ho) as Hroom.
  unfold apply_record. rewrite Z.eqb_refl, Hopt, <- reloaded_encode.
  rewrite (decode_all_encode _ _ _ movement_ok); [|by apply reloaded_ok|by apply store_limits_input].
  cbn [rbind]. eexists. split; [reflexivity|]. unfold index_put.
  split_and!; simpl; try done.
  - by rewrite Hrec, fmap_insert.
  - rewrite Hrec, lookup_fmap, Hord.
    by destruct (ms_records s !! m_id r).
Qed.

Lemma replay_retire s1 s id : options_ok (ms_options s) -> mirrors s1 s -> id_wf 16 id ->
  is_Some (ms_records s !! id) ->
  exists s1', apply_record s1 kRecordRetire (FixedId_encode id) = Ok s1' /\
    mirrors s1' (index_retire s id).
Proof.
  intros Ho (Hopt & Hrec & Hord & Hco) Hid [r Hr]. pose proof (store_limits_roomy _ Ho) as Hroom.
  unfold apply_record. change (kRecordRetire =? kRecordMovement) with false.
  change (kRecordRetire =? kRecordCoordinatorState) with false. rewrite Z.eqb_refl, Hopt. cbv iota.
  rewrite (decode_all_encode _ _ _ (id_wf 16)); [|done|].
  - cbn [rbind]. rewrite Hrec, lookup_fmap, Hr.
    eexists. split; [reflexivity|]. unfold index_retire.
    split_and!; simpl; try done; [by rewrite Hrec, fmap_delete|by rewrite Hord].
  - apply store_limits_input; [done|]. unfold FixedId_encode. rewrite zlen_enc_blob.
    unfold zlen. rewrite Hid. destruct Ho as (_ & ? & _). lia.
Qed.

Lemma replay_coord s1 s c : options_ok (ms_options s) -> mirrors s1 s -> persistent_ok c ->
  exists s1', apply_record s1 kRecordCoordinatorState (CoordinatorPersistentState_encode c) = Ok s1' /\
    mirrors s1' (with_index s (ms_records s) (ms_order s) (Some c) (ms_stats s)).
Proof.
  intros Ho (Hopt & Hrec & Hord & Hco) Hc.
  unfold apply_record. change (kRecordCoordinatorState =? kRecordMovement) with false.
  rewrite Z.eqb_refl, Hopt. cbv iota. rewrite (decode_all_encode _ _ _ persistent_ok); [|done|].
  - cbn [rbind]. eexists. split; [reflexivity|]. done.
  - apply store_limits_input; [done|]. unfold CoordinatorPersistentState_encode.
    autorewrite with enc_len. rewrite zlen_enc_digest by apply Hc. destruct Ho as (_ & ? & _). lia.
Qed.

(** *** One append *)

Lemma append_fields s t p s' st : append_record no_faults s t p = (s', st) -> st = Ok tt ->
  ms_open s = true -> ms_append_offset s = zlen (ms_file s) ->
  zlen p <= so_max_record_bytes (ms_options s) /\
  ms_file s' = ms_file s ++ record_frame t (ms_next_sequence s) p /\
  ms_append_offset s' = zlen (ms_file s') /\ ms_open s' = true /\
  ms_next_sequence s' = wrap 64 (ms_next_sequence s + 1) /\ ms_options s' = ms_options s /\
  ms_records s' = ms_records s /\ ms_order s' = ms_order s /\
  ms_coordinator_state s' = ms_coordinator_state s.
Proof.
  unfold append_record, no_faults. intros H -> Ho Hoff. rewrite Ho in H. cbn [negb] in H.
  destruct (Z.ltb_spec (so_max_record_bytes (ms_options s)) (zlen p)); [done|].
  injection H as <-. simpl. rewrite Hoff.
  assert (write_at (ms_file s) (Z.to_nat (zlen (ms_file s))) (record_frame t (ms_next_sequence s) p) =
          ms_file s ++ record_frame t (ms_next_sequence s) p) as Ew.
  { unfold write_at, zlen. rewrite Nat2Z.id, firstn_all, drop_ge by lia. by rewrite app_nil_r. }
  rewrite Ew. split_and!; try done.
  rewrite zlen_app. pose proof (zlen_frame (t, ms_next_sequence s, p)) as Ef. unfold frame_of in Ef.
  simpl in Ef. rewrite Ef. unfold kRecordHeaderBytes. lia.
Qed.

(** Appending a record whose replay matches the index update keeps the log
    invariant for the updated index. *)
Lemma log_inv_append s s' sf t p : log_inv s -> ms_next_sequence s < 2 ^ 64 - 1 ->
  in_u 8 t -> append_record no_faults s t p = (s', Ok tt) -> ms_open s = true ->
  ms_append_offset s = zlen (ms_file s) ->
  ms_file sf = ms_file s' -> ms_options sf = ms_options s' -> ms_next_sequence sf = ms_next_sequence s' ->
  (forall s1, mirrors s1 s -> exists s1', apply_record s1 t p = Ok s1' /\ mirrors s1' sf) ->
  log_inv sf.
Proof.
  intros (recs & s1 & Hf & Hok & Hlast & Hre & Hm) Hroom Ht Ha Ho Hoff Ef Eo En Hsim.
  destruct (append_fields _ _ _ _ _ Ha eq_refl Ho Hoff) as (Hp & Hfile & _ & _ & Hns & Hopt & _).
  destruct (Hsim s1 Hm) as (s1' & Hap & Hm').
  assert (0 <= last_seq 0 recs) as Hl0
    by (pose proof (last_seq_ge _ _ _ Hok); pose proof (zlen_nonneg recs); lia).
  exists (recs ++ [(t, ms_next_sequence s, p)]), s1'. rewrite Ef, Eo, En, Hfile, Hopt, Hns.
  rewrite log_frames_app, last_seq_app, replay_app, Hre, wrap_small by (unfold in_u; lia). split_and!.
  - rewrite Hf, <- app_assoc. do 2 f_equal. unfold log_frames, frame_of. cbn [map concat fst snd].
    by rewrite app_nil_r.
  - apply log_ok_app. split; [exact Hok|]. cbn [log_ok fst snd].
    split; [lia|]. split; [exact Ht|]. split; [exact Hp|exact I].
  - cbn [last_seq fst snd]. lia.
  - cbn [rbind replay fst snd]. by rewrite Hap.
  - exact Hm'.
Qed.
#[local] Opaque record_frame.

Lemma append_succeeds s t p : ms_open s = true -> zlen p <= so_max_record_bytes (ms_options s) ->
  exists s', append_record no_faults s t p = (s', Ok tt).
Proof.
  intros Ho Hp. unfold append_record, no_faults. rewrite Ho, (proj2 (Z.ltb_ge _ _) Hp). simpl. eauto.
Qed.

(** The invariant does not look at the statistics. *)
Definition same_but_stats (a b : MovementStore) : Prop :=
  ms_options a = ms_options b /\ ms_file a = ms_file b /\ ms_open a = ms_open b /\
  ms_append_offset a = ms_append_offset b /\ ms_next_sequence a = ms_next_sequence b /\
  ms_records a = ms_records b /\ ms_order a = ms_order b /\
  ms_coordinator_state a = ms_coordinator_state b.

Lemma store_inv_stats a b : same_but_stats a b -> store_inv a -> store_inv b.
Proof.
  destruct a, b. unfold same_but_stats. simpl.
  intros (-> & -> & -> & -> & -> & -> & -> & ->) [H1 H2 H3 [] H5 H6].
  by split.
Qed.

Lemma order_remove_elem id order x : x ∈ order_remove id order <-> x ∈ order /\ x <> id.
Proof.
  unfold order_remove. rewrite !list_elem_of_In, filter_In, negb_true_iff, bytes_eqb_neq. done.
Qed.

Lemma order_remove_nodup id order : NoDup order -> NoDup (order_remove id order).
Proof. unfold order_remove. rewrite !NoDup_ListNoDup. apply NoDup_filter. Qed.

Lemma order_remove_length id order : zlen (order_remove id order) <= zlen order.
Proof. unfold order_remove, zlen. pose proof (filter_length_le (fun x => negb (bytes_eqb x id)) order). lia. Qed.

Lemma order_remove_shrinks id order : id ∈ order -> zlen (order_remove id order) < zlen order.
Proof.
  induction order as [|x order IH]; intros H; [by apply not_elem_of_nil in H|].
  unfold order_remove, zlen in *. cbn [List.filter].
  destruct (bytes_eqb x id) eqn:E; cbn [negb].
  - pose proof (order_remove_length id order) as Hl. unfold order_remove, zlen in Hl. simpl length. lia.
  - apply elem_of_cons in H as [->|H]; [by rewrite bytes_eqb_refl in E|]. specialize (IH H). simpl length. lia.
Qed.

(** Retiring one movement durably. *)
Lemma retire_step s id : store_inv s -> ms_next_sequence s < 2 ^ 64 - 1 ->
  is_Some (ms_records s !! id) ->
  exists s1, append_record no_faults s kRecordRetire (FixedId_encode id) = (s1, Ok tt) /\
    store_inv (index_retire s1 id) /\ ms_records (index_retire s1 id) = delete id (ms_records s) /\
    ms_next_sequence (index_retire s1 id) = ms_next_sequence s + 1 /\
    ms_order (index_retire s1 id) = order_remove id (ms_order s) /\
    ms_options (index_retire s1 id) = ms_options s /\
    ms_coordinator_state (index_retire s1 id) = ms_coordinator_state s.
Proof.
  intros [Ho Hopen Hoff Hix Hlog Hcnt] Hroom [r Hr]. destruct (ix_recs s Hix _ _ Hr) as (Hid & Hinv & _).
  assert (Hwf : id_wf 16 id) by (rewrite <- Hid; apply Hinv).
  assert (Hsz : zlen (FixedId_encode id) <= so_max_record_bytes (ms_options s)).
  { unfold FixedId_encode. rewrite zlen_enc_blob. unfold zlen. rewrite Hwf. destruct Ho as (_ & ? & _). lia. }
  destruct (append_succeeds s kRecordRetire _ Hopen Hsz) as [s1 Ha]. exists s1.
  destruct (append_fields _ _ _ _ _ Ha eq_refl Hopen Hoff)
    as (_ & Hfile & Hoff1 & Hop1 & Hns & Hopt & Hrec & Hord & Hco).
  assert (Hns0 : 0 <= ms_next_sequence s)
    by (unfold coord_count in Hcnt; pose proof (zlen_nonneg (ms_order s)); destruct (ms_coordinator_state s); lia).
  rewrite wrap_small in Hns by (unfold in_u; lia).
  split; [done|]. split; [|by rewrite <- Hrec, <- Hord, <- Hns, <- Hopt, <- Hco].
  split; simpl; try done.
  - by rewrite Hopt.
  - destruct Hix as [Hnd Hdom Hrecs Hc]. split; simpl.
    + rewrite Hord. by apply order_remove_nodup.
    + intros x. rewrite order_remove_elem, Hord, Hdom, Hrec.
      destruct (decide (x = id)) as [->|]; [rewrite lookup_delete_eq|rewrite lookup_delete_ne by done].
      * split; [tauto|]. by intros [? ?].
      * tauto.
    + intros x r'. rewrite Hrec, Hopt. intros Hx. apply lookup_delete_Some in Hx as [_ Hx]. by apply Hrecs.
    + intros c. rewrite Hco. apply Hc.
  - eapply (log_inv_append s s1 (index_retire s1 id)); try done; [by vm_compute|].
    intros s2 Hm. destruct (replay_retire s2 s id Ho Hm Hwf ltac:(by rewrite Hr)) as (s2' & Hap & Hm').
    exists s2'. split; [done|]. destruct Hm' as (M1 & M2 & M3 & M4). unfold mirrors in *. simpl in *.
    by rewrite Hopt, Hrec, Hord, Hco.
  - rewrite Hord, Hns. unfold coord_count in *. simpl. rewrite Hco.
    pose proof (order_remove_length id (ms_order s)). lia.
Qed.

(** *** Retention *)

Lemma retention_victims_spec records order : forall n,
  Forall (fun id => id ∈ order /\ exists r, records !! id = Some r /\ is_terminal (m_state r) = true)
    (retention_victims records order n) /\
  (NoDup order -> NoDup (retention_victims records order n)).
Proof.
  induction order as [|id order IH]; intros [|n]; simpl;
    try (split; [constructor|intros; constructor]).
  assert (forall m, Forall (fun x => x ∈ id :: order /\ exists r, records !! x = Some r /\
            is_terminal (m_state r) = true) (retention_victims records order m)) as Hw.
  { intros m. destruct (IH m) as [Hf _]. revert Hf. apply Forall_impl. intros x [Hx Hr].
    split; [by apply elem_of_cons; right|done]. }
  destruct (records !! id) as [r|] eqn:Er; [destruct (is_terminal (m_state r)) eqn:Et|].
  - split; [constructor; [split; [by apply elem_of_cons; left|eauto]|apply Hw]|].
    intros Hnd. apply list.NoDup_cons in Hnd as [Hni Hnd]. apply list.NoDup_cons. split; [|by apply IH].
    intros Hin. apply Hni. destruct (IH n) as [Hf _]. rewrite Forall_forall in Hf.
    apply list_elem_of_In in Hin. by apply Hf.
  - split; [apply Hw|]. intros Hnd. apply list.NoDup_cons in Hnd as [_ Hnd]. by apply IH.
  - split; [apply Hw|]. intros Hnd. apply list.NoDup_cons in Hnd as [_ Hnd]. by apply IH.
Qed.

Lemma retire_victims_inv victims : forall s, store_inv s ->
  ms_next_sequence s + zlen (ms_order s) < 2 ^ 64 - 1 -> NoDup victims ->
  Forall (fun id => is_Some (ms_records s !! id)) victims ->
  exists s', retire_victims no_faults s victims = (s', Ok tt) /\ store_inv s' /\
    (forall id, ms_records s' !! id = if decide (id ∈ victims) then None else ms_records s !! id) /\
    ms_options s' = ms_options s /\ ms_coordinator_state s' = ms_coordinator_state s.
Proof.
  induction victims as [|id victims IH]; intros s Hs Hroom Hnd Hf.
  - eexists. split; [reflexivity|]. split; [|split; [|done]].
    + eapply store_inv_stats; [|exact Hs]. done.
    + intros id. by rewrite decide_False by apply not_elem_of_nil.
  - apply list.NoDup_cons in Hnd as [Hni Hnd]. inversion Hf as [|? ? Hid Hf']; subst.
    pose proof (zlen_nonneg (ms_order s)).
    destruct (retire_step s id Hs ltac:(lia) Hid) as (s1 & Ha & Hs1 & Hrec & Hns & Hord & Hopt & Hco).
    cbn [retire_victims]. rewrite Ha.
    assert (store_inv (index_erase s1 id)) as Hs2 by (eapply store_inv_stats; [|exact Hs1]; done).
    assert (id ∈ ms_order s) as Hin by (by apply (ix_dom s (si_index s Hs))).
    pose proof (order_remove_shrinks id (ms_order s) Hin).
    destruct (IH (index_erase s1 id) Hs2) as (s' & He & Hs' & Hr' & Ho' & Hc').
    + change (ms_next_sequence (index_erase s1 id)) with (ms_next_sequence (index_retire s1 id)).
      change (ms_order (index_erase s1 id)) with (ms_order (index_retire s1 id)). rewrite Hns, Hord. lia.
    + done.
    + change (ms_records (index_erase s1 id)) with (ms_records (index_retire s1 id)). rewrite Hrec.
      rewrite Forall_forall in *. intros x Hx. rewrite lookup_delete_ne; [by apply Hf'|].
      intros ->. apply Hni. by apply list_elem_of_In.
    + exists s'. split; [done|]. split; [done|]. split.
      * intros x. rewrite Hr'.
        change (ms_records (index_erase s1 id)) with (ms_records (index_retire s1 id)). rewrite Hrec.
        destruct (decide (x = id)) as [->|Hne].
        -- rewrite (decide_False (P := id ∈ victims)) by done. rewrite lookup_delete_eq.
           by rewrite decide_True by (by apply elem_of_cons; left).
        -- rewrite lookup_delete_ne by done.
           destruct (decide (x ∈ victims)) as [Hv|Hv].
           ++ by rewrite decide_True by (by apply elem_of_cons; right).
           ++ rewrite decide_False; [done|]. intros E. apply elem_of_cons in E as [?|?]; done.
      * rewrite Ho', Hc'. done.
Qed.

(** *** Put *)

Lemma index_put_inv s r : index_inv s -> movement_inv r ->
  zlen (MovementRecord_encode r) <= so_max_record_bytes (ms_options s) -> index_inv (index_put s r).
Proof.
  intros [Hnd Hdom Hrecs Hc] Hr Hlen. split; simpl; [| | |done].
  - destruct (bool_decide (ms_records s !! m_id r = None)) eqn:E; b2p; [|done].
    apply list.NoDup_app. split_and!; [done| |apply NoDup_singleton].
    intros x Hx Hx'. apply list_elem_of_singleton in Hx' as ->. apply Hdom in Hx. rewrite E in Hx.
    by destruct Hx.
  - intros id. destruct (decide (id = m_id r)) as [->|Hne].
    + rewrite lookup_insert_eq. split; [eauto|]. intros _.
      destruct (bool_decide (ms_records s !! m_id r = None)) eqn:E; b2p.
      * apply elem_of_app. right. by apply list_elem_of_singleton.
      * apply Hdom. by apply not_eq_None_Some.
    + rewrite lookup_insert_ne, <- Hdom by done.
      destruct (bool_decide _); [|done]. rewrite elem_of_app, list_elem_of_singleton. tauto.
  - intros id r'. destruct (decide (id = m_id r)) as [->|Hne].
    + rewrite lookup_insert_eq. by intros [= <-].
    + rewrite lookup_insert_ne by done. apply Hrecs.
Qed.

Lemma index_put_order s r : zlen (ms_order (index_put s r)) <= zlen (ms_order s) + 1.
Proof. unfold index_put. simpl. destruct (bool_decide _); [rewrite zlen_app; unfold zlen; simpl|]; lia. Qed.

Lemma next_nonneg s : store_inv s -> 0 < ms_next_sequence s.
Proof.
  intros [_ _ _ _ _ Hc]. unfold coord_count in Hc. pose proof (zlen_nonneg (ms_order s)).
  destruct (ms_coordinator_state s); lia.
Qed.

Lemma put_step s r : store_inv s -> sequence_room s -> movement_inv r ->
  zlen (MovementRecord_encode r) <= so_max_record_bytes (ms_options s) ->
  exists s', store_put no_faults s r = (s', Ok tt) /\ store_inv s' /\ ms_options s' = ms_options s /\
    ms_coordinator_state s' = ms_coordinator_state s /\
    ms_records s' ⊆ <[m_id r := r]> (ms_records s) /\
    (forall id r0, <[m_id r := r]> (ms_records s) !! id = Some r0 ->
       is_terminal (m_state r0) = false \/
       map_size (<[m_id r := r]> (ms_records s)) <= so_max_history_records (ms_options s) ->
       ms_records s' !! id = Some r0).
Proof.
  intros Hs Hroom Hr Hlen. pose proof Hs as [Ho Hopen Hoff Hix Hlog Hcnt].
  pose proof (next_nonneg s Hs) as Hns0. unfold sequence_room in Hroom. pose proof (zlen_nonneg (ms_order s)).
  unfold store_put. rewrite (proj2 (movement_validate_spec r)) by apply Hr.
  destruct (append_succeeds s kRecordMovement _ Hopen Hlen) as [s1 Ha]. rewrite Ha.
  destruct (append_fields _ _ _ _ _ Ha eq_refl Hopen Hoff)
    as (_ & Hfile & Hoff1 & Hop1 & Hns & Hopt & Hrec & Hord & Hco).
  rewrite wrap_small in Hns by (unfold in_u; lia).
  assert (store_inv (index_put s1 r)) as Hs2.
  { split; try done.
    - simpl. by rewrite Hopt.
    - apply index_put_inv; [|done|by rewrite Hopt]. destruct Hix as [H1 H2 H3 H4].
      split; rewrite ?Hord, ?Hrec, ?Hco, ?Hopt; done.
    - eapply (log_inv_append s s1 (index_put s1 r)); try done; [lia|by vm_compute|].
      intros s2 Hm. destruct (replay_put s2 s r Ho Hm Hr Hlen) as (s2' & Hap & Hm').
      exists s2'. split; [done|]. destruct Hm' as (M1 & M2 & M3 & M4).
      unfold mirrors, index_put in *. simpl in *. by rewrite Hopt, Hrec, Hord, Hco.
    - pose proof (index_put_order s1 r) as Hio. rewrite Hord in Hio.
      change (ms_next_sequence (index_put s1 r)) with (ms_next_sequence s1). rewrite Hns.
      unfold coord_count in *.
      change (ms_coordinator_state (index_put s1 r)) with (ms_coordinator_state s1). rewrite Hco. lia. }
  assert (ms_records (index_put s1 r) = <[m_id r := r]> (ms_records s)) as Erec
    by (simpl; by rewrite Hrec).
  assert (exists s3, enforce_retention no_faults (index_put s1 r) = (s3, Ok tt) /\ store_inv s3 /\
    ms_options s3 = ms_options s /\ ms_coordinator_state s3 = ms_coordinator_state s /\
    ms_records s3 ⊆ <[m_id r := r]> (ms_records s) /\
    (forall id r0, <[m_id r := r]> (ms_records s) !! id = Some r0 ->
       is_terminal (m_state r0) = false \/
       map_size (<[m_id r := r]> (ms_records s)) <= so_max_history_records (ms_options s) ->
       ms_records s3 !! id = Some r0)) as (s3 & He & Hs3 & Ho3 & Hc3 & Hsub & Hkeep).
  { unfold enforce_retention. rewrite Erec. change (ms_options (index_put s1 r)) with (ms_options s1).
    rewrite Hopt. destruct (so_retention_completed (ms_options s) =? 0).
    { exists (index_put s1 r). rewrite Erec. simpl. rewrite Hopt, Hco. by split_and!. }
    destruct (map_size _ <=? so_retention_completed _).
    { exists (index_put s1 r). rewrite Erec. simpl. rewrite Hopt, Hco. by split_and!. }
    destruct (Z.leb_spec (map_size (<[m_id r:=r]> (ms_records s))) (so_max_history_records (ms_options s)))
      as [Hle|Hgt].
    { exists (index_put s1 r). rewrite Erec. simpl. rewrite Hopt, Hco. by split_and!. }
    set (victims := retention_victims _ _ _).
    destruct (retention_victims_spec (<[m_id r := r]> (ms_records s)) (ms_order (index_put s1 r))
      (Z.to_nat (map_size (<[m_id r:=r]> (ms_records s)) - so_retention_completed (ms_options s))))
      as [Hf Hndv]. fold victims in Hf, Hndv.
    destruct (retire_victims_inv victims (index_put s1 r) Hs2) as (s3 & He & Hs3 & Hr3 & Ho3 & Hc3).
    - pose proof (index_put_order s1 r) as Hio. rewrite Hord in Hio.
      change (ms_next_sequence (index_put s1 r)) with (ms_next_sequence s1). rewrite Hns. lia.
    - apply Hndv, (ix_nodup _ (si_index _ Hs2)).
    - rewrite Erec. revert Hf. apply Forall_impl. intros x (_ & r0 & -> & _). eauto.
    - exists s3. split; [done|]. split; [done|]. split; [by rewrite Ho3; simpl|].
      split; [by rewrite Hc3; simpl|]. split.
      + apply map_subseteq_spec. intros id r0. rewrite Hr3, Erec. by destruct (decide _).
      + intros id r0 Hid [Ht|?]; [|lia]. rewrite Hr3, Erec. rewrite decide_False; [done|].
        intros Hin. rewrite Forall_forall in Hf. apply list_elem_of_In in Hin.
        destruct (Hf id Hin) as (_ & r1 & Hid1 & Ht1). congruence. }
  rewrite He. eexists. split; [reflexivity|]. split; [|done].
  eapply store_inv_stats; [|exact Hs3]. done.
Qed.

(** *** Saving the coordinator state *)

Lemma save_step s c : store_inv s -> sequence_room s -> persistent_ok c ->
  exists s', save_coordinator_state no_faults s c = (s', Ok tt) /\ store_inv s' /\
    ms_records s' = ms_records s /\ ms_order s' = ms_order s /\ ms_coordinator_state s' = Some c /\
    ms_options s' = ms_options s.
Proof.
  intros Hs Hroom Hc. pose proof Hs as [Ho Hopen Hoff Hix Hlog Hcnt].
  pose proof (next_nonneg s Hs) as Hns0. unfold sequence_room in Hroom. pose proof (zlen_nonneg (ms_order s)).
  assert (Hsz : zlen (CoordinatorPersistentState_encode c) <= so_max_record_bytes (ms_options s)).
  { unfold CoordinatorPersistentState_encode. autorewrite with enc_len.
    rewrite zlen_enc_digest by apply Hc. destruct Ho as (_ & ? & _). lia. }
  destruct (append_succeeds s kRecordCoordinatorState _ Hopen Hsz) as [s1 Ha].
  unfold save_coordinator_state. rewrite Ha.
  destruct (append_fields _ _ _ _ _ Ha eq_refl Hopen Hoff)
    as (_ & Hfile & Hoff1 & Hop1 & Hns & Hopt & Hrec & Hord & Hco).
  rewrite wrap_small in Hns by (unfold in_u; lia).
  eexists. split; [reflexivity|]. split; [|done]. split; try done.
  - simpl. by rewrite Hopt.
  - destruct Hix as [H1 H2 H3 H4]. split; simpl; rewrite ?Hord, ?Hrec, ?Hopt; try done. by intros ? [= <-].
  - eapply (log_inv_append s s1); try done; [lia|by vm_compute|].
    intros s2 Hm. destruct (replay_coord s2 s c Ho Hm Hc) as (s2' & Hap & Hm').
    exists s2'. split; [done|]. destruct Hm' as (M1 & M2 & M3 & M4).
    unfold mirrors in *. simpl in *. by rewrite Hopt, Hrec, Hord.
  - simpl. rewrite Hord, Hns. unfold coord_count in *. simpl. destruct (ms_coordinator_state s); lia.
Qed.

(** *** Compaction *)

(** The records of a compacted log with their sequence numbers. *)
Fixpoint number_from (seq : Z) (l : list (Z * bytes)) : list LogRecord :=
  match l with
  | [] => []
  | (t, p) :: rest => (t, seq + 1, p) :: number_from (seq + 1) rest
  end.

Lemma compact_frames_log l : forall seq, compact_frames seq l = log_frames (number_from seq l).
Proof. induction l as [|[t p] l IH]; intros seq; [done|]. cbn [compact_frames]. by rewrite IH. Qed.

Lemma number_from_app a : forall seq b,
  number_from seq (a ++ b) = number_from seq a ++ number_from (seq + zlen a) b.
Proof.
  induction a as [|[t p] a IH]; intros seq b; simpl.
  - f_equal. unfold zlen. simpl. lia.
  - rewrite IH. do 3 f_equal. unfold zlen. simpl length. lia.
Qed.

Lemma number_from_ok o l : forall seq, 0 <= seq -> seq + zlen l < 2 ^ 64 ->
  Forall (fun r => in_u 8 r.1 /\ zlen r.2 <= so_max_record_bytes o) l ->
  log_ok o seq (number_from seq l) /\ last_seq seq (number_from seq l) = seq + zlen l.
Proof.
  induction l as [|[t p] l IH]; intros seq Hs Hl Hf; unfold zlen in *; simpl number_from; simpl length in *.
  - split; [done|simpl; lia].
  - inversion Hf as [|? ? [H1 H2] Hf']; subst. cbn [log_ok last_seq fst snd].
    destruct (IH (seq + 1)) as [Ha Hb]; [lia|lia|done|]. split; [|lia].
    split; [lia|]. split; [exact H1|]. split; [exact H2|exact Ha].
Qed.

(** The movement records of a compacted log rebuild the index. *)
Lemma replay_movements s ids : index_inv s -> options_ok (ms_options s) -> NoDup ids ->
  Forall (fun id => is_Some (ms_records s !! id)) ids -> forall s1 seq,
  ms_options s1 = ms_options s -> Forall (fun id => ms_records s1 !! id = None) ids ->
  exists s2,
    replay s1 (number_from seq (flat_map (fun id => match ms_records s !! id with
        | Some r => [(kRecordMovement, MovementRecord_encode r)] | None => [] end) ids)) = Ok s2 /\
    ms_order s2 = ms_order s1 ++ ids /\ ms_options s2 = ms_options s /\
    ms_coordinator_state s2 = ms_coordinator_state s1 /\
    (forall id, ms_records s2 !! id =
       if decide (id ∈ ids) then reloaded <$> (ms_records s !! id) else ms_records s1 !! id).
Proof.
  intros Hix Ho. pose proof (store_limits_roomy _ Ho) as Hroom.
  induction ids as [|id ids IH]; intros Hnd Hf s1 seq Hopt Hnone.
  - exists s1. cbn. rewrite app_nil_r. split_and!; try done.
  - apply list.NoDup_cons in Hnd as [Hni Hnd]. inversion Hf as [|? ? [r Hr] Hf']; subst.
    inversion Hnone as [|? ? Hid Hnone']; subst. destruct (ix_recs s Hix _ _ Hr) as (Hmid & Hinv & Hlen).
    cbn [flat_map]. rewrite Hr. cbn [app number_from replay fst snd].
    unfold apply_record at 1. rewrite Z.eqb_refl, Hopt. rewrite <- reloaded_encode in *.
    rewrite (decode_all_encode _ _ _ movement_ok); [|by apply reloaded_ok|by apply store_limits_input].
    cbn [rbind]. set (s1' := index_put s1 (reloaded r)).
    assert (ms_records s1' = <[id := reloaded r]> (ms_records s1)) as E1
      by (unfold s1', index_put; simpl; by rewrite Hmid).
    assert (ms_order s1' = ms_order s1 ++ [id]) as E2.
    { unfold s1', index_put. simpl. rewrite Hmid, Hid. by rewrite bool_decide_true. }
    destruct (IH Hnd Hf' s1' (seq + 1)) as (s2 & Hre & Ho2 & Hopt2 & Hc2 & Hr2); [done| |].
    { rewrite E1, Forall_forall in *. intros x Hx. rewrite lookup_insert_ne; [by apply Hnone'|].
      intros ->. apply Hni. by apply list_elem_of_In. }
    exists s2. split; [done|]. rewrite Ho2, E2, <- app_assoc. split_and!; try done.
    intros x. rewrite Hr2, E1. destruct (decide (x = id)) as [->|Hne].
    + rewrite (decide_False (P := id ∈ ids)) by done. rewrite lookup_insert_eq, Hr.
      by rewrite decide_True by (apply elem_of_cons; by left).
    + rewrite lookup_insert_ne by done. destruct (decide (x ∈ ids)) as [Hv|Hv].
      * by rewrite decide_True by (apply elem_of_cons; by right).
      * rewrite decide_False; [done|]. intros E. by apply elem_of_cons in E as [?|?].
Qed.

Lemma flat_map_length_le {A B} (f : A -> list B) l : (forall x, (length (f x) <= 1)%nat) ->
  (length (flat_map f l) <= length l)%nat.
Proof. intros H. induction l as [|x l IH]; simpl; [done|]. rewrite length_app. specialize (H x). lia. Qed.

Lemma compact_step s : store_inv s -> sequence_room s ->
  exists s', compact CompactDone s = (s', Ok tt) /\ store_inv s' /\ ms_records s' = ms_records s /\
    ms_order s' = ms_order s /\ ms_coordinator_state s' = ms_coordinator_state s /\
    ms_next_sequence s' = ms_next_sequence s /\ ms_options s' = ms_options s.
Proof.
  intros Hs Hroom. pose proof Hs as [Ho Hopen Hoff Hix Hlog Hcnt]. unfold sequence_room in Hroom.
  unfold compact. eexists. split; [reflexivity|]. split; [|done].
  split; try done; [by destruct Hix; split|].
  set (movs := flat_map (fun id => match ms_records s !! id with
                 | Some r => [(kRecordMovement, MovementRecord_encode r)] | None => [] end) (ms_order s)).
  set (cs := match ms_coordinator_state s with
             | Some c => [(kRecordCoordinatorState, CoordinatorPersistentState_encode c)]
             | None => [] end).
  assert (zlen movs <= zlen (ms_order s)) as Hml.
  { unfold movs, zlen. apply inj_le, flat_map_length_le. intros id. destruct (ms_records s !! id); simpl; lia. }
  assert (zlen cs = coord_count s) as Hcl by (unfold cs, coord_count; by destruct (ms_coordinator_state s)).
  assert (Forall (fun id => is_Some (ms_records s !! id)) (ms_order s)) as Hall.
  { rewrite Forall_forall. intros id Hid. apply (ix_dom s Hix). by apply list_elem_of_In. }
  destruct (replay_movements s (ms_order s) Hix Ho (ix_nodup s Hix) Hall
    (empty_store (ms_options s) []) 0 eq_refl) as (s2 & Hre & Hord2 & Hopt2 & Hco2 & Hr2).
  { rewrite Forall_forall. intros id _. apply lookup_empty. }
  fold movs in Hre.
  assert (mirrors s2 (with_index s (ms_records s) (ms_order s) None (ms_stats s))) as Hm2.
  { split_and!; simpl; try done. apply map_eq. intros id. rewrite Hr2, lookup_fmap.
    destruct (decide (id ∈ ms_order s)) as [Hin|Hin]; [done|].
    destruct (ms_records s !! id) eqn:E; [|done]. exfalso. apply Hin, (ix_dom s Hix). by rewrite E. }
  assert (exists s3, replay s2 (number_from (0 + zlen movs) cs) = Ok s3 /\ mirrors s3 s) as (s3 & Hre3 & Hm3).
  { unfold cs. destruct (ms_coordinator_state s) as [c|] eqn:Ec.
    - cbn [number_from replay fst snd].
      destruct (replay_coord s2 (with_index s (ms_records s) (ms_order s) None (ms_stats s)) c Ho Hm2
        (ix_coord s Hix c Ec)) as (s3 & Ha & Hm3). rewrite Ha.
      exists s3. split; [done|]. destruct Hm3 as (M1 & M2 & M3 & M4). simpl in *. split_and!; congruence.
    - exists s2. split; [done|]. destruct Hm2 as (M1 & M2 & M3 & M4). simpl in *. split_and!; congruence. }
  assert (Forall (fun r => in_u 8 r.1 /\ zlen r.2 <= so_max_record_bytes (ms_options s)) (movs ++ cs)) as Hfr.
  { apply Forall_app. split.
    - unfold movs. rewrite Forall_forall. intros [t p] Hin. apply in_flat_map in Hin as (id & _ & Hin).
      destruct (ms_records s !! id) as [r|] eqn:Er; [|done]. destruct Hin as [[= <- <-]|[]].
      split; [by vm_compute|]. apply (ix_recs s Hix _ _ Er).
    - unfold cs. destruct (ms_coordinator_state s) as [c|] eqn:Ec; [|constructor].
      constructor; [|constructor]. split; [by vm_compute|]. simpl.
      unfold CoordinatorPersistentState_encode. autorewrite with enc_len.
      rewrite zlen_enc_digest by apply (ix_coord s Hix c Ec). destruct Ho as (_ & ? & _). lia. }
  assert (coord_count s <= 1) by (unfold coord_count; destruct (ms_coordinator_state s); lia).
  destruct (number_from_ok (ms_options s) (movs ++ cs) 0) as [Hlok Hlast]; [done| |done|].
  { rewrite zlen_app. lia. }
  exists (number_from 0 (movs ++ cs)), s3. simpl. split_and!.
  - unfold compact_records. fold movs cs. by rewrite compact_frames_log.
  - done.
  - rewrite Hlast, zlen_app. lia.
  - rewrite number_from_app, replay_app, Hre. cbn [rbind]. exact Hre3.
  - exact Hm3.
Qed.

(** *** Restart *)

Definition live_count (s : MovementStore) : Z := zlen (ms_order s) + coord_count s.

Lemma apply_record_count s t p s' : apply_record s t p = Ok s' -> live_count s' <= live_count s + 1.
Proof.
  unfold apply_record, live_count. intros H. split_ifs H; apply rbind_Ok in H as (x & _ & H); injection H as <-.
  - pose proof (index_put_order s x). unfold coord_count.
    change (ms_coordinator_state (index_put s x)) with (ms_coordinator_state s). lia.
  - unfold coord_count. simpl. destruct (ms_coordinator_state s); lia.
  - destruct (bool_decide _); [lia|]. unfold coord_count. simpl.
    pose proof (order_remove_length x (ms_order s)). destruct (ms_coordinator_state s); lia.
Qed.

Lemma replay_count recs : forall s s', replay s recs = Ok s' -> live_count s' <= live_count s + zlen recs.
Proof.
  induction recs as [|r recs IH]; intros s s' H; simpl in H; [injection H as <-; unfold zlen; simpl; lia|].
  apply rbind_Ok in H as (s1 & Ha & H). apply IH in H. apply apply_record_count in Ha.
  unfold zlen in *. simpl length. lia.
Qed.

Lemma index_inv_mirrors s1 s : mirrors s1 s -> index_inv s -> index_inv s1.
Proof.
  intros (Ho & Hr & Hord & Hc) [H1 H2 H3 H4]. split; rewrite ?Hord, ?Hr, ?Hc, ?Ho; try done.
  - intros id. rewrite H2, lookup_fmap. by destruct (ms_records s !! id).
  - intros id r. rewrite lookup_fmap. destruct (ms_records s !! id) as [r0|] eqn:E; [|done].
    intros [= <-]. destruct (H3 _ _ E) as (Hid & Hinv & Hlen). split_and!; try done.
    apply movement_ok_inv. by apply reloaded_ok.
Qed.

Lemma mirrors_self s1 s : mirrors s1 s -> mirrors s1 s1.
Proof.
  intros (Ho & Hr & Hord & Hc). split_and!; try done. rewrite Hr. apply map_eq. intros id.
  rewrite !lookup_fmap. by destruct (ms_records s !! id).
Qed.

Lemma open_records o recs tail s1 : options_ok o -> log_ok o 0 recs -> log_tail o tail ->
  last_seq 0 recs < 2 ^ 64 - 1 -> replay (empty_store o []) recs = Ok s1 -> index_inv s1 ->
  ms_records s1 = reloaded <$> ms_records s1 ->
  exists s' rp, MovementStore_open o (file_header ++ log_frames recs ++ tail) = Ok (s', rp) /\
    store_inv s' /\ ms_options s' = o /\ ms_records s' = ms_records s1 /\ ms_order s' = ms_order s1 /\
    ms_coordinator_state s' = ms_coordinator_state s1 /\ ms_file s' = file_header ++ log_frames recs /\
    rp_records_applied rp = zlen recs /\ rp_truncated_bytes rp = zlen tail /\
    (rp_partial_tail_truncated rp = false <-> tail = []).
Proof.
  intros Ho Hok Ht Hroom Hre Hix Hself.
  destruct (open_log o recs tail s1 Ho Hok Ht Hre)
    as (s' & rp & Hop & Eo & Er & Eord & Ec & Eop & Ef & Eoff & En & R1 & R2 & R3 & R4).
  exists s', rp. split; [done|]. split; [|done].
  pose proof (last_seq_ge _ _ _ Hok) as Hge. pose proof (zlen_nonneg recs).
  assert (ms_next_sequence s' = last_seq 0 recs + 1) as En'
    by (rewrite En; apply wrap_small; unfold in_u; lia).
  pose proof (replay_options _ _ _ Hre) as Ho1. cbn [ms_options empty_store] in Ho1. split; try done.
  - by rewrite Eo.
  - destruct Hix as [H1 H2 H3 H4]. split; rewrite ?Eord, ?Er, ?Ec, ?Eo; try done. by rewrite <- Ho1.
  - exists recs, s1. rewrite Eo, En'. split_and!; try done; try lia.
    split_and!; congruence.
  - pose proof (replay_count _ _ _ Hre) as Hc. unfold live_count, coord_count in *. simpl in Hc.
    change (zlen []) with 0 in Hc. rewrite Eord, Ec, En'. lia.
Qed.

Lemma restart_step s : store_inv s -> sequence_room s ->
  exists s' rp, MovementStore_open (ms_options s) (ms_file s) = Ok (s', rp) /\ store_inv s' /\
    mirrors s' s /\ ms_file s' = ms_file s /\ rp_partial_tail_truncated rp = false.
Proof.
  intros [Ho Hopen Hoff Hix (recs & s1 & Hf & Hok & Hlast & Hre & Hm) Hcnt] Hroom.
  unfold sequence_room in Hroom. pose proof (zlen_nonneg (ms_order s)).
  destruct (open_records (ms_options s) recs [] s1 Ho Hok (tail_clean _)) as
    (s' & rp & Hop & Hs' & Eo & Er & Eord & Ec & Ef & _ & _ & R4); [lia|done|by eapply index_inv_mirrors| |].
  { apply (mirrors_self s1 s Hm). }
  rewrite app_nil_r, <- Hf in *. exists s', rp. split_and!; try done; [|by apply R4].
  destruct Hm as (M1 & M2 & M3 & M4). split_and!; congruence.
Qed.

(** *** A cut log *)

Lemma log_cut recs : forall n, (n <= length (log_frames recs))%nat ->
  exists a b, recs = a ++ b /\
    (take n (log_frames recs) = log_frames a \/
     exists r b' k, b = r :: b' /\ (0 < k < length (frame_of r))%nat /\
       take n (log_frames recs) = log_frames a ++ take k (frame_of r)).
Proof.
  induction recs as [|r recs IH]; intros n Hn.
  - exists [], []. split; [done|]. left. apply take_nil.
  - assert (log_frames (r :: recs) = frame_of r ++ log_frames recs) as El by done. rewrite El in *.
    destruct (decide (n = 0)%nat) as [->|Hn0]; [exists [], (r :: recs); split; [done|by left]|].
    destruct (decide (n < length (frame_of r))%nat) as [Hlt|Hge].
    + exists [], (r :: recs). split; [done|]. right. exists r, recs, n. split_and!; [done|lia|lia|].
      by rewrite take_app_le by lia.
    + rewrite length_app in Hn. destruct (IH (n - length (frame_of r))%nat ltac:(lia)) as (a & b & -> & Hc).
      exists (r :: a), b. split; [done|].
      assert (take n (frame_of r ++ log_frames (a ++ b)) =
              frame_of r ++ take (n - length (frame_of r)) (log_frames (a ++ b))) as Et
        by (by rewrite take_app_ge by lia).
      rewrite Et. change (log_frames (r :: a)) with (frame_of r ++ log_frames a). destruct Hc as [->|Hc].
      * by left.
      * destruct Hc as (r1 & b' & k & -> & Hk & ->). right. exists r1, b', k.
        split_and!; try done; try lia. by rewrite app_assoc.
Qed.

(** Every index a log replays to, prefix by prefix, holds decoded records. *)
Lemma apply_record_index o s t p s' : options_ok o -> ms_options s = o ->
  zlen p <= so_max_record_bytes o -> index_inv s -> ms_records s = reloaded <$> ms_records s ->
  apply_record s t p = Ok s' -> index_inv s' /\ ms_records s' = reloaded <$> ms_records s'.
Proof.
  intros Ho Eo Hp Hix Hself H. pose proof (store_limits_roomy _ Ho) as Hroom.
  pose proof (store_limits_input o p Ho Hp) as Hin.
  unfold apply_record in H. rewrite Eo in H. split_ifs H; apply rbind_Ok in H as (x & Hd & H); injection H as <-.
  - apply (decode_all_canonical _ _ _ movement_ok) in Hd as [Hok ->]; [|done].
    split; [apply index_put_inv; [done|by apply movement_ok_inv|by rewrite Eo]|].
    unfold index_put. simpl. rewrite fmap_insert, <- Hself. f_equal.
    destruct Hok as (_ & _ & (_ & Hb & _) & _). unfold reloaded. destruct x as [??????????????????????????].
    unfold with_decision. simpl in *. f_equal. destruct m_provenance. simpl in *. by subst.
  - apply (decode_all_canonical _ _ _ persistent_ok) in Hd as [Hok ->]; [|done].
    split; [|done]. destruct Hix. split; simpl; try done. by intros ? [= <-].
  - destruct (bool_decide (ms_records s !! x = None)); [done|].
    split; [|by simpl; rewrite fmap_delete, <- Hself].
    destruct Hix as [H1 H2 H3 H4]. split; simpl; try done.
    + by apply order_remove_nodup.
    + intros id. rewrite order_remove_elem, H2.
      destruct (decide (id = x)) as [->|]; [rewrite lookup_delete_eq|rewrite lookup_delete_ne by done].
      * split; [tauto|]. by intros [? ?].
      * tauto.
    + intros id r Hid. apply lookup_delete_Some in Hid as [_ Hid]. by apply H3.
Qed.

Lemma replay_index o recs : forall s seq s', options_ok o -> ms_options s = o -> log_ok o seq recs ->
  index_inv s -> ms_records s = reloaded <$> ms_records s -> replay s recs = Ok s' ->
  index_inv s' /\ ms_records s' = reloaded <$> ms_records s'.
Proof.
  induction recs as [|r recs IH]; intros s seq s' Ho Eo Hok Hix Hself H; simpl in H; [by injection H as <-|].
  apply rbind_Ok in H as (s1 & Ha & H). destruct Hok as (_ & _ & Hp & Hok).
  pose proof (apply_record_options _ _ _ _ Ha) as Eo1.
  destruct (apply_record_index o s _ _ s1 Ho Eo Hp Hix Hself Ha). eapply (IH s1); try done. congruence.
Qed.

Lemma empty_index o : index_inv (empty_store o []).
Proof.
  split; simpl; try done; [apply NoDup_nil_2|].
  intros id. split; [by intros H%not_elem_of_nil|by intros [? ?]].
Qed.

(** *** Listing *)

Lemma list_loop_spec s offset c : forall i, (offset + i + c <= length (ms_order s))%nat ->
  list_loop s offset i c =
  omap (fun id => ms_records s !! id) (take c (drop (offset + i) (rev (ms_order s)))).
Proof.
  induction c as [|c IH]; intros i Hc; cbn [list_loop]; [by rewrite take_0|].
  assert (nth (length (ms_order s) - 1 - offset - i) (ms_order s) [] =
          nth (offset + i) (rev (ms_order s)) []) as ->.
  { rewrite rev_nth by lia. f_equal. lia. }
  destruct (lookup_lt_is_Some_2 (rev (ms_order s)) (offset + i)) as [id Hid];
    [rewrite length_rev; lia|].
  rewrite (drop_S _ id) by done. rewrite (nth_lookup_Some _ _ _ _ Hid).
  rewrite IH by lia. replace (offset + S i)%nat with (S (offset + i)) by lia.
  cbn [take]. cbn [omap list_omap]. by destruct (ms_records s !! id).
Qed.

(** ** Properties *)

(** The steps of a store's life, restarts included. *)
Inductive store_step (s : MovementStore) : MovementStore -> Prop :=
  | do_put r s' : movement_inv r ->
      zlen (MovementRecord_encode r) <= so_max_record_bytes (ms_options s) ->
      store_put no_faults s r = (s', Ok tt) -> store_step s s'
  | do_retire id s' st : store_retire no_faults s id = (s', st) -> store_step s s'
  | do_save c s' : persistent_ok c -> save_coordinator_state no_faults s c = (s', Ok tt) -> store_step s s'
  | do_compact s' : compact CompactDone s = (s', Ok tt) -> store_step s s'
  | do_restart s' rp : MovementStore_open (ms_options s) (ms_file s) = Ok (s', rp) -> store_step s s'.

Inductive store_run (s : MovementStore) : MovementStore -> Prop :=
  | run_here : store_run s s
  | run_step s1 s2 : store_run s s1 -> sequence_room s1 -> store_step s1 s2 -> store_run s s2.

Lemma store_step_inv s s' : store_inv s -> sequence_room s -> store_step s s' -> store_inv s'.
Proof.
  intros Hs Hroom []; pose proof (zlen_nonneg (ms_order s)).
  - destruct (put_step s r Hs Hroom) as (s2 & E & ? & _); [done..|]. congruence.
  - unfold store_retire in *.
    match goal with E : context [bool_decide ?P] |- _ => destruct (bool_decide P) eqn:Eb end; b2p;
      [congruence|].
    destruct (retire_step s id Hs) as (s1 & Ea & Hi & _); [unfold sequence_room in Hroom; lia|
      by apply not_eq_None_Some|]. rewrite Ea in *. congruence.
  - destruct (save_step s c Hs Hroom) as (s2 & E & ? & _); [done|]. congruence.
  - destruct (compact_step s Hs Hroom) as (s2 & E & ? & _). congruence.
  - destruct (restart_step s Hs Hroom) as (s2 & rp2 & E & ? & _). congruence.
Qed.

Lemma recover_end f s fs off seq rest rp : fs <= off ->
  recover_loop f s fs off seq rest rp = Ok (s, off, seq, rp).
Proof. intros H. destruct f; [done|]. cbn [recover_loop]. by rewrite (proj2 (Z.leb_le _ _) H). Qed.

Lemma fresh_store o : options_ok o -> exists s rp, MovementStore_open o [] = Ok (s, rp) /\
  store_inv s /\ ms_records s = ∅ /\ rp_created rp = true.
Proof.
  intros Ho. pose proof Ho as (Hdir & Hmax & Hhist). unfold MovementStore_open.
  rewrite (proj2 (bytes_eqb_neq _ _) Hdir).
  rewrite (proj2 (Z.eqb_neq (so_max_record_bytes o) 0)), (proj2 (Z.ltb_ge (64 * 2 ^ 20) _)) by lia.
  simpl orb. cbv iota. rewrite (proj2 (Z.eqb_neq (so_max_history_records o) 0)) by lia. cbv zeta.
  change (zlen [] =? 0) with true. cbn [rbind].
  assert (zlen file_header = 96) as E96 by (unfold zlen; by rewrite length_file_header).
  rewrite recover_end by (rewrite E96; done). cbn [rbind]. eexists _, _. split; [reflexivity|]. split; [|done].
  split; [exact Ho|done|by symmetry| | |done].
  - split; simpl; try done; [apply NoDup_nil_2|]. intros id. split; [by intros H%not_elem_of_nil|by intros [? ?]].
  - exists [], (empty_store o []). split; [symmetry; apply app_nil_r|]. split; [done|]. split; [done|].
    split; [done|]. by split_and!.
Qed.

Lemma store_run_inv s s' : store_inv s -> store_run s s' -> store_inv s'.
Proof. intros Hs. induction 1; [done|by eapply store_step_inv]. Qed.


(** (round trip, refinement) Restart restores the store: re-opening the log of
    any store in the invariant succeeds without discarding anything and yields
    the same order, coordinator state and records (each as its encoding reloads). *)
Theorem restart_restores_index (s : MovementStore) :
  store_inv s -> sequence_room s ->
  exists s' rp, MovementStore_open (ms_options s) (ms_file s) = Ok (s', rp) /\ store_inv s' /\
    ms_records s' = reloaded <$> ms_records s /\ ms_order s' = ms_order s /\
    ms_coordinator_state s' = ms_coordinator_state s /\ rp_partial_tail_truncated rp = false.
Proof.
  intros Hs Hroom. destruct (restart_step s Hs Hroom) as (s' & rp & Hop & Hs' & Hm & _ & Ht).
  destruct Hm as (_ & M2 & M3 & M4). exists s', rp. by split_and!.
Qed.

(** C17: (safety) Crash recovery: cutting the log at any byte after the file header
    loses only a suffix of the records.  The open succeeds, the store it returns
    is the one a prefix of the records replays to, the file is cut back to those
    records, and the report says how many bytes of a torn record were dropped. *)
Theorem torn_log_recovers_prefix (s : MovementStore) (n : nat) :
  store_inv s -> sequence_room s -> (96 <= n <= length (ms_file s))%nat ->
  exists kept lost s1 s' rp,
    ms_file s = file_header ++ log_frames (kept ++ lost) /\
    replay (empty_store (ms_options s) []) kept = Ok s1 /\
    MovementStore_open (ms_options s) (take n (ms_file s)) = Ok (s', rp) /\ store_inv s' /\
    ms_records s' = ms_records s1 /\ ms_order s' = ms_order s1 /\
    ms_coordinator_state s' = ms_coordinator_state s1 /\
    ms_file s' = file_header ++ log_frames kept /\
    rp_truncated_bytes rp = Z.of_nat n - zlen (ms_file s') /\
    match lost with
    | [] => True
    | r :: _ => Z.of_nat n < zlen (ms_file s') + zlen (frame_of r)
    end.
Proof.
  intros [Ho Hopen Hoff Hix (recs & s0 & Hf & Hok & Hlast & Hre & Hm) Hcnt] Hroom Hn.
  unfold sequence_room in Hroom. pose proof (zlen_nonneg (ms_order s)).
  assert (length file_header = 96%nat) as E96 by apply length_file_header.
  rewrite Hf in Hn. rewrite length_app, E96 in Hn.
  assert (take n (ms_file s) = file_header ++ take (n - 96) (log_frames recs)) as Et.
  { rewrite Hf, take_app_ge, E96 by lia. done. }
  destruct (log_cut recs (n - 96)%nat ltac:(lia)) as (a & b & -> & Hcut).
  apply log_ok_app in Hok as [Hoka Hokb]. rewrite replay_app in Hre.
  apply rbind_Ok in Hre as (s1 & Hre1 & _).
  assert (last_seq 0 a < 2 ^ 64 - 1) as Hla.
  { pose proof (last_seq_ge _ _ _ Hokb). rewrite last_seq_app in Hlast. pose proof (zlen_nonneg b). lia. }
  destruct (replay_index (ms_options s) a (empty_store (ms_options s) []) 0 s1 Ho eq_refl Hoka
    (empty_index _)) as [Hix1 Hself1]; [done|done|].
  assert (Hlen : forall x, take (n - 96) (log_frames (a ++ b)) = log_frames a ++ x ->
            Z.of_nat n - zlen (file_header ++ log_frames a) = zlen x).
  { intros x Hx. apply (f_equal length) in Hx. rewrite length_take, length_app in Hx.
    unfold zlen. rewrite length_app, E96. lia. }
  destruct Hcut as [Hcut|(r & b' & k & -> & Hk & Hcut)].
  - rewrite <- (app_nil_r (log_frames a)) in Hcut.
    destruct (open_records _ a [] s1 Ho Hoka (tail_clean _) Hla Hre1 Hix1 Hself1) as
      (s' & rp & Hop & Hs' & _ & Er & Eord & Ec & Ef & _ & R2 & _).
    exists a, b, s1, s', rp. rewrite Et, Hcut, Ef, (Hlen [] Hcut). split_and!; try done.
    destruct b as [|r b]; [done|]. rewrite zlen_frame. pose proof (zlen_nonneg r.2).
    pose proof (Hlen [] Hcut) as Hz. change (zlen []) with 0 in Hz. lia.
  - destruct Hokb as (_ & _ & Hp & _).
    destruct (open_records _ a _ s1 Ho Hoka (tail_torn _ r k Hp Hk) Hla Hre1 Hix1 Hself1) as
      (s' & rp & Hop & Hs' & _ & Er & Eord & Ec & Ef & _ & R2 & _).
    exists a, (r :: b'), s1, s', rp. rewrite Et, Hcut, Ef, (Hlen _ Hcut). split_and!; try done.
    pose proof (Hlen _ Hcut) as Hz. unfold zlen at 2 in Hz. rewrite length_take in Hz.
    unfold zlen at 2. lia.
Qed.

(** (safety) A successful put is visible at once unless retention drops it, and
    retention only ever drops terminal movements: every movement still active
    after the put, and every movement while the history bound is not exceeded,
    is in the index with exactly the value last put. *)
Theorem put_keeps_active_movements (s : MovementStore) (r : MovementRecord) :
  store_inv s -> sequence_room s -> movement_inv r ->
  zlen (MovementRecord_encode r) <= so_max_record_bytes (ms_options s) ->
  exists s', store_put no_faults s r = (s', Ok tt) /\ store_inv s' /\
    ms_records s' ⊆ <[m_id r := r]> (ms_records s) /\
    (forall id r0, <[m_id r := r]> (ms_records s) !! id = Some r0 ->
       is_terminal (m_state r0) = false \/
       map_size (<[m_id r := r]> (ms_records s)) <= so_max_history_records (ms_options s) ->
       (store_get s' id).2 = Ok r0).
Proof.
  intros Hs Hroom Hr Hl. destruct (put_step s r Hs Hroom Hr Hl) as (s' & E & Hs' & _ & _ & Hsub & Hk).
  exists s'. split_and!; try done. intros id r0 Hid Hc. unfold store_get. simpl. by rewrite (Hk id r0 Hid Hc).
Qed.

(** (functional) Listing returns the requested window of the history, newest
    first. *)
Theorem list_is_newest_first (s : MovementStore) (limit offset : Z) :
  0 <= limit -> 0 <= offset ->
  store_list s limit offset =
  omap (fun id => ms_records s !! id) (take (Z.to_nat limit) (drop (Z.to_nat offset) (rev (ms_order s)))).
Proof.
  intros Hl Ho. unfold store_list. destruct (Z.leb_spec (zlen (ms_order s)) offset) as [Hle|Hgt]; unfold zlen in *.
  - rewrite (drop_ge (rev (ms_order s))) by (rewrite length_rev; lia). by rewrite take_nil.
  - rewrite list_loop_spec by lia. f_equal. rewrite Nat.add_0_r.
    destruct (decide (limit <= Z.of_nat (length (ms_order s)) - offset)) as [Hx|Hx].
    + f_equal. lia.
    + rewrite !take_ge; [done|..]; rewrite length_drop, length_rev; lia.
Qed.

(** *** Witnesses *)

Definition demo_options : MovementStoreOptions :=
  mkStoreOptions (lit "/var/lib/smf") (4 * 2 ^ 20) (256 * 2 ^ 20) 200000 10000 true true.

Lemma demo_options_ok : options_ok demo_options.
Proof. split; [done|]. split; vm_compute; [split|]; congruence. Qed.

Definition demo_store : MovementStore :=
  match MovementStore_open demo_options [] with
  | Ok (s, _) => s
  | Err _ => empty_store demo_options []
  end.

Lemma demo_store_open : exists rp, MovementStore_open demo_options [] = Ok (demo_store, rp).
Proof.
  destruct (fresh_store demo_options demo_options_ok) as (s & rp & E & _).
  unfold demo_store. rewrite E. eauto.
Qed.

Lemma demo_store_inv : store_inv demo_store.
Proof.
  destruct (fresh_store demo_options demo_options_ok) as (s & rp & E & Hs & _).
  unfold demo_store. rewrite E. exact Hs.
Qed.

Lemma demo_store_room : sequence_room demo_store.
Proof. vm_compute. reflexivity. Qed.

Lemma demo_planned_fits :
  zlen (MovementRecord_encode demo_planned) <= so_max_record_bytes (ms_options demo_store).
Proof. vm_compute. congruence. Qed.

Definition demo_store_put : MovementStore := (store_put no_faults demo_store demo_planned).1.

Lemma demo_put_ok : store_put no_faults demo_store demo_planned = (demo_store_put, Ok tt).
Proof.
  destruct (put_step demo_store demo_planned demo_store_inv demo_store_room demo_planned_inv
    demo_planned_fits) as (s' & E & _). unfold demo_store_put. rewrite E. reflexivity.
Qed.

Lemma demo_store_put_inv : store_inv demo_store_put.
Proof.
  eapply store_step_inv; [exact demo_store_inv|exact demo_store_room|].
  eapply do_put; [exact demo_planned_inv|exact demo_planned_fits|exact demo_put_ok].
Qed.

Lemma demo_store_put_room : sequence_room demo_store_put.
Proof. vm_compute. reflexivity. Qed.


Lemma restart_restores_index_witness :
  exists s' rp, MovementStore_open (ms_options demo_store_put) (ms_file demo_store_put) = Ok (s', rp) /\
    ms_records s' = reloaded <$> ms_records demo_store_put.
Proof.
  destruct (restart_restores_index demo_store_put demo_store_put_inv demo_store_put_room)
    as (s' & rp & E & _ & R & _). exists s', rp. split; [exact E|exact R].
Defined.

Lemma torn_log_recovers_prefix_witness :
  exists s' rp,
    MovementStore_open (ms_options demo_store_put) (take 100 (ms_file demo_store_put)) = Ok (s', rp) /\
    store_inv s'.
Proof.
  destruct (torn_log_recovers_prefix demo_store_put 100 demo_store_put_inv demo_store_put_room)
    as (kept & lost & s1 & s' & rp & _ & _ & E & Hs & _).
  - split; apply Nat.leb_le; vm_compute; reflexivity.
  - exists s', rp. split; [exact E|exact Hs].
Defined.

Lemma put_keeps_active_movements_witness :
  exists s', store_put no_faults demo_store_put demo_planned = (s', Ok tt) /\ store_inv s'.
Proof.
  destruct (put_keeps_active_movements demo_store_put demo_planned demo_store_put_inv
    demo_store_put_room demo_planned_inv ltac:(vm_compute; congruence)) as (s' & E & Hs & _).
  exists s'. split; [exact E|exact Hs].
Defined.

Lemma list_is_newest_first_witness : store_list demo_store_put 10 0 = [demo_planned].
Proof.
  rewrite (list_is_newest_first demo_store_put 10 0) by lia. vm_compute. reflexivity.
Defined.

(** (error) A failed append does not shorten the file, and the next append
    overwrites it in place.  If the next record is shorter, the remains of the
    failed one follow it, and the log can no longer be opened although every
    put that reported success was valid. *)
Theorem failed_append_can_corrupt_log :
  exists (io : IoPlan) (s s1 s2 : MovementStore) (long short : MovementRecord) (e : Status),
    store_inv s /\ movement_inv long /\ movement_inv short /\
    store_put io s long = (s1, Err e) /\ store_put no_faults s1 short = (s2, Ok tt) /\
    MovementStore_open (ms_options s2) (ms_file s2) =
      fail RC.STORE_CORRUPT "store record magic does not match".
Proof.
  set (long := demo_movement MS.PLANNED (replicate 300 x61) demo_chain).
  set (io := fun q : Z => if q =? 1 then
    Some (mkFault 5000 (mkStatus RC.STORE_IO_ERROR (lit "fsync failed"))) else None).
  set (s1 := (store_put io demo_store long).1). set (s2 := (store_put no_faults s1 demo_planned).1).
  assert (movement_inv long) as Hlong.
  { pose proof demo_planned_inv as (Hr & Hv & Hc & Hf & _). split; [by split|].
    split; [destruct Hv; split; try done; vm_compute; congruence|].
    split; [done|]. split; [done|]. by vm_compute. }
  exists io, demo_store, s1, s2, long, demo_planned, (mkStatus RC.STORE_IO_ERROR (lit "fsync failed")).
  split; [exact demo_store_inv|]. split; [exact Hlong|]. split; [exact demo_planned_inv|].
  split; [|split]; vm_compute; reflexivity.
Qed.
