(* ===== verification/Framing.v ===== *)
(** * Framing (src/src/framing.cpp, include/smf/framing.hpp)

    The fixed 40-byte frame header, the per-session codec (authentication tag,
    sequence numbers, handshake gating) and the framed stream over a byte
    connection.  The connection itself is an interface, [Connection]: what the
    stream relies on is that a read returns a non-empty piece of the pending
    bytes, in order, and at most as many as asked for ([ConnectionLaws]).  The
    stream theorems are proved against the interface; [Pipe], a connection that
    delivers its bytes in arbitrary segments, implements it. *)
From S2P Require Import Prelude Status Bytes Digest Codec.

(** ** Message types *)

Module MT.
Inductive MessageType : Type :=
  | INVALID
  | HELLO | HELLO_ACK | HELLO_REJECT
  | REGISTER | REGISTER_ACK | ANNOUNCE_OBJECT | ANNOUNCE_ACK | HEARTBEAT | HEARTBEAT_ACK
  | GRANT_TRANSFER | GRANT_ACK | EXECUTE_MOVEMENT | ATTEMPT_RESULT | CANCEL | CANCEL_ACK
  | COMMIT_REQUEST | COMMIT_RESULT | VERIFY_REQUEST | VERIFY_RESPONSE
  | AUTHORITY_QUERY | AUTHORITY_REPORT | CLEANUP_REQUEST | CLEANUP_RESULT
  | DATA_BEGIN | DATA_BEGIN_ACK | DATA_CHUNK | DATA_CHUNK_ACK | DATA_END | DATA_RESULT | DATA_ABORT
  | SUBMIT_MOVEMENT | MOVEMENT_ACCEPTED | QUERY_MOVEMENT | MOVEMENT_STATUS
  | LIST_MOVEMENTS | MOVEMENT_LIST | CANCEL_MOVEMENT | RECONCILE_MOVEMENT
  | PROVENANCE_REQUEST | PROVENANCE_REPORT | TOPOLOGY_REQUEST | TOPOLOGY_REPORT
  | POLICY_REQUEST | POLICY_REPORT | SHUTDOWN | SHUTDOWN_ACK
  | ERROR.
End MT.
Abbreviation MessageType := MT.MessageType.

#[global] Instance message_type_eq_dec : EqDecision MessageType.
Proof. solve_decision. Defined.

Definition entry (t : MessageType) (v : Z) (s : String.string) := (t, v, s).
Arguments entry _ _%_Z_scope _%_string_scope.

(** The value and the printed name of every enumerator. *)
Definition message_type_table : list (MessageType * Z * String.string) :=
  [ entry MT.INVALID 0 "INVALID";
    entry MT.HELLO 1 "HELLO"; entry MT.HELLO_ACK 2 "HELLO_ACK"; entry MT.HELLO_REJECT 3 "HELLO_REJECT";
    entry MT.REGISTER 10 "REGISTER"; entry MT.REGISTER_ACK 11 "REGISTER_ACK";
    entry MT.ANNOUNCE_OBJECT 12 "ANNOUNCE_OBJECT"; entry MT.ANNOUNCE_ACK 13 "ANNOUNCE_ACK";
    entry MT.HEARTBEAT 14 "HEARTBEAT"; entry MT.HEARTBEAT_ACK 15 "HEARTBEAT_ACK";
    entry MT.GRANT_TRANSFER 20 "GRANT_TRANSFER"; entry MT.GRANT_ACK 21 "GRANT_ACK";
    entry MT.EXECUTE_MOVEMENT 22 "EXECUTE_MOVEMENT"; entry MT.ATTEMPT_RESULT 23 "ATTEMPT_RESULT";
    entry MT.CANCEL 24 "CANCEL"; entry MT.CANCEL_ACK 25 "CANCEL_ACK";
    entry MT.COMMIT_REQUEST 30 "COMMIT_REQUEST"; entry MT.COMMIT_RESULT 31 "COMMIT_RESULT";
    entry MT.VERIFY_REQUEST 32 "VERIFY_REQUEST"; entry MT.VERIFY_RESPONSE 33 "VERIFY_RESPONSE";
    entry MT.AUTHORITY_QUERY 34 "AUTHORITY_QUERY"; entry MT.AUTHORITY_REPORT 35 "AUTHORITY_REPORT";
    entry MT.CLEANUP_REQUEST 36 "CLEANUP_REQUEST"; entry MT.CLEANUP_RESULT 37 "CLEANUP_RESULT";
    entry MT.DATA_BEGIN 40 "DATA_BEGIN"; entry MT.DATA_BEGIN_ACK 41 "DATA_BEGIN_ACK";
    entry MT.DATA_CHUNK 42 "DATA_CHUNK"; entry MT.DATA_CHUNK_ACK 43 "DATA_CHUNK_ACK";
    entry MT.DATA_END 44 "DATA_END"; entry MT.DATA_RESULT 45 "DATA_RESULT";
    entry MT.DATA_ABORT 46 "DATA_ABORT";
    entry MT.SUBMIT_MOVEMENT 50 "SUBMIT_MOVEMENT"; entry MT.MOVEMENT_ACCEPTED 51 "MOVEMENT_ACCEPTED";
    entry MT.QUERY_MOVEMENT 52 "QUERY_MOVEMENT"; entry MT.MOVEMENT_STATUS 53 "MOVEMENT_STATUS";
    entry MT.LIST_MOVEMENTS 54 "LIST_MOVEMENTS"; entry MT.MOVEMENT_LIST 55 "MOVEMENT_LIST";
    entry MT.CANCEL_MOVEMENT 56 "CANCEL_MOVEMENT"; entry MT.RECONCILE_MOVEMENT 57 "RECONCILE_MOVEMENT";
    entry MT.PROVENANCE_REQUEST 58 "PROVENANCE_REQUEST"; entry MT.PROVENANCE_REPORT 59 "PROVENANCE_REPORT";
    entry MT.TOPOLOGY_REQUEST 60 "TOPOLOGY_REQUEST"; entry MT.TOPOLOGY_REPORT 61 "TOPOLOGY_REPORT";
    entry MT.POLICY_REQUEST 62 "POLICY_REQUEST"; entry MT.POLICY_REPORT 63 "POLICY_REPORT";
    entry MT.SHUTDOWN 64 "SHUTDOWN"; entry MT.SHUTDOWN_ACK 65 "SHUTDOWN_ACK";
    entry MT.ERROR 99 "ERROR" ].

(** [static_cast<std::uint16_t>(type)] *)
Definition message_type_value (type : MessageType) : Z :=
  match find (fun e => bool_decide (e.1.1 = type)) message_type_table with
  | Some (_, v, _) => v
  | None => 0
  end.

Definition message_type_to_string (type : MessageType) : bytes :=
  match find (fun e => bool_decide (e.1.1 = type)) message_type_table with
  | Some (_, _, s) => lit s
  | None => lit "UNRECOGNIZED_MESSAGE_TYPE"
  end.

(** [static_cast<MessageType>(value)] on the value of an enumerator. *)
Definition message_type_cast (value : Z) : MessageType :=
  match find (fun e => e.1.2 =? value) message_type_table with
  | Some (t, _, _) => t
  | None => MT.INVALID
  end.

Definition message_type_from_value (value : Z) : option MessageType :=
  if value =? 0 then None
  else if value =? 99 then Some MT.ERROR
  else if (1 <=? value) && (value <=? 3) then Some (message_type_cast value)
  else if (10 <=? value) && (value <=? 15) then Some (message_type_cast value)
  else if (20 <=? value) && (value <=? 25) then Some (message_type_cast value)
  else if (30 <=? value) && (value <=? 37) then Some (message_type_cast value)
  else if (40 <=? value) && (value <=? 46) then Some (message_type_cast value)
  else if (50 <=? value) && (value <=? 65) then Some (message_type_cast value)
  else None.

Definition is_handshake_message (type : MessageType) : bool :=
  match type with MT.HELLO | MT.HELLO_ACK | MT.HELLO_REJECT => true | _ => false end.

(** ** Frame header *)

Definition FF_AUTHENTICATED : Z := 1.
Definition FF_RESPONSE : Z := 2.
Definition FF_ERROR : Z := 4.
Definition kKnownFlags : Z := Z.lor (Z.lor FF_AUTHENTICATED FF_RESPONSE) FF_ERROR.
Definition kFrameMagic : bytes := lit "SMF1".
Definition kProtocolVersion : Z := 1.
Definition kVersionString : bytes := lit "1.0.2".
Definition kFrameHeaderBytes : nat := 40.
Definition kFrameAuthTagBytes : nat := 16.

Record FrameHeader := mkFrameHeader {
  fh_version : Z;
  fh_flags : Z;
  fh_type : MessageType;
  fh_payload_length : Z;
  fh_sequence : Z;
  fh_auth_tag : Digest }.

Record Frame := mkFrame { fr_header : FrameHeader; fr_payload : bytes }.

Definition Frame_authenticated (f : Frame) : bool :=
  negb (Z.land (fh_flags (fr_header f)) FF_AUTHENTICATED =? 0).
Definition Frame_is_error (f : Frame) : bool :=
  negb (Z.land (fh_flags (fr_header f)) FF_ERROR =? 0).

(** The bytes written at offsets 0 to 24, the part the tag covers, and then the
    whole header; offsets 6-7 and 10-11 stay zero after the [memset]. *)
Definition header_prefix (h : FrameHeader) : bytes :=
  kFrameMagic ++ [bz (fh_version h); bz (fh_flags h)] ++ [x00; x00]
    ++ store_le (message_type_value (fh_type h)) 2 ++ [x00; x00]
    ++ store_le (fh_payload_length h) 4 ++ store_le (fh_sequence h) 8.

Definition encode_frame_header (h : FrameHeader) (out : bytes) : bytes :=
  if Nat.ltb (length out) kFrameHeaderBytes then out
  else header_prefix h ++ take kFrameAuthTagBytes (fh_auth_tag h) ++ drop kFrameHeaderBytes out.

(** [in.data() + offset], [width] bytes. *)
Definition sub_bytes (buf : bytes) (offset width : nat) : bytes := take width (drop offset buf).

Definition decode_frame_header (buf : bytes) (max_payload_bytes : Z) : Result FrameHeader :=
  if negb (Nat.eqb (length buf) kFrameHeaderBytes)
  then fail RC.PROTOCOL_TRUNCATED "frame header is not the fixed size"
  else if negb (bytes_eqb (sub_bytes buf 0 4) kFrameMagic)
  then fail RC.PROTOCOL_MAGIC_MISMATCH "frame magic does not match"
  else
  let version := zb (nth 4 buf x00) in
  if negb (version =? kProtocolVersion)
  then fail RC.PROTOCOL_VERSION_MISMATCH "frame protocol version is not supported"
  else
  let flags := zb (nth 5 buf x00) in
  if negb (Z.land flags (wrap 8 (Z.lnot kKnownFlags)) =? 0)
  then fail RC.PROTOCOL_FLAGS_INVALID "frame carries unknown flag bits"
  else if negb (load_le (sub_bytes buf 6 2) =? 0) || negb (load_le (sub_bytes buf 10 2) =? 0)
  then fail RC.PROTOCOL_RESERVED_NONZERO "frame reserved fields must be zero"
  else
  let raw_type := load_le (sub_bytes buf 8 2) in
  if 0xFFFF <? raw_type
  then fail RC.PROTOCOL_MALFORMED "frame message type is out of range"
  else
  match message_type_from_value raw_type with
  | None => fail RC.PROTOCOL_UNKNOWN_MESSAGE "frame message type is not recognized"
  | Some type =>
    let payload_length := load_le (sub_bytes buf 12 4) in
    if max_payload_bytes <? payload_length
    then fail RC.PROTOCOL_PAYLOAD_TOO_LARGE "frame declares a payload longer than the permitted bound"
    else
    let sequence := load_le (sub_bytes buf 16 8) in
    if sequence =? 0
    then fail RC.PROTOCOL_CANONICAL_VIOLATION "frame sequence numbers start at one"
    else
    let tag := sub_bytes buf 24 kFrameAuthTagBytes ++ replicate 16 x00 in
    Ok (mkFrameHeader version flags type payload_length sequence tag)
  end.

Definition frame_auth_tag (session_key : bytes) (h : FrameHeader) (payload : bytes) : Digest :=
  let prefix := encode_frame_header h (replicate kFrameHeaderBytes x00) in
  let mac := HmacSha256_init session_key in
  let mac := HmacSha256_update mac (take 24 prefix) in
  let mac := HmacSha256_update mac payload in
  HmacSha256_finalize mac.

(** ** Codec state *)

Record FrameCodec := mkFrameCodec {
  fc_key : option Digest;
  fc_send_sequence : Z;
  fc_expected_sequence : Z }.

Definition FrameCodec_init : FrameCodec := mkFrameCodec None 1 1.

Definition set_session_key (c : FrameCodec) (key : bytes) : FrameCodec :=
  let raw := take kDigestBytes key in
  mkFrameCodec (Some (raw ++ replicate (kDigestBytes - length raw) x00))
    (fc_send_sequence c) (fc_expected_sequence c).

Definition clear_session_key (c : FrameCodec) : FrameCodec :=
  mkFrameCodec None (fc_send_sequence c) (fc_expected_sequence c).

Definition reset_sequences (c : FrameCodec) : FrameCodec := mkFrameCodec (fc_key c) 1 1.

Definition key_set (c : FrameCodec) : bool := match fc_key c with Some _ => true | None => false end.

Definition bump_send (c : FrameCodec) : FrameCodec :=
  mkFrameCodec (fc_key c) (wrap 64 (fc_send_sequence c + 1)) (fc_expected_sequence c).
Definition bump_expected (c : FrameCodec) : FrameCodec :=
  mkFrameCodec (fc_key c) (fc_send_sequence c) (wrap 64 (fc_expected_sequence c + 1)).

(** The header [encode] builds: flags and tag change once a key is set. *)
Definition outbound_header (c : FrameCodec) (type : MessageType) (flags : Z) (payload : bytes)
  : FrameHeader :=
  let zero_tag := replicate kDigestBytes x00 in
  let len := wrap 32 (zlen payload) in
  match fc_key c with
  | None => mkFrameHeader kProtocolVersion flags type len (fc_send_sequence c) zero_tag
  | Some key =>
    let flags := Z.lor flags FF_AUTHENTICATED in
    let h := mkFrameHeader kProtocolVersion flags type len (fc_send_sequence c) zero_tag in
    mkFrameHeader kProtocolVersion flags type len (fc_send_sequence c) (frame_auth_tag key h payload)
  end.

Definition FrameCodec_encode (c : FrameCodec) (type : MessageType) (flags : Z) (payload : bytes)
    (max_payload_bytes : Z) : FrameCodec * Result bytes :=
  if max_payload_bytes <? zlen payload
  then (c, fail RC.PROTOCOL_PAYLOAD_TOO_LARGE "outbound payload exceeds the frame bound")
  else if is_handshake_message type && key_set c
  then (c, fail RC.PROTOCOL_STATE_VIOLATION
             "handshake messages are only exchanged before the session is keyed")
  else if negb (is_handshake_message type) && negb (key_set c)
  then (c, fail RC.PROTOCOL_HANDSHAKE_REQUIRED
             "a session must be authenticated before any other message is sent")
  else
    let header := outbound_header c type flags payload in
    let frame := encode_frame_header header (replicate kFrameHeaderBytes x00) ++ payload in
    (bump_send c, Ok frame).

(** The authentication part of [verify]. *)
Definition verify_authentication (c : FrameCodec) (h : FrameHeader) (payload : bytes) : Result unit :=
  let authenticated := negb (Z.land (fh_flags h) FF_AUTHENTICATED =? 0) in
  if is_handshake_message (fh_type h) then
    if authenticated
    then fail RC.PROTOCOL_STATE_VIOLATION "handshake messages must not be marked authenticated"
    else Ok tt
  else if negb authenticated
  then fail RC.PROTOCOL_HANDSHAKE_REQUIRED "unauthenticated frame arrived outside the handshake"
  else
  match fc_key c with
  | None => fail RC.PROTOCOL_HANDSHAKE_REQUIRED
              "authenticated frame arrived before the session key was established"
  | Some key =>
    let expected := frame_auth_tag key h payload in
    if negb (constant_time_equal (take kFrameAuthTagBytes expected)
               (take kFrameAuthTagBytes (fh_auth_tag h)))
    then fail RC.PROTOCOL_AUTH_FAILED "frame authentication tag did not verify"
    else Ok tt
  end.

Definition FrameCodec_verify (c : FrameCodec) (h : FrameHeader) (payload : bytes)
    (max_payload_bytes : Z) : FrameCodec * Result unit :=
  if max_payload_bytes <? zlen payload
  then (c, fail RC.PROTOCOL_PAYLOAD_TOO_LARGE "received payload exceeds the frame bound")
  else if negb (zlen payload =? fh_payload_length h)
  then (c, fail RC.PROTOCOL_TRUNCATED "received payload length does not match the declared length")
  else
  match verify_authentication c h payload with
  | Err e => (c, Err e)
  | Ok _ =>
    if fh_sequence h <? fc_expected_sequence c
    then (c, fail RC.PROTOCOL_SEQUENCE_REPLAY "frame sequence number has already been consumed")
    else if fc_expected_sequence c <? fh_sequence h
    then (c, fail RC.PROTOCOL_SEQUENCE_REGRESSION
               "frame sequence number skipped ahead of the expected value")
    else (bump_expected c, Ok tt)
  end.

(** ** Framed stream *)

(** What the stream uses of [TcpConnection]: [receive_some] returns up to [n]
    bytes, the empty string when the peer has closed. *)
Class Connection (C : Type) := {
  receive_some : C -> nat -> C * Result bytes;
  send_all : C -> bytes -> C * Result unit }.

Record FrameStream (C : Type) := mkFrameStream {
  fs_connection : C;
  fs_codec : FrameCodec;
  fs_max_payload_bytes : Z }.
Arguments mkFrameStream {C}.
Arguments fs_connection {C}.
Arguments fs_codec {C}.
Arguments fs_max_payload_bytes {C}.

Section stream.
Context {C : Type} `{!Connection C}.

(** [read_exactly]: the loop with [got] already in the buffer.  The returned
    flag is [*closed_by_peer].  Every turn reads at least one byte, so a buffer
    of [n] bytes needs at most [n] turns and the fuel is the buffer's size. *)
Fixpoint read_loop (fuel : nat) (c : C) (got : bytes) (size : nat) : C * bool * Result bytes :=
  if negb (Nat.ltb (length got) size) then (c, false, Ok got)
  else
  match fuel with
  | O => (c, false, Ok got)
  | S f =>
    match receive_some c (size - length got) with
    | (c', Err e) => (c', false, Err e)
    | (c', Ok received) =>
      if Nat.eqb (length received) 0 then
        if Nat.eqb (length got) 0
        then (c', true, fail RC.CONNECTION_CLOSED "peer closed the connection")
        else (c', false, fail RC.PROTOCOL_TRUNCATED "connection closed mid-frame")
      else read_loop f c' (got ++ received) size
    end
  end.

Definition read_exactly (c : C) (size : nat) : C * bool * Result bytes := read_loop size c [] size.

Definition FrameStream_send (s : FrameStream C) (type : MessageType) (payload : bytes)
    (extra_flags : Z) : FrameStream C * Result unit :=
  match FrameCodec_encode (fs_codec s) type extra_flags payload (fs_max_payload_bytes s) with
  | (codec, Err e) => (mkFrameStream (fs_connection s) codec (fs_max_payload_bytes s), Err e)
  | (codec, Ok frame) =>
    let '(conn, r) := send_all (fs_connection s) frame in
    (mkFrameStream conn codec (fs_max_payload_bytes s), r)
  end.

Definition FrameStream_receive (s : FrameStream C) : FrameStream C * Result Frame :=
  let with_conn conn := mkFrameStream conn (fs_codec s) (fs_max_payload_bytes s) in
  match read_exactly (fs_connection s) kFrameHeaderBytes with
  | (conn, peer_closed, Err e) =>
      (with_conn conn,
       if peer_closed then fail RC.CONNECTION_CLOSED "peer closed the connection" else Err e)
  | (conn, _, Ok header_bytes) =>
    match decode_frame_header header_bytes (fs_max_payload_bytes s) with
    | Err e => (with_conn conn, Err e)
    | Ok header =>
      let size := Z.to_nat (fh_payload_length header) in
      match (if Nat.eqb size 0 then (conn, false, Ok []) else read_exactly conn size) with
      | (conn, _, Err e) => (with_conn conn, Err e)
      | (conn, _, Ok payload) =>
        match FrameCodec_verify (fs_codec s) header payload (fs_max_payload_bytes s) with
        | (codec, Err e) => (mkFrameStream conn codec (fs_max_payload_bytes s), Err e)
        | (codec, Ok _) =>
          (mkFrameStream conn codec (fs_max_payload_bytes s), Ok (mkFrame header payload))
        end
      end
    end
  end.
End stream.

(** ** Message types: the decoder's ranges are exactly the enumerators *)

Lemma message_type_from_value_bound v t : message_type_from_value v = Some t -> 0 <= v < 100.
Proof. unfold message_type_from_value. intros H. split_ifs H; b2p; lia. Qed.

Lemma message_type_from_value_spec v t :
  message_type_from_value v = Some t <-> t <> MT.INVALID /\ message_type_value t = v.
Proof.
  split.
  - intros H. pose proof (message_type_from_value_bound v t H) as Hb.
    pose (check n := match message_type_from_value (Z.of_nat n) with
                     | Some t => negb (bool_decide (t = MT.INVALID))
                                 && (message_type_value t =? Z.of_nat n)
                     | None => true end).
    assert (check (Z.to_nat v) = true) as Hc.
    { apply (forallb_seq check 100); [vm_compute; reflexivity|lia]. }
    unfold check in Hc. rewrite Z2Nat.id, H in Hc by lia. b2p. done.
  - intros [Hn <-]. destruct t; try done.
Qed.

Lemma message_type_value_range t : 0 <= message_type_value t < 100.
Proof. destruct t; vm_compute; split; congruence. Qed.

(** ** Frame header *)

Record header_ok (max : Z) (h : FrameHeader) : Prop := {
  ho_version : fh_version h = kProtocolVersion;
  ho_flags : 0 <= fh_flags h < 8;
  ho_type : fh_type h <> MT.INVALID;
  ho_length : 0 <= fh_payload_length h <= max;
  ho_length32 : in_u 32 (fh_payload_length h);
  ho_sequence : 1 <= fh_sequence h < 2 ^ 64;
  ho_tag : exists t, length t = 16%nat /\ fh_auth_tag h = t ++ replicate 16 x00 }.

(** The 40 bytes of a header on the wire. *)
Definition header_bytes (h : FrameHeader) : bytes := header_prefix h ++ take 16 (fh_auth_tag h).

Lemma length_header_prefix h : length (header_prefix h) = 24%nat.
Proof. unfold header_prefix. rewrite !length_app, !length_store_le. reflexivity. Qed.

Lemma encode_header_bytes h :
  encode_frame_header h (replicate kFrameHeaderBytes x00) = header_bytes h.
Proof. unfold encode_frame_header, header_bytes. cbn [kFrameHeaderBytes]. simpl. by rewrite app_nil_r. Qed.

Lemma length_header_bytes h : (16 <= length (fh_auth_tag h))%nat -> length (header_bytes h) = 40%nat.
Proof.
  intros H. unfold header_bytes. rewrite length_app, length_header_prefix, length_take. lia.
Qed.

Lemma known_flags_range b : Z.land (zb b) (wrap 8 (Z.lnot kKnownFlags)) = 0 <-> 0 <= zb b < 8.
Proof.
  pose proof (byte_forall (fun b => Bool.eqb (Z.land (zb b) (wrap 8 (Z.lnot kKnownFlags)) =? 0)
    ((0 <=? zb b) && (zb b <? 8))) ltac:(vm_compute; reflexivity) b) as H.
  apply Bool.eqb_prop in H. rewrite <- Z.eqb_eq, H, andb_true_iff, Z.leb_le, Z.ltb_lt. done.
Qed.

Lemma store_load_le_n n data : length data = n -> store_le (load_le data) n = data.
Proof. intros <-. apply store_load_le. Qed.

(** Name the elements of a list of known length. *)
Ltac explode l H :=
  repeat (destruct l as [|? l]; [discriminate H|]); destruct l; [clear H|discriminate H].

Lemma sub_zero b0 b1 : load_le [b0; b1] = 0 <-> b0 = x00 /\ b1 = x00.
Proof.
  rewrite !load_le_cons. change (load_le []) with 0.
  pose proof (zb_range b0). pose proof (zb_range b1). split.
  - intros E. split; apply zb_inj; change (zb x00) with 0; lia.
  - by intros [-> ->].
Qed.

Lemma decode_canonical buf max h : decode_frame_header buf max = Ok h ->
  header_ok max h /\ header_bytes h = buf.
Proof.
  unfold decode_frame_header, kFrameHeaderBytes. intros Hd. split_ifs Hd. b2p.
  match goal with H : (_ =? _)%nat = true |- _ => apply Nat.eqb_eq in H; rename H into Hlen end.
  destruct (message_type_from_value _) as [t|] eqn:Et; [|discriminate]. split_ifs Hd. b2p.
  injection Hd as <-.
  apply message_type_from_value_spec in Et as [Hti Htv].
  explode buf Hlen. unfold sub_bytes in *. cbn [take drop nth] in *.
  repeat match goal with H : load_le [_; _] = 0 |- _ => apply sub_zero in H as [-> ->] end.
  match goal with H : Z.land _ _ = 0 |- _ => apply known_flags_range in H end.
  split.
  - constructor; cbn [fh_version fh_flags fh_type fh_payload_length fh_sequence fh_auth_tag]; try done.
    + match goal with |- 0 <= load_le ?l <= _ => pose proof (load_le_range l) end. lia.
    + unfold in_u. match goal with |- 0 <= load_le ?l < _ => pose proof (load_le_range l) as R end.
      exact R.
    + match goal with |- 1 <= load_le ?l < _ => pose proof (load_le_range l) as R end.
      change (8 * zlen _) with 64 in R. lia.
    + eexists; split; [|reflexivity]. reflexivity.
  - unfold header_bytes, header_prefix.
    cbn [fh_version fh_flags fh_type fh_payload_length fh_sequence fh_auth_tag].
    rewrite Htv, !bz_zb.
    repeat match goal with |- context [store_le (load_le ?l) ?n] =>
      rewrite (store_load_le_n n l eq_refl) end. cbn [take app].
    match goal with H : [_; _; _; _] = kFrameMagic |- _ => rewrite <- H end. reflexivity.
Qed.

Lemma load_store_le_in n v : in_u (8 * Z.of_nat n) v -> load_le (store_le v n) = v.
Proof. intros H. rewrite load_store_le. by apply Z.mod_small. Qed.

Lemma sub_bytes_app a b c n m : length a = n -> length b = m -> sub_bytes (a ++ b ++ c) n m = b.
Proof.
  intros <- <-. unfold sub_bytes. rewrite drop_app_exact. apply take_app_exact.
Qed.

Lemma decode_encoded max h : header_ok max h -> decode_frame_header (header_bytes h) max = Ok h.
Proof.
  intros [Hv Hf Ht Hl Hl32 Hs (t & Hlt & Htag)].
  unfold decode_frame_header, header_bytes, header_prefix, kFrameHeaderBytes.
  rewrite Htag, <- Hlt, take_app_exact.
  set (ty := store_le (message_type_value (fh_type h)) 2).
  set (le := store_le (fh_payload_length h) 4). set (se := store_le (fh_sequence h) 8).
  assert (length ty = 2%nat) as Hty by apply length_store_le.
  assert (length le = 4%nat) as Hle by apply length_store_le.
  assert (length se = 8%nat) as Hse by apply length_store_le.
  assert (load_le ty = message_type_value (fh_type h)) as Lty.
  { apply load_store_le_in. pose proof (message_type_value_range (fh_type h)).
    unfold in_u. change (2 ^ (8 * Z.of_nat 2)) with 65536. lia. }
  assert (load_le le = fh_payload_length h) as Lle by by apply load_store_le_in.
  assert (load_le se = fh_sequence h) as Lse.
  { apply load_store_le_in. unfold in_u. change (8 * Z.of_nat 8) with 64. lia. }
  clearbody ty le se. explode ty Hty. explode le Hle. explode se Hse. explode t Hlt.
  change kFrameMagic with [x53; x4d; x46; x31].
  unfold sub_bytes. cbn [app take drop nth length Nat.eqb negb].
  rewrite Lty, Lle, Lse, Hv, bytes_eqb_refl, !zb_bz_small by (try done; lia).
  pose proof (known_flags_range (bz (fh_flags h))) as Hk. rewrite zb_bz_small in Hk by lia.
  apply Hk in Hf. rewrite Hf.
  pose proof (message_type_value_range (fh_type h)).
  rewrite (proj2 (message_type_from_value_spec _ _) (conj Ht eq_refl)).
  change (load_le [x00; x00]) with 0. cbn [Z.eqb negb orb].
  rewrite (proj2 (Z.ltb_ge _ _)) by lia. rewrite (proj2 (Z.ltb_ge _ _)) by lia.
  rewrite Z.eqb_refl, (proj2 (Z.eqb_neq (fh_sequence h) 0)) by lia.
  cbn [negb]. f_equal. destruct h. cbn in Htag, Hv |- *. by rewrite Htag, Hv.
Qed.

(** ** Authentication *)

(** The tag is the MAC of the first 24 header bytes and the payload. *)
Lemma frame_auth_tag_hmac key h payload :
  frame_auth_tag key h payload = hmac_sha256 key (header_prefix h ++ payload).
Proof.
  rewrite hmac_unfold. unfold frame_auth_tag. rewrite encode_header_bytes. unfold header_bytes.
  rewrite <- (length_header_prefix h), take_app_exact.
  unfold HmacSha256_finalize, HmacSha256_update, HmacSha256_init. cbn [hmac_inner hmac_opad].
  pose proof (streaming_sha256 [xor_pad (hmac_key_block key) 0x36; header_prefix h; payload]) as E1.
  cbn [fold_left concat] in E1. rewrite app_nil_r in E1. rewrite E1.
  pose proof (streaming_sha256 [xor_pad (hmac_key_block key) 0x5C;
    sha256 (xor_pad (hmac_key_block key) 0x36 ++ header_prefix h ++ payload)]) as E2.
  cbn [fold_left concat] in E2. rewrite app_nil_r in E2. exact E2.
Qed.

Lemma length_frame_auth_tag key h payload : length (frame_auth_tag key h payload) = 32%nat.
Proof. rewrite frame_auth_tag_hmac. apply length_hmac. Qed.

#[global] Opaque frame_auth_tag.

(** The frames a codec holds to be genuine. *)
Definition authentic (c : FrameCodec) (h : FrameHeader) (payload : bytes) : Prop :=
  if is_handshake_message (fh_type h) then Z.land (fh_flags h) FF_AUTHENTICATED = 0
  else Z.land (fh_flags h) FF_AUTHENTICATED <> 0 /\
       exists key, fc_key c = Some key /\
         take 16 (fh_auth_tag h) = take 16 (hmac_sha256 key (header_prefix h ++ payload)).

Lemma verify_authentication_spec c h payload :
  verify_authentication c h payload = Ok tt <-> authentic c h payload.
Proof.
  unfold verify_authentication, authentic. destruct (is_handshake_message _).
  - destruct (Z.eqb_spec (Z.land (fh_flags h) FF_AUTHENTICATED) 0); done.
  - destruct (Z.eqb_spec (Z.land (fh_flags h) FF_AUTHENTICATED) 0); cbn [negb].
    { split; [done|]. by intros [? _]. }
    destruct (fc_key c) as [key|]; [|split; [done|intros (_ & ? & ? & _); done]].
    rewrite frame_auth_tag_hmac. unfold kFrameAuthTagBytes.
    destruct (constant_time_equal _ _) eqn:E; cbn [negb].
    + apply constant_time_equal_eq in E. split; [intros _; eauto|done].
    + split; [done|]. intros (_ & k & Hk & Ht). injection Hk as <-.
      rewrite Ht in E. by rewrite (proj2 (constant_time_equal_eq _ _) eq_refl) in E.
Qed.

(** The conditions under which [verify] admits a frame. *)
Definition admissible (c : FrameCodec) (h : FrameHeader) (payload : bytes) (max : Z) : Prop :=
  zlen payload <= max /\ zlen payload = fh_payload_length h /\
  authentic c h payload /\ fh_sequence h = fc_expected_sequence c.

Lemma verify_admits c h payload max : admissible c h payload max ->
  FrameCodec_verify c h payload max = (bump_expected c, Ok tt).
Proof.
  intros (H1 & H2 & H3 & H4). unfold FrameCodec_verify.
  rewrite (proj2 (Z.ltb_ge _ _)) by lia. rewrite H2, Z.eqb_refl. cbn [negb].
  rewrite (proj2 (verify_authentication_spec _ _ _) H3), H4, Z.ltb_irrefl. done.
Qed.

Lemma verify_cases c h payload max :
  (admissible c h payload max /\ FrameCodec_verify c h payload max = (bump_expected c, Ok tt)) \/
  (~ admissible c h payload max /\ exists e, FrameCodec_verify c h payload max = (c, Err e)).
Proof.
  unfold FrameCodec_verify, admissible.
  destruct (Z.ltb_spec max (zlen payload)); [right; split; [lia|by eexists]|].
  destruct (Z.eqb_spec (zlen payload) (fh_payload_length h)); cbn [negb];
    [|right; split; [tauto|by eexists]].
  destruct (verify_authentication c h payload) as [[]|err] eqn:E.
  2:{ right. split; [|by eexists]. intros (_ & _ & Ha & _).
      apply verify_authentication_spec in Ha. congruence. }
  apply verify_authentication_spec in E.
  destruct (Z.ltb_spec (fh_sequence h) (fc_expected_sequence c)); [right; split; [lia|by eexists]|].
  destruct (Z.ltb_spec (fc_expected_sequence c) (fh_sequence h)); [right; split; [lia|by eexists]|].
  left. repeat split; try done; lia.
Qed.

Lemma verify_replayed c h payload max : in_u 64 (fc_expected_sequence c + 1) ->
  admissible c h payload max ->
  FrameCodec_verify (bump_expected c) h payload max =
    (bump_expected c, fail RC.PROTOCOL_SEQUENCE_REPLAY "frame sequence number has already been consumed").
Proof.
  intros Hw (H1 & H2 & H3 & H4). unfold FrameCodec_verify.
  rewrite (proj2 (Z.ltb_ge _ _)) by lia. rewrite H2, Z.eqb_refl. cbn [negb].
  assert (verify_authentication (bump_expected c) h payload = Ok tt) as ->.
  { apply verify_authentication_spec. exact H3. }
  cbn [bump_expected fc_expected_sequence]. rewrite wrap_small by done.
  rewrite (proj2 (Z.ltb_lt _ _)) by lia. done.
Qed.

(** ** Stream laws *)

(** What the transport promises: bytes arrive in order, a read returns at most
    what was asked for, and returns nothing only when nothing is pending. *)
Class ConnectionLaws (C : Type) `{!Connection C} := {
  incoming : C -> bytes;
  outgoing : C -> bytes;
  receive_ordered : forall c n c' bs, (0 < n)%nat -> receive_some c n = (c', Ok bs) ->
    incoming c = bs ++ incoming c' /\ (length bs <= n)%nat /\ (bs = [] -> incoming c = []);
  send_ordered : forall c bs c', send_all c bs = (c', Ok tt) -> outgoing c' = outgoing c ++ bs }.

(** A connection on which no read fails. *)
Definition responsive (C : Type) `{!Connection C} : Prop :=
  forall c n, exists c' bs, receive_some c n = (c', Ok bs).

Section laws.
Context {C : Type} `{!Connection C, !ConnectionLaws C}.
Implicit Types (c : C) (s : FrameStream C).

Lemma read_loop_ordered fuel : forall c got size c' b out,
  (length got <= size)%nat -> (size - length got <= fuel)%nat ->
  read_loop fuel c got size = (c', b, Ok out) ->
  length out = size /\ got ++ incoming c = out ++ incoming c'.
Proof.
  induction fuel as [|f IH]; intros c got size c' b out Hg Hf H; cbn [read_loop] in H;
    (destruct (Nat.ltb_spec (length got) size) as [Hlt|Hge]; cbn [negb] in H;
     [|injection H as <- _ <-; split; [lia|done]]); [lia|].
  destruct (receive_some c (size - length got)) as [c1 [bs|e]] eqn:Er; [|done].
  apply receive_ordered in Er as (Ein & Hlen & _); [|lia].
  destruct (Nat.eqb_spec (length bs) 0) as [H0|H0]; [by destruct (length got =? 0)%nat|].
  apply IH in H as [Hl Hi]; [|rewrite length_app; lia..].
  split; [done|]. by rewrite Ein, app_assoc.
Qed.

Lemma read_loop_responsive fuel : forall c got size, responsive C ->
  (length got <= size)%nat -> (size - length got <= fuel)%nat ->
  (size <= length got + length (incoming c))%nat ->
  exists c' out, read_loop fuel c got size = (c', false, Ok out).
Proof.
  induction fuel as [|f IH]; intros c got size HR Hg Hf Hav; cbn [read_loop];
    (destruct (Nat.ltb_spec (length got) size) as [Hlt|Hge]; cbn [negb]; [|eauto]); [lia|].
  destruct (HR c (size - length got)%nat) as (c1 & bs & Er). rewrite Er.
  apply receive_ordered in Er as (Ein & Hlen & Hnil); [|lia].
  destruct (Nat.eqb_spec (length bs) 0) as [H0|H0].
  - destruct bs; [|done]. rewrite (Hnil eq_refl) in Hav. cbn [length] in Hav. lia.
  - rewrite Ein, length_app in Hav. apply IH; [done|rewrite length_app; lia..].
Qed.

Lemma read_exactly_ordered c n c' b out pre rest :
  read_exactly c n = (c', b, Ok out) -> incoming c = pre ++ rest -> length pre = n ->
  out = pre /\ incoming c' = rest.
Proof.
  unfold read_exactly. intros H Hi Hp.
  apply read_loop_ordered in H as [Hl He]; [|cbn [length]; lia..].
  cbn [app] in He. rewrite Hi in He. apply app_inj_1 in He as [-> ->]; [done|lia].
Qed.

Lemma read_exactly_responsive c pre rest : responsive C -> incoming c = pre ++ rest ->
  exists c', read_exactly c (length pre) = (c', false, Ok pre) /\ incoming c' = rest.
Proof.
  intros HR Hi.
  destruct (read_loop_responsive (length pre) c [] (length pre)) as (c' & out & E);
    [done|cbn [length]; lia..|rewrite Hi, length_app; cbn [length]; lia|].
  destruct (read_exactly_ordered _ _ _ _ _ pre rest E Hi eq_refl) as [-> Hr]. eauto.
Qed.
End laws.

(** ** Sending and receiving *)

(** The header as a receiver sees it: the tag cut to its wire width. *)
Definition on_wire (h : FrameHeader) : FrameHeader :=
  mkFrameHeader (fh_version h) (fh_flags h) (fh_type h) (fh_payload_length h) (fh_sequence h)
    (take 16 (fh_auth_tag h) ++ replicate 16 x00).

Lemma header_bytes_on_wire h : (16 <= length (fh_auth_tag h))%nat ->
  header_bytes (on_wire h) = header_bytes h.
Proof.
  intros H. unfold header_bytes. cbn [on_wire fh_auth_tag]. f_equal.
  assert (length (take 16 (fh_auth_tag h)) = 16%nat) as E by (rewrite length_take; lia).
  rewrite <- E at 1. by rewrite take_app_exact.
Qed.

(** A message a peer may send: a real type and known flag bits, the
    authentication bit being the codec's own. *)
Record Message := mkMessage { msg_type : MessageType; msg_flags : Z; msg_payload : bytes }.
Definition sendable (m : Message) : Prop :=
  msg_type m <> MT.INVALID /\ 0 <= msg_flags m < 8 /\ Z.land (msg_flags m) FF_AUTHENTICATED = 0.

(** What the other side should see of it. *)
Definition content (keyed : bool) (m : Message) : MessageType * Z * bytes :=
  (msg_type m, Z.lor (msg_flags m) (if keyed then FF_AUTHENTICATED else 0), msg_payload m).
Definition frame_content (f : Frame) : MessageType * Z * bytes :=
  (fh_type (fr_header f), fh_flags (fr_header f), fr_payload f).

(** The value of a result, for inverting equations without unfolding it. *)
Definition from_result {A} (d : A) (r : Result A) : A := match r with Ok x => x | Err _ => d end.

Lemma lor_authenticated f : 0 <= f < 8 ->
  0 <= Z.lor f FF_AUTHENTICATED < 8 /\ Z.land (Z.lor f FF_AUTHENTICATED) FF_AUTHENTICATED <> 0.
Proof.
  intros H. assert (f = 0 \/ f = 1 \/ f = 2 \/ f = 3 \/ f = 4 \/ f = 5 \/ f = 6 \/ f = 7) as D by lia.
  repeat destruct D as [->|D]; try (subst f); vm_compute; repeat split; congruence.
Qed.

(** What [encode] returns, and why the peer admits it. *)
Lemma encode_Ok c d m max c' frame :
  FrameCodec_encode c (msg_type m) (msg_flags m) (msg_payload m) max = (c', Ok frame) ->
  sendable m -> max < 2 ^ 32 -> fc_key d = fc_key c ->
  fc_expected_sequence d = fc_send_sequence c -> 1 <= fc_send_sequence c < 2 ^ 64 ->
  exists h, frame = header_bytes h ++ msg_payload m /\ header_ok max h /\
    admissible d h (msg_payload m) max /\ c' = bump_send c /\
    frame_content (mkFrame h (msg_payload m)) = content (key_set c) m.
Proof.
  destruct m as [ty fl p]. cbn [msg_type msg_flags msg_payload]. unfold FrameCodec_encode.
  intros He (Ht & Hf & Ha) Hmax Hk Hs Hr. cbn [msg_type msg_flags] in *.
  cbv zeta in He. rewrite encode_header_bytes in He. split_ifs He.
  apply pair_equal_spec in He as [<- He]. apply (f_equal (from_result [])) in He. cbn [from_result] in He.
  subst frame. b2p. pose proof (zlen_nonneg p).
  set (h := outbound_header c ty fl p).
  assert (length (fh_auth_tag h) = 32%nat) as Hlen.
  { unfold h, outbound_header. destruct (fc_key c); [apply length_frame_auth_tag|done]. }
  assert (wrap 32 (zlen p) = zlen p) as Hw by (apply wrap_small; unfold in_u; lia).
  assert (fh_version h = kProtocolVersion /\ fh_type h = ty /\ fh_payload_length h = zlen p /\
          fh_sequence h = fc_send_sequence c) as (Ev & Et & El & Es).
  { unfold h, outbound_header. rewrite Hw. by destruct (fc_key c). }
  assert (0 <= fh_flags h < 8 /\ authentic d (on_wire h) p /\
          frame_content (mkFrame (on_wire h) p) = content (key_set c) (mkMessage ty fl p))
    as (Hfl & Hauth & Hcon).
  { unfold authentic, frame_content, content, key_set in *. cbn [on_wire fh_type fh_flags fr_header
      fr_payload msg_type msg_flags msg_payload fh_auth_tag]. rewrite Et, Hk.
    unfold h, outbound_header in *. clear h. destruct (fc_key c) as [key|]; cbn [fh_flags].
    - destruct (is_handshake_message ty); [done|]. destruct (lor_authenticated fl Hf) as [H1 H2].
      split_and!; try done; try lia. eexists. split; [done|]. cbn [fh_auth_tag].
      rewrite frame_auth_tag_hmac. cbn [on_wire].
      set (t := hmac_sha256 _ _). assert (length (take 16 t) = 16%nat) as Elen.
      { unfold t. rewrite length_take, length_hmac. done. }
      rewrite <- Elen at 1. rewrite take_app_exact. unfold t. do 2 f_equal.
    - destruct (is_handshake_message ty); [|done]. by rewrite Z.lor_0_r. }
  exists (on_wire h). split_and!; try done.
  - by rewrite header_bytes_on_wire by lia.
  - constructor; cbn [on_wire fh_version fh_flags fh_type fh_payload_length fh_sequence fh_auth_tag];
      rewrite ?Et, ?El, ?Es; try done; unfold in_u; try lia.
    eexists. split; [|done]. rewrite length_take. lia.
  - unfold admissible. cbn [on_wire fh_payload_length fh_sequence]. rewrite El, Es.
    by split_and!.
Qed.

Section delivery.
Context {C D : Type} `{!Connection C, !ConnectionLaws C, !Connection D, !ConnectionLaws D}.

Fixpoint send_messages (s : FrameStream C) (ms : list Message) : FrameStream C * Result unit :=
  match ms with
  | [] => (s, Ok tt)
  | m :: ms =>
    match FrameStream_send s (msg_type m) (msg_payload m) (msg_flags m) with
    | (s', Ok _) => send_messages s' ms
    | (s', Err e) => (s', Err e)
    end
  end.

Fixpoint receive_messages (n : nat) (r : FrameStream D) : FrameStream D * Result (list Frame) :=
  match n with
  | O => (r, Ok [])
  | S n =>
    match FrameStream_receive r with
    | (r', Err e) => (r', Err e)
    | (r', Ok f) => let '(r'', fs) := receive_messages n r' in
                    (r'', let! fs := fs in Ok (f :: fs))
    end
  end.

(** Receiving an admissible frame at the head of the pending bytes. *)
Lemma receive_frame (r : FrameStream D) h p rest :
  header_ok (fs_max_payload_bytes r) h -> admissible (fs_codec r) h p (fs_max_payload_bytes r) ->
  incoming (fs_connection r) = header_bytes h ++ p ++ rest ->
  (exists r' e, FrameStream_receive r = (r', Err e)) \/
  exists c', FrameStream_receive r =
    (mkFrameStream c' (bump_expected (fs_codec r)) (fs_max_payload_bytes r), Ok (mkFrame h p)) /\
    incoming c' = rest.
Proof.
  intros Hok Ha Hi. pose proof (decode_encoded _ _ Hok) as Hd.
  destruct Hok as [_ _ _ _ _ _ (t & Hlt & Htag)].
  assert (length (header_bytes h) = kFrameHeaderBytes) as Hlen.
  { apply length_header_bytes. rewrite Htag, length_app. lia. }
  unfold FrameStream_receive.
  destruct (read_exactly (fs_connection r) kFrameHeaderBytes) as [[c1 b1] [hb|e]] eqn:E1;
    [|left; destruct b1; by eexists _, _].
  destruct (read_exactly_ordered _ _ _ _ _ _ _ E1 Hi Hlen) as [-> Hi1]. rewrite Hd.
  assert (Z.to_nat (fh_payload_length h) = length p) as Hp.
  { destruct Ha as (_ & <- & _). unfold zlen. lia. }
  rewrite Hp. destruct (Nat.eqb_spec (length p) 0) as [H0|H0].
  - destruct p; [|done]. rewrite (verify_admits _ _ _ _ Ha). right. by eexists.
  - destruct (read_exactly c1 (length p)) as [[c2 b2] [pb|e]] eqn:E2; [|left; by eexists _, _].
    destruct (read_exactly_ordered _ _ _ _ _ _ _ E2 Hi1 eq_refl) as [-> Hi2].
    rewrite (verify_admits _ _ _ _ Ha). right. by eexists.
Qed.

Lemma receive_frame_responsive (r : FrameStream D) h p rest : responsive D ->
  header_ok (fs_max_payload_bytes r) h -> admissible (fs_codec r) h p (fs_max_payload_bytes r) ->
  incoming (fs_connection r) = header_bytes h ++ p ++ rest ->
  exists r' f, FrameStream_receive r = (r', Ok f).
Proof.
  intros HR Hok Ha Hi. pose proof (decode_encoded _ _ Hok) as Hd.
  destruct Hok as [_ _ _ _ _ _ (t & Hlt & Htag)].
  assert (length (header_bytes h) = kFrameHeaderBytes) as Hlen.
  { apply length_header_bytes. rewrite Htag, length_app. lia. }
  destruct (read_exactly_responsive _ _ _ HR Hi) as (c1 & E1 & Hi1). rewrite Hlen in E1.
  unfold FrameStream_receive. rewrite E1, Hd.
  assert (Z.to_nat (fh_payload_length h) = length p) as Hp.
  { destruct Ha as (_ & <- & _). unfold zlen. lia. }
  destruct (read_exactly_responsive _ _ _ HR Hi1) as (c2 & E2 & Hi2).
  rewrite Hp, E2. destruct (Nat.eqb_spec (length p) 0) as [H0|H0];
    [destruct p; [|done]|]; rewrite (verify_admits _ _ _ _ Ha); eauto.
Qed.

(** Sender and receiver agree: same key, the next number to send is the next
    one expected. *)
Definition in_step (s : FrameStream C) (r : FrameStream D) : Prop :=
  fs_max_payload_bytes r = fs_max_payload_bytes s /\ fs_max_payload_bytes s < 2 ^ 32 /\
  fc_key (fs_codec r) = fc_key (fs_codec s) /\
  fc_expected_sequence (fs_codec r) = fc_send_sequence (fs_codec s) /\
  1 <= fc_send_sequence (fs_codec s).

Lemma send_step (s s' : FrameStream C) (r : FrameStream D) m :
  FrameStream_send s (msg_type m) (msg_payload m) (msg_flags m) = (s', Ok tt) ->
  in_step s r -> sendable m -> fc_send_sequence (fs_codec s) + 1 < 2 ^ 64 ->
  exists h, outgoing (fs_connection s') =
      outgoing (fs_connection s) ++ header_bytes h ++ msg_payload m /\
    header_ok (fs_max_payload_bytes r) h /\
    admissible (fs_codec r) h (msg_payload m) (fs_max_payload_bytes r) /\
    frame_content (mkFrame h (msg_payload m)) = content (key_set (fs_codec s)) m /\
    key_set (fs_codec s') = key_set (fs_codec s) /\
    fc_send_sequence (fs_codec s') = fc_send_sequence (fs_codec s) + 1 /\
    forall c', in_step s' (mkFrameStream c' (bump_expected (fs_codec r)) (fs_max_payload_bytes r)).
Proof.
  unfold FrameStream_send. intros Hs (Hm & Hm32 & Hk & He & H1) Hsend Hb.
  destruct (FrameCodec_encode _ _ _ _ _) as [c1 [frame|e]] eqn:E; [|done].
  destruct (send_all (fs_connection s) frame) as [conn u] eqn:Ec.
  injection Hs as <- ->. apply send_ordered in Ec.
  apply (encode_Ok _ (fs_codec r)) in E as (h & -> & Hok & Had & -> & Hc); try done; [|lia].
  assert (wrap 64 (fc_send_sequence (fs_codec s) + 1) = fc_send_sequence (fs_codec s) + 1) as Hw.
  { apply wrap_small. unfold in_u. lia. }
  exists h. rewrite Hm. cbn [fs_connection fs_codec bump_send fc_send_sequence key_set fc_key].
  split_and!; try done. intros c'. unfold in_step.
  cbn [fs_connection fs_codec bump_send bump_expected fc_send_sequence fc_expected_sequence fc_key
       fs_max_payload_bytes]. rewrite He, Hw. split_and!; try done. lia.
Qed.

Lemma send_messages_outgoing ms : forall (s s' : FrameStream C),
  send_messages s ms = (s', Ok tt) ->
  exists wire, outgoing (fs_connection s') = outgoing (fs_connection s) ++ wire.
Proof.
  induction ms as [|m ms IH]; intros s s' H; cbn [send_messages] in H.
  { injection H as <-. exists []. by rewrite app_nil_r. }
  destruct (FrameStream_send s _ _ _) as [s1 [[]|e]] eqn:E; [|done].
  apply IH in H as [w ->]. unfold FrameStream_send in E.
  destruct (FrameCodec_encode _ _ _ _ _) as [c1 [frame|e]]; [|done].
  destruct (send_all (fs_connection s) frame) as [conn u] eqn:Ec. injection E as <- ->.
  apply send_ordered in Ec. cbn [fs_connection]. rewrite Ec, <- app_assoc. by eexists.
Qed.
Lemma deliver ms : forall (s s' : FrameStream C) (r : FrameStream D) wire rest,
  in_step s r -> Forall sendable ms -> fc_send_sequence (fs_codec s) + zlen ms < 2 ^ 64 ->
  send_messages s ms = (s', Ok tt) ->
  outgoing (fs_connection s') = outgoing (fs_connection s) ++ wire ->
  incoming (fs_connection r) = wire ++ rest ->
  (forall r' fs, receive_messages (length ms) r = (r', Ok fs) ->
     map frame_content fs = map (content (key_set (fs_codec s))) ms /\
     incoming (fs_connection r') = rest /\ in_step s' r') /\
  (responsive D -> exists r' fs, receive_messages (length ms) r = (r', Ok fs)).
Proof.
  induction ms as [|m ms IH]; intros s s' r wire rest Hst Hs Hb Hsend Ho Hi;
    cbn [send_messages receive_messages length] in *.
  { injection Hsend as <-. rewrite <- (app_nil_r (outgoing (fs_connection s))) in Ho at 1.
    apply app_inv_head in Ho as <-. split; [|eauto]. intros r' fs [= <- <-]. done. }
  apply list.Forall_cons in Hs as [Hm Hms].
  assert (zlen (m :: ms) = 1 + zlen ms) as Hz by (unfold zlen; cbn [length]; lia).
  pose proof (zlen_nonneg ms).
  destruct (FrameStream_send s _ _ _) as [s1 [[]|e]] eqn:E; [|done].
  destruct (send_step s s1 r m E Hst Hm) as (h & Ho1 & Hok & Had & Hc & Hks & Hsq & Hnext); [lia|].
  destruct (send_messages_outgoing _ _ _ Hsend) as [w Hw].
  rewrite Hw, Ho1, <- app_assoc in Ho. apply app_inv_head in Ho as <-.
  rewrite <- !app_assoc in Hi.
  specialize (receive_frame_responsive r h (msg_payload m) (w ++ rest)) as Hresp.
  destruct (receive_frame r h _ _ Hok Had Hi) as [(r1 & e & Er)|(c1 & Er & Hi1)]; rewrite Er in *.
  - split; [done|]. intros HR. by destruct (Hresp HR Hok Had Hi) as (? & ? & ?).
  - destruct (IH s1 s' (mkFrameStream c1 (bump_expected (fs_codec r)) (fs_max_payload_bytes r)) w rest)
      as [IHs IHl]; try done; [lia|].
    destruct (receive_messages _ _) as [r2 fs2]. split.
    + intros r' fs Hf. injection Hf as -> Hf. destruct fs2 as [fs2|e]; [|done].
      injection Hf as <-. destruct (IHs r' fs2 eq_refl) as (H1 & H2 & H3). cbn [map].
      rewrite H1, Hks. split; [|done]. f_equal. exact Hc.
    + intros HR. destruct (IHl HR) as (r' & fs & [= -> ->]). by eexists _, _.
Qed.
End delivery.

(** ** A connection that delivers in segments *)

Record Pipe := mkPipe { pipe_segments : list bytes; pipe_sent : bytes }.

Fixpoint pipe_read (segments : list bytes) (n : nat) : list bytes * bytes :=
  match segments with
  | [] => ([], [])
  | [] :: rest => pipe_read rest n
  | seg :: rest => if Nat.leb (length seg) n then (rest, seg) else (drop n seg :: rest, take n seg)
  end.

#[global] Instance pipe_connection : Connection Pipe := {
  receive_some p n := let '(segs, bs) := pipe_read (pipe_segments p) n in
                      (mkPipe segs (pipe_sent p), Ok bs);
  send_all p bs := (mkPipe (pipe_segments p) (pipe_sent p ++ bs), Ok tt) }.

Lemma pipe_read_spec n segs : (0 < n)%nat ->
  let '(segs', bs) := pipe_read segs n in
  concat segs = bs ++ concat segs' /\ (length bs <= n)%nat /\ (bs = [] -> concat segs = []).
Proof.
  intros Hn. induction segs as [|[|b seg] segs IH]; cbn [pipe_read concat]; [by split_and!; [|simpl; lia|]|done|].
  destruct (Nat.leb_spec (length (b :: seg)) n) as [Hle|Hgt]; [by split_and!|].
  split_and!.
  - cbn [concat]. by rewrite app_assoc, take_drop.
  - rewrite length_take. lia.
  - intros E. apply (f_equal length) in E. rewrite length_take in E. cbn [length] in E. lia.
Qed.

#[global] Instance pipe_laws : ConnectionLaws Pipe.
Proof.
  refine {| incoming p := concat (pipe_segments p); outgoing := pipe_sent |}.
  - intros c n c' bs Hn H. cbn [receive_some pipe_connection] in H.
    pose proof (pipe_read_spec n (pipe_segments c) Hn) as Hp.
    destruct (pipe_read (pipe_segments c) n) as [segs b]. injection H as <- <-. exact Hp.
  - intros c bs c' H. injection H as <-. reflexivity.
Defined.

Lemma pipe_responsive : responsive Pipe.
Proof.
  intros c n. cbn [receive_some pipe_connection].
  destruct (pipe_read (pipe_segments c) n) as [segs b]. eauto.
Qed.

(** ** Properties *)

(** (roundtrip) The frame header is canonical: a header whose fields are in
    range decodes to itself, a buffer that decodes is the encoding of the header
    it decodes to (so reserved bytes are zero, the version is the supported one,
    no unknown flag is set and the declared length is within the bound), and the
    type ranges of the decoder are exactly the message types. *)
Theorem frame_header_canonical (max : Z) (h : FrameHeader) (buf : bytes) :
  (header_ok max h ->
     decode_frame_header (encode_frame_header h (replicate kFrameHeaderBytes x00)) max = Ok h) /\
  (decode_frame_header buf max = Ok h ->
     header_ok max h /\ encode_frame_header h (replicate kFrameHeaderBytes x00) = buf) /\
  (forall v t, message_type_from_value v = Some t <-> t <> MT.INVALID /\ message_type_value t = v).
Proof.
  rewrite encode_header_bytes. split_and!.
  - apply decode_encoded.
  - apply decode_canonical.
  - apply message_type_from_value_spec.
Qed.

Definition demo_header : FrameHeader :=
  mkFrameHeader 1 1 MT.HEARTBEAT 5 7 (replicate 16 xab ++ replicate 16 x00).

Lemma frame_header_canonical_witness :
  decode_frame_header (encode_frame_header demo_header (replicate kFrameHeaderBytes x00)) 64
    = Ok demo_header.
Proof.
  apply (frame_header_canonical 64 demo_header []). constructor; cbn; try done.
  exists (replicate 16 xab). done.
Defined.



(** C31: (refinement) Over any connection that keeps bytes in order, whatever way
    it cuts them into pieces, a receiver that starts in step with the sender
    returns exactly the messages sent, in order, each once, with their types,
    flags and payloads, and is in step with the sender again; and if no read
    fails it returns all of them. *)
Theorem stream_delivers_in_order {C D : Type}
    `{!Connection C, !ConnectionLaws C, !Connection D, !ConnectionLaws D}
    (ms : list Message) (s s' : FrameStream C) (r : FrameStream D) (wire rest : bytes) :
  in_step s r -> Forall sendable ms -> fc_send_sequence (fs_codec s) + zlen ms < 2 ^ 64 ->
  send_messages s ms = (s', Ok tt) ->
  outgoing (fs_connection s') = outgoing (fs_connection s) ++ wire ->
  incoming (fs_connection r) = wire ++ rest ->
  (forall r' fs, receive_messages (length ms) r = (r', Ok fs) ->
     map frame_content fs = map (content (key_set (fs_codec s))) ms /\
     incoming (fs_connection r') = rest /\ in_step s' r') /\
  (responsive D -> exists r' fs, receive_messages (length ms) r = (r', Ok fs)).
Proof. apply deliver. Qed.

(** A HELLO exchanged before the session is keyed, delivered in two pieces. *)
Definition demo_message : Message := mkMessage MT.HELLO 0 (lit "hi").
Definition demo_sender : FrameStream Pipe := mkFrameStream (mkPipe [] []) FrameCodec_init 64.
Definition demo_wire : bytes :=
  Eval vm_compute in pipe_sent (fs_connection (send_messages demo_sender [demo_message]).1).
Definition demo_receiver : FrameStream Pipe :=
  mkFrameStream (mkPipe [take 7 demo_wire; []; drop 7 demo_wire] []) FrameCodec_init 64.

Lemma stream_delivers_in_order_witness :
  exists r' fs, receive_messages 1 demo_receiver = (r', Ok fs).
Proof.
  apply (stream_delivers_in_order [demo_message] demo_sender
    (send_messages demo_sender [demo_message]).1 demo_receiver demo_wire []).
  - repeat split; vm_compute; congruence.
  - constructor; [|constructor]. repeat split; vm_compute; congruence.
  - vm_compute. reflexivity.
  - vm_compute. reflexivity.
  - vm_compute. reflexivity.
  - vm_compute. reflexivity.
  - apply pipe_responsive.
Defined.

(** (error) After the session is keyed the sending side refuses handshake
    messages, but the receiving side still admits an unauthenticated one with
    the next sequence number, and doing so makes it refuse the genuine
    authenticated frame that carries that number. *)
Theorem keyed_session_admits_unauthenticated_handshake (h : FrameHeader) (payload : bytes) (max : Z)
    (c : FrameCodec) (genuine : FrameHeader) (genuine_payload : bytes) :
  in_u 64 (fc_expected_sequence c + 1) -> fc_key c <> None ->
  is_handshake_message (fh_type h) = true -> Z.land (fh_flags h) FF_AUTHENTICATED = 0 ->
  zlen payload = fh_payload_length h -> zlen payload <= max ->
  fh_sequence h = fc_expected_sequence c -> admissible c genuine genuine_payload max ->
  (exists e, FrameCodec_encode c (fh_type h) (fh_flags h) payload max = (c, Err e) /\
             st_code e = RC.PROTOCOL_STATE_VIOLATION) /\
  FrameCodec_verify c h payload max = (bump_expected c, Ok tt) /\
  exists e, FrameCodec_verify (bump_expected c) genuine genuine_payload max = (bump_expected c, Err e).
Proof.
  intros Hw Hk Hh Hf Hl Hm Hs Hg. split_and!.
  - unfold FrameCodec_encode. rewrite Hh, (proj2 (Z.ltb_ge _ _)) by lia.
    unfold key_set. destruct (fc_key c); [|done]. by eexists.
  - apply verify_admits. unfold admissible, authentic. by rewrite Hh.
  - rewrite verify_replayed by done. by eexists.
Qed.

Definition demo_key : Digest := replicate 32 x5a.
Definition keyed_codec : FrameCodec := set_session_key FrameCodec_init demo_key.
(** An authenticated heartbeat with sequence number one under [demo_key]. *)
Definition genuine_heartbeat : FrameHeader :=
  mkFrameHeader 1 1 MT.HEARTBEAT 0 1
    (hmac_sha256 demo_key (header_prefix (mkFrameHeader 1 1 MT.HEARTBEAT 0 1 []))).

Lemma keyed_session_admits_unauthenticated_handshake_witness :
  FrameCodec_verify keyed_codec (mkFrameHeader 1 0 MT.HELLO 0 1 []) [] 64
    = (bump_expected keyed_codec, Ok tt).
Proof.
  apply (keyed_session_admits_unauthenticated_handshake (mkFrameHeader 1 0 MT.HELLO 0 1 []) [] 64
    keyed_codec genuine_heartbeat []); try done.
  split; [done|]. split; [done|]. split; [|done].
  unfold authentic. cbn [genuine_heartbeat fh_type is_handshake_message]. split; [done|].
  exists demo_key. split; [reflexivity|]. rewrite app_nil_r. reflexivity.
Defined.
