(* ===== verification/Session.v ===== *)
(** * Session establishment (src/src/session.cpp, include/smf/session.hpp)

    Peer identities, the two handshake messages with their codecs, the three
    keyed derivations and the three protocol steps: the client builds a request,
    the server authenticates it and answers, the client authenticates the answer
    and derives the session key.  The issuer of nonces is any [EntropySource]. *)
From S2P Require Import Prelude Status Bytes Digest Codec Ids.

Definition kMaxContractBytes : Z := 64.

Module SR.
Inductive SessionRole : Set := ENDPOINT | ADMIN.
End SR.
Abbreviation SessionRole := SR.SessionRole.

#[global] Instance SessionRole_eq_dec : EqDecision SessionRole.
Proof. solve_decision. Defined.

Definition session_role_value (r : SessionRole) : Z :=
  match r with SR.ENDPOINT => 1 | SR.ADMIN => 2 end.

Definition session_role_to_string (r : SessionRole) : bytes :=
  match r with SR.ENDPOINT => lit "ENDPOINT" | SR.ADMIN => lit "ADMIN" end.

Definition session_role_from_string (text : bytes) : option SessionRole :=
  if bytes_eqb text (lit "ENDPOINT") then Some SR.ENDPOINT
  else if bytes_eqb text (lit "ADMIN") then Some SR.ADMIN
  else None.

Record PeerIdentity := mkPeer {
  pi_endpoint : bytes;
  pi_boot : bytes;
  pi_epoch : Z;
  pi_role : SessionRole;
  pi_contract : bytes;
  pi_capability_digest : Digest }.

#[global] Instance PeerIdentity_eq_dec : EqDecision PeerIdentity.
Proof. solve_decision. Defined.

Definition PeerIdentity_validate (p : PeerIdentity) : Result unit :=
  if bytes_eqb (pi_endpoint p) []
  then fail RC.INVALID_ID "session identity requires an endpoint name"
  else if array_is_zero (pi_boot p)
  then fail RC.INVALID_ID "session identity requires a boot id"
  else if negb (is_set (pi_epoch p))
  then fail RC.INVALID_GENERATION "session identity requires a non-zero epoch"
  else if bytes_eqb (pi_contract p) [] || (kMaxContractBytes <? zlen (pi_contract p))
  then fail RC.ENDPOINT_CONTRACT_MISMATCH "session identity requires a bounded contract string"
  else if negb (bytes_eqb (pi_contract p) kPeerContract)
  then Err (mkStatus RC.ENDPOINT_CONTRACT_MISMATCH
         (lit "peer contract '" ++ pi_contract p ++ lit "' is not the contract this build speaks"))
  else if array_is_zero (pi_capability_digest p)
  then fail RC.INVALID_DIGEST "session identity requires a capability digest"
  else Ok tt.

Definition PeerIdentity_encode (p : PeerIdentity) : bytes :=
  enc_text (pi_endpoint p) ++ FixedId_encode (pi_boot p) ++ enc_u64 (pi_epoch p) ++
  enc_u8 (session_role_value (pi_role p)) ++ enc_text (pi_contract p) ++
  enc_digest (pi_capability_digest p).

Definition PeerIdentity_decode : Dec PeerIdentity :=
  let? endpoint := dec_text kMaxEndpointIdBytes in
  let? endpoint := dlift (EndpointId_parse endpoint) in
  let? boot := FixedId_decode kBootIdBytes in
  let? epoch := dec_u64 in
  let? role := dec_u8 in
  dreject (negb (role =? session_role_value SR.ENDPOINT) && negb (role =? session_role_value SR.ADMIN))
    RC.PROTOCOL_CANONICAL_VIOLATION "session role is not recognized" ;?
  let? contract := dec_text kMaxContractBytes in
  let? capability := dec_digest in
  dret (mkPeer endpoint boot epoch
          (if role =? session_role_value SR.ENDPOINT then SR.ENDPOINT else SR.ADMIN)
          contract capability).

Record HelloRequest := mkHelloRequest {
  hq_client_nonce : bytes;
  hq_identity : PeerIdentity;
  hq_client_mac : Digest }.

Record HelloResponse := mkHelloResponse {
  hr_server_nonce : bytes;
  hr_session_id : bytes;
  hr_identity : PeerIdentity;
  hr_server_mac : Digest }.

Definition HelloRequest_encode (q : HelloRequest) : bytes :=
  FixedId_encode (hq_client_nonce q) ++ PeerIdentity_encode (hq_identity q) ++
  enc_digest (hq_client_mac q).

Definition HelloRequest_validate (q : HelloRequest) : Result unit :=
  if array_is_zero (hq_client_nonce q)
  then fail RC.PROTOCOL_MALFORMED "handshake nonce must not be zero"
  else if array_is_zero (hq_client_mac q)
  then fail RC.PROTOCOL_MALFORMED "handshake MAC must not be zero"
  else PeerIdentity_validate (hq_identity q).

Definition HelloRequest_decode : Dec HelloRequest :=
  let? nonce := FixedId_decode kNonceBytes in
  let? identity := PeerIdentity_decode in
  let? mac := dec_digest in
  let request := mkHelloRequest nonce identity mac in
  dlift (HelloRequest_validate request) ;?
  dret request.

Definition HelloResponse_encode (r : HelloResponse) : bytes :=
  FixedId_encode (hr_server_nonce r) ++ FixedId_encode (hr_session_id r) ++
  PeerIdentity_encode (hr_identity r) ++ enc_digest (hr_server_mac r).

Definition HelloResponse_validate (r : HelloResponse) : Result unit :=
  if array_is_zero (hr_server_nonce r)
  then fail RC.PROTOCOL_MALFORMED "handshake nonce must not be zero"
  else if array_is_zero (hr_session_id r)
  then fail RC.PROTOCOL_MALFORMED "session id must not be zero"
  else if array_is_zero (hr_server_mac r)
  then fail RC.PROTOCOL_MALFORMED "handshake MAC must not be zero"
  else PeerIdentity_validate (hr_identity r).

Definition HelloResponse_decode : Dec HelloResponse :=
  let? nonce := FixedId_decode kNonceBytes in
  let? session := FixedId_decode kSessionIdBytes in
  let? identity := PeerIdentity_decode in
  let? mac := dec_digest in
  let response := mkHelloResponse nonce session identity mac in
  dlift (HelloResponse_validate response) ;?
  dret response.

(** The byte strings the two proofs and the key are computed over. *)
Definition client_mac_preimage (client_nonce : bytes) (identity : PeerIdentity) : bytes :=
  enc_text (lit "SMF-HELLO-CLIENT-v1") ++ FixedId_encode client_nonce ++ PeerIdentity_encode identity.

Definition compute_client_mac (secret client_nonce : bytes) (identity : PeerIdentity) : Digest :=
  canonical_mac secret (client_mac_preimage client_nonce identity).

Definition server_mac_preimage (request : HelloRequest) (server_nonce session_id : bytes)
    (identity : PeerIdentity) : bytes :=
  enc_text (lit "SMF-HELLO-SERVER-v1") ++ FixedId_encode (hq_client_nonce request) ++
  enc_digest (hq_client_mac request) ++ FixedId_encode server_nonce ++ FixedId_encode session_id ++
  PeerIdentity_encode identity.

Definition compute_server_mac (secret : bytes) (request : HelloRequest)
    (server_nonce session_id : bytes) (identity : PeerIdentity) : Digest :=
  canonical_mac secret (server_mac_preimage request server_nonce session_id identity).

Definition derive_session_key (secret client_nonce server_nonce : bytes) : Digest :=
  canonical_mac secret
    (enc_text (lit "SMF-SESSION-v1") ++ FixedId_encode client_nonce ++ FixedId_encode server_nonce).

Section steps.
Context {S : Type} `{!EntropySource S}.

Definition make_hello_request (secret : bytes) (identity : PeerIdentity) (issuer : S)
  : S * Result HelloRequest :=
  let '(nonce, issuer) := new_nonce issuer in
  let request := mkHelloRequest nonce identity (compute_client_mac secret nonce identity) in
  (issuer, HelloRequest_validate request ;! Ok request).

Definition accept_hello_request (secret : bytes) (request : HelloRequest)
    (server_identity : PeerIdentity) (session_id : bytes) (issuer : S) : S * Result HelloResponse :=
  match HelloRequest_validate request with
  | Err e => (issuer, Err e)
  | Ok _ =>
    let expected := compute_client_mac secret (hq_client_nonce request) (hq_identity request) in
    if negb (constant_time_equal expected (hq_client_mac request))
    then (issuer, fail RC.PROTOCOL_AUTH_FAILED "the peer did not prove possession of the shared key")
    else
      let '(nonce, issuer) := new_nonce issuer in
      let response := mkHelloResponse nonce session_id server_identity
                        (compute_server_mac secret request nonce session_id server_identity) in
      (issuer, HelloResponse_validate response ;! Ok response)
  end.
End steps.

Definition verify_hello_response (secret : bytes) (request : HelloRequest) (response : HelloResponse)
  : Result Digest :=
  HelloResponse_validate response ;!
  let expected := compute_server_mac secret request (hr_server_nonce response)
                    (hr_session_id response) (hr_identity response) in
  if negb (constant_time_equal expected (hr_server_mac response))
  then fail RC.PROTOCOL_AUTH_FAILED "the responder did not prove possession of the shared key"
  else Ok (derive_session_key secret (hq_client_nonce request) (hr_server_nonce response)).

Definition parse_shared_secret (text : bytes) : Result bytes :=
  if negb (zlen text =? 64)
  then fail RC.INVALID_ARGUMENT "the shared secret must be 64 hexadecimal characters (32 bytes)"
  else
  match from_hex text with
  | None => fail RC.INVALID_ARGUMENT "the shared secret is not valid hexadecimal"
  | Some raw =>
    if negb (Nat.eqb (length raw) kDigestBytes)
    then fail RC.INVALID_ARGUMENT "the shared secret is not valid hexadecimal"
    else Ok raw
  end.

(** ** Codecs *)

#[global] Instance text_bound_contract lim `{!Roomy lim} : TextBound lim kMaxContractBytes.
Proof. destruct Roomy0. unfold TextBound, kMaxContractBytes. lia. Qed.

Definition peer_ok (p : PeerIdentity) : Prop :=
  EndpointId_is_valid (pi_endpoint p) = true /\ id_wf 16 (pi_boot p) /\ in_u 64 (pi_epoch p) /\
  text_ok kMaxContractBytes (pi_contract p) /\ digest_wf (pi_capability_digest p).

#[global] Instance peer_codec lim `{!Roomy lim} :
  Codec lim PeerIdentity_encode PeerIdentity_decode peer_ok.
Proof.
  split.
  - intros [e b ep role c d] (He & Hb & Hep & Hc & Hd).
    unfold PeerIdentity_decode, PeerIdentity_encode. cbn [pi_endpoint pi_boot pi_epoch pi_role
      pi_contract pi_capability_digest] in *. solve_reads; try done.
    + by apply endpoint_text.
    + by apply EndpointId_parse_self.
    + destruct role; vm_compute; split; congruence.
    + by destruct role.
    + by destruct role.
  - intros d x d' Hl H. unfold PeerIdentity_decode in H. repeat dstep H. dfacts. dcanon.
    repeat match goal with E : EndpointId_parse _ = Ok _ |- _ =>
      apply EndpointId_parse_spec in E as [-> ?] end.
    split; [by split_and!|]. unfold PeerIdentity_encode. cbn [pi_endpoint pi_boot pi_epoch pi_role
      pi_contract pi_capability_digest].
    match goal with E : negb (?r =? _) && _ = false |- _ =>
      assert (session_role_value (if r =? session_role_value SR.ENDPOINT then SR.ENDPOINT else SR.ADMIN)
              = r) as Hr end.
    { cbn [session_role_value] in *.
      match goal with |- context [?v =? 1] => destruct (Z.eqb_spec v 1), (Z.eqb_spec v 2) end;
        cbn in *; try done; congruence. }
    rewrite Hr. solve_consumed.
Qed.

Record request_ok (q : HelloRequest) : Prop := {
  ro_nonce : id_wf 32 (hq_client_nonce q);
  ro_peer : peer_ok (hq_identity q);
  ro_mac : digest_wf (hq_client_mac q);
  ro_valid : HelloRequest_validate q = Ok tt }.

Record response_ok (r : HelloResponse) : Prop := {
  rs_nonce : id_wf 32 (hr_server_nonce r);
  rs_session : id_wf 16 (hr_session_id r);
  rs_peer : peer_ok (hr_identity r);
  rs_mac : digest_wf (hr_server_mac r);
  rs_valid : HelloResponse_validate r = Ok tt }.

#[global] Instance request_codec lim `{!Roomy lim} :
  Codec lim HelloRequest_encode HelloRequest_decode request_ok.
Proof.
  split.
  - intros q [Hn Hp Hm Hv]. unfold HelloRequest_decode, HelloRequest_encode. solve_reads; try done;
      by destruct q.
  - intros d x d' Hl H. unfold HelloRequest_decode in H. repeat dstep H. dfacts. dcanon.
    match goal with E : HelloRequest_validate _ = Ok ?u |- _ => destruct u end.
    split; [by split|solve_consumed].
Qed.

#[global] Instance response_codec lim `{!Roomy lim} :
  Codec lim HelloResponse_encode HelloResponse_decode response_ok.
Proof.
  split.
  - intros q [Hn Hs Hp Hm Hv]. unfold HelloResponse_decode, HelloResponse_encode. solve_reads; try done;
      by destruct q.
  - intros d x d' Hl H. unfold HelloResponse_decode in H. repeat dstep H. dfacts. dcanon.
    match goal with E : HelloResponse_validate _ = Ok ?u |- _ => destruct u end.
    split; [by split|solve_consumed].
Qed.

Lemma zlen_FixedId n v : id_wf n v -> zlen (FixedId_encode v) = 8 + Z.of_nat n.
Proof. intros H. unfold FixedId_encode. rewrite zlen_enc_blob. unfold zlen. by rewrite H. Qed.

Lemma peer_encode_bound p : peer_ok p -> zlen (PeerIdentity_encode p) <= 208.
Proof.
  intros (He & Hb & _ & [Hc _] & Hd). unfold PeerIdentity_encode.
  rewrite !zlen_app, (zlen_FixedId 16 (pi_boot p)) by done.
  rewrite !zlen_enc_text, zlen_enc_u64, zlen_enc_u8, zlen_enc_digest by done. apply endpoint_text in He as [[He _] _].
  unfold kMaxEndpointIdBytes, kMaxContractBytes in *. lia.
Qed.

Lemma request_encode_bound q : request_ok q -> zlen (HelloRequest_encode q) <= 280.
Proof.
  intros [Hn Hp Hm _]. unfold HelloRequest_encode. rewrite !zlen_app.
  rewrite (zlen_FixedId 32), (zlen_enc_digest (hq_client_mac q)) by done. pose proof (peer_encode_bound _ Hp). lia.
Qed.

Lemma response_encode_bound r : response_ok r -> zlen (HelloResponse_encode r) <= 304.
Proof.
  intros [Hn Hs Hp Hm _]. unfold HelloResponse_encode. rewrite !zlen_app.
  rewrite (zlen_FixedId 32), (zlen_FixedId 16), (zlen_enc_digest (hr_server_mac r)) by done. pose proof (peer_encode_bound _ Hp). lia.
Qed.

(** ** What the proofs cover *)

Definition hmac_collision (key a b : bytes) : Prop := a <> b /\ hmac_sha256 key a = hmac_sha256 key b.

Lemma hmac_binds key a b : hmac_sha256 key a = hmac_sha256 key b -> a = b \/ hmac_collision key a b.
Proof. intros H. destruct (decide (a = b)); [by left|right; by split]. Qed.

(** Concatenated fields of any two codecs are read back uniquely. *)
Lemma field_inj {A} (enc : A -> bytes) (dec : Dec A) (ok : A -> Prop)
    `{!Codec default_limits enc dec ok} x y r r' : ok x -> ok y ->
  zlen (enc x ++ r) <= 2 ^ 23 -> enc x ++ r = enc y ++ r' -> x = y /\ r = r'.
Proof. intros Hx Hy Hl. by apply (codec_prefix_free default_limits enc dec ok). Qed.

Lemma nonce_inj n n' r r' : id_wf 32 n -> id_wf 32 n' -> zlen r <= 2 ^ 20 ->
  FixedId_encode n ++ r = FixedId_encode n' ++ r' -> n = n' /\ r = r'.
Proof.
  intros Hn Hn' Hr. apply (field_inj FixedId_encode (FixedId_decode 32) (id_wf 32)); try done.
  rewrite zlen_app, (zlen_FixedId 32) by done. lia.
Qed.

Lemma session_inj n n' r r' : id_wf 16 n -> id_wf 16 n' -> zlen r <= 2 ^ 20 ->
  FixedId_encode n ++ r = FixedId_encode n' ++ r' -> n = n' /\ r = r'.
Proof.
  intros Hn Hn' Hr. apply (field_inj FixedId_encode (FixedId_decode 16) (id_wf 16)); try done.
  rewrite zlen_app, (zlen_FixedId 16) by done. lia.
Qed.

Lemma peer_inj p p' : peer_ok p -> peer_ok p' -> PeerIdentity_encode p = PeerIdentity_encode p' -> p = p'.
Proof.
  intros Hp Hp' H. apply (field_inj PeerIdentity_encode PeerIdentity_decode peer_ok p p' [] []);
    rewrite ?app_nil_r; try done. pose proof (peer_encode_bound p Hp). lia.
Qed.

Lemma client_mac_preimage_inj n p n' p' : id_wf 32 n -> id_wf 32 n' -> peer_ok p -> peer_ok p' ->
  client_mac_preimage n p = client_mac_preimage n' p' -> n = n' /\ p = p'.
Proof.
  intros Hn Hn' Hp Hp' H. apply app_inv_head in H. pose proof (peer_encode_bound p Hp).
  apply nonce_inj in H as [-> H]; [|done..|lia]. split; [done|]. by apply peer_inj.
Qed.

Lemma server_mac_preimage_inj q q' n n' s s' p p' :
  request_ok q -> request_ok q' -> id_wf 32 n -> id_wf 32 n' -> id_wf 16 s -> id_wf 16 s' ->
  peer_ok p -> peer_ok p' ->
  server_mac_preimage q n s p = server_mac_preimage q' n' s' p' ->
  hq_client_nonce q = hq_client_nonce q' /\ hq_client_mac q = hq_client_mac q' /\
  n = n' /\ s = s' /\ p = p'.
Proof.
  intros [Hqn _ Hqm _] [Hqn' _ Hqm' _] Hn Hn' Hs Hs' Hp Hp' H. apply app_inv_head in H.
  pose proof (peer_encode_bound p Hp).
  apply nonce_inj in H as [Ea H]; [|done..|].
  2:{ rewrite !zlen_app, (zlen_FixedId 32 n), (zlen_FixedId 16), (zlen_enc_digest (hq_client_mac q)) by done.
      lia. }
  apply app_split in H as [Eb H]; [|unfold enc_digest, digest_wf in *; congruence].
  apply nonce_inj in H as [-> H]; [|done..|rewrite zlen_app, (zlen_FixedId 16) by done; lia].
  apply session_inj in H as [-> H]; [|done..|lia].
  by apply peer_inj in H.
Qed.

(** ** The steps *)

Lemma make_hello_request_Ok {S} `{!EntropySource S} secret identity (s s' : S) q :
  make_hello_request secret identity s = (s', Ok q) <->
  s' = (new_nonce s).2 /\ hq_client_nonce q = (new_nonce s).1 /\ hq_identity q = identity /\
  hq_client_mac q = compute_client_mac secret (hq_client_nonce q) identity /\
  HelloRequest_validate q = Ok tt.
Proof.
  unfold make_hello_request. destruct (new_nonce s) as [nonce s1]. cbn [fst snd].
  set (q0 := mkHelloRequest _ _ _). split.
  - intros H. destruct (HelloRequest_validate q0) as [[]|e] eqn:E; [|done].
    injection H as <- <-. done.
  - destruct q as [n i m]. intros (-> & Hn & Hi & Hm & Hv). cbn in Hn, Hi, Hm. subst n i m.
    fold q0 in Hv. rewrite Hv. done.
Qed.

Lemma accept_hello_request_Ok {S} `{!EntropySource S} secret q identity session (s s' : S) r :
  accept_hello_request secret q identity session s = (s', Ok r) <->
  HelloRequest_validate q = Ok tt /\
  hq_client_mac q = compute_client_mac secret (hq_client_nonce q) (hq_identity q) /\
  s' = (new_nonce s).2 /\ hr_server_nonce r = (new_nonce s).1 /\ hr_session_id r = session /\
  hr_identity r = identity /\
  hr_server_mac r = compute_server_mac secret q (hr_server_nonce r) session identity /\
  HelloResponse_validate r = Ok tt.
Proof.
  unfold accept_hello_request. destruct (HelloRequest_validate q) as [[]|e]; [|by split; [|intros []]].
  destruct (constant_time_equal _ _) eqn:E; cbn [negb].
  2:{ split; [done|]. intros (_ & Hm & _). rewrite <- Hm in E.
      by rewrite (proj2 (constant_time_equal_eq _ _) eq_refl) in E. }
  apply constant_time_equal_eq in E.
  destruct (new_nonce s) as [nonce s1]. cbn [fst snd]. set (r0 := mkHelloResponse _ _ _ _). split.
  - intros H. destruct (HelloResponse_validate r0) as [[]|e] eqn:Ev; [|done].
    injection H as <- <-. done.
  - destruct r as [n sid i m]. intros (_ & _ & -> & Hn & Hs & Hi & Hm & Hv). cbn in Hn, Hs, Hi, Hm.
    subst n sid i m. fold r0 in Hv. rewrite Hv. done.
Qed.

Lemma verify_hello_response_Ok secret q r k : verify_hello_response secret q r = Ok k <->
  HelloResponse_validate r = Ok tt /\
  hr_server_mac r = compute_server_mac secret q (hr_server_nonce r) (hr_session_id r) (hr_identity r) /\
  k = derive_session_key secret (hq_client_nonce q) (hr_server_nonce r).
Proof.
  unfold verify_hello_response. destruct (HelloResponse_validate r) as [[]|e]; cbn [rbind];
    [|by split; [|intros []]].
  destruct (constant_time_equal _ _) eqn:E; cbn [negb].
  - apply constant_time_equal_eq in E. split; [intros [= <-]; done|by intros (_ & _ & ->)].
  - split; [done|]. intros (_ & Hm & _). rewrite <- Hm in E.
    by rewrite (proj2 (constant_time_equal_eq _ _) eq_refl) in E.
Qed.

Lemma new_nonce_wf {S} `{!EntropySource S} (s : S) : id_wf 32 (new_nonce s).1.
Proof. apply entropy_fill_length. Qed.

Lemma made_request_ok {S} `{!EntropySource S} secret identity (s s' : S) q :
  peer_ok identity -> make_hello_request secret identity s = (s', Ok q) -> request_ok q.
Proof.
  intros Hp H. apply make_hello_request_Ok in H as (_ & Hn & Hi & Hm & Hv). split; try done.
  - rewrite Hn. apply new_nonce_wf.
  - by rewrite Hi.
  - rewrite Hm. apply length_hmac.
Qed.

(** ** Properties *)


(** (safety) What an accepted handshake message proves.  A server that
    accepts a request holds the MAC of exactly that nonce and identity: if the
    MAC was computed by a key holder for some nonce and identity, they are the
    ones in the request, or HMAC collided.  Likewise a client that accepts a
    response to its request knows that a MAC computed by a key holder for any
    request, nonce, session and identity was computed for these. *)
Theorem accepted_hello_is_bound {S : Type} `{!EntropySource S} (secret session : bytes)
    (server : PeerIdentity) (s s' : S) (q : HelloRequest) (r : HelloResponse) :
  request_ok q -> response_ok r ->
  accept_hello_request secret q server session s = (s', Ok r) ->
  (forall nonce identity, id_wf 32 nonce -> peer_ok identity ->
     hq_client_mac q = compute_client_mac secret nonce identity ->
     (nonce = hq_client_nonce q /\ identity = hq_identity q) \/
     exists a b, hmac_collision secret a b) /\
  (forall q' nonce sid identity key, request_ok q' -> id_wf 32 nonce -> id_wf 16 sid -> peer_ok identity ->
     verify_hello_response secret q r = Ok key ->
     hr_server_mac r = compute_server_mac secret q' nonce sid identity ->
     (hq_client_nonce q' = hq_client_nonce q /\ hq_client_mac q' = hq_client_mac q /\
      nonce = hr_server_nonce r /\ sid = hr_session_id r /\ identity = hr_identity r) \/
     exists a b, hmac_collision secret a b).
Proof.
  intros Hq Hr Ha. apply accept_hello_request_Ok in Ha as (_ & Hm & _). split.
  - intros nonce identity Hn Hi Hm'. rewrite Hm in Hm'. apply hmac_binds in Hm' as [E|]; [|eauto].
    left. symmetry in E. destruct Hq. by apply client_mac_preimage_inj in E.
  - intros q' nonce sid identity key Hq' Hn Hsid Hi Hver Hm'.
    apply verify_hello_response_Ok in Hver as (_ & Hsm & _). rewrite Hsm in Hm'.
    apply hmac_binds in Hm' as [E|]; [|eauto]. left. symmetry in E. destruct Hr.
    by apply server_mac_preimage_inj in E.
Qed.

(** (roundtrip) Handshake messages are canonical on the wire: a well-formed
    message decodes to itself, and a buffer that decodes is the encoding of a
    well-formed and valid message. *)
Theorem handshake_messages_roundtrip (q : HelloRequest) (r : HelloResponse) (input : bytes) :
  zlen input <= max_input_bytes default_limits ->
  (request_ok q -> decode_all default_limits HelloRequest_decode (HelloRequest_encode q) = Ok q) /\
  (decode_all default_limits HelloRequest_decode input = Ok q ->
     request_ok q /\ input = HelloRequest_encode q) /\
  (response_ok r -> decode_all default_limits HelloResponse_decode (HelloResponse_encode r) = Ok r) /\
  (decode_all default_limits HelloResponse_decode input = Ok r ->
     response_ok r /\ input = HelloResponse_encode r).
Proof.
  intros Hl. split_and!.
  - intros Hq. apply (decode_all_encode _ _ _ request_ok); [done|].
    pose proof (request_encode_bound q Hq). cbn [default_limits max_input_bytes]. lia.
  - by apply (decode_all_canonical _ _ _ request_ok).
  - intros Hr. apply (decode_all_encode _ _ _ response_ok); [done|].
    pose proof (response_encode_bound r Hr). cbn [default_limits max_input_bytes]. lia.
  - by apply (decode_all_canonical _ _ _ response_ok).
Qed.

(** *** A concrete handshake *)

Definition demo_peer (name : bytes) (role : SessionRole) : PeerIdentity :=
  mkPeer name (replicate 16 x07) 3 role kPeerContract (replicate 32 x09).
Definition demo_secret : bytes := replicate 32 x42.
Definition demo_client : PeerIdentity := demo_peer (lit "edge-1") SR.ENDPOINT.
Definition demo_server : PeerIdentity := demo_peer (lit "coordinator") SR.ENDPOINT.
Definition demo_cs : DeterministicEntropy := mkDetEntropy 1 0.
Definition demo_ss : DeterministicEntropy := mkDetEntropy 2 0.
Definition demo_request : HelloRequest :=
  Eval vm_compute in
  match (make_hello_request demo_secret demo_client demo_cs).2 with
  | Ok q => q | Err _ => mkHelloRequest [] demo_client [] end.
Definition demo_response : HelloResponse :=
  Eval vm_compute in
  match (accept_hello_request demo_secret demo_request demo_server (replicate 16 x0c) demo_ss).2 with
  | Ok r => r | Err _ => mkHelloResponse [] [] demo_server [] end.

Lemma demo_request_made :
  make_hello_request demo_secret demo_client demo_cs
    = ((make_hello_request demo_secret demo_client demo_cs).1, Ok demo_request).
Proof. vm_compute. reflexivity. Qed.

Lemma demo_response_made :
  accept_hello_request demo_secret demo_request demo_server (replicate 16 x0c) demo_ss
    = ((accept_hello_request demo_secret demo_request demo_server (replicate 16 x0c) demo_ss).1,
       Ok demo_response).
Proof. vm_compute. reflexivity. Qed.

Lemma demo_request_ok : request_ok demo_request.
Proof. split; [reflexivity| |reflexivity|vm_compute; reflexivity]. repeat split; vm_compute; congruence. Qed.

Lemma demo_response_ok : response_ok demo_response.
Proof.
  split; [reflexivity|reflexivity| |reflexivity|vm_compute; reflexivity].
  repeat split; vm_compute; congruence.
Qed.


Lemma accepted_hello_is_bound_witness :
  (hq_client_nonce demo_request = hq_client_nonce demo_request /\ hq_identity demo_request = demo_client)
  \/ exists a b, hmac_collision demo_secret a b.
Proof.
  destruct (accepted_hello_is_bound demo_secret (replicate 16 x0c) demo_server demo_ss _ demo_request
    demo_response demo_request_ok demo_response_ok demo_response_made) as [Hreq _].
  destruct (Hreq (hq_client_nonce demo_request) demo_client) as [[H1 H2]|H3].
  - reflexivity.
  - repeat split; vm_compute; congruence.
  - vm_compute. reflexivity.
  - left. split; [exact H1|symmetry; exact H2].
  - right. exact H3.
Defined.

Lemma handshake_messages_roundtrip_witness :
  decode_all default_limits HelloRequest_decode (HelloRequest_encode demo_request) = Ok demo_request.
Proof.
  apply (handshake_messages_roundtrip demo_request demo_response []).
  - vm_compute. congruence.
  - exact demo_request_ok.
Defined.
