(* ===== verification/Policy.v ===== *)
(** * Movement policy (src/src/policy.cpp, include/smf/policy.hpp)

    The policy record, its range checks, its canonical encoding and the policy
    set (a policy under a generation). *)
From S2P Require Import Prelude Status Bytes Digest Codec Ids.

Record MovementPolicy := mkPolicy {
  po_max_attempts : Z;
  po_max_inflight_chunks : Z;
  po_min_chunk_bytes : Z;
  po_max_chunk_bytes : Z;
  po_max_object_bytes : Z;
  po_max_movement_bytes : Z;
  po_max_endpoints : Z;
  po_max_sessions : Z;
  po_max_movements_in_flight : Z;
  po_max_provenance_events : Z;
  po_max_history_records : Z;
  po_max_store_bytes : Z;
  po_max_staging_bytes_per_endpoint : Z;
  po_allow_resume : bool;
  po_require_compatibility_evidence : bool;
  po_allow_unknown_kind : bool;
  po_verify_sample_chunks : bool;
  po_verify_sample_chunks_count : Z;
  po_io_budget_millis : Z;
  po_transfer_budget_millis : Z }.

(** [MovementPolicy()]: the member initialisers. *)
Definition default_policy : MovementPolicy :=
  mkPolicy 3 8 4096 (2 ^ 20) (64 * 2 ^ 30) (64 * 2 ^ 30) 256 256 1024 64 200000 (256 * 2 ^ 20)
    (8 * 2 ^ 30) true true true true 4 30000 600000.

Definition MovementPolicy_validate (p : MovementPolicy) : Result unit :=
  if (po_max_attempts p =? 0) || (kMaxAttemptsHardLimit <? po_max_attempts p)
  then fail RC.INVALID_POLICY "max_attempts must be between 1 and the hard limit"
  else if (po_max_inflight_chunks p =? 0) || (1024 <? po_max_inflight_chunks p)
  then fail RC.INVALID_POLICY "max_inflight_chunks must be between 1 and 1024"
  else if (po_min_chunk_bytes p <? kMinChunkBytes) || (kMaxChunkBytes <? po_min_chunk_bytes p)
  then fail RC.INVALID_POLICY "min_chunk_bytes is outside the supported range"
  else if (po_max_chunk_bytes p <? po_min_chunk_bytes p) || (kMaxChunkBytes <? po_max_chunk_bytes p)
  then fail RC.INVALID_POLICY "max_chunk_bytes is outside the supported range"
  else if (po_max_object_bytes p =? 0) || (kMaxObjectBytes <? po_max_object_bytes p)
  then fail RC.INVALID_POLICY "max_object_bytes is outside the supported range"
  else if (po_max_movement_bytes p =? 0) || (kMaxObjectBytes <? po_max_movement_bytes p)
  then fail RC.INVALID_POLICY "max_movement_bytes is outside the supported range"
  else if (po_max_endpoints p =? 0) || (kMaxEndpoints <? po_max_endpoints p)
  then fail RC.INVALID_POLICY "max_endpoints is outside the supported range"
  else if (po_max_sessions p =? 0) || (8192 <? po_max_sessions p)
  then fail RC.INVALID_POLICY "max_sessions is outside the supported range"
  else if (po_max_movements_in_flight p =? 0) || (100000 <? po_max_movements_in_flight p)
  then fail RC.INVALID_POLICY "max_movements_in_flight is outside the supported range"
  else if (po_max_provenance_events p =? 0) || (kMaxProvenanceEvents <? po_max_provenance_events p)
  then fail RC.INVALID_POLICY "max_provenance_events is outside the supported range"
  else if (po_max_history_records p =? 0) || (10000000 <? po_max_history_records p)
  then fail RC.INVALID_POLICY "max_history_records is outside the supported range"
  else if po_max_store_bytes p <? 2 ^ 20
  then fail RC.INVALID_POLICY "max_store_bytes is implausibly small"
  else if po_max_staging_bytes_per_endpoint p <? po_max_chunk_bytes p
  then fail RC.INVALID_POLICY "staging budget must be able to hold at least one chunk"
  else if (po_verify_sample_chunks_count p =? 0) || (64 <? po_verify_sample_chunks_count p)
  then fail RC.INVALID_POLICY "verify_sample_chunks_count is outside the supported range"
  else if (po_io_budget_millis p =? 0) || (3600000 <? po_io_budget_millis p)
  then fail RC.INVALID_POLICY "io_budget_millis is outside the supported range"
  else if (po_transfer_budget_millis p =? 0) || (86400000 <? po_transfer_budget_millis p)
  then fail RC.INVALID_POLICY "transfer_budget_millis is outside the supported range"
  else Ok tt.

Definition MovementPolicy_encode (p : MovementPolicy) : bytes :=
  enc_u32 (po_max_attempts p) ++ enc_u32 (po_max_inflight_chunks p) ++
  enc_u64 (po_min_chunk_bytes p) ++ enc_u64 (po_max_chunk_bytes p) ++
  enc_u64 (po_max_object_bytes p) ++ enc_u64 (po_max_movement_bytes p) ++
  enc_u32 (po_max_endpoints p) ++ enc_u32 (po_max_sessions p) ++
  enc_u32 (po_max_movements_in_flight p) ++ enc_u32 (po_max_provenance_events p) ++
  enc_u32 (po_max_history_records p) ++ enc_u64 (po_max_store_bytes p) ++
  enc_u64 (po_max_staging_bytes_per_endpoint p) ++ enc_boolean (po_allow_resume p) ++
  enc_boolean (po_require_compatibility_evidence p) ++ enc_boolean (po_allow_unknown_kind p) ++
  enc_boolean (po_verify_sample_chunks p) ++ enc_u32 (po_verify_sample_chunks_count p) ++
  enc_u32 (po_io_budget_millis p) ++ enc_u32 (po_transfer_budget_millis p).

Definition MovementPolicy_decode : Dec MovementPolicy :=
  let? max_attempts := dec_u32 in
  let? inflight := dec_u32 in
  let? min_chunk := dec_u64 in
  let? max_chunk := dec_u64 in
  let? max_object := dec_u64 in
  let? max_movement := dec_u64 in
  let? max_endpoints := dec_u32 in
  let? max_sessions := dec_u32 in
  let? max_in_flight := dec_u32 in
  let? max_provenance := dec_u32 in
  let? max_history := dec_u32 in
  let? max_store := dec_u64 in
  let? max_staging := dec_u64 in
  let? allow_resume := dec_boolean in
  let? require_compat := dec_boolean in
  let? allow_unknown := dec_boolean in
  let? verify_sample := dec_boolean in
  let? verify_count := dec_u32 in
  let? io_budget := dec_u32 in
  let? transfer_budget := dec_u32 in
  let policy := mkPolicy max_attempts inflight min_chunk max_chunk max_object max_movement
    max_endpoints max_sessions max_in_flight max_provenance max_history max_store max_staging
    allow_resume require_compat allow_unknown verify_sample verify_count io_budget transfer_budget in
  dlift (MovementPolicy_validate policy) ;?
  dret policy.

(** [operator==]: equality of the encodings. *)
Definition MovementPolicy_eqb (a b : MovementPolicy) : bool :=
  bytes_eqb (MovementPolicy_encode a) (MovementPolicy_encode b).

Record PolicySet := mkPolicySet { ps_generation : Z; ps_policy : MovementPolicy }.

Definition PolicySet_validate (s : PolicySet) : Result unit :=
  if negb (is_set (ps_generation s))
  then fail RC.INVALID_GENERATION "policy generation must be non-zero"
  else MovementPolicy_validate (ps_policy s).

Definition PolicySet_encode (s : PolicySet) : bytes :=
  enc_u64 (ps_generation s) ++ MovementPolicy_encode (ps_policy s).

Definition PolicySet_digest (s : PolicySet) : Digest :=
  canonical_digest (enc_text (lit "SMF-POLICY-SET-v1") ++ PolicySet_encode s).

Definition PolicySet_decode : Dec PolicySet :=
  let? generation := dec_u64 in
  let? policy := MovementPolicy_decode in
  let set := mkPolicySet generation policy in
  dlift (PolicySet_validate set) ;?
  dret set.

(** ** Ranges *)

(** The widths of the fields. *)
Definition policy_range (p : MovementPolicy) : Prop :=
  in_u 32 (po_max_attempts p) /\ in_u 32 (po_max_inflight_chunks p) /\
  in_u 64 (po_min_chunk_bytes p) /\ in_u 64 (po_max_chunk_bytes p) /\
  in_u 64 (po_max_object_bytes p) /\ in_u 64 (po_max_movement_bytes p) /\
  in_u 32 (po_max_endpoints p) /\ in_u 32 (po_max_sessions p) /\
  in_u 32 (po_max_movements_in_flight p) /\ in_u 32 (po_max_provenance_events p) /\
  in_u 32 (po_max_history_records p) /\ in_u 64 (po_max_store_bytes p) /\
  in_u 64 (po_max_staging_bytes_per_endpoint p) /\ in_u 32 (po_verify_sample_chunks_count p) /\
  in_u 32 (po_io_budget_millis p) /\ in_u 32 (po_transfer_budget_millis p).

(** What a validated policy guarantees its users. *)
Record valid_policy (p : MovementPolicy) : Prop := {
  vp_attempts : 1 <= po_max_attempts p <= 64;
  vp_inflight : 1 <= po_max_inflight_chunks p <= 1024;
  vp_chunks : 1024 <= po_min_chunk_bytes p <= po_max_chunk_bytes p /\ po_max_chunk_bytes p <= 2 ^ 26;
  vp_object : 1 <= po_max_object_bytes p <= 2 ^ 40;
  vp_movement : 1 <= po_max_movement_bytes p <= 2 ^ 40;
  vp_endpoints : 1 <= po_max_endpoints p <= 4096;
  vp_sessions : 1 <= po_max_sessions p <= 8192;
  vp_in_flight : 1 <= po_max_movements_in_flight p <= 100000;
  vp_provenance : 1 <= po_max_provenance_events p <= 256;
  vp_history : 1 <= po_max_history_records p <= 10000000;
  vp_store : 2 ^ 20 <= po_max_store_bytes p;
  vp_staging : po_max_chunk_bytes p <= po_max_staging_bytes_per_endpoint p;
  vp_sample : 1 <= po_verify_sample_chunks_count p <= 64;
  vp_io : 1 <= po_io_budget_millis p <= 3600000;
  vp_transfer : 1 <= po_transfer_budget_millis p <= 86400000 }.

Ltac policy_consts :=
  change kMaxAttemptsHardLimit with 64 in *; change kMinChunkBytes with 1024 in *;
  change kMaxChunkBytes with (2 ^ 26) in *; change kMaxObjectBytes with (2 ^ 40) in *;
  change kMaxEndpoints with 4096 in *; change kMaxProvenanceEvents with 256 in *.

(** A passed test [x == 0 || x > hi], [x < lo || x > hi] or [x < lo]. *)
Lemma nonzero_upto x hi : 0 <= x -> (x =? 0) || (hi <? x) = false <-> 1 <= x <= hi.
Proof. intros H. rewrite orb_false_iff, Z.eqb_neq, Z.ltb_ge. lia. Qed.
Lemma between x lo hi : (x <? lo) || (hi <? x) = false <-> lo <= x <= hi.
Proof. rewrite orb_false_iff, !Z.ltb_ge. lia. Qed.

Lemma policy_validate_spec p : policy_range p ->
  MovementPolicy_validate p = Ok tt <-> valid_policy p.
Proof.
  intros (?&?&?&?&?&?&?&?&?&?&?&?&?&?&?&?). unfold in_u in *. unfold MovementPolicy_validate.
  rewrite !reject_Ok by discriminate. rewrite !nonzero_upto, !between, !Z.ltb_ge by lia. policy_consts.
  split.
  - intros (?&?&?&?&?&?&?&?&?&?&?&?&?&?&?&?&_). constructor; lia.
  - intros []. split_and!; try lia. done.
Qed.

Definition policy_ok (p : MovementPolicy) : Prop := policy_range p /\ valid_policy p.

#[global] Instance policy_codec lim : Codec lim MovementPolicy_encode MovementPolicy_decode policy_ok.
Proof.
  split.
  - intros p [Hr Hv]. pose proof (proj2 (policy_validate_spec p Hr) Hv) as E.
    destruct p, Hr as (?&?&?&?&?&?&?&?&?&?&?&?&?&?&?&?).
    unfold MovementPolicy_decode, MovementPolicy_encode. solve_reads; first [eassumption|exact I|done].
  - intros d x d' Hl H. unfold MovementPolicy_decode in H. repeat dstep H. dfacts. dcanon.
    match goal with E : MovementPolicy_validate _ = Ok ?u |- _ => destruct u; rename E into Ev end.
    apply policy_validate_spec in Ev as Hv; [|by split_and!].
    split; [split; [by split_and!|done]|solve_consumed].
Qed.

Definition policy_set_ok (s : PolicySet) : Prop :=
  in_u 64 (ps_generation s) /\ ps_generation s <> 0 /\ policy_ok (ps_policy s).

Lemma policy_set_validate_spec s : policy_range (ps_policy s) ->
  PolicySet_validate s = Ok tt <-> ps_generation s <> 0 /\ valid_policy (ps_policy s).
Proof.
  intros Hr. unfold PolicySet_validate, is_set. rewrite reject_Ok by discriminate.
  rewrite policy_validate_spec, negb_involutive, Z.eqb_neq by done. done.
Qed.

#[global] Instance policy_set_codec lim : Codec lim PolicySet_encode PolicySet_decode policy_set_ok.
Proof.
  split.
  - intros [g p] (Hg & Hn & Hp). unfold PolicySet_decode, PolicySet_encode.
    solve_reads; [done|done| |done]. apply policy_set_validate_spec; [apply Hp|]. split; [done|apply Hp].
  - intros d x d' Hl H. unfold PolicySet_decode in H. repeat dstep H. dfacts. dcanon.
    match goal with E : PolicySet_validate _ = Ok ?u |- _ => destruct u; rename E into Ev end.
    match goal with Hp : policy_ok _ |- _ => pose proof Hp as [Hr _] end.
    apply policy_set_validate_spec in Ev as [Hn _]; [|done].
    split; [by split_and!|solve_consumed].
Qed.

Lemma zlen_policy p : zlen (MovementPolicy_encode p) = 92.
Proof.
  unfold MovementPolicy_encode.
  rewrite !zlen_app, !zlen_enc_u32, !zlen_enc_u64, !zlen_enc_boolean. reflexivity.
Qed.

Lemma zlen_policy_set s : zlen (PolicySet_encode s) = 100.
Proof. unfold PolicySet_encode. by rewrite zlen_app, zlen_enc_u64, zlen_policy. Qed.

Lemma policy_eqb_eq a b : policy_ok a -> policy_ok b -> MovementPolicy_eqb a b = true <-> a = b.
Proof.
  intros Ha Hb. unfold MovementPolicy_eqb. rewrite bytes_eqb_eq. split; [|by intros ->]. intros H.
  apply (codec_prefix_free default_limits MovementPolicy_encode MovementPolicy_decode policy_ok a b [] []);
    rewrite ?app_nil_r; done.
Qed.

Lemma default_policy_ok : policy_ok default_policy.
Proof.
  split; [repeat split; vm_compute; congruence|].
  apply policy_validate_spec; [repeat split; vm_compute; congruence|reflexivity].
Qed.

(** ** Properties *)

(** (roundtrip) Policies travel canonically: a policy set with in-range,
    valid fields decodes to itself; whatever decodes is such a set, encoded; the
    comparison by encodings is equality; and validation accepts exactly the
    documented ranges, the built-in default among them. *)
Theorem policy_sets_canonical (s : PolicySet) (a b : MovementPolicy) (input : bytes) :
  zlen input <= max_input_bytes default_limits -> policy_ok a -> policy_ok b ->
  (policy_set_ok s -> decode_all default_limits PolicySet_decode (PolicySet_encode s) = Ok s) /\
  (decode_all default_limits PolicySet_decode input = Ok s ->
     policy_set_ok s /\ input = PolicySet_encode s) /\
  (MovementPolicy_eqb a b = true <-> a = b) /\
  (forall p, policy_range p -> MovementPolicy_validate p = Ok tt <-> valid_policy p) /\
  policy_ok default_policy.
Proof.
  intros Hl Ha Hb. split_and!.
  - intros Hs. apply (decode_all_encode _ _ _ policy_set_ok); [done|]. by rewrite zlen_policy_set.
  - by apply (decode_all_canonical _ _ _ policy_set_ok).
  - by apply policy_eqb_eq.
  - apply policy_validate_spec.
  - apply default_policy_ok.
Qed.

Lemma policy_sets_canonical_witness :
  decode_all default_limits PolicySet_decode (PolicySet_encode (mkPolicySet 1 default_policy))
    = Ok (mkPolicySet 1 default_policy).
Proof.
  apply (policy_sets_canonical (mkPolicySet 1 default_policy) default_policy default_policy []).
  - vm_compute. congruence.
  - exact default_policy_ok.
  - exact default_policy_ok.
  - split; [vm_compute; split; congruence|]. split; [cbn; congruence|exact default_policy_ok].
Defined.
