(* ===== verification/Topology.v ===== *)
(** * Topology view (src/src/topology.cpp, include/smf/topology.hpp)

    Registered endpoints and links.  The source keeps the registrations in a
    vector, with a map from endpoint names to positions beside it; [topo_inv]
    says the two agree, every operation preserves it, and under it the view is a
    finite map from names to registrations ([registry]), which is the abstract
    state the operations are proved to refine. *)
From S2P Require Import Prelude Status Bytes Digest Codec Ids.

Record SocketAddress := mkAddress { sa_host : bytes; sa_port : Z }.

Record EndpointRegistration := mkRegistration {
  er_endpoint : bytes;
  er_incarnation : Incarnation;
  er_service_address : SocketAddress;
  er_data_address : SocketAddress;
  er_contract : bytes;
  er_capability_digest : Digest;
  er_registered_unix_millis : Z;
  er_live : bool }.

Record LinkDescriptor := mkLink {
  li_from : bytes;
  li_to : bytes;
  li_observed : bool;
  li_rtt_micros : Z;
  li_bytes_per_second : Z }.

Definition EndpointRegistration_validate (r : EndpointRegistration) : Result unit :=
  if bytes_eqb (er_endpoint r) []
  then fail RC.INVALID_ID "endpoint registration requires an endpoint id"
  else if negb (Incarnation_is_set (er_incarnation r))
  then fail RC.STALE_INCARNATION "endpoint registration requires a complete incarnation"
  else if negb (bytes_eqb (inc_endpoint (er_incarnation r)) (er_endpoint r))
  then fail RC.STALE_INCARNATION "endpoint registration incarnation names a different endpoint"
  else if sa_port (er_service_address r) =? 0
  then fail RC.INVALID_ADDRESS "endpoint registration requires a service port"
  else if sa_port (er_data_address r) =? 0
  then fail RC.INVALID_ADDRESS "endpoint registration requires a data port"
  else if bytes_eqb (er_contract r) [] || (kMaxTextBytes <? zlen (er_contract r))
  then fail RC.ENDPOINT_CONTRACT_MISMATCH "endpoint registration requires a bounded contract string"
  else if array_is_zero (er_capability_digest r)
  then fail RC.INVALID_DIGEST "endpoint registration requires a capability digest"
  else Ok tt.

Record TopologyView := mkTopology {
  tv_coordinator : Incarnation;
  tv_generation : Z;
  tv_endpoints : list EndpointRegistration;
  tv_links : list LinkDescriptor;
  tv_index : gmap bytes nat }.

Definition TopologyView_init (coordinator : Incarnation) (generation : Z) : TopologyView :=
  mkTopology coordinator generation [] [] ∅.

Definition with_endpoints (t : TopologyView) (endpoints : list EndpointRegistration)
    (links : list LinkDescriptor) (index : gmap bytes nat) : TopologyView :=
  mkTopology (tv_coordinator t) (tv_generation t) endpoints links index.

Definition topology_advance (t : TopologyView) : TopologyView * Result Z :=
  match Generation_next (tv_generation t) with
  | Err e => (t, Err e)
  | Ok g => (mkTopology (tv_coordinator t) g (tv_endpoints t) (tv_links t) (tv_index t), Ok g)
  end.

(** As in [find], an index entry without a position never occurs. *)
Definition topology_put (t : TopologyView) (r : EndpointRegistration) (max_endpoints : Z)
  : TopologyView * Result unit :=
  match EndpointRegistration_validate r with
  | Err e => (t, Err e)
  | Ok _ =>
    match tv_index t !! er_endpoint r with
    | Some position =>
      match tv_endpoints t !! position with
      | None => (t, Ok tt)
      | Some slot =>
        if inc_epoch (er_incarnation r) <? inc_epoch (er_incarnation slot)
        then (t, fail RC.STALE_EPOCH
                   "registration carries an epoch older than the one already recorded")
        else (with_endpoints t (<[position := r]> (tv_endpoints t)) (tv_links t) (tv_index t), Ok tt)
      end
    | None =>
      if max_endpoints <=? zlen (tv_endpoints t)
      then (t, fail RC.RESOURCE_EXHAUSTED "topology endpoint bound reached")
      else (with_endpoints t (tv_endpoints t ++ [r]) (tv_links t)
              (<[er_endpoint r := length (tv_endpoints t)]> (tv_index t)), Ok tt)
    end
  end.

Definition link_touches (endpoint : bytes) (l : LinkDescriptor) : bool :=
  bytes_eqb (li_from l) endpoint || bytes_eqb (li_to l) endpoint.

Definition topology_remove (t : TopologyView) (endpoint : bytes) : TopologyView * Result unit :=
  match tv_index t !! endpoint with
  | None => (t, fail RC.ENDPOINT_NOT_FOUND "endpoint is not registered")
  | Some position =>
    let endpoints := delete position (tv_endpoints t) in
    let index := (fun p => if Nat.ltb position p then (p - 1)%nat else p) <$> delete endpoint (tv_index t) in
    let links := List.filter (fun l => negb (link_touches endpoint l)) (tv_links t) in
    (with_endpoints t endpoints links index, Ok tt)
  end.

Definition set_dead (r : EndpointRegistration) : EndpointRegistration :=
  mkRegistration (er_endpoint r) (er_incarnation r) (er_service_address r) (er_data_address r)
    (er_contract r) (er_capability_digest r) (er_registered_unix_millis r) false.

Definition topology_mark_dead (t : TopologyView) (endpoint : bytes) : TopologyView * Result unit :=
  match tv_index t !! endpoint with
  | None => (t, fail RC.ENDPOINT_NOT_FOUND "endpoint is not registered")
  | Some position =>
    let t := with_endpoints t (alter set_dead position (tv_endpoints t)) (tv_links t) (tv_index t) in
    let '(t, advanced) := topology_advance t in
    (t, let! _ := advanced in Ok tt)
  end.

(** [endpoints_[existing->second]]; the index always holds a valid position
    ([topo_inv]), the last branch is never taken. *)
Definition topology_find (t : TopologyView) (endpoint : bytes) : Result EndpointRegistration :=
  match tv_index t !! endpoint with
  | None => fail RC.ENDPOINT_NOT_FOUND "endpoint is not registered"
  | Some position =>
    match tv_endpoints t !! position with
    | Some r => Ok r
    | None => fail RC.INTERNAL_ERROR "index position out of range"
    end
  end.

Definition topology_contains (t : TopologyView) (endpoint : bytes) : bool :=
  match tv_index t !! endpoint with Some _ => true | None => false end.

Definition link_is (from to : bytes) (l : LinkDescriptor) : bool :=
  bytes_eqb (li_from l) from && bytes_eqb (li_to l) to.

(** [std::find_if] and the assignment through the iterator. *)
Fixpoint replace_first (p : LinkDescriptor -> bool) (x : LinkDescriptor) (l : list LinkDescriptor)
  : option (list LinkDescriptor) :=
  match l with
  | [] => None
  | y :: rest => if p y then Some (x :: rest) else option_map (cons y) (replace_first p x rest)
  end.

Definition topology_put_link (t : TopologyView) (link : LinkDescriptor) (max_links : Z)
  : TopologyView * Result unit :=
  if bytes_eqb (li_from link) (li_to link)
  then (t, fail RC.INVALID_ARGUMENT "a link must connect two distinct endpoints")
  else
  match replace_first (link_is (li_from link) (li_to link)) link (tv_links t) with
  | Some links => (with_endpoints t (tv_endpoints t) links (tv_index t), Ok tt)
  | None =>
    if max_links <=? zlen (tv_links t)
    then (t, fail RC.RESOURCE_EXHAUSTED "topology link bound reached")
    else (with_endpoints t (tv_endpoints t) (tv_links t ++ [link]) (tv_index t), Ok tt)
  end.

Definition topology_find_link (t : TopologyView) (from to : bytes) : Result LinkDescriptor :=
  match find (link_is from to) (tv_links t) with
  | None => fail RC.NOT_FOUND "no link descriptor is recorded for that pair"
  | Some l => Ok l
  end.

Definition topology_live_count (t : TopologyView) : Z := zlen (List.filter er_live (tv_endpoints t)).

Definition reset_dynamic_state (t : TopologyView) : TopologyView :=
  (topology_advance (with_endpoints t [] [] ∅)).1.

(** ** Invariant *)

Definition names (t : TopologyView) : list bytes := er_endpoint <$> tv_endpoints t.
Definition link_pair (l : LinkDescriptor) : bytes * bytes := (li_from l, li_to l).

Record topo_inv (t : TopologyView) : Prop := {
  ti_index : forall e p, tv_index t !! e = Some p <-> names t !! p = Some e;
  ti_valid : Forall (fun r => EndpointRegistration_validate r = Ok tt) (tv_endpoints t);
  ti_links : NoDup (link_pair <$> tv_links t);
  ti_distinct : Forall (fun l => li_from l <> li_to l) (tv_links t);
  ti_generation : in_u 64 (tv_generation t) }.

(** The abstract state. *)
Definition registry (t : TopologyView) : gmap bytes EndpointRegistration :=
  omap (fun p => tv_endpoints t !! p) (tv_index t).

Lemma registry_lookup t e : registry t !! e = tv_index t !! e ≫= fun p => tv_endpoints t !! p.
Proof. apply lookup_omap. Qed.

Section inv.
Context (t : TopologyView) (Hinv : topo_inv t).

Lemma index_position e p : tv_index t !! e = Some p ->
  exists r, tv_endpoints t !! p = Some r /\ er_endpoint r = e /\ registry t !! e = Some r /\
    EndpointRegistration_validate r = Ok tt.
Proof.
  intros H. pose proof H as H2. apply (ti_index t Hinv) in H2. unfold names in H2.
  rewrite list_lookup_fmap in H2. destruct (tv_endpoints t !! p) as [r|] eqn:E; [|done].
  injection H2 as <-. exists r. rewrite registry_lookup, H. split_and!; try done.
  pose proof (ti_valid t Hinv) as Hv. rewrite Forall_lookup in Hv. eauto.
Qed.

Lemma index_None e : tv_index t !! e = None <-> e ∉ names t.
Proof.
  split.
  - intros H [p Hp]%list_elem_of_lookup. apply (ti_index t Hinv) in Hp. congruence.
  - intros H. destruct (tv_index t !! e) as [p|] eqn:E; [|done].
    apply (ti_index t Hinv) in E. destruct H. by eapply list_elem_of_lookup_2.
Qed.

Lemma names_nodup : NoDup (names t).
Proof.
  apply NoDup_alt. intros i j e Hi Hj. apply (ti_index t Hinv) in Hi, Hj. congruence.
Qed.

Lemma registry_None e : registry t !! e = None <-> tv_index t !! e = None.
Proof.
  rewrite registry_lookup. destruct (tv_index t !! e) as [p|] eqn:E; cbn; [|done].
  destruct (index_position e p E) as (r & -> & _). done.
Qed.

Lemma registry_size : size (registry t) = length (tv_endpoints t).
Proof.
  rewrite <- size_dom. assert (dom (registry t) = list_to_set (names t)) as ->.
  { apply set_eq. intros e. rewrite elem_of_list_to_set, elem_of_dom.
    destruct (registry t !! e) eqn:E.
    - split; [intros _|by eexists]. destruct (tv_index t !! e) as [p|] eqn:Ei.
      + apply (ti_index t Hinv) in Ei. by eapply list_elem_of_lookup_2.
      + apply registry_None in Ei. congruence.
    - apply registry_None, index_None in E. split; [by intros []|done]. }
  rewrite size_list_to_set by apply names_nodup. unfold names. apply length_fmap.
Qed.

Lemma find_registry e : topology_find t e =
  match registry t !! e with
  | Some r => Ok r
  | None => fail RC.ENDPOINT_NOT_FOUND "endpoint is not registered"
  end.
Proof.
  unfold topology_find. destruct (tv_index t !! e) as [p|] eqn:E.
  - destruct (index_position e p E) as (r & -> & _ & -> & _). done.
  - by apply registry_None in E as ->.
Qed.

Lemma put_cases r max :
  (EndpointRegistration_validate r <> Ok tt /\ exists e, topology_put t r max = (t, Err e)) \/
  (EndpointRegistration_validate r = Ok tt /\ exists p old,
     tv_index t !! er_endpoint r = Some p /\ registry t !! er_endpoint r = Some old /\
     ((inc_epoch (er_incarnation r) < inc_epoch (er_incarnation old) /\
       exists e, topology_put t r max = (t, Err e)) \/
      (inc_epoch (er_incarnation old) <= inc_epoch (er_incarnation r) /\
       topology_put t r max = (with_endpoints t (<[p := r]> (tv_endpoints t)) (tv_links t) (tv_index t),
                               Ok tt)))) \/
  (EndpointRegistration_validate r = Ok tt /\ tv_index t !! er_endpoint r = None /\
   ((max <= zlen (tv_endpoints t) /\ exists e, topology_put t r max = (t, Err e)) \/
    (zlen (tv_endpoints t) < max /\
     topology_put t r max =
       (with_endpoints t (tv_endpoints t ++ [r]) (tv_links t)
          (<[er_endpoint r := length (tv_endpoints t)]> (tv_index t)), Ok tt)))).
Proof.
  unfold topology_put. destruct (EndpointRegistration_validate r) as [[]|err] eqn:Ev.
  2:{ left. split; [congruence|by eexists]. }
  right. destruct (tv_index t !! er_endpoint r) as [p|] eqn:Ei.
  - left. split; [done|]. destruct (index_position _ p Ei) as (old & Hp & _ & Hr & _).
    rewrite Hp. exists p, old. split; [done|]. split; [done|].
    destruct (Z.ltb_spec (inc_epoch (er_incarnation r)) (inc_epoch (er_incarnation old)));
      [left|right]; split; try done. by eexists.
  - right. split; [done|]. split; [done|].
    destruct (Z.leb_spec max (zlen (tv_endpoints t))); [left|right]; split; try done. by eexists.
Qed.

Lemma replace_inv p r : tv_index t !! er_endpoint r = Some p -> EndpointRegistration_validate r = Ok tt ->
  topo_inv (with_endpoints t (<[p := r]> (tv_endpoints t)) (tv_links t) (tv_index t)) /\
  registry (with_endpoints t (<[p := r]> (tv_endpoints t)) (tv_links t) (tv_index t))
    = <[er_endpoint r := r]> (registry t).
Proof.
  intros Hp Hv. destruct (index_position _ p Hp) as (old & Hold & He & _).
  assert ((er_endpoint <$> <[p := r]> (tv_endpoints t)) = names t) as Hn.
  { rewrite list_fmap_insert. apply list_insert_id. unfold names.
    rewrite list_lookup_fmap, Hold. cbn. by rewrite He. }
  split.
  - destruct Hinv. constructor; try done.
    + intros e q. unfold names at 1. cbn [with_endpoints tv_endpoints tv_index]. rewrite Hn. auto.
    + apply Forall_insert; [done|done].
  - apply map_eq. intros e. rewrite registry_lookup. cbn [with_endpoints tv_endpoints tv_index].
    destruct (decide (e = er_endpoint r)) as [->|Hne].
    + rewrite lookup_insert_eq, Hp. cbn. apply list_lookup_insert_eq. by eapply lookup_lt_Some.
    + rewrite lookup_insert_ne, registry_lookup by done. destruct (tv_index t !! e) as [q|] eqn:Eq; [|done].
      cbn. apply list_lookup_insert_ne. intros <-.
      apply (ti_index t Hinv) in Eq, Hp. congruence.
Qed.

Lemma append_inv r : tv_index t !! er_endpoint r = None -> EndpointRegistration_validate r = Ok tt ->
  let t' := with_endpoints t (tv_endpoints t ++ [r]) (tv_links t)
              (<[er_endpoint r := length (tv_endpoints t)]> (tv_index t)) in
  topo_inv t' /\ registry t' = <[er_endpoint r := r]> (registry t).
Proof.
  intros Hn Hv t'.
  assert (Hlt : forall e p, tv_index t !! e = Some p -> (p < length (tv_endpoints t))%nat).
  { intros e p E. destruct (index_position e p E) as (x & Hx & _). by eapply lookup_lt_Some. }
  split.
  - pose proof Hinv as []. constructor; try done.
    + intros e p. unfold names, t'. cbn [with_endpoints tv_endpoints tv_index]. rewrite fmap_app.
      destruct (decide (e = er_endpoint r)) as [->|Hne].
      * rewrite lookup_insert_eq. split.
        -- intros [= <-]. rewrite lookup_app_r, length_fmap, Nat.sub_diag by (by rewrite length_fmap). done.
        -- intros H. apply lookup_app_Some in H as [H|[Hle H]].
           ++ apply ti_index0 in H. congruence.
           ++ apply list_lookup_singleton_Some in H as [H _]. rewrite length_fmap in *. f_equal. lia.
      * rewrite lookup_insert_ne by done. rewrite ti_index0. split.
        -- intros H. by apply lookup_app_l_Some.
        -- intros H. apply lookup_app_Some in H as [H|[_ H]]; [done|].
           apply list_lookup_singleton_Some in H as [_ H]. congruence.
    + apply Forall_app. split; [done|by constructor].
  - apply map_eq. intros e. rewrite registry_lookup. unfold t'. cbn [with_endpoints tv_endpoints tv_index].
    destruct (decide (e = er_endpoint r)) as [->|Hne].
    + rewrite !lookup_insert_eq. cbn. rewrite lookup_app_r, Nat.sub_diag by lia. done.
    + rewrite !lookup_insert_ne, registry_lookup by done. destruct (tv_index t !! e) as [q|] eqn:Eq; [|done].
      cbn. apply lookup_app_l. eauto.
Qed.

Lemma delete_inv e p : tv_index t !! e = Some p -> forall links,
  NoDup (link_pair <$> links) -> Forall (fun l => li_from l <> li_to l) links ->
  let t' := with_endpoints t (delete p (tv_endpoints t)) links
              ((fun q => if Nat.ltb p q then (q - 1)%nat else q) <$> delete e (tv_index t)) in
  topo_inv t' /\ registry t' = delete e (registry t).
Proof.
  intros Hp links Hl1 Hl2 t'.
  assert (Hshift : forall e' q, e' <> e -> tv_index t !! e' = Some q ->
    exists q', ((fun q => if Nat.ltb p q then (q - 1)%nat else q) <$> delete e (tv_index t)) !! e' = Some q'
      /\ delete p (tv_endpoints t) !! q' = tv_endpoints t !! q).
  { intros e' q Hne Hq. rewrite lookup_fmap, lookup_delete_ne, Hq by done.
    exists (if Nat.ltb p q then (q - 1)%nat else q). split; [reflexivity|].
    assert (q <> p) by (intros ->; apply (ti_index t Hinv) in Hq, Hp; congruence).
    destruct (Nat.ltb_spec p q).
    - rewrite list_lookup_delete_ge by lia. f_equal. lia.
    - by rewrite list_lookup_delete_lt by lia. }
  assert (Hreg : registry t' = delete e (registry t)).
  { apply map_eq. intros e'. rewrite registry_lookup. unfold t'. cbn [with_endpoints tv_endpoints tv_index].
    destruct (decide (e' = e)) as [->|Hne].
    - by rewrite lookup_fmap, !lookup_delete_eq.
    - rewrite lookup_delete_ne, registry_lookup by done.
      destruct (tv_index t !! e') as [q|] eqn:Eq; cbn [mbind option_bind].
      + destruct (Hshift e' q Hne Eq) as (q' & -> & Hd). exact Hd.
      + rewrite lookup_fmap, lookup_delete_ne, Eq by done. done. }
  split; [|done]. pose proof Hinv as [Hidx Hval _ _ Hgen]. constructor; try done.
  - intros e' q'. unfold names, t'. cbn [with_endpoints tv_endpoints tv_index].
    rewrite list_lookup_fmap. split.
    + rewrite lookup_fmap. destruct (decide (e' = e)) as [->|Hne]; [by rewrite lookup_delete_eq|].
      rewrite lookup_delete_ne by done. destruct (tv_index t !! e') as [q|] eqn:Eq; [|done].
      destruct (Hshift e' q Hne Eq) as (q2 & H2 & Hd).
      rewrite lookup_fmap, lookup_delete_ne, Eq in H2 by done. cbn in *. intros H. rewrite H2 in H.
      injection H as ->. rewrite Hd. apply Hidx in Eq. unfold names in Eq.
      by rewrite list_lookup_fmap in Eq.
    + intros H. destruct (delete p (tv_endpoints t) !! q') as [r|] eqn:Ed; [|done]. injection H as <-.
      assert (exists q, tv_endpoints t !! q = Some r /\ q <> p /\
        q' = (if Nat.ltb p q then (q - 1)%nat else q)) as (q & Hq & Hne & ->).
      { destruct (decide (q' < p)%nat).
        - exists q'. rewrite list_lookup_delete_lt in Ed by lia.
          rewrite (proj2 (Nat.ltb_ge _ _)) by lia. split_and!; [done|lia|done].
        - exists (S q'). rewrite list_lookup_delete_ge in Ed by lia.
          rewrite (proj2 (Nat.ltb_lt _ _)) by lia. split_and!; [done|lia|lia]. }
      assert (tv_index t !! er_endpoint r = Some q) as Hiq.
      { apply Hidx. unfold names. by rewrite list_lookup_fmap, Hq. }
      rewrite lookup_fmap, lookup_delete_ne, Hiq; [done|]. intros E. congruence.
  - apply Forall_delete. exact Hval.
Qed.
End inv.

Lemma set_dead_valid r : EndpointRegistration_validate (set_dead r) = EndpointRegistration_validate r.
Proof. done. Qed.

Lemma mark_inv t e p : topo_inv t -> tv_index t !! e = Some p ->
  let t' := with_endpoints t (alter set_dead p (tv_endpoints t)) (tv_links t) (tv_index t) in
  topo_inv t' /\ registry t' = alter set_dead e (registry t).
Proof.
  intros Hinv Hp t'. destruct (index_position t Hinv e p Hp) as (r & Hr & He & Hreg & Hv).
  assert (t' = with_endpoints t (<[p := set_dead r]> (tv_endpoints t)) (tv_links t) (tv_index t)) as ->.
  { unfold t'. f_equal. apply list_eq. intros q. destruct (decide (q = p)) as [->|Hne].
    - rewrite list_lookup_alter_eq, Hr, list_lookup_insert_eq; [done|by eapply lookup_lt_Some].
    - by rewrite list_lookup_alter_ne, list_lookup_insert_ne. }
  destruct (replace_inv t Hinv p (set_dead r)) as [H1 H2]; [by cbn; rewrite He|done|].
  split; [done|]. rewrite H2. cbn [set_dead er_endpoint]. rewrite He.
  apply map_eq. intros e'. destruct (decide (e' = e)) as [->|Hne].
  - by rewrite lookup_insert_eq, lookup_alter_eq, Hreg.
  - by rewrite lookup_insert_ne, lookup_alter_ne.
Qed.

Lemma advance_inv t t' r : topo_inv t -> topology_advance t = (t', r) ->
  topo_inv t' /\ registry t' = registry t /\ tv_links t' = tv_links t /\
  ((exists g, r = Ok g /\ tv_generation t' = tv_generation t + 1) \/
   (tv_generation t = u64_max /\ t' = t /\ exists e, r = Err e)).
Proof.
  intros Hinv H. unfold topology_advance in H.
  destruct (Generation_next (tv_generation t)) as [g|e] eqn:E.
  - injection H as <- <-. pose proof Hinv as [? ? ? ? Hg].
    apply Generation_next_Ok in E as [-> Hg2]; [|done].
    split_and!; try done. left. by eexists.
  - injection H as <- <-. split_and!; try done. right. split_and!; try done; [|by eexists].
    unfold Generation_next in E. destruct (Z.eqb_spec (tv_generation t) u64_max); done.
Qed.

Lemma filter_links_nodup (f : LinkDescriptor -> bool) ls :
  NoDup (link_pair <$> ls) -> NoDup (link_pair <$> List.filter f ls).
Proof.
  induction ls as [|l ls IH]; [done|]. cbn [fmap list_fmap List.filter].
  intros [Hn Hd]%list.NoDup_cons. destruct (f l); [|auto]. cbn [fmap list_fmap].
  apply list.NoDup_cons. split; [|auto]. intros (l' & Hl & Hin)%list_elem_of_fmap.
  apply Hn. apply list_elem_of_fmap. exists l'. split; [done|].
  rewrite list_elem_of_In in *. by apply filter_In in Hin as [? _].
Qed.

Lemma filter_links_distinct (f : LinkDescriptor -> bool) ls :
  Forall (fun l => li_from l <> li_to l) ls -> Forall (fun l => li_from l <> li_to l) (List.filter f ls).
Proof. induction 1; cbn [List.filter]; [done|]. destruct (f x); [by constructor|done]. Qed.

Lemma link_is_spec from to l : link_is from to l = true <-> link_pair l = (from, to).
Proof.
  unfold link_is, link_pair. rewrite andb_true_iff, !bytes_eqb_eq. split; [by intros [-> ->]|by intros [= -> ->]].
Qed.

(** The link table as a map from pairs of names. *)
Definition link_at (ls : list LinkDescriptor) (from to : bytes) : option LinkDescriptor :=
  find (link_is from to) ls.

Lemma replace_first_Some link ls ls' :
  replace_first (link_is (li_from link) (li_to link)) link ls = Some ls' ->
  link_pair <$> ls' = link_pair <$> ls /\
  (Forall (fun l => li_from l <> li_to l) ls -> li_from link <> li_to link ->
   Forall (fun l => li_from l <> li_to l) ls') /\
  forall from to, link_at ls' from to = if link_is from to link then Some link else link_at ls from to.
Proof.
  revert ls'. induction ls as [|y ls IH]; intros ls' H; cbn [replace_first] in H; [done|].
  destruct (link_is (li_from link) (li_to link) y) eqn:E.
  - injection H as <-. apply link_is_spec in E. split_and!.
    + cbn [fmap list_fmap]. by rewrite E.
    + intros [_ ?]%list.Forall_cons ?. by constructor.
    + intros from to. unfold link_at. cbn [find].
      destruct (link_is from to link) eqn:El; [done|]. destruct (link_is from to y) eqn:Ey; [|done].
      apply link_is_spec in Ey. rewrite E in Ey.
      assert (link_is from to link = true) by (by apply link_is_spec). congruence.
  - destruct (replace_first _ link ls) as [l2|] eqn:E2; [|done]. injection H as <-.
    destruct (IH l2 eq_refl) as (H1 & H2 & H3). split_and!.
    + cbn [fmap list_fmap]. by rewrite H1.
    + intros [? ?]%list.Forall_cons ?. constructor; auto.
    + intros from to. specialize (H3 from to). unfold link_at in *. cbn [find].
      destruct (link_is from to y) eqn:Ey; [|done].
      destruct (link_is from to link) eqn:El; [|done].
      apply link_is_spec in El, Ey. exfalso. rewrite <- El in Ey.
      assert (link_is (li_from link) (li_to link) y = true) by (by apply link_is_spec). congruence.
Qed.

Lemma replace_first_None link ls :
  replace_first (link_is (li_from link) (li_to link)) link ls = None ->
  (link_pair link ∉ (link_pair <$> ls)) /\ link_at ls (li_from link) (li_to link) = None.
Proof.
  induction ls as [|y ls IH]; cbn [replace_first]; intros H.
  { split; [|done]. by intros ?%not_elem_of_nil. }
  destruct (link_is _ _ y) eqn:E; [done|]. destruct (replace_first _ link ls); [done|].
  destruct IH as [H1 H2]; [done|]. split.
  - cbn [fmap list_fmap]. rewrite not_elem_of_cons. split; [|done]. intros Hp.
    assert (link_is (li_from link) (li_to link) y = true) by (by apply link_is_spec). congruence.
  - unfold link_at in *. cbn [find]. by rewrite E.
Qed.

Lemma find_app {A} (p : A -> bool) l k :
  find p (l ++ k) = match find p l with Some x => Some x | None => find p k end.
Proof. induction l as [|x l IH]; cbn [find app]; [done|]. by destruct (p x). Qed.

(** ** Abstract operations on the registry *)

Definition spec_put (m : gmap bytes EndpointRegistration) (r : EndpointRegistration) (max : Z)
  : option (gmap bytes EndpointRegistration) :=
  if negb (is_ok (EndpointRegistration_validate r)) then None
  else
  match m !! er_endpoint r with
  | Some old => if inc_epoch (er_incarnation r) <? inc_epoch (er_incarnation old) then None
                else Some (<[er_endpoint r := r]> m)
  | None => if max <=? Z.of_nat (size m) then None else Some (<[er_endpoint r := r]> m)
  end.

Definition spec_remove (m : gmap bytes EndpointRegistration) (e : bytes)
  : option (gmap bytes EndpointRegistration) :=
  match m !! e with Some _ => Some (delete e m) | None => None end.

(** One operation of the view. *)
Inductive topo_step (t : TopologyView) : TopologyView -> Prop :=
  | ts_put r max : topo_step t (topology_put t r max).1
  | ts_remove e : topo_step t (topology_remove t e).1
  | ts_dead e : topo_step t (topology_mark_dead t e).1
  | ts_link l max : topo_step t (topology_put_link t l max).1
  | ts_advance : topo_step t (topology_advance t).1
  | ts_reset : topo_step t (reset_dynamic_state t).

Lemma put_refines t r max : topo_inv t ->
  match topology_put t r max with
  | (t', Ok _) => topo_inv t' /\ spec_put (registry t) r max = Some (registry t') /\
                  tv_generation t' = tv_generation t /\ tv_links t' = tv_links t
  | (t', Err _) => t' = t /\ spec_put (registry t) r max = None
  end.
Proof.
  intros Hinv. unfold spec_put.
  destruct (put_cases t Hinv r max)
    as [[Hv [e ->]]|[(Hv & p & old & Hp & Hr & [[He [e ->]]|[He ->]])|(Hv & Hn & [[Hm [e ->]]|[Hm ->]])]].
  - destruct (EndpointRegistration_validate r) as [[]|]; done.
  - rewrite Hv. cbn [is_ok negb]. rewrite Hr, (proj2 (Z.ltb_lt _ _)) by lia. done.
  - rewrite Hv. cbn [is_ok negb]. rewrite Hr, (proj2 (Z.ltb_ge _ _)) by lia.
    destruct (replace_inv t Hinv p r Hp Hv) as [H1 H2]. by rewrite H2.
  - rewrite Hv. cbn [is_ok negb]. apply (registry_None t Hinv) in Hn as ->.
    rewrite (registry_size t Hinv), (proj2 (Z.leb_le _ _)) by done. done.
  - rewrite Hv. cbn [is_ok negb]. destruct (append_inv t Hinv r Hn Hv) as [H1 H2]. rewrite H2.
    apply (registry_None t Hinv) in Hn as ->.
    rewrite (registry_size t Hinv), (proj2 (Z.leb_gt _ _)) by done. done.
Qed.

Lemma remove_refines t e : topo_inv t ->
  match topology_remove t e with
  | (t', Ok _) => topo_inv t' /\ spec_remove (registry t) e = Some (registry t') /\
                  tv_generation t' = tv_generation t /\
                  tv_links t' = List.filter (fun l => negb (link_touches e l)) (tv_links t)
  | (t', Err _) => t' = t /\ spec_remove (registry t) e = None
  end.
Proof.
  intros Hinv. unfold topology_remove, spec_remove. destruct (tv_index t !! e) as [p|] eqn:Ep.
  - destruct (index_position t Hinv e p Ep) as (r & _ & _ & -> & _).
    destruct (delete_inv t Hinv e p Ep (List.filter (fun l => negb (link_touches e l)) (tv_links t)))
      as [H1 H2].
    + apply filter_links_nodup, Hinv.
    + apply filter_links_distinct, Hinv.
    + by rewrite H2.
  - by apply (registry_None t Hinv) in Ep as ->.
Qed.

Lemma mark_dead_refines t e : topo_inv t ->
  let '(t', r) := topology_mark_dead t e in
  topo_inv t' /\ registry t' = alter set_dead e (registry t) /\ tv_links t' = tv_links t /\
  (r = Ok tt -> registry t !! e <> None /\ tv_generation t' = tv_generation t + 1) /\
  (r <> Ok tt -> tv_generation t' = tv_generation t /\
                 (registry t !! e = None \/ tv_generation t = u64_max)).
Proof.
  intros Hinv. unfold topology_mark_dead. destruct (tv_index t !! e) as [p|] eqn:Ep.
  - destruct (mark_inv t e p Hinv Ep) as [H1 H2]. set (t1 := with_endpoints _ _ _ _) in *.
    destruct (topology_advance t1) as [t' r] eqn:E.
    destruct (advance_inv t1 t' r H1 E) as (H3 & H4 & H5 & H6).
    rewrite H4, H2, H5. split_and!; try done.
    + destruct H6 as [(g & -> & Hg)|(_ & _ & [x ->])]; [|done]. intros _. split; [|done].
      destruct (index_position t Hinv e p Ep) as (x & _ & _ & -> & _). done.
    + destruct H6 as [(g & -> & Hg)|(Hm & -> & _)]; [done|]. intros _. split; [done|]. by right.
  - apply (registry_None t Hinv) in Ep. split_and!; try done; [|by intros _; split; [|left]].
    apply map_eq. intros e'. destruct (decide (e' = e)) as [->|Hne].
    + by rewrite lookup_alter_eq, Ep.
    + by rewrite lookup_alter_ne.
Qed.

Lemma put_link_refines t l max : topo_inv t ->
  let '(t', r) := topology_put_link t l max in
  topo_inv t' /\ registry t' = registry t /\ tv_generation t' = tv_generation t /\
  (r = Ok tt -> forall from to, link_at (tv_links t') from to =
     if link_is from to l then Some l else link_at (tv_links t) from to) /\
  (r <> Ok tt -> t' = t).
Proof.
  intros Hinv. unfold topology_put_link. destruct (bytes_eqb (li_from l) (li_to l)) eqn:Ed; [done|]. b2p.
  destruct (replace_first _ l (tv_links t)) as [ls|] eqn:E.
  - apply replace_first_Some in E as (H1 & H2 & H3). split_and!; try done.
    pose proof Hinv as []. constructor; try done; cbn [with_endpoints tv_links]; [by rewrite H1|auto].
  - apply replace_first_None in E as [Hn Ha]. destruct (max <=? zlen (tv_links t)); [done|].
    split_and!; try done.
    + pose proof Hinv as []. constructor; try done; cbn [with_endpoints tv_links].
      * rewrite fmap_app. apply list.NoDup_app. split_and!; [done| |apply NoDup_singleton].
        intros x Hx. cbn. rewrite list_elem_of_singleton. congruence.
      * apply Forall_app. split; [done|by constructor].
    + intros _ from to. cbn [with_endpoints tv_links]. unfold link_at in *. rewrite find_app. cbn [find].
      destruct (link_is from to l) eqn:El.
      * apply link_is_spec in El. injection El as <- <-. by rewrite Ha.
      * by destruct (find (link_is from to) (tv_links t)).
Qed.

Lemma topo_step_inv t t' : topo_inv t -> topo_step t t' -> topo_inv t' /\ tv_generation t <= tv_generation t'.
Proof.
  intros Hinv [r max|e|e|l max| |].
  - pose proof (put_refines t r max Hinv) as H. destruct (topology_put t r max) as [t1 [u|x]]; cbn.
    + destruct H as (H1 & _ & -> & _). split; [done|lia].
    + destruct H as [-> _]. split; [done|lia].
  - pose proof (remove_refines t e Hinv) as H. destruct (topology_remove t e) as [t1 [u|x]]; cbn.
    + destruct H as (H1 & _ & -> & _). split; [done|lia].
    + destruct H as [-> _]. split; [done|lia].
  - pose proof (mark_dead_refines t e Hinv) as H. destruct (topology_mark_dead t e) as [t1 r]; cbn.
    destruct H as (H1 & _ & _ & H2 & H3). split; [done|]. destruct r as [[]|x].
    + destruct (H2 eq_refl) as [_ ->]. lia.
    + destruct H3 as [-> _]; [done|lia].
  - pose proof (put_link_refines t l max Hinv) as H. destruct (topology_put_link t l max) as [t1 r]; cbn.
    destruct H as (H1 & _ & -> & _). split; [done|lia].
  - destruct (topology_advance t) as [t1 r] eqn:E. destruct (advance_inv t t1 r Hinv E) as (H1 & _ & _ & H).
    cbn. split; [done|]. destruct H as [(g & _ & ->)|(_ & -> & _)]; lia.
  - unfold reset_dynamic_state.
    assert (topo_inv (with_endpoints t [] [] ∅)) as H0.
    { pose proof Hinv as []. constructor; cbn; [|constructor..|done].
      intros e p. unfold names. cbn. rewrite lookup_empty, lookup_nil. done. }
    destruct (topology_advance (with_endpoints t [] [] ∅)) as [t1 r] eqn:E.
    destruct (advance_inv _ t1 r H0 E) as (H1 & _ & _ & H). cbn in *. split; [done|].
    destruct H as [(g & _ & ->)|(_ & -> & _)]; cbn; lia.
Qed.

Inductive topo_run (t : TopologyView) : TopologyView -> Prop :=
  | tr_refl : topo_run t t
  | tr_step t1 t2 : topo_run t t1 -> topo_step t1 t2 -> topo_run t t2.

Lemma init_inv c g : in_u 64 g -> topo_inv (TopologyView_init c g).
Proof.
  intros Hg. constructor; cbn; [|constructor..|done].
  intros e p. unfold names. cbn. rewrite lookup_empty, lookup_nil. done.
Qed.

Lemma spec_put_epoch m r max m' e old : spec_put m r max = Some m' -> m !! e = Some old ->
  exists new, m' !! e = Some new /\ inc_epoch (er_incarnation old) <= inc_epoch (er_incarnation new).
Proof.
  unfold spec_put. intros H Hold. destruct (negb _); [done|].
  assert (m' = <[er_endpoint r := r]> m) as ->.
  { destruct (m !! er_endpoint r); split_ifs H; congruence. }
  destruct (decide (e = er_endpoint r)) as [->|Hne].
  - rewrite Hold in H. split_ifs H. b2p. exists r. rewrite lookup_insert_eq. done.
  - exists old. rewrite lookup_insert_ne by done. split; [done|lia].
Qed.

Lemma step_keeps_epoch t t' e old : topo_inv t -> topo_step t t' -> registry t !! e = Some old ->
  (exists new, registry t' !! e = Some new /\
     inc_epoch (er_incarnation old) <= inc_epoch (er_incarnation new)) \/
  t' = (topology_remove t e).1 \/ t' = reset_dynamic_state t.
Proof.
  intros Hinv Hs Hold. destruct Hs as [r max|e'|e'|l max| |].
  - left. pose proof (put_refines t r max Hinv) as H. destruct (topology_put t r max) as [t1 [u|x]]; cbn.
    + destruct H as (_ & H & _). eapply spec_put_epoch; eauto.
    + destruct H as [-> _]. exists old. split; [done|lia].
  - destruct (decide (e' = e)) as [->|Hne]; [by right; left|]. left.
    pose proof (remove_refines t e' Hinv) as H. destruct (topology_remove t e') as [t1 [u|x]]; cbn.
    + destruct H as (_ & H & _). unfold spec_remove in H. destruct (registry t !! e'); [|done].
      injection H as <-. exists old. rewrite lookup_delete_ne by done. split; [done|lia].
    + destruct H as [-> _]. exists old. split; [done|lia].
  - left. pose proof (mark_dead_refines t e' Hinv) as H. destruct (topology_mark_dead t e') as [t1 r]; cbn.
    destruct H as (_ & -> & _). destruct (decide (e = e')) as [->|Hne].
    + rewrite lookup_alter_eq, Hold. cbn. eexists. split; [done|]. cbn. lia.
    + rewrite lookup_alter_ne by done. exists old. split; [done|lia].
  - left. pose proof (put_link_refines t l max Hinv) as H. destruct (topology_put_link t l max) as [t1 r]; cbn.
    destruct H as (_ & -> & _). exists old. split; [done|lia].
  - left. destruct (topology_advance t) as [t1 r] eqn:E. destruct (advance_inv t t1 r Hinv E) as (_ & Hr & _).
    cbn. rewrite Hr. exists old. split; [done|lia].
  - by right; right.
Qed.

Lemma topo_run_inv t t' : topo_inv t -> topo_run t t' -> topo_inv t' /\ tv_generation t <= tv_generation t'.
Proof.
  intros Hinv Hr. induction Hr as [|t1 t2 Hr [IH1 IH2] Hs]; [split; [done|lia]|].
  destruct (topo_step_inv t1 t2 IH1 Hs) as [H1 H2]. split; [done|lia].
Qed.

(** ** Properties *)

(** C34: (refinement) The vector with its position index is a finite map from
    endpoint names to registrations: [put] is insertion, refused for an invalid
    registration, for an epoch older than the recorded one and for a new
    endpoint beyond the bound; [remove] is deletion, and drops the links of the
    endpoint; [mark_dead] clears the live flag and advances the generation;
    [find] is lookup; a refused operation changes nothing; and the invariant
    that ties vector and index is kept. *)
Theorem topology_refines_registry (t : TopologyView) (r : EndpointRegistration) (e : bytes) (max : Z) :
  topo_inv t ->
  match topology_put t r max with
  | (t', Ok _) => topo_inv t' /\ spec_put (registry t) r max = Some (registry t') /\
                  tv_generation t' = tv_generation t /\ tv_links t' = tv_links t
  | (t', Err _) => t' = t /\ spec_put (registry t) r max = None
  end /\
  match topology_remove t e with
  | (t', Ok _) => topo_inv t' /\ spec_remove (registry t) e = Some (registry t') /\
                  tv_generation t' = tv_generation t /\
                  tv_links t' = List.filter (fun l => negb (link_touches e l)) (tv_links t)
  | (t', Err _) => t' = t /\ spec_remove (registry t) e = None
  end /\
  (let '(t', st) := topology_mark_dead t e in
   topo_inv t' /\ registry t' = alter set_dead e (registry t) /\ tv_links t' = tv_links t /\
   (st = Ok tt -> registry t !! e <> None /\ tv_generation t' = tv_generation t + 1) /\
   (st <> Ok tt -> tv_generation t' = tv_generation t /\
                   (registry t !! e = None \/ tv_generation t = u64_max))) /\
  topology_find t e = match registry t !! e with
                      | Some x => Ok x
                      | None => fail RC.ENDPOINT_NOT_FOUND "endpoint is not registered"
                      end.
Proof.
  intros Hinv. split_and!.
  - by apply put_refines.
  - by apply remove_refines.
  - by apply mark_dead_refines.
  - by apply find_registry.
Qed.

(** (invariant) In every view reached from an empty one, names and positions
    agree, every registration is valid, at most one link is recorded per pair
    and none from an endpoint to itself; the topology generation never
    decreases; and a step loses an endpoint, or lowers its recorded epoch, only
    by removing that endpoint or resetting the view. *)
Theorem topology_reachable_invariant (c : Incarnation) (g : Z) (t t' : TopologyView) :
  in_u 64 g -> topo_run (TopologyView_init c g) t -> topo_step t t' ->
  topo_inv t' /\ g <= tv_generation t <= tv_generation t' /\
  (forall e old, registry t !! e = Some old ->
     (exists new, registry t' !! e = Some new /\
        inc_epoch (er_incarnation old) <= inc_epoch (er_incarnation new)) \/
     t' = (topology_remove t e).1 \/ t' = reset_dynamic_state t).
Proof.
  intros Hg Hr Hs. destruct (topo_run_inv _ t (init_inv c g Hg) Hr) as [Hinv Hge]. cbn in Hge.
  destruct (topo_step_inv t t' Hinv Hs) as [H1 H2]. split; [done|]. split; [lia|].
  intros e old. by apply step_keeps_epoch.
Qed.

Definition demo_registration (epoch : Z) : EndpointRegistration :=
  mkRegistration (lit "edge") (mkIncarnation (lit "edge") (replicate 16 x07) epoch)
    (mkAddress (lit "127.0.0.1") 7000) (mkAddress (lit "127.0.0.1") 7001) kPeerContract
    (replicate 32 x09) 1 true.
Definition demo_topology : TopologyView :=
  (topology_put (TopologyView_init no_incarnation 1) (demo_registration 3) 8).1.

Lemma demo_topology_inv : topo_inv demo_topology.
Proof.
  apply (topo_step_inv (TopologyView_init no_incarnation 1)); [by apply init_inv|apply ts_put].
Qed.

Lemma topology_refines_registry_witness :
  topology_find demo_topology (lit "edge") = Ok (demo_registration 3).
Proof.
  destruct (topology_refines_registry demo_topology (demo_registration 2) (lit "edge") 8 demo_topology_inv)
    as (_ & _ & _ & ->). vm_compute. reflexivity.
Defined.

Lemma topology_reachable_invariant_witness :
  topo_inv (topology_put demo_topology (demo_registration 4) 8).1.
Proof.
  apply (topology_reachable_invariant no_incarnation 1 demo_topology).
  - vm_compute. split; congruence.
  - eapply tr_step; [apply tr_refl|]. apply ts_put.
  - apply ts_put.
Defined.
