(* ===== verification/Compatibility.v ===== *)
(** * Compatibility evidence (src/src/compatibility.cpp, include/smf/compatibility.hpp)

    Published evidence about an object version at a destination.  The
    coordinator asks a [CompatibilityProvider]; [CompatibilityRegistry] is the
    program's implementation, and what it promises (a verdict is only ever one
    that was published for that version and destination, never inferred) is
    stated as the class [HonestProvider] and proved for it. *)
From S2P Require Import Prelude Status Bytes Digest Codec Ids StateObject.

Module CV.
Inductive CompatibilityVerdict : Set := UNKNOWN | SUPPORTED | UNSUPPORTED.
End CV.
Abbreviation CompatibilityVerdict := CV.CompatibilityVerdict.

#[global] Instance CompatibilityVerdict_eq_dec : EqDecision CompatibilityVerdict.
Proof. solve_decision. Defined.

Definition verdict_value (v : CompatibilityVerdict) : Z :=
  match v with CV.UNKNOWN => 0 | CV.SUPPORTED => 1 | CV.UNSUPPORTED => 2 end.

Definition verdict_to_string (v : CompatibilityVerdict) : bytes :=
  match v with
  | CV.UNKNOWN => lit "UNKNOWN"
  | CV.SUPPORTED => lit "SUPPORTED"
  | CV.UNSUPPORTED => lit "UNSUPPORTED"
  end.

Definition verdict_from_string (text : bytes) : option CompatibilityVerdict :=
  if bytes_eqb text (lit "UNKNOWN") then Some CV.UNKNOWN
  else if bytes_eqb text (lit "SUPPORTED") then Some CV.SUPPORTED
  else if bytes_eqb text (lit "UNSUPPORTED") then Some CV.UNSUPPORTED
  else None.

(** [attributes] is the [std::map] as the sequence its iteration visits. *)
Record CompatibilityEvidence := mkEvidence {
  ev_generation : Z;
  ev_object_id : bytes;
  ev_state_generation : Z;
  ev_content_digest : Digest;
  ev_destination : bytes;
  ev_verdict : CompatibilityVerdict;
  ev_contract : bytes;
  ev_attributes : list (bytes * bytes);
  ev_observed_unix_millis : Z;
  ev_evidence_digest : Digest }.

(** The loop over the attributes, up to its first refusal. *)
Fixpoint check_attributes (attributes : list (bytes * bytes)) : Result unit :=
  match attributes with
  | [] => Ok tt
  | (key, value) :: rest =>
    if bytes_eqb key [] || (kMaxTextBytes <? zlen key) || negb (is_valid_utf8 key)
    then fail RC.INVALID_ARGUMENT "compatibility attribute key is not usable"
    else if (kMaxTextBytes <? zlen value) || negb (is_valid_utf8 value)
    then fail RC.INVALID_ARGUMENT "compatibility attribute value is not usable"
    else check_attributes rest
  end.

Definition CompatibilityEvidence_validate (e : CompatibilityEvidence) : Result unit :=
  if negb (is_set (ev_generation e))
  then fail RC.INVALID_GENERATION "compatibility generation must be non-zero"
  else if array_is_zero (ev_object_id e)
  then fail RC.INVALID_ID "compatibility evidence must name a state object"
  else if negb (is_set (ev_state_generation e))
  then fail RC.INVALID_GENERATION "compatibility evidence must name a generation"
  else if array_is_zero (ev_content_digest e)
  then fail RC.INVALID_DIGEST "compatibility evidence must bind a content digest"
  else if bytes_eqb (ev_destination e) []
  then fail RC.INVALID_ID "compatibility evidence must name a destination"
  else if bytes_eqb (ev_contract e) []
  then fail RC.INVALID_ARGUMENT "compatibility evidence must name a contract"
  else if (kMaxTextBytes <? zlen (ev_contract e)) || negb (is_valid_utf8 (ev_contract e))
  then fail RC.INVALID_ARGUMENT "compatibility contract string is not usable"
  else if kMaxEvidenceAttributes <? zlen (ev_attributes e)
  then fail RC.INVALID_ARGUMENT "compatibility evidence carries too many attributes"
  else
  check_attributes (ev_attributes e) ;!
  if ev_observed_unix_millis e <=? 0
  then fail RC.INVALID_ARGUMENT "compatibility evidence needs an observation time"
  else Ok tt.

Definition applies_to (e : CompatibilityEvidence) (d : StateObjectDescriptor) (destination : bytes) : bool :=
  bytes_eqb (ev_object_id e) (d_object_id d) && (ev_state_generation e =? d_generation d) &&
  bytes_eqb (ev_content_digest e) (d_content_digest d) && bytes_eqb (ev_destination e) destination.

(** [Key]: object id, state generation, destination. *)
Definition EvidenceKey : Type := bytes * Z * bytes.

Record CompatibilityRegistry := mkRegistry {
  cr_evidence : gmap EvidenceKey CompatibilityEvidence;
  cr_generation : Z }.

Definition CompatibilityRegistry_init : CompatibilityRegistry := mkRegistry ∅ 1.

(** The encoding [publish] hashes. *)
Definition evidence_preimage (e : CompatibilityEvidence) : bytes :=
  enc_text (lit "SMF-COMPATIBILITY-EVIDENCE-v1") ++ enc_digest (ev_object_id e) ++
  enc_u64 (ev_state_generation e) ++ enc_digest (ev_content_digest e) ++
  enc_text (ev_destination e) ++ enc_u8 (verdict_value (ev_verdict e)) ++ enc_text (ev_contract e) ++
  enc_u32 (wrap 32 (zlen (ev_attributes e))) ++
  concat (map (fun a => enc_text a.1 ++ enc_text a.2) (ev_attributes e)).

(** The evidence after the registry filled in digest, time and generation. *)
Definition stamped (e : CompatibilityEvidence) (generation now : Z) : CompatibilityEvidence :=
  mkEvidence generation (ev_object_id e) (ev_state_generation e) (ev_content_digest e)
    (ev_destination e) (ev_verdict e) (ev_contract e) (ev_attributes e)
    (if ev_observed_unix_millis e <=? 0 then now else ev_observed_unix_millis e)
    (canonical_digest (evidence_preimage e)).

(** [generation_.next()], kept when the space is exhausted. *)
Definition next_or_same (g : Z) : Z := match Generation_next g with Ok g' => g' | Err _ => g end.

Definition evidence_key (e : CompatibilityEvidence) : EvidenceKey :=
  (ev_object_id e, ev_state_generation e, ev_destination e).

Definition compatibility_publish (c : CompatibilityRegistry) (e : CompatibilityEvidence) (now : Z)
  : CompatibilityRegistry * Result unit :=
  let e := stamped e (cr_generation c) now in
  match CompatibilityEvidence_validate e with
  | Err s => (c, Err s)
  | Ok _ => (mkRegistry (<[evidence_key e := e]> (cr_evidence c)) (next_or_same (cr_generation c)), Ok tt)
  end.

Definition compatibility_withdraw (c : CompatibilityRegistry) (object_id : bytes) (generation : Z)
    (destination : bytes) : CompatibilityRegistry * Result unit :=
  match cr_evidence c !! ((object_id, generation, destination) : EvidenceKey) with
  | None => (c, fail RC.NOT_FOUND "no compatibility evidence is recorded for that subject")
  | Some _ => (mkRegistry (delete ((object_id, generation, destination) : EvidenceKey) (cr_evidence c))
                 (next_or_same (cr_generation c)), Ok tt)
  end.

Definition compatibility_query (c : CompatibilityRegistry) (d : StateObjectDescriptor) (destination : bytes)
  : Result CompatibilityEvidence :=
  match cr_evidence c !! ((d_object_id d, d_generation d, destination) : EvidenceKey) with
  | None => fail RC.NO_EVIDENCE
      "no compatibility evidence has been published for this object version at this destination; the verdict is unknown, not positive"
  | Some e => Ok e
  end.

Definition compatibility_size (c : CompatibilityRegistry) : Z := Z.of_nat (size (cr_evidence c)).

(** The interface the coordinator uses. *)
Class CompatibilityProvider (P : Type) := {
  provider_query : P -> StateObjectDescriptor -> bytes -> Result CompatibilityEvidence;
  provider_generation : P -> Z }.

#[global] Instance registry_provider : CompatibilityProvider CompatibilityRegistry := {
  provider_query := compatibility_query;
  provider_generation := cr_generation }.

(** What it must promise: evidence it returns is complete and is about the
    version and the destination that were asked for. *)
Class HonestProvider (P : Type) `{!CompatibilityProvider P} (good : P -> Prop) : Prop :=
  provider_honest : forall p d destination e, good p -> provider_query p d destination = Ok e ->
    ev_object_id e = d_object_id d /\ ev_state_generation e = d_generation d /\
    ev_destination e = destination /\ CompatibilityEvidence_validate e = Ok tt.

(** ** Invariant *)

Record registry_inv (c : CompatibilityRegistry) : Prop := {
  ri_entries : forall k e, cr_evidence c !! k = Some e ->
    evidence_key e = k /\ CompatibilityEvidence_validate e = Ok tt /\
    ev_generation e <= cr_generation c /\
    ev_evidence_digest e = canonical_digest (evidence_preimage e);
  ri_generation : in_u 64 (cr_generation c) }.

Lemma next_or_same_spec g : in_u 64 g -> in_u 64 (next_or_same g) /\
  next_or_same g = if g =? u64_max then g else g + 1.
Proof.
  intros Hg. unfold next_or_same. destruct (Generation_next g) as [g'|e] eqn:E.
  - pose proof E as E2. apply Generation_next_Ok in E2 as [-> H]; [|done]. split; [done|].
    unfold Generation_next in E. by destruct (g =? u64_max).
  - split; [done|]. unfold Generation_next in E. by destruct (g =? u64_max).
Qed.

Lemma publish_cases c e now : registry_inv c ->
  let '(c', r) := compatibility_publish c e now in
  registry_inv c' /\
  (r = Ok tt -> cr_evidence c' = <[evidence_key e := stamped e (cr_generation c) now]> (cr_evidence c) /\
                cr_generation c' = next_or_same (cr_generation c)) /\
  (r <> Ok tt -> c' = c) /\
  (r = Ok tt <-> CompatibilityEvidence_validate (stamped e (cr_generation c) now) = Ok tt).
Proof.
  intros [He Hg]. unfold compatibility_publish. set (s := stamped e (cr_generation c) now).
  destruct (CompatibilityEvidence_validate s) as [[]|err] eqn:Ev; [|by split_and!].
  destruct (next_or_same_spec _ Hg) as [Hn Hv]. split_and!; try done.
  constructor; [|done]. cbn [cr_evidence cr_generation]. intros k x.
  assert (cr_generation c <= next_or_same (cr_generation c)) as Hge.
  { rewrite Hv. destruct (_ =? _); lia. }
  destruct (decide (k = evidence_key s)) as [->|Hne].
  - rewrite lookup_insert_eq. intros [= <-]. split_and!; done.
  - rewrite lookup_insert_ne by done. intros Hx. destruct (He k x Hx) as (H1 & H2 & H3 & H4).
    split_and!; try done. lia.
Qed.

Lemma withdraw_cases c o g d : registry_inv c ->
  let '(c', r) := compatibility_withdraw c o g d in
  registry_inv c' /\
  (r = Ok tt -> cr_evidence c' = delete ((o, g, d) : EvidenceKey) (cr_evidence c) /\
                cr_generation c' = next_or_same (cr_generation c)) /\
  (r <> Ok tt -> c' = c) /\ (r = Ok tt <-> cr_evidence c !! ((o, g, d) : EvidenceKey) <> None).
Proof.
  intros [He Hg]. unfold compatibility_withdraw.
  destruct (cr_evidence c !! ((o, g, d) : EvidenceKey)) eqn:E; [|by split_and!; try done].
  destruct (next_or_same_spec _ Hg) as [Hn Hv]. split_and!; try done.
  constructor; [|done]. cbn [cr_evidence cr_generation]. intros k x.
  assert (cr_generation c <= next_or_same (cr_generation c)) as Hge.
  { rewrite Hv. destruct (_ =? _); lia. }
  destruct (decide (k = ((o, g, d) : EvidenceKey))) as [->|Hne]; [by rewrite lookup_delete_eq|].
  rewrite lookup_delete_ne by done. intros Hx. destruct (He k x Hx) as (H1 & H2 & H3 & H4).
  split_and!; try done. lia.
Qed.

Lemma init_registry_inv : registry_inv CompatibilityRegistry_init.
Proof. constructor; [|done]. intros k e. cbn. by rewrite lookup_empty. Qed.

#[global] Instance registry_honest : HonestProvider CompatibilityRegistry registry_inv.
Proof.
  intros c d dest e [He _] H. cbn in H. unfold compatibility_query in H.
  destruct (cr_evidence c !! _) as [x|] eqn:E; [|done]. injection H as <-.
  apply He in E as (Hk & Hv & _). unfold evidence_key in Hk. by injection Hk as -> -> ->.
Qed.

(** One operation of the registry. *)
Inductive registry_step (c : CompatibilityRegistry) : CompatibilityRegistry -> Prop :=
  | rg_publish e now : registry_step c (compatibility_publish c e now).1
  | rg_withdraw o g d : registry_step c (compatibility_withdraw c o g d).1.

Inductive registry_reachable : CompatibilityRegistry -> Prop :=
  | rg_init : registry_reachable CompatibilityRegistry_init
  | rg_step c c' : registry_reachable c -> registry_step c c' -> registry_reachable c'.

Lemma registry_reachable_inv c : registry_reachable c -> registry_inv c.
Proof.
  induction 1 as [|c c' _ IH [e now|o g d]]; [apply init_registry_inv| |].
  - pose proof (publish_cases c e now IH) as H. destruct (compatibility_publish c e now). apply H.
  - pose proof (withdraw_cases c o g d IH) as H. destruct (compatibility_withdraw c o g d). apply H.
Qed.

(** ** Properties *)

(** (safety) The registry answers only with evidence that was published and
    is complete: in every reachable registry the answer to a query names the
    object, generation and destination asked for and carries the digest of its
    own fields; publishing makes it the answer for its subject and for no other;
    withdrawing returns the subject to NO_EVIDENCE; a refused operation changes
    nothing; and each successful change advances the compatibility generation
    (until the 64-bit space is exhausted). *)
Theorem compatibility_answers_published_evidence (c : CompatibilityRegistry) (e : CompatibilityEvidence)
    (now : Z) (d : StateObjectDescriptor) (destination : bytes) : registry_reachable c ->
  (forall x, compatibility_query c d destination = Ok x ->
     ev_object_id x = d_object_id d /\ ev_state_generation x = d_generation d /\
     ev_destination x = destination /\ CompatibilityEvidence_validate x = Ok tt /\
     ev_evidence_digest x = canonical_digest (evidence_preimage x)) /\
  (let '(c', r) := compatibility_publish c e now in
   (r = Ok tt ->
      compatibility_query c' d destination =
        (if decide (evidence_key e = (d_object_id d, d_generation d, destination))
         then Ok (stamped e (cr_generation c) now) else compatibility_query c d destination) /\
      (cr_generation c < u64_max -> cr_generation c' = cr_generation c + 1)) /\
   (r <> Ok tt -> c' = c)) /\
  (let '(c', r) := compatibility_withdraw c (d_object_id d) (d_generation d) destination in
   (exists s, compatibility_query c' d destination = Err s /\ st_code s = RC.NO_EVIDENCE) /\
   (r <> Ok tt -> c' = c)).
Proof.
  intros Hr. pose proof (registry_reachable_inv c Hr) as Hinv. split_and!.
  - intros x Hx. destruct (registry_honest c d destination x Hinv Hx) as (-> & -> & -> & Hv).
    split_and!; try done. unfold compatibility_query in Hx. destruct (cr_evidence c !! _) eqn:E; [|done].
    injection Hx as <-. by apply (ri_entries c Hinv) in E as (_ & _ & _ & ?).
  - pose proof (publish_cases c e now Hinv) as H. destruct (compatibility_publish c e now) as [c' r].
    destruct H as (_ & H1 & H2 & _). split; [|done]. intros Hok. destruct (H1 Hok) as [Hm Hg]. split.
    + unfold compatibility_query. rewrite Hm. destruct (decide _) as [<-|Hne].
      * by rewrite lookup_insert_eq.
      * by rewrite lookup_insert_ne.
    + intros Hlt. rewrite Hg. destruct (next_or_same_spec _ (ri_generation c Hinv)) as [_ ->].
      destruct (Z.eqb_spec (cr_generation c) u64_max); lia.
  - pose proof (withdraw_cases c (d_object_id d) (d_generation d) destination Hinv) as H.
    destruct (compatibility_withdraw c _ _ _) as [c' r]. destruct H as (_ & H1 & H2 & H3).
    split; [|done]. unfold compatibility_query. destruct r as [[]|x].
    + destruct (H1 eq_refl) as [-> _]. rewrite lookup_delete_eq. by eexists.
    + rewrite (H2 ltac:(done)). destruct (cr_evidence c !! _) eqn:E; [|by eexists].
      assert (Err x = Ok tt) by (by apply H3). done.
Qed.

Definition demo_evidence : CompatibilityEvidence :=
  mkEvidence 0 (d_object_id demo_descriptor) (d_generation demo_descriptor)
    (d_content_digest demo_descriptor) (lit "edge") CV.SUPPORTED kPeerContract [(lit "k", lit "v")] 0 [].

Lemma compatibility_answers_published_evidence_witness :
  is_ok (compatibility_query (compatibility_publish CompatibilityRegistry_init demo_evidence 5).1
           demo_descriptor (lit "edge")) = true.
Proof.
  destruct (compatibility_answers_published_evidence CompatibilityRegistry_init demo_evidence 5
    demo_descriptor (lit "edge") rg_init) as (_ & Hp & _).
  assert ((compatibility_publish CompatibilityRegistry_init demo_evidence 5).2 = Ok tt) as Hok
    by (vm_compute; reflexivity).
  destruct (compatibility_publish CompatibilityRegistry_init demo_evidence 5) as [c' r]. cbn [fst snd] in *.
  destruct Hp as [Hp _]. destruct (Hp Hok) as [-> _].
  destruct (decide (evidence_key demo_evidence = _)) as [_|Hne]; [reflexivity|].
  destruct Hne. reflexivity.
Defined.
