(* ===== verification/CommitMarker.v ===== *)
(** * Durable placement records (src/src/object_store.cpp, CommitMarker and
    StagingJournal; include/smf/object_store.hpp)

    The commit marker, whose presence makes placed bytes authoritative, and the
    journal of a partially received object, with their validation, sealing and
    canonical encodings. *)
From S2P Require Import Prelude Status Bytes Digest Codec Ids StateObject.

Record CommitMarker := mkMarker {
  cm_movement_id : bytes;
  cm_movement_generation : Z;
  cm_object : StateObjectDescriptor;
  cm_source : bytes;
  cm_destination : bytes;
  cm_destination_incarnation : Incarnation;
  cm_content_digest : Digest;
  cm_stored_bytes : Z;
  cm_stored_chunks : Z;
  cm_committed_unix_millis : Z;
  cm_marker_digest : Digest }.

#[global] Instance CommitMarker_eq_dec : EqDecision CommitMarker.
Proof. solve_decision. Defined.

Definition CommitMarker_validate (m : CommitMarker) : Result unit :=
  if array_is_zero (cm_movement_id m)
  then fail RC.COMMIT_MARKER_INVALID "commit marker requires a movement id"
  else if negb (is_set (cm_movement_generation m))
  then fail RC.COMMIT_MARKER_INVALID "commit marker requires a movement generation"
  else
  StateObjectDescriptor_validate (cm_object m) ;!
  if bytes_eqb (cm_source m) [] || bytes_eqb (cm_destination m) []
  then fail RC.COMMIT_MARKER_INVALID "commit marker must name both endpoints"
  else if bytes_eqb (cm_source m) (cm_destination m)
  then fail RC.SELF_MOVEMENT "commit marker names the same endpoint twice"
  else if negb (Incarnation_is_set (cm_destination_incarnation m))
  then fail RC.STALE_INCARNATION "commit marker requires a destination incarnation"
  else if negb (bytes_eqb (inc_endpoint (cm_destination_incarnation m)) (cm_destination m))
  then fail RC.STALE_INCARNATION "commit marker destination incarnation names a different endpoint"
  else if array_is_zero (cm_content_digest m)
  then fail RC.COMMIT_MARKER_INVALID "commit marker requires a content digest"
  else if negb (bytes_eqb (cm_content_digest m) (d_content_digest (cm_object m)))
  then fail RC.COMMIT_MARKER_INVALID "commit marker content digest does not match the object descriptor"
  else if negb (cm_stored_bytes m =? d_total_bytes (cm_object m))
  then fail RC.COMMIT_MARKER_INVALID "commit marker byte count does not match the object descriptor"
  else if negb (cm_stored_chunks m =? d_chunk_count (cm_object m))
  then fail RC.COMMIT_MARKER_INVALID "commit marker chunk count does not match the object descriptor"
  else if cm_committed_unix_millis m <=? 0
  then fail RC.COMMIT_MARKER_INVALID "commit marker requires a timestamp"
  else if array_is_zero (cm_marker_digest m)
  then fail RC.COMMIT_MARKER_INVALID "commit marker is not sealed"
  else Ok tt.

(** The fields [compute_digest] covers, in order; [encode] writes the same and
    then the digest. *)
Definition marker_body (m : CommitMarker) : bytes :=
  FixedId_encode (cm_movement_id m) ++ enc_u64 (cm_movement_generation m) ++
  StateObjectDescriptor_encode (cm_object m) ++ enc_text (cm_source m) ++ enc_text (cm_destination m) ++
  enc_text (inc_endpoint (cm_destination_incarnation m)) ++
  FixedId_encode (inc_boot (cm_destination_incarnation m)) ++
  enc_u64 (inc_epoch (cm_destination_incarnation m)) ++ enc_digest (cm_content_digest m) ++
  enc_u64 (cm_stored_bytes m) ++ enc_u32 (cm_stored_chunks m) ++ enc_i64 (cm_committed_unix_millis m).

Definition kMarkerDomain : bytes := lit "SMF-COMMIT-MARKER-v1".

Definition compute_digest (m : CommitMarker) : Digest :=
  canonical_digest (enc_text kMarkerDomain ++ marker_body m).

Definition with_marker_digest (m : CommitMarker) (d : Digest) : CommitMarker :=
  mkMarker (cm_movement_id m) (cm_movement_generation m) (cm_object m) (cm_source m) (cm_destination m)
    (cm_destination_incarnation m) (cm_content_digest m) (cm_stored_bytes m) (cm_stored_chunks m)
    (cm_committed_unix_millis m) d.

Definition seal (m : CommitMarker) : CommitMarker := with_marker_digest m (compute_digest m).

Definition CommitMarker_encode (m : CommitMarker) : bytes :=
  marker_body m ++ enc_digest (cm_marker_digest m).

Definition CommitMarker_decode : Dec CommitMarker :=
  let? movement := FixedId_decode kMovementIdBytes in
  let? generation := dec_u64 in
  let? object := StateObjectDescriptor_decode in
  let? source := dec_endpoint in
  let? destination := dec_endpoint in
  let? destination_endpoint := dec_text kMaxEndpointIdBytes in
  let? boot := FixedId_decode kBootIdBytes in
  let? epoch := dec_u64 in
  let? parsed_endpoint := dlift (EndpointId_parse destination_endpoint) in
  let? incarnation := dlift (Incarnation_make parsed_endpoint boot epoch) in
  let? content := dec_digest in
  let? nbytes := dec_u64 in
  let? chunks := dec_u32 in
  let? committed := dec_i64 in
  let? digest := dec_digest in
  let marker := mkMarker movement generation object source destination incarnation content nbytes
                  chunks committed digest in
  dlift (CommitMarker_validate marker) ;?
  dret marker.

(** ** Staging journal *)

Record StagingJournal := mkJournal {
  sj_movement_id : bytes;
  sj_movement_generation : Z;
  sj_attempt : bytes;
  sj_object : StateObjectDescriptor;
  sj_verified_chunks : Z;
  sj_verified_bytes : Z;
  sj_chunk_digests : list Digest }.

Definition kMaxResumeJournalChunks : Z := 65536.

Definition StagingJournal_validate (j : StagingJournal) : Result unit :=
  if array_is_zero (sj_movement_id j)
  then fail RC.STORE_RECORD_INVALID "staging journal requires a movement id"
  else if negb (is_set (sj_movement_generation j))
  then fail RC.STORE_RECORD_INVALID "staging journal requires a generation"
  else
  StateObjectDescriptor_validate (sj_object j) ;!
  if d_chunk_count (sj_object j) <? sj_verified_chunks j
  then fail RC.STORE_RECORD_INVALID "staging journal claims more chunks than exist"
  else if negb (zlen (sj_chunk_digests j) =? sj_verified_chunks j)
  then fail RC.STORE_RECORD_INVALID
    "staging journal chunk digest count does not match the verified prefix"
  else
  let! expected_bytes := prefix_bytes_loop "staging journal byte accounting overflowed" (sj_object j)
                           (Z.to_nat (sj_verified_chunks j)) 0 0 in
  if negb (expected_bytes =? sj_verified_bytes j)
  then fail RC.STORE_RECORD_INVALID
    "staging journal byte count is inconsistent with its verified prefix"
  else Ok tt.

Definition StagingJournal_encode (j : StagingJournal) : bytes :=
  FixedId_encode (sj_movement_id j) ++ enc_u64 (sj_movement_generation j) ++
  FixedId_encode (sj_attempt j) ++ StateObjectDescriptor_encode (sj_object j) ++
  enc_u32 (sj_verified_chunks j) ++ enc_u64 (sj_verified_bytes j) ++
  enc_u32 (wrap 32 (zlen (sj_chunk_digests j))) ++ enc_seq enc_digest (sj_chunk_digests j).

Definition StagingJournal_decode : Dec StagingJournal :=
  let? movement := FixedId_decode kMovementIdBytes in
  let? generation := dec_u64 in
  let? attempt := FixedId_decode kTransferAttemptIdBytes in
  let? object := StateObjectDescriptor_decode in
  let? chunks := dec_u32 in
  let? nbytes := dec_u64 in
  let? count := dec_count kMaxResumeJournalChunks in
  let? digests := dec_repeat dec_digest (Z.to_nat count) in
  let journal := mkJournal movement generation attempt object chunks nbytes digests in
  dlift (StagingJournal_validate journal) ;?
  dret journal.

(** ** What validation accepts *)

Record valid_marker (m : CommitMarker) : Prop := {
  vk_id : array_is_zero (cm_movement_id m) = false;
  vk_gen : cm_movement_generation m <> 0;
  vk_obj : valid_descriptor (cm_object m);
  vk_ends : cm_source m <> [] /\ cm_destination m <> [];
  vk_self : cm_source m <> cm_destination m;
  vk_inc : Incarnation_is_set (cm_destination_incarnation m) = true;
  vk_name : inc_endpoint (cm_destination_incarnation m) = cm_destination m;
  vk_content_nz : array_is_zero (cm_content_digest m) = false;
  vk_content : cm_content_digest m = d_content_digest (cm_object m);
  vk_bytes : cm_stored_bytes m = d_total_bytes (cm_object m);
  vk_chunks : cm_stored_chunks m = d_chunk_count (cm_object m);
  vk_time : 0 < cm_committed_unix_millis m;
  vk_sealed : array_is_zero (cm_marker_digest m) = false }.

Lemma marker_validate_spec m : CommitMarker_validate m = Ok tt <-> valid_marker m.
Proof.
  unfold CommitMarker_validate, is_set. rewrite !reject_Ok by discriminate.
  rewrite rbind_Ok. split.
  - intros (? & ? & u & Ho & H). apply validate_unit in Ho.
    rewrite !reject_Ok in H by discriminate. destruct H as (?&?&?&?&?&?&?&?&?&?&_). b2p.
    constructor; try done.
  - intros []. rewrite vk_id0, (proj2 (Z.eqb_neq _ _) vk_gen0). split_and!; [done..|].
    exists tt. split; [by apply validate_spec|]. rewrite !reject_Ok by discriminate.
    destruct vk_ends0 as [H1 H2].
    rewrite (proj2 (bytes_eqb_neq _ _) H1), (proj2 (bytes_eqb_neq _ _) H2),
      (proj2 (bytes_eqb_neq _ _) vk_self0), vk_inc0, vk_name0, vk_content_nz0, vk_content0, vk_bytes0,
      vk_chunks0, vk_sealed0, !bytes_eqb_refl, !Z.eqb_refl, (proj2 (Z.leb_gt _ _) vk_time0). done.
Qed.

Record marker_range (m : CommitMarker) : Prop := {
  kr_id : id_wf 16 (cm_movement_id m);
  kr_gen : in_u 64 (cm_movement_generation m);
  kr_obj : descriptor_range (cm_object m);
  kr_src : EndpointId_is_valid (cm_source m) = true;
  kr_dst : EndpointId_is_valid (cm_destination m) = true;
  kr_boot : id_wf 16 (inc_boot (cm_destination_incarnation m));
  kr_epoch : in_u 64 (inc_epoch (cm_destination_incarnation m));
  kr_time : in_i64 (cm_committed_unix_millis m);
  kr_digest : digest_wf (cm_marker_digest m) }.

Definition marker_ok (m : CommitMarker) : Prop := marker_range m /\ valid_marker m.

#[global] Instance marker_codec lim `{!Roomy lim} :
  Codec lim CommitMarker_encode CommitMarker_decode marker_ok.
Proof.
  split.
  - intros m [[] Hv]. pose proof (proj2 (marker_validate_spec m) Hv) as Ev. destruct Hv.
    assert (descriptor_ok (cm_object m)) as Hd by (by split).
    destruct (descriptor_range_count _ Hd) as (Ht & _ & Hc).
    pose proof (proj1 Hd) as (_ & Hcd & _).
    assert (EndpointId_is_valid (inc_endpoint (cm_destination_incarnation m)) = true) as He
      by (by rewrite vk_name0).
    unfold CommitMarker_decode, CommitMarker_encode, marker_body. solve_reads; try done;
      try (by apply endpoint_text); try (by apply EndpointId_parse_self);
      rewrite ?vk_content0, ?vk_bytes0, ?vk_chunks0; try done.
    + by apply Incarnation_make_self.
    + rewrite <- vk_content0, <- vk_bytes0, <- vk_chunks0. by destruct m.
  - intros d m d' Hl H. unfold CommitMarker_decode in H. repeat dstep H. dfacts. dcanon.
    repeat match goal with
    | E : EndpointId_parse _ = Ok _ |- _ => apply EndpointId_parse_spec in E as [-> ?]
    | E : Incarnation_make _ _ _ = Ok _ |- _ => apply Incarnation_make_spec in E as [-> ?]
    | u : unit |- _ => destruct u
    end.
    match goal with E : CommitMarker_validate _ = Ok _ |- _ => apply marker_validate_spec in E end.
    repeat match goal with Hd : descriptor_ok _ |- _ => destruct Hd as [? ?] end.
    split; [split; [by split|done]|]. unfold CommitMarker_encode, marker_body.
    cbn [cm_movement_id cm_movement_generation cm_object cm_source cm_destination
      cm_destination_incarnation cm_content_digest cm_stored_bytes cm_stored_chunks
      cm_committed_unix_millis cm_marker_digest inc_endpoint inc_boot inc_epoch]. solve_consumed.
Qed.

Definition journal_ok (j : StagingJournal) : Prop :=
  id_wf 16 (sj_movement_id j) /\ array_is_zero (sj_movement_id j) = false /\
  in_u 64 (sj_movement_generation j) /\ sj_movement_generation j <> 0 /\ id_wf 16 (sj_attempt j) /\
  descriptor_ok (sj_object j) /\ 0 <= sj_verified_chunks j <= d_chunk_count (sj_object j) /\
  zlen (sj_chunk_digests j) = sj_verified_chunks j /\ sj_verified_chunks j <= kMaxResumeJournalChunks /\
  sj_verified_bytes j = prefix_bytes (sj_object j) (sj_verified_chunks j) /\
  Forall digest_wf (sj_chunk_digests j).

Lemma journal_validate_spec j : descriptor_range (sj_object j) -> 0 <= sj_verified_chunks j ->
  StagingJournal_validate j = Ok tt <->
  array_is_zero (sj_movement_id j) = false /\ sj_movement_generation j <> 0 /\
  valid_descriptor (sj_object j) /\ sj_verified_chunks j <= d_chunk_count (sj_object j) /\
  zlen (sj_chunk_digests j) = sj_verified_chunks j /\
  sj_verified_bytes j = prefix_bytes (sj_object j) (sj_verified_chunks j).
Proof.
  intros Hr H0. unfold StagingJournal_validate, is_set. rewrite !reject_Ok by discriminate.
  rewrite rbind_Ok. split.
  - intros (? & ? & u & Ho & H). apply validate_unit in Ho. rewrite !reject_Ok in H by discriminate.
    destruct H as (? & ? & H). b2p. rewrite prefix_bytes_total in H; [|by split|lia]. cbn [rbind] in H.
    rewrite reject_Ok in H by discriminate. destruct H as [? _]. b2p. split_and!; done.
  - intros (H1 & H2 & H3 & H4 & H5 & H6). rewrite H1, (proj2 (Z.eqb_neq _ _) H2). split_and!; [done..|].
    exists tt. split; [by apply validate_spec|].
    rewrite (proj2 (Z.ltb_ge _ _)) by lia. rewrite H5, Z.eqb_refl. cbn [negb].
    rewrite prefix_bytes_total; [|by split|lia]. cbn [rbind]. by rewrite H6, Z.eqb_refl.
Qed.

#[global] Instance journal_codec lim `{!Roomy lim} :
  Codec lim StagingJournal_encode StagingJournal_decode journal_ok.
Proof.
  pose proof (dec_count_codec lim kMaxResumeJournalChunks ltac:(done)) as Hcnt. split.
  - intros j (Hi & Hz & Hg & Hg0 & Ha & Hd & Hv & Hl & Hm & Hb & Hf).
    destruct (descriptor_range_count _ Hd) as (Ht & _ & Hc). pose proof Hd as [Hr []].
    unfold kMaxResumeJournalChunks in *.
    assert (wrap 32 (zlen (sj_chunk_digests j)) = sj_verified_chunks j) as Hw.
    { rewrite Hl. apply wrap_small. unfold in_u in *. lia. }
    unfold StagingJournal_decode, StagingJournal_encode. rewrite Hw. apply reads_nil_r.
    rewrite <- !app_assoc. do 6 (reads_step; [first [done|unfold in_u, prefix_bytes in *; lia]|]).
    eapply reads_bind; [apply codec_reads; unfold kMaxResumeJournalChunks; lia|]. cbv beta.
    assert (Z.to_nat (sj_verified_chunks j) = length (sj_chunk_digests j)) as -> by (unfold zlen in Hl; lia).
    eapply reads_bind; [by apply (dec_repeat_reads lim enc_digest dec_digest digest_wf)|]. cbv beta.
    repeat reads_step; [|by destruct j].
    apply journal_validate_spec; [done|cbn; lia|]. cbn. split_and!; try done; lia.
  - intros d j d' Hl H. unfold StagingJournal_decode in H. repeat dstep H. dfacts.
    match goal with E : dec_repeat _ _ _ = Ok _ |- _ => rename E into Erep end.
    dcanon.
    match goal with E : StagingJournal_validate _ = Ok ?u |- _ => destruct u; rename E into Ev end.
    apply (dec_repeat_canon lim enc_digest dec_digest digest_wf) in Erep as [[Hf Hn] Hcr]; [|done].
    repeat match goal with Hd : descriptor_ok _ |- _ => pose proof Hd as [? ?]; revert Hd end. intros.
    unfold in_u in *. apply journal_validate_spec in Ev as (H1 & H2 & H3 & H4 & H5 & H6);
      cbn in *; try done; [|lia].
    unfold kMaxResumeJournalChunks in *. split.
    + unfold journal_ok, kMaxResumeJournalChunks, zlen in *. cbn. split_and!; try done; unfold in_u; lia.
    + unfold StagingJournal_encode. cbn [sj_movement_id sj_movement_generation sj_attempt sj_object
        sj_verified_chunks sj_verified_bytes sj_chunk_digests].
      rewrite wrap_small by (unfold in_u, zlen in *; lia).
      assert (v5 = zlen v6) as -> by (unfold zlen in *; lia). solve_consumed.
Qed.

(** ** Sizes and binding *)

Lemma marker_encode_bound m : marker_ok m -> zlen (CommitMarker_encode m) <= 8700.
Proof.
  intros [[] []]. assert (descriptor_ok (cm_object m)) as Hd by (by split).
  pose proof (descriptor_encode_bound _ Hd).
  apply endpoint_text in kr_src0 as [[? _] _]. pose proof kr_dst0 as Hdst.
  apply endpoint_text in Hdst as [[? _] _].
  assert (digest_wf (cm_content_digest m)) by (rewrite vk_content0; apply Hd).
  assert (forall v, id_wf 16 v -> zlen (FixedId_encode v) = 24) as Hid.
  { intros v Hv. unfold FixedId_encode. rewrite zlen_enc_blob. unfold zlen. by rewrite Hv. }
  unfold CommitMarker_encode, marker_body. rewrite !zlen_app.
  rewrite (Hid (cm_movement_id m)), (Hid (inc_boot (cm_destination_incarnation m))) by done.
  rewrite !zlen_enc_text, !zlen_enc_u64, zlen_enc_u32, zlen_enc_i64, vk_name0.
  rewrite (zlen_enc_digest (cm_content_digest m)), (zlen_enc_digest (cm_marker_digest m)) by done.
  unfold kMaxEndpointIdBytes in *. lia.
Qed.

(** A marker whose digest is the one of its fields. *)
Definition sealed (m : CommitMarker) : Prop := cm_marker_digest m = compute_digest m.

Lemma seal_sealed m : sealed (seal m).
Proof. done. Qed.

Lemma sealed_binds m m' : marker_ok m -> marker_ok m' -> sealed m -> sealed m' ->
  cm_marker_digest m = cm_marker_digest m' -> m = m' \/ exists a b, sha256_collision a b.
Proof.
  intros Hm Hm' Hs Hs' He. pose proof He as He2. rewrite Hs, Hs' in He2.
  apply sha256_binds in He2 as [E|]; [|eauto]. left. apply app_inv_head in E.
  apply (codec_prefix_free default_limits CommitMarker_encode CommitMarker_decode marker_ok m m' [] []);
    try done.
  - rewrite app_nil_r. pose proof (marker_encode_bound m Hm). cbn [default_limits max_input_bytes]. lia.
  - unfold CommitMarker_encode. by rewrite E, He.
Qed.

(** ** Properties *)

(** (roundtrip) Commit markers are canonical on disk and bound by their
    digest: a well-formed marker decodes to itself, a decoded file is the
    encoding of a valid marker, and two sealed markers with one digest are the
    same marker in every field, or SHA-256 collided. *)
Theorem commit_marker_canonical_and_bound (m m' : CommitMarker) (input : bytes) :
  zlen input <= max_input_bytes default_limits -> marker_ok m -> marker_ok m' ->
  decode_all default_limits CommitMarker_decode (CommitMarker_encode m) = Ok m /\
  (forall x, decode_all default_limits CommitMarker_decode input = Ok x ->
     marker_ok x /\ input = CommitMarker_encode x) /\
  (sealed m -> sealed m' -> cm_marker_digest m = cm_marker_digest m' ->
     m = m' \/ exists a b, sha256_collision a b) /\
  sealed (seal m).
Proof.
  intros Hl Hm Hm'. split_and!.
  - apply (decode_all_encode _ _ _ marker_ok); [done|]. pose proof (marker_encode_bound m Hm).
    cbn [default_limits max_input_bytes]. lia.
  - intros x. by apply (decode_all_canonical _ _ _ marker_ok).
  - by apply sealed_binds.
  - apply seal_sealed.
Qed.

Definition demo_marker_of (millis : Z) : CommitMarker :=
  seal (mkMarker (replicate 16 x0b) 4 demo_descriptor (lit "src") (lit "dst")
    (mkIncarnation (lit "dst") (replicate 16 x07) 3) (d_content_digest demo_descriptor)
    (d_total_bytes demo_descriptor) (d_chunk_count demo_descriptor) millis []).
Definition demo_marker : CommitMarker := Eval vm_compute in demo_marker_of 9.

Lemma demo_marker_ok : marker_ok demo_marker.
Proof.
  split.
  - constructor; try (vm_compute; first [reflexivity|split; congruence]).
    apply demo_descriptor_ok.
  - apply marker_validate_spec. vm_compute. reflexivity.
Qed.

Lemma demo_marker_sealed : sealed demo_marker.
Proof. vm_compute. reflexivity. Qed.

Lemma commit_marker_canonical_and_bound_witness :
  decode_all default_limits CommitMarker_decode (CommitMarker_encode demo_marker) = Ok demo_marker.
Proof.
  apply (commit_marker_canonical_and_bound demo_marker demo_marker []).
  - vm_compute. congruence.
  - exact demo_marker_ok.
  - exact demo_marker_ok.
Defined.
