(* ===== verification/ObjectStore.v ===== *)
(** * Object store (src/src/object_store.cpp, include/smf/object_store.hpp, with
    FileHandle and atomic_replace_file of src/src/file_utils.cpp)

    The directory tree the store keeps is a [Disk]; an operation runs in a
    [World], the disk and the outcomes of the file operations to come, so every
    call can fail at every step and a write can stop half way.  [IO] is the
    state and error monad of the source's early returns: an error keeps what the
    steps before it did to the disk.  Queries of existence and size
    ([std::filesystem::exists], [file_size]) do not fail. *)
From S2P Require Import Prelude Status Bytes Digest Codec Ids StateObject CommitMarker.

(** ** Disk and input/output *)

Record StagingDir := mkStaging { sd_data : option bytes; sd_journal : option bytes }.
Definition empty_dir : StagingDir := mkStaging None None.

(** [objects/<id>/<generation>]: the directory, with its data file if any. *)
Definition Version : Type := bytes * Z.

Record QuarantineDir := mkQuarantine {
  qd_staging : option StagingDir;
  qd_objects : option (option bytes);
  qd_marker : option bytes }.

Record Disk := mkDisk {
  dk_staging : gmap bytes StagingDir;
  dk_objects : gmap Version (option bytes);
  dk_commits : gmap Version bytes;
  dk_quarantine : gmap bytes QuarantineDir }.

Definition empty_disk : Disk := mkDisk ∅ ∅ ∅ ∅.

(** How a file operation ends: done, refused, or a write that stopped after [n]
    bytes (a read that returned only [n]). *)
Inductive IoOutcome : Set := Done | Failed | Torn (n : nat).

Record World := mkWorld { w_disk : Disk; w_io : list IoOutcome }.

Definition IO (A : Type) : Type := World -> World * Result A.

Definition io_ret {A} (x : A) : IO A := fun w => (w, Ok x).
Definition io_lift {A} (r : Result A) : IO A := fun w => (w, r).
Definition io_bind {A B} (m : IO A) (k : A -> IO B) : IO B :=
  fun w => match m w with (w', Ok x) => k x w' | (w', Err e) => (w', Err e) end.
Definition io_reject (cond : bool) (c : ReasonCode) (m : String.string) : IO unit :=
  io_lift (if cond then fail c m else Ok tt).
Definition io_disk : IO Disk := fun w => (w, Ok (w_disk w)).

Notation "'let*' x := m 'in' k" := (io_bind m (fun x => k))
  (at level 10, x pattern, m at level 100, k at level 200) : smf_scope.
Notation "m ;* k" := (io_bind m (fun _ => k)) (at level 199, right associativity) : smf_scope.
Arguments io_reject _ _ _%_string_scope.

(** The outcome of the next file operation; all succeed once the list is over. *)
Definition pop_outcome : IO IoOutcome := fun w =>
  match w_io w with
  | [] => (w, Ok Done)
  | o :: rest => (mkWorld (w_disk w) rest, Ok o)
  end.

(** A file operation without a value that changes the disk as a whole or, when
    it fails, not at all. *)
Definition file_op (change : Disk -> Disk) (error : Status) : IO unit := fun w =>
  match pop_outcome w with
  | (w, Ok Done) => (mkWorld (change (w_disk w)) (w_io w), Ok tt)
  | (w, _) => (w, Err error)
  end.

Definition io_error (m : String.string) : Status := mkStatus RC.STORE_IO_ERROR (lit m).
Arguments io_error _%_string_scope.

(** A flush to disk: an earlier step of it that stops half way has its own
    message. *)
Definition sync_op (first : String.string) : IO unit := fun w =>
  match pop_outcome w with
  | (w, Ok Done) => (mkWorld (w_disk w) (w_io w), Ok tt)
  | (w, Ok (Torn _)) => (w, Err (io_error first))
  | (w, _) => (w, Err (io_error "fsync failed"))
  end.
Arguments sync_op _%_string_scope.

(** [FileHandle::sync]: [fflush], then [fsync]. *)
Definition file_sync : IO unit := sync_op "flush failed".

(** [sync_existing_file]: [open], then [fsync]. *)
Definition sync_by_name : IO unit := sync_op "could not open the file to sync it".

(** Staging files are written and read in place. *)
Definition update_staging (id : bytes) (f : StagingDir -> StagingDir) (d : Disk) : Disk :=
  mkDisk (<[id := f (default empty_dir (dk_staging d !! id))]> (dk_staging d)) (dk_objects d)
    (dk_commits d) (dk_quarantine d).

Definition staging_file (d : Disk) (id : bytes) : option bytes := dk_staging d !! id ≫= sd_data.
Definition journal_file (d : Disk) (id : bytes) : option bytes := dk_staging d !! id ≫= sd_journal.
Definition object_file (d : Disk) (v : Version) : option bytes := dk_objects d !! v ≫= id.

Definition write_at (file : bytes) (offset : nat) (data : bytes) : bytes :=
  take offset file ++ data ++ drop (offset + length data) file.

Definition set_data (data : bytes) (s : StagingDir) : StagingDir := mkStaging (Some data) (sd_journal s).

(** [handle->open(path, true)]: the file is created when there is none. *)
Definition open_data (s : StagingDir) : StagingDir :=
  mkStaging (Some (default [] (sd_data s))) (sd_journal s).

(** [handle->seek(offset)] and [handle->write(data)] on the staging file. *)
Definition write_staging (id : bytes) (offset : Z) (data : bytes) : IO unit := fun w =>
  match pop_outcome w with
  | (w, Ok o) =>
    let file := default [] (staging_file (w_disk w) id) in
    let put bs := mkWorld (update_staging id (set_data (write_at file (Z.to_nat offset) bs)) (w_disk w))
                    (w_io w) in
    match o with
    | Done => (put data, Ok tt)
    | Failed => (w, Err (io_error "seek failed"))
    | Torn n => (put (take n data), Err (io_error "short write"))
    end
  | (w, Err e) => (w, Err e)
  end.

(** [read] of [n] bytes of [file] at [offset]: at the end of the file it returns
    fewer. *)
Definition read_file (file : bytes) (offset n : nat) : IO bytes := fun w =>
  match pop_outcome w with
  | (w, Ok Done) => (w, Ok (take n (drop offset file)))
  | (w, Ok (Torn k)) => (w, Ok (take k (take n (drop offset file))))
  | (w, _) => (w, Err (io_error "read error"))
  end.

(** [FileHandle::size] *)
Definition size_of (file : bytes) : IO Z :=
  file_op (fun d => d) (io_error "tell failed") ;* io_ret (zlen file).

Definition open_error (path : bytes) : Status := mkStatus RC.STORE_IO_ERROR (lit "could not open " ++ path).

(** [atomic_replace_file]: a temporary file is written, flushed and renamed over
    the target; the target has the old contents until the rename.  The bytes a
    closing handle still has to write, when there is no flush, are taken to reach
    the file. *)
Definition atomic_replace (target : bytes) (replace : Disk -> Disk) (sync_to_disk : bool) : IO unit :=
  file_op (fun d => d) (open_error (target ++ lit ".tmp-replace")) ;*
  file_op (fun d => d) (io_error "short write") ;*
  (if sync_to_disk then file_sync else io_ret tt) ;*
  file_op replace (io_error "atomic replacement failed").

(** [FileHandle::open] of an existing file for reading. *)
Definition open_read (path : bytes) (file : option bytes) : IO bytes :=
  file_op (fun d => d) (open_error path) ;*
  io_lift (match file with Some f => Ok f | None => Err (open_error path) end).

(** A file that starts with a domain string: the reading every caller of
    [load_journal] and [read_commit_marker] has in common. *)
Definition dec_domain {A} (domain : bytes) (c : ReasonCode) (what : String.string) (dec : Dec A) : Dec A :=
  let? d := dec_text kMaxTextBytes in
  dreject (negb (bytes_eqb d domain)) c what ;?
  dec.
Arguments dec_domain {A} _ _ _%_string_scope _.

(** ** Store *)

Record ObjectStoreOptions := mkOsOptions {
  os_root : bytes;
  os_max_object_bytes : Z;
  os_sync_on_write : bool;
  os_allow_resume : bool }.

(** [ObjectStore::open].  The same [error] is passed to the four calls and read
    once, so only the outcome of the last one is seen. *)
Definition ObjectStore_open (options : ObjectStoreOptions) : IO ObjectStoreOptions :=
  io_reject (bytes_eqb (os_root options) []) RC.INVALID_ARGUMENT "object store root must not be empty" ;*
  io_reject ((os_max_object_bytes options =? 0) || (kMaxObjectBytes <? os_max_object_bytes options))
    RC.INVALID_ARGUMENT "max_object_bytes is outside the supported range" ;*
  let* _ := pop_outcome in
  let* _ := pop_outcome in
  let* _ := pop_outcome in
  file_op (fun d => d) (io_error "could not create the object store layout") ;*
  io_ret options.

Section store.
Context (options : ObjectStoreOptions).

Definition slash (a b : bytes) : bytes := a ++ lit "/" ++ b.
Definition staging_directory (id : bytes) : bytes := slash (slash (os_root options) (lit "staging")) (to_hex id).
Definition staging_data_path (id : bytes) : bytes := slash (staging_directory id) (lit "data.part").
Definition staging_journal_path (id : bytes) : bytes := slash (staging_directory id) (lit "journal").
Definition object_directory (v : Version) : bytes :=
  slash (slash (slash (os_root options) (lit "objects")) (to_hex v.1)) (std_to_string v.2).
Definition object_data_path (v : Version) : bytes := slash (object_directory v) (lit "data").
Definition commit_marker_path (v : Version) : bytes :=
  slash (slash (slash (os_root options) (lit "commits")) (to_hex v.1)) (std_to_string v.2 ++ lit ".marker").

Definition kJournalDomain : bytes := lit "SMF-STAGING-JOURNAL-v1".

(** The bytes of a journal file and their reading, without the checks on the
    file and the movement id. *)
Definition journal_contents (j : StagingJournal) : bytes := enc_text kJournalDomain ++ StagingJournal_encode j.

Definition parse_journal (buffer : bytes) : Result StagingJournal :=
  decode_all default_limits
    (dec_domain kJournalDomain RC.STORE_CORRUPT "staging journal domain does not match" StagingJournal_decode)
    buffer.

Definition load_journal (id : bytes) : IO StagingJournal :=
  let* d := io_disk in
  match journal_file d id with
  | None => io_lift (fail RC.NOT_FOUND "no staging journal exists for that movement")
  | Some file =>
    open_read (staging_journal_path id) (Some file) ;*
    let* size := size_of file in
    io_reject ((size =? 0) || (4 * 2 ^ 20 <? size)) RC.STORE_OVERSIZED
      "staging journal has an implausible size" ;*
    let* buffer := read_file file 0 (length file) in
    io_reject (negb (zlen buffer =? size)) RC.STORE_TRUNCATED "staging journal is truncated" ;*
    let* journal := io_lift (parse_journal buffer) in
    io_reject (negb (bytes_eqb (sj_movement_id journal) id)) RC.STORE_RECORD_INVALID
      "staging journal belongs to a different movement" ;*
    io_ret journal
  end.

Definition set_journal (contents : bytes) (s : StagingDir) : StagingDir :=
  mkStaging (sd_data s) (Some contents).

Definition save_journal (j : StagingJournal) : IO unit :=
  io_lift (StagingJournal_validate j) ;*
  file_op (update_staging (sj_movement_id j) (fun s => s)) (io_error "could not create the staging directory") ;*
  atomic_replace (staging_journal_path (sj_movement_id j))
    (update_staging (sj_movement_id j) (set_journal (journal_contents j))) (os_sync_on_write options).

Definition staging_present (d : Disk) (id : bytes) : bool :=
  match staging_file d id with Some _ => true | None => false end.

Definition staging_bytes (d : Disk) (id : bytes) : Z :=
  match staging_file d id with Some f => zlen f | None => 0 end.

Definition remove_staging (id : bytes) (d : Disk) : Disk :=
  mkDisk (delete id (dk_staging d)) (dk_objects d) (dk_commits d) (dk_quarantine d).

(** The bytes reported removed, then [remove_all]. *)
Definition discard_staging (id : bytes) : IO Z :=
  let* d := io_disk in
  let removed := staging_bytes d id + match journal_file d id with Some f => zlen f | None => 0 end in
  file_op (remove_staging id) (mkStatus RC.CLEANUP_FAILED (lit "could not remove the staging directory")) ;*
  io_ret removed.

Definition set_object (v : Version) (data : option bytes) (d : Disk) : Disk :=
  mkDisk (dk_staging d) (<[v := data]> (dk_objects d)) (dk_commits d) (dk_quarantine d).

(** [rename(data.part, data)]. *)
Definition move_to_object (id : bytes) (v : Version) (d : Disk) : Disk :=
  match staging_file d id with
  | None => d
  | Some file =>
    mkDisk (alter (fun s => mkStaging None (sd_journal s)) id (dk_staging d))
      (<[v := Some file]> (dk_objects d)) (dk_commits d) (dk_quarantine d)
  end.

Definition version_of (o : StateObjectDescriptor) : Version := (d_object_id o, d_generation o).

Definition promote_staging (id : bytes) (object : StateObjectDescriptor) : IO unit :=
  let v := version_of object in
  let* d := io_disk in
  io_reject (negb (staging_present d id)) RC.OBJECT_NOT_FOUND "no staged bytes exist to promote" ;*
  file_op (fun d => set_object v (object_file d v) d) (io_error "could not create the object directory") ;*
  let* d := io_disk in
  match object_file d v with
  | Some _ => file_op (set_object v None) (io_error "could not clear the previous object data")
  | None => io_ret tt
  end ;*
  file_op (move_to_object id v) (io_error "could not promote the staged bytes") ;*
  (if os_sync_on_write options then sync_by_name else io_ret tt) ;*
  (fun w => ((file_op (remove_staging id) (io_error "") w).1, Ok tt)).

Definition object_present (d : Disk) (v : Version) : bool :=
  match object_file d v with Some _ => true | None => false end.

Definition object_size (d : Disk) (v : Version) : Result Z :=
  match object_file d v with
  | Some f => Ok (zlen f)
  | None => fail RC.OBJECT_VERSION_NOT_FOUND "no bytes are placed for that version"
  end.

Definition read_range (v : Version) (offset length max_length : Z) : IO bytes :=
  io_reject (max_length <? length) RC.PROTOCOL_BOUNDS_EXCEEDED
    "requested range exceeds the permitted bound" ;*
  let* d := io_disk in
  let* file := open_read (object_data_path v) (object_file d v) in
  let* size := size_of file in
  io_reject (match checked_add offset length with Some e => size <? e | None => true end)
    RC.CHUNK_INDEX_OUT_OF_RANGE "requested range lies outside the object" ;*
  file_op (fun d => d) (io_error "seek failed") ;*
  if length =? 0 then io_ret []
  else
    let* buffer := read_file file (Z.to_nat offset) (Z.to_nat length) in
    io_reject (negb (zlen buffer =? length)) RC.STORE_TRUNCATED
      "object bytes ended inside the requested range" ;*
    io_ret buffer.

Definition kCopyBufferBytes : Z := 256 * 2 ^ 10.

(** The read loop of [digest_object]: at [offset], with [total] bytes hashed.
    Every full block advances by the buffer size, so one turn per started block
    and one more suffice; the fuel is the file's length plus one. *)
Fixpoint digest_loop (fuel : nat) (file : bytes) (offset : nat) (hasher : Sha256) (total : Z)
  : IO (Digest * Z) :=
  match fuel with
  | O => io_ret (Sha256_finalize hasher, total)
  | S f =>
    let* block := read_file file offset (Z.to_nat kCopyBufferBytes) in
    if zlen block =? 0 then io_ret (Sha256_finalize hasher, total)
    else
      let hasher := Sha256_update hasher block in
      let total := wrap 64 (total + zlen block) in
      if zlen block <? kCopyBufferBytes then io_ret (Sha256_finalize hasher, total)
      else digest_loop f file (offset + length block) hasher total
  end.

Definition digest_object (v : Version) : IO (Digest * Z) :=
  let* d := io_disk in
  let* file := open_read (object_data_path v) (object_file d v) in
  digest_loop (length file + 1) file 0 Sha256_reset 0.
(** ** Commit markers *)

Definition marker_contents (m : CommitMarker) : bytes := enc_text kMarkerDomain ++ CommitMarker_encode m.

Definition set_commit (v : Version) (contents : bytes) (d : Disk) : Disk :=
  mkDisk (dk_staging d) (dk_objects d) (<[v := contents]> (dk_commits d)) (dk_quarantine d).

(** The marker [write_commit_marker] finds in place: only a domain and a marker
    are read, and any failure to open, size, read or decode is taken for none. *)
Definition decode_existing (buffer : bytes) : option CommitMarker :=
  match dec_domain kMarkerDomain RC.COMMIT_MARKER_INVALID "" CommitMarker_decode
          (Decoder_make buffer default_limits) with
  | Ok (m, _) => Some m
  | Err _ => None
  end.

Definition existing_marker (v : Version) : IO (option CommitMarker) := fun w =>
  match dk_commits (w_disk w) !! v with
  | None => (w, Ok None)
  | Some file =>
    let attempt :=
      let* f := open_read (commit_marker_path v) (Some file) in
      let* size := size_of f in
      if negb ((0 <? size) && (size <=? 2 ^ 20)) then io_ret None
      else
        let* buffer := read_file f 0 (length f) in
        if negb (zlen buffer =? size) then io_ret None else io_ret (decode_existing buffer) in
    match attempt w with
    | (w, Ok m) => (w, Ok m)
    | (w, Err _) => (w, Ok None)
    end
  end.

Definition write_commit_marker (marker : CommitMarker) : IO unit :=
  let sealed := if array_is_zero (cm_marker_digest marker) then seal marker else marker in
  let v := version_of (cm_object sealed) in
  io_reject (negb (bytes_eqb (cm_marker_digest sealed) (compute_digest sealed)))
    RC.COMMIT_MARKER_INVALID "commit marker digest does not match its fields" ;*
  io_lift (CommitMarker_validate sealed) ;*
  let* existing := existing_marker v in
  match existing with
  | Some m =>
    if bytes_eqb (cm_marker_digest m) (cm_marker_digest sealed) then io_ret tt
    else io_lift (fail RC.COMMIT_ALREADY_EXISTS
                    "a different commit marker already exists for this object version")
  | None =>
    file_op (fun d => d) (io_error "could not create the commit directory") ;*
    atomic_replace (commit_marker_path v) (set_commit v (marker_contents sealed)) (os_sync_on_write options)
  end.

Definition parse_marker (buffer : bytes) : Result CommitMarker :=
  decode_all default_limits
    (dec_domain kMarkerDomain RC.COMMIT_MARKER_INVALID "commit marker domain does not match"
       CommitMarker_decode)
    buffer.

Definition read_commit_marker (v : Version) : IO CommitMarker :=
  let* d := io_disk in
  let* file := open_read (commit_marker_path v) (dk_commits d !! v) in
  let* size := size_of file in
  io_reject ((size =? 0) || (2 ^ 20 <? size)) RC.COMMIT_MARKER_INVALID
    "commit marker has an implausible size" ;*
  let* buffer := read_file file 0 (length file) in
  io_reject (negb (zlen buffer =? size)) RC.STORE_TRUNCATED "commit marker is truncated" ;*
  let* marker := io_lift (parse_marker buffer) in
  io_reject (negb (bytes_eqb (cm_marker_digest marker) (compute_digest marker)))
    RC.COMMIT_MARKER_INVALID "commit marker digest does not match its own fields" ;*
  io_reject (negb (bytes_eqb (d_object_id (cm_object marker)) v.1) ||
             negb (d_generation (cm_object marker) =? v.2))
    RC.COMMIT_MARKER_INVALID "commit marker is filed under the wrong object version" ;*
  io_ret marker.

Definition commit_marker_present (d : Disk) (v : Version) : bool :=
  match dk_commits d !! v with Some _ => true | None => false end.

(** ** Authority *)

Record ObjectAuthority := mkAuthority {
  oa_object_id : bytes;
  oa_generation : Z;
  oa_movement_id : bytes;
  oa_bytes_present : bool;
  oa_marker_present : bool;
  oa_marker_valid : bool;
  oa_authoritative : bool;
  oa_marker_digest : Digest;
  oa_stored_bytes : Z;
  oa_code : ReasonCode;
  oa_detail : bytes }.

Definition authority (v : Version) : IO ObjectAuthority := fun w =>
  let bytes_present := object_present (w_disk w) v in
  match read_commit_marker v w with
  | (w, Err e) =>
    let present := commit_marker_present (w_disk w) v in
    (w, Ok (mkAuthority v.1 v.2 (replicate kMovementIdBytes x00) bytes_present present false false
              (replicate kDigestBytes x00) 0
              (if present then st_code e else RC.OBJECT_VERSION_NOT_FOUND)
              (if present then Status_to_string e
               else lit "no commit marker exists for this object version, so any bytes present there are staged residue and not reusable authority")))
  | (w, Ok m) =>
    let size := match object_size (w_disk w) v with Ok n => n | Err _ => 0 end in
    let report authoritative code detail :=
      mkAuthority v.1 v.2 (cm_movement_id m) bytes_present true true authoritative (cm_marker_digest m)
        size code detail in
    (w, Ok (if negb bytes_present
            then report false RC.OBJECT_NOT_FOUND
                   (lit "a commit marker exists but the object bytes are missing")
            else if negb (size =? cm_stored_bytes m)
            then report false RC.BYTE_COUNT_MISMATCH
                   (lit "stored byte count does not match the commit marker")
            else report true RC.OK (lit "commit marker verified and stored byte count matches")))
  end.

(** ** Cleanup *)

Record CleanupTarget := mkCleanup {
  ct_movement_id : bytes;
  ct_object_id : bytes;
  ct_generation : Z;
  ct_quarantine : bool;
  ct_remove_placed : bool }.

Definition cleanup_error (m : String.string) : Status := mkStatus RC.CLEANUP_FAILED (lit m).
Arguments cleanup_error _%_string_scope.

Definition no_quarantine : QuarantineDir := mkQuarantine None None None.

Definition update_quarantine (id : bytes) (f : QuarantineDir -> QuarantineDir) (d : Disk) : Disk :=
  mkDisk (dk_staging d) (dk_objects d) (dk_commits d)
    (<[id := f (default no_quarantine (dk_quarantine d !! id))]> (dk_quarantine d)).

Definition remove_object (v : Version) (d : Disk) : Disk :=
  mkDisk (dk_staging d) (delete v (dk_objects d)) (dk_commits d) (dk_quarantine d).
Definition remove_commit (v : Version) (d : Disk) : Disk :=
  mkDisk (dk_staging d) (dk_objects d) (delete v (dk_commits d)) (dk_quarantine d).

(** [rename] of a directory onto an existing one succeeds only when that one is
    empty. *)
Definition staging_slot_free (q : QuarantineDir) : bool :=
  match qd_staging q with Some (mkStaging None None) | None => true | _ => false end.
Definition objects_slot_free (q : QuarantineDir) : bool :=
  match qd_objects q with Some None | None => true | _ => false end.

Definition quarantine_staging (id : bytes) : IO unit :=
  let* d := io_disk in
  let q := default no_quarantine (dk_quarantine d !! id) in
  io_lift (if staging_slot_free q then Ok tt
           else Err (cleanup_error "could not quarantine the staged bytes")) ;*
  file_op (fun d => remove_staging id (update_quarantine id
             (fun q => mkQuarantine (dk_staging d !! id) (qd_objects q) (qd_marker q)) d))
    (cleanup_error "could not quarantine the staged bytes").

Definition quarantine_object (id : bytes) (v : Version) : IO unit :=
  let* d := io_disk in
  let q := default no_quarantine (dk_quarantine d !! id) in
  io_lift (if objects_slot_free q then Ok tt
           else Err (cleanup_error "could not quarantine the object bytes")) ;*
  file_op (fun d => remove_object v (update_quarantine id
             (fun q => mkQuarantine (qd_staging q) (dk_objects d !! v) (qd_marker q)) d))
    (cleanup_error "could not quarantine the object bytes").

Definition quarantine_marker (id : bytes) (v : Version) : IO unit :=
  file_op (fun d => remove_commit v (update_quarantine id
             (fun q => mkQuarantine (qd_staging q) (qd_objects q) (dk_commits d !! v)) d))
    (cleanup_error "could not quarantine the commit marker").

Definition dir_present (d : Disk) (id : bytes) : bool :=
  match dk_staging d !! id with Some _ => true | None => false end.
Definition object_dir_present (d : Disk) (v : Version) : bool :=
  match dk_objects d !! v with Some _ => true | None => false end.

(** The staging part: bytes and entries removed. *)
Definition cleanup_staging (t : CleanupTarget) : IO (Z * Z) :=
  let* d := io_disk in
  let staged := staging_bytes d (ct_movement_id t) in
  if negb (dir_present d (ct_movement_id t)) then io_ret (0, 0)
  else if ct_quarantine t then
    file_op (update_quarantine (ct_movement_id t) (fun q => q))
      (cleanup_error "could not create the quarantine area") ;*
    quarantine_staging (ct_movement_id t) ;*
    io_ret (staged, 1)
  else
    file_op (remove_staging (ct_movement_id t)) (cleanup_error "could not remove the staged bytes") ;*
    io_ret (staged, 1).

(** The placed part, from the counts of the staging part. *)
Definition cleanup_placed (t : CleanupTarget) (counts : Z * Z) : IO (Z * Z) :=
  let v := (ct_object_id t, ct_generation t) in
  let* d := io_disk in
  let size := match object_size d v with Ok n => n | Err _ => 0 end in
  let marker := commit_marker_present d v in
  (if ct_quarantine t
   then fun w => ((file_op (update_quarantine (ct_movement_id t) (fun q => q)) (cleanup_error "") w).1, Ok tt)
   else io_ret tt) ;*
  let* counts :=
    if object_dir_present d v then
      (if ct_quarantine t then quarantine_object (ct_movement_id t) v
       else file_op (remove_object v) (cleanup_error "could not remove the object bytes")) ;*
      io_ret (wrap 64 (counts.1 + size), counts.2 + 1)
    else io_ret counts in
  if marker then
    (if ct_quarantine t then quarantine_marker (ct_movement_id t) v
     else file_op (remove_commit v) (cleanup_error "could not remove the commit marker")) ;*
    io_ret (counts.1, counts.2 + 1)
  else io_ret counts.

Definition cleanup (t : CleanupTarget) : IO (Z * Z) :=
  let* counts := cleanup_staging t in
  if ct_remove_placed t then cleanup_placed t counts else io_ret counts.
End store.

(** ** Staging writer *)

Record StagingWriter := mkWriter {
  sw_journal : StagingJournal;
  sw_running : Sha256;
  sw_journaling : bool;
  sw_open : bool;
  sw_completed : bool;
  sw_finalized : bool }.

Section writer.
Context (options : ObjectStoreOptions).

(** The re-hashing loop of [begin]: [n] chunks from [index] at [offset]. *)
Fixpoint rehash_loop (n : nat) (file : bytes) (object : StateObjectDescriptor) (digests : list Digest)
    (index offset : Z) (running : Sha256) : IO Sha256 :=
  match n with
  | O => io_ret running
  | S n' =>
    let* length := io_lift (chunk_length object index) in
    let* buffer := read_file file (Z.to_nat offset) (Z.to_nat length) in
    io_reject (negb (zlen buffer =? length)) RC.RESUME_INCOMPATIBLE
      "the staged file ended inside the verified prefix" ;*
    io_reject (negb (bytes_eqb
                 (compute_chunk_digest (d_object_id object) (d_generation object) index offset length buffer)
                 (nth (Z.to_nat index) digests [])))
      RC.RESUME_INCOMPATIBLE "the staged bytes do not match the journalled chunk digest" ;*
    rehash_loop n' file object digests (index + 1) (wrap 64 (offset + length))
      (Sha256_update running buffer)
  end.

(** The journal [begin] continues, if one was stored, is compatible and has
    verified chunks. *)
Definition resumable (id : bytes) (object : StateObjectDescriptor) (journaling : bool)
  : IO (option StagingJournal) := fun w =>
  if negb journaling then (w, Ok None)
  else
  match load_journal options id w with
  | (w, Err _) => (w, Ok None)
  | (w, Ok stored) =>
    (w, Ok (if is_ok (check_resume_compatible object (sj_object stored)) && (0 <? sj_verified_chunks stored)
            then Some stored else None))
  end.

(** The two ends of [begin]: the staging file is created and emptied, and the
    journal written; or the verified prefix is read back and hashed again. *)
Definition begin_clean (journal : StagingJournal) (journaling : bool) : IO StagingWriter :=
  let id := sj_movement_id journal in
  file_op (update_staging id open_data) (open_error (staging_data_path options id)) ;*
  file_op (update_staging id (set_data [])) (io_error "truncate failed") ;*
  (if journaling then save_journal options journal else io_ret tt) ;*
  io_ret (mkWriter journal Sha256_reset journaling true false false).

Definition begin_resumed (id : bytes) (object : StateObjectDescriptor) (journal : StagingJournal)
    (journaling : bool) : IO StagingWriter :=
  file_op (update_staging id open_data) (open_error (staging_data_path options id)) ;*
  let* d := io_disk in
  let file := default [] (staging_file d id) in
  let* size := (fun w => match size_of file w with (w, Ok n) => (w, Ok n) | (w, Err _) => (w, Ok (-1)) end) in
  io_reject (size <? sj_verified_bytes journal) RC.RESUME_INCOMPATIBLE
    "the staged file is shorter than the journal claims" ;*
  file_op (fun d => d) (io_error "seek failed") ;*
  let* running := rehash_loop (Z.to_nat (sj_verified_chunks journal)) file object
                    (sj_chunk_digests journal) 0 0 Sha256_reset in
  io_ret (mkWriter journal running journaling true false false).

Definition begin (id : bytes) (generation : Z) (attempt : bytes) (object : StateObjectDescriptor)
  : IO StagingWriter :=
  io_lift (StateObjectDescriptor_validate object) ;*
  let journaling := os_allow_resume options && (d_chunk_count object <=? kMaxResumeJournalChunks) in
  file_op (update_staging id (fun s => s)) (io_error "could not create the staging directory") ;*
  let* resumed := resumable id object journaling in
  match resumed with
  | None =>
    discard_staging id ;*
    (fun w => ((file_op (update_staging id (fun s => s)) (io_error "") w).1, Ok tt)) ;*
    begin_clean (mkJournal id generation attempt object 0 0 []) journaling
  | Some stored =>
    begin_resumed id object
      (mkJournal (sj_movement_id stored) generation attempt (sj_object stored)
         (sj_verified_chunks stored) (sj_verified_bytes stored) (sj_chunk_digests stored)) journaling
  end.

Definition with_journal (s : StagingWriter) (j : StagingJournal) (running : Sha256) : StagingWriter :=
  mkWriter j running (sw_journaling s) (sw_open s) (sw_completed s) (sw_finalized s).

Definition resume_state (j : StagingJournal) : ResumeState :=
  mkResume (sj_object j) (sj_verified_chunks j) (sj_verified_bytes j) (replicate kDigestBytes x00).

(** The journal after chunk [index] was accepted. *)
Definition journal_next (s : StagingWriter) (length : Z) (digest : Digest) : StagingJournal :=
  let j := sw_journal s in
  mkJournal (sj_movement_id j) (sj_movement_generation j) (sj_attempt j) (sj_object j)
    (wrap 32 (sj_verified_chunks j + 1)) (wrap 64 (sj_verified_bytes j + length))
    (if sw_journaling s then sj_chunk_digests j ++ [digest] else sj_chunk_digests j).

(** The checks of [append] that do not touch the file: the planned length. *)
Definition append_checks (s : StagingWriter) (index offset : Z) (payload : bytes) (digest : Digest)
  : Result Z :=
  let object := sj_object (sw_journal s) in
  if negb (sw_open s) then fail RC.INTERNAL_ERROR "staging writer is not open"
  else if sw_finalized s then fail RC.ALREADY_TERMINAL "staging writer already finished"
  else if d_chunk_count object <=? index
  then fail RC.CHUNK_INDEX_OUT_OF_RANGE "chunk index is outside the object"
  else
  let! expected_offset := chunk_offset object index in
  if negb (offset =? expected_offset)
  then fail RC.CHUNK_OUT_OF_ORDER "chunk offset does not match the planned segmentation"
  else
  let! expected_length := chunk_length object index in
  if negb (zlen payload =? expected_length)
  then fail RC.BYTE_COUNT_MISMATCH "chunk payload length does not match the planned chunk length"
  else if negb (bytes_eqb (compute_chunk_digest (d_object_id object) (d_generation object) index offset
                             expected_length payload) digest)
  then fail RC.CHUNK_DIGEST_MISMATCH "the received chunk does not hash to the digest it carries"
  else Ok expected_length.

(** A chunk of the verified prefix, again. *)
Definition append_duplicate (s : StagingWriter) (index offset length : Z) (digest : Digest) : IO ResumeState :=
  let j := sw_journal s in
  let object := sj_object j in
  io_reject (sw_journaling s && negb (bytes_eqb (nth (Z.to_nat index) (sj_chunk_digests j) []) digest))
    RC.CHUNK_CONFLICT "a replayed chunk does not match the digest already recorded for its index" ;*
  file_op (fun d => d) (io_error "seek failed") ;*
  let* d := io_disk in
  let* buffer := read_file (default [] (staging_file d (sj_movement_id j))) (Z.to_nat offset) (Z.to_nat length) in
  io_reject (negb (zlen buffer =? length)) RC.CHUNK_CONFLICT
    "stored bytes ended inside the replayed chunk" ;*
  io_reject (negb (bytes_eqb (compute_chunk_digest (d_object_id object) (d_generation object) index offset
                                length buffer) digest))
    RC.CHUNK_CONFLICT "a replayed chunk does not match the bytes already stored for its index" ;*
  io_ret (resume_state j).

(** The next chunk: write and flush. *)
Definition append_write (s : StagingWriter) (offset : Z) (payload : bytes) : IO unit :=
  write_staging (sj_movement_id (sw_journal s)) offset payload ;*
  (if os_sync_on_write options then file_sync else io_ret tt).

Definition append (s : StagingWriter) (index offset : Z) (payload : bytes) (digest : Digest) (w : World)
  : World * StagingWriter * Result ResumeState :=
  match append_checks s index offset payload digest with
  | Err e => (w, s, Err e)
  | Ok length =>
    if index <? sj_verified_chunks (sw_journal s) then
      let '(w, r) := append_duplicate s index offset length digest w in (w, s, r)
    else if negb (index =? sj_verified_chunks (sw_journal s))
    then (w, s, fail RC.CHUNK_OUT_OF_ORDER "chunks must arrive in order; this one skips ahead")
    else
      match append_write s offset payload w with
      | (w, Err e) => (w, s, Err e)
      | (w, Ok _) =>
        let j := journal_next s length digest in
        let s := with_journal s j (Sha256_update (sw_running s) payload) in
        match (if sw_journaling s then save_journal options j else io_ret tt) w with
        | (w, Err e) => (w, s, Err e)
        | (w, Ok _) => (w, s, Ok (resume_state j))
        end
      end
  end.

(** [running_.finalize()] resets the hasher before the file is flushed. *)
Definition finish (s : StagingWriter) (w : World) : World * StagingWriter * Result Digest :=
  let j := sw_journal s in
  if negb (sw_open s) then (w, s, fail RC.INTERNAL_ERROR "staging writer is not open")
  else if negb (sj_verified_chunks j =? d_chunk_count (sj_object j)) ||
          negb (sj_verified_bytes j =? d_total_bytes (sj_object j))
  then (w, s, fail RC.TRANSFER_INCOMPLETE "the staged bytes do not cover the whole object")
  else
    let content := Sha256_finalize (sw_running s) in
    match file_sync w with
    | (w, Err e) => (w, with_journal s j Sha256_reset, Err e)
    | (w, Ok _) =>
      (w, mkWriter j Sha256_reset (sw_journaling s) false true (sw_finalized s), Ok content)
    end.

Definition promote (s : StagingWriter) (w : World) : World * StagingWriter * Result unit :=
  if negb (sw_completed s)
  then (w, s, fail RC.TRANSFER_INCOMPLETE
                "the staged transfer is not complete, so there is nothing to promote")
  else
    match promote_staging options (sj_movement_id (sw_journal s)) (sj_object (sw_journal s)) w with
    | (w, Err e) => (w, s, Err e)
    | (w, Ok _) =>
      (w, mkWriter (sw_journal s) (sw_running s) (sw_journaling s) (sw_open s) (sw_completed s) true, Ok tt)
    end.

Definition abort (s : StagingWriter) : StagingWriter :=
  mkWriter (sw_journal s) (sw_running s) (sw_journaling s) false (sw_completed s) (sw_finalized s).
End writer.

(** ** Reasoning about input and output *)

Lemma io_bind_Ok {A B} (m : IO A) (k : A -> IO B) w w' y :
  io_bind m k w = (w', Ok y) <-> exists x w1, m w = (w1, Ok x) /\ k x w1 = (w', Ok y).
Proof.
  unfold io_bind. destruct (m w) as [w1 [x|e]]; split.
  - intros H. by exists x, w1.
  - intros (x' & w1' & [= -> ->] & H). done.
  - done.
  - intros (x' & w1' & ? & _). done.
Qed.

Lemma io_reject_Ok cond c m w w' u : io_reject cond c m w = (w', Ok u) <-> cond = false /\ w' = w.
Proof. unfold io_reject, io_lift. destruct cond, u; naive_solver. Qed.

Lemma io_lift_Ok {A} (r : Result A) w w' x : io_lift r w = (w', Ok x) <-> r = Ok x /\ w' = w.
Proof. unfold io_lift. naive_solver. Qed.

Lemma io_ret_Ok {A} (y x : A) w w' : io_ret y w = (w', Ok x) <-> x = y /\ w' = w.
Proof. unfold io_ret. naive_solver. Qed.

Lemma io_disk_Ok w w' d : io_disk w = (w', Ok d) <-> d = w_disk w /\ w' = w.
Proof. unfold io_disk. naive_solver. Qed.

Lemma pop_outcome_disk w : exists o w', pop_outcome w = (w', Ok o) /\ w_disk w' = w_disk w.
Proof. unfold pop_outcome. destruct (w_io w); eauto. Qed.

Lemma file_op_cases f e w :
  (exists w', file_op f e w = (w', Ok tt) /\ w_disk w' = f (w_disk w)) \/
  (exists w', file_op f e w = (w', Err e) /\ w_disk w' = w_disk w).
Proof.
  unfold file_op. destruct (pop_outcome_disk w) as (o & w1 & -> & Hd).
  destruct o; [left|right..]; eexists; (split; [done|]); cbn; by rewrite ?Hd.
Qed.

Lemma file_op_Ok f e w w' u : file_op f e w = (w', Ok u) -> w_disk w' = f (w_disk w).
Proof.
  intros H. destruct (file_op_cases f e w) as [(w1 & E & Hd)|(w1 & E & _)]; rewrite E in H; [|done].
  by injection H as <-.
Qed.

Lemma sync_op_cases m w :
  (exists w', sync_op m w = (w', Ok tt) /\ w_disk w' = w_disk w) \/
  (exists w' e, sync_op m w = (w', Err e) /\ w_disk w' = w_disk w).
Proof.
  unfold sync_op. destruct (pop_outcome_disk w) as (o & w1 & -> & Hd).
  destruct o; [left; eexists|right; eexists _, _..]; (split; [reflexivity|]); done.
Qed.

Lemma file_sync_cases w :
  (exists w', file_sync w = (w', Ok tt) /\ w_disk w' = w_disk w) \/
  (exists w' e, file_sync w = (w', Err e) /\ w_disk w' = w_disk w).
Proof. apply sync_op_cases. Qed.

Lemma sync_op_Ok m w w' u : sync_op m w = (w', Ok u) -> w_disk w' = w_disk w.
Proof.
  intros H. destruct (sync_op_cases m w) as [(w1 & E & Hd)|(w1 & e & E & _)]; rewrite E in H; [|done].
  by injection H as <-.
Qed.

(** With no faults left every operation succeeds. *)
Definition quiet (w : World) : Prop := w_io w = [].

Lemma file_op_quiet f e d : file_op f e (mkWorld d []) = (mkWorld (f d) [], Ok tt).
Proof. done. Qed.

Lemma sync_op_quiet m d : sync_op m (mkWorld d []) = (mkWorld d [], Ok tt).
Proof. done. Qed.

Lemma read_file_quiet file offset n d :
  read_file file offset n (mkWorld d []) = (mkWorld d [], Ok (take n (drop offset file))).
Proof. done. Qed.

Lemma io_bind_step {A B} (m : IO A) (k : A -> IO B) w w1 x : m w = (w1, Ok x) -> io_bind m k w = k x w1.
Proof. intros H. unfold io_bind. by rewrite H. Qed.

Lemma open_read_quiet p f d : open_read p (Some f) (mkWorld d []) = (mkWorld d [], Ok f).
Proof. done. Qed.

Lemma size_of_quiet f d : size_of f (mkWorld d []) = (mkWorld d [], Ok (zlen f)).
Proof. done. Qed.

Lemma io_reject_false cond c m w : cond = false -> io_reject cond c m w = (w, Ok tt).
Proof. by intros ->. Qed.

Lemma io_lift_ok {A} (r : Result A) x w : r = Ok x -> io_lift r w = (w, Ok x).
Proof. by intros ->. Qed.

Lemma io_disk_run w : io_disk w = (w, Ok (w_disk w)).
Proof. done. Qed.

(** Run one step of a quiet world; a condition of a guard is left to prove. *)
Ltac qstep :=
  etrans; [eapply io_bind_step;
    first [ apply file_op_quiet | apply sync_op_quiet | apply read_file_quiet | apply open_read_quiet | apply size_of_quiet
          | apply io_disk_run | apply io_reject_false | apply io_lift_ok | reflexivity ]|];
  cbv beta iota zeta; cbn [w_disk w_io].

(** Operations that keep a relation between the disk before and after, whatever
    the outcomes. *)
Definition keeps {A} (R : Disk -> Disk -> Prop) (m : IO A) : Prop :=
  forall w w' r, m w = (w', r) -> R (w_disk w) (w_disk w').

Section keeps.
Context (R : Disk -> Disk -> Prop) `{!PreOrder R}.

Lemma keeps_bind {A B} (m : IO A) (k : A -> IO B) :
  keeps R m -> (forall x, keeps R (k x)) -> keeps R (io_bind m k).
Proof.
  intros Hm Hk w w' r H. unfold io_bind in H. destruct (m w) as [w1 [x|e]] eqn:E.
  - etrans; [by eapply Hm|by eapply Hk].
  - injection H as <- <-. by eapply Hm.
Qed.

Lemma keeps_lift {A} (r : Result A) : keeps R (io_lift r).
Proof. intros w w' r' [= <- <-]. reflexivity. Qed.

Lemma keeps_ret {A} (x : A) : keeps R (io_ret x).
Proof. intros w w' r' [= <- <-]. reflexivity. Qed.

Lemma keeps_disk : keeps R io_disk.
Proof. intros w w' r' [= <- <-]. reflexivity. Qed.

Lemma keeps_file_op f e : (forall d, R d (f d)) -> keeps R (file_op f e).
Proof.
  intros Hf w w' r H. destruct (file_op_cases f e w) as [(w1 & E & Hd)|(w1 & E & Hd)];
    rewrite E in H; injection H as <- <-; rewrite Hd; [apply Hf|reflexivity].
Qed.

Lemma keeps_sync m : keeps R (sync_op m).
Proof.
  intros w w' r H. destruct (sync_op_cases m w) as [(w1 & E & Hd)|(w1 & e & E & Hd)];
    rewrite E in H; injection H as <- <-; by rewrite Hd.
Qed.

Lemma keeps_read file offset n : keeps R (read_file file offset n).
Proof.
  intros w w' r H. unfold read_file in H. destruct (pop_outcome_disk w) as (o & w1 & E & Hd).
  rewrite E in H. destruct o; injection H as <- <-; by rewrite Hd.
Qed.
End keeps.

#[export] Hint Resolve keeps_lift keeps_ret keeps_disk keeps_read keeps_sync : smf.

Ltac keeps_tac :=
  repeat first
    [ apply keeps_bind; [apply _| |intros ?] | apply keeps_lift; apply _ | apply keeps_ret; apply _
    | apply keeps_disk; apply _ | apply keeps_read; apply _ | apply keeps_file_op; [apply _|] | apply keeps_sync; apply _
    | match goal with |- keeps _ (if ?c then _ else _) => destruct c end ].

(** Split a successful run into its steps. *)
Ltac iostep H :=
  first
  [ let x := fresh "x" in let w := fresh "w" in let E := fresh "E" in
    apply io_bind_Ok in H as (x & w & E & H)
  | apply io_ret_Ok in H as [? ?] | apply io_lift_Ok in H as [? ?]
  | apply io_reject_Ok in H as [? ?] | apply io_disk_Ok in H as [? ?] ].
Ltac iofacts :=
  repeat match goal with
  | E : io_ret _ _ = (_, Ok _) |- _ => apply io_ret_Ok in E as [? ?]
  | E : io_lift _ _ = (_, Ok _) |- _ => apply io_lift_Ok in E as [? ?]
  | E : io_reject _ _ _ _ = (_, Ok _) |- _ => apply io_reject_Ok in E as [? ?]
  | E : io_disk _ = (_, Ok _) |- _ => apply io_disk_Ok in E as [? ?]
  | E : file_op _ _ _ = (_, Ok _) |- _ => apply file_op_Ok in E
  | E : file_sync _ = (_, Ok _) |- _ => apply sync_op_Ok in E
  | E : sync_by_name _ = (_, Ok _) |- _ => apply sync_op_Ok in E
  end; subst.

(** *** Staged data *)

Definition same_data (d d' : Disk) : Prop := forall i, staging_file d' i = staging_file d i.
#[global] Instance same_data_preorder : PreOrder same_data.
Proof. split; [by intros d i|]. intros a b c H1 H2 i. by rewrite H2, H1. Qed.

Lemma staging_file_update id f d i : staging_file (update_staging id f d) i =
  if decide (i = id) then sd_data (f (default empty_dir (dk_staging d !! id))) else staging_file d i.
Proof.
  unfold staging_file, update_staging. cbn [dk_staging]. destruct (decide (i = id)) as [->|Hne].
  - by rewrite lookup_insert_eq.
  - by rewrite lookup_insert_ne.
Qed.

Lemma update_same_data id f d : (forall s, sd_data (f s) = sd_data s) -> same_data d (update_staging id f d).
Proof.
  intros Hf i. rewrite staging_file_update. destruct (decide (i = id)) as [->|]; [|done].
  rewrite Hf. unfold staging_file. by destruct (dk_staging d !! id).
Qed.

Lemma save_journal_same_data o j : keeps same_data (save_journal o j).
Proof.
  unfold save_journal, atomic_replace. keeps_tac; intros d; try reflexivity;
    by apply update_same_data.
Qed.

(** ** The writer's invariant *)

Definition chunk_slice (o : StateObjectDescriptor) (file : bytes) (i : Z) : bytes :=
  take (Z.to_nat (plan_length o i)) (drop (Z.to_nat (i * d_chunk_bytes o)) file).

Definition digest_at (o : StateObjectDescriptor) (file : bytes) (i : Z) : Digest :=
  compute_chunk_digest (d_object_id o) (d_generation o) i (i * d_chunk_bytes o) (plan_length o i)
    (chunk_slice o file i).

(** [file] holds the verified prefix of [s], which the running hash has
    absorbed and, when it is journalled, the chunk digests describe. *)
Record writer_on (file : bytes) (s : StagingWriter) : Prop := {
  wo_obj : descriptor_ok (sj_object (sw_journal s));
  wo_chunks : 0 <= sj_verified_chunks (sw_journal s) <= d_chunk_count (sj_object (sw_journal s));
  wo_bytes : sj_verified_bytes (sw_journal s) =
             prefix_bytes (sj_object (sw_journal s)) (sj_verified_chunks (sw_journal s));
  wo_len : sj_verified_bytes (sw_journal s) <= zlen file <= d_total_bytes (sj_object (sw_journal s));
  wo_hash : hashed (take (Z.to_nat (sj_verified_bytes (sw_journal s))) file) (sw_running s);
  wo_digests : sw_journaling s = true ->
    zlen (sj_chunk_digests (sw_journal s)) = sj_verified_chunks (sw_journal s) /\
    forall i, 0 <= i < sj_verified_chunks (sw_journal s) ->
      nth (Z.to_nat i) (sj_chunk_digests (sw_journal s)) [] = digest_at (sj_object (sw_journal s)) file i }.

Definition writer_inv (d : Disk) (s : StagingWriter) : Prop :=
  exists file, staging_file d (sj_movement_id (sw_journal s)) = Some file /\ writer_on file s.

Lemma writer_inv_same d d' s : same_data d d' -> writer_inv d s -> writer_inv d' s.
Proof. intros H (file & Hf & Hw). exists file. by rewrite H. Qed.

Lemma write_at_prefix file off data n : (n <= off)%nat -> (off <= length file)%nat ->
  take n (write_at file off data) = take n file.
Proof.
  intros Hn Ho. unfold write_at. rewrite take_app_le by (rewrite length_take; lia).
  rewrite take_take. f_equal. lia.
Qed.

Lemma write_at_full file off data : (off <= length file)%nat ->
  take (off + length data) (write_at file off data) = take off file ++ data.
Proof.
  intros Ho. unfold write_at. rewrite app_assoc.
  assert (length (take off file ++ data) = off + length data)%nat as <-
    by (rewrite length_app, length_take; lia).
  apply take_app_exact.
Qed.

Lemma write_at_length file off data : (off <= length file)%nat ->
  length (write_at file off data) = Nat.max (length file) (off + length data).
Proof.
  intros Ho. unfold write_at. rewrite !length_app, length_take, length_drop. lia.
Qed.

(** Chunks of the prefix do not see a write behind it. *)
Lemma chunk_slice_prefix o file file' n i : descriptor_ok o -> 0 <= i < n -> n <= d_chunk_count o ->
  take (Z.to_nat (prefix_bytes o n)) file' = take (Z.to_nat (prefix_bytes o n)) file ->
  chunk_slice o file' i = chunk_slice o file i.
Proof.
  intros Ho Hi Hn Ht. unfold chunk_slice.
  destruct (plan_length_pos o i Ho ltac:(lia)) as [Hp He].
  assert (i * d_chunk_bytes o + plan_length o i <= prefix_bytes o n) as Hle.
  { rewrite He. unfold prefix_bytes. destruct Ho as [_ []]. nia. }
  assert (0 <= i * d_chunk_bytes o) as H0 by (destruct Ho as [_ []]; nia).
  assert (forall f : bytes, take (Z.to_nat (plan_length o i)) (drop (Z.to_nat (i * d_chunk_bytes o)) f) =
    drop (Z.to_nat (i * d_chunk_bytes o))
      (take (Z.to_nat (i * d_chunk_bytes o + plan_length o i)) (take (Z.to_nat (prefix_bytes o n)) f))) as Hs.
  { intros f. rewrite take_take, Nat.min_l by lia. rewrite take_drop_commute. do 2 f_equal. lia. }
  by rewrite !Hs, Ht.
Qed.

Lemma prefix_next o n : descriptor_ok o -> 0 <= n < d_chunk_count o ->
  prefix_bytes o n = n * d_chunk_bytes o /\ prefix_bytes o (n + 1) = prefix_bytes o n + plan_length o n /\
  prefix_bytes o (n + 1) <= d_total_bytes o.
Proof.
  intros Ho Hn. destruct (plan_length_pos o n Ho Hn) as [Hp He].
  pose proof (chunk_count_spec o Ho) as (_ & _ & _ & Hlast).
  unfold prefix_bytes in *. destruct Ho as [_ []]. nia.
Qed.

(** What the checks of [append] establish. *)
Lemma append_checks_Ok s i off p g len file : writer_on file s -> 0 <= i ->
  append_checks s i off p g = Ok len ->
  let o := sj_object (sw_journal s) in
  sw_open s = true /\ i < d_chunk_count o /\ off = i * d_chunk_bytes o /\ len = plan_length o i /\
  zlen p = len /\ g = compute_chunk_digest (d_object_id o) (d_generation o) i off len p.
Proof.
  intros Hw Hi. unfold append_checks. set (o := sj_object (sw_journal s)). intros H.
  destruct (negb (sw_open s)) eqn:Eo; [done|]. destruct (sw_finalized s); [done|].
  destruct (d_chunk_count o <=? i) eqn:Ei; [done|]. b2p. pose proof (wo_obj file s Hw) as Ho. fold o in Ho.
  rewrite chunk_offset_spec, (proj2 (Z.ltb_lt _ _)) in H by done. cbn [rbind] in H.
  destruct (negb (off =? _)) eqn:Ef; [done|]. b2p.
  rewrite chunk_length_spec, (proj2 (Z.ltb_lt _ _)) in H by done. cbn [rbind] in H.
  destruct (negb (zlen p =? _)) eqn:El; [done|]. destruct (negb (bytes_eqb _ _)) eqn:Eg; [done|]. b2p.
  injection H as <-. split_and!; done.
Qed.

Lemma write_at_nil file off : write_at file off [] = file.
Proof. unfold write_at. cbn [app length]. by rewrite Nat.add_0_r, take_drop. Qed.

Lemma write_staging_cases id off data w file : staging_file (w_disk w) id = Some file ->
  exists w' r n, write_staging id off data w = (w', r) /\ (r = Ok tt -> n = length data) /\
    staging_file (w_disk w') id = Some (write_at file (Z.to_nat off) (take n data)).
Proof.
  intros Hf. unfold write_staging. destruct (pop_outcome_disk w) as (o & w1 & -> & Hd).
  rewrite Hd, Hf. cbn [default]. destruct o as [| |n].
  - eexists _, _, (length data). split; [done|]. split; [done|]. cbn [w_disk].
    rewrite staging_file_update, decide_True by done. by rewrite firstn_all.
  - eexists _, _, 0%nat. split; [done|]. split; [done|]. by rewrite Hd, Hf, write_at_nil.
  - eexists _, _, n. split; [done|]. split; [done|]. cbn [w_disk].
    by rewrite staging_file_update, decide_True by done.
Qed.

Section append.
Context (options : ObjectStoreOptions).

Lemma append_write_cases s off p w file :
  staging_file (w_disk w) (sj_movement_id (sw_journal s)) = Some file ->
  exists w' r n, append_write options s off p w = (w', r) /\ (r = Ok tt -> n = length p) /\
    staging_file (w_disk w') (sj_movement_id (sw_journal s)) =
      Some (write_at file (Z.to_nat off) (take n p)).
Proof.
  intros Hf. unfold append_write, io_bind.
  destruct (write_staging_cases _ off p w file Hf) as (w1 & r1 & n & -> & Hn & H1).
  destruct r1 as [[]|e]; [|by exists w1, (Err e), n].
  destruct (os_sync_on_write options); [|by exists w1, (Ok tt), n].
  destruct (file_sync_cases w1)
    as [(w2 & -> & Hd)|(w2 & e & -> & Hd)]; eexists w2, _, n; rewrite Hd; (split; [reflexivity|]); auto.
Qed.

(** A write behind the prefix, however much of it happened. *)
Lemma writer_on_write s file p n off :
  writer_on file s -> let o := sj_object (sw_journal s) in let vc := sj_verified_chunks (sw_journal s) in
  vc < d_chunk_count o -> off = vc * d_chunk_bytes o -> zlen p = plan_length o vc ->
  writer_on (write_at file (Z.to_nat off) (take n p)) s.
Proof.
  intros Hw o vc Hvc -> Hp. pose proof Hw as [Ho Hc Hb Hl Hh Hd]. fold o vc in Ho, Hc, Hb, Hl, Hh, Hd.
  destruct (prefix_next o vc Ho ltac:(lia)) as (E1 & E2 & E3).
  rewrite Hb in *. rewrite <- E1. unfold zlen in *.
  assert (0 <= prefix_bytes o vc) as H0 by (rewrite E1; destruct Ho as [_ []]; nia).
  assert (take (Z.to_nat (prefix_bytes o vc)) (write_at file (Z.to_nat (prefix_bytes o vc)) (take n p))
          = take (Z.to_nat (prefix_bytes o vc)) file) as Ht by (apply write_at_prefix; lia).
  constructor; fold o vc; rewrite ?Hb; [exact Ho|exact Hc|reflexivity| | |].
  - unfold zlen. rewrite write_at_length, length_take by lia. lia.
  - rewrite Ht. exact Hh.
  - intros Hj. destruct (Hd Hj) as [Hn Hx]. split; [exact Hn|]. intros i Hi. rewrite Hx by exact Hi.
    unfold digest_at. rewrite (chunk_slice_prefix o file _ vc i Ho Hi ltac:(lia) Ht). reflexivity.
Qed.

Lemma hashed_snoc o n file p h : descriptor_ok o -> 0 <= n < d_chunk_count o ->
  zlen p = plan_length o n -> prefix_bytes o n <= zlen file ->
  hashed (take (Z.to_nat (prefix_bytes o n)) file) h ->
  let file' := write_at file (Z.to_nat (prefix_bytes o n)) p in
  take (Z.to_nat (prefix_bytes o (n + 1))) file' = take (Z.to_nat (prefix_bytes o n)) file ++ p /\
  hashed (take (Z.to_nat (prefix_bytes o (n + 1))) file') (Sha256_update h p).
Proof.
  intros Ho Hn Hp Hl Hh file'. destruct (prefix_next o n Ho Hn) as (E1 & E2 & _).
  destruct (plan_length_pos o n Ho Hn) as [Hpos _]. unfold zlen in *.
  assert (0 <= prefix_bytes o n) by (rewrite E1; destruct Ho as [_ []]; nia).
  assert (Z.to_nat (prefix_bytes o (n + 1)) = Z.to_nat (prefix_bytes o n) + length p)%nat as -> by lia.
  assert (take (Z.to_nat (prefix_bytes o n) + length p) file'
          = take (Z.to_nat (prefix_bytes o n)) file ++ p) as Et by (apply write_at_full; lia).
  split; [done|]. rewrite Et. by apply hashed_update.
Qed.

(** The state after the next chunk was written in full. *)
Lemma writer_on_next s file p g :
  let o := sj_object (sw_journal s) in let vc := sj_verified_chunks (sw_journal s) in
  writer_on file s -> vc < d_chunk_count o -> zlen p = plan_length o vc ->
  g = compute_chunk_digest (d_object_id o) (d_generation o) vc (vc * d_chunk_bytes o) (plan_length o vc) p ->
  let file' := write_at file (Z.to_nat (vc * d_chunk_bytes o)) p in
  let s' := with_journal s (journal_next s (plan_length o vc) g) (Sha256_update (sw_running s) p) in
  writer_on file' s' /\
  sj_verified_chunks (sw_journal s') = vc + 1 /\
  take (Z.to_nat (sj_verified_bytes (sw_journal s'))) file' =
    take (Z.to_nat (sj_verified_bytes (sw_journal s))) file ++ p.
Proof.
  intros o vc Hw Hvc Hp Hg file' s'. pose proof Hw as [Ho Hc Hb Hl Hh Hd]. fold o vc in Ho, Hc, Hb, Hl, Hh, Hd.
  destruct (prefix_next o vc Ho ltac:(lia)) as (E1 & E2 & E3).
  destruct (descriptor_range_count o Ho) as (Ht & _ & Hcount).
  rewrite Hb in *. destruct (hashed_snoc o vc file p _ Ho ltac:(lia) Hp ltac:(lia) Hh) as [Hs1 Hs2].
  assert (file' = write_at file (Z.to_nat (prefix_bytes o vc)) p) as Ef by (unfold file'; by rewrite E1).
  clearbody file'. rewrite <- Ef in Hs1, Hs2.
  assert (0 <= prefix_bytes o vc) as H0 by (rewrite E1; destruct Ho as [_ []]; nia).
  destruct (plan_length_pos o vc Ho ltac:(lia)) as [Hpos _].
  assert (wrap 32 (vc + 1) = vc + 1) as Ew by (apply wrap_small; unfold in_u in *; lia).
  assert (wrap 64 (prefix_bytes o vc + plan_length o vc) = prefix_bytes o (vc + 1)) as Ew2.
  { rewrite E2. apply wrap_small. unfold in_u in *. lia. }
  unfold s'. cbn [with_journal sw_journal journal_next sj_object sj_verified_chunks sj_verified_bytes
    sj_chunk_digests sw_running sw_journaling]. fold o vc. rewrite Hb, Ew, Ew2.
  split; [|split; [reflexivity|exact Hs1]].
  constructor; cbn [sw_journal sw_running sw_journaling with_journal journal_next sj_object
    sj_verified_chunks sj_verified_bytes sj_chunk_digests]; fold o vc; rewrite ?Hb, ?Ew, ?Ew2; [exact Ho|lia|reflexivity| |exact Hs2|].
  - unfold zlen in *. rewrite Ef, write_at_length by lia. lia.
  - intros Hj. rewrite Hj. destruct (Hd Hj) as [Hn Hx]. unfold zlen in *. rewrite length_app. cbn [length].
    split; [lia|]. intros i Hi. destruct (decide (i = vc)) as [->|Hne].
    + rewrite app_nth2 by lia.
      replace (Z.to_nat vc - length (sj_chunk_digests (sw_journal s)))%nat with 0%nat by lia. cbn [nth].
      rewrite Hg. unfold digest_at, chunk_slice.
      assert (drop (Z.to_nat (vc * d_chunk_bytes o)) file' =
              p ++ drop (Z.to_nat (vc * d_chunk_bytes o) + length p) file) as ->.
      { rewrite Ef. unfold write_at. rewrite <- E1.
        assert (length (take (Z.to_nat (prefix_bytes o vc)) file) = Z.to_nat (prefix_bytes o vc)) as El
          by (rewrite length_take; lia). rewrite <- El at 1. by rewrite drop_app_exact. }
      assert (Z.to_nat (plan_length o vc) = length p) as -> by lia. by rewrite take_app_exact.
    + rewrite app_nth1 by lia. rewrite Hx by lia.
      unfold digest_at. rewrite (chunk_slice_prefix o file file' vc i Ho); [reflexivity|lia|lia|].
      rewrite Ef. apply write_at_prefix; lia.
Qed.
End append.

(** ** Appending and finishing *)

Section append_step.
Context (options : ObjectStoreOptions).

Lemma append_duplicate_Ok s i off len g w w' st :
  append_duplicate s i off len g w = (w', Ok st) ->
  w_disk w' = w_disk w /\ st = resume_state (sw_journal s).
Proof.
  intros H. unfold append_duplicate in H.
  assert (Hk : keeps eq (append_duplicate s i off len g)).
  { unfold append_duplicate. keeps_tac; done. }
  split; [symmetry; eapply Hk; exact H|]. repeat iostep H. done.
Qed.

Lemma append_duplicate_disk s i off len g w w' r :
  append_duplicate s i off len g w = (w', r) -> w_disk w' = w_disk w.
Proof.
  intros H. assert (Hk : keeps eq (append_duplicate s i off len g)).
  { unfold append_duplicate. keeps_tac; done. }
  symmetry. eapply Hk; exact H.
Qed.

(** The effect of one [append], whatever the outcomes of the file operations. *)
Lemma append_effect s i off p g w w' s' r : writer_inv (w_disk w) s -> 0 <= i ->
  append options s i off p g w = (w', s', r) ->
  writer_inv (w_disk w') s' /\ sj_movement_id (sw_journal s') = sj_movement_id (sw_journal s) /\
  sj_object (sw_journal s') = sj_object (sw_journal s) /\ sw_open s' = sw_open s /\
  ((s' = s /\ (is_ok r = true -> i < sj_verified_chunks (sw_journal s))) \/
   (i = sj_verified_chunks (sw_journal s) /\
    sj_verified_chunks (sw_journal s') = sj_verified_chunks (sw_journal s) + 1 /\
    exists file file', staging_file (w_disk w) (sj_movement_id (sw_journal s)) = Some file /\
      staging_file (w_disk w') (sj_movement_id (sw_journal s)) = Some file' /\
      take (Z.to_nat (sj_verified_bytes (sw_journal s'))) file' =
        take (Z.to_nat (sj_verified_bytes (sw_journal s))) file ++ p)).
Proof.
  intros (file & Hf & Hw) Hi. unfold append.
  destruct (append_checks s i off p g) as [len|e] eqn:Ec.
  2:{ intros [= <- <- <-]. split; [by exists file|]. split_and!; try done. by left. }
  destruct (append_checks_Ok s i off p g len file Hw Hi Ec) as (_ & Hic & Hoff & Hlen & Hp & Hg).
  destruct (Z.ltb_spec i (sj_verified_chunks (sw_journal s))) as [Hlt|Hge].
  { destruct (append_duplicate s i off len g w) as [w1 r1] eqn:Ed. intros [= <- <- <-].
    rewrite (append_duplicate_disk _ _ _ _ _ _ _ _ Ed).
    split; [by exists file|]. split_and!; try done. by left. }
  destruct (Z.eqb_spec i (sj_verified_chunks (sw_journal s))) as [Heq|Hne]; cbn [negb].
  2:{ intros [= <- <- <-]. split; [by exists file|]. split_and!; try done. by left. }
  rewrite Heq in *. rewrite Hlen in Hp. subst len off.
  destruct (append_write_cases options s (sj_verified_chunks (sw_journal s) *
    d_chunk_bytes (sj_object (sw_journal s))) p w file Hf) as (w1 & r1 & n & Ew & Hn & Hf1).
  rewrite Ew. destruct r1 as [[]|e].
  2:{ intros [= <- <- <-]. split; [|split_and!; try done; by left].
      eexists. split; [exact Hf1|]. by apply writer_on_write. }
  rewrite (Hn eq_refl), firstn_all in Hf1.
  destruct (writer_on_next s file p g Hw Hic Hp Hg) as (Hw' & Hc' & Hb').
  set (s2 := with_journal s _ _) in *. set (j2 := journal_next s _ g) in *.
  assert (Hgoal : forall w2 (r3 : Result ResumeState),
    same_data (w_disk w1) (w_disk w2) -> (w2, s2, r3) = (w', s', r) ->
    writer_inv (w_disk w') s' /\ sj_movement_id (sw_journal s') = sj_movement_id (sw_journal s) /\
    sj_object (sw_journal s') = sj_object (sw_journal s) /\ sw_open s' = sw_open s /\
    ((s' = s /\ (is_ok r = true ->
        sj_verified_chunks (sw_journal s) < sj_verified_chunks (sw_journal s))) \/
     (sj_verified_chunks (sw_journal s) = sj_verified_chunks (sw_journal s) /\
      sj_verified_chunks (sw_journal s') = sj_verified_chunks (sw_journal s) + 1 /\
      exists file file', staging_file (w_disk w) (sj_movement_id (sw_journal s)) = Some file /\
        staging_file (w_disk w') (sj_movement_id (sw_journal s)) = Some file' /\
        take (Z.to_nat (sj_verified_bytes (sw_journal s'))) file' =
          take (Z.to_nat (sj_verified_bytes (sw_journal s))) file ++ p))).
  { intros w2 r3 Hsame [= <- <- <-].
    assert (staging_file (w_disk w2) (sj_movement_id (sw_journal s)) =
      Some (write_at file (Z.to_nat (sj_verified_chunks (sw_journal s) *
        d_chunk_bytes (sj_object (sw_journal s)))) p)) as Hf2 by (rewrite Hsame; exact Hf1).
    split; [eexists; split; [exact Hf2|exact Hw']|]. split_and!; try done. right.
    split_and!; [done|exact Hc'|]. eexists _, _. split; [exact Hf|]. split; [exact Hf2|exact Hb']. }
  intros H. destruct ((if sw_journaling s2 then save_journal options j2 else io_ret tt) w1)
    as [w2 r2] eqn:Es.
  assert (same_data (w_disk w1) (w_disk w2)) as Hsame.
  { destruct (sw_journaling s2); [by eapply save_journal_same_data|by injection Es as <- <-]. }
  destruct r2 as [[]|e]; exact (Hgoal w2 _ Hsame H).
Qed.

Lemma finish_effect s w w' s' dg : writer_inv (w_disk w) s -> finish s w = (w', s', Ok dg) ->
  w_disk w' = w_disk w /\ sw_completed s' = true /\ sw_open s' = false /\ sw_journal s' = sw_journal s /\
  exists file, staging_file (w_disk w) (sj_movement_id (sw_journal s)) = Some file /\
    zlen file = d_total_bytes (sj_object (sw_journal s)) /\ dg = sha256 file /\
    sj_verified_chunks (sw_journal s) = d_chunk_count (sj_object (sw_journal s)).
Proof.
  intros (file & Hf & [Ho Hc Hb Hl Hh _]). unfold finish.
  destruct (negb (sw_open s)); [done|].
  destruct (negb (_ =? _) || negb (_ =? _)) eqn:E; [done|]. b2p.
  destruct (file_sync_cases w) as [(w1 & -> & Hd)|(w1 & e & -> & Hd)]; [|done].
  intros Hres. apply pair_equal_spec in Hres as [Hres Hdg]. apply pair_equal_spec in Hres as [<- <-].
  split; [done|]. split; [done|]. split; [done|]. split; [done|]. exists file.
  assert (take (Z.to_nat (sj_verified_bytes (sw_journal s))) file = file) as Ht.
  { apply take_ge. unfold zlen in *. lia. }
  rewrite Ht in Hh. split; [done|]. split; [lia|]. split; [|done].
  assert (Ok dg = Ok (Sha256_finalize (sw_running s))) as Hdg2 by (by symmetry).
  injection Hdg2 as ->. rewrite sha256_is_spec. by apply finalize_hashed.
Qed.
End append_step.

(** ** Files that start with a domain *)

Lemma domain_codec {A} lim (enc : A -> bytes) (dec : Dec A) ok domain c what `{!Roomy lim} :
  Codec lim enc dec ok -> text_ok kMaxTextBytes domain ->
  Codec lim (fun x => enc_text domain ++ enc x) (dec_domain domain c what dec) ok.
Proof.
  intros Hc Hd. split.
  - intros x Hx. unfold dec_domain. eapply reads_bind; [by apply codec_reads|]. cbv beta.
    eapply reads_bind_nil; [apply reads_reject; by rewrite bytes_eqb_refl|]. cbv beta.
    by apply codec_reads.
  - intros d x d' Hl H. unfold dec_domain in H. repeat dstep H. dfacts. b2p. subst. dcanon.
    split; [done|solve_consumed].
Qed.

#[global] Instance journal_file_codec : Codec default_limits journal_contents
  (dec_domain kJournalDomain RC.STORE_CORRUPT "staging journal domain does not match" StagingJournal_decode)
  journal_ok.
Proof. apply domain_codec; [apply _|apply _|]. split; vm_compute; congruence. Qed.

Lemma marker_file_codec c what : Codec default_limits marker_contents
  (dec_domain kMarkerDomain c what CommitMarker_decode) marker_ok.
Proof. apply domain_codec; [apply _|apply _|]. split; vm_compute; congruence. Qed.

Arguments marker_file_codec _ _%_string_scope.

Lemma parse_journal_Ok buffer j : zlen buffer <= 2 ^ 23 -> parse_journal buffer = Ok j ->
  journal_ok j /\ buffer = journal_contents j.
Proof. intros Hl. by apply (decode_all_canonical _ _ _ journal_ok). Qed.

Lemma parse_marker_Ok buffer m : zlen buffer <= 2 ^ 23 -> parse_marker buffer = Ok m ->
  marker_ok m /\ buffer = marker_contents m.
Proof.
  intros Hl. pose proof (marker_file_codec RC.COMMIT_MARKER_INVALID "commit marker domain does not match").
  by apply (decode_all_canonical _ _ _ marker_ok).
Qed.

Lemma read_file_Ok file off n w w' buf : read_file file off n w = (w', Ok buf) ->
  w_disk w' = w_disk w /\ exists k, buf = take k (take n (drop off file)).
Proof.
  unfold read_file. destruct (pop_outcome_disk w) as (o & w1 & -> & Hd). destruct o as [| |k].
  - intros [= <- <-]. split; [done|]. exists n. rewrite take_take. f_equal. lia.
  - done.
  - intros [= <- <-]. split; [done|]. by exists k.
Qed.

(** A read that returned all it was asked for. *)
Lemma read_file_full file off n w w' buf : read_file file off n w = (w', Ok buf) ->
  length buf = n -> w_disk w' = w_disk w /\ buf = take n (drop off file) /\ (off + n <= length file \/ n = 0)%nat.
Proof.
  intros H Hl. apply read_file_Ok in H as [Hd [k ->]]. split; [done|].
  rewrite !length_take, length_drop in Hl. rewrite take_take. split; [f_equal; lia|lia].
Qed.

Lemma read_whole file w w' buf : read_file file 0 (length file) w = (w', Ok buf) ->
  zlen buf = zlen file -> w_disk w' = w_disk w /\ buf = file.
Proof.
  intros H Hl. apply read_file_full in H as (Hd & -> & _); [|unfold zlen in Hl; lia].
  split; [done|]. rewrite drop_0. by rewrite firstn_all.
Qed.

Lemma load_journal_Ok o id w w' j : load_journal o id w = (w', Ok j) ->
  w_disk w' = w_disk w /\ sj_movement_id j = id /\
  exists file, journal_file (w_disk w) id = Some file /\ parse_journal file = Ok j /\ journal_ok j.
Proof.
  intros H. unfold load_journal in H. iostep H. iofacts.
  destruct (journal_file (w_disk w) id) as [file|] eqn:Ef; [|done].
  repeat iostep H. iofacts. b2p. unfold open_read, size_of in *. repeat iostep E. iofacts.
  repeat match goal with E : _ |- _ => iostep E end. iofacts.
  match goal with E : read_file _ _ _ _ = _ |- _ => apply read_whole in E as [Hd ->]; [|done] end.
  match goal with E : parse_journal _ = Ok _ |- _ => pose proof E as Ep end.
  apply parse_journal_Ok in Ep as [Hok _]; [|unfold zlen in *; lia].
  split; [congruence|]. split; [done|]. by exists file.
Qed.

(** ** Beginning and resuming *)

Lemma rehash_loop_Ok n : forall file o digests i off running w w' h, descriptor_ok o ->
  0 <= i -> i + Z.of_nat n <= d_chunk_count o -> off = prefix_bytes o i ->
  hashed (take (Z.to_nat off) file) running ->
  rehash_loop n file o digests i off running w = (w', Ok h) ->
  w_disk w' = w_disk w /\ hashed (take (Z.to_nat (prefix_bytes o (i + Z.of_nat n))) file) h /\
  forall k, i <= k < i + Z.of_nat n -> nth (Z.to_nat k) digests [] = digest_at o file k.
Proof.
  induction n as [|n IH]; intros file o digests i off running w w' h Ho Hi Hn -> Hh H;
    cbn [rehash_loop] in H.
  { apply io_ret_Ok in H as [-> ->]. split; [done|]. rewrite Z.add_0_r. split; [done|]. lia. }
  destruct (prefix_next o i Ho ltac:(lia)) as (E1 & E2 & E3).
  destruct (plan_length_pos o i Ho ltac:(lia)) as [Hpos _].
  destruct (descriptor_range_count o Ho) as (Ht & _ & _). unfold in_u in Ht.
  assert (0 <= prefix_bytes o i) as H0 by (rewrite E1; destruct Ho as [_ []]; nia).
  rewrite chunk_length_spec, (proj2 (Z.ltb_lt _ _)) in H by (done || lia).
  iostep H. iofacts. injection H1 as <-. repeat (iostep H; []). iofacts. b2p.
  match goal with E : read_file _ _ _ _ = _ |- _ =>
    apply read_file_full in E as (Hd & -> & Hle); [|unfold zlen in *; lia] end.
  assert (drop (Z.to_nat (prefix_bytes o i)) file = drop (Z.to_nat (i * d_chunk_bytes o)) file) as Ed
    by (by rewrite E1).
  rewrite wrap_small in H by (unfold in_u; lia).
  assert (take (Z.to_nat (prefix_bytes o (i + 1))) file =
          take (Z.to_nat (prefix_bytes o i)) file ++ chunk_slice o file i) as Etake.
  { unfold chunk_slice. rewrite <- Ed.
    replace (Z.to_nat (prefix_bytes o (i + 1)))
      with (Z.to_nat (prefix_bytes o i) + Z.to_nat (plan_length o i))%nat by lia.
    by rewrite take_take_drop. }
  apply IH in H as (Hd2 & Hh2 & Hx); [|done|lia|lia|lia|].
  2:{ replace (prefix_bytes o i + plan_length o i) with (prefix_bytes o (i + 1)) by lia.
      rewrite Etake. unfold chunk_slice. rewrite Ed. by apply hashed_update. }
  split; [congruence|]. split.
  - replace (i + Z.of_nat (S n)) with (i + 1 + Z.of_nat n) by lia. exact Hh2.
  - intros k Hk. destruct (decide (k = i)) as [->|Hne]; [|apply Hx; lia].
    match goal with E : compute_chunk_digest _ _ _ _ _ _ = nth _ _ _ |- _ => rewrite <- E end.
    unfold digest_at, chunk_slice. rewrite Ed, E1. reflexivity.
Qed.

(** *** Isolation: a writer touches its own staging directory only *)

Definition only (id : bytes) (d d' : Disk) : Prop :=
  (forall i, i <> id -> dk_staging d' !! i = dk_staging d !! i) /\ dk_objects d' = dk_objects d /\
  dk_commits d' = dk_commits d /\ dk_quarantine d' = dk_quarantine d.
#[global] Instance only_preorder id : PreOrder (only id).
Proof.
  split; [by intros d|]. intros a b c (H1 & H2 & H3 & H4) (K1 & K2 & K3 & K4).
  split_and!; try congruence. intros i Hi. by rewrite K1, H1.
Qed.

Lemma only_update id f d : only id d (update_staging id f d).
Proof. split_and!; try done. intros i Hi. cbn. by rewrite lookup_insert_ne. Qed.

Lemma only_remove id d : only id d (remove_staging id d).
Proof. split_and!; try done. intros i Hi. cbn. by rewrite lookup_delete_ne. Qed.

Lemma only_files id d d' i : only id d d' -> i <> id ->
  staging_file d' i = staging_file d i /\ journal_file d' i = journal_file d i.
Proof. intros (H & _) Hi. unfold staging_file, journal_file. by rewrite H. Qed.

Lemma keeps_swallow {A} R `{!PreOrder R} (m : IO A) : keeps R m -> keeps R (fun w => ((m w).1, Ok tt)).
Proof. intros Hm w w' r [= <- <-]. destruct (m w) as [w1 r1] eqn:E. by eapply Hm. Qed.

Lemma keeps_size R `{!PreOrder R} file : keeps R (size_of file).
Proof. unfold size_of. keeps_tac. reflexivity. Qed.

Lemma keeps_open R `{!PreOrder R} p file : keeps R (open_read p file).
Proof. unfold open_read. keeps_tac. reflexivity. Qed.

Lemma keeps_write id off data : keeps (only id) (write_staging id off data).
Proof.
  intros w w' r H. unfold write_staging in H. destruct (pop_outcome_disk w) as (o & w1 & E & Hd).
  rewrite E in H. destruct o; injection H as <- <-; cbn [w_disk]; rewrite Hd;
    [apply only_update|reflexivity|apply only_update].
Qed.

Lemma load_journal_disk o id w w' r : load_journal o id w = (w', r) -> w_disk w' = w_disk w.
Proof.
  intros H. symmetry. revert H. assert (Hk : keeps eq (load_journal o id)); [|apply Hk].
  unfold load_journal. apply keeps_bind; [apply _|by keeps_tac|]. intros d.
  destruct (journal_file d id); [|by keeps_tac].
  repeat (apply keeps_bind; [apply _| |intros ?]); try (apply keeps_open; apply _);
    try (apply keeps_size; apply _); by keeps_tac.
Qed.

Lemma save_journal_only o j : keeps (only (sj_movement_id j)) (save_journal o j).
Proof.
  unfold save_journal, atomic_replace. keeps_tac; intros d; try reflexivity; apply only_update.
Qed.

Lemma resumable_disk o id obj jn w w' r : resumable o id obj jn w = (w', r) -> w_disk w' = w_disk w.
Proof.
  unfold resumable. destruct (negb jn); [by intros [= <- <-]|].
  destruct (load_journal o id w) as [w1 [j|e]] eqn:E; intros [= <- <-];
    by apply load_journal_disk in E.
Qed.

Lemma rehash_loop_disk n : forall file o digests i off running,
  keeps eq (rehash_loop n file o digests i off running).
Proof.
  induction n as [|n IH]; intros; cbn [rehash_loop]; [by keeps_tac|].
  repeat (apply keeps_bind; [apply _| |intros ?]); try (by keeps_tac).
Qed.

Lemma eq_keeps {A} R `{!PreOrder R} (m : IO A) : keeps eq m -> keeps R m.
Proof. intros H w w' r E. by rewrite (H w w' r E). Qed.

Lemma begin_only o id gen att obj : keeps (only id) (begin o id gen att obj).
Proof.
  unfold begin. apply keeps_bind; [apply _|by keeps_tac|]. intros _.
  apply keeps_bind; [apply _|keeps_tac; intros; apply only_update|]. intros _.
  apply keeps_bind; [apply _|intros w w' r H; by rewrite (resumable_disk _ _ _ _ _ _ _ H)|].
  intros [stored|].
  - repeat (apply keeps_bind; [apply _| |intros ?]); try (keeps_tac; intros; first [reflexivity|apply only_update]).
    + intros w w' r H. destruct (size_of _ w) as [w1 [n|e]] eqn:E; injection H as <- <-;
        by eapply (keeps_size (only id)).
    + apply eq_keeps; [apply _|]. apply rehash_loop_disk.
  - apply keeps_bind; [apply _| |intros _].
    { unfold discard_staging. keeps_tac. intros. apply only_remove. }
    apply keeps_bind; [apply _|apply keeps_swallow; [apply _|]; keeps_tac; intros; apply only_update|].
    intros _. repeat (apply keeps_bind; [apply _| |intros ?]);
      try (keeps_tac; intros; first [reflexivity|apply only_update]).
Qed.

Lemma append_only o s i off p g w w' s' r : append o s i off p g w = (w', s', r) ->
  only (sj_movement_id (sw_journal s)) (w_disk w) (w_disk w').
Proof.
  unfold append. destruct (append_checks s i off p g) as [len|e]; [|by intros [= <- <- <-]].
  destruct (i <? _).
  { destruct (append_duplicate s i off len g w) as [w1 r1] eqn:E. intros [= <- <- <-].
    by rewrite (append_duplicate_disk _ _ _ _ _ _ _ _ E). }
  destruct (negb _); [by intros [= <- <- <-]|].
  destruct (append_write o s off p w) as [w1 r1] eqn:E.
  assert (only (sj_movement_id (sw_journal s)) (w_disk w) (w_disk w1)) as H1.
  { revert E. assert (Hk : keeps (only (sj_movement_id (sw_journal s))) (append_write o s off p)); [|apply Hk].
    unfold append_write. apply keeps_bind; [apply _|apply keeps_write|]. intros _. keeps_tac. }
  destruct r1 as [[]|e]; [|by intros [= <- <- <-]].
  destruct ((if sw_journaling _ then _ else io_ret tt) w1) as [w2 r2] eqn:E2.
  assert (only (sj_movement_id (sw_journal s)) (w_disk w1) (w_disk w2)) as H2.
  { destruct (sw_journaling _); [|by injection E2 as <- <-].
    by apply (save_journal_only o (journal_next s len g)) in E2. }
  destruct r2 as [[]|e]; intros [= <- <- <-]; by etrans.
Qed.

(** *** The journal on disk *)

Lemma journal_file_update id f d i : journal_file (update_staging id f d) i =
  if decide (i = id) then sd_journal (f (default empty_dir (dk_staging d !! id))) else journal_file d i.
Proof.
  unfold journal_file, update_staging. cbn [dk_staging]. destruct (decide (i = id)) as [->|Hne].
  - by rewrite lookup_insert_eq.
  - by rewrite lookup_insert_ne.
Qed.

(** Journals stay, except that the one of [id] may become [c]. *)
Definition journals_but (id c : bytes) (d d' : Disk) : Prop :=
  forall i, journal_file d' i = journal_file d i \/ (i = id /\ journal_file d' i = Some c).
#[global] Instance journals_but_preorder id c : PreOrder (journals_but id c).
Proof.
  split; [intros d i; by left|]. intros a b e H1 H2 i.
  destruct (H2 i) as [->|[-> ->]]; [apply H1|by right].
Qed.

Definition same_journals (d d' : Disk) : Prop := forall i, journal_file d' i = journal_file d i.
#[global] Instance same_journals_preorder : PreOrder same_journals.
Proof. split; [by intros d i|]. intros a b c H1 H2 i. by rewrite H2, H1. Qed.

Lemma update_same_journals id f d : (forall s, sd_journal (f s) = sd_journal s) ->
  same_journals d (update_staging id f d).
Proof.
  intros Hf i. rewrite journal_file_update. destruct (decide (i = id)) as [->|]; [|done].
  rewrite Hf. unfold journal_file. by destruct (dk_staging d !! id).
Qed.

Lemma save_journal_journals o j :
  keeps (journals_but (sj_movement_id j) (journal_contents j)) (save_journal o j).
Proof.
  unfold save_journal, atomic_replace. keeps_tac; intros d; try reflexivity.
  - intros i. left. by apply (update_same_journals _ (fun s => s)).
  - intros i. rewrite journal_file_update. destruct (decide (i = sj_movement_id j)); [by right|by left].
Qed.

Lemma append_write_journals o s off p : keeps same_journals (append_write o s off p).
Proof.
  unfold append_write. apply keeps_bind; [apply _| |intros _; keeps_tac; reflexivity].
  intros w w' r H. unfold write_staging in H. destruct (pop_outcome_disk w) as (oc & w1 & E & Hd).
  rewrite E in H. destruct oc; injection H as <- <-; cbn [w_disk]; rewrite Hd; try reflexivity;
    by apply update_same_journals.
Qed.

Lemma append_shape o s i off p g w w' s' r : append o s i off p g w = (w', s', r) ->
  (s' = s /\ same_journals (w_disk w) (w_disk w')) \/
  (exists len, append_checks s i off p g = Ok len /\ i = sj_verified_chunks (sw_journal s) /\
     s' = with_journal s (journal_next s len g) (Sha256_update (sw_running s) p) /\
     journals_but (sj_movement_id (sw_journal s)) (journal_contents (journal_next s len g))
       (w_disk w) (w_disk w') /\
     (sw_journaling s = false -> same_journals (w_disk w) (w_disk w'))).
Proof.
  unfold append. destruct (append_checks s i off p g) as [len|e]; [|intros [= <- <- <-]; by left].
  destruct (i <? _).
  { destruct (append_duplicate s i off len g w) as [w1 r1] eqn:E. intros [= <- <- <-]. left.
    by rewrite (append_duplicate_disk _ _ _ _ _ _ _ _ E). }
  destruct (Z.eqb_spec i (sj_verified_chunks (sw_journal s))) as [Heq|]; cbn [negb];
    [|intros [= <- <- <-]; by left].
  destruct (append_write o s off p w) as [w1 r1] eqn:E. pose proof (append_write_journals _ _ _ _ _ _ _ E) as H1.
  destruct r1 as [[]|e]; [|intros [= <- <- <-]; by left].
  set (s2 := with_journal _ _ _). set (j2 := journal_next _ _ _).
  destruct ((if sw_journaling s2 then save_journal o j2 else io_ret tt) w1) as [w2 r2] eqn:E2.
  intros H. right. exists len. split; [done|]. split; [done|].
  assert (s' = s2 /\ w' = w2) as [-> ->] by (destruct r2 as [[]|]; by injection H as <- <- <-).
  split; [done|]. change (sw_journaling s2) with (sw_journaling s) in E2. split.
  - intros k. destruct (sw_journaling s).
    + destruct (save_journal_journals o j2 w1 w2 r2 E2 k) as [->|]; [left; apply H1|by right].
    + injection E2 as <- <-. left. apply H1.
  - intros Hj k. rewrite Hj in E2. injection E2 as <- <-. apply H1.
Qed.

(** The staged bytes never exceed the object the journal beside them describes. *)
Definition lengths_ok (d : Disk) : Prop :=
  forall id file jb j, staging_file d id = Some file -> journal_file d id = Some jb ->
    zlen jb <= 2 ^ 23 -> parse_journal jb = Ok j -> zlen file <= d_total_bytes (sj_object j).

Record writer_ok (d : Disk) (s : StagingWriter) : Prop := {
  wk_inv : writer_inv d s;
  wk_lengths : lengths_ok d;
  wk_journal : sw_journaling s = true ->
    journal_ok (sw_journal s) /\ d_chunk_count (sj_object (sw_journal s)) <= kMaxResumeJournalChunks;
  wk_disk : forall jb j, journal_file d (sj_movement_id (sw_journal s)) = Some jb -> zlen jb <= 2 ^ 23 ->
    parse_journal jb = Ok j -> d_total_bytes (sj_object j) = d_total_bytes (sj_object (sw_journal s)) }.

Lemma parse_contents j j' : journal_ok j -> zlen (journal_contents j) <= 2 ^ 23 ->
  parse_journal (journal_contents j) = Ok j' -> j' = j.
Proof.
  intros Hj Hl H. pose proof (decode_all_encode default_limits journal_contents _ journal_ok j Hj Hl) as E.
  unfold parse_journal in H. rewrite E in H. by injection H as <-.
Qed.

Lemma writer_lengths d s i file jb j : writer_inv d s ->
  (forall jb j, journal_file d (sj_movement_id (sw_journal s)) = Some jb -> zlen jb <= 2 ^ 23 ->
     parse_journal jb = Ok j -> d_total_bytes (sj_object j) = d_total_bytes (sj_object (sw_journal s))) ->
  i = sj_movement_id (sw_journal s) -> staging_file d i = Some file -> journal_file d i = Some jb ->
  zlen jb <= 2 ^ 23 -> parse_journal jb = Ok j -> zlen file <= d_total_bytes (sj_object j).
Proof.
  intros (f & Hf & Hw) Hd -> Hfile Hjb Hl Hp. rewrite (Hd jb j Hjb Hl Hp).
  rewrite Hf in Hfile. injection Hfile as <-. apply (wo_len f s Hw).
Qed.

Lemma append_keeps_ok o s i off p g w w' s' r : writer_ok (w_disk w) s -> 0 <= i ->
  append o s i off p g w = (w', s', r) -> writer_ok (w_disk w') s'.
Proof.
  intros [Hinv Hlen Hj Hd] Hi H.
  destruct (append_effect o s i off p g w w' s' r Hinv Hi H) as (Hinv' & Hid & Hobj & _ & _).
  assert (Hj' : sw_journaling s' = true ->
    journal_ok (sw_journal s') /\ d_chunk_count (sj_object (sw_journal s')) <= kMaxResumeJournalChunks).
  { destruct (append_shape o s i off p g w w' s' r H) as [[-> _]|(len & Hc & -> & -> & _)]; [done|].
    intros Hjn. destruct (Hj Hjn) as [(J1 & J2 & J3 & J4 & J5 & J6 & J7 & J8 & J9 & J10 & J11) Jc].
    split; [|by rewrite Hobj].
    destruct Hinv' as (file' & _ & [Ho' Hc' Hb' _ _ Hdg']). destruct (Hdg' Hjn) as [Hdl _].
    destruct Hinv as (file & _ & Hw).
    apply (append_checks_Ok s _ off p g len file Hw Hi) in Hc as (_ & _ & _ & _ & _ & Hg).
    unfold journal_ok. split_and!; try done; try lia.
    - rewrite Hobj in Hc'. lia.
    - cbn [with_journal sw_journal journal_next sj_chunk_digests]. change (sw_journaling s = true) in Hjn. rewrite Hjn.
      apply Forall_app. split; [done|]. constructor; [|constructor]. rewrite Hg. apply length_sha256. }
  assert (Hd' : forall jb j, journal_file (w_disk w') (sj_movement_id (sw_journal s')) = Some jb ->
    zlen jb <= 2 ^ 23 -> parse_journal jb = Ok j ->
    d_total_bytes (sj_object j) = d_total_bytes (sj_object (sw_journal s'))).
  { rewrite Hid, Hobj. intros jb j Hjb Hl Hp.
    destruct (append_shape o s i off p g w w' s' r H) as [[-> Hs]|(len & Hc & -> & -> & Hs & Hs0)].
    - rewrite Hs in Hjb. eauto.
    - destruct (sw_journaling s) eqn:Ejn; [|rewrite (Hs0 eq_refl) in Hjb; eauto].
      destruct (Hs (sj_movement_id (sw_journal s))) as [E|[_ E]]; rewrite E in Hjb; [eauto|].
      injection Hjb as <-. destruct (Hj' Ejn) as [Hjo _].
      apply parse_contents in Hp as ->; [done|exact Hjo|done]. }
  constructor; try done. intros id file jb j Hf Hjb Hl Hp.
  destruct (decide (id = sj_movement_id (sw_journal s'))) as [E|Hne].
  - by eapply (writer_lengths (w_disk w') s' id).
  - rewrite Hid in Hne. destruct (only_files _ _ _ id (append_only _ _ _ _ _ _ _ _ _ _ H) Hne) as [E1 E2].
    rewrite E1 in Hf. rewrite E2 in Hjb. eapply Hlen; eauto.
Qed.

(** *** [begin] *)

Definition lens (d d' : Disk) : Prop := lengths_ok d -> lengths_ok d'.
#[global] Instance lens_preorder : PreOrder lens.
Proof. split; [by intros d H|]. intros a b c H1 H2 H. auto. Qed.

Lemma parsed_total jb j : zlen jb <= 2 ^ 23 -> parse_journal jb = Ok j -> 0 <= d_total_bytes (sj_object j).
Proof.
  intros Hl H. apply parse_journal_Ok in H as [(_ & _ & _ & _ & _ & [Hr _] & _) _]; [|done]. apply Hr.
Qed.

(** A change of one directory that keeps its journal and leaves data no longer
    than it was, or empty. *)
Lemma lens_update id f d : (forall s, sd_journal (f s) = sd_journal s) ->
  (forall s file, sd_data (f s) = Some file -> file = [] \/ sd_data s = Some file) ->
  lens d (update_staging id f d).
Proof.
  intros Hj Hf H i file jb j. rewrite staging_file_update.
  rewrite (update_same_journals id f d Hj i). destruct (decide (i = id)) as [->|Hne]; [|apply H].
  intros E Hjb Hl Hp. destruct (Hf _ _ E) as [->|E2].
  - exact (parsed_total jb j Hl Hp).
  - eapply H; [|exact Hjb|done|done]. unfold staging_file.
    destruct (dk_staging d !! id); [exact E2|done].
Qed.

Lemma lens_remove id d : lens d (remove_staging id d).
Proof.
  intros H i file jb j. unfold staging_file, journal_file, remove_staging. cbn [dk_staging].
  destruct (decide (i = id)) as [->|Hne]; [by rewrite lookup_delete_eq|].
  rewrite lookup_delete_ne by done. apply H.
Qed.

Lemma save_journal_lens o j w w' r : lengths_ok (w_disk w) -> journal_ok j ->
  staging_file (w_disk w) (sj_movement_id j) = Some [] -> save_journal o j w = (w', r) ->
  lengths_ok (w_disk w').
Proof.
  intros H Hj Hf E i file jb j' Hfile Hjb Hl Hp.
  rewrite (save_journal_same_data o j w w' r E i) in Hfile.
  destruct (save_journal_journals o j w w' r E i) as [E2|[-> E2]]; rewrite E2 in Hjb; [by eapply H|].
  injection Hjb as <-. rewrite Hf in Hfile. injection Hfile as <-.
  exact (parsed_total _ j' Hl Hp).
Qed.

Lemma begin_clean_lens o j journaling : (journaling = true -> journal_ok j) ->
  keeps lens (begin_clean o j journaling).
Proof.
  intros Hj. unfold begin_clean. apply keeps_bind; [apply _| |intros _].
  { keeps_tac. intros d. apply lens_update; [done|]. intros s file [= <-].
    destruct (sd_data s); [by right|by left]. }
  intros w w' r H. unfold io_bind at 1 in H.
  destruct (file_op_cases (update_staging (sj_movement_id j) (set_data [])) (io_error "truncate failed") w)
    as [(w1 & E & Hd)|(w1 & E & Hd)]; rewrite E in H; [|injection H as <- <-; by rewrite Hd].
  assert (lens (w_disk w) (w_disk w1)) as H1.
  { rewrite Hd. apply lens_update; [done|]. intros s file [= <-]. by left. }
  assert (staging_file (w_disk w1) (sj_movement_id j) = Some []) as Hf
    by (rewrite Hd, staging_file_update, decide_True by done; done).
  intros Hl. apply H1 in Hl. unfold io_bind in H.
  destruct journaling; [|by injection H as <- <-].
  destruct (save_journal o j w1) as [w2 r2] eqn:E2.
  assert (lengths_ok (w_disk w2)) by (eapply save_journal_lens; eauto).
  destruct r2 as [[]|]; by injection H as <- <-.
Qed.

Lemma begin_lens o id gen att obj : journal_ok (mkJournal id gen att obj 0 0 []) ->
  keeps lens (begin o id gen att obj).
Proof.
  intros Hj. unfold begin. apply keeps_bind; [apply _|by keeps_tac|]. intros _.
  apply keeps_bind; [apply _| |intros _].
  { keeps_tac. intros d. apply lens_update; [done|]. intros s file Hs. by right. }
  apply keeps_bind; [apply _|intros w w' r H; by rewrite (resumable_disk _ _ _ _ _ _ _ H)|].
  intros [stored|].
  - apply keeps_bind; [apply _| |intros _].
    { keeps_tac. intros d. apply lens_update; [done|]. intros s file [= <-].
      destruct (sd_data s); [by right|by left]. }
    repeat (apply keeps_bind; [apply _| |intros ?]); try (keeps_tac; intros; reflexivity).
    + intros w w' r H. destruct (size_of _ w) as [w1 [n|e]] eqn:E; injection H as <- <-;
        by eapply (keeps_size lens).
    + apply eq_keeps; [apply _|]. apply rehash_loop_disk.
  - apply keeps_bind; [apply _| |intros _].
    { unfold discard_staging. keeps_tac. intros d. apply lens_remove. }
    apply keeps_bind; [apply _| |intros _].
    { apply keeps_swallow; [apply _|]. keeps_tac. intros d. apply lens_update; [done|].
      intros s file Hs. by right. }
    apply (begin_clean_lens o (mkJournal id gen att obj 0 0 [])). done.
Qed.

Lemma same_version_spec a b : same_version a b = true <->
  d_object_id a = d_object_id b /\ d_generation a = d_generation b /\
  d_content_digest a = d_content_digest b /\ d_total_bytes a = d_total_bytes b /\
  d_chunk_bytes a = d_chunk_bytes b /\ d_chunk_count a = d_chunk_count b.
Proof.
  unfold same_version. rewrite !andb_true_iff, !bytes_eqb_eq, !Z.eqb_eq. tauto.
Qed.

Lemma same_version_plan a b : same_version a b = true ->
  (forall n, prefix_bytes a n = prefix_bytes b n) /\ (forall file i, digest_at a file i = digest_at b file i).
Proof.
  intros (H1 & H2 & _ & H4 & H5 & _)%same_version_spec.
  assert (forall i, plan_length a i = plan_length b i) as Hp by (intros i; unfold plan_length; by rewrite H4, H5).
  split.
  - intros n. unfold prefix_bytes. by rewrite H4, H5.
  - intros file i. unfold digest_at, chunk_slice. rewrite H1, H2, H5, Hp. reflexivity.
Qed.

Lemma resumable_Ok o id obj jn w w' stored : resumable o id obj jn w = (w', Ok (Some stored)) ->
  w_disk w' = w_disk w /\ jn = true /\ same_version obj (sj_object stored) = true /\
  0 < sj_verified_chunks stored /\ sj_movement_id stored = id /\
  exists jb, journal_file (w_disk w) id = Some jb /\ parse_journal jb = Ok stored /\ journal_ok stored.
Proof.
  unfold resumable. destruct jn; cbn [negb]; [|done].
  destruct (load_journal o id w) as [w1 [j|e]] eqn:E; [|done].
  destruct (is_ok _ && _) eqn:Ec; [|done]. intros [= <- <-]. b2p.
  apply load_journal_Ok in E as (Hd & Hid & jb & Hjb & Hp & Hok). split; [done|]. split; [done|].
  split; [|by split_and!; try done; exists jb].
  destruct (check_resume_compatible obj (sj_object j)) as [[]|] eqn:Ecr; [|done].
  by apply check_resume_compatible_spec.
Qed.

Lemma fresh_journal_ok id gen att obj : id_wf 16 id -> array_is_zero id = false -> in_u 64 gen -> gen <> 0 ->
  id_wf 16 att -> descriptor_ok obj -> journal_ok (mkJournal id gen att obj 0 0 []).
Proof.
  intros H1 H2 H3 H4 H5 H6. pose proof (chunk_count_spec obj H6) as (Hc & _).
  unfold journal_ok, kMaxResumeJournalChunks. cbn [sj_movement_id sj_movement_generation sj_attempt sj_object
    sj_verified_chunks sj_verified_bytes sj_chunk_digests]. split_and!; try done; try lia.
  unfold prefix_bytes. destruct H6 as [(_ & _ & ? & _) _]. lia.
Qed.

Lemma fresh_writer_on j jn : journal_ok j -> sj_verified_chunks j = 0 -> sj_chunk_digests j = [] ->
  writer_on [] (mkWriter j Sha256_reset jn true false false).
Proof.
  intros (_ & _ & _ & _ & _ & Ho & Hc & _ & _ & Hb & _) H0 Hd.
  assert (sj_verified_bytes j = 0) as Hb0.
  { rewrite Hb, H0. unfold prefix_bytes. destruct Ho as [(_ & _ & ? & _) _]. lia. }
  constructor; cbn [sw_journal sw_running sw_journaling]; try done.
  - rewrite Hb0. destruct Ho as [(_ & _ & ? & _) _]. split; [done|]. exact H.
  - rewrite Hb0. apply hashed_reset.
  - intros _. rewrite Hd, H0. split; [done|]. lia.
Qed.

Lemma begin_clean_Ok o j jn w w' s : journal_ok j -> sj_verified_chunks j = 0 -> sj_chunk_digests j = [] ->
  journal_file (w_disk w) (sj_movement_id j) = None -> begin_clean o j jn w = (w', Ok s) ->
  s = mkWriter j Sha256_reset jn true false false /\
  staging_file (w_disk w') (sj_movement_id j) = Some [] /\
  (forall jb, journal_file (w_disk w') (sj_movement_id j) = Some jb -> jb = journal_contents j).
Proof.
  intros Hj Hc Hdg Hnone H. unfold begin_clean in H. repeat (iostep H; []). iofacts.
  rename E into Ed1, E0 into Ed2, E1 into Es.
  assert (staging_file (w_disk w1) (sj_movement_id j) = Some []) as Hf
    by (rewrite Ed2, staging_file_update, decide_True by done; done).
  assert (journal_file (w_disk w1) (sj_movement_id j) = None) as Hn.
  { rewrite Ed2, Ed1, update_same_journals, update_same_journals by done. done. }
  split; [done|]. destruct jn.
  - rewrite (save_journal_same_data o j _ _ _ Es). split; [done|]. intros jb.
    destruct (save_journal_journals o j _ _ _ Es (sj_movement_id j)) as [->|[_ ->]]; [by rewrite Hn|congruence].
  - apply io_ret_Ok in Es as [_ ->]. split; [done|]. by rewrite Hn.
Qed.

Lemma size_of_or file w w' sz :
  match size_of file w with (w, Ok n) => (w, Ok n) | (w, Err _) => (w, Ok (-1)) end = (w', Ok sz) ->
  w_disk w' = w_disk w /\ (sz = zlen file \/ sz = -1).
Proof.
  intros H. destruct (size_of file w) as [w1 [n|e]] eqn:E.
  - injection H as <- <-. unfold size_of in E. repeat iostep E. iofacts. auto.
  - injection H as <- <-. split; [|by right]. symmetry. by eapply (keeps_size eq).
Qed.

Lemma begin_resumed_Ok o id obj j jn w w' s : descriptor_ok obj -> journal_ok j ->
  same_version obj (sj_object j) = true -> 0 < sj_verified_chunks j ->
  (forall file, staging_file (w_disk w) id = Some file -> zlen file <= d_total_bytes (sj_object j)) ->
  begin_resumed o id obj j jn w = (w', Ok s) ->
  exists h file, s = mkWriter j h jn true false false /\ staging_file (w_disk w') id = Some file /\
    writer_on file s /\ same_journals (w_disk w) (w_disk w').
Proof.
  intros Hobj Hj Hsv Hpos Hlen H. unfold begin_resumed in H. repeat (iostep H; []).
  match goal with E : io_disk _ = _ |- _ => apply io_disk_Ok in E as [-> ->] end.
  match goal with E : file_op (update_staging id open_data) _ _ = _ |- _ => apply file_op_Ok in E; rename E into Ed end.
  match goal with E : match size_of _ _ with _ => _ end = _ |- _ => apply size_of_or in E as [Hd1 Hsz] end.
  iofacts. b2p. rename w0 into w1.
  match goal with E : rehash_loop _ _ _ _ _ _ _ _ = _ |- _ => rename E into Er end.
  set (file := default [] (staging_file (w_disk w1) id)) in *.
  pose proof Hj as (J1 & _ & _ & _ & _ & Jo & Jc & Jd & _ & Jb & _).
  destruct (same_version_plan obj (sj_object j) Hsv) as [Hpre Hdig].
  pose proof (proj1 (same_version_spec _ _) Hsv) as (_ & _ & _ & Ht & _ & Hcount).
  assert (staging_file (w_disk w1) id = Some file) as Hf.
  { unfold file. rewrite Ed, staging_file_update, decide_True by done. done. }
  assert (zlen file <= d_total_bytes (sj_object j)) as Hle.
  { destruct (staging_file (w_disk w) id) as [f0|] eqn:E0.
    - assert (file = f0) as ->; [|by apply Hlen]. unfold file. rewrite Ed, staging_file_update, decide_True by done.
      unfold staging_file in E0. destruct (dk_staging (w_disk w) !! id) as [sd|]; [|done]. cbn in *. by rewrite E0.
    - assert (file = []) as ->; [|destruct Jo as [(_ & _ & ? & _) _]; done].
      unfold file. rewrite Ed, staging_file_update, decide_True by done.
      unfold staging_file in E0. destruct (dk_staging (w_disk w) !! id) as [sd|]; [|done]. cbn in *. by rewrite E0. }
  assert (0 < sj_verified_bytes j) as Hvb.
  { rewrite Jb. destruct (prefix_next (sj_object j) (sj_verified_chunks j - 1) Jo ltac:(lia)) as (E1 & E2 & _).
    destruct (plan_length_pos (sj_object j) (sj_verified_chunks j - 1) Jo ltac:(lia)) as [Hp _].
    replace (sj_verified_chunks j) with (sj_verified_chunks j - 1 + 1) by lia. rewrite E2, E1.
    destruct Jo as [_ []]. nia. }
  assert (sj_verified_bytes j <= zlen file) as Hge by (destruct Hsz as [->| ->]; lia).
  apply rehash_loop_Ok in Er as (Hd2 & Hh & Hx); [|done|lia|lia| |apply hashed_reset].
  2:{ unfold prefix_bytes. destruct Hobj as [(_ & _ & ? & _) _]. lia. }
  replace (0 + Z.of_nat (Z.to_nat (sj_verified_chunks j))) with (sj_verified_chunks j) in * by lia.
  eexists _, file. split; [reflexivity|]. split; [congruence|]. split.
  - constructor; cbn [sw_journal sw_running sw_journaling]; try done.
    + rewrite Jb, <- Hpre. exact Hh.
    + intros _. split; [done|]. intros i Hi. rewrite Hx by lia. apply Hdig.
  - intros i. rewrite Hd2. match goal with Hq : w_disk _ = w_disk _ |- _ => rewrite Hq end. rewrite Hd1, Ed.
    by apply update_same_journals.
Qed.

Lemma discard_staging_Ok id w w' n : discard_staging id w = (w', Ok n) ->
  w_disk w' = remove_staging id (w_disk w).
Proof. intros H. unfold discard_staging in H. repeat (iostep H; []). iofacts. done. Qed.

Lemma begin_ok o id gen att obj w w' s : lengths_ok (w_disk w) ->
  id_wf 16 id -> array_is_zero id = false -> in_u 64 gen -> gen <> 0 -> id_wf 16 att ->
  descriptor_ok obj -> begin o id gen att obj w = (w', Ok s) ->
  writer_ok (w_disk w') s /\ sw_open s = true /\ same_version obj (sj_object (sw_journal s)) = true /\
  sj_movement_id (sw_journal s) = id /\ sw_completed s = false.
Proof.
  intros Hl Hid Hnz Hg Hg0 Hat Hobj H.
  pose proof (fresh_journal_ok id gen att obj Hid Hnz Hg Hg0 Hat Hobj) as Hfresh.
  pose proof (begin_lens o id gen att obj Hfresh w w' _ H Hl) as Hl'.
  unfold begin in H. iostep H. iofacts. iostep H. iostep H. apply file_op_Ok in E.
  set (jn := os_allow_resume o && _) in *.
  assert (jn = true -> d_chunk_count obj <= kMaxResumeJournalChunks) as Hjn by (unfold jn; intros; b2p; done).
  assert (lengths_ok (w_disk w0)) as Hl0.
  { rewrite E. revert Hl. apply lens_update; [done|]. intros sd file Hs. by right. }
  destruct x1 as [stored|].
  - apply resumable_Ok in E0 as (Hd1 & Hjt & Hsv & Hpos & Hmid & jb & Hjb & Hp & Hok).
    set (j := mkJournal _ _ _ _ _ _ _) in *.
    assert (journal_ok j) as Hj.
    { destruct Hok as (A1 & A2 & _ & _ & _ & A6 & A7 & A8 & A9 & A10 & A11).
      exact (conj A1 (conj A2 (conj Hg (conj Hg0 (conj Hat (conj A6 (conj A7 (conj A8 (conj A9
        (conj A10 A11)))))))))). }
    assert (zlen jb <= 2 ^ 23 \/ 2 ^ 23 < zlen jb) as [Hs|Hs] by lia.
    2:{ exfalso. unfold parse_journal, decode_all, dec_domain, dec_text, dec_blob, dec_u64, dec_le in Hp.
        unfold dbind, rbind in Hp. cbn [Decoder_make over_limit_ default_limits max_input_bytes] in Hp.
        by rewrite (proj2 (Z.ltb_lt (8 * 2 ^ 20) (zlen jb))) in Hp by lia. }
    destruct (begin_resumed_Ok o id obj j jn w1 w' s Hobj Hj Hsv Hpos) as (h & file & -> & Hf & Hw & Hsj).
    + intros file Hf. rewrite Hd1 in Hf. exact (Hl0 id file jb stored Hf Hjb Hs Hp).
    + exact H.
    + assert (sj_movement_id j = id) as Hjid by exact Hmid.
      split; [|split_and!; try done]. constructor; cbn [sw_journal sw_journaling]; try done.
      * exists file. cbn [sw_journal]. by rewrite Hjid.
      * intros _. split; [done|]. apply same_version_spec in Hsv as (_ & _ & _ & _ & _ & Hc).
        unfold j. cbn [sj_object]. rewrite <- Hc. auto.
      * rewrite Hjid. intros jb' j' Hjb' _ Hp'. rewrite Hsj, Hd1, Hjb in Hjb'. injection Hjb' as <-.
        rewrite Hp in Hp'. by injection Hp' as <-.
  - apply resumable_disk in E0. iostep H. iostep H.
    set (j := mkJournal id gen att obj 0 0 []) in *.
    destruct (begin_clean_Ok o j jn w3 w' s Hfresh eq_refl eq_refl) as (-> & Hf & Hjb).
    + apply discard_staging_Ok in E1 as Hrm.
      assert (same_journals (w_disk w2) (w_disk w3)) as ->.
      { injection E2 as <- _.
        destruct (file_op_cases (update_staging id (fun s => s)) (io_error "") w2)
          as [(w4 & -> & Hd4)|(w4 & -> & Hd4)]; cbn [fst]; rewrite Hd4;
          [by apply update_same_journals|reflexivity]. }
      rewrite Hrm. unfold journal_file. cbn. by rewrite lookup_delete_eq.
    + exact H.
    + split; [|split_and!; try done; by apply same_version_spec].
      constructor; cbn [sw_journal sw_journaling]; try done.
      * exists []. split; [exact Hf|]. by apply fresh_writer_on.
      * intros Hj. split; [done|]. auto.
      * intros jb' j' Hb Hlb Hp. apply Hjb in Hb as ->. by apply parse_contents in Hp as ->.
Qed.

(** Any number of appends, with any arguments, outcomes and results. *)
Inductive appends (o : ObjectStoreOptions) (w : World) (s : StagingWriter) : World -> StagingWriter -> Prop :=
  | ap_nil : appends o w s w s
  | ap_cons i off p g w1 s1 w2 s2 r : appends o w s w1 s1 -> 0 <= i ->
      append o s1 i off p g w1 = (w2, s2, r) -> appends o w s w2 s2.

Lemma appends_ok o w s w' s' : appends o w s w' s' -> writer_ok (w_disk w) s ->
  writer_ok (w_disk w') s' /\ sj_movement_id (sw_journal s') = sj_movement_id (sw_journal s) /\
  sj_object (sw_journal s') = sj_object (sw_journal s) /\ sw_open s' = sw_open s /\
  sj_verified_chunks (sw_journal s) <= sj_verified_chunks (sw_journal s') /\
  only (sj_movement_id (sw_journal s)) (w_disk w) (w_disk w').
Proof.
  induction 1 as [|i off p g w1 s1 w2 s2 r Hap IH Hi Ha]; intros Hok; [split_and!; try done; lia|].
  destruct (IH Hok) as (H1 & H2 & H3 & H4 & H5 & H6).
  destruct (append_effect o s1 i off p g w1 w2 s2 r (wk_inv _ _ H1) Hi Ha) as (K1 & K2 & K3 & K4 & K5).
  split; [by eapply append_keeps_ok|]. split; [congruence|]. split; [congruence|]. split; [congruence|].
  split.
  - destruct K5 as [[-> _]|(_ & K5 & _)]; lia.
  - etrans; [exact H6|]. rewrite <- H2. by eapply append_only.
Qed.

(** ** Commit markers and authority *)

(** The marker [write_commit_marker] stores: sealed first if it was not. *)
Definition to_write (m : CommitMarker) : CommitMarker :=
  if array_is_zero (cm_marker_digest m) then seal m else m.

Lemma to_write_version m : version_of (cm_object (to_write m)) = version_of (cm_object m).
Proof. unfold to_write. by destruct (array_is_zero _). Qed.

(** A valid marker filed under [v]. *)
Definition marker_at (d : Disk) (v : Version) (m : CommitMarker) : Prop :=
  dk_commits d !! v = Some (marker_contents m) /\ marker_ok m /\ sealed m /\ version_of (cm_object m) = v.

Lemma marker_contents_bound m : marker_ok m -> 0 < zlen (marker_contents m) <= 2 ^ 20.
Proof.
  intros Hm. pose proof (marker_encode_bound m Hm). pose proof (zlen_nonneg (CommitMarker_encode m)).
  unfold marker_contents. rewrite zlen_app, zlen_enc_text.
  change (zlen kMarkerDomain) with 20. lia.
Qed.

Lemma parse_marker_contents m : marker_ok m -> parse_marker (marker_contents m) = Ok m.
Proof.
  intros Hm. pose proof (marker_contents_bound m Hm).
  pose proof (marker_file_codec RC.COMMIT_MARKER_INVALID "commit marker domain does not match").
  apply (decode_all_encode _ _ _ marker_ok); [done|]. cbn [default_limits max_input_bytes]. lia.
Qed.

Lemma decode_existing_contents m : marker_ok m -> decode_existing (marker_contents m) = Some m.
Proof.
  intros Hm. pose proof (marker_contents_bound m Hm). unfold decode_existing.
  pose proof (marker_file_codec RC.COMMIT_MARKER_INVALID "") as Hc.
  rewrite (codec_reads m Hm (Decoder_make (marker_contents m) default_limits) []); [done| |].
  - repeat split; cbn [Decoder_make over_limit_ offset_]; [|lia]. apply Z.ltb_ge.
    cbn [default_limits max_input_bytes]. lia.
  - by rewrite app_nil_r.
Qed.

Lemma open_read_Ok p file w w' f : open_read p file w = (w', Ok f) -> w_disk w' = w_disk w /\ file = Some f.
Proof.
  intros H. unfold open_read in H. repeat (iostep H; []). iofacts. destruct file; [|done]. split; [done|].
  congruence.
Qed.

Lemma size_of_Ok file w w' n : size_of file w = (w', Ok n) -> w_disk w' = w_disk w /\ n = zlen file.
Proof. intros H. unfold size_of in H. repeat (iostep H; []). iofacts. done. Qed.

Lemma read_commit_marker_Ok o v w w' m : read_commit_marker o v w = (w', Ok m) ->
  w_disk w' = w_disk w /\ marker_at (w_disk w) v m.
Proof.
  intros H. unfold read_commit_marker in H. iostep H. iofacts. iostep H. apply open_read_Ok in E as [Hd1 Hf].
  iostep H. apply size_of_Ok in E as [Hd2 ->]. repeat (iostep H; []). iofacts. b2p.
  match goal with E : read_file _ _ _ _ = _ |- _ => apply read_whole in E as [Hd3 ->]; [|done] end.
  match goal with E : parse_marker _ = Ok _ |- _ =>
    apply parse_marker_Ok in E as [Hok Hx]; [|unfold zlen in *; lia] end.
  split; [congruence|]. split_and!; try done; [congruence|]. unfold version_of. destruct v; cbn in *. congruence.
Qed.

Lemma read_commit_marker_quiet o v d m : marker_at d v m ->
  read_commit_marker o v (mkWorld d []) = (mkWorld d [], Ok m).
Proof.
  intros (Hf & Hok & Hs & Hv). pose proof (marker_contents_bound m Hok) as Hb.
  unfold read_commit_marker. qstep. rewrite Hf. qstep. qstep.
  etrans; [eapply io_bind_step, io_reject_false|cbv beta].
  { apply orb_false_iff. rewrite Z.eqb_neq, Z.ltb_ge. lia. }
  qstep. rewrite drop_0, firstn_all.
  etrans; [eapply io_bind_step, io_reject_false; by rewrite Z.eqb_refl|cbv beta].
  etrans; [eapply io_bind_step, io_lift_ok, parse_marker_contents; exact Hok|cbv beta].
  etrans; [eapply io_bind_step, io_reject_false|cbv beta].
  { apply negb_false_iff, bytes_eqb_eq, Hs. }
  etrans; [eapply io_bind_step, io_reject_false|cbv beta; reflexivity].
  rewrite <- Hv. cbn [version_of fst snd]. by rewrite bytes_eqb_refl, Z.eqb_refl.
Qed.

Lemma existing_marker_disk o v w w' r : existing_marker o v w = (w', r) ->
  w_disk w' = w_disk w /\ exists x, r = Ok x.
Proof.
  unfold existing_marker. destruct (dk_commits (w_disk w) !! v) as [file|]; [|intros [= <- <-]; eauto].
  set (att := io_bind _ _). assert (Hk : keeps eq att).
  { unfold att. apply keeps_bind; [apply _|apply keeps_open; apply _|]. intros f.
    apply keeps_bind; [apply _|apply keeps_size; apply _|]. intros n. by keeps_tac. }
  destruct (att w) as [w1 [x|e]] eqn:E; intros [= <- <-]; (split; [symmetry; by eapply Hk|eauto]).
Qed.

Lemma existing_marker_quiet o v d m : marker_at d v m ->
  existing_marker o v (mkWorld d []) = (mkWorld d [], Ok (Some m)).
Proof.
  intros (Hf & Hok & _). pose proof (marker_contents_bound m Hok) as Hb.
  unfold existing_marker. cbn [w_disk]. rewrite Hf.
  match goal with |- match ?att ?w with _ => _ end = _ =>
    assert (att w = (w, Ok (Some m))) as -> end; [|done].
  qstep. qstep. rewrite (proj2 (Z.ltb_lt _ _)), (proj2 (Z.leb_le _ _)) by lia. cbn [andb negb].
  qstep. rewrite drop_0, firstn_all, Z.eqb_refl. cbn [negb].
  by rewrite decode_existing_contents.
Qed.

(** Only the marker of [v] can change, and only to [c], with the last step. *)
Lemma atomic_replace_commit o p v c w w' r :
  atomic_replace p (set_commit v c) (os_sync_on_write o) w = (w', r) ->
  (r = Ok tt /\ w_disk w' = set_commit v c (w_disk w)) \/ ((exists e, r = Err e) /\ w_disk w' = w_disk w).
Proof.
  unfold atomic_replace, io_bind.
  destruct (file_op_cases (fun d => d) (open_error (p ++ lit ".tmp-replace")) w)
    as [(w1 & -> & H1)|(w1 & -> & H1)]; [|intros [= <- <-]; right; eauto].
  destruct (file_op_cases (fun d => d) (io_error "short write") w1)
    as [(w2 & -> & H2)|(w2 & -> & H2)]; [|intros [= <- <-]; right; split; [eauto|congruence]].
  assert (exists w3 r3, (if os_sync_on_write o then file_sync else io_ret tt) w2
    = (w3, r3) /\ w_disk w3 = w_disk w2) as (w3 & r3 & -> & H3).
  { destruct (os_sync_on_write o); [|eauto].
    destruct (file_sync_cases w2) as [(x & -> & Hx)|(x & e & -> & Hx)]; eauto. }
  destruct r3 as [[]|e]; [|intros [= <- <-]; right; split; [eauto|congruence]].
  destruct (file_op_cases (set_commit v c) (io_error "atomic replacement failed") w3)
    as [(w4 & -> & H4)|(w4 & -> & H4)]; intros [= <- <-]; [left|right]; split; eauto; congruence.
Qed.

Lemma write_commit_marker_cases o m w w' r : write_commit_marker o m w = (w', r) ->
  (w_disk w' = w_disk w \/
   (r = Ok tt /\ w_disk w' = set_commit (version_of (cm_object m)) (marker_contents (to_write m)) (w_disk w))) /\
  (r = Ok tt -> sealed (to_write m) /\ valid_marker (to_write m)).
Proof.
  unfold write_commit_marker. fold (to_write m). rewrite to_write_version. intros H.
  destruct (negb (bytes_eqb (cm_marker_digest (to_write m)) (compute_digest (to_write m)))) eqn:Es.
  { unfold io_bind at 1, io_reject, io_lift in H. injection H as <- <-. split; [by left|done]. }
  b2p. unfold io_bind at 1, io_reject, io_lift in H.
  destruct (CommitMarker_validate (to_write m)) as [[]|e] eqn:Ev.
  2:{ unfold io_bind at 1, io_lift in H. injection H as <- <-. split; [by left|done]. }
  assert (sealed (to_write m) /\ valid_marker (to_write m)) as Hgood.
  { split; [done|]. by apply marker_validate_spec. }
  split; [|done]. unfold io_bind at 1, io_lift in H. unfold io_bind at 1 in H.
  destruct (existing_marker o (version_of (cm_object m)) w) as [w1 r1] eqn:Ee.
  apply existing_marker_disk in Ee as [Hd1 [x ->]]. destruct x as [x|].
  - destruct (bytes_eqb _ _); injection H as <- <-; by left.
  - unfold io_bind in H.
    destruct (file_op_cases (fun d => d) (io_error "could not create the commit directory") w1)
      as [(w2 & E2 & H2)|(w2 & E2 & H2)]; rewrite E2 in H; [|injection H as <- <-; left; congruence].
    apply (atomic_replace_commit o) in H as [[-> H]|[_ H]]; [right; split; [done|]|left]; congruence.
Qed.

(** A good marker on a quiet disk: written where there was none, kept where there
    is one. *)
Lemma write_commit_marker_fresh o m d : marker_ok m -> sealed m -> array_is_zero (cm_marker_digest m) = false ->
  dk_commits d !! version_of (cm_object m) = None ->
  write_commit_marker o m (mkWorld d []) =
    (mkWorld (set_commit (version_of (cm_object m)) (marker_contents m) d) [], Ok tt).
Proof.
  intros [_ Hv] Hs Hz Hn. unfold write_commit_marker. rewrite Hz.
  etrans; [eapply io_bind_step, io_reject_false|cbv beta].
  { apply negb_false_iff, bytes_eqb_eq, Hs. }
  etrans; [eapply io_bind_step, io_lift_ok; by apply marker_validate_spec|cbv beta].
  etrans; [eapply io_bind_step; instantiate (1 := None); instantiate (1 := mkWorld d [])|cbv beta iota].
  { unfold existing_marker. cbn [w_disk]. by rewrite Hn. }
  unfold atomic_replace. qstep. qstep. qstep.
  etrans; [eapply io_bind_step; instantiate (2 := mkWorld d []); by destruct (os_sync_on_write o)|cbv beta].
  apply file_op_quiet.
Qed.

Lemma write_commit_marker_existing o m m0 d : marker_ok m -> sealed m ->
  array_is_zero (cm_marker_digest m) = false -> marker_at d (version_of (cm_object m)) m0 ->
  write_commit_marker o m (mkWorld d []) =
    (mkWorld d [], if bytes_eqb (cm_marker_digest m0) (cm_marker_digest m) then Ok tt
                   else fail RC.COMMIT_ALREADY_EXISTS
                          "a different commit marker already exists for this object version").
Proof.
  intros [_ Hv] Hs Hz Hm0. unfold write_commit_marker. rewrite Hz.
  etrans; [eapply io_bind_step, io_reject_false|cbv beta].
  { apply negb_false_iff, bytes_eqb_eq, Hs. }
  etrans; [eapply io_bind_step, io_lift_ok; by apply marker_validate_spec|cbv beta].
  etrans; [eapply io_bind_step; by apply existing_marker_quiet|cbv beta iota].
  by destruct (bytes_eqb _ _).
Qed.

Lemma set_commit_marker_at m d : marker_ok m -> sealed m ->
  marker_at (set_commit (version_of (cm_object m)) (marker_contents m) d) (version_of (cm_object m)) m.
Proof. intros Hm Hs. split_and!; try done. cbn [set_commit dk_commits]. by rewrite lookup_insert_eq. Qed.

(** What [authority] reports of a readable marker. *)
Lemma authority_Ok o v w : exists w' a, authority o v w = (w', Ok a) /\ w_disk w' = w_disk w /\
  (oa_authoritative a = true -> exists m file, marker_at (w_disk w) v m /\ object_file (w_disk w) v = Some file /\
     zlen file = cm_stored_bytes m /\ oa_marker_digest a = cm_marker_digest m /\
     oa_movement_id a = cm_movement_id m).
Proof.
  unfold authority. destruct (read_commit_marker o v w) as [w1 [m|e]] eqn:E.
  - destruct (read_commit_marker_Ok o v w w1 m E) as [Hd Hm].
    eexists _, _. split; [reflexivity|]. split; [done|].
    rewrite Hd. unfold object_present, object_size. destruct (object_file (w_disk w) v) as [file|]; cbn [negb]; [|done].
    destruct (Z.eqb_spec (zlen file) (cm_stored_bytes m)); cbn [negb]; [|done]. intros _. by exists m, file.
  - eexists _, _. split; [reflexivity|]. split; [|done].
    assert (keeps eq (read_commit_marker o v)) as Hk.
    { unfold read_commit_marker. apply keeps_bind; [apply _|keeps_tac|]. intros d.
      apply keeps_bind; [apply _|apply keeps_open; apply _|]. intros f.
      apply keeps_bind; [apply _|apply keeps_size; apply _|]. intros n. by keeps_tac. }
    symmetry. by eapply Hk.
Qed.

(** ** A transfer without faults *)

Lemma validate_ok_journal j : journal_ok j -> StagingJournal_validate j = Ok tt.
Proof.
  intros (H1 & H2 & H3 & H4 & H5 & [Hr Hv] & H7 & H8 & H9 & H10 & H11).
  apply journal_validate_spec; [done|lia|]. split_and!; try done; lia.
Qed.

Lemma save_journal_quiet o j d : journal_ok j ->
  exists d', save_journal o j (mkWorld d []) = (mkWorld d' [], Ok tt).
Proof.
  intros Hj. unfold save_journal, atomic_replace. eexists.
  etrans; [eapply io_bind_step, io_lift_ok; by apply validate_ok_journal|cbv beta].
  qstep. qstep. qstep.
  etrans; [eapply io_bind_step; instantiate (2 := mkWorld _ []); by destruct (os_sync_on_write o)|cbv beta].
  apply file_op_quiet.
Qed.

Lemma append_write_quiet o s off p d :
  exists d', append_write o s off p (mkWorld d []) = (mkWorld d' [], Ok tt).
Proof.
  unfold append_write. eexists. etrans; [eapply io_bind_step; reflexivity|cbv beta].
  destruct (os_sync_on_write o); reflexivity.
Qed.

Section quiet.
Context (o : ObjectStoreOptions).

Lemma append_quiet d s p : writer_ok d s -> sw_open s = true -> sw_finalized s = false ->
  let obj := sj_object (sw_journal s) in let vc := sj_verified_chunks (sw_journal s) in
  vc < d_chunk_count obj -> zlen p = plan_length obj vc ->
  exists d' s' st, append o s vc (vc * d_chunk_bytes obj) p
      (compute_chunk_digest (d_object_id obj) (d_generation obj) vc (vc * d_chunk_bytes obj)
         (plan_length obj vc) p) (mkWorld d []) = (mkWorld d' [], s', Ok st) /\ sw_finalized s' = false.
Proof.
  intros Hok Hopen Hfin obj vc Hvc Hp. pose proof (wk_inv _ _ Hok) as (file & Hf & Hw).
  pose proof (wo_obj _ _ Hw) as Ho. pose proof (wo_chunks _ _ Hw) as Hc. fold obj vc in Ho, Hc.
  set (g := compute_chunk_digest _ _ _ _ _ _). unfold append.
  assert (append_checks s vc (vc * d_chunk_bytes obj) p g = Ok (plan_length obj vc)) as Ec.
  { unfold append_checks. fold obj. rewrite Hopen, Hfin, (proj2 (Z.leb_gt _ _) Hvc). cbn [negb].
    rewrite chunk_offset_spec, (proj2 (Z.ltb_lt _ _)) by (done || lia). cbn [rbind].
    rewrite Z.eqb_refl. cbn [negb]. rewrite chunk_length_spec, (proj2 (Z.ltb_lt _ _)) by (done || lia).
    cbn [rbind]. rewrite Hp, Z.eqb_refl. cbn [negb]. fold g. by rewrite bytes_eqb_refl. }
  rewrite Ec. fold vc. rewrite Z.ltb_irrefl, Z.eqb_refl. cbn [negb].
  destruct (append_write_quiet o s (vc * d_chunk_bytes obj) p d) as [d1 Ew]. rewrite Ew.
  cbn [with_journal sw_journaling]. destruct (sw_journaling s) eqn:Ej.
  - assert (journal_ok (journal_next s (plan_length obj vc) g)) as Hj.
    { destruct (append o s vc (vc * d_chunk_bytes obj) p g (mkWorld d [])) as [[w2 s2] r2] eqn:Ea.
      pose proof (append_keeps_ok o s vc _ p g (mkWorld d []) w2 s2 r2 Hok ltac:(lia) Ea) as Hok2.
      unfold append in Ea. rewrite Ec in Ea. fold vc in Ea. rewrite Z.ltb_irrefl, Z.eqb_refl in Ea.
      cbn [negb] in Ea. rewrite Ew in Ea. cbn [with_journal sw_journaling] in Ea. rewrite Ej in Ea.
      assert (sw_journal s2 = journal_next s (plan_length obj vc) g /\ sw_journaling s2 = true) as [<- Hjs].
      { destruct (save_journal o _ _) as [w3 [[]|]]; injection Ea as <- <- <-; done. }
      apply (wk_journal _ _ Hok2 Hjs). }
    destruct (save_journal_quiet o _ d1 Hj) as [d2 E2]. rewrite E2. by eexists _, _, _.
  - by eexists _, _, _.
Qed.

(** Append the chunks of [content] from the verified prefix on. *)
Fixpoint send_chunks (n : nat) (content : bytes) (s : StagingWriter) (w : World)
  : World * StagingWriter * Result unit :=
  match n with
  | O => (w, s, Ok tt)
  | S n' =>
    let obj := sj_object (sw_journal s) in
    let i := sj_verified_chunks (sw_journal s) in
    match append o s i (i * d_chunk_bytes obj) (chunk_slice obj content i) (digest_at obj content i) w with
    | (w, s, Ok _) => send_chunks n' content s w
    | (w, s, Err e) => (w, s, Err e)
    end
  end.

Lemma chunk_slice_length obj content i : descriptor_ok obj -> zlen content = d_total_bytes obj ->
  0 <= i < d_chunk_count obj -> zlen (chunk_slice obj content i) = plan_length obj i.
Proof.
  intros Ho Hl Hi. destruct (plan_length_pos obj i Ho Hi) as [Hp He].
  unfold chunk_slice, zlen in *. rewrite length_take, length_drop.
  destruct Ho as [_ []]. unfold plan_length in *. nia.
Qed.

Lemma send_chunks_quiet n : forall content d s, writer_ok d s -> sw_open s = true -> sw_finalized s = false ->
  let obj := sj_object (sw_journal s) in
  zlen content = d_total_bytes obj ->
  sj_verified_chunks (sw_journal s) + Z.of_nat n <= d_chunk_count obj ->
  (exists file, staging_file d (sj_movement_id (sw_journal s)) = Some file /\
     take (Z.to_nat (sj_verified_bytes (sw_journal s))) file =
     take (Z.to_nat (sj_verified_bytes (sw_journal s))) content) ->
  exists d' s', send_chunks n content s (mkWorld d []) = (mkWorld d' [], s', Ok tt) /\
    writer_ok d' s' /\ sw_open s' = true /\ sw_finalized s' = false /\
    sj_movement_id (sw_journal s') = sj_movement_id (sw_journal s) /\ sj_object (sw_journal s') = obj /\
    sj_verified_chunks (sw_journal s') = sj_verified_chunks (sw_journal s) + Z.of_nat n /\
    only (sj_movement_id (sw_journal s)) d d' /\
    exists file, staging_file d' (sj_movement_id (sw_journal s)) = Some file /\
      take (Z.to_nat (sj_verified_bytes (sw_journal s'))) file =
      take (Z.to_nat (sj_verified_bytes (sw_journal s'))) content.
Proof.
  induction n as [|n IH]; intros content d s Hok Hop Hfin obj Hlen Hn Hpre.
  { exists d, s. cbn [send_chunks]. split_and!; try done. lia. }
  cbn [send_chunks]. fold obj. set (vc := sj_verified_chunks (sw_journal s)) in *.
  pose proof (wk_inv _ _ Hok) as (file & Hf & Hw).
  pose proof (wo_obj _ _ Hw) as Ho. pose proof (wo_chunks _ _ Hw) as Hc. fold obj vc in Ho, Hc.
  assert (zlen (chunk_slice obj content vc) = plan_length obj vc) as Hcl
    by (apply chunk_slice_length; (done || lia)).
  destruct (append_quiet d s (chunk_slice obj content vc) Hok Hop Hfin ltac:(fold obj vc; lia) Hcl)
    as (d1 & s1 & st & Ea & Hfin1). fold obj vc in Ea. fold (digest_at obj content vc) in Ea.
  pose proof (append_keeps_ok o s vc _ _ _ (mkWorld d []) _ _ _ Hok ltac:(lia) Ea) as Hok1.
  destruct (append_effect o s vc _ _ _ (mkWorld d []) _ _ _ (wk_inv _ _ Hok) ltac:(lia) Ea)
    as (_ & Hid1 & Hobj1 & Hop1 & [[_ Hbad]|(_ & Hvc1 & f0 & f1 & Hf0 & Hf1 & Htk)]).
  { specialize (Hbad eq_refl). fold vc in Hbad. lia. }
  cbn [w_disk] in *. fold vc in Hvc1. destruct Hpre as (fp & Hfp & Hpre).
  rewrite Hf0 in Hfp. injection Hfp as ->.
  assert (sj_verified_bytes (sw_journal s1) = prefix_bytes obj (vc + 1)) as Hb1.
  { destruct (wk_inv _ _ Hok1) as (f2 & _ & Hw1). rewrite (wo_bytes _ _ Hw1), Hobj1, Hvc1. done. }
  assert (sj_verified_bytes (sw_journal s) = prefix_bytes obj vc) as Hb0 by apply (wo_bytes _ _ Hw).
  destruct (prefix_next obj vc Ho ltac:(lia)) as (E1 & E2 & _).
  destruct (plan_length_pos obj vc Ho ltac:(lia)) as [Hpos _].
  assert (0 <= prefix_bytes obj vc) as Hnn by (rewrite E1; destruct Ho as [_ []]; nia).
  rewrite Ea.
  destruct (IH content d1 s1 Hok1 ltac:(congruence) Hfin1) as (d' & s' & Es & Hrest).
  - by rewrite Hobj1.
  - rewrite Hobj1, Hvc1. fold obj. lia.
  - rewrite Hid1. exists f1. split; [done|]. rewrite Htk, Hpre, Hb1, Hb0, E2.
    unfold chunk_slice. rewrite <- E1.
    replace (Z.to_nat (prefix_bytes obj vc + plan_length obj vc))
      with (Z.to_nat (prefix_bytes obj vc) + Z.to_nat (plan_length obj vc))%nat by lia.
    by rewrite take_take_drop.
  - exists d', s'. split; [done|]. rewrite Hid1, Hobj1, Hvc1 in Hrest.
    destruct Hrest as (R1 & R2 & R3 & R4 & R5 & R6 & R7 & R8). split_and!; try done; [lia|].
    etrans; [|exact R7]. by apply (append_only _ _ _ _ _ _ _ _ _ _ Ea).
Qed.
End quiet.

Lemma begin_quiet_clean o id gen att obj d : journal_file d id = None ->
  journal_ok (mkJournal id gen att obj 0 0 []) ->
  exists d' s, begin o id gen att obj (mkWorld d []) = (mkWorld d' [], Ok s) /\
    sw_journal s = mkJournal id gen att obj 0 0 [] /\ sw_finalized s = false /\
    staging_file d' id = Some [].
Proof.
  intros Hn Hj. pose proof Hj as (_ & _ & _ & _ & _ & [_ Hobj] & _).
  set (jn := os_allow_resume o && (d_chunk_count obj <=? kMaxResumeJournalChunks)).
  set (j := mkJournal id gen att obj 0 0 []) in *.
  set (d2 := update_staging id (set_data []) (update_staging id open_data (update_staging id (fun s => s)
    (remove_staging id (update_staging id (fun s => s) d))))).
  assert (exists d3, (if jn then save_journal o j else io_ret tt) (mkWorld d2 []) = (mkWorld d3 [], Ok tt))
    as [d3 E3].
  { destruct jn; [by apply save_journal_quiet|by exists d2]. }
  exists d3, (mkWriter j Sha256_reset jn true false false).
  split_and!; try done.
  - unfold begin. etrans; [eapply io_bind_step, io_lift_ok; by apply validate_spec|cbv beta zeta].
    qstep. fold jn. etrans; [eapply io_bind_step|cbv beta].
    { instantiate (1 := None). instantiate (1 := mkWorld (update_staging id (fun s => s) d) []).
      unfold resumable. destruct jn; [|done]. cbn [negb]. unfold load_journal, io_bind, io_disk. cbn [w_disk].
      rewrite (update_same_journals id (fun s => s) d) by done. by rewrite Hn. }
    etrans; [eapply io_bind_step; unfold discard_staging; qstep; qstep; reflexivity|cbv beta].
    etrans; [eapply io_bind_step; rewrite file_op_quiet; reflexivity|cbv beta].
    unfold begin_clean. change (sj_movement_id j) with id. qstep. qstep. fold d2.
    etrans; [eapply io_bind_step; exact E3|reflexivity].
  - assert (same_data d2 d3) as Hs.
    { destruct jn; [apply (save_journal_same_data o j _ _ _ E3)|injection E3 as <-; reflexivity]. }
    rewrite Hs. unfold d2. by rewrite staging_file_update, decide_True.
Qed.

Lemma promote_staging_quiet o id obj d file : staging_file d id = Some file ->
  exists d', promote_staging o id obj (mkWorld d []) = (mkWorld d' [], Ok tt) /\
    object_file d' (version_of obj) = Some file /\ dk_staging d' = delete id (dk_staging d) /\
    dk_commits d' = dk_commits d /\
    (forall v, v <> version_of obj -> object_file d' v = object_file d v).
Proof.
  intros Hf. set (v := version_of obj). set (d1 := set_object v (object_file d v) d).
  assert (exists d2, match object_file d1 v with
    | Some _ => file_op (set_object v None) (io_error "could not clear the previous object data")
    | None => io_ret tt end (mkWorld d1 []) = (mkWorld d2 [], Ok tt) /\ dk_staging d2 = dk_staging d /\
      dk_commits d2 = dk_commits d /\ forall v', v' <> v -> dk_objects d2 !! v' = dk_objects d !! v')
    as (d2 & E2 & Hst & Hcm & Hob).
  { destruct (object_file d1 v); eexists; (split; [reflexivity|]); (split; [done|]); (split; [done|]);
      intros v' Hv'; cbn; by rewrite ?lookup_insert_ne. }
  assert (staging_file d2 id = Some file) as Hf2 by (unfold staging_file; by rewrite Hst).
  set (d3 := move_to_object id v d2). exists (remove_staging id d3). split.
  - unfold promote_staging. qstep. etrans; [eapply io_bind_step, io_reject_false|cbv beta].
    { unfold staging_present. by rewrite Hf. }
    qstep. fold v d1. qstep. etrans; [eapply io_bind_step; exact E2|cbv beta]. qstep. fold d3.
    etrans; [eapply io_bind_step; instantiate (2 := mkWorld d3 []); by destruct (os_sync_on_write o)|cbv beta].
    rewrite file_op_quiet. done.
  - unfold d3, move_to_object. rewrite Hf2. unfold object_file. cbn [remove_staging dk_staging dk_objects dk_commits].
    split; [by rewrite lookup_insert_eq|]. split; [|split; [done|]].
    + rewrite Hst. apply map_eq. intros i. destruct (decide (i = id)) as [->|Hne].
      * by rewrite !lookup_delete_eq.
      * by rewrite !lookup_delete_ne, lookup_alter_ne.
    + intros v' Hv'. by rewrite lookup_insert_ne, Hob.
Qed.

Lemma load_journal_quiet o j d : journal_file d (sj_movement_id j) = Some (journal_contents j) -> journal_ok j ->
  zlen (journal_contents j) <= 2 ^ 22 ->
  load_journal o (sj_movement_id j) (mkWorld d []) = (mkWorld d [], Ok j).
Proof.
  intros Hf Hj Hl. assert (0 < zlen (journal_contents j)) as Hpos.
  { unfold journal_contents. rewrite zlen_app, zlen_enc_text. pose proof (zlen_nonneg (StagingJournal_encode j)).
    change (zlen kJournalDomain) with 22. lia. }
  unfold load_journal. qstep. rewrite Hf. qstep. qstep.
  etrans; [eapply io_bind_step, io_reject_false|cbv beta].
  { apply orb_false_iff. rewrite Z.eqb_neq, Z.ltb_ge. lia. }
  qstep. rewrite drop_0, firstn_all.
  etrans; [eapply io_bind_step, io_reject_false; by rewrite Z.eqb_refl|cbv beta].
  etrans; [eapply io_bind_step, io_lift_ok|cbv beta].
  { apply (decode_all_encode default_limits journal_contents _ journal_ok); [done|].
    cbn [default_limits max_input_bytes]. lia. }
  etrans; [eapply io_bind_step, io_reject_false; by rewrite bytes_eqb_refl|cbv beta; reflexivity].
Qed.

Lemma fault_free_transfer (o : ObjectStoreOptions) (id : bytes) (gen : Z) (att : bytes)
    (obj : StateObjectDescriptor) (content : bytes) (d : Disk) :
  lengths_ok d -> journal_file d id = None -> id_wf 16 id -> array_is_zero id = false -> in_u 64 gen ->
  gen <> 0 -> id_wf 16 att -> descriptor_ok obj -> zlen content = d_total_bytes obj ->
  exists d1 s1 d2 s2 d3 s3 d4 s4,
    begin o id gen att obj (mkWorld d []) = (mkWorld d1 [], Ok s1) /\
    send_chunks o (Z.to_nat (d_chunk_count obj)) content s1 (mkWorld d1 []) = (mkWorld d2 [], s2, Ok tt) /\
    finish s2 (mkWorld d2 []) = (mkWorld d3 [], s3, Ok (sha256 content)) /\
    promote o s3 (mkWorld d3 []) = (mkWorld d4 [], s4, Ok tt) /\
    object_file d4 (version_of obj) = Some content /\ dk_staging d4 !! id = None /\
    (forall v, v <> version_of obj -> object_file d4 v = object_file d v) /\
    sw_journal s1 = mkJournal id gen att obj 0 0 [] /\ only id d d3 /\
    sj_movement_id (sw_journal s3) = id /\ sj_object (sw_journal s3) = obj.
Proof.
  intros Hl Hn Hid Hnz Hg Hg0 Hat Hobj Hlen.
  pose proof (fresh_journal_ok id gen att obj Hid Hnz Hg Hg0 Hat Hobj) as Hfresh.
  destruct (begin_quiet_clean o id gen att obj d Hn Hfresh) as (d1 & s1 & Eb & Hj1 & Hfin1 & Hf1).
  destruct (begin_ok o id gen att obj (mkWorld d []) _ s1 Hl Hid Hnz Hg Hg0 Hat Hobj Eb)
    as (Hok1 & Hop1 & _ & Hmid & _). pose proof (chunk_count_spec obj Hobj) as (Hcc & _ & _ & _).
  destruct (send_chunks_quiet o (Z.to_nat (d_chunk_count obj)) content d1 s1 Hok1 Hop1 Hfin1)
    as (d2 & s2 & Es & Hok2 & Hop2 & _ & Hid2 & Hobj2 & Hvc2 & Honly & file & Hf2 & Ht2).
  { by rewrite Hj1. }
  { rewrite Hj1. cbn [sj_verified_chunks sj_object]. lia. }
  { rewrite Hj1. exists []. done. }
  rewrite Hj1 in Hid2, Hobj2, Hvc2, Honly, Hf2. cbn [sj_movement_id sj_object sj_verified_chunks] in *.
  destruct (wk_inv _ _ Hok2) as (f2 & Hff & Hw2). rewrite Hid2, Hf2 in Hff. injection Hff as <-.
  pose proof (wo_bytes _ _ Hw2) as Hb2. rewrite Hobj2, Hvc2 in Hb2.
  assert (sj_verified_bytes (sw_journal s2) = d_total_bytes obj) as Hb.
  { rewrite Hb2, Z.add_0_l, Z2Nat.id by lia. unfold prefix_bytes.
    pose proof (chunk_count_spec obj Hobj) as (_ & _ & Hle & _). lia. }
  set (s3 := mkWriter (sw_journal s2) Sha256_reset (sw_journaling s2) false true (sw_finalized s2)).
  assert (finish s2 (mkWorld d2 []) = (mkWorld d2 [], s3, Ok (Sha256_finalize (sw_running s2)))) as Ef.
  { unfold finish. rewrite Hop2, Hobj2, Hb, Hvc2, Z2Nat.id, !Z.eqb_refl by lia. cbn [negb orb].
    unfold file_sync. by rewrite sync_op_quiet. }
  destruct (finish_effect s2 (mkWorld d2 []) _ _ _ (wk_inv _ _ Hok2) Ef) as (_ & _ & _ & _ & f3 & Hf3 & Hl3 & Hdg & _).
  cbn [w_disk] in Hf3. rewrite Hid2, Hf2 in Hf3. injection Hf3 as <-.
  assert (file = content) as ->.
  { rewrite Hb in Ht2. rewrite Hobj2 in Hl3. unfold zlen in *. by rewrite !take_ge in Ht2 by lia. }
  destruct (promote_staging_quiet o id obj d2 content Hf2) as (d4 & Ep & Hob & Hst & _ & Hoth).
  exists d1, s1, d2, s2, d2, s3, d4. eexists. split_and!.
  - done.
  - exact Es.
  - rewrite Ef, <- Hdg. reflexivity.
  - unfold promote. cbn [s3 sw_completed negb sw_journal]. rewrite Hid2, Hobj2, Ep. reflexivity.
  - done.
  - by rewrite Hst, lookup_delete_eq.
  - intros v Hv. rewrite Hoth by done. unfold object_file.
    assert (dk_objects d2 = dk_objects d) as ->; [|done].
    destruct Honly as (_ & -> & _). pose proof (begin_only o id gen att obj _ _ _ Eb) as (_ & Hbo & _).
    exact Hbo.
  - exact Hj1.
  - etrans; [exact (begin_only o id gen att obj _ _ _ Eb)|exact Honly].
  - exact Hid2.
  - exact Hobj2.
Qed.

(** ** Properties *)


(** (liveness) Without faults a transfer completes: the destination begins
    clean, accepts every chunk of the content in order, finishes with the SHA-256
    of the content, and promotion places exactly the content under the object
    version and removes the staging directory, touching no other version. *)
Theorem fault_free_transfer_places_object (o : ObjectStoreOptions) (id : bytes) (gen : Z) (att : bytes)
    (obj : StateObjectDescriptor) (content : bytes) (d : Disk) :
  lengths_ok d -> journal_file d id = None -> id_wf 16 id -> array_is_zero id = false -> in_u 64 gen ->
  gen <> 0 -> id_wf 16 att -> descriptor_ok obj -> zlen content = d_total_bytes obj ->
  exists d1 s1 d2 s2 d3 s3 d4 s4,
    begin o id gen att obj (mkWorld d []) = (mkWorld d1 [], Ok s1) /\
    send_chunks o (Z.to_nat (d_chunk_count obj)) content s1 (mkWorld d1 []) = (mkWorld d2 [], s2, Ok tt) /\
    finish s2 (mkWorld d2 []) = (mkWorld d3 [], s3, Ok (sha256 content)) /\
    promote o s3 (mkWorld d3 []) = (mkWorld d4 [], s4, Ok tt) /\
    object_file d4 (version_of obj) = Some content /\ dk_staging d4 !! id = None /\
    (forall v, v <> version_of obj -> object_file d4 v = object_file d v).
Proof.
  intros Hl Hn Hid Hnz Hg Hg0 Hat Hobj Hlen.
  destruct (fault_free_transfer o id gen att obj content d Hl Hn Hid Hnz Hg Hg0 Hat Hobj Hlen)
    as (d1 & s1 & d2 & s2 & d3 & s3 & d4 & s4 & H1 & H2 & H3 & H4 & H5 & H6 & H7 & _).
  exists d1, s1, d2, s2, d3, s3, d4, s4. by split_and!.
Qed.


(** (safety) Bytes are authoritative only behind a commit marker.  Whatever the
    file operations do, [authority] answers without changing the disk, and it
    reports a version authoritative only if a sealed, valid marker for exactly
    that version is filed and the placed object has the byte count the marker
    states; the reported movement and digest are the marker's.  Without faults the
    converse holds, so residue left by an uncommitted movement never counts. *)
Theorem authority_needs_commit (o : ObjectStoreOptions) (v : Version) (w : World) (d : Disk) :
  (exists w' a, authority o v w = (w', Ok a) /\ w_disk w' = w_disk w /\
    (oa_authoritative a = true ->
       exists m file, marker_at (w_disk w) v m /\ object_file (w_disk w) v = Some file /\
         zlen file = cm_stored_bytes m /\ oa_marker_digest a = cm_marker_digest m /\
         oa_movement_id a = cm_movement_id m)) /\
  (forall m file, marker_at d v m -> object_file d v = Some file -> zlen file = cm_stored_bytes m ->
     exists a, authority o v (mkWorld d []) = (mkWorld d [], Ok a) /\ oa_authoritative a = true) /\
  (dk_commits d !! v = None ->
     exists a, authority o v (mkWorld d []) = (mkWorld d [], Ok a) /\ oa_authoritative a = false /\
       oa_code a = RC.OBJECT_VERSION_NOT_FOUND).
Proof.
  split; [apply authority_Ok|]. split.
  - intros m file Hm Hf Hlen. unfold authority. rewrite (read_commit_marker_quiet o v d m Hm).
    cbn [w_disk]. eexists. split; [reflexivity|]. unfold object_present, object_size. rewrite Hf, Hlen, Z.eqb_refl.
    done.
  - intros Hn. unfold authority.
    assert (exists e, read_commit_marker o v (mkWorld d []) = (mkWorld d [], Err e)) as [e ->].
    { unfold read_commit_marker, io_bind, io_disk, open_read. cbn [w_disk]. rewrite Hn. eexists. reflexivity. }
    cbn [w_disk]. eexists. split; [reflexivity|]. unfold commit_marker_present. rewrite Hn. done.
Qed.

(** (error) A journal that claims more than the staged bytes support is not
    discarded, although the comment in [begin] says it is.  With such a journal in
    the staging directory, [begin] for the same version fails with
    RESUME_INCOMPATIBLE and leaves journal and data as they are, so every later
    attempt of the movement fails the same way until something else removes the
    staging directory. *)
Theorem overstated_journal_blocks_every_attempt (o : ObjectStoreOptions) (j : StagingJournal) (gen : Z)
    (att file : bytes) (obj : StateObjectDescriptor) (d : Disk) :
  os_allow_resume o = true -> valid_descriptor obj -> d_chunk_count obj <= kMaxResumeJournalChunks ->
  journal_ok j -> zlen (journal_contents j) <= 2 ^ 22 -> 0 < sj_verified_chunks j ->
  same_version obj (sj_object j) = true ->
  journal_file d (sj_movement_id j) = Some (journal_contents j) ->
  staging_file d (sj_movement_id j) = Some file -> zlen file < sj_verified_bytes j ->
  exists d', begin o (sj_movement_id j) gen att obj (mkWorld d []) =
    (mkWorld d' [], fail RC.RESUME_INCOMPATIBLE "the staged file is shorter than the journal claims") /\
    journal_file d' (sj_movement_id j) = Some (journal_contents j) /\
    staging_file d' (sj_movement_id j) = Some file.
Proof.
  intros Hr Hobj Hc Hj Hl Hv Hs Hjf Hsf Hsh. set (id := sj_movement_id j).
  set (d1 := update_staging id (fun s => s) d). set (d2 := update_staging id open_data d1).
  assert (staging_file d1 id = Some file) as Hsf1.
  { unfold d1. by rewrite (update_same_data id (fun s => s) d). }
  assert (journal_file d1 id = Some (journal_contents j)) as Hjf1.
  { unfold d1. by rewrite (update_same_journals id (fun s => s) d). }
  assert (staging_file d2 id = Some file) as Hsf2.
  { unfold d2. rewrite staging_file_update, decide_True by done. unfold staging_file in Hsf1.
    destruct (dk_staging d1 !! id) as [s|]; [|done]. cbn in Hsf1. unfold open_data. cbn. by rewrite Hsf1. }
  exists d2. split_and!.
  - unfold begin. etrans; [eapply io_bind_step, io_lift_ok; by apply validate_spec|cbv beta zeta].
    qstep. fold d1. etrans; [eapply io_bind_step|cbv beta].
    { instantiate (1 := Some j). instantiate (1 := mkWorld d1 []). unfold resumable.
      rewrite Hr, (proj2 (Z.leb_le _ _) Hc). cbn [andb negb]. unfold id. rewrite load_journal_quiet by done.
      rewrite (proj2 (check_resume_compatible_spec _ _) Hs). cbn [is_ok andb].
      by rewrite (proj2 (Z.ltb_lt _ _) Hv). }
    cbv iota. unfold begin_resumed. qstep. fold d2. qstep. rewrite Hsf2. cbn [default from_option].
    etrans; [eapply io_bind_step; rewrite size_of_quiet; reflexivity|cbv beta].
    unfold io_bind at 1, io_reject. cbn [sj_verified_bytes Datatypes.id]. by rewrite (proj2 (Z.ltb_lt _ _) Hsh).
  - unfold d2. by rewrite (update_same_journals id open_data d1).
  - done.
Qed.

(** (safety) A committed version can lose its marker to a read error.  When the
    filed marker cannot be opened, [write_commit_marker] takes the version for
    uncommitted: it replaces the marker of the earlier commit by a different one
    and reports success. *)
Theorem unreadable_marker_is_replaced (o : ObjectStoreOptions) (m m0 : CommitMarker) (d : Disk) :
  marker_ok m -> sealed m -> array_is_zero (cm_marker_digest m) = false ->
  marker_at d (version_of (cm_object m)) m0 -> cm_marker_digest m0 <> cm_marker_digest m ->
  exists d', write_commit_marker o m (mkWorld d [Failed]) = (mkWorld d' [], Ok tt) /\
    marker_at d' (version_of (cm_object m)) m.
Proof.
  intros Hm Hs Hz (Hf & _) Hne. exists (set_commit (version_of (cm_object m)) (marker_contents m) d).
  split; [|by apply set_commit_marker_at]. destruct Hm as [_ Hv]. unfold write_commit_marker. rewrite Hz.
  etrans; [eapply io_bind_step, io_reject_false|cbv beta].
  { apply negb_false_iff, bytes_eqb_eq, Hs. }
  etrans; [eapply io_bind_step, io_lift_ok; by apply marker_validate_spec|cbv beta].
  etrans; [eapply io_bind_step; instantiate (1 := None); instantiate (1 := mkWorld d [])|cbv beta iota].
  { unfold existing_marker. cbn [w_disk]. rewrite Hf. reflexivity. }
  unfold atomic_replace. qstep. qstep. qstep.
  etrans; [eapply io_bind_step; instantiate (2 := mkWorld d []); by destruct (os_sync_on_write o)|cbv beta].
  apply file_op_quiet.
Qed.

(** *** Witnesses *)

Definition demo_store : ObjectStoreOptions := mkOsOptions (lit "/state") (2 ^ 40) true true.
Definition demo_movement : bytes := replicate 16 x0b.
Definition demo_content : bytes := replicate 2500 x61.

Lemma empty_lengths_ok : lengths_ok empty_disk.
Proof. intros i file jb j Hf. done. Qed.

Lemma fault_free_transfer_places_object_witness : exists d4 s3 s4 d3,
  promote demo_store s3 (mkWorld d3 []) = (mkWorld d4 [], s4, Ok tt) /\
  object_file d4 (version_of demo_descriptor) = Some demo_content.
Proof.
  destruct (fault_free_transfer_places_object demo_store demo_movement 1 (replicate 16 x01) demo_descriptor
    demo_content empty_disk empty_lengths_ok eq_refl eq_refl eq_refl ltac:(unfold in_u; lia) ltac:(lia) eq_refl
    demo_descriptor_ok eq_refl) as (d1 & s1 & d2 & s2 & d3 & s3 & d4 & s4 & _ & _ & _ & Hp & Ho & _).
  exists d4, s3, s4, d3. split; [exact Hp|exact Ho].
Defined.

Definition other_marker : CommitMarker := Eval vm_compute in demo_marker_of 10.

Lemma other_marker_ok : marker_ok other_marker.
Proof.
  split.
  - constructor; try (vm_compute; first [reflexivity|split; congruence]).
    apply demo_descriptor_ok.
  - apply marker_validate_spec. vm_compute. reflexivity.
Qed.


Lemma unreadable_marker_is_replaced_witness : exists d',
  write_commit_marker demo_store other_marker
    (mkWorld (set_commit (version_of demo_descriptor) (marker_contents demo_marker) empty_disk) [Failed]) =
    (mkWorld d' [], Ok tt).
Proof.
  destruct (unreadable_marker_is_replaced demo_store other_marker demo_marker
    (set_commit (version_of demo_descriptor) (marker_contents demo_marker) empty_disk) other_marker_ok
    ltac:(vm_compute; reflexivity) ltac:(vm_compute; reflexivity)
    (set_commit_marker_at demo_marker empty_disk demo_marker_ok demo_marker_sealed)
    ltac:(vm_compute; congruence)) as (d' & H & _).
  exists d'. exact H.
Defined.

Lemma authority_needs_commit_witness : exists a,
  authority demo_store (version_of demo_descriptor) (mkWorld empty_disk []) = (mkWorld empty_disk [], Ok a) /\
  oa_authoritative a = false.
Proof.
  destruct (proj2 (proj2 (authority_needs_commit demo_store (version_of demo_descriptor)
    (mkWorld empty_disk []) empty_disk)) eq_refl) as (a & H & Ha & _).
  exists a. split; [exact H|exact Ha].
Defined.

(** A journal of one chunk over an empty staged file. *)
Definition demo_journal : StagingJournal :=
  mkJournal demo_movement 1 (replicate 16 x01) demo_descriptor 1 1024 [sha256 []].
Definition stale_disk : Disk :=
  update_staging demo_movement (fun _ => mkStaging (Some []) (Some (journal_contents demo_journal))) empty_disk.

Lemma demo_journal_ok : journal_ok demo_journal.
Proof.
  unfold journal_ok. split_and!; try (vm_compute; first [reflexivity|congruence|split; congruence]).
  - apply demo_descriptor_ok.
  - constructor; [by vm_compute|constructor].
Qed.

Lemma overstated_journal_blocks_every_attempt_witness : exists d',
  begin demo_store demo_movement 2 (replicate 16 x02) demo_descriptor (mkWorld stale_disk []) =
    (mkWorld d' [], fail RC.RESUME_INCOMPATIBLE "the staged file is shorter than the journal claims").
Proof.
  destruct (overstated_journal_blocks_every_attempt demo_store demo_journal 2 (replicate 16 x02) []
    demo_descriptor stale_disk eq_refl (proj2 demo_descriptor_ok) ltac:(vm_compute; congruence)
    demo_journal_ok ltac:(vm_compute; congruence) eq_refl ltac:(vm_compute; reflexivity)
    ltac:(vm_compute; reflexivity) ltac:(vm_compute; reflexivity) eq_refl) as (d' & H & _).
  exists d'. exact H.
Defined.

(** A one-chunk object, sent in one append. *)
Definition small_content : bytes := lit "abc".
Definition small_object : StateObjectDescriptor :=
  mkDescriptor (sha256 (object_id_preimage SK.MODEL (lit "demo"))) SK.MODEL (lit "demo") 1
    (sha256 small_content) 3 1024 1 1767225600000 (lit "producer") true.

Lemma small_object_ok : descriptor_ok small_object.
Proof.
  split; [repeat split; try (vm_compute; congruence)|].
  apply validate_spec. vm_compute. reflexivity.
Qed.

Definition small_begin := begin demo_store demo_movement 1 (replicate 16 x01) small_object (mkWorld empty_disk []).
Definition small_writer : StagingWriter :=
  match small_begin.2 with
  | Ok s => s
  | Err _ => mkWriter demo_journal Sha256_reset false false false false
  end.
Definition small_append := append demo_store small_writer 0 0 small_content
  (compute_chunk_digest (d_object_id small_object) 1 0 0 3 small_content) small_begin.1.
Definition small_finish := finish small_append.1.2 small_append.1.1.

Lemma triple_eta {A B C} (p : A * B * C) : p = (p.1.1, p.1.2, p.2).
Proof. by destruct p as [[]]. Qed.

