(* ===== verification/WireFields.v ===== *)
(** * Shared checks and fields of the wire messages (src/src/wire.cpp, anonymous namespace)

    The [require_*] checks that the messages' [validate] functions are made of,
    and the bounded readers and writers of the field types the messages share.
    Each reader and writer pair is proved to be a [Codec], so that a message's
    own codec follows from the sequence of its fields. *)
From S2P Require Import Prelude Status Bytes Digest Codec Ids StateObject Provenance Session Topology.

(** ** Wire bounds (include/smf/wire.hpp) *)

Definition kMaxWireHostBytes : Z := 255.
Definition kMaxWireContractBytes : Z := 128.
Definition kMaxWireChunkBytes : Z := 2 ^ 20.
Definition kMaxWireDomainBytes : Z := 64.
Definition kMaxWireListLimit : Z := 1024.
Definition kMaxMovementSummaries : Z := 256.

(** ** Checks *)

(** [if (cond) return Status(c, m);] *)
Definition reject_if (cond : bool) (c : ReasonCode) (m : String.string) : Result unit :=
  if cond then fail c m else Ok tt.
Arguments reject_if _ _ _%_string_scope.

(** [Status(c, std::string(what) + suffix)] *)
Definition fail_about {A} (c : ReasonCode) (what suffix : String.string) : Result A :=
  Err (mkStatus c (lit what ++ lit suffix)).
Arguments fail_about {A} _ _%_string_scope _%_string_scope.

Definition require_bound (value : bytes) (bound : Z) (what : String.string) : Result unit :=
  if bound <? zlen value then fail_about RC.INVALID_SIZE what " exceeds the wire bound"
  else if negb (bytes_eqb value []) && negb (is_valid_utf8 value)
  then fail_about RC.INVALID_UTF8 what " is not valid UTF-8"
  else Ok tt.

Definition require_digest (value : Digest) (what : String.string) : Result unit :=
  if array_is_zero value then fail_about RC.INVALID_DIGEST what " must not be zero" else Ok tt.

Definition require_endpoint (value : bytes) (what : String.string) : Result unit :=
  if bytes_eqb value [] || negb (EndpointId_is_valid value)
  then fail_about RC.INVALID_ID what " is not a valid endpoint id"
  else Ok tt.

Definition require_generation (value : Z) (what : String.string) : Result unit :=
  if negb (is_set value) then fail_about RC.INVALID_GENERATION what " must be non-zero" else Ok tt.

Definition require_role (role : Z) : Result unit :=
  if negb (role =? session_role_value SR.ENDPOINT) && negb (role =? session_role_value SR.ADMIN)
  then fail RC.PROTOCOL_CANONICAL_VIOLATION "session role is not recognized"
  else Ok tt.

Definition require_address (address : SocketAddress) (allow_unset : bool) (what : String.string)
  : Result unit :=
  if allow_unset && bytes_eqb (sa_host address) [] && (sa_port address =? 0) then Ok tt
  else if bytes_eqb (sa_host address) [] then fail_about RC.INVALID_ADDRESS what " requires a host"
  else if kMaxWireHostBytes <? zlen (sa_host address)
  then fail_about RC.INVALID_ADDRESS what " host exceeds the wire bound"
  else if sa_port address =? 0 then fail_about RC.INVALID_ADDRESS what " requires a port"
  else Ok tt.

Definition require_incarnation (value : Incarnation) (expected : bytes) (what : String.string)
  : Result unit :=
  if negb (Incarnation_is_set value) then fail_about RC.STALE_INCARNATION what " is not complete"
  else if negb (bytes_eqb (inc_endpoint value) expected)
  then fail_about RC.STALE_INCARNATION what " names a different endpoint than the message does"
  else Ok tt.

Arguments require_bound _ _ _%_string_scope.
Arguments require_digest _ _%_string_scope.
Arguments require_endpoint _ _%_string_scope.
Arguments require_generation _ _%_string_scope.
Arguments require_address _ _ _%_string_scope.
Arguments require_incarnation _ _ _%_string_scope.

(** ** Readers and writers *)

Definition check_domain (expected : bytes) : Dec unit :=
  let? found := dec_text kMaxWireDomainBytes in
  dreject (negb (bytes_eqb found expected)) RC.PROTOCOL_CANONICAL_VIOLATION
    "message domain string is not the expected one".

Definition read_endpoint : Dec bytes :=
  let? raw := dec_text kMaxEndpointIdBytes in
  dreject (bytes_eqb raw []) RC.INVALID_ID "endpoint id must not be empty" ;?
  dlift (EndpointId_parse raw).

Definition read_address : Dec SocketAddress :=
  let? host := dec_text kMaxWireHostBytes in
  let? port := dec_u16 in
  dret (mkAddress host port).

Definition read_detail : Dec bytes := dec_text kMaxDetailBytes.

Definition read_reason : Dec ReasonCode :=
  let? raw := dec_u16 in
  dreject (reason_value RC.NO_EVIDENCE <? raw) RC.PROTOCOL_CANONICAL_VIOLATION
    "reason code is outside the known range" ;?
  dret (reason_of_value raw).

Definition read_movement_state : Dec MovementState :=
  let? raw := dec_u8 in
  dreject (movement_state_value MS.SUPERSEDED <? raw) RC.PROTOCOL_CANONICAL_VIOLATION
    "movement state is not recognized" ;?
  dret (movement_state_of_value raw).

Module EC.
Inductive EffectClass : Set := REPEATABLE | NON_REPEATABLE.
End EC.
Abbreviation EffectClass := EC.EffectClass.

#[global] Instance EffectClass_eq_dec : EqDecision EffectClass.
Proof. solve_decision. Defined.

Definition effect_class_value (e : EffectClass) : Z :=
  match e with EC.REPEATABLE => 0 | EC.NON_REPEATABLE => 1 end.

Definition read_effect_class : Dec EffectClass :=
  let? raw := dec_u8 in
  dreject (effect_class_value EC.NON_REPEATABLE <? raw) RC.PROTOCOL_CANONICAL_VIOLATION
    "effect class is not recognized" ;?
  dret (if raw =? 0 then EC.REPEATABLE else EC.NON_REPEATABLE).

Definition write_address (a : SocketAddress) : bytes := enc_text (sa_host a) ++ enc_u16 (sa_port a).
Definition write_detail (detail : bytes) : bytes := enc_text detail.
Definition write_reason (code : ReasonCode) : bytes := enc_u16 (reason_value code).
Definition write_movement_state (s : MovementState) : bytes := enc_u8 (movement_state_value s).
Definition write_effect_class (e : EffectClass) : bytes := enc_u8 (effect_class_value e).
Definition write_generation (value : Z) : bytes := enc_u64 value.
Definition read_generation : Dec Z := dec_u64.

Definition write_incarnation (i : Incarnation) : bytes :=
  enc_text (inc_endpoint i) ++ FixedId_encode (inc_boot i) ++ enc_u64 (inc_epoch i).

Definition read_incarnation : Dec Incarnation :=
  let? endpoint := read_endpoint in
  let? boot := FixedId_decode kBootIdBytes in
  let? epoch := dec_u64 in
  dret (mkIncarnation endpoint boot epoch).

Definition write_registration (r : EndpointRegistration) : bytes :=
  enc_text (er_endpoint r) ++ write_incarnation (er_incarnation r) ++
  write_address (er_service_address r) ++ write_address (er_data_address r) ++
  enc_text (er_contract r) ++ enc_digest (er_capability_digest r) ++
  enc_i64 (er_registered_unix_millis r) ++ enc_boolean (er_live r).

Definition read_registration : Dec EndpointRegistration :=
  let? endpoint := read_endpoint in
  let? incarnation := read_incarnation in
  let? service := read_address in
  let? data := read_address in
  let? contract := dec_text kMaxWireContractBytes in
  let? capability := dec_digest in
  let? registered := dec_i64 in
  let? live := dec_boolean in
  dret (mkRegistration endpoint incarnation service data contract capability registered live).

(** [encoder.u32(size)] and the elements; [decoder.count(max)] and the loop. *)
Definition write_sequence {A} (enc : A -> bytes) (xs : list A) : bytes :=
  enc_u32 (wrap 32 (zlen xs)) ++ enc_seq enc xs.
Definition read_sequence {A} (dec : Dec A) (max : Z) : Dec (list A) :=
  let? count := dec_count max in dec_repeat dec (Z.to_nat count).

(** ** What the checks establish *)

Lemma seq_Ok (a b : Result unit) : (a ;! b) = Ok tt <-> a = Ok tt /\ b = Ok tt.
Proof. rewrite rbind_Ok. split; [by intros ([] & -> & ->)|intros [-> ->]; by exists tt]. Qed.

Lemma reject_if_Ok c e m : reject_if c e m = Ok tt <-> c = false.
Proof. unfold reject_if. destruct c; naive_solver. Qed.

Lemma require_bound_Ok v b w : require_bound v b w = Ok tt <-> text_ok b v.
Proof.
  unfold require_bound, text_ok. destruct (Z.ltb_spec b (zlen v)).
  - split; [done|]. intros [? _]. lia.
  - destruct (negb (bytes_eqb v []) && negb (is_valid_utf8 v)) eqn:E.
    + split; [done|]. intros [_ Hu]. rewrite Hu in E. by rewrite andb_false_r in E.
    + apply utf8_or_empty in E. naive_solver.
Qed.

Lemma require_digest_Ok d w : require_digest d w = Ok tt <-> array_is_zero d = false.
Proof. unfold require_digest. destruct (array_is_zero d); naive_solver. Qed.

Lemma require_endpoint_Ok e w : require_endpoint e w = Ok tt <-> EndpointId_is_valid e = true.
Proof.
  unfold require_endpoint. destruct (bytes_eqb e []) eqn:E, (EndpointId_is_valid e) eqn:Ev; simpl;
    try naive_solver. b2p. by subst.
Qed.

Lemma require_generation_Ok g w : require_generation g w = Ok tt <-> g <> 0.
Proof. unfold require_generation, is_set. destruct (Z.eqb_spec g 0); simpl; naive_solver. Qed.

Lemma require_role_Ok r : require_role r = Ok tt <-> r = 1 \/ r = 2.
Proof.
  unfold require_role. cbn [session_role_value].
  destruct (Z.eqb_spec r 1), (Z.eqb_spec r 2); simpl; naive_solver lia.
Qed.

Lemma require_incarnation_Ok i e w :
  require_incarnation i e w = Ok tt <-> Incarnation_is_set i = true /\ inc_endpoint i = e.
Proof.
  unfold require_incarnation. destruct (Incarnation_is_set i), (bytes_eqb (inc_endpoint i) e) eqn:E;
    b2p; simpl; naive_solver.
Qed.

(** A stored address is one with a host and a port; the unset one has neither. *)
Definition address_named (a : SocketAddress) : Prop :=
  sa_host a <> [] /\ zlen (sa_host a) <= kMaxWireHostBytes /\ sa_port a <> 0.

Lemma require_address_Ok a allow w : require_address a allow w = Ok tt <->
  address_named a \/ (allow = true /\ sa_host a = [] /\ sa_port a = 0).
Proof.
  unfold require_address, address_named.
  destruct allow, (bytes_eqb (sa_host a) []) eqn:E, (Z.eqb_spec (sa_port a) 0),
    (Z.ltb_spec kMaxWireHostBytes (zlen (sa_host a))); b2p; cbn [andb]; naive_solver lia.
Qed.

Create Rewrite HintDb wire_checks.
#[export] Hint Rewrite seq_Ok reject_if_Ok require_bound_Ok require_digest_Ok require_endpoint_Ok
  require_generation_Ok require_role_Ok require_incarnation_Ok require_address_Ok validate_spec : wire_checks.

(** ** Codecs *)

(** A domain string short enough to be one. *)
Class WireDomain (d : bytes) : Prop := wire_domain_ok : text_ok kMaxWireDomainBytes d.
#[export] Hint Extern 1 (WireDomain _) => (split; [vm_compute; congruence|vm_compute; reflexivity])
  : typeclass_instances.

(** Limits of a frame: the fields of every message fit. *)
Class WireRoom (lim : DecodeLimits) : Prop := {
  wire_roomy :: Roomy lim;
  wire_blob : kMaxWireChunkBytes <= max_blob_bytes lim }.

#[global] Instance default_wire_room : WireRoom default_limits.
Proof. split; [apply _|vm_compute; congruence]. Qed.

#[global] Instance text_bound_domain lim `{!Roomy lim} : TextBound lim kMaxWireDomainBytes.
Proof. destruct Roomy0. unfold TextBound, kMaxWireDomainBytes. lia. Qed.
#[global] Instance text_bound_host lim `{!Roomy lim} : TextBound lim kMaxWireHostBytes.
Proof. destruct Roomy0. unfold TextBound, kMaxWireHostBytes. lia. Qed.
#[global] Instance text_bound_wire_contract lim `{!Roomy lim} : TextBound lim kMaxWireContractBytes.
Proof. destruct Roomy0. unfold TextBound, kMaxWireContractBytes. lia. Qed.

Section codecs.
Context (lim : DecodeLimits) `{!Roomy lim}.

Lemma check_domain_reads e `{!WireDomain e} : reads lim (check_domain e) (enc_text e) tt.
Proof.
  unfold check_domain. apply reads_nil_r. eapply reads_bind; [by apply codec_reads|].
  cbv beta. apply reads_reject. by rewrite bytes_eqb_refl.
Qed.

Lemma check_domain_canon e d u d' : live lim d -> check_domain e d = Ok (u, d') ->
  consumed d d' (enc_text e).
Proof.
  intros Hl H. unfold check_domain in H. dstep H. apply dreject_Ok in H as [H ->]. dcanon. b2p. by subst.
Qed.

#[export] Instance read_endpoint_codec :
  Codec lim enc_text read_endpoint (fun t => EndpointId_is_valid t = true).
Proof.
  split.
  - intros t Ht. destruct (endpoint_text t Ht) as [Htx Hne]. unfold read_endpoint. solve_reads; try done.
    + by apply bytes_eqb_neq.
    + by apply EndpointId_parse_self.
  - intros d t d' Hl H. unfold read_endpoint in H. repeat dstep H. dfacts. dcanon.
    apply EndpointId_parse_spec in H as [-> Hv]. split; [done|solve_consumed].
Qed.

Definition address_ok (a : SocketAddress) : Prop :=
  text_ok kMaxWireHostBytes (sa_host a) /\ in_u 16 (sa_port a).

#[export] Instance address_codec : Codec lim write_address read_address address_ok.
Proof.
  split.
  - intros [h p] [Hh Hp]. unfold read_address, write_address. cbn [sa_host sa_port] in *. solve_reads; done.
  - intros d a d' Hl H. unfold read_address in H. repeat dstep H. dfacts. dcanon.
    split; [by split|solve_consumed].
Qed.

#[export] Instance detail_codec : Codec lim write_detail read_detail (text_ok kMaxDetailBytes).
Proof. unfold write_detail, read_detail. apply _. Qed.

(** The reason codes a peer may name: the declared ones. *)
Definition reason_known (c : ReasonCode) : Prop :=
  0 <= reason_value c <= reason_value RC.NO_EVIDENCE /\ reason_of_value (reason_value c) = c.

#[export] Instance reason_codec : Codec lim write_reason read_reason reason_known.
Proof.
  split.
  - intros c [Hc He]. cbn [reason_value] in Hc. unfold read_reason, write_reason.
    solve_reads; [unfold in_u; lia|apply Z.ltb_ge; cbn [reason_value]; lia|done].
  - intros d c d' Hl H. unfold read_reason in H. repeat dstep H. dfacts. dcanon. b2p.
    unfold write_reason, reason_known.
    match goal with Hok : in_u 16 ?v |- _ => rewrite (reason_value_of_value v Hok); destruct Hok end.
    split; [done|solve_consumed].
Qed.

#[export] Instance state_codec : Codec lim write_movement_state read_movement_state (fun _ => True).
Proof.
  split.
  - intros s _. pose proof (movement_state_value_range s). unfold read_movement_state, write_movement_state.
    solve_reads; [unfold in_u; lia|apply Z.ltb_ge; cbn; lia|apply movement_state_of_value_value].
  - intros d s d' Hl H. unfold read_movement_state in H. repeat dstep H. dfacts. dcanon. b2p.
    split; [done|]. unfold write_movement_state, in_u in *. cbn [movement_state_value] in *.
    rewrite movement_state_value_of_value by lia. solve_consumed.
Qed.

#[export] Instance effect_codec : Codec lim write_effect_class read_effect_class (fun _ => True).
Proof.
  split.
  - intros e _. unfold read_effect_class, write_effect_class.
    solve_reads; [destruct e; vm_compute; split; congruence|by destruct e|by destruct e].
  - intros d e d' Hl H. unfold read_effect_class in H. repeat dstep H. dfacts. dcanon. b2p.
    split; [done|]. unfold write_effect_class, in_u in *. cbn [effect_class_value] in *.
    eapply consumed_eq; [consumed_chain|]. app_norm.
    match goal with |- enc_u8 ?v = _ => assert (v = 0 \/ v = 1) as [-> | ->] by lia; done end.
Qed.

#[export] Instance generation_codec : Codec lim write_generation read_generation (in_u 64).
Proof. unfold write_generation, read_generation. apply _. Qed.

Definition incarnation_ok (i : Incarnation) : Prop :=
  EndpointId_is_valid (inc_endpoint i) = true /\ id_wf 16 (inc_boot i) /\ in_u 64 (inc_epoch i).

#[export] Instance incarnation_codec : Codec lim write_incarnation read_incarnation incarnation_ok.
Proof.
  split.
  - intros [e b ep] (He & Hb & Hp). unfold read_incarnation, write_incarnation.
    cbn [inc_endpoint inc_boot inc_epoch] in *. solve_reads; done.
  - intros d i d' Hl H. unfold read_incarnation in H. repeat dstep H. dfacts. dcanon.
    split; [by split_and!|solve_consumed].
Qed.

Definition registration_range (r : EndpointRegistration) : Prop :=
  EndpointId_is_valid (er_endpoint r) = true /\ incarnation_ok (er_incarnation r) /\
  address_ok (er_service_address r) /\ address_ok (er_data_address r) /\
  text_ok kMaxWireContractBytes (er_contract r) /\ digest_wf (er_capability_digest r) /\
  in_i64 (er_registered_unix_millis r).

#[export] Instance registration_codec : Codec lim write_registration read_registration registration_range.
Proof.
  split.
  - intros [e i s a c g t l] (He & Hi & Hs & Ha & Hc & Hg & Ht). unfold read_registration, write_registration.
    cbn [er_endpoint er_incarnation er_service_address er_data_address er_contract er_capability_digest
      er_registered_unix_millis er_live] in *. solve_reads; done.
  - intros d r d' Hl H. unfold read_registration in H. repeat dstep H. dfacts. dcanon.
    split; [by split_and!|solve_consumed].
Qed.

(** A list no longer than a bound below 2^32, each element readable. *)
Definition sequence_ok {A} (ok : A -> Prop) (max : Z) (xs : list A) : Prop := zlen xs <= max /\ Forall ok xs.

Lemma sequence_codec {A} (enc : A -> bytes) (dec : Dec A) ok max `{!Codec lim enc dec ok} : max < 2 ^ 32 ->
  Codec lim (write_sequence enc) (read_sequence dec max) (sequence_ok ok max).
Proof.
  intros Hm. pose proof (dec_count_codec lim max Hm) as Hcnt. split.
  - intros xs [Hl Hf]. pose proof (zlen_nonneg xs). unfold read_sequence, write_sequence.
    rewrite wrap_small by (unfold in_u; lia).
    eapply reads_bind; [apply codec_reads; lia|]. cbv beta.
    assert (Z.to_nat (zlen xs) = length xs) as -> by (unfold zlen; lia). by eapply dec_repeat_reads.
  - intros d xs d' Hl H. unfold read_sequence in H. apply dbind_Ok in H as (n & d1 & E & H).
    apply (codec_canon _ _ _ Hl) in E as [Hn Hc1]. pose proof (consumed_live _ _ _ _ Hl Hc1) as Hl1.
    apply (dec_repeat_canon lim enc dec ok) in H as [[Hf Hlen] Hc2]; [|done].
    assert (zlen xs = n) as Hz by (unfold zlen; lia). split; [split; [lia|done]|].
    unfold write_sequence. rewrite Hz, wrap_small by (unfold in_u; lia). by eapply consumed_app.
Qed.
End codecs.

#[export] Hint Resolve bytes_eqb_refl : smf.
