(* ===== verification/Wire.v ===== *)
(** * Wire messages (src/src/wire.cpp, include/smf/wire.hpp)

    Every message of the protocol: its fields, [validate], [encode] and [decode],
    in the order of the source.  [WireMessage] is the interface the framed helpers
    are written against ([MessageTypeFor] and the three members every message
    has); [WireLaws] is what each message is proved to satisfy: its codec is a
    [Codec] under the limits of a frame and what it decodes is valid.

    Proved here: every message round trips and is canonical, no payload of one
    type decodes as another, grants are bound to their signature, and a message
    sent on one end of a stream is received on the other. *)
From S2P Require Import Prelude Status Bytes Digest Codec Ids StateObject Provenance Movement.
From S2P Require Import Framing Session Policy Topology WireFields.

(** [const Status status = message.validate(); if (!status.ok()) return status; return message;] *)
Definition validated {T} (validate : T -> Result unit) (m : T) : Dec T :=
  dlift (validate m) ;? dret m.

(** [for (const T& x : xs) SMF_RETURN_IF_ERROR(x.validate());] *)
Fixpoint check_each {A} (validate : A -> Result unit) (xs : list A) : Result unit :=
  match xs with
  | [] => Ok tt
  | x :: rest => validate x ;! check_each validate rest
  end.

Lemma validated_Ok {T} (validate : T -> Result unit) m d x d' :
  validated validate m d = Ok (x, d') -> x = m /\ d' = d /\ validate m = Ok tt.
Proof.
  unfold validated. intros H. apply dbind_Ok in H as ([] & d1 & H1 & H2).
  apply dlift_Ok in H1 as [? ->]. apply dret_Ok in H2 as [-> ->]. done.
Qed.

Lemma reads_validated {T} lim (validate : T -> Result unit) m m' :
  validate m' = Ok tt -> m = m' -> reads lim (validated validate m) [] m'.
Proof. intros Hv ->. unfold validated. eapply reads_bind_nil; [by apply reads_lift|apply reads_ret]. Qed.

(** The two halves of a message's codec, from the codecs of its fields. *)
Ltac wire_reads_step :=
  lazymatch goal with
  | |- reads _ (dbind (check_domain _) _) _ _ =>
      eapply reads_bind; [apply check_domain_reads; apply _|cbv beta]
  | |- reads _ (validated _ _) [] _ => apply reads_validated
  | _ => reads_step
  end.
Ltac wire_reads := apply reads_nil_r; rewrite <- ?app_assoc; repeat wire_reads_step.

Ltac wire_canon H :=
  repeat lazymatch type of H with dbind _ _ _ = _ => dstep H end; apply validated_Ok in H as (-> & -> & H); dfacts;
  repeat match goal with
  | L : live ?lim ?d, E : check_domain ?e ?d = Ok (?u, ?d1) |- _ =>
      apply (check_domain_canon lim) in E; [|exact L];
      let L1 := fresh "Hl" in pose proof (consumed_live lim d d1 _ L E) as L1
  end; dcanon.

Ltac wire_codec enc dec ok :=
  split;
  [ let m := fresh "m" in let H := fresh "H" in intros m H; unfold ok in H;
    repeat match goal with H : _ /\ _ |- _ => destruct H end;
    unfold dec, enc; wire_reads; try assumption; try exact I; destruct m; cbn in *; congruence
  | let d := fresh "d" in let m := fresh "m" in let d' := fresh "d'" in let Hl := fresh "Hl" in
    let H := fresh "H" in intros d m d' Hl H; unfold dec in H; wire_canon H;
    split; [unfold ok; split_and?; first [assumption|reflexivity]|unfold enc; solve_consumed] ].

(** ** The interface of a message *)

Class WireMessage (T : Type) := {
  wm_type : MessageType;
  wm_domain : bytes;
  wm_validate : T -> Result unit;
  wm_encode : T -> bytes;
  wm_decode : Dec T }.
Arguments wm_type T {_}.
Arguments wm_domain T {_}.

Class WireLaws (T : Type) `{!WireMessage T} (ok : T -> Prop) : Prop := {
  wl_codec :: forall lim, WireRoom lim -> Codec lim wm_encode wm_decode ok;
  wl_valid : forall m, ok m -> wm_validate m = Ok tt;
  wl_domain : text_ok kMaxWireDomainBytes (wm_domain T);
  wl_starts : forall m, exists fields, wm_encode m = enc_text (wm_domain T) ++ fields }.

Ltac wire_laws ok :=
  split;
  [ intros lim Hroom; apply _
  | let m := fresh "m" in let H := fresh "H" in intros m H; unfold ok in H; cbn [wm_validate]; tauto
  | split; [vm_compute; congruence|vm_compute; reflexivity]
  | let m := fresh "m" in intros m; cbn [wm_encode wm_domain];
    first [ eexists; reflexivity | exists []; by rewrite app_nil_r ] ].

(** ** Field instances *)

Definition endpoint_ok (t : bytes) : Prop := EndpointId_is_valid t = true.
#[global] Instance endpoint_ok_codec lim `{!Roomy lim} : Codec lim enc_text read_endpoint endpoint_ok.
Proof. apply read_endpoint_codec; apply _. Qed.

Definition chunk_bytes_ok (b : bytes) : Prop := zlen b <= kMaxWireChunkBytes.
#[global] Instance chunk_bytes_codec lim `{!WireRoom lim} :
  Codec lim enc_blob (dec_blob kMaxWireChunkBytes) chunk_bytes_ok.
Proof.
  destruct WireRoom0 as [_ Hb]. unfold chunk_bytes_ok. split.
  - intros v Hv. pose proof (zlen_nonneg v). unfold kMaxWireChunkBytes in *.
    apply dec_blob_reads; [done|lia|unfold in_u; lia].
  - intros d v d' Hl H. apply (dec_blob_canon lim) in H as [(? & _) ?]; [|done]. done.
Qed.

(** An endpoint that may be left out ([CommitRequest::source]). *)
Definition read_optional_endpoint : Dec bytes :=
  let? raw := dec_text kMaxEndpointIdBytes in
  dlift (if bytes_eqb raw [] then Ok [] else EndpointId_parse raw).

#[global] Instance optional_endpoint_codec lim `{!Roomy lim} :
  Codec lim enc_text read_optional_endpoint actor_ok.
Proof.
  split.
  - intros t Ht. unfold read_optional_endpoint. solve_reads; [by apply actor_text|by apply actor_parse].
  - intros d t d' Hl H. unfold read_optional_endpoint in H. repeat dstep H. dfacts. dcanon.
    apply actor_parse in H as [-> Ha]. split; [done|solve_consumed].
Qed.

(** ** Peer identity hint *)

Record PeerIdentityHint := mkPeerIdentityHint {
  ph_endpoint : bytes;
  ph_boot : bytes;
  ph_epoch : Z;
  ph_role : Z;
  ph_contract : bytes;
  ph_capability_digest : Digest }.

Definition PeerIdentityHint_domain : bytes := lit "SMF-MSG-PEER-IDENTITY-HINT-v1".

Definition PeerIdentityHint_validate (m : PeerIdentityHint) : Result unit :=
  require_endpoint (ph_endpoint m) "peer endpoint" ;!
  reject_if (array_is_zero (ph_boot m)) RC.INVALID_ID "peer boot id must not be zero" ;!
  require_generation (ph_epoch m) "peer incarnation epoch" ;!
  require_role (ph_role m) ;!
  reject_if (bytes_eqb (ph_contract m) []) RC.ENDPOINT_CONTRACT_MISMATCH "peer contract must not be empty" ;!
  require_bound (ph_contract m) kMaxWireContractBytes "peer contract" ;!
  require_digest (ph_capability_digest m) "peer capability digest".

Definition PeerIdentityHint_encode (m : PeerIdentityHint) : bytes :=
  enc_text PeerIdentityHint_domain ++ enc_text (ph_endpoint m) ++ FixedId_encode (ph_boot m) ++
  enc_u64 (ph_epoch m) ++ enc_u8 (ph_role m) ++ enc_text (ph_contract m) ++
  enc_digest (ph_capability_digest m).

Definition PeerIdentityHint_decode : Dec PeerIdentityHint :=
  check_domain PeerIdentityHint_domain ;?
  let? endpoint := read_endpoint in
  let? boot := FixedId_decode kBootIdBytes in
  let? epoch := dec_u64 in
  let? role := dec_u8 in
  dlift (require_role role) ;?
  let? contract := dec_text kMaxWireContractBytes in
  let? capability := dec_digest in
  validated PeerIdentityHint_validate (mkPeerIdentityHint endpoint boot epoch role contract capability).

Definition PeerIdentityHint_ok (m : PeerIdentityHint) : Prop :=
  endpoint_ok (ph_endpoint m) /\ id_wf 16 (ph_boot m) /\ in_u 64 (ph_epoch m) /\ in_u 8 (ph_role m) /\
  text_ok kMaxWireContractBytes (ph_contract m) /\ digest_wf (ph_capability_digest m) /\
  PeerIdentityHint_validate m = Ok tt.

#[global] Instance PeerIdentityHint_codec lim `{!WireRoom lim} :
  Codec lim PeerIdentityHint_encode PeerIdentityHint_decode PeerIdentityHint_ok.
Proof.
  split.
  - intros m (H1 & H2 & H3 & H4 & H5 & H6 & Hv). unfold PeerIdentityHint_decode, PeerIdentityHint_encode.
    assert (require_role (ph_role m) = Ok tt) as Hr.
    { unfold PeerIdentityHint_validate in Hv. rewrite !seq_Ok in Hv. tauto. }
    wire_reads; try eassumption; destruct m; reflexivity.
  - intros d m d' Hl H. unfold PeerIdentityHint_decode in H. wire_canon H.
    split; [unfold PeerIdentityHint_ok; split_and?; first [assumption|reflexivity]|].
    unfold PeerIdentityHint_encode. solve_consumed.
Qed.

(** ** Transfer grant *)

Record TransferGrant := mkGrant {
  tg_movement_id : bytes;
  tg_movement_generation : Z;
  tg_attempt : bytes;
  tg_object : StateObjectDescriptor;
  tg_source : bytes;
  tg_source_incarnation : Incarnation;
  tg_destination : bytes;
  tg_destination_incarnation : Incarnation;
  tg_policy_generation : Z;
  tg_grant_nonce : bytes;
  tg_max_bytes : Z;
  tg_max_chunks : Z;
  tg_issued_unix_millis : Z;
  tg_effect_class : EffectClass;
  tg_signature : Digest }.

Definition kSignatureDomain : bytes := lit "SMF-TRANSFER-GRANT-v1".

Definition TransferGrant_validate (g : TransferGrant) : Result unit :=
  reject_if (array_is_zero (tg_movement_id g)) RC.INVALID_ID "transfer grant requires a movement id" ;!
  require_generation (tg_movement_generation g) "movement generation" ;!
  reject_if (array_is_zero (tg_attempt g)) RC.INVALID_ID "transfer grant requires a transfer attempt id" ;!
  StateObjectDescriptor_validate (tg_object g) ;!
  require_endpoint (tg_source g) "grant source" ;!
  require_endpoint (tg_destination g) "grant destination" ;!
  reject_if (bytes_eqb (tg_source g) (tg_destination g)) RC.SELF_MOVEMENT
    "a transfer grant must move bytes between two endpoints" ;!
  require_incarnation (tg_source_incarnation g) (tg_source g) "source incarnation" ;!
  require_incarnation (tg_destination_incarnation g) (tg_destination g) "destination incarnation" ;!
  require_generation (tg_policy_generation g) "policy generation" ;!
  reject_if (array_is_zero (tg_grant_nonce g)) RC.INVALID_ID "transfer grant requires a nonce" ;!
  reject_if (tg_max_bytes g =? 0) RC.INVALID_SIZE "transfer grant requires a non-zero byte budget" ;!
  reject_if (tg_max_chunks g =? 0) RC.INVALID_SIZE "transfer grant requires a non-zero chunk budget" ;!
  reject_if (tg_issued_unix_millis g <=? 0) RC.INVALID_ARGUMENT "transfer grant requires an issue timestamp" ;!
  reject_if (array_is_zero (tg_signature g)) RC.INVALID_DIGEST "transfer grant is not signed".

Definition encode_unsigned (g : TransferGrant) : bytes :=
  FixedId_encode (tg_movement_id g) ++ enc_u64 (tg_movement_generation g) ++ FixedId_encode (tg_attempt g) ++
  StateObjectDescriptor_encode (tg_object g) ++ enc_text (tg_source g) ++
  write_incarnation (tg_source_incarnation g) ++ enc_text (tg_destination g) ++
  write_incarnation (tg_destination_incarnation g) ++ enc_u64 (tg_policy_generation g) ++
  FixedId_encode (tg_grant_nonce g) ++ enc_u64 (tg_max_bytes g) ++ enc_u32 (tg_max_chunks g) ++
  enc_i64 (tg_issued_unix_millis g) ++ write_effect_class (tg_effect_class g).

Definition TransferGrant_encode (g : TransferGrant) : bytes :=
  encode_unsigned g ++ enc_digest (tg_signature g).

Definition TransferGrant_decode : Dec TransferGrant :=
  let? movement_id := FixedId_decode kMovementIdBytes in
  let? generation := read_generation in
  let? attempt := FixedId_decode kTransferAttemptIdBytes in
  let? object := StateObjectDescriptor_decode in
  let? source := read_endpoint in
  let? source_incarnation := read_incarnation in
  let? destination := read_endpoint in
  let? destination_incarnation := read_incarnation in
  let? policy_generation := read_generation in
  let? nonce := FixedId_decode kNonceBytes in
  let? max_bytes := dec_u64 in
  let? max_chunks := dec_u32 in
  let? issued := dec_i64 in
  let? effect := read_effect_class in
  let? signature := dec_digest in
  validated TransferGrant_validate
    (mkGrant movement_id generation attempt object source source_incarnation destination
       destination_incarnation policy_generation nonce max_bytes max_chunks issued effect signature).

Definition compute_signature (key : bytes) (g : TransferGrant) : Digest :=
  canonical_mac key (enc_text kSignatureDomain ++ encode_unsigned g).

Definition with_signature (g : TransferGrant) (s : Digest) : TransferGrant :=
  mkGrant (tg_movement_id g) (tg_movement_generation g) (tg_attempt g) (tg_object g) (tg_source g)
    (tg_source_incarnation g) (tg_destination g) (tg_destination_incarnation g) (tg_policy_generation g)
    (tg_grant_nonce g) (tg_max_bytes g) (tg_max_chunks g) (tg_issued_unix_millis g) (tg_effect_class g) s.

Definition sign (key : bytes) (g : TransferGrant) : TransferGrant * Result unit :=
  let g := with_signature g (compute_signature key g) in (g, TransferGrant_validate g).

Definition verify_signature (key : bytes) (g : TransferGrant) : Result unit :=
  TransferGrant_validate g ;!
  if negb (constant_time_equal (compute_signature key g) (tg_signature g))
  then fail RC.PROTOCOL_AUTH_FAILED "transfer grant signature did not verify"
  else Ok tt.

Definition grant_ok (g : TransferGrant) : Prop :=
  id_wf 16 (tg_movement_id g) /\ in_u 64 (tg_movement_generation g) /\ id_wf 16 (tg_attempt g) /\
  descriptor_ok (tg_object g) /\ endpoint_ok (tg_source g) /\ incarnation_ok (tg_source_incarnation g) /\
  endpoint_ok (tg_destination g) /\ incarnation_ok (tg_destination_incarnation g) /\
  in_u 64 (tg_policy_generation g) /\ id_wf 32 (tg_grant_nonce g) /\ in_u 64 (tg_max_bytes g) /\
  in_u 32 (tg_max_chunks g) /\ in_i64 (tg_issued_unix_millis g) /\ digest_wf (tg_signature g) /\
  TransferGrant_validate g = Ok tt.

#[global] Instance grant_codec lim `{!WireRoom lim} : Codec lim TransferGrant_encode TransferGrant_decode grant_ok.
Proof.
  change enc_u64 with write_generation in *.
  split.
  - intros g H. unfold grant_ok in H. repeat match goal with H : _ /\ _ |- _ => destruct H end.
    unfold TransferGrant_decode, TransferGrant_encode, encode_unsigned.
    wire_reads; try assumption; try exact I; destruct g; reflexivity.
  - intros d g d' Hl H. unfold TransferGrant_decode in H. wire_canon H.
    split; [unfold grant_ok; split_and?; first [assumption|reflexivity]|].
    unfold TransferGrant_encode, encode_unsigned. solve_consumed.
Qed.

(** The loop of [ProvenanceReport::validate]. *)
Fixpoint check_events (i : Z) (events : list ProvenanceEvent) : Result unit :=
  match events with
  | [] => Ok tt
  | e :: rest =>
    ProvenanceEvent_validate e ;!
    reject_if (negb (ev_sequence e =? i + 1)) RC.STORE_RECORD_INVALID
      "provenance report is not contiguous or is out of order" ;!
    check_events (i + 1) rest
  end.

#[global] Instance events_codec lim `{!WireRoom lim} :
  Codec lim (write_sequence ProvenanceEvent_encode)
    (read_sequence ProvenanceEvent_decode kMaxProvenanceEvents) (sequence_ok event_ok kMaxProvenanceEvents).
Proof. by apply sequence_codec; [apply _|]. Qed.

#[global] Instance registrations_codec lim `{!WireRoom lim} :
  Codec lim (write_sequence write_registration)
    (read_sequence read_registration kMaxEndpoints) (sequence_ok registration_range kMaxEndpoints).
Proof. by apply sequence_codec; [apply registration_codec, _|]. Qed.

(** ** Messages *)

Record RegisterRequest := mkRegisterRequest {
  rr_identity : PeerIdentityHint;
  rr_service_address : SocketAddress;
  rr_data_address : SocketAddress;
  rr_inventory_digest : Digest }.

Definition RegisterRequest_domain : bytes := lit "SMF-MSG-REGISTER-REQUEST-v1".

Definition RegisterRequest_validate (m : RegisterRequest) : Result unit :=
  PeerIdentityHint_validate (rr_identity m) ;!
  require_address (rr_service_address m) false "service address" ;!
  require_address (rr_data_address m) true "data address" ;!
  require_digest (rr_inventory_digest m) "inventory digest".

Definition RegisterRequest_encode (m : RegisterRequest) : bytes :=
  enc_text RegisterRequest_domain ++ PeerIdentityHint_encode (rr_identity m) ++
  write_address (rr_service_address m) ++ write_address (rr_data_address m) ++
  enc_digest (rr_inventory_digest m).

Definition RegisterRequest_decode : Dec RegisterRequest :=
  check_domain RegisterRequest_domain ;?
  let? identity := PeerIdentityHint_decode in
  let? service_address := read_address in
  let? data_address := read_address in
  let? inventory_digest := dec_digest in
  validated RegisterRequest_validate (mkRegisterRequest identity service_address data_address inventory_digest).

Definition RegisterRequest_ok (m : RegisterRequest) : Prop :=
  PeerIdentityHint_ok (rr_identity m) /\ address_ok (rr_service_address m) /\
  address_ok (rr_data_address m) /\ digest_wf (rr_inventory_digest m) /\
  RegisterRequest_validate m = Ok tt.

#[global] Instance RegisterRequest_codec lim `{!WireRoom lim} :
  Codec lim RegisterRequest_encode RegisterRequest_decode RegisterRequest_ok.
Proof. wire_codec RegisterRequest_encode RegisterRequest_decode RegisterRequest_ok. Qed.

#[global] Instance RegisterRequest_message : WireMessage RegisterRequest := {
  wm_type := MT.REGISTER;
  wm_domain := RegisterRequest_domain;
  wm_validate := RegisterRequest_validate;
  wm_encode := RegisterRequest_encode;
  wm_decode := RegisterRequest_decode }.
#[global] Instance RegisterRequest_laws : WireLaws RegisterRequest RegisterRequest_ok.
Proof. wire_laws RegisterRequest_ok. Qed.

Record RegisterAck := mkRegisterAck {
  ra_topology_generation : Z;
  ra_policy_generation : Z;
  ra_coordinator : Incarnation;
  ra_policy_digest : Digest;
  ra_max_inflight_chunks : Z;
  ra_max_chunk_bytes : Z;
  ra_max_object_bytes : Z;
  ra_io_budget_millis : Z;
  ra_transfer_budget_millis : Z }.

Definition RegisterAck_domain : bytes := lit "SMF-MSG-REGISTER-ACK-v1".

Definition RegisterAck_validate (m : RegisterAck) : Result unit :=
  require_generation (ra_topology_generation m) "topology generation" ;!
  require_generation (ra_policy_generation m) "policy generation" ;!
  reject_if (negb (Incarnation_is_set (ra_coordinator m))) RC.STALE_INCARNATION
    "registration ack requires a coordinator incarnation" ;!
  require_digest (ra_policy_digest m) "policy digest" ;!
  reject_if (ra_max_inflight_chunks m =? 0) RC.INVALID_POLICY "registration ack requires a non-zero in-flight bound" ;!
  reject_if (ra_max_chunk_bytes m =? 0) RC.INVALID_POLICY "registration ack requires a non-zero chunk bound" ;!
  reject_if (ra_max_object_bytes m =? 0) RC.INVALID_POLICY "registration ack requires a non-zero object bound" ;!
  reject_if (ra_io_budget_millis m =? 0) RC.INVALID_POLICY "registration ack requires a non-zero io budget" ;!
  reject_if (ra_transfer_budget_millis m =? 0) RC.INVALID_POLICY "registration ack requires a non-zero transfer budget".

Definition RegisterAck_encode (m : RegisterAck) : bytes :=
  enc_text RegisterAck_domain ++ write_generation (ra_topology_generation m) ++
  write_generation (ra_policy_generation m) ++ write_incarnation (ra_coordinator m) ++
  enc_digest (ra_policy_digest m) ++ enc_u32 (ra_max_inflight_chunks m) ++
  enc_u64 (ra_max_chunk_bytes m) ++ enc_u64 (ra_max_object_bytes m) ++
  enc_u32 (ra_io_budget_millis m) ++ enc_u32 (ra_transfer_budget_millis m).

Definition RegisterAck_decode : Dec RegisterAck :=
  check_domain RegisterAck_domain ;?
  let? topology_generation := read_generation in
  let? policy_generation := read_generation in
  let? coordinator := read_incarnation in
  let? policy_digest := dec_digest in
  let? max_inflight_chunks := dec_u32 in
  let? max_chunk_bytes := dec_u64 in
  let? max_object_bytes := dec_u64 in
  let? io_budget_millis := dec_u32 in
  let? transfer_budget_millis := dec_u32 in
  validated RegisterAck_validate (mkRegisterAck topology_generation policy_generation coordinator policy_digest
    max_inflight_chunks max_chunk_bytes max_object_bytes io_budget_millis transfer_budget_millis).

Definition RegisterAck_ok (m : RegisterAck) : Prop :=
  in_u 64 (ra_topology_generation m) /\ in_u 64 (ra_policy_generation m) /\
  incarnation_ok (ra_coordinator m) /\ digest_wf (ra_policy_digest m) /\
  in_u 32 (ra_max_inflight_chunks m) /\ in_u 64 (ra_max_chunk_bytes m) /\
  in_u 64 (ra_max_object_bytes m) /\ in_u 32 (ra_io_budget_millis m) /\
  in_u 32 (ra_transfer_budget_millis m) /\ RegisterAck_validate m = Ok tt.

#[global] Instance RegisterAck_codec lim `{!WireRoom lim} :
  Codec lim RegisterAck_encode RegisterAck_decode RegisterAck_ok.
Proof. wire_codec RegisterAck_encode RegisterAck_decode RegisterAck_ok. Qed.

#[global] Instance RegisterAck_message : WireMessage RegisterAck := {
  wm_type := MT.REGISTER_ACK;
  wm_domain := RegisterAck_domain;
  wm_validate := RegisterAck_validate;
  wm_encode := RegisterAck_encode;
  wm_decode := RegisterAck_decode }.
#[global] Instance RegisterAck_laws : WireLaws RegisterAck RegisterAck_ok.
Proof. wire_laws RegisterAck_ok. Qed.

Record AnnounceObject := mkAnnounceObject {
  ao_descriptor : StateObjectDescriptor }.

Definition AnnounceObject_domain : bytes := lit "SMF-MSG-ANNOUNCE-OBJECT-v1".

Definition AnnounceObject_validate (m : AnnounceObject) : Result unit :=
  StateObjectDescriptor_validate (ao_descriptor m).

Definition AnnounceObject_encode (m : AnnounceObject) : bytes :=
  enc_text AnnounceObject_domain ++ StateObjectDescriptor_encode (ao_descriptor m).

Definition AnnounceObject_decode : Dec AnnounceObject :=
  check_domain AnnounceObject_domain ;?
  let? descriptor := StateObjectDescriptor_decode in
  validated AnnounceObject_validate (mkAnnounceObject descriptor).

Definition AnnounceObject_ok (m : AnnounceObject) : Prop :=
  descriptor_ok (ao_descriptor m) /\ AnnounceObject_validate m = Ok tt.

#[global] Instance AnnounceObject_codec lim `{!WireRoom lim} :
  Codec lim AnnounceObject_encode AnnounceObject_decode AnnounceObject_ok.
Proof. wire_codec AnnounceObject_encode AnnounceObject_decode AnnounceObject_ok. Qed.

#[global] Instance AnnounceObject_message : WireMessage AnnounceObject := {
  wm_type := MT.ANNOUNCE_OBJECT;
  wm_domain := AnnounceObject_domain;
  wm_validate := AnnounceObject_validate;
  wm_encode := AnnounceObject_encode;
  wm_decode := AnnounceObject_decode }.
#[global] Instance AnnounceObject_laws : WireLaws AnnounceObject AnnounceObject_ok.
Proof. wire_laws AnnounceObject_ok. Qed.

Record AnnounceAck := mkAnnounceAck {
  aa_code : ReasonCode;
  aa_detail : bytes }.

Definition AnnounceAck_domain : bytes := lit "SMF-MSG-ANNOUNCE-ACK-v1".

Definition AnnounceAck_validate (m : AnnounceAck) : Result unit :=
  require_bound (aa_detail m) kMaxDetailBytes "detail".

Definition AnnounceAck_encode (m : AnnounceAck) : bytes :=
  enc_text AnnounceAck_domain ++ write_reason (aa_code m) ++ write_detail (aa_detail m).

Definition AnnounceAck_decode : Dec AnnounceAck :=
  check_domain AnnounceAck_domain ;?
  let? code := read_reason in
  let? detail := read_detail in
  validated AnnounceAck_validate (mkAnnounceAck code detail).

Definition AnnounceAck_ok (m : AnnounceAck) : Prop :=
  reason_known (aa_code m) /\ text_ok kMaxDetailBytes (aa_detail m) /\ AnnounceAck_validate m = Ok tt.

#[global] Instance AnnounceAck_codec lim `{!WireRoom lim} :
  Codec lim AnnounceAck_encode AnnounceAck_decode AnnounceAck_ok.
Proof. wire_codec AnnounceAck_encode AnnounceAck_decode AnnounceAck_ok. Qed.

#[global] Instance AnnounceAck_message : WireMessage AnnounceAck := {
  wm_type := MT.ANNOUNCE_ACK;
  wm_domain := AnnounceAck_domain;
  wm_validate := AnnounceAck_validate;
  wm_encode := AnnounceAck_encode;
  wm_decode := AnnounceAck_decode }.
#[global] Instance AnnounceAck_laws : WireLaws AnnounceAck AnnounceAck_ok.
Proof. wire_laws AnnounceAck_ok. Qed.

Record GrantTransfer := mkGrantTransfer {
  gt_grant : TransferGrant }.

Definition GrantTransfer_domain : bytes := lit "SMF-MSG-GRANT-TRANSFER-v1".

Definition GrantTransfer_validate (m : GrantTransfer) : Result unit :=
  TransferGrant_validate (gt_grant m).

Definition GrantTransfer_encode (m : GrantTransfer) : bytes :=
  enc_text GrantTransfer_domain ++ TransferGrant_encode (gt_grant m).

Definition GrantTransfer_decode : Dec GrantTransfer :=
  check_domain GrantTransfer_domain ;?
  let? grant := TransferGrant_decode in
  validated GrantTransfer_validate (mkGrantTransfer grant).

Definition GrantTransfer_ok (m : GrantTransfer) : Prop :=
  grant_ok (gt_grant m) /\ GrantTransfer_validate m = Ok tt.

#[global] Instance GrantTransfer_codec lim `{!WireRoom lim} :
  Codec lim GrantTransfer_encode GrantTransfer_decode GrantTransfer_ok.
Proof. wire_codec GrantTransfer_encode GrantTransfer_decode GrantTransfer_ok. Qed.

#[global] Instance GrantTransfer_message : WireMessage GrantTransfer := {
  wm_type := MT.GRANT_TRANSFER;
  wm_domain := GrantTransfer_domain;
  wm_validate := GrantTransfer_validate;
  wm_encode := GrantTransfer_encode;
  wm_decode := GrantTransfer_decode }.
#[global] Instance GrantTransfer_laws : WireLaws GrantTransfer GrantTransfer_ok.
Proof. wire_laws GrantTransfer_ok. Qed.

Record GrantAck := mkGrantAck {
  ga_nonce : Digest;
  ga_code : ReasonCode;
  ga_detail : bytes }.

Definition GrantAck_domain : bytes := lit "SMF-MSG-GRANT-ACK-v1".

Definition GrantAck_validate (m : GrantAck) : Result unit :=
  require_digest (ga_nonce m) "grant nonce" ;!
  require_bound (ga_detail m) kMaxDetailBytes "detail".

Definition GrantAck_encode (m : GrantAck) : bytes :=
  enc_text GrantAck_domain ++ enc_digest (ga_nonce m) ++ write_reason (ga_code m) ++
  write_detail (ga_detail m).

Definition GrantAck_decode : Dec GrantAck :=
  check_domain GrantAck_domain ;?
  let? nonce := dec_digest in
  let? code := read_reason in
  let? detail := read_detail in
  validated GrantAck_validate (mkGrantAck nonce code detail).

Definition GrantAck_ok (m : GrantAck) : Prop :=
  digest_wf (ga_nonce m) /\ reason_known (ga_code m) /\ text_ok kMaxDetailBytes (ga_detail m) /\
  GrantAck_validate m = Ok tt.

#[global] Instance GrantAck_codec lim `{!WireRoom lim} :
  Codec lim GrantAck_encode GrantAck_decode GrantAck_ok.
Proof. wire_codec GrantAck_encode GrantAck_decode GrantAck_ok. Qed.

#[global] Instance GrantAck_message : WireMessage GrantAck := {
  wm_type := MT.GRANT_ACK;
  wm_domain := GrantAck_domain;
  wm_validate := GrantAck_validate;
  wm_encode := GrantAck_encode;
  wm_decode := GrantAck_decode }.
#[global] Instance GrantAck_laws : WireLaws GrantAck GrantAck_ok.
Proof. wire_laws GrantAck_ok. Qed.

Record ExecuteMovement := mkExecuteMovement {
  em_movement_id : bytes;
  em_movement_generation : Z;
  em_attempt : bytes;
  em_nonce : Digest;
  em_source : bytes }.

Definition ExecuteMovement_domain : bytes := lit "SMF-MSG-EXECUTE-MOVEMENT-v1".

Definition ExecuteMovement_validate (m : ExecuteMovement) : Result unit :=
  reject_if (array_is_zero (em_movement_id m)) RC.INVALID_ID "execute movement requires a movement id" ;!
  require_generation (em_movement_generation m) "movement generation" ;!
  reject_if (array_is_zero (em_attempt m)) RC.INVALID_ID "execute movement requires a transfer attempt id" ;!
  require_digest (em_nonce m) "execute movement nonce" ;!
  require_endpoint (em_source m) "execute movement source".

Definition ExecuteMovement_encode (m : ExecuteMovement) : bytes :=
  enc_text ExecuteMovement_domain ++ FixedId_encode (em_movement_id m) ++
  write_generation (em_movement_generation m) ++ FixedId_encode (em_attempt m) ++
  enc_digest (em_nonce m) ++ enc_text (em_source m).

Definition ExecuteMovement_decode : Dec ExecuteMovement :=
  check_domain ExecuteMovement_domain ;?
  let? movement_id := FixedId_decode kMovementIdBytes in
  let? movement_generation := read_generation in
  let? attempt := FixedId_decode kTransferAttemptIdBytes in
  let? nonce := dec_digest in
  let? source := read_endpoint in
  validated ExecuteMovement_validate (mkExecuteMovement movement_id movement_generation attempt nonce source).

Definition ExecuteMovement_ok (m : ExecuteMovement) : Prop :=
  id_wf 16 (em_movement_id m) /\ in_u 64 (em_movement_generation m) /\ id_wf 16 (em_attempt m) /\
  digest_wf (em_nonce m) /\ endpoint_ok (em_source m) /\ ExecuteMovement_validate m = Ok tt.

#[global] Instance ExecuteMovement_codec lim `{!WireRoom lim} :
  Codec lim ExecuteMovement_encode ExecuteMovement_decode ExecuteMovement_ok.
Proof. wire_codec ExecuteMovement_encode ExecuteMovement_decode ExecuteMovement_ok. Qed.

#[global] Instance ExecuteMovement_message : WireMessage ExecuteMovement := {
  wm_type := MT.EXECUTE_MOVEMENT;
  wm_domain := ExecuteMovement_domain;
  wm_validate := ExecuteMovement_validate;
  wm_encode := ExecuteMovement_encode;
  wm_decode := ExecuteMovement_decode }.
#[global] Instance ExecuteMovement_laws : WireLaws ExecuteMovement ExecuteMovement_ok.
Proof. wire_laws ExecuteMovement_ok. Qed.

Record AttemptResult := mkAttemptResult {
  ar_movement_id : bytes;
  ar_movement_generation : Z;
  ar_attempt : bytes;
  ar_state : MovementState;
  ar_code : ReasonCode;
  ar_detail : bytes;
  ar_verified_digest : Digest;
  ar_bytes : Z;
  ar_chunks : Z;
  ar_marker_digest : Digest }.

Definition AttemptResult_domain : bytes := lit "SMF-MSG-ATTEMPT-RESULT-v1".

Definition AttemptResult_validate (m : AttemptResult) : Result unit :=
  reject_if (array_is_zero (ar_movement_id m)) RC.INVALID_ID "attempt result requires a movement id" ;!
  require_generation (ar_movement_generation m) "movement generation" ;!
  reject_if (array_is_zero (ar_attempt m)) RC.INVALID_ID "attempt result requires a transfer attempt id" ;!
  require_bound (ar_detail m) kMaxDetailBytes "detail".

Definition AttemptResult_encode (m : AttemptResult) : bytes :=
  enc_text AttemptResult_domain ++ FixedId_encode (ar_movement_id m) ++
  write_generation (ar_movement_generation m) ++ FixedId_encode (ar_attempt m) ++
  write_movement_state (ar_state m) ++ write_reason (ar_code m) ++ write_detail (ar_detail m) ++
  enc_digest (ar_verified_digest m) ++ enc_u64 (ar_bytes m) ++ enc_u32 (ar_chunks m) ++
  enc_digest (ar_marker_digest m).

Definition AttemptResult_decode : Dec AttemptResult :=
  check_domain AttemptResult_domain ;?
  let? movement_id := FixedId_decode kMovementIdBytes in
  let? movement_generation := read_generation in
  let? attempt := FixedId_decode kTransferAttemptIdBytes in
  let? state := read_movement_state in
  let? code := read_reason in
  let? detail := read_detail in
  let? verified_digest := dec_digest in
  let? byte_count := dec_u64 in
  let? chunks := dec_u32 in
  let? marker_digest := dec_digest in
  validated AttemptResult_validate (mkAttemptResult movement_id movement_generation attempt state code detail verified_digest
    byte_count chunks marker_digest).

Definition AttemptResult_ok (m : AttemptResult) : Prop :=
  id_wf 16 (ar_movement_id m) /\ in_u 64 (ar_movement_generation m) /\ id_wf 16 (ar_attempt m) /\
  reason_known (ar_code m) /\ text_ok kMaxDetailBytes (ar_detail m) /\
  digest_wf (ar_verified_digest m) /\ in_u 64 (ar_bytes m) /\ in_u 32 (ar_chunks m) /\
  digest_wf (ar_marker_digest m) /\ AttemptResult_validate m = Ok tt.

#[global] Instance AttemptResult_codec lim `{!WireRoom lim} :
  Codec lim AttemptResult_encode AttemptResult_decode AttemptResult_ok.
Proof. wire_codec AttemptResult_encode AttemptResult_decode AttemptResult_ok. Qed.

#[global] Instance AttemptResult_message : WireMessage AttemptResult := {
  wm_type := MT.ATTEMPT_RESULT;
  wm_domain := AttemptResult_domain;
  wm_validate := AttemptResult_validate;
  wm_encode := AttemptResult_encode;
  wm_decode := AttemptResult_decode }.
#[global] Instance AttemptResult_laws : WireLaws AttemptResult AttemptResult_ok.
Proof. wire_laws AttemptResult_ok. Qed.

Record CancelRequest := mkCancelRequest {
  cq_movement_id : bytes;
  cq_movement_generation : Z }.

Definition CancelRequest_domain : bytes := lit "SMF-MSG-CANCEL-REQUEST-v1".

Definition CancelRequest_validate (m : CancelRequest) : Result unit :=
  reject_if (array_is_zero (cq_movement_id m)) RC.INVALID_ID "cancel request requires a movement id" ;!
  require_generation (cq_movement_generation m) "movement generation".

Definition CancelRequest_encode (m : CancelRequest) : bytes :=
  enc_text CancelRequest_domain ++ FixedId_encode (cq_movement_id m) ++
  write_generation (cq_movement_generation m).

Definition CancelRequest_decode : Dec CancelRequest :=
  check_domain CancelRequest_domain ;?
  let? movement_id := FixedId_decode kMovementIdBytes in
  let? movement_generation := read_generation in
  validated CancelRequest_validate (mkCancelRequest movement_id movement_generation).

Definition CancelRequest_ok (m : CancelRequest) : Prop :=
  id_wf 16 (cq_movement_id m) /\ in_u 64 (cq_movement_generation m) /\ CancelRequest_validate m = Ok tt.

#[global] Instance CancelRequest_codec lim `{!WireRoom lim} :
  Codec lim CancelRequest_encode CancelRequest_decode CancelRequest_ok.
Proof. wire_codec CancelRequest_encode CancelRequest_decode CancelRequest_ok. Qed.

#[global] Instance CancelRequest_message : WireMessage CancelRequest := {
  wm_type := MT.CANCEL;
  wm_domain := CancelRequest_domain;
  wm_validate := CancelRequest_validate;
  wm_encode := CancelRequest_encode;
  wm_decode := CancelRequest_decode }.
#[global] Instance CancelRequest_laws : WireLaws CancelRequest CancelRequest_ok.
Proof. wire_laws CancelRequest_ok. Qed.

Record CancelAck := mkCancelAck {
  ca_movement_id : bytes;
  ca_movement_generation : Z;
  ca_code : ReasonCode;
  ca_detail : bytes }.

Definition CancelAck_domain : bytes := lit "SMF-MSG-CANCEL-ACK-v1".

Definition CancelAck_validate (m : CancelAck) : Result unit :=
  reject_if (array_is_zero (ca_movement_id m)) RC.INVALID_ID "cancel ack requires a movement id" ;!
  require_generation (ca_movement_generation m) "movement generation" ;!
  require_bound (ca_detail m) kMaxDetailBytes "detail".

Definition CancelAck_encode (m : CancelAck) : bytes :=
  enc_text CancelAck_domain ++ FixedId_encode (ca_movement_id m) ++
  write_generation (ca_movement_generation m) ++ write_reason (ca_code m) ++ write_detail (ca_detail m).

Definition CancelAck_decode : Dec CancelAck :=
  check_domain CancelAck_domain ;?
  let? movement_id := FixedId_decode kMovementIdBytes in
  let? movement_generation := read_generation in
  let? code := read_reason in
  let? detail := read_detail in
  validated CancelAck_validate (mkCancelAck movement_id movement_generation code detail).

Definition CancelAck_ok (m : CancelAck) : Prop :=
  id_wf 16 (ca_movement_id m) /\ in_u 64 (ca_movement_generation m) /\ reason_known (ca_code m) /\
  text_ok kMaxDetailBytes (ca_detail m) /\ CancelAck_validate m = Ok tt.

#[global] Instance CancelAck_codec lim `{!WireRoom lim} :
  Codec lim CancelAck_encode CancelAck_decode CancelAck_ok.
Proof. wire_codec CancelAck_encode CancelAck_decode CancelAck_ok. Qed.

#[global] Instance CancelAck_message : WireMessage CancelAck := {
  wm_type := MT.CANCEL_ACK;
  wm_domain := CancelAck_domain;
  wm_validate := CancelAck_validate;
  wm_encode := CancelAck_encode;
  wm_decode := CancelAck_decode }.
#[global] Instance CancelAck_laws : WireLaws CancelAck CancelAck_ok.
Proof. wire_laws CancelAck_ok. Qed.

Record CommitRequest := mkCommitRequest {
  co_movement_id : bytes;
  co_movement_generation : Z;
  co_attempt : bytes;
  co_object : StateObjectDescriptor;
  co_source : bytes }.

Definition CommitRequest_domain : bytes := lit "SMF-MSG-COMMIT-REQUEST-v1".

Definition CommitRequest_validate (m : CommitRequest) : Result unit :=
  reject_if (array_is_zero (co_movement_id m)) RC.INVALID_ID "commit request requires a movement id" ;!
  require_generation (co_movement_generation m) "movement generation" ;!
  reject_if (array_is_zero (co_attempt m)) RC.INVALID_ID "commit request requires a transfer attempt id" ;!
  StateObjectDescriptor_validate (co_object m).

Definition CommitRequest_encode (m : CommitRequest) : bytes :=
  enc_text CommitRequest_domain ++ FixedId_encode (co_movement_id m) ++
  write_generation (co_movement_generation m) ++ FixedId_encode (co_attempt m) ++
  StateObjectDescriptor_encode (co_object m) ++ enc_text (co_source m).

Definition CommitRequest_decode : Dec CommitRequest :=
  check_domain CommitRequest_domain ;?
  let? movement_id := FixedId_decode kMovementIdBytes in
  let? movement_generation := read_generation in
  let? attempt := FixedId_decode kTransferAttemptIdBytes in
  let? object := StateObjectDescriptor_decode in
  let? source := read_optional_endpoint in
  validated CommitRequest_validate (mkCommitRequest movement_id movement_generation attempt object source).

Definition CommitRequest_ok (m : CommitRequest) : Prop :=
  id_wf 16 (co_movement_id m) /\ in_u 64 (co_movement_generation m) /\ id_wf 16 (co_attempt m) /\
  descriptor_ok (co_object m) /\ actor_ok (co_source m) /\ CommitRequest_validate m = Ok tt.

#[global] Instance CommitRequest_codec lim `{!WireRoom lim} :
  Codec lim CommitRequest_encode CommitRequest_decode CommitRequest_ok.
Proof. wire_codec CommitRequest_encode CommitRequest_decode CommitRequest_ok. Qed.

#[global] Instance CommitRequest_message : WireMessage CommitRequest := {
  wm_type := MT.COMMIT_REQUEST;
  wm_domain := CommitRequest_domain;
  wm_validate := CommitRequest_validate;
  wm_encode := CommitRequest_encode;
  wm_decode := CommitRequest_decode }.
#[global] Instance CommitRequest_laws : WireLaws CommitRequest CommitRequest_ok.
Proof. wire_laws CommitRequest_ok. Qed.

Record CommitResult := mkCommitResult {
  cr_movement_id : bytes;
  cr_movement_generation : Z;
  cr_code : ReasonCode;
  cr_marker_digest : Digest;
  cr_detail : bytes }.

Definition CommitResult_domain : bytes := lit "SMF-MSG-COMMIT-RESULT-v1".

Definition CommitResult_validate (m : CommitResult) : Result unit :=
  reject_if (array_is_zero (cr_movement_id m)) RC.INVALID_ID "commit result requires a movement id" ;!
  require_generation (cr_movement_generation m) "movement generation" ;!
  require_bound (cr_detail m) kMaxDetailBytes "detail".

Definition CommitResult_encode (m : CommitResult) : bytes :=
  enc_text CommitResult_domain ++ FixedId_encode (cr_movement_id m) ++
  write_generation (cr_movement_generation m) ++ write_reason (cr_code m) ++
  enc_digest (cr_marker_digest m) ++ write_detail (cr_detail m).

Definition CommitResult_decode : Dec CommitResult :=
  check_domain CommitResult_domain ;?
  let? movement_id := FixedId_decode kMovementIdBytes in
  let? movement_generation := read_generation in
  let? code := read_reason in
  let? marker_digest := dec_digest in
  let? detail := read_detail in
  validated CommitResult_validate (mkCommitResult movement_id movement_generation code marker_digest detail).

Definition CommitResult_ok (m : CommitResult) : Prop :=
  id_wf 16 (cr_movement_id m) /\ in_u 64 (cr_movement_generation m) /\ reason_known (cr_code m) /\
  digest_wf (cr_marker_digest m) /\ text_ok kMaxDetailBytes (cr_detail m) /\
  CommitResult_validate m = Ok tt.

#[global] Instance CommitResult_codec lim `{!WireRoom lim} :
  Codec lim CommitResult_encode CommitResult_decode CommitResult_ok.
Proof. wire_codec CommitResult_encode CommitResult_decode CommitResult_ok. Qed.

#[global] Instance CommitResult_message : WireMessage CommitResult := {
  wm_type := MT.COMMIT_RESULT;
  wm_domain := CommitResult_domain;
  wm_validate := CommitResult_validate;
  wm_encode := CommitResult_encode;
  wm_decode := CommitResult_decode }.
#[global] Instance CommitResult_laws : WireLaws CommitResult CommitResult_ok.
Proof. wire_laws CommitResult_ok. Qed.

Record VerifyRequest := mkVerifyRequest {
  vq_movement_id : bytes;
  vq_movement_generation : Z;
  vq_object_id : bytes;
  vq_object_generation : Z;
  vq_full_digest_requested : bool;
  vq_chunk_index : Z;
  vq_chunk_bytes : Z }.

Definition VerifyRequest_domain : bytes := lit "SMF-MSG-VERIFY-REQUEST-v1".

Definition VerifyRequest_validate (m : VerifyRequest) : Result unit :=
  reject_if (array_is_zero (vq_movement_id m)) RC.INVALID_ID "verify request requires a movement id" ;!
  require_generation (vq_movement_generation m) "movement generation" ;!
  reject_if (array_is_zero (vq_object_id m)) RC.INVALID_ID "verify request requires a state object id" ;!
  require_generation (vq_object_generation m) "state object generation".

Definition VerifyRequest_encode (m : VerifyRequest) : bytes :=
  enc_text VerifyRequest_domain ++ FixedId_encode (vq_movement_id m) ++
  write_generation (vq_movement_generation m) ++ FixedId_encode (vq_object_id m) ++
  write_generation (vq_object_generation m) ++ enc_boolean (vq_full_digest_requested m) ++
  enc_u32 (vq_chunk_index m) ++ enc_u64 (vq_chunk_bytes m).

Definition VerifyRequest_decode : Dec VerifyRequest :=
  check_domain VerifyRequest_domain ;?
  let? movement_id := FixedId_decode kMovementIdBytes in
  let? movement_generation := read_generation in
  let? object_id := FixedId_decode kStateObjectIdBytes in
  let? object_generation := read_generation in
  let? full_digest_requested := dec_boolean in
  let? chunk_index := dec_u32 in
  let? chunk_bytes := dec_u64 in
  validated VerifyRequest_validate (mkVerifyRequest movement_id movement_generation object_id object_generation
    full_digest_requested chunk_index chunk_bytes).

Definition VerifyRequest_ok (m : VerifyRequest) : Prop :=
  id_wf 16 (vq_movement_id m) /\ in_u 64 (vq_movement_generation m) /\ id_wf 32 (vq_object_id m) /\
  in_u 64 (vq_object_generation m) /\ in_u 32 (vq_chunk_index m) /\ in_u 64 (vq_chunk_bytes m) /\
  VerifyRequest_validate m = Ok tt.

#[global] Instance VerifyRequest_codec lim `{!WireRoom lim} :
  Codec lim VerifyRequest_encode VerifyRequest_decode VerifyRequest_ok.
Proof. wire_codec VerifyRequest_encode VerifyRequest_decode VerifyRequest_ok. Qed.

#[global] Instance VerifyRequest_message : WireMessage VerifyRequest := {
  wm_type := MT.VERIFY_REQUEST;
  wm_domain := VerifyRequest_domain;
  wm_validate := VerifyRequest_validate;
  wm_encode := VerifyRequest_encode;
  wm_decode := VerifyRequest_decode }.
#[global] Instance VerifyRequest_laws : WireLaws VerifyRequest VerifyRequest_ok.
Proof. wire_laws VerifyRequest_ok. Qed.

Record VerifyResponse := mkVerifyResponse {
  vr_movement_id : bytes;
  vr_object_id : bytes;
  vr_object_generation : Z;
  vr_code : ReasonCode;
  vr_stored_digest : Digest;
  vr_stored_bytes : Z;
  vr_stored_chunks : Z;
  vr_chunk_index : Z;
  vr_chunk_digest : Digest;
  vr_chunk_payload : bytes }.

Definition VerifyResponse_domain : bytes := lit "SMF-MSG-VERIFY-RESPONSE-v1".

Definition VerifyResponse_validate (m : VerifyResponse) : Result unit :=
  reject_if (array_is_zero (vr_movement_id m)) RC.INVALID_ID "verify response requires a movement id" ;!
  reject_if (array_is_zero (vr_object_id m)) RC.INVALID_ID "verify response requires a state object id" ;!
  require_generation (vr_object_generation m) "state object generation" ;!
  reject_if (kMaxWireChunkBytes <? zlen (vr_chunk_payload m)) RC.INVALID_SIZE
    "verify response payload exceeds the chunk bound".

Definition VerifyResponse_encode (m : VerifyResponse) : bytes :=
  enc_text VerifyResponse_domain ++ FixedId_encode (vr_movement_id m) ++
  FixedId_encode (vr_object_id m) ++ write_generation (vr_object_generation m) ++
  write_reason (vr_code m) ++ enc_digest (vr_stored_digest m) ++ enc_u64 (vr_stored_bytes m) ++
  enc_u32 (vr_stored_chunks m) ++ enc_u32 (vr_chunk_index m) ++ enc_digest (vr_chunk_digest m) ++
  enc_blob (vr_chunk_payload m).

Definition VerifyResponse_decode : Dec VerifyResponse :=
  check_domain VerifyResponse_domain ;?
  let? movement_id := FixedId_decode kMovementIdBytes in
  let? object_id := FixedId_decode kStateObjectIdBytes in
  let? object_generation := read_generation in
  let? code := read_reason in
  let? stored_digest := dec_digest in
  let? stored_bytes := dec_u64 in
  let? stored_chunks := dec_u32 in
  let? chunk_index := dec_u32 in
  let? chunk_digest := dec_digest in
  let? chunk_payload := dec_blob kMaxWireChunkBytes in
  validated VerifyResponse_validate (mkVerifyResponse movement_id object_id object_generation code stored_digest stored_bytes
    stored_chunks chunk_index chunk_digest chunk_payload).

Definition VerifyResponse_ok (m : VerifyResponse) : Prop :=
  id_wf 16 (vr_movement_id m) /\ id_wf 32 (vr_object_id m) /\ in_u 64 (vr_object_generation m) /\
  reason_known (vr_code m) /\ digest_wf (vr_stored_digest m) /\ in_u 64 (vr_stored_bytes m) /\
  in_u 32 (vr_stored_chunks m) /\ in_u 32 (vr_chunk_index m) /\ digest_wf (vr_chunk_digest m) /\
  chunk_bytes_ok (vr_chunk_payload m) /\ VerifyResponse_validate m = Ok tt.

#[global] Instance VerifyResponse_codec lim `{!WireRoom lim} :
  Codec lim VerifyResponse_encode VerifyResponse_decode VerifyResponse_ok.
Proof. wire_codec VerifyResponse_encode VerifyResponse_decode VerifyResponse_ok. Qed.

#[global] Instance VerifyResponse_message : WireMessage VerifyResponse := {
  wm_type := MT.VERIFY_RESPONSE;
  wm_domain := VerifyResponse_domain;
  wm_validate := VerifyResponse_validate;
  wm_encode := VerifyResponse_encode;
  wm_decode := VerifyResponse_decode }.
#[global] Instance VerifyResponse_laws : WireLaws VerifyResponse VerifyResponse_ok.
Proof. wire_laws VerifyResponse_ok. Qed.

Record AuthorityQuery := mkAuthorityQuery {
  aq_movement_id : bytes;
  aq_object_id : bytes;
  aq_object_generation : Z }.

Definition AuthorityQuery_domain : bytes := lit "SMF-MSG-AUTHORITY-QUERY-v1".

Definition AuthorityQuery_validate (m : AuthorityQuery) : Result unit :=
  reject_if (array_is_zero (aq_movement_id m)) RC.INVALID_ID "authority query requires a movement id" ;!
  reject_if (array_is_zero (aq_object_id m)) RC.INVALID_ID "authority query requires a state object id" ;!
  require_generation (aq_object_generation m) "state object generation".

Definition AuthorityQuery_encode (m : AuthorityQuery) : bytes :=
  enc_text AuthorityQuery_domain ++ FixedId_encode (aq_movement_id m) ++
  FixedId_encode (aq_object_id m) ++ write_generation (aq_object_generation m).

Definition AuthorityQuery_decode : Dec AuthorityQuery :=
  check_domain AuthorityQuery_domain ;?
  let? movement_id := FixedId_decode kMovementIdBytes in
  let? object_id := FixedId_decode kStateObjectIdBytes in
  let? object_generation := read_generation in
  validated AuthorityQuery_validate (mkAuthorityQuery movement_id object_id object_generation).

Definition AuthorityQuery_ok (m : AuthorityQuery) : Prop :=
  id_wf 16 (aq_movement_id m) /\ id_wf 32 (aq_object_id m) /\ in_u 64 (aq_object_generation m) /\
  AuthorityQuery_validate m = Ok tt.

#[global] Instance AuthorityQuery_codec lim `{!WireRoom lim} :
  Codec lim AuthorityQuery_encode AuthorityQuery_decode AuthorityQuery_ok.
Proof. wire_codec AuthorityQuery_encode AuthorityQuery_decode AuthorityQuery_ok. Qed.

#[global] Instance AuthorityQuery_message : WireMessage AuthorityQuery := {
  wm_type := MT.AUTHORITY_QUERY;
  wm_domain := AuthorityQuery_domain;
  wm_validate := AuthorityQuery_validate;
  wm_encode := AuthorityQuery_encode;
  wm_decode := AuthorityQuery_decode }.
#[global] Instance AuthorityQuery_laws : WireLaws AuthorityQuery AuthorityQuery_ok.
Proof. wire_laws AuthorityQuery_ok. Qed.

Record AuthorityReport := mkAuthorityReport {
  ap_movement_id : bytes;
  ap_code : ReasonCode;
  ap_bytes_present : bool;
  ap_verified : bool;
  ap_marker_present : bool;
  ap_authoritative : bool;
  ap_marker_digest : Digest;
  ap_stored_bytes : Z;
  ap_detail : bytes }.

Definition AuthorityReport_domain : bytes := lit "SMF-MSG-AUTHORITY-REPORT-v1".

Definition AuthorityReport_validate (m : AuthorityReport) : Result unit :=
  reject_if (array_is_zero (ap_movement_id m)) RC.INVALID_ID "authority report requires a movement id" ;!
  require_bound (ap_detail m) kMaxDetailBytes "detail".

Definition AuthorityReport_encode (m : AuthorityReport) : bytes :=
  enc_text AuthorityReport_domain ++ FixedId_encode (ap_movement_id m) ++ write_reason (ap_code m) ++
  enc_boolean (ap_bytes_present m) ++ enc_boolean (ap_verified m) ++
  enc_boolean (ap_marker_present m) ++ enc_boolean (ap_authoritative m) ++
  enc_digest (ap_marker_digest m) ++ enc_u64 (ap_stored_bytes m) ++ write_detail (ap_detail m).

Definition AuthorityReport_decode : Dec AuthorityReport :=
  check_domain AuthorityReport_domain ;?
  let? movement_id := FixedId_decode kMovementIdBytes in
  let? code := read_reason in
  let? bytes_present := dec_boolean in
  let? verified := dec_boolean in
  let? marker_present := dec_boolean in
  let? authoritative := dec_boolean in
  let? marker_digest := dec_digest in
  let? stored_bytes := dec_u64 in
  let? detail := read_detail in
  validated AuthorityReport_validate (mkAuthorityReport movement_id code bytes_present verified marker_present authoritative
    marker_digest stored_bytes detail).

Definition AuthorityReport_ok (m : AuthorityReport) : Prop :=
  id_wf 16 (ap_movement_id m) /\ reason_known (ap_code m) /\ digest_wf (ap_marker_digest m) /\
  in_u 64 (ap_stored_bytes m) /\ text_ok kMaxDetailBytes (ap_detail m) /\
  AuthorityReport_validate m = Ok tt.

#[global] Instance AuthorityReport_codec lim `{!WireRoom lim} :
  Codec lim AuthorityReport_encode AuthorityReport_decode AuthorityReport_ok.
Proof. wire_codec AuthorityReport_encode AuthorityReport_decode AuthorityReport_ok. Qed.

#[global] Instance AuthorityReport_message : WireMessage AuthorityReport := {
  wm_type := MT.AUTHORITY_REPORT;
  wm_domain := AuthorityReport_domain;
  wm_validate := AuthorityReport_validate;
  wm_encode := AuthorityReport_encode;
  wm_decode := AuthorityReport_decode }.
#[global] Instance AuthorityReport_laws : WireLaws AuthorityReport AuthorityReport_ok.
Proof. wire_laws AuthorityReport_ok. Qed.

Record CleanupRequest := mkCleanupRequest {
  kq_movement_id : bytes;
  kq_quarantine : bool }.

Definition CleanupRequest_domain : bytes := lit "SMF-MSG-CLEANUP-REQUEST-v1".

Definition CleanupRequest_validate (m : CleanupRequest) : Result unit :=
  reject_if (array_is_zero (kq_movement_id m)) RC.INVALID_ID "cleanup request requires a movement id".

Definition CleanupRequest_encode (m : CleanupRequest) : bytes :=
  enc_text CleanupRequest_domain ++ FixedId_encode (kq_movement_id m) ++ enc_boolean (kq_quarantine m).

Definition CleanupRequest_decode : Dec CleanupRequest :=
  check_domain CleanupRequest_domain ;?
  let? movement_id := FixedId_decode kMovementIdBytes in
  let? quarantine := dec_boolean in
  validated CleanupRequest_validate (mkCleanupRequest movement_id quarantine).

Definition CleanupRequest_ok (m : CleanupRequest) : Prop :=
  id_wf 16 (kq_movement_id m) /\ CleanupRequest_validate m = Ok tt.

#[global] Instance CleanupRequest_codec lim `{!WireRoom lim} :
  Codec lim CleanupRequest_encode CleanupRequest_decode CleanupRequest_ok.
Proof. wire_codec CleanupRequest_encode CleanupRequest_decode CleanupRequest_ok. Qed.

#[global] Instance CleanupRequest_message : WireMessage CleanupRequest := {
  wm_type := MT.CLEANUP_REQUEST;
  wm_domain := CleanupRequest_domain;
  wm_validate := CleanupRequest_validate;
  wm_encode := CleanupRequest_encode;
  wm_decode := CleanupRequest_decode }.
#[global] Instance CleanupRequest_laws : WireLaws CleanupRequest CleanupRequest_ok.
Proof. wire_laws CleanupRequest_ok. Qed.

Record CleanupResult := mkCleanupResult {
  kr_movement_id : bytes;
  kr_code : ReasonCode;
  kr_bytes_removed : Z;
  kr_entries_removed : Z;
  kr_detail : bytes }.

Definition CleanupResult_domain : bytes := lit "SMF-MSG-CLEANUP-RESULT-v1".

Definition CleanupResult_validate (m : CleanupResult) : Result unit :=
  reject_if (array_is_zero (kr_movement_id m)) RC.INVALID_ID "cleanup result requires a movement id" ;!
  require_bound (kr_detail m) kMaxDetailBytes "detail".

Definition CleanupResult_encode (m : CleanupResult) : bytes :=
  enc_text CleanupResult_domain ++ FixedId_encode (kr_movement_id m) ++ write_reason (kr_code m) ++
  enc_u64 (kr_bytes_removed m) ++ enc_u32 (kr_entries_removed m) ++ write_detail (kr_detail m).

Definition CleanupResult_decode : Dec CleanupResult :=
  check_domain CleanupResult_domain ;?
  let? movement_id := FixedId_decode kMovementIdBytes in
  let? code := read_reason in
  let? bytes_removed := dec_u64 in
  let? entries_removed := dec_u32 in
  let? detail := read_detail in
  validated CleanupResult_validate (mkCleanupResult movement_id code bytes_removed entries_removed detail).

Definition CleanupResult_ok (m : CleanupResult) : Prop :=
  id_wf 16 (kr_movement_id m) /\ reason_known (kr_code m) /\ in_u 64 (kr_bytes_removed m) /\
  in_u 32 (kr_entries_removed m) /\ text_ok kMaxDetailBytes (kr_detail m) /\
  CleanupResult_validate m = Ok tt.

#[global] Instance CleanupResult_codec lim `{!WireRoom lim} :
  Codec lim CleanupResult_encode CleanupResult_decode CleanupResult_ok.
Proof. wire_codec CleanupResult_encode CleanupResult_decode CleanupResult_ok. Qed.

#[global] Instance CleanupResult_message : WireMessage CleanupResult := {
  wm_type := MT.CLEANUP_RESULT;
  wm_domain := CleanupResult_domain;
  wm_validate := CleanupResult_validate;
  wm_encode := CleanupResult_encode;
  wm_decode := CleanupResult_decode }.
#[global] Instance CleanupResult_laws : WireLaws CleanupResult CleanupResult_ok.
Proof. wire_laws CleanupResult_ok. Qed.

(** [DataBegin] declares [resume_from_chunk] and [resume_from_offset] but its codec
    neither writes nor reads them: a decoded message has both at zero. *)
Record DataBegin := mkDataBegin {
  db_nonce : Digest;
  db_movement_id : bytes;
  db_movement_generation : Z;
  db_attempt : bytes;
  db_object : StateObjectDescriptor;
  db_destination : bytes;
  db_destination_incarnation : Incarnation;
  db_resume_from_chunk : Z;
  db_resume_from_offset : Z }.

Definition DataBegin_domain : bytes := lit "SMF-MSG-DATA-BEGIN-v1".

Definition DataBegin_validate (m : DataBegin) : Result unit :=
  require_digest (db_nonce m) "data begin nonce" ;!
  reject_if (array_is_zero (db_movement_id m)) RC.INVALID_ID "data begin requires a movement id" ;!
  require_generation (db_movement_generation m) "movement generation" ;!
  reject_if (array_is_zero (db_attempt m)) RC.INVALID_ID "data begin requires a transfer attempt id" ;!
  StateObjectDescriptor_validate (db_object m) ;!
  require_endpoint (db_destination m) "data begin destination" ;!
  require_incarnation (db_destination_incarnation m) (db_destination m) "destination incarnation".

Definition DataBegin_encode (m : DataBegin) : bytes :=
  enc_text DataBegin_domain ++ enc_digest (db_nonce m) ++ FixedId_encode (db_movement_id m) ++
  write_generation (db_movement_generation m) ++ FixedId_encode (db_attempt m) ++
  StateObjectDescriptor_encode (db_object m) ++ enc_text (db_destination m) ++
  write_incarnation (db_destination_incarnation m).

Definition DataBegin_decode : Dec DataBegin :=
  check_domain DataBegin_domain ;?
  let? nonce := dec_digest in
  let? movement_id := FixedId_decode kMovementIdBytes in
  let? movement_generation := read_generation in
  let? attempt := FixedId_decode kTransferAttemptIdBytes in
  let? object := StateObjectDescriptor_decode in
  let? destination := read_endpoint in
  let? destination_incarnation := read_incarnation in
  validated DataBegin_validate (mkDataBegin nonce movement_id movement_generation attempt object destination
    destination_incarnation 0 0).

Definition DataBegin_ok (m : DataBegin) : Prop :=
  digest_wf (db_nonce m) /\ id_wf 16 (db_movement_id m) /\ in_u 64 (db_movement_generation m) /\
  id_wf 16 (db_attempt m) /\ descriptor_ok (db_object m) /\ endpoint_ok (db_destination m) /\
  incarnation_ok (db_destination_incarnation m) /\ db_resume_from_chunk m = 0 /\
  db_resume_from_offset m = 0 /\ DataBegin_validate m = Ok tt.

#[global] Instance DataBegin_codec lim `{!WireRoom lim} :
  Codec lim DataBegin_encode DataBegin_decode DataBegin_ok.
Proof. wire_codec DataBegin_encode DataBegin_decode DataBegin_ok. Qed.

#[global] Instance DataBegin_message : WireMessage DataBegin := {
  wm_type := MT.DATA_BEGIN;
  wm_domain := DataBegin_domain;
  wm_validate := DataBegin_validate;
  wm_encode := DataBegin_encode;
  wm_decode := DataBegin_decode }.
#[global] Instance DataBegin_laws : WireLaws DataBegin DataBegin_ok.
Proof. wire_laws DataBegin_ok. Qed.

Record DataBeginAck := mkDataBeginAck {
  dk_nonce : Digest;
  dk_code : ReasonCode;
  dk_resume_from_chunk : Z;
  dk_resume_from_offset : Z;
  dk_detail : bytes }.

Definition DataBeginAck_domain : bytes := lit "SMF-MSG-DATA-BEGIN-ACK-v1".

Definition DataBeginAck_validate (m : DataBeginAck) : Result unit :=
  require_digest (dk_nonce m) "data begin ack nonce" ;!
  require_bound (dk_detail m) kMaxDetailBytes "detail".

Definition DataBeginAck_encode (m : DataBeginAck) : bytes :=
  enc_text DataBeginAck_domain ++ enc_digest (dk_nonce m) ++ write_reason (dk_code m) ++
  enc_u32 (dk_resume_from_chunk m) ++ enc_u64 (dk_resume_from_offset m) ++ write_detail (dk_detail m).

Definition DataBeginAck_decode : Dec DataBeginAck :=
  check_domain DataBeginAck_domain ;?
  let? nonce := dec_digest in
  let? code := read_reason in
  let? resume_from_chunk := dec_u32 in
  let? resume_from_offset := dec_u64 in
  let? detail := read_detail in
  validated DataBeginAck_validate (mkDataBeginAck nonce code resume_from_chunk resume_from_offset detail).

Definition DataBeginAck_ok (m : DataBeginAck) : Prop :=
  digest_wf (dk_nonce m) /\ reason_known (dk_code m) /\ in_u 32 (dk_resume_from_chunk m) /\
  in_u 64 (dk_resume_from_offset m) /\ text_ok kMaxDetailBytes (dk_detail m) /\
  DataBeginAck_validate m = Ok tt.

#[global] Instance DataBeginAck_codec lim `{!WireRoom lim} :
  Codec lim DataBeginAck_encode DataBeginAck_decode DataBeginAck_ok.
Proof. wire_codec DataBeginAck_encode DataBeginAck_decode DataBeginAck_ok. Qed.

#[global] Instance DataBeginAck_message : WireMessage DataBeginAck := {
  wm_type := MT.DATA_BEGIN_ACK;
  wm_domain := DataBeginAck_domain;
  wm_validate := DataBeginAck_validate;
  wm_encode := DataBeginAck_encode;
  wm_decode := DataBeginAck_decode }.
#[global] Instance DataBeginAck_laws : WireLaws DataBeginAck DataBeginAck_ok.
Proof. wire_laws DataBeginAck_ok. Qed.

Record DataChunk := mkDataChunk {
  dc_movement_id : bytes;
  dc_attempt : bytes;
  dc_chunk_index : Z;
  dc_chunk_offset : Z;
  dc_chunk_length : Z;
  dc_chunk_digest : Digest;
  dc_payload : bytes }.

Definition DataChunk_domain : bytes := lit "SMF-MSG-DATA-CHUNK-v1".

Definition DataChunk_validate (m : DataChunk) : Result unit :=
  reject_if (array_is_zero (dc_movement_id m)) RC.INVALID_ID "data chunk requires a movement id" ;!
  reject_if (array_is_zero (dc_attempt m)) RC.INVALID_ID "data chunk requires a transfer attempt id" ;!
  reject_if (kMaxWireChunkBytes <? zlen (dc_payload m)) RC.INVALID_SIZE
    "data chunk payload exceeds the chunk bound" ;!
  reject_if (negb (dc_chunk_length m =? zlen (dc_payload m))) RC.INVALID_SIZE
    "data chunk length does not match the payload it carries".

Definition DataChunk_encode (m : DataChunk) : bytes :=
  enc_text DataChunk_domain ++ FixedId_encode (dc_movement_id m) ++ FixedId_encode (dc_attempt m) ++
  enc_u32 (dc_chunk_index m) ++ enc_u64 (dc_chunk_offset m) ++ enc_u64 (dc_chunk_length m) ++
  enc_digest (dc_chunk_digest m) ++ enc_blob (dc_payload m).

Definition DataChunk_decode : Dec DataChunk :=
  check_domain DataChunk_domain ;?
  let? movement_id := FixedId_decode kMovementIdBytes in
  let? attempt := FixedId_decode kTransferAttemptIdBytes in
  let? chunk_index := dec_u32 in
  let? chunk_offset := dec_u64 in
  let? chunk_length := dec_u64 in
  let? chunk_digest := dec_digest in
  let? payload := dec_blob kMaxWireChunkBytes in
  validated DataChunk_validate (mkDataChunk movement_id attempt chunk_index chunk_offset chunk_length chunk_digest payload).

Definition DataChunk_ok (m : DataChunk) : Prop :=
  id_wf 16 (dc_movement_id m) /\ id_wf 16 (dc_attempt m) /\ in_u 32 (dc_chunk_index m) /\
  in_u 64 (dc_chunk_offset m) /\ in_u 64 (dc_chunk_length m) /\ digest_wf (dc_chunk_digest m) /\
  chunk_bytes_ok (dc_payload m) /\ DataChunk_validate m = Ok tt.

#[global] Instance DataChunk_codec lim `{!WireRoom lim} :
  Codec lim DataChunk_encode DataChunk_decode DataChunk_ok.
Proof. wire_codec DataChunk_encode DataChunk_decode DataChunk_ok. Qed.

#[global] Instance DataChunk_message : WireMessage DataChunk := {
  wm_type := MT.DATA_CHUNK;
  wm_domain := DataChunk_domain;
  wm_validate := DataChunk_validate;
  wm_encode := DataChunk_encode;
  wm_decode := DataChunk_decode }.
#[global] Instance DataChunk_laws : WireLaws DataChunk DataChunk_ok.
Proof. wire_laws DataChunk_ok. Qed.

Record DataChunkAck := mkDataChunkAck {
  da_movement_id : bytes;
  da_attempt : bytes;
  da_highest_contiguous_index : Z;
  da_duplicates_ignored : Z }.

Definition DataChunkAck_domain : bytes := lit "SMF-MSG-DATA-CHUNK-ACK-v1".

Definition DataChunkAck_validate (m : DataChunkAck) : Result unit :=
  reject_if (array_is_zero (da_movement_id m)) RC.INVALID_ID "data chunk ack requires a movement id" ;!
  reject_if (array_is_zero (da_attempt m)) RC.INVALID_ID "data chunk ack requires a transfer attempt id".

Definition DataChunkAck_encode (m : DataChunkAck) : bytes :=
  enc_text DataChunkAck_domain ++ FixedId_encode (da_movement_id m) ++ FixedId_encode (da_attempt m) ++
  enc_u32 (da_highest_contiguous_index m) ++ enc_u32 (da_duplicates_ignored m).

Definition DataChunkAck_decode : Dec DataChunkAck :=
  check_domain DataChunkAck_domain ;?
  let? movement_id := FixedId_decode kMovementIdBytes in
  let? attempt := FixedId_decode kTransferAttemptIdBytes in
  let? highest_contiguous_index := dec_u32 in
  let? duplicates_ignored := dec_u32 in
  validated DataChunkAck_validate (mkDataChunkAck movement_id attempt highest_contiguous_index duplicates_ignored).

Definition DataChunkAck_ok (m : DataChunkAck) : Prop :=
  id_wf 16 (da_movement_id m) /\ id_wf 16 (da_attempt m) /\ in_u 32 (da_highest_contiguous_index m) /\
  in_u 32 (da_duplicates_ignored m) /\ DataChunkAck_validate m = Ok tt.

#[global] Instance DataChunkAck_codec lim `{!WireRoom lim} :
  Codec lim DataChunkAck_encode DataChunkAck_decode DataChunkAck_ok.
Proof. wire_codec DataChunkAck_encode DataChunkAck_decode DataChunkAck_ok. Qed.

#[global] Instance DataChunkAck_message : WireMessage DataChunkAck := {
  wm_type := MT.DATA_CHUNK_ACK;
  wm_domain := DataChunkAck_domain;
  wm_validate := DataChunkAck_validate;
  wm_encode := DataChunkAck_encode;
  wm_decode := DataChunkAck_decode }.
#[global] Instance DataChunkAck_laws : WireLaws DataChunkAck DataChunkAck_ok.
Proof. wire_laws DataChunkAck_ok. Qed.

Record DataEnd := mkDataEnd {
  de_movement_id : bytes;
  de_attempt : bytes;
  de_total_chunks : Z;
  de_total_bytes : Z;
  de_content_digest : Digest }.

Definition DataEnd_domain : bytes := lit "SMF-MSG-DATA-END-v1".

Definition DataEnd_validate (m : DataEnd) : Result unit :=
  reject_if (array_is_zero (de_movement_id m)) RC.INVALID_ID "data end requires a movement id" ;!
  reject_if (array_is_zero (de_attempt m)) RC.INVALID_ID "data end requires a transfer attempt id" ;!
  reject_if ((0 <? de_total_bytes m) && array_is_zero (de_content_digest m)) RC.INVALID_DIGEST
    "data end requires the digest of what was sent".

Definition DataEnd_encode (m : DataEnd) : bytes :=
  enc_text DataEnd_domain ++ FixedId_encode (de_movement_id m) ++ FixedId_encode (de_attempt m) ++
  enc_u32 (de_total_chunks m) ++ enc_u64 (de_total_bytes m) ++ enc_digest (de_content_digest m).

Definition DataEnd_decode : Dec DataEnd :=
  check_domain DataEnd_domain ;?
  let? movement_id := FixedId_decode kMovementIdBytes in
  let? attempt := FixedId_decode kTransferAttemptIdBytes in
  let? total_chunks := dec_u32 in
  let? total_bytes := dec_u64 in
  let? content_digest := dec_digest in
  validated DataEnd_validate (mkDataEnd movement_id attempt total_chunks total_bytes content_digest).

Definition DataEnd_ok (m : DataEnd) : Prop :=
  id_wf 16 (de_movement_id m) /\ id_wf 16 (de_attempt m) /\ in_u 32 (de_total_chunks m) /\
  in_u 64 (de_total_bytes m) /\ digest_wf (de_content_digest m) /\ DataEnd_validate m = Ok tt.

#[global] Instance DataEnd_codec lim `{!WireRoom lim} :
  Codec lim DataEnd_encode DataEnd_decode DataEnd_ok.
Proof. wire_codec DataEnd_encode DataEnd_decode DataEnd_ok. Qed.

#[global] Instance DataEnd_message : WireMessage DataEnd := {
  wm_type := MT.DATA_END;
  wm_domain := DataEnd_domain;
  wm_validate := DataEnd_validate;
  wm_encode := DataEnd_encode;
  wm_decode := DataEnd_decode }.
#[global] Instance DataEnd_laws : WireLaws DataEnd DataEnd_ok.
Proof. wire_laws DataEnd_ok. Qed.

Record DataResult := mkDataResult {
  dr_movement_id : bytes;
  dr_attempt : bytes;
  dr_code : ReasonCode;
  dr_stored_digest : Digest;
  dr_stored_bytes : Z;
  dr_stored_chunks : Z;
  dr_marker_digest : Digest;
  dr_detail : bytes }.

Definition DataResult_domain : bytes := lit "SMF-MSG-DATA-RESULT-v1".

Definition DataResult_validate (m : DataResult) : Result unit :=
  reject_if (array_is_zero (dr_movement_id m)) RC.INVALID_ID "data result requires a movement id" ;!
  reject_if (array_is_zero (dr_attempt m)) RC.INVALID_ID "data result requires a transfer attempt id" ;!
  require_bound (dr_detail m) kMaxDetailBytes "detail".

Definition DataResult_encode (m : DataResult) : bytes :=
  enc_text DataResult_domain ++ FixedId_encode (dr_movement_id m) ++ FixedId_encode (dr_attempt m) ++
  write_reason (dr_code m) ++ enc_digest (dr_stored_digest m) ++ enc_u64 (dr_stored_bytes m) ++
  enc_u32 (dr_stored_chunks m) ++ enc_digest (dr_marker_digest m) ++ write_detail (dr_detail m).

Definition DataResult_decode : Dec DataResult :=
  check_domain DataResult_domain ;?
  let? movement_id := FixedId_decode kMovementIdBytes in
  let? attempt := FixedId_decode kTransferAttemptIdBytes in
  let? code := read_reason in
  let? stored_digest := dec_digest in
  let? stored_bytes := dec_u64 in
  let? stored_chunks := dec_u32 in
  let? marker_digest := dec_digest in
  let? detail := read_detail in
  validated DataResult_validate (mkDataResult movement_id attempt code stored_digest stored_bytes stored_chunks marker_digest
    detail).

Definition DataResult_ok (m : DataResult) : Prop :=
  id_wf 16 (dr_movement_id m) /\ id_wf 16 (dr_attempt m) /\ reason_known (dr_code m) /\
  digest_wf (dr_stored_digest m) /\ in_u 64 (dr_stored_bytes m) /\ in_u 32 (dr_stored_chunks m) /\
  digest_wf (dr_marker_digest m) /\ text_ok kMaxDetailBytes (dr_detail m) /\
  DataResult_validate m = Ok tt.

#[global] Instance DataResult_codec lim `{!WireRoom lim} :
  Codec lim DataResult_encode DataResult_decode DataResult_ok.
Proof. wire_codec DataResult_encode DataResult_decode DataResult_ok. Qed.

#[global] Instance DataResult_message : WireMessage DataResult := {
  wm_type := MT.DATA_RESULT;
  wm_domain := DataResult_domain;
  wm_validate := DataResult_validate;
  wm_encode := DataResult_encode;
  wm_decode := DataResult_decode }.
#[global] Instance DataResult_laws : WireLaws DataResult DataResult_ok.
Proof. wire_laws DataResult_ok. Qed.

Record DataAbort := mkDataAbort {
  dx_movement_id : bytes;
  dx_attempt : bytes;
  dx_code : ReasonCode;
  dx_detail : bytes }.

Definition DataAbort_domain : bytes := lit "SMF-MSG-DATA-ABORT-v1".

Definition DataAbort_validate (m : DataAbort) : Result unit :=
  reject_if (array_is_zero (dx_movement_id m)) RC.INVALID_ID "data abort requires a movement id" ;!
  reject_if (array_is_zero (dx_attempt m)) RC.INVALID_ID "data abort requires a transfer attempt id" ;!
  require_bound (dx_detail m) kMaxDetailBytes "detail".

Definition DataAbort_encode (m : DataAbort) : bytes :=
  enc_text DataAbort_domain ++ FixedId_encode (dx_movement_id m) ++ FixedId_encode (dx_attempt m) ++
  write_reason (dx_code m) ++ write_detail (dx_detail m).

Definition DataAbort_decode : Dec DataAbort :=
  check_domain DataAbort_domain ;?
  let? movement_id := FixedId_decode kMovementIdBytes in
  let? attempt := FixedId_decode kTransferAttemptIdBytes in
  let? code := read_reason in
  let? detail := read_detail in
  validated DataAbort_validate (mkDataAbort movement_id attempt code detail).

Definition DataAbort_ok (m : DataAbort) : Prop :=
  id_wf 16 (dx_movement_id m) /\ id_wf 16 (dx_attempt m) /\ reason_known (dx_code m) /\
  text_ok kMaxDetailBytes (dx_detail m) /\ DataAbort_validate m = Ok tt.

#[global] Instance DataAbort_codec lim `{!WireRoom lim} :
  Codec lim DataAbort_encode DataAbort_decode DataAbort_ok.
Proof. wire_codec DataAbort_encode DataAbort_decode DataAbort_ok. Qed.

#[global] Instance DataAbort_message : WireMessage DataAbort := {
  wm_type := MT.DATA_ABORT;
  wm_domain := DataAbort_domain;
  wm_validate := DataAbort_validate;
  wm_encode := DataAbort_encode;
  wm_decode := DataAbort_decode }.
#[global] Instance DataAbort_laws : WireLaws DataAbort DataAbort_ok.
Proof. wire_laws DataAbort_ok. Qed.

Record SubmitMovement := mkSubmitMovement {
  sm_object_id : bytes;
  sm_object_generation : Z;
  sm_source : bytes;
  sm_destination : bytes }.

Definition SubmitMovement_domain : bytes := lit "SMF-MSG-SUBMIT-MOVEMENT-v1".

Definition SubmitMovement_validate (m : SubmitMovement) : Result unit :=
  reject_if (array_is_zero (sm_object_id m)) RC.INVALID_ID "submit movement requires a state object id" ;!
  require_generation (sm_object_generation m) "state object generation" ;!
  require_endpoint (sm_source m) "submit movement source" ;!
  require_endpoint (sm_destination m) "submit movement destination" ;!
  reject_if (bytes_eqb (sm_source m) (sm_destination m)) RC.SELF_MOVEMENT
    "source and destination endpoints are the same".

Definition SubmitMovement_encode (m : SubmitMovement) : bytes :=
  enc_text SubmitMovement_domain ++ FixedId_encode (sm_object_id m) ++
  write_generation (sm_object_generation m) ++ enc_text (sm_source m) ++ enc_text (sm_destination m).

Definition SubmitMovement_decode : Dec SubmitMovement :=
  check_domain SubmitMovement_domain ;?
  let? object_id := FixedId_decode kStateObjectIdBytes in
  let? object_generation := read_generation in
  let? source := read_endpoint in
  let? destination := read_endpoint in
  validated SubmitMovement_validate (mkSubmitMovement object_id object_generation source destination).

Definition SubmitMovement_ok (m : SubmitMovement) : Prop :=
  id_wf 32 (sm_object_id m) /\ in_u 64 (sm_object_generation m) /\ endpoint_ok (sm_source m) /\
  endpoint_ok (sm_destination m) /\ SubmitMovement_validate m = Ok tt.

#[global] Instance SubmitMovement_codec lim `{!WireRoom lim} :
  Codec lim SubmitMovement_encode SubmitMovement_decode SubmitMovement_ok.
Proof. wire_codec SubmitMovement_encode SubmitMovement_decode SubmitMovement_ok. Qed.

#[global] Instance SubmitMovement_message : WireMessage SubmitMovement := {
  wm_type := MT.SUBMIT_MOVEMENT;
  wm_domain := SubmitMovement_domain;
  wm_validate := SubmitMovement_validate;
  wm_encode := SubmitMovement_encode;
  wm_decode := SubmitMovement_decode }.
#[global] Instance SubmitMovement_laws : WireLaws SubmitMovement SubmitMovement_ok.
Proof. wire_laws SubmitMovement_ok. Qed.

Record MovementAccepted := mkMovementAccepted {
  ma_movement_id : bytes;
  ma_state : MovementState;
  ma_code : ReasonCode;
  ma_detail : bytes }.

Definition MovementAccepted_domain : bytes := lit "SMF-MSG-MOVEMENT-ACCEPTED-v1".

Definition MovementAccepted_validate (m : MovementAccepted) : Result unit :=
  reject_if (array_is_zero (ma_movement_id m)) RC.INVALID_ID "movement accepted requires a movement id" ;!
  require_bound (ma_detail m) kMaxDetailBytes "detail".

Definition MovementAccepted_encode (m : MovementAccepted) : bytes :=
  enc_text MovementAccepted_domain ++ FixedId_encode (ma_movement_id m) ++
  write_movement_state (ma_state m) ++ write_reason (ma_code m) ++ write_detail (ma_detail m).

Definition MovementAccepted_decode : Dec MovementAccepted :=
  check_domain MovementAccepted_domain ;?
  let? movement_id := FixedId_decode kMovementIdBytes in
  let? state := read_movement_state in
  let? code := read_reason in
  let? detail := read_detail in
  validated MovementAccepted_validate (mkMovementAccepted movement_id state code detail).

Definition MovementAccepted_ok (m : MovementAccepted) : Prop :=
  id_wf 16 (ma_movement_id m) /\ reason_known (ma_code m) /\ text_ok kMaxDetailBytes (ma_detail m) /\
  MovementAccepted_validate m = Ok tt.

#[global] Instance MovementAccepted_codec lim `{!WireRoom lim} :
  Codec lim MovementAccepted_encode MovementAccepted_decode MovementAccepted_ok.
Proof. wire_codec MovementAccepted_encode MovementAccepted_decode MovementAccepted_ok. Qed.

#[global] Instance MovementAccepted_message : WireMessage MovementAccepted := {
  wm_type := MT.MOVEMENT_ACCEPTED;
  wm_domain := MovementAccepted_domain;
  wm_validate := MovementAccepted_validate;
  wm_encode := MovementAccepted_encode;
  wm_decode := MovementAccepted_decode }.
#[global] Instance MovementAccepted_laws : WireLaws MovementAccepted MovementAccepted_ok.
Proof. wire_laws MovementAccepted_ok. Qed.

Record QueryMovement := mkQueryMovement {
  qm_movement_id : bytes }.

Definition QueryMovement_domain : bytes := lit "SMF-MSG-QUERY-MOVEMENT-v1".

Definition QueryMovement_validate (m : QueryMovement) : Result unit :=
  reject_if (array_is_zero (qm_movement_id m)) RC.INVALID_ID "query movement requires a movement id".

Definition QueryMovement_encode (m : QueryMovement) : bytes :=
  enc_text QueryMovement_domain ++ FixedId_encode (qm_movement_id m).

Definition QueryMovement_decode : Dec QueryMovement :=
  check_domain QueryMovement_domain ;?
  let? movement_id := FixedId_decode kMovementIdBytes in
  validated QueryMovement_validate (mkQueryMovement movement_id).

Definition QueryMovement_ok (m : QueryMovement) : Prop :=
  id_wf 16 (qm_movement_id m) /\ QueryMovement_validate m = Ok tt.

#[global] Instance QueryMovement_codec lim `{!WireRoom lim} :
  Codec lim QueryMovement_encode QueryMovement_decode QueryMovement_ok.
Proof. wire_codec QueryMovement_encode QueryMovement_decode QueryMovement_ok. Qed.

#[global] Instance QueryMovement_message : WireMessage QueryMovement := {
  wm_type := MT.QUERY_MOVEMENT;
  wm_domain := QueryMovement_domain;
  wm_validate := QueryMovement_validate;
  wm_encode := QueryMovement_encode;
  wm_decode := QueryMovement_decode }.
#[global] Instance QueryMovement_laws : WireLaws QueryMovement QueryMovement_ok.
Proof. wire_laws QueryMovement_ok. Qed.

Record MovementStatus := mkMovementStatus {
  mst_record : MovementRecord }.

Definition MovementStatus_domain : bytes := lit "SMF-MSG-MOVEMENT-STATUS-v1".

Definition MovementStatus_validate (m : MovementStatus) : Result unit :=
  MovementRecord_validate (mst_record m).

Definition MovementStatus_encode (m : MovementStatus) : bytes :=
  enc_text MovementStatus_domain ++ MovementRecord_encode (mst_record m).

Definition MovementStatus_decode : Dec MovementStatus :=
  check_domain MovementStatus_domain ;?
  let? record := MovementRecord_decode in
  validated MovementStatus_validate (mkMovementStatus record).

Definition MovementStatus_ok (m : MovementStatus) : Prop :=
  movement_ok (mst_record m) /\ MovementStatus_validate m = Ok tt.

#[global] Instance MovementStatus_codec lim `{!WireRoom lim} :
  Codec lim MovementStatus_encode MovementStatus_decode MovementStatus_ok.
Proof. wire_codec MovementStatus_encode MovementStatus_decode MovementStatus_ok. Qed.

#[global] Instance MovementStatus_message : WireMessage MovementStatus := {
  wm_type := MT.MOVEMENT_STATUS;
  wm_domain := MovementStatus_domain;
  wm_validate := MovementStatus_validate;
  wm_encode := MovementStatus_encode;
  wm_decode := MovementStatus_decode }.
#[global] Instance MovementStatus_laws : WireLaws MovementStatus MovementStatus_ok.
Proof. wire_laws MovementStatus_ok. Qed.

Record ListMovements := mkListMovements {
  lm_limit : Z;
  lm_offset : Z }.

Definition ListMovements_domain : bytes := lit "SMF-MSG-LIST-MOVEMENTS-v1".

Definition ListMovements_validate (m : ListMovements) : Result unit :=
  reject_if ((lm_limit m =? 0) || (kMaxWireListLimit <? lm_limit m)) RC.PROTOCOL_BOUNDS_EXCEEDED
    "list movements requires a page size inside the wire bound".

Definition ListMovements_encode (m : ListMovements) : bytes :=
  enc_text ListMovements_domain ++ enc_u32 (lm_limit m) ++ enc_u32 (lm_offset m).

Definition ListMovements_decode : Dec ListMovements :=
  check_domain ListMovements_domain ;?
  let? limit := dec_u32 in
  let? offset := dec_u32 in
  validated ListMovements_validate (mkListMovements limit offset).

Definition ListMovements_ok (m : ListMovements) : Prop :=
  in_u 32 (lm_limit m) /\ in_u 32 (lm_offset m) /\ ListMovements_validate m = Ok tt.

#[global] Instance ListMovements_codec lim `{!WireRoom lim} :
  Codec lim ListMovements_encode ListMovements_decode ListMovements_ok.
Proof. wire_codec ListMovements_encode ListMovements_decode ListMovements_ok. Qed.

#[global] Instance ListMovements_message : WireMessage ListMovements := {
  wm_type := MT.LIST_MOVEMENTS;
  wm_domain := ListMovements_domain;
  wm_validate := ListMovements_validate;
  wm_encode := ListMovements_encode;
  wm_decode := ListMovements_decode }.
#[global] Instance ListMovements_laws : WireLaws ListMovements ListMovements_ok.
Proof. wire_laws ListMovements_ok. Qed.

Record MovementSummary := mkMovementSummary {
  ms_movement_id : bytes;
  ms_state : MovementState;
  ms_object_id : bytes;
  ms_object_generation : Z;
  ms_source : bytes;
  ms_destination : bytes;
  ms_last_reason : ReasonCode;
  ms_attempt_count : Z;
  ms_bytes_transferred : Z }.

Definition MovementSummary_domain : bytes := lit "SMF-MSG-MOVEMENT-SUMMARY-v1".

Definition MovementSummary_validate (m : MovementSummary) : Result unit :=
  reject_if (array_is_zero (ms_movement_id m)) RC.INVALID_ID "movement summary requires a movement id" ;!
  reject_if (array_is_zero (ms_object_id m)) RC.INVALID_ID "movement summary requires a state object id" ;!
  require_generation (ms_object_generation m) "state object generation" ;!
  require_endpoint (ms_source m) "movement summary source" ;!
  require_endpoint (ms_destination m) "movement summary destination" ;!
  reject_if (bytes_eqb (ms_source m) (ms_destination m)) RC.SELF_MOVEMENT
    "source and destination endpoints are the same".

Definition MovementSummary_encode (m : MovementSummary) : bytes :=
  enc_text MovementSummary_domain ++ FixedId_encode (ms_movement_id m) ++
  write_movement_state (ms_state m) ++ FixedId_encode (ms_object_id m) ++
  write_generation (ms_object_generation m) ++ enc_text (ms_source m) ++ enc_text (ms_destination m) ++
  write_reason (ms_last_reason m) ++ enc_u32 (ms_attempt_count m) ++ enc_u64 (ms_bytes_transferred m).

Definition MovementSummary_decode : Dec MovementSummary :=
  check_domain MovementSummary_domain ;?
  let? movement_id := FixedId_decode kMovementIdBytes in
  let? state := read_movement_state in
  let? object_id := FixedId_decode kStateObjectIdBytes in
  let? object_generation := read_generation in
  let? source := read_endpoint in
  let? destination := read_endpoint in
  let? last_reason := read_reason in
  let? attempt_count := dec_u32 in
  let? bytes_transferred := dec_u64 in
  validated MovementSummary_validate (mkMovementSummary movement_id state object_id object_generation source destination last_reason
    attempt_count bytes_transferred).

Definition MovementSummary_ok (m : MovementSummary) : Prop :=
  id_wf 16 (ms_movement_id m) /\ id_wf 32 (ms_object_id m) /\ in_u 64 (ms_object_generation m) /\
  endpoint_ok (ms_source m) /\ endpoint_ok (ms_destination m) /\ reason_known (ms_last_reason m) /\
  in_u 32 (ms_attempt_count m) /\ in_u 64 (ms_bytes_transferred m) /\ MovementSummary_validate m = Ok tt.

#[global] Instance MovementSummary_codec lim `{!WireRoom lim} :
  Codec lim MovementSummary_encode MovementSummary_decode MovementSummary_ok.
Proof. wire_codec MovementSummary_encode MovementSummary_decode MovementSummary_ok. Qed.

#[global] Instance summaries_codec lim `{!WireRoom lim} :
  Codec lim (write_sequence MovementSummary_encode)
    (read_sequence MovementSummary_decode kMaxMovementSummaries)
    (sequence_ok MovementSummary_ok kMaxMovementSummaries).
Proof. by apply sequence_codec; [apply _|]. Qed.

Record MovementList := mkMovementList {
  ml_movements : list MovementSummary }.

Definition MovementList_domain : bytes := lit "SMF-MSG-MOVEMENT-LIST-v1".

Definition MovementList_validate (m : MovementList) : Result unit :=
  reject_if (kMaxMovementSummaries <? zlen (ml_movements m)) RC.PROTOCOL_BOUNDS_EXCEEDED
    "movement list exceeds the wire bound" ;!
  check_each MovementSummary_validate (ml_movements m).

Definition MovementList_encode (m : MovementList) : bytes :=
  enc_text MovementList_domain ++ write_sequence MovementSummary_encode (ml_movements m).

Definition MovementList_decode : Dec MovementList :=
  check_domain MovementList_domain ;?
  let? movements := read_sequence MovementSummary_decode kMaxMovementSummaries in
  validated MovementList_validate (mkMovementList movements).

Definition MovementList_ok (m : MovementList) : Prop :=
  sequence_ok MovementSummary_ok kMaxMovementSummaries (ml_movements m) /\
  MovementList_validate m = Ok tt.

#[global] Instance MovementList_codec lim `{!WireRoom lim} :
  Codec lim MovementList_encode MovementList_decode MovementList_ok.
Proof. wire_codec MovementList_encode MovementList_decode MovementList_ok. Qed.

#[global] Instance MovementList_message : WireMessage MovementList := {
  wm_type := MT.MOVEMENT_LIST;
  wm_domain := MovementList_domain;
  wm_validate := MovementList_validate;
  wm_encode := MovementList_encode;
  wm_decode := MovementList_decode }.
#[global] Instance MovementList_laws : WireLaws MovementList MovementList_ok.
Proof. wire_laws MovementList_ok. Qed.

Record CancelMovement := mkCancelMovement {
  xm_movement_id : bytes }.

Definition CancelMovement_domain : bytes := lit "SMF-MSG-CANCEL-MOVEMENT-v1".

Definition CancelMovement_validate (m : CancelMovement) : Result unit :=
  reject_if (array_is_zero (xm_movement_id m)) RC.INVALID_ID "cancel movement requires a movement id".

Definition CancelMovement_encode (m : CancelMovement) : bytes :=
  enc_text CancelMovement_domain ++ FixedId_encode (xm_movement_id m).

Definition CancelMovement_decode : Dec CancelMovement :=
  check_domain CancelMovement_domain ;?
  let? movement_id := FixedId_decode kMovementIdBytes in
  validated CancelMovement_validate (mkCancelMovement movement_id).

Definition CancelMovement_ok (m : CancelMovement) : Prop :=
  id_wf 16 (xm_movement_id m) /\ CancelMovement_validate m = Ok tt.

#[global] Instance CancelMovement_codec lim `{!WireRoom lim} :
  Codec lim CancelMovement_encode CancelMovement_decode CancelMovement_ok.
Proof. wire_codec CancelMovement_encode CancelMovement_decode CancelMovement_ok. Qed.

#[global] Instance CancelMovement_message : WireMessage CancelMovement := {
  wm_type := MT.CANCEL_MOVEMENT;
  wm_domain := CancelMovement_domain;
  wm_validate := CancelMovement_validate;
  wm_encode := CancelMovement_encode;
  wm_decode := CancelMovement_decode }.
#[global] Instance CancelMovement_laws : WireLaws CancelMovement CancelMovement_ok.
Proof. wire_laws CancelMovement_ok. Qed.

Record ReconcileMovement := mkReconcileMovement {
  rm_movement_id : bytes }.

Definition ReconcileMovement_domain : bytes := lit "SMF-MSG-RECONCILE-MOVEMENT-v1".

Definition ReconcileMovement_validate (m : ReconcileMovement) : Result unit :=
  reject_if (array_is_zero (rm_movement_id m)) RC.INVALID_ID "reconcile movement requires a movement id".

Definition ReconcileMovement_encode (m : ReconcileMovement) : bytes :=
  enc_text ReconcileMovement_domain ++ FixedId_encode (rm_movement_id m).

Definition ReconcileMovement_decode : Dec ReconcileMovement :=
  check_domain ReconcileMovement_domain ;?
  let? movement_id := FixedId_decode kMovementIdBytes in
  validated ReconcileMovement_validate (mkReconcileMovement movement_id).

Definition ReconcileMovement_ok (m : ReconcileMovement) : Prop :=
  id_wf 16 (rm_movement_id m) /\ ReconcileMovement_validate m = Ok tt.

#[global] Instance ReconcileMovement_codec lim `{!WireRoom lim} :
  Codec lim ReconcileMovement_encode ReconcileMovement_decode ReconcileMovement_ok.
Proof. wire_codec ReconcileMovement_encode ReconcileMovement_decode ReconcileMovement_ok. Qed.

#[global] Instance ReconcileMovement_message : WireMessage ReconcileMovement := {
  wm_type := MT.RECONCILE_MOVEMENT;
  wm_domain := ReconcileMovement_domain;
  wm_validate := ReconcileMovement_validate;
  wm_encode := ReconcileMovement_encode;
  wm_decode := ReconcileMovement_decode }.
#[global] Instance ReconcileMovement_laws : WireLaws ReconcileMovement ReconcileMovement_ok.
Proof. wire_laws ReconcileMovement_ok. Qed.

Record ProvenanceRequest := mkProvenanceRequest {
  pq_movement_id : bytes }.

Definition ProvenanceRequest_domain : bytes := lit "SMF-MSG-PROVENANCE-REQUEST-v1".

Definition ProvenanceRequest_validate (m : ProvenanceRequest) : Result unit :=
  reject_if (array_is_zero (pq_movement_id m)) RC.INVALID_ID "provenance request requires a movement id".

Definition ProvenanceRequest_encode (m : ProvenanceRequest) : bytes :=
  enc_text ProvenanceRequest_domain ++ FixedId_encode (pq_movement_id m).

Definition ProvenanceRequest_decode : Dec ProvenanceRequest :=
  check_domain ProvenanceRequest_domain ;?
  let? movement_id := FixedId_decode kMovementIdBytes in
  validated ProvenanceRequest_validate (mkProvenanceRequest movement_id).

Definition ProvenanceRequest_ok (m : ProvenanceRequest) : Prop :=
  id_wf 16 (pq_movement_id m) /\ ProvenanceRequest_validate m = Ok tt.

#[global] Instance ProvenanceRequest_codec lim `{!WireRoom lim} :
  Codec lim ProvenanceRequest_encode ProvenanceRequest_decode ProvenanceRequest_ok.
Proof. wire_codec ProvenanceRequest_encode ProvenanceRequest_decode ProvenanceRequest_ok. Qed.

#[global] Instance ProvenanceRequest_message : WireMessage ProvenanceRequest := {
  wm_type := MT.PROVENANCE_REQUEST;
  wm_domain := ProvenanceRequest_domain;
  wm_validate := ProvenanceRequest_validate;
  wm_encode := ProvenanceRequest_encode;
  wm_decode := ProvenanceRequest_decode }.
#[global] Instance ProvenanceRequest_laws : WireLaws ProvenanceRequest ProvenanceRequest_ok.
Proof. wire_laws ProvenanceRequest_ok. Qed.

Record ProvenanceReport := mkProvenanceReport {
  pr_movement_id : bytes;
  pr_code : ReasonCode;
  pr_events : list ProvenanceEvent }.

Definition ProvenanceReport_domain : bytes := lit "SMF-MSG-PROVENANCE-REPORT-v1".

Definition ProvenanceReport_validate (m : ProvenanceReport) : Result unit :=
  reject_if (array_is_zero (pr_movement_id m)) RC.INVALID_ID "provenance report requires a movement id" ;!
  reject_if (kMaxProvenanceEvents <? zlen (pr_events m)) RC.HISTORY_LIMIT_REACHED
    "provenance report exceeds the wire bound" ;!
  check_events 0 (pr_events m).

Definition ProvenanceReport_encode (m : ProvenanceReport) : bytes :=
  enc_text ProvenanceReport_domain ++ FixedId_encode (pr_movement_id m) ++ write_reason (pr_code m) ++
  write_sequence ProvenanceEvent_encode (pr_events m).

Definition ProvenanceReport_decode : Dec ProvenanceReport :=
  check_domain ProvenanceReport_domain ;?
  let? movement_id := FixedId_decode kMovementIdBytes in
  let? code := read_reason in
  let? events := read_sequence ProvenanceEvent_decode kMaxProvenanceEvents in
  validated ProvenanceReport_validate (mkProvenanceReport movement_id code events).

Definition ProvenanceReport_ok (m : ProvenanceReport) : Prop :=
  id_wf 16 (pr_movement_id m) /\ reason_known (pr_code m) /\
  sequence_ok event_ok kMaxProvenanceEvents (pr_events m) /\ ProvenanceReport_validate m = Ok tt.

#[global] Instance ProvenanceReport_codec lim `{!WireRoom lim} :
  Codec lim ProvenanceReport_encode ProvenanceReport_decode ProvenanceReport_ok.
Proof. wire_codec ProvenanceReport_encode ProvenanceReport_decode ProvenanceReport_ok. Qed.

#[global] Instance ProvenanceReport_message : WireMessage ProvenanceReport := {
  wm_type := MT.PROVENANCE_REPORT;
  wm_domain := ProvenanceReport_domain;
  wm_validate := ProvenanceReport_validate;
  wm_encode := ProvenanceReport_encode;
  wm_decode := ProvenanceReport_decode }.
#[global] Instance ProvenanceReport_laws : WireLaws ProvenanceReport ProvenanceReport_ok.
Proof. wire_laws ProvenanceReport_ok. Qed.

Record TopologyRequest := mkTopologyRequest { }.

Definition TopologyRequest_domain : bytes := lit "SMF-MSG-TOPOLOGY-REQUEST-v1".

Definition TopologyRequest_validate (m : TopologyRequest) : Result unit :=
  Ok tt.

Definition TopologyRequest_encode (m : TopologyRequest) : bytes :=
  enc_text TopologyRequest_domain.

Definition TopologyRequest_decode : Dec TopologyRequest :=
  check_domain TopologyRequest_domain ;?
  validated TopologyRequest_validate mkTopologyRequest.

Definition TopologyRequest_ok (m : TopologyRequest) : Prop :=
  TopologyRequest_validate m = Ok tt.

#[global] Instance TopologyRequest_codec lim `{!WireRoom lim} :
  Codec lim TopologyRequest_encode TopologyRequest_decode TopologyRequest_ok.
Proof. wire_codec TopologyRequest_encode TopologyRequest_decode TopologyRequest_ok. Qed.

#[global] Instance TopologyRequest_message : WireMessage TopologyRequest := {
  wm_type := MT.TOPOLOGY_REQUEST;
  wm_domain := TopologyRequest_domain;
  wm_validate := TopologyRequest_validate;
  wm_encode := TopologyRequest_encode;
  wm_decode := TopologyRequest_decode }.
#[global] Instance TopologyRequest_laws : WireLaws TopologyRequest TopologyRequest_ok.
Proof. wire_laws TopologyRequest_ok. Qed.

Record TopologyReport := mkTopologyReport {
  tr_topology_generation : Z;
  tr_coordinator : Incarnation;
  tr_endpoints : list EndpointRegistration }.

Definition TopologyReport_domain : bytes := lit "SMF-MSG-TOPOLOGY-REPORT-v1".

Definition TopologyReport_validate (m : TopologyReport) : Result unit :=
  require_generation (tr_topology_generation m) "topology generation" ;!
  reject_if (negb (Incarnation_is_set (tr_coordinator m))) RC.STALE_INCARNATION
    "topology report requires a coordinator incarnation" ;!
  reject_if (kMaxEndpoints <? zlen (tr_endpoints m)) RC.PROTOCOL_BOUNDS_EXCEEDED
    "topology report exceeds the wire bound" ;!
  check_each EndpointRegistration_validate (tr_endpoints m).

Definition TopologyReport_encode (m : TopologyReport) : bytes :=
  enc_text TopologyReport_domain ++ write_generation (tr_topology_generation m) ++
  write_incarnation (tr_coordinator m) ++ write_sequence write_registration (tr_endpoints m).

Definition TopologyReport_decode : Dec TopologyReport :=
  check_domain TopologyReport_domain ;?
  let? topology_generation := read_generation in
  let? coordinator := read_incarnation in
  let? endpoints := read_sequence read_registration kMaxEndpoints in
  validated TopologyReport_validate (mkTopologyReport topology_generation coordinator endpoints).

Definition TopologyReport_ok (m : TopologyReport) : Prop :=
  in_u 64 (tr_topology_generation m) /\ incarnation_ok (tr_coordinator m) /\
  sequence_ok registration_range kMaxEndpoints (tr_endpoints m) /\ TopologyReport_validate m = Ok tt.

#[global] Instance TopologyReport_codec lim `{!WireRoom lim} :
  Codec lim TopologyReport_encode TopologyReport_decode TopologyReport_ok.
Proof. wire_codec TopologyReport_encode TopologyReport_decode TopologyReport_ok. Qed.

#[global] Instance TopologyReport_message : WireMessage TopologyReport := {
  wm_type := MT.TOPOLOGY_REPORT;
  wm_domain := TopologyReport_domain;
  wm_validate := TopologyReport_validate;
  wm_encode := TopologyReport_encode;
  wm_decode := TopologyReport_decode }.
#[global] Instance TopologyReport_laws : WireLaws TopologyReport TopologyReport_ok.
Proof. wire_laws TopologyReport_ok. Qed.

Record PolicyRequest := mkPolicyRequest { }.

Definition PolicyRequest_domain : bytes := lit "SMF-MSG-POLICY-REQUEST-v1".

Definition PolicyRequest_validate (m : PolicyRequest) : Result unit :=
  Ok tt.

Definition PolicyRequest_encode (m : PolicyRequest) : bytes :=
  enc_text PolicyRequest_domain.

Definition PolicyRequest_decode : Dec PolicyRequest :=
  check_domain PolicyRequest_domain ;?
  validated PolicyRequest_validate mkPolicyRequest.

Definition PolicyRequest_ok (m : PolicyRequest) : Prop :=
  PolicyRequest_validate m = Ok tt.

#[global] Instance PolicyRequest_codec lim `{!WireRoom lim} :
  Codec lim PolicyRequest_encode PolicyRequest_decode PolicyRequest_ok.
Proof. wire_codec PolicyRequest_encode PolicyRequest_decode PolicyRequest_ok. Qed.

#[global] Instance PolicyRequest_message : WireMessage PolicyRequest := {
  wm_type := MT.POLICY_REQUEST;
  wm_domain := PolicyRequest_domain;
  wm_validate := PolicyRequest_validate;
  wm_encode := PolicyRequest_encode;
  wm_decode := PolicyRequest_decode }.
#[global] Instance PolicyRequest_laws : WireLaws PolicyRequest PolicyRequest_ok.
Proof. wire_laws PolicyRequest_ok. Qed.

Record PolicyReport := mkPolicyReport {
  yr_policy : PolicySet;
  yr_policy_digest : Digest }.

Definition PolicyReport_domain : bytes := lit "SMF-MSG-POLICY-REPORT-v1".

Definition PolicyReport_validate (m : PolicyReport) : Result unit :=
  PolicySet_validate (yr_policy m) ;!
  require_digest (yr_policy_digest m) "policy digest".

Definition PolicyReport_encode (m : PolicyReport) : bytes :=
  enc_text PolicyReport_domain ++ PolicySet_encode (yr_policy m) ++ enc_digest (yr_policy_digest m).

Definition PolicyReport_decode : Dec PolicyReport :=
  check_domain PolicyReport_domain ;?
  let? policy := PolicySet_decode in
  let? policy_digest := dec_digest in
  validated PolicyReport_validate (mkPolicyReport policy policy_digest).

Definition PolicyReport_ok (m : PolicyReport) : Prop :=
  policy_set_ok (yr_policy m) /\ digest_wf (yr_policy_digest m) /\ PolicyReport_validate m = Ok tt.

#[global] Instance PolicyReport_codec lim `{!WireRoom lim} :
  Codec lim PolicyReport_encode PolicyReport_decode PolicyReport_ok.
Proof. wire_codec PolicyReport_encode PolicyReport_decode PolicyReport_ok. Qed.

#[global] Instance PolicyReport_message : WireMessage PolicyReport := {
  wm_type := MT.POLICY_REPORT;
  wm_domain := PolicyReport_domain;
  wm_validate := PolicyReport_validate;
  wm_encode := PolicyReport_encode;
  wm_decode := PolicyReport_decode }.
#[global] Instance PolicyReport_laws : WireLaws PolicyReport PolicyReport_ok.
Proof. wire_laws PolicyReport_ok. Qed.

Record ShutdownRequest := mkShutdownRequest { }.

Definition ShutdownRequest_domain : bytes := lit "SMF-MSG-SHUTDOWN-REQUEST-v1".

Definition ShutdownRequest_validate (m : ShutdownRequest) : Result unit :=
  Ok tt.

Definition ShutdownRequest_encode (m : ShutdownRequest) : bytes :=
  enc_text ShutdownRequest_domain.

Definition ShutdownRequest_decode : Dec ShutdownRequest :=
  check_domain ShutdownRequest_domain ;?
  validated ShutdownRequest_validate mkShutdownRequest.

Definition ShutdownRequest_ok (m : ShutdownRequest) : Prop :=
  ShutdownRequest_validate m = Ok tt.

#[global] Instance ShutdownRequest_codec lim `{!WireRoom lim} :
  Codec lim ShutdownRequest_encode ShutdownRequest_decode ShutdownRequest_ok.
Proof. wire_codec ShutdownRequest_encode ShutdownRequest_decode ShutdownRequest_ok. Qed.

#[global] Instance ShutdownRequest_message : WireMessage ShutdownRequest := {
  wm_type := MT.SHUTDOWN;
  wm_domain := ShutdownRequest_domain;
  wm_validate := ShutdownRequest_validate;
  wm_encode := ShutdownRequest_encode;
  wm_decode := ShutdownRequest_decode }.
#[global] Instance ShutdownRequest_laws : WireLaws ShutdownRequest ShutdownRequest_ok.
Proof. wire_laws ShutdownRequest_ok. Qed.

Record ShutdownAck := mkShutdownAck {
  sk_code : ReasonCode;
  sk_detail : bytes }.

Definition ShutdownAck_domain : bytes := lit "SMF-MSG-SHUTDOWN-ACK-v1".

Definition ShutdownAck_validate (m : ShutdownAck) : Result unit :=
  require_bound (sk_detail m) kMaxDetailBytes "detail".

Definition ShutdownAck_encode (m : ShutdownAck) : bytes :=
  enc_text ShutdownAck_domain ++ write_reason (sk_code m) ++ write_detail (sk_detail m).

Definition ShutdownAck_decode : Dec ShutdownAck :=
  check_domain ShutdownAck_domain ;?
  let? code := read_reason in
  let? detail := read_detail in
  validated ShutdownAck_validate (mkShutdownAck code detail).

Definition ShutdownAck_ok (m : ShutdownAck) : Prop :=
  reason_known (sk_code m) /\ text_ok kMaxDetailBytes (sk_detail m) /\ ShutdownAck_validate m = Ok tt.

#[global] Instance ShutdownAck_codec lim `{!WireRoom lim} :
  Codec lim ShutdownAck_encode ShutdownAck_decode ShutdownAck_ok.
Proof. wire_codec ShutdownAck_encode ShutdownAck_decode ShutdownAck_ok. Qed.

#[global] Instance ShutdownAck_message : WireMessage ShutdownAck := {
  wm_type := MT.SHUTDOWN_ACK;
  wm_domain := ShutdownAck_domain;
  wm_validate := ShutdownAck_validate;
  wm_encode := ShutdownAck_encode;
  wm_decode := ShutdownAck_decode }.
#[global] Instance ShutdownAck_laws : WireLaws ShutdownAck ShutdownAck_ok.
Proof. wire_laws ShutdownAck_ok. Qed.

Record ErrorMessage := mkErrorMessage {
  erm_code : ReasonCode;
  erm_detail : bytes }.

Definition ErrorMessage_domain : bytes := lit "SMF-MSG-ERROR-MESSAGE-v1".

Definition ErrorMessage_validate (m : ErrorMessage) : Result unit :=
  require_bound (erm_detail m) kMaxDetailBytes "detail".

Definition ErrorMessage_encode (m : ErrorMessage) : bytes :=
  enc_text ErrorMessage_domain ++ write_reason (erm_code m) ++ write_detail (erm_detail m).

Definition ErrorMessage_decode : Dec ErrorMessage :=
  check_domain ErrorMessage_domain ;?
  let? code := read_reason in
  let? detail := read_detail in
  validated ErrorMessage_validate (mkErrorMessage code detail).

Definition ErrorMessage_ok (m : ErrorMessage) : Prop :=
  reason_known (erm_code m) /\ text_ok kMaxDetailBytes (erm_detail m) /\ ErrorMessage_validate m = Ok tt.

#[global] Instance ErrorMessage_codec lim `{!WireRoom lim} :
  Codec lim ErrorMessage_encode ErrorMessage_decode ErrorMessage_ok.
Proof. wire_codec ErrorMessage_encode ErrorMessage_decode ErrorMessage_ok. Qed.

#[global] Instance ErrorMessage_message : WireMessage ErrorMessage := {
  wm_type := MT.ERROR;
  wm_domain := ErrorMessage_domain;
  wm_validate := ErrorMessage_validate;
  wm_encode := ErrorMessage_encode;
  wm_decode := ErrorMessage_decode }.
#[global] Instance ErrorMessage_laws : WireLaws ErrorMessage ErrorMessage_ok.
Proof. wire_laws ErrorMessage_ok. Qed.

(** ** Framed helpers (include/smf/wire.hpp) *)

(** The limits of [decode_message]: the frame reader has bounded the payload. *)
Definition message_limits (payload : bytes) : DecodeLimits :=
  mkLimits (if kMaxChunkBytes <? zlen payload then zlen payload else kMaxChunkBytes)
    kMaxObjectNameBytes (zlen payload + 1).

Definition decode_message (T : Type) `{!WireMessage T} (frame : Frame) : Result T :=
  decode_all (message_limits (fr_payload frame)) wm_decode (fr_payload frame).

Section framed.
Context {C : Type} `{!Connection C} {T : Type} `{!WireMessage T}.

Definition send_message (stream : FrameStream C) (message : T) : FrameStream C * Result unit :=
  match wm_validate message with
  | Err e => (stream, Err e)
  | Ok _ => FrameStream_send stream (wm_type T) (wm_encode message) 0
  end.

Definition receive_message (stream : FrameStream C) : FrameStream C * Result T :=
  match FrameStream_receive stream with
  | (stream, Err e) => (stream, Err e)
  | (stream, Ok frame) =>
    (stream,
     if decide (fh_type (fr_header frame) <> wm_type T)
     then Err (mkStatus RC.PROTOCOL_UNKNOWN_MESSAGE
            (lit "expected " ++ message_type_to_string (wm_type T) ++ lit ", received " ++
             message_type_to_string (fh_type (fr_header frame))))
     else decode_message T frame)
  end.
End framed.
Arguments receive_message {C _} T {_} stream.

(** ** Laws of the framed helpers *)

#[global] Instance message_room payload : WireRoom (message_limits payload).
Proof.
  split; [split|]; unfold message_limits; cbn [max_text_bytes max_blob_bytes];
    unfold kMaxObjectNameBytes, kMaxWireChunkBytes, kMaxChunkBytes; [lia|destruct (Z.ltb_spec (64 * 2 ^ 20) (zlen payload)); lia..].
Qed.

Section messages.
Context {T : Type} `{!WireMessage T} {ok : T -> Prop} `{!WireLaws T ok}.

Lemma decode_message_encode h m : ok m -> decode_message T (mkFrame h (wm_encode m)) = Ok m.
Proof.
  intros Hm. unfold decode_message. cbn [fr_payload].
  apply (decode_all_encode _ _ _ ok); [done|]. unfold message_limits. cbn [max_input_bytes]. lia.
Qed.

Lemma decode_message_canonical f m : decode_message T f = Ok m -> ok m /\ fr_payload f = wm_encode m.
Proof.
  intros H. apply (decode_all_canonical _ wm_encode _ ok) in H; [done|].
  unfold message_limits. cbn [max_input_bytes]. lia.
Qed.
End messages.

(** Texts at the head of two equal buffers are equal. *)
Lemma text_head_inj a b r r' : text_ok kMaxWireDomainBytes a -> text_ok kMaxWireDomainBytes b ->
  enc_text a ++ r = enc_text b ++ r' -> a = b.
Proof.
  intros Ha Hb H. set (lim := mkLimits 4096 4096 (zlen (enc_text a ++ r))).
  assert (Roomy lim) by (split; cbn; lia).
  apply (codec_prefix_free lim enc_text (dec_text kMaxWireDomainBytes) (text_ok kMaxWireDomainBytes)
    a b r r') in H as [? _]; done.
Qed.

(** *** The protocol as a whole *)

Record WireKind := mkKind {
  wk_carrier : Type;
  wk_message : WireMessage wk_carrier;
  wk_ok : wk_carrier -> Prop;
  wk_laws : WireLaws wk_carrier wk_ok }.
#[global] Existing Instances wk_message wk_laws.

Definition as_kind (T : Type) (ok : T -> Prop) `{!WireMessage T, !WireLaws T ok} : WireKind :=
  mkKind T _ ok _.

(** Every specialisation of [MessageTypeFor] that is a standalone message. *)
Definition wire_protocol : list WireKind := [
  as_kind RegisterRequest RegisterRequest_ok;
  as_kind RegisterAck RegisterAck_ok;
  as_kind AnnounceObject AnnounceObject_ok;
  as_kind AnnounceAck AnnounceAck_ok;
  as_kind GrantTransfer GrantTransfer_ok;
  as_kind GrantAck GrantAck_ok;
  as_kind ExecuteMovement ExecuteMovement_ok;
  as_kind AttemptResult AttemptResult_ok;
  as_kind CancelRequest CancelRequest_ok;
  as_kind CancelAck CancelAck_ok;
  as_kind CommitRequest CommitRequest_ok;
  as_kind CommitResult CommitResult_ok;
  as_kind VerifyRequest VerifyRequest_ok;
  as_kind VerifyResponse VerifyResponse_ok;
  as_kind AuthorityQuery AuthorityQuery_ok;
  as_kind AuthorityReport AuthorityReport_ok;
  as_kind CleanupRequest CleanupRequest_ok;
  as_kind CleanupResult CleanupResult_ok;
  as_kind DataBegin DataBegin_ok;
  as_kind DataBeginAck DataBeginAck_ok;
  as_kind DataChunk DataChunk_ok;
  as_kind DataChunkAck DataChunkAck_ok;
  as_kind DataEnd DataEnd_ok;
  as_kind DataResult DataResult_ok;
  as_kind DataAbort DataAbort_ok;
  as_kind SubmitMovement SubmitMovement_ok;
  as_kind MovementAccepted MovementAccepted_ok;
  as_kind QueryMovement QueryMovement_ok;
  as_kind MovementStatus MovementStatus_ok;
  as_kind ListMovements ListMovements_ok;
  as_kind MovementList MovementList_ok;
  as_kind CancelMovement CancelMovement_ok;
  as_kind ReconcileMovement ReconcileMovement_ok;
  as_kind ProvenanceRequest ProvenanceRequest_ok;
  as_kind ProvenanceReport ProvenanceReport_ok;
  as_kind TopologyRequest TopologyRequest_ok;
  as_kind TopologyReport TopologyReport_ok;
  as_kind PolicyRequest PolicyRequest_ok;
  as_kind PolicyReport PolicyReport_ok;
  as_kind ShutdownRequest ShutdownRequest_ok;
  as_kind ShutdownAck ShutdownAck_ok;
  as_kind ErrorMessage ErrorMessage_ok ].

Definition kind_domain (k : WireKind) : bytes := wm_domain (wk_carrier k).
Definition kind_type (k : WireKind) : MessageType := wm_type (wk_carrier k).

Lemma kind_types_usable k : k ∈ wire_protocol -> kind_type k <> MT.INVALID.
Proof.
  intros Hk. assert (Forall (fun t => t <> MT.INVALID) (kind_type <$> wire_protocol)) as Hf.
  { unfold wire_protocol. cbn. repeat constructor; done. }
  rewrite list.Forall_fmap, list.Forall_forall in Hf. by apply Hf.
Qed.

(** *** A policy with chunks of 2 MiB *)

Definition big_chunk_policy : MovementPolicy :=
  mkPolicy 3 8 4096 (2 ^ 21) (64 * 2 ^ 30) (64 * 2 ^ 30) 256 256 1024 64 200000 (256 * 2 ^ 20)
    (8 * 2 ^ 30) true true true true 4 30000 600000.
Definition big_chunk_descriptor : StateObjectDescriptor :=
  mkDescriptor (sha256 (object_id_preimage SK.MODEL (lit "demo"))) SK.MODEL (lit "demo") 1
    (sha256 (lit "content")) (2 ^ 22) (2 ^ 21) 2 1767225600000 (lit "producer") true.

Lemma big_chunk_policy_ok : policy_ok big_chunk_policy.
Proof.
  assert (policy_range big_chunk_policy) as Hr by (repeat split; vm_compute; congruence).
  split; [done|]. apply (policy_validate_spec _ Hr). vm_compute. reflexivity.
Qed.

Lemma big_chunk_descriptor_ok : descriptor_ok big_chunk_descriptor.
Proof.
  split; [repeat split; try (vm_compute; congruence)|].
  apply validate_spec. vm_compute. reflexivity.
Qed.

(** *** Grants *)

Lemma unsigned_prefix g : TransferGrant_encode g = encode_unsigned g ++ enc_digest (tg_signature g).
Proof. done. Qed.

Lemma with_signature_self g : with_signature g (tg_signature g) = g.
Proof. by destruct g. Qed.

(** The signed bytes determine every field but the signature. *)
Lemma encode_unsigned_inj g g' : grant_ok g -> grant_ok g' -> encode_unsigned g = encode_unsigned g' ->
  tg_signature g = tg_signature g' -> g = g'.
Proof.
  intros Hg Hg' He Hs.
  set (lim := mkLimits (2 ^ 20) 4096 (zlen (TransferGrant_encode g ++ []))).
  assert (WireRoom lim) by (split; [split; cbn; lia|cbn; unfold kMaxWireChunkBytes; lia]).
  apply (codec_prefix_free lim TransferGrant_encode TransferGrant_decode grant_ok g g' [] []); try done.
  by rewrite !unsigned_prefix, He, Hs.
Qed.

Lemma verify_signature_Ok key g : verify_signature key g = Ok tt <->
  TransferGrant_validate g = Ok tt /\ tg_signature g = compute_signature key g.
Proof.
  unfold verify_signature. rewrite seq_Ok.
  destruct (constant_time_equal (compute_signature key g) (tg_signature g)) eqn:E; cbn [negb].
  - apply constant_time_equal_eq in E. rewrite E. tauto.
  - apply constant_time_equal_neq in E. split; [by intros [_ ?]|]. intros [_ Hs]. congruence.
Qed.

(** ** Properties *)


(** (safety) No payload can be taken for another message.  The domain strings of
    the message types are pairwise different, so are the frame types that carry
    them, and a payload that decodes as two message types decodes as one. *)
Theorem wire_domains_separate (k1 k2 : WireKind) (m1 : wk_carrier k1) (m2 : wk_carrier k2) (f : Frame) :
  k1 ∈ wire_protocol -> k2 ∈ wire_protocol ->
  decode_message (wk_carrier k1) f = Ok m1 -> decode_message (wk_carrier k2) f = Ok m2 ->
  kind_domain k1 = kind_domain k2 /\
  NoDup (kind_domain <$> wire_protocol) /\ NoDup (kind_type <$> wire_protocol).
Proof.
  intros _ _ H1 H2. unfold kind_domain at 1 2. split.
  - apply decode_message_canonical in H1 as [_ H1]. apply decode_message_canonical in H2 as [_ H2].
    destruct (wl_starts (T := wk_carrier k1) (ok := wk_ok k1) m1) as [r1 E1].
    destruct (wl_starts (T := wk_carrier k2) (ok := wk_ok k2) m2) as [r2 E2].
    apply (text_head_inj _ _ r1 r2); [apply (wl_domain (ok := wk_ok k1))|apply (wl_domain (ok := wk_ok k2))|].
    by rewrite <- E1, <- E2, <- H1.
  - split; apply (bool_decide_eq_true _); vm_compute; reflexivity.
Qed.

(** C29: (functional) A grant is its signature's.  Signing leaves every other field
    alone and, when the signed grant is valid, verification under the same key
    accepts it; verification accepts a grant only if it is valid and carries the
    tag of its own fields; and of two well-formed grants with one signature that
    verify under a key, either both are the same grant or the key has two signed
    texts with one HMAC tag. *)
Theorem grant_signature_binds (key : bytes) (g g' : TransferGrant) :
  (let '(s, r) := sign key g in
   s = with_signature g (compute_signature key g) /\ (r = Ok tt -> verify_signature key s = Ok tt)) /\
  (verify_signature key g = Ok tt <->
     TransferGrant_validate g = Ok tt /\ tg_signature g = compute_signature key g) /\
  (grant_ok g -> grant_ok g' -> verify_signature key g = Ok tt -> verify_signature key g' = Ok tt ->
     tg_signature g = tg_signature g' ->
     g = g' \/ hmac_collision key (enc_text kSignatureDomain ++ encode_unsigned g)
                 (enc_text kSignatureDomain ++ encode_unsigned g')).
Proof.
  split_and!.
  - unfold sign. split; [done|]. intros Hv. apply verify_signature_Ok. split; [exact Hv|reflexivity].
  - apply verify_signature_Ok.
  - intros Hg Hg' H H' Hs. apply verify_signature_Ok in H as [_ H]. apply verify_signature_Ok in H' as [_ H'].
    pose proof Hs as Hm. rewrite H, H' in Hm. apply hmac_binds in Hm as [E|]; [|by right].
    left. apply app_inv_head in E. by apply encode_unsigned_inj.
Qed.

(** (functional) What one peer sends is what the other receives.  When the two
    ends of a connection are in step and the sender's [send_message] succeeds on
    a well-formed message, the receiver, once the bytes sent are what it has to
    read, gets exactly that message from [receive_message], the rest of its input
    is untouched and the two ends are in step again. *)
Theorem sent_message_is_received {C D : Type} `{!Connection C, !ConnectionLaws C, !Connection D,
    !ConnectionLaws D} (k : WireKind) (m : wk_carrier k) (s s' : FrameStream C) (r : FrameStream D)
    (wire rest : bytes) :
  k ∈ wire_protocol -> wk_ok k m -> in_step s r -> fc_send_sequence (fs_codec s) + 1 < 2 ^ 64 ->
  responsive D -> send_message s m = (s', Ok tt) ->
  outgoing (fs_connection s') = outgoing (fs_connection s) ++ wire ->
  incoming (fs_connection r) = wire ++ rest ->
  exists r', receive_message (wk_carrier k) r = (r', Ok m) /\
    incoming (fs_connection r') = rest /\ in_step s' r'.
Proof.
  intros Hk Hm Hst Hb HR Hs Ho Hi.
  assert (wm_type (wk_carrier k) <> MT.INVALID) as Ht.
  { apply (kind_types_usable k Hk). }
  unfold send_message in Hs. destruct (wm_validate m) as [[]|]; [|done].
  set (msg := mkMessage (wm_type (wk_carrier k)) 0 (wm_encode m)).
  assert (send_messages s [msg] = (s', Ok tt)) as Hsend.
  { cbn [send_messages]. unfold msg. cbn [msg_type msg_payload msg_flags]. by rewrite Hs. }
  destruct (deliver (D := D) [msg] s s' r wire rest Hst) as [Hd Hl]; try done.
  { constructor; [|constructor]. by split_and!. }
  destruct (Hl HR) as (r' & fs & E). destruct (Hd r' fs E) as (Hc & Hin & Hst'). cbn [length receive_messages] in E.
  unfold receive_message. destruct (FrameStream_receive r) as [r1 [f|e]]; [|done].
  injection E as -> E. destruct fs as [|f1 [|]]; try done. injection E as ->.
  exists r'. split; [|done]. injection Hc as Htype _ Hp. rewrite Htype, decide_False by tauto.
  destruct f1 as [h p]. cbn [fr_payload] in Hp. subst p. by rewrite decode_message_encode.
Qed.

(** (error) The resume position of a [DataBegin] does not survive its codec: the
    two fields are declared, but two messages that differ only in them have the
    same encoding, and whatever is decoded has both at zero. *)
Theorem data_begin_drops_resume (m : DataBegin) (chunk offset : Z) (f : Frame) :
  DataBegin_encode (mkDataBegin (db_nonce m) (db_movement_id m) (db_movement_generation m) (db_attempt m)
    (db_object m) (db_destination m) (db_destination_incarnation m) chunk offset) = DataBegin_encode m /\
  (decode_message DataBegin f = Ok m -> db_resume_from_chunk m = 0 /\ db_resume_from_offset m = 0).
Proof.
  split; [reflexivity|]. intros H. apply decode_message_canonical in H as [Hm _].
  unfold DataBegin_ok in Hm. tauto.
Qed.

(** (error) A valid policy can admit objects whose chunks cannot be sent.  The
    policy bound on chunks goes up to 64 MiB, the message that carries a chunk
    stops at 1 MiB: under a valid policy there are valid descriptors whose chunk
    size is within the policy, and [send_message] refuses every chunk of that size
    with INVALID_SIZE without using the stream. *)
Theorem policy_admits_unsendable_chunks :
  exists (p : MovementPolicy) (d : StateObjectDescriptor), policy_ok p /\ descriptor_ok d /\
    po_min_chunk_bytes p <= d_chunk_bytes d <= po_max_chunk_bytes p /\
    forall (C : Type) (HC : Connection C) (s : FrameStream C) (m : DataChunk),
      array_is_zero (dc_movement_id m) = false -> array_is_zero (dc_attempt m) = false ->
      zlen (dc_payload m) = d_chunk_bytes d ->
      send_message s m = (s, fail RC.INVALID_SIZE "data chunk payload exceeds the chunk bound").
Proof.
  exists big_chunk_policy, big_chunk_descriptor. split; [apply big_chunk_policy_ok|].
  split; [apply big_chunk_descriptor_ok|]. split; [cbn; lia|].
  intros C HC s m Hi Ha Hl. unfold send_message. cbn [wm_validate DataChunk_message].
  unfold DataChunk_validate, reject_if. rewrite Hi, Ha, Hl. reflexivity.
Qed.

(** *** Witnesses *)

Definition demo_query : QueryMovement := mkQueryMovement (replicate 16 x0b).

Lemma demo_query_ok : QueryMovement_ok demo_query.
Proof. split; vm_compute; reflexivity. Qed.

Lemma query_in_protocol : as_kind QueryMovement QueryMovement_ok ∈ wire_protocol.
Proof. by apply (list_elem_of_lookup_2 _ 27). Qed.


Lemma wire_domains_separate_witness : NoDup (kind_domain <$> wire_protocol).
Proof.
  refine (proj1 (proj2 (wire_domains_separate (as_kind QueryMovement QueryMovement_ok)
    (as_kind QueryMovement QueryMovement_ok) demo_query demo_query
    (mkFrame demo_header (QueryMovement_encode demo_query)) query_in_protocol query_in_protocol _ _)));
    vm_compute; reflexivity.
Defined.

Definition demo_grant : TransferGrant :=
  mkGrant (replicate 16 x0b) 4 (replicate 16 x01) demo_descriptor (lit "src")
    (mkIncarnation (lit "src") (replicate 16 x06) 2) (lit "dst") (mkIncarnation (lit "dst") (replicate 16 x07) 3)
    1 (replicate 32 x09) 2500 3 1767225600000 EC.REPEATABLE [].

Lemma grant_signature_binds_witness :
  verify_signature demo_secret (with_signature demo_grant (compute_signature demo_secret demo_grant)) = Ok tt.
Proof.
  destruct (grant_signature_binds demo_secret demo_grant demo_grant) as [H _]. unfold sign in H.
  apply (proj2 H). vm_compute. reflexivity.
Defined.

Definition demo_admin : FrameStream Pipe := mkFrameStream (mkPipe [] []) keyed_codec 64.
Definition demo_query_sent : FrameStream Pipe := (send_message demo_admin demo_query).1.
Definition demo_listener : FrameStream Pipe :=
  mkFrameStream (mkPipe [pipe_sent (fs_connection demo_query_sent)] []) keyed_codec 64.

Lemma sent_message_is_received_witness : exists r',
  receive_message QueryMovement demo_listener = (r', Ok demo_query).
Proof.
  destruct (sent_message_is_received (as_kind QueryMovement QueryMovement_ok) demo_query demo_admin
    demo_query_sent demo_listener (pipe_sent (fs_connection demo_query_sent)) []) as (r' & H & _).
  - exact query_in_protocol.
  - exact demo_query_ok.
  - repeat split; vm_compute; congruence.
  - vm_compute. reflexivity.
  - exact pipe_responsive.
  - vm_compute. reflexivity.
  - vm_compute. reflexivity.
  - reflexivity.
  - exists r'. exact H.
Defined.

Lemma data_begin_drops_resume_witness :
  DataBegin_encode (mkDataBegin (sha256 []) (replicate 16 x0b) 1 (replicate 16 x01) demo_descriptor (lit "dst")
    no_incarnation 7 7168) =
  DataBegin_encode (mkDataBegin (sha256 []) (replicate 16 x0b) 1 (replicate 16 x01) demo_descriptor (lit "dst")
    no_incarnation 0 0).
Proof.
  exact (proj1 (data_begin_drops_resume (mkDataBegin (sha256 []) (replicate 16 x0b) 1 (replicate 16 x01)
    demo_descriptor (lit "dst") no_incarnation 0 0) 7 7168 (mkFrame demo_header []))).
Defined.
