(* ===== verification/Effect.v ===== *)
(** * Effects

    The state and error monad in which the coordinator and the endpoint agent
    are written: a computation changes a world and ends in a [Result].  An error
    is an early return, it keeps what was done to the world before it.  Two
    program logics come with it: [ends], a weakest precondition, and [leads],
    which follows the events a computation emits through the transitions of an
    abstract protocol. *)
From S2P Require Import Prelude Status.

Definition Eff (W A : Type) : Type := W -> W * Result A.

Section monad.
Context {W : Type}.

Definition eff_ret {A} (x : A) : Eff W A := fun w => (w, Ok x).
Definition eff_lift {A} (r : Result A) : Eff W A := fun w => (w, r).
Definition eff_bind {A B} (m : Eff W A) (k : A -> Eff W B) : Eff W B :=
  fun w => match m w with (w', Ok x) => k x w' | (w', Err e) => (w', Err e) end.

(** The status or result of a call, inspected instead of returned. *)
Definition eff_try {A} (m : Eff W A) : Eff W (Result A) :=
  fun w => let '(w', r) := m w in (w', Ok r).
Definition eff_reject (cond : bool) (c : ReasonCode) (m : String.string) : Eff W unit :=
  eff_lift (if cond then fail c m else Ok tt).
End monad.
Arguments eff_reject {W} _ _ _%_string_scope.

Notation "'let$' x := m 'in' k" := (eff_bind m (fun x => k))
  (at level 10, x pattern, m at level 100, k at level 200) : smf_scope.
Notation "m ;$ k" := (eff_bind m (fun _ => k)) (at level 199, right associativity) : smf_scope.

(** ** Weakest preconditions *)

Definition ends {W A} (m : Eff W A) (w : W) (Q : W -> Result A -> Prop) : Prop :=
  let '(w', r) := m w in Q w' r.

Section ends.
Context {W : Type}.
Implicit Types w : W.

Lemma ends_intro {A} (m : Eff W A) w (Q : W -> Result A -> Prop) :
  (forall w' r, m w = (w', r) -> Q w' r) -> ends m w Q.
Proof. unfold ends. destruct (m w) as [w' r]. auto. Qed.

Lemma ends_elim {A} (m : Eff W A) w w' r (Q : W -> Result A -> Prop) :
  ends m w Q -> m w = (w', r) -> Q w' r.
Proof. unfold ends. intros H E. by rewrite E in H. Qed.

Lemma ends_mono {A} (m : Eff W A) w (P Q : W -> Result A -> Prop) :
  ends m w P -> (forall w' r, P w' r -> Q w' r) -> ends m w Q.
Proof. unfold ends. destruct (m w). auto. Qed.

Lemma ends_bind {A B} (m : Eff W A) (k : A -> Eff W B) w (Q : W -> Result B -> Prop) :
  ends m w (fun w' r => match r with Ok x => ends (k x) w' Q | Err e => Q w' (Err e) end) ->
  ends (eff_bind m k) w Q.
Proof. unfold ends, eff_bind. destruct (m w) as [w' [x|e]]; auto. Qed.

Lemma ends_ret {A} (x : A) w (Q : W -> Result A -> Prop) : Q w (Ok x) -> ends (eff_ret x) w Q.
Proof. auto. Qed.

Lemma ends_lift {A} (r : Result A) w (Q : W -> Result A -> Prop) : Q w r -> ends (eff_lift r) w Q.
Proof. auto. Qed.

Lemma ends_try {A} (m : Eff W A) w (Q : W -> Result (Result A) -> Prop) :
  ends m w (fun w' r => Q w' (Ok r)) -> ends (eff_try m) w Q.
Proof. unfold ends, eff_try. destruct (m w). auto. Qed.

Lemma ends_reject cond c m w (Q : W -> Result unit -> Prop) :
  (cond = true -> Q w (fail c m)) -> (cond = false -> Q w (Ok tt)) -> ends (eff_reject cond c m) w Q.
Proof. unfold ends, eff_reject, eff_lift. destruct cond; auto. Qed.
End ends.

(** ** Following a protocol *)

(** [L] reads the events emitted so far off a world, newest first; [step] is the
    protocol, a transition system labelled with the events.  [leads m p Q] says:
    whatever the world, the events [m] emits take the protocol from [p] to a
    phase that satisfies [Q] with the result. *)
Section protocol.
Context {W E Ph : Type} (L : W -> list E) (step : Ph -> E -> Ph -> Prop).

Inductive steps (p : Ph) : list E -> Ph -> Prop :=
  | steps_nil : steps p [] p
  | steps_cons e es q r : step p e q -> steps q es r -> steps p (e :: es) r.

Lemma steps_app p es q fs r : steps p es q -> steps q fs r -> steps p (es ++ fs) r.
Proof. induction 1; simpl; [done|]. intros. econstructor; eauto. Qed.

Lemma steps_split p es fs r : steps p (es ++ fs) r -> exists q, steps p es q /\ steps q fs r.
Proof.
  revert p. induction es as [|e es IH]; intros p H; simpl in H; [exists p; split; [constructor|done]|].
  inversion H as [|? ? q ? Hs Hr]; subst. destruct (IH q Hr) as (q' & H1 & H2).
  exists q'. split; [by econstructor|done].
Qed.

Definition emits (w w' : W) (es : list E) : Prop := L w' = rev es ++ L w.

Definition leads {A} (m : Eff W A) (p : Ph) (Q : Result A -> Ph -> Prop) : Prop :=
  forall w, exists es q, emits w (m w).1 es /\ steps p es q /\ Q (m w).2 q.

Lemma leads_bind {A B} (m : Eff W A) (k : A -> Eff W B) p Q :
  leads m p (fun r q => match r with Ok x => leads (k x) q Q | Err e => Q (Err e) q end) ->
  leads (eff_bind m k) p Q.
Proof.
  intros H w. destruct (H w) as (es & q & He & Hs & Hq). unfold eff_bind.
  destruct (m w) as [w' [x|e]]; simpl in *; [|by exists es, q].
  destruct (Hq w') as (fs & r & Hf & Hr & HQ). exists (es ++ fs), r. split; [|split; [by eapply steps_app|done]].
  unfold emits in *. by rewrite Hf, He, rev_app_distr, app_assoc.
Qed.

Lemma leads_pure {A} (r : Result A) p (Q : Result A -> Ph -> Prop) : Q r p -> leads (eff_lift r) p Q.
Proof. intros H w. exists [], p. split; [done|]. split; [constructor|done]. Qed.

Lemma leads_ret {A} (x : A) p (Q : Result A -> Ph -> Prop) : Q (Ok x) p -> leads (eff_ret x) p Q.
Proof. apply leads_pure. Qed.

Lemma leads_try {A} (m : Eff W A) p (Q : Result (Result A) -> Ph -> Prop) :
  leads m p (fun r q => Q (Ok r) q) -> leads (eff_try m) p Q.
Proof.
  intros H w. destruct (H w) as (es & q & He & Hs & Hq). exists es, q. unfold eff_try.
  destruct (m w). by split_and!.
Qed.

(** A computation that emits nothing. *)
Lemma leads_silent {A} (m : Eff W A) p (Q : Result A -> Ph -> Prop) :
  (forall w, L (m w).1 = L w) -> (forall w, Q (m w).2 p) -> leads m p Q.
Proof. intros H HQ w. exists [], p. split; [by apply H|]. split; [constructor|done]. Qed.

(** A computation that emits one event. *)
Lemma leads_emit {A} (m : Eff W A) p (Q : Result A -> Ph -> Prop) :
  (forall w, exists e q, L (m w).1 = e :: L w /\ step p e q /\ Q (m w).2 q) -> leads m p Q.
Proof.
  intros H w. destruct (H w) as (e & q & He & Hs & Hq). exists [e], q. split; [done|].
  split; [|done]. econstructor; [done|constructor].
Qed.

Lemma leads_mono {A} (m : Eff W A) p (P Q : Result A -> Ph -> Prop) :
  leads m p P -> (forall r q, P r q -> Q r q) -> leads m p Q.
Proof. intros H HQ w. destruct (H w) as (es & q & ? & ? & ?). exists es, q. auto. Qed.
End protocol.

(** The protocol that allows nothing. *)
Definition silence {E : Type} (_ : unit) (_ : E) (_ : unit) : Prop := False.

Lemma leads_silence {W E A : Type} (L : W -> list E) (m : Eff W A) (Q : Result A -> Prop) :
  leads L silence m tt (fun r _ => Q r) -> forall w, L (m w).1 = L w /\ Q (m w).2.
Proof. intros H w. destruct (H w) as (es & q & He & Hs & HQ). by destruct Hs. Qed.
