(* ===== verification/Links.v ===== *)
(** * Control links (ControlLink of include/smf/coordinator.hpp; deliver,
    find_link, push, reserve, release and the end of session_loop of
    src/src/coordinator.cpp)

    A coordinator talks to an endpoint over a shared [ControlLink]: any thread
    may reserve a response slot and send a request, the session's reader thread
    hands every arriving frame to the slot it answers.  Links and promises are
    shared objects, so both live in a store and are named by their address; the
    table [links_] maps an endpoint to the link that registered it last. *)
From S2P Require Import Prelude Status Bytes Digest Codec Ids Framing Wire.

Record ControlLink (C : Type) := mkControlLink {
  lk_stream : FrameStream C;
  lk_endpoint : bytes;
  lk_alive : bool;
  lk_pending : gmap bytes nat }.
Arguments mkControlLink {C}.
Arguments lk_stream {C}.
Arguments lk_endpoint {C}.
Arguments lk_alive {C}.
Arguments lk_pending {C}.

(** [ls_ready] holds the value of every promise that was fulfilled; [ls_fresh]
    is the next unused address. *)
Record Links (C : Type) := mkLinks {
  ls_heap : gmap nat (ControlLink C);
  ls_table : gmap bytes nat;
  ls_ready : gmap nat Frame;
  ls_fresh : nat }.
Arguments mkLinks {C}.
Arguments ls_heap {C}.
Arguments ls_table {C}.
Arguments ls_ready {C}.
Arguments ls_fresh {C}.

Definition no_links {C : Type} : Links C := mkLinks ∅ ∅ ∅ 0.

(** [Frame{}], what a waiter gets when its session ends. *)
Definition empty_frame : Frame := mkFrame (mkFrameHeader kProtocolVersion 0 MT.INVALID 0 0 zero_digest) [].

Definition key_for (type : MessageType) (subject : bytes) : bytes :=
  message_type_to_string type ++ lit ":" ++ subject.

(** The slot a frame answers, the switch of [deliver]. *)
Definition delivery_key (frame : Frame) : option bytes :=
  match fh_type (fr_header frame) with
  | MT.GRANT_ACK =>
      match decode_message GrantAck frame with
      | Ok m => Some (key_for MT.GRANT_ACK (to_hex (ga_nonce m))) | Err _ => None end
  | MT.ATTEMPT_RESULT =>
      match decode_message AttemptResult frame with
      | Ok m => Some (key_for MT.ATTEMPT_RESULT (to_hex (ar_movement_id m))) | Err _ => None end
  | MT.COMMIT_RESULT =>
      match decode_message CommitResult frame with
      | Ok m => Some (key_for MT.COMMIT_RESULT (to_hex (cr_movement_id m))) | Err _ => None end
  | MT.VERIFY_RESPONSE =>
      match decode_message VerifyResponse frame with
      | Ok m => Some (key_for MT.VERIFY_RESPONSE
                        (to_hex (vr_movement_id m) ++ lit ":" ++ std_to_string (vr_chunk_index m)))
      | Err _ => None end
  | MT.AUTHORITY_REPORT =>
      match decode_message AuthorityReport frame with
      | Ok m => Some (key_for MT.AUTHORITY_REPORT (to_hex (ap_movement_id m))) | Err _ => None end
  | MT.CLEANUP_RESULT =>
      match decode_message CleanupResult frame with
      | Ok m => Some (key_for MT.CLEANUP_RESULT (to_hex (kr_movement_id m))) | Err _ => None end
  | MT.CANCEL_ACK =>
      match decode_message CancelAck frame with
      | Ok m => Some (key_for MT.CANCEL_ACK (to_hex (ca_movement_id m))) | Err _ => None end
  | MT.TOPOLOGY_REPORT => Some (message_type_to_string MT.TOPOLOGY_REPORT)
  | MT.POLICY_REPORT => Some (message_type_to_string MT.POLICY_REPORT)
  | MT.HEARTBEAT_ACK => Some (message_type_to_string MT.HEARTBEAT_ACK)
  | _ => None
  end.

Section links.
Context {C : Type} `{!Connection C}.
Implicit Types (ls : Links C) (lk : ControlLink C).

Definition set_link ls (l : nat) lk : Links C :=
  mkLinks (<[l := lk]> (ls_heap ls)) (ls_table ls) (ls_ready ls) (ls_fresh ls).
Definition set_ready ls (ready : gmap nat Frame) : Links C :=
  mkLinks (ls_heap ls) (ls_table ls) ready (ls_fresh ls).
Definition set_table ls (table : gmap bytes nat) : Links C :=
  mkLinks (ls_heap ls) table (ls_ready ls) (ls_fresh ls).
Definition with_pending lk (pending : gmap bytes nat) : ControlLink C :=
  mkControlLink (lk_stream lk) (lk_endpoint lk) (lk_alive lk) pending.
Definition with_stream lk (stream : FrameStream C) : ControlLink C :=
  mkControlLink stream (lk_endpoint lk) (lk_alive lk) (lk_pending lk).
Definition with_alive lk (alive : bool) : ControlLink C :=
  mkControlLink (lk_stream lk) (lk_endpoint lk) alive (lk_pending lk).

(** [std::make_shared<ControlLink>] for a session that has been accepted. *)
Definition open_link ls (stream : FrameStream C) (endpoint : bytes) : Links C * nat :=
  (mkLinks (<[ls_fresh ls := mkControlLink stream endpoint true ∅]> (ls_heap ls)) (ls_table ls)
     (ls_ready ls) (S (ls_fresh ls)), ls_fresh ls).

(** [links_.insert_or_assign(endpoint, link)] *)
Definition register_link ls (endpoint : bytes) (l : nat) : Links C :=
  set_table ls (<[endpoint := l]> (ls_table ls)).

Definition deliver ls (l : nat) (frame : Frame) : Links C * bool :=
  match delivery_key frame with
  | None => (ls, false)
  | Some key =>
      match ls_heap ls !! l with
      | None => (ls, false)
      | Some lk =>
          match lk_pending lk !! key with
          | None => (ls, false)
          | Some promise =>
              (set_ready (set_link ls l (with_pending lk (delete key (lk_pending lk))))
                 (<[promise := frame]> (ls_ready ls)), true)
          end
      end
  end.

Definition find_link ls (endpoint : bytes) : Result nat :=
  match ls_table ls !! endpoint with
  | Some l =>
      match ls_heap ls !! l with
      | Some lk =>
          if lk_alive lk then Ok l
          else Err (mkStatus RC.ENDPOINT_NOT_LIVE
                      (lit "no live control session exists for " ++ endpoint))
      | None => Err (mkStatus RC.ENDPOINT_NOT_LIVE
                       (lit "no live control session exists for " ++ endpoint))
      end
  | None => Err (mkStatus RC.ENDPOINT_NOT_LIVE
                   (lit "no live control session exists for " ++ endpoint))
  end.

Definition push ls (l : nat) (type : MessageType) (payload : bytes) : Links C * Result unit :=
  match ls_heap ls !! l with
  | None => (ls, fail RC.ENDPOINT_NOT_LIVE "the endpoint session has ended")
  | Some lk =>
      if negb (lk_alive lk) then (ls, fail RC.ENDPOINT_NOT_LIVE "the endpoint session has ended")
      else let '(stream, status) := FrameStream_send (lk_stream lk) type payload 0 in
           (set_link ls l (with_stream lk stream), status)
  end.

(** The future of a fresh promise. *)
Definition reserve ls (l : nat) (key : bytes) : Links C * Result nat :=
  match ls_heap ls !! l with
  | None => (ls, fail RC.BUSY "an identical request is already in flight")
  | Some lk =>
      match lk_pending lk !! key with
      | Some _ => (ls, fail RC.BUSY "an identical request is already in flight")
      | None =>
          let promise := ls_fresh ls in
          (mkLinks (<[l := with_pending lk (<[key := promise]> (lk_pending lk))]> (ls_heap ls))
             (ls_table ls) (ls_ready ls) (S promise), Ok promise)
      end
  end.

Definition release ls (l : nat) (key : bytes) : Links C :=
  match ls_heap ls !! l with
  | None => ls
  | Some lk => set_link ls l (with_pending lk (delete key (lk_pending lk)))
  end.

(** [future.get()] on a promise that has been fulfilled. *)
Definition ready ls (promise : nat) : option Frame := ls_ready ls !! promise.

(** The end of a session: waiters get the empty frame, the endpoint loses its
    entry if it is still this link's. *)
Definition close_link ls (l : nat) : Links C :=
  match ls_heap ls !! l with
  | None => ls
  | Some lk =>
      let woken := map_fold (fun _ promise r => <[promise := empty_frame]> r) (ls_ready ls) (lk_pending lk) in
      mkLinks (<[l := with_pending (with_alive lk false) ∅]> (ls_heap ls))
        (filter (fun e => e.2 <> l) (ls_table ls)) woken (ls_fresh ls)
  end.

(** The loop of [request_shutdown]: every registered link is marked dead. *)
Definition kill_links ls : Links C :=
  mkLinks (map_imap (fun l lk => Some (if bool_decide (map_Exists (fun _ l' => l' = l) (ls_table ls))
                                       then with_alive lk false else lk)) (ls_heap ls))
    (ls_table ls) (ls_ready ls) (ls_fresh ls).
End links.

(** ** Invariant *)

Section invariant.
Context {C : Type} `{!Connection C}.
Implicit Types (ls : Links C) (lk : ControlLink C).

(** Slot [k] of link [l] waits on promise [p]. *)
Definition waits ls (l : nat) (k : bytes) (p : nat) : Prop :=
  exists lk, ls_heap ls !! l = Some lk /\ lk_pending lk !! k = Some p.

Record links_inv ls : Prop := {
  li_waits : forall l k p, waits ls l k p -> (p < ls_fresh ls)%nat /\ ls_ready ls !! p = None;
  li_once : forall l k l' k' p, waits ls l k p -> waits ls l' k' p -> l = l' /\ k = k';
  li_ready : forall p f, ls_ready ls !! p = Some f -> (p < ls_fresh ls)%nat;
  li_heap : forall l lk, ls_heap ls !! l = Some lk -> (l < ls_fresh ls)%nat;
  li_table : forall e l, ls_table ls !! e = Some l -> is_Some (ls_heap ls !! l) }.

(** Everything that happens to the links of a coordinator. *)
Inductive links_step ls : Links C -> Prop :=
  | step_open stream e : links_step ls (open_link ls stream e).1
  | step_register e l : is_Some (ls_heap ls !! l) -> links_step ls (register_link ls e l)
  | step_deliver l f : links_step ls (deliver ls l f).1
  | step_push l t p : links_step ls (push ls l t p).1
  | step_reserve l k : links_step ls (reserve ls l k).1
  | step_release l k : links_step ls (release ls l k)
  | step_close l : links_step ls (close_link ls l)
  | step_kill : links_step ls (kill_links ls).

Inductive links_run ls : Links C -> Prop :=
  | links_here : links_run ls ls
  | links_next ls1 ls2 : links_run ls ls1 -> links_step ls1 ls2 -> links_run ls ls2.

Lemma links_run_trans ls1 ls2 ls3 : links_run ls1 ls2 -> links_run ls2 ls3 -> links_run ls1 ls3.
Proof. intros H. induction 1; [done|]. by eapply links_next. Qed.

Lemma no_links_inv : links_inv (no_links (C:=C)).
Proof. split; unfold waits; simpl; intros; naive_solver. Qed.

Lemma waits_insert ls l lk l' k p table r fr :
  waits (mkLinks (<[l := lk]> (ls_heap ls)) table r fr) l' k p <->
  (l' = l /\ lk_pending lk !! k = Some p) \/ (l' <> l /\ waits ls l' k p).
Proof.
  unfold waits. simpl. destruct (decide (l' = l)) as [->|Hn].
  - rewrite lookup_insert_eq. naive_solver.
  - rewrite lookup_insert_ne by done. naive_solver.
Qed.

(** The promises [close_link] wakes. *)
Lemma woken_lookup (pending : gmap bytes nat) (r : gmap nat Frame) p :
  ((exists k, pending !! k = Some p) ->
   map_fold (fun _ promise r => <[promise := empty_frame]> r) r pending !! p = Some empty_frame) /\
  ((forall k, pending !! k <> Some p) ->
   map_fold (fun _ promise r => <[promise := empty_frame]> r) r pending !! p = r !! p).
Proof.
  induction pending as [|k q m Hk Hfold IH] using map_first_key_ind.
  - rewrite map_fold_empty. split; [|done]. intros [k Hk]. by rewrite lookup_empty in Hk.
  - rewrite map_fold_insert_first_key by done. destruct (decide (q = p)) as [->|Hq].
    + rewrite lookup_insert_eq. split; [done|]. intros H. destruct (H k). by rewrite lookup_insert_eq.
    + rewrite lookup_insert_ne by done. destruct IH as [IH1 IH2]. split.
      * intros [k' Hk']. apply IH1. exists k'. destruct (decide (k = k')) as [<-|Hn];
          [rewrite lookup_insert_eq in Hk'; congruence|by rewrite lookup_insert_ne in Hk' by done].
      * intros H. apply IH2. intros k' Hk'. destruct (decide (k = k')) as [<-|Hn]; [congruence|].
        apply (H k'). by rewrite lookup_insert_ne by done.
Qed.

(** How a step changes the waiting slots and the fulfilled promises. *)
Record evolves ls ls' : Prop := {
  ev_fresh : (ls_fresh ls <= ls_fresh ls')%nat;
  ev_waits : forall l k p, waits ls' l k p -> waits ls l k p \/ (ls_fresh ls <= p)%nat;
  ev_ready : forall p f, ls_ready ls !! p = Some f -> ls_ready ls' !! p = Some f;
  ev_new : forall p f, ls_ready ls' !! p = Some f -> ls_ready ls !! p = Some f \/
     exists l k, waits ls l k p /\ (f = empty_frame \/ delivery_key f = Some k) }.

Lemma evolves_same ls ls' : ls_fresh ls = ls_fresh ls' -> ls_ready ls = ls_ready ls' ->
  (forall l k p, waits ls' l k p -> waits ls l k p) -> evolves ls ls'.
Proof. intros Hf Hr Hw. split; [lia|auto|congruence|]. rewrite Hr. auto. Qed.

Lemma inv_same ls ls' : links_inv ls -> ls_fresh ls = ls_fresh ls' -> ls_ready ls = ls_ready ls' ->
  (forall l k p, waits ls' l k p -> waits ls l k p) ->
  (forall l, is_Some (ls_heap ls' !! l) <-> is_Some (ls_heap ls !! l)) ->
  (forall e l, ls_table ls' !! e = Some l -> is_Some (ls_heap ls !! l)) -> links_inv ls'.
Proof.
  intros Hi Hf Hr Hw Hh Ht. destruct Hi as [H1 H2 H3 H4 H5]. rewrite Hf, Hr in *. split.
  - intros l k p Hp. eapply H1. eauto.
  - intros l k l' k' p Hp Hp'. eapply H2; eauto.
  - done.
  - intros l lk Hl. destruct (proj1 (Hh l) ltac:(eauto)) as [lk' Hl']. eauto.
  - intros e l He. apply Hh. eauto.
Qed.

(** Changing one link without adding slots. *)
Lemma set_link_same ls l lk lk' : links_inv ls -> ls_heap ls !! l = Some lk ->
  lk_pending lk' ⊆ lk_pending lk -> links_inv (set_link ls l lk') /\ evolves ls (set_link ls l lk').
Proof.
  intros Hi Hl Hs.
  assert (Hw : forall l0 k p, waits (set_link ls l lk') l0 k p -> waits ls l0 k p).
  { intros l0 k p [[-> Hp]|[_ Hp]]%waits_insert; [|done]. exists lk. split; [done|].
    by eapply lookup_weaken. }
  split; [apply (inv_same ls)|apply evolves_same]; try done.
  - intros l0. simpl. destruct (decide (l0 = l)) as [->|Hn];
      [rewrite lookup_insert_eq, Hl; naive_solver|by rewrite lookup_insert_ne].
  - intros e l0. apply (li_table _ Hi).
Qed.

Lemma evolves_refl ls : evolves ls ls.
Proof. by apply evolves_same. Qed.
#[local] Hint Resolve evolves_refl : core.

Lemma deliver_step ls l f : links_inv ls ->
  links_inv (deliver ls l f).1 /\ evolves ls (deliver ls l f).1.
Proof.
  intros Hi. unfold deliver. destruct (delivery_key f) as [key|] eqn:Ek; [|done].
  destruct (ls_heap ls !! l) as [lk|] eqn:El; [|done].
  destruct (lk_pending lk !! key) as [p|] eqn:Ep; [|done]. simpl.
  assert (waits ls l key p) as Hp by (by exists lk).
  destruct (li_waits _ Hi _ _ _ Hp) as [Hlt Hnone].
  destruct (set_link_same ls l lk (with_pending lk (delete key (lk_pending lk))) Hi El
              (delete_subseteq _ _)) as [Hi' He].
  set (ls1 := set_link ls l _) in *.
  assert (Hno : forall l' k', ~ waits ls1 l' k' p).
  { intros l' k' Hw. pose proof (ev_waits _ _ He _ _ _ Hw) as [Hw'|]; [|lia].
    destruct (li_once _ Hi _ _ _ _ _ Hp Hw') as [<- <-]. apply waits_insert in Hw as [[_ Hw]|[? _]]; [|done].
    simpl in Hw. by rewrite lookup_delete_eq in Hw. }
  split.
  - destruct Hi' as [H1 H2 H3 H4 H5]. split; simpl; [|by apply H2| |by apply H4|by apply H5].
    + intros l' k' q Hw. destruct (H1 _ _ _ Hw) as [? Hq]. split; [done|].
      rewrite lookup_insert_ne; [done|]. intros <-. by eapply Hno.
    + intros q f0 Hq. destruct (decide (q = p)) as [->|]; [done|].
      rewrite lookup_insert_ne in Hq by done. by eapply H3.
  - destruct He as [E1 E2 _ _]. split; simpl; [done|done| |].
    + intros q f0 Hq. rewrite lookup_insert_ne; [done|]. congruence.
    + intros q f0 Hq. destruct (decide (q = p)) as [->|Hn].
      * rewrite lookup_insert_eq in Hq. right. exists l, key. naive_solver.
      * rewrite lookup_insert_ne in Hq by done. auto.
Qed.

Lemma reserve_step ls l k : links_inv ls ->
  links_inv (reserve ls l k).1 /\ evolves ls (reserve ls l k).1.
Proof.
  intros Hi. unfold reserve. destruct (ls_heap ls !! l) as [lk|] eqn:El; [|done].
  destruct (lk_pending lk !! k) eqn:Ek; [done|]. simpl.
  set (ls' := mkLinks _ _ _ _).
  assert (Hw : forall l0 k0 p, waits ls' l0 k0 p ->
            waits ls l0 k0 p \/ (l0 = l /\ k0 = k /\ p = ls_fresh ls)).
  { intros l0 k0 p [[-> Hp]|[_ Hp]]%waits_insert; [|auto]. destruct (decide (k0 = k)) as [->|Hn].
    - simpl in Hp. rewrite lookup_insert_eq in Hp. naive_solver.
    - simpl in Hp. rewrite lookup_insert_ne in Hp by done. left. by exists lk. }
  destruct Hi as [H1 H2 H3 H4 H5]. split; split; simpl.
  - intros l0 k0 p [Hp|(_ & _ & ->)]%Hw; [destruct (H1 _ _ _ Hp); split; [lia|done]|].
    split; [lia|]. destruct (ls_ready ls !! ls_fresh ls) eqn:E; [|done]. apply H3 in E. lia.
  - intros l0 k0 l1 k1 p [Hp|(-> & -> & ->)]%Hw [Hp'|(-> & -> & Hf)]%Hw; [eauto| | |done].
    + apply H1 in Hp. lia.
    + apply H1 in Hp'. lia.
  - intros p f Hp. apply H3 in Hp. lia.
  - intros l0 lk0 Hl0. destruct (decide (l0 = l)) as [->|Hn].
    + apply H4 in El. lia.
    + rewrite lookup_insert_ne in Hl0 by done. apply H4 in Hl0. lia.
  - intros e l0 He. destruct (decide (l0 = l)) as [->|Hn];
      [rewrite lookup_insert_eq; eauto|rewrite lookup_insert_ne by done; eauto].
  - lia.
  - intros l0 k0 p [Hp|(_ & _ & ->)]%Hw; auto.
  - auto.
  - auto.
Qed.

Lemma close_step ls l : links_inv ls ->
  links_inv (close_link ls l) /\ evolves ls (close_link ls l).
Proof.
  intros Hi. unfold close_link. destruct (ls_heap ls !! l) as [lk|] eqn:El; [|done].
  set (woken := map_fold _ _ _). set (ls' := mkLinks _ _ _ _).
  assert (Hw : forall l0 k p, waits ls' l0 k p -> l0 <> l /\ waits ls l0 k p).
  { intros l0 k p [[-> Hp]|?]%waits_insert; [|done]. simpl in Hp. by rewrite lookup_empty in Hp. }
  assert (Hk : forall p, (exists k, lk_pending lk !! k = Some p) \/ (forall k, lk_pending lk !! k <> Some p)).
  { intros p. destruct (decide (map_Exists (fun _ q => q = p) (lk_pending lk))) as [(k & ? & ? & ->)|Hn]; [eauto|].
    right. intros k Hk. apply Hn. exists k, p. done. }
  destruct Hi as [H1 H2 H3 H4 H5]. split; split; simpl.
  - intros l0 k p [Hn Hp]%Hw. destruct (H1 _ _ _ Hp) as [? Hr]. split; [done|].
    unfold woken. rewrite (proj2 (woken_lookup _ _ p)); [done|]. intros k' Hk'.
    destruct (H2 l k' l0 k p); [by exists lk|done|congruence].
  - intros l0 k l1 k1 p [_ Hp]%Hw [_ Hp']%Hw. eauto.
  - intros p f Hp. destruct (Hk p) as [[k Hp']|Hp'].
    + apply (H1 l k p). by exists lk.
    + unfold woken in Hp. rewrite (proj2 (woken_lookup _ _ p) Hp') in Hp. eauto.
  - intros l0 lk0 Hl0. destruct (decide (l0 = l)) as [->|Hn]; [eauto|].
    rewrite lookup_insert_ne in Hl0 by done. eauto.
  - intros e l0 [He _]%map_lookup_filter_Some. destruct (decide (l0 = l)) as [->|Hn];
      [rewrite lookup_insert_eq; eauto|rewrite lookup_insert_ne by done; eauto].
  - lia.
  - intros l0 k p [_ Hp]%Hw. auto.
  - intros p f Hp. unfold woken. rewrite (proj2 (woken_lookup _ _ p)); [done|].
    intros k Hk'. destruct (H1 l k p); [by exists lk|congruence].
  - intros p f Hp. destruct (Hk p) as [[k Hp']|Hp']; unfold woken in Hp.
    + rewrite (proj1 (woken_lookup _ _ p)) in Hp by eauto. right. exists l, k. split; [by exists lk|].
      left. congruence.
    + rewrite (proj2 (woken_lookup _ _ p) Hp') in Hp. auto.
Qed.

Lemma open_step ls stream e : links_inv ls ->
  links_inv (open_link ls stream e).1 /\ evolves ls (open_link ls stream e).1.
Proof.
  intros Hi. simpl. set (ls' := mkLinks _ _ _ _).
  assert (Hw : forall l k p, waits ls' l k p -> waits ls l k p).
  { intros l k p [[-> Hp]|[_ ?]]%waits_insert; [|done]. simpl in Hp. by rewrite lookup_empty in Hp. }
  destruct Hi as [H1 H2 H3 H4 H5]. split; split; simpl.
  - intros l k p Hp%Hw. destruct (H1 _ _ _ Hp). split; [lia|done].
  - intros l k l' k' p Hp%Hw Hp'%Hw. eauto.
  - intros p f Hp. apply H3 in Hp. lia.
  - intros l lk Hl. destruct (decide (l = ls_fresh ls)) as [->|Hn]; [lia|].
    rewrite lookup_insert_ne in Hl by done. apply H4 in Hl. lia.
  - intros e0 l He. destruct (decide (l = ls_fresh ls)) as [->|Hn];
      [rewrite lookup_insert_eq; eauto|rewrite lookup_insert_ne by done; eauto].
  - lia.
  - intros l k p Hp%Hw. auto.
  - auto.
  - auto.
Qed.

Lemma kill_step ls : links_inv ls -> links_inv (kill_links ls) /\ evolves ls (kill_links ls).
Proof.
  intros Hi.
  assert (Hw : forall l k p, waits (kill_links ls) l k p -> waits ls l k p).
  { intros l k p (lk & Hl & Hp). simpl in Hl. rewrite map_lookup_imap in Hl.
    destruct (ls_heap ls !! l) as [lk0|] eqn:El; simplify_eq/=. exists lk0. split; [done|]. by case_bool_decide. }
  split; [apply (inv_same ls)|apply evolves_same]; try done.
  - intros l. simpl. rewrite map_lookup_imap. destruct (ls_heap ls !! l); simpl; split; intros [? ?]; eauto.
  - intros e l. apply (li_table _ Hi).
Qed.

Lemma links_step_ok ls ls' : links_inv ls -> links_step ls ls' -> links_inv ls' /\ evolves ls ls'.
Proof.
  intros Hi []; [by apply open_step| |by apply deliver_step| |by apply reserve_step| |by apply close_step|
    by apply kill_step].
  - split; [|by apply evolves_same]. apply (inv_same ls); try done.
    intros e0 l0. simpl. destruct (decide (e0 = e)) as [->|Hn];
      [rewrite lookup_insert_eq; naive_solver|rewrite lookup_insert_ne by done; apply (li_table _ Hi)].
  - unfold push. destruct (ls_heap ls !! l) as [lk|] eqn:El; [|done]. destruct (negb (lk_alive lk)); [done|].
    destruct (FrameStream_send _ _ _ _) as [st r]. simpl. by apply (set_link_same ls l lk).
  - unfold release. destruct (ls_heap ls !! l) as [lk|] eqn:El; [|done].
    apply (set_link_same ls l lk); [done..|apply delete_subseteq].
Qed.
End invariant.

(** ** Keys *)

Definition message_type_of_name (name : bytes) : option MessageType :=
  (fun e => e.1.1) <$> find (fun e => bytes_eqb name (lit e.2)) message_type_table.

Lemma message_type_of_name_of t : message_type_of_name (message_type_to_string t) = Some t.
Proof. destruct t; vm_compute; reflexivity. Qed.

Lemma message_type_name_inj t t' : message_type_to_string t = message_type_to_string t' -> t = t'.
Proof. intros H. apply (f_equal message_type_of_name) in H. rewrite !message_type_of_name_of in H. congruence. Qed.

Lemma message_type_no_colon t : existsb (bytes_eqb (lit ":")) ((fun b => [b]) <$> message_type_to_string t) = false.
Proof. destruct t; vm_compute; reflexivity. Qed.

(** What is before the first separator. *)
Lemma before_separator (c : byte) (a b a' b' : bytes) :
  c ∉ a -> c ∉ a' -> a ++ c :: b = a' ++ c :: b' -> a = a' /\ b = b'.
Proof.
  revert a'. induction a as [|x a IH]; intros [|y a'] Ha Ha' H; simpl in *; simplify_eq; try done.
  - destruct Ha'. apply list_elem_of_here.
  - destruct Ha. apply list_elem_of_here.
  - destruct (IH a') as [-> ->]; try done; intros Hx; [apply Ha|apply Ha']; by apply list_elem_of_further.
Qed.

Lemma message_type_colon t : x3a ∉ message_type_to_string t.
Proof.
  intros H. pose proof (message_type_no_colon t) as He. apply not_true_iff_false in He. apply He.
  apply existsb_exists. exists [x3a]. split; [|done]. apply list_elem_of_In, list_elem_of_fmap. by exists x3a.
Qed.

Lemma key_for_inj t t' s s' : key_for t s = key_for t' s' -> t = t' /\ s = s'.
Proof.
  unfold key_for. intros H. change (lit ":" ++ s) with (x3a :: s) in H. change (lit ":" ++ s') with (x3a :: s') in H.
  apply before_separator in H as [H ->]; [|apply message_type_colon..]. by apply message_type_name_inj in H.
Qed.

(** A frame in the slot [key_for t s] is a message of type [t]. *)
Lemma delivery_key_type f t s : delivery_key f = Some (key_for t s) -> fh_type (fr_header f) = t.
Proof.
  assert (Hc : forall t0, message_type_to_string t0 <> key_for t s).
  { intros t0 H. apply (message_type_colon t0). rewrite H. unfold key_for.
    apply elem_of_app. right. apply list_elem_of_here. }
  unfold delivery_key. destruct (fh_type (fr_header f)); try done; intros H;
    try (injection H as H; by destruct (Hc _ H));
    match goal with H : match ?d with Ok _ => _ | Err _ => _ end = _ |- _ => destruct d; [|done] end;
    injection H as H; by apply key_for_inj in H as [-> _].
Qed.

Section runs.
Context {C : Type} `{!Connection C}.
Implicit Types (ls : Links C).

(** Promise [p] only ever answers slot [k]. *)
Definition tracked ls (k : bytes) (p : nat) : Prop :=
  (p < ls_fresh ls)%nat /\ (forall l k', waits ls l k' p -> k' = k) /\
  (forall f, ready ls p = Some f -> f = empty_frame \/ delivery_key f = Some k).

Lemma tracked_step ls ls' k p : evolves ls ls' -> tracked ls k p -> tracked ls' k p.
Proof.
  intros [E1 E2 E3 E4] (H1 & H2 & H3). split_and!; [lia| |].
  - intros l k' [Hw|Hw]%E2; [eauto|lia].
  - intros f [Hf|(l & k' & Hw & Hf)]%E4; [by apply H3|]. by rewrite (H2 _ _ Hw) in Hf.
Qed.

Lemma links_run_inv ls ls' : links_inv ls -> links_run ls ls' ->
  links_inv ls' /\ (forall k p, tracked ls k p -> tracked ls' k p) /\
  (forall p f, ready ls p = Some f -> ready ls' p = Some f).
Proof.
  intros Hi. induction 1 as [|ls1 ls2 _ (H1 & H2 & H3) Hs]; [done|].
  destruct (links_step_ok _ _ H1 Hs) as [Hi2 He]. split_and!; [done| |].
  - intros k p Hp. eapply tracked_step; eauto.
  - intros p f Hf. apply (ev_ready _ _ He). by apply H3.
Qed.

Lemma reserve_tracked ls l k ls' p : links_inv ls -> reserve ls l k = (ls', Ok p) ->
  tracked ls' k p /\ ready ls' p = None /\ waits ls' l k p.
Proof.
  intros Hi Hr. pose proof (reserve_step ls l k Hi) as [Hi' _]. rewrite Hr in Hi'. simpl in Hi'.
  unfold reserve in Hr. destruct (ls_heap ls !! l) as [lk|]; [|done].
  destruct (lk_pending lk !! k) eqn:Ek; [done|]. injection Hr as <- <-.
  assert (waits (mkLinks (<[l := with_pending lk (<[k := ls_fresh ls]> (lk_pending lk))]> (ls_heap ls))
                   (ls_table ls) (ls_ready ls) (S (ls_fresh ls))) l k (ls_fresh ls)) as Hw.
  { apply waits_insert. left. split; [done|]. apply lookup_insert_eq. }
  destruct (li_waits _ Hi' _ _ _ Hw) as [Hlt Hn]. split; [|by split]. split; [done|]. split.
  - intros l' k' Hw'. by destruct (li_once _ Hi' _ _ _ _ _ Hw Hw').
  - intros f Hf. unfold ready in Hf. congruence.
Qed.

Lemma deliver_waits ls l k p f : waits ls l k p -> delivery_key f = Some k ->
  (deliver ls l f).2 = true /\ ready (deliver ls l f).1 p = Some f.
Proof.
  intros (lk & Hl & Hp) Hk. unfold deliver. rewrite Hk, Hl, Hp. split; [done|]. apply lookup_insert_eq.
Qed.
End runs.

(** ** Properties *)

(** C9: (safety, ordering) Responses reach their waiter and no one else.  The
    promise of a reserved slot starts unfulfilled; whatever sessions open, close,
    register, deliver, send, reserve and release afterwards, in any order, the
    only values it can take are a frame that answers exactly that slot or the
    empty frame of an ended session, and once it has a value that value never
    changes.  As long as the slot waits, the first frame that answers it on its
    link is consumed and becomes the value; a frame in the slot of a response of
    type [t] has that type. *)
Theorem responses_reach_their_waiter {C : Type} `{!Connection C} (ls ls1 ls2 : Links C) (l : nat)
    (k : bytes) (p : nat) :
  links_inv ls -> reserve ls l k = (ls1, Ok p) -> links_run ls1 ls2 ->
  ready ls1 p = None /\ links_inv ls2 /\
  (forall f, ready ls2 p = Some f ->
     (f = empty_frame \/ delivery_key f = Some k) /\
     (forall t s, k = key_for t s -> f = empty_frame \/ fh_type (fr_header f) = t) /\
     (forall ls3, links_run ls2 ls3 -> ready ls3 p = Some f)) /\
  (forall f, waits ls2 l k p -> delivery_key f = Some k ->
     (deliver ls2 l f).2 = true /\ ready (deliver ls2 l f).1 p = Some f).
Proof.
  intros Hi Hr Hrun. destruct (reserve_tracked _ _ _ _ _ Hi Hr) as (Ht & Hn & _).
  pose proof (reserve_step ls l k Hi) as [Hi1 _]. rewrite Hr in Hi1.
  destruct (links_run_inv _ _ Hi1 Hrun) as (Hi2 & Ht2 & _). destruct (Ht2 _ _ Ht) as (_ & _ & Hf).
  split_and!; [done|done| |intros; by eapply deliver_waits].
  intros f Hp. split_and!; [by apply Hf| |].
  - intros t s ->. destruct (Hf f Hp) as [?|Hk]; [by left|right]. by apply delivery_key_type in Hk.
  - intros ls3 Hrun3. by apply (links_run_inv _ _ Hi2 Hrun3).
Qed.

Definition demo_commit_result : CommitResult :=
  mkCommitResult (replicate 16 x09) 3 RC.OK (replicate 32 x5c) (lit "committed").
Definition demo_commit_frame : Frame :=
  mkFrame (mkFrameHeader kProtocolVersion FF_AUTHENTICATED MT.COMMIT_RESULT 0 2 zero_digest)
    (CommitResult_encode demo_commit_result).
Definition demo_commit_key : bytes := key_for MT.COMMIT_RESULT (to_hex (replicate 16 x09)).
Definition demo_links : Links Pipe := (open_link no_links demo_sender (lit "edge-1")).1.
Definition demo_links_waiting : Links Pipe := (reserve demo_links 0 demo_commit_key).1.

Lemma responses_reach_their_waiter_witness :
  ready (deliver demo_links_waiting 0 demo_commit_frame).1 1 = Some demo_commit_frame /\
  forall ls3, links_run (deliver demo_links_waiting 0 demo_commit_frame).1 ls3 ->
    ready ls3 1 = Some demo_commit_frame.
Proof.
  assert (ready (deliver demo_links_waiting 0 demo_commit_frame).1 1 = Some demo_commit_frame) as Hr
    by (vm_compute; reflexivity).
  split; [exact Hr|].
  destruct (responses_reach_their_waiter demo_links demo_links_waiting
              (deliver demo_links_waiting 0 demo_commit_frame).1 0 demo_commit_key 1) as (_ & _ & Hf & _).
  - apply open_step, no_links_inv.
  - vm_compute. reflexivity.
  - eapply links_next; [apply links_here|apply step_deliver].
  - apply (Hf _ Hr).
Defined.
