(* ===== verification/Coordinator.v ===== *)
(** * Coordinator (src/src/coordinator.cpp, include/smf/coordinator.hpp)

    The state of a coordinator and the operations on it: start and recovery,
    sessions, registration and announcement, submission, cancellation,
    reconciliation and the reports.  The movement engine is in Driver.v.

    Session threads, workers and callers share the coordinator under locks.  An
    operation runs in a [CWorld]: every access to shared state is one atomic
    step and before each of them the other threads may have changed the
    coordinator in any way ([cw_others]).  Waiting for an answer is such a step:
    the answer is there if a reader thread has delivered it meanwhile.  The
    clock, the entropy source, the store's input/output and the connections are
    the world's too.  [cw_events] records, newest first, what this thread stored,
    sent and was answered.  Fault points (test hooks that do nothing unless
    armed) and log output are left out. *)
From S2P Require Import Prelude Status Bytes Digest Codec Ids StateObject Provenance Movement MovementStore.
From S2P Require Import Framing Session Policy Topology Compatibility WireFields Wire Effect Links.

(** ** State *)

Record CoordinatorConfig (P : Type) := mkCoordinatorConfig {
  cc_endpoint_id : bytes;
  cc_state_directory : bytes;
  cc_shared_secret : bytes;
  cc_policy : MovementPolicy;
  cc_io_budget_millis : Z;
  cc_max_sessions : Z;
  cc_worker_threads : Z;
  cc_sync_store : bool;
  cc_exclusive_lock : bool;
  cc_verify_sample_chunks : Z;
  cc_compatibility : option P }.
Arguments mkCoordinatorConfig {P}.
Arguments cc_endpoint_id {P}.
Arguments cc_state_directory {P}.
Arguments cc_shared_secret {P}.
Arguments cc_policy {P}.
Arguments cc_io_budget_millis {P}.
Arguments cc_max_sessions {P}.
Arguments cc_worker_threads {P}.
Arguments cc_sync_store {P}.
Arguments cc_exclusive_lock {P}.
Arguments cc_verify_sample_chunks {P}.
Arguments cc_compatibility {P}.

(** The fields of [CoordinatorCounters]. *)
Module CT.
Inductive Counter : Set :=
  | sessions_accepted | sessions_refused | movements_submitted | movements_rejected
  | movements_committed | movements_failed | attempts_failed | movements_cancelled
  | movements_superseded | outcomes_unknown | reconciliations | verification_probes
  | stale_rejections.
End CT.
Abbreviation Counter := CT.Counter.
#[global] Instance Counter_eq_dec : EqDecision Counter.
Proof. solve_decision. Defined.

Definition CoordinatorCounters : Type := Counter -> Z.
Definition zero_counters : CoordinatorCounters := fun _ => 0.
Definition bump (k : Counter) (c : CoordinatorCounters) : CoordinatorCounters :=
  fun k' => if bool_decide (k' = k) then wrap 64 (c k' + 1) else c k'.

(** [cd_running] is [store_ != nullptr]: [stop] releases the store. *)
Record Coordinator (C P : Type) := mkCoordinator {
  cd_config : CoordinatorConfig P;
  cd_incarnation : Incarnation;
  cd_policy : PolicySet;
  cd_running : bool;
  cd_store : MovementStore;
  cd_topology : TopologyView;
  cd_compatibility : option P;
  cd_compatibility_generation : Z;
  cd_links : Links C;
  cd_inventory : gmap bytes StateObjectDescriptor;
  cd_inventory_source : gmap bytes bytes;
  cd_queue : list bytes;
  cd_active_movements : Z;
  cd_active_sessions : Z;
  cd_counters : CoordinatorCounters;
  cd_stopping : bool }.
Arguments mkCoordinator {C P}.
Arguments cd_config {C P}.
Arguments cd_incarnation {C P}.
Arguments cd_policy {C P}.
Arguments cd_running {C P}.
Arguments cd_store {C P}.
Arguments cd_topology {C P}.
Arguments cd_compatibility {C P}.
Arguments cd_compatibility_generation {C P}.
Arguments cd_links {C P}.
Arguments cd_inventory {C P}.
Arguments cd_inventory_source {C P}.
Arguments cd_queue {C P}.
Arguments cd_active_movements {C P}.
Arguments cd_active_sessions {C P}.
Arguments cd_counters {C P}.
Arguments cd_stopping {C P}.

Inductive Event : Type :=
  | Stored (r : MovementRecord) (ok : bool)
  | Sent (link : nat) (type : MessageType) (payload : bytes) (ok : bool)
  | Answered (key : bytes) (frame : Frame).

Record CWorld (C P S : Type) := mkCWorld {
  cw_coordinator : Coordinator C P;
  cw_clock : nat -> Z;
  cw_ticks : nat;
  cw_entropy : S;
  cw_io : IoPlan;
  cw_others : nat -> Coordinator C P -> Coordinator C P;
  cw_turn : nat;
  cw_events : list Event }.
Arguments mkCWorld {C P S}.
Arguments cw_coordinator {C P S}.
Arguments cw_clock {C P S}.
Arguments cw_ticks {C P S}.
Arguments cw_entropy {C P S}.
Arguments cw_io {C P S}.
Arguments cw_others {C P S}.
Arguments cw_turn {C P S}.
Arguments cw_events {C P S}.

Section setters.
Context {C P : Type}.
Implicit Types c : Coordinator C P.

Definition set_store c (s : MovementStore) : Coordinator C P :=
  mkCoordinator (cd_config c) (cd_incarnation c) (cd_policy c) (cd_running c) s (cd_topology c)
    (cd_compatibility c) (cd_compatibility_generation c) (cd_links c) (cd_inventory c)
    (cd_inventory_source c) (cd_queue c) (cd_active_movements c) (cd_active_sessions c)
    (cd_counters c) (cd_stopping c).
Definition set_topology c (t : TopologyView) : Coordinator C P :=
  mkCoordinator (cd_config c) (cd_incarnation c) (cd_policy c) (cd_running c) (cd_store c) t
    (cd_compatibility c) (cd_compatibility_generation c) (cd_links c) (cd_inventory c)
    (cd_inventory_source c) (cd_queue c) (cd_active_movements c) (cd_active_sessions c)
    (cd_counters c) (cd_stopping c).
Definition set_compatibility_generation c (g : Z) : Coordinator C P :=
  mkCoordinator (cd_config c) (cd_incarnation c) (cd_policy c) (cd_running c) (cd_store c)
    (cd_topology c) (cd_compatibility c) g (cd_links c) (cd_inventory c) (cd_inventory_source c)
    (cd_queue c) (cd_active_movements c) (cd_active_sessions c) (cd_counters c) (cd_stopping c).
Definition set_links c (ls : Links C) : Coordinator C P :=
  mkCoordinator (cd_config c) (cd_incarnation c) (cd_policy c) (cd_running c) (cd_store c)
    (cd_topology c) (cd_compatibility c) (cd_compatibility_generation c) ls (cd_inventory c)
    (cd_inventory_source c) (cd_queue c) (cd_active_movements c) (cd_active_sessions c)
    (cd_counters c) (cd_stopping c).
Definition set_inventory c (inventory : gmap bytes StateObjectDescriptor) (source : gmap bytes bytes)
  : Coordinator C P :=
  mkCoordinator (cd_config c) (cd_incarnation c) (cd_policy c) (cd_running c) (cd_store c)
    (cd_topology c) (cd_compatibility c) (cd_compatibility_generation c) (cd_links c) inventory source
    (cd_queue c) (cd_active_movements c) (cd_active_sessions c) (cd_counters c) (cd_stopping c).
Definition set_queue c (queue : list bytes) (active : Z) : Coordinator C P :=
  mkCoordinator (cd_config c) (cd_incarnation c) (cd_policy c) (cd_running c) (cd_store c)
    (cd_topology c) (cd_compatibility c) (cd_compatibility_generation c) (cd_links c)
    (cd_inventory c) (cd_inventory_source c) queue active (cd_active_sessions c) (cd_counters c)
    (cd_stopping c).
Definition set_counters c (counters : CoordinatorCounters) (sessions : Z) : Coordinator C P :=
  mkCoordinator (cd_config c) (cd_incarnation c) (cd_policy c) (cd_running c) (cd_store c)
    (cd_topology c) (cd_compatibility c) (cd_compatibility_generation c) (cd_links c)
    (cd_inventory c) (cd_inventory_source c) (cd_queue c) (cd_active_movements c) sessions counters
    (cd_stopping c).
Definition set_stopping c (running stopping : bool) : Coordinator C P :=
  mkCoordinator (cd_config c) (cd_incarnation c) (cd_policy c) running (cd_store c)
    (cd_topology c) (cd_compatibility c) (cd_compatibility_generation c) (cd_links c)
    (cd_inventory c) (cd_inventory_source c) (cd_queue c) (cd_active_movements c)
    (cd_active_sessions c) (cd_counters c) stopping.
End setters.

(** ** Steps *)

Section steps.
Context {C P S : Type} `{!Connection C, !EntropySource S}.
Implicit Types c : Coordinator C P.
#[local] Abbreviation Co := (Eff (CWorld C P S)).

(** One access to the shared state, after whatever the other threads did. *)
Definition atomically {A} (f : Coordinator C P -> Coordinator C P * A) : Co A := fun w =>
  let '(c, x) := f (cw_others w (cw_turn w) (cw_coordinator w)) in
  (mkCWorld c (cw_clock w) (cw_ticks w) (cw_entropy w) (cw_io w) (cw_others w)
     (Datatypes.S (cw_turn w)) (cw_events w), Ok x).

Definition look {A} (f : Coordinator C P -> A) : Co A := atomically (fun c => (c, f c)).
Definition change (f : Coordinator C P -> Coordinator C P) : Co unit :=
  atomically (fun c => (f c, tt)).

(** [system_clock().unix_millis()] *)
Definition unix_millis : Co Z := fun w =>
  (mkCWorld (cw_coordinator w) (cw_clock w) (Datatypes.S (cw_ticks w)) (cw_entropy w) (cw_io w)
     (cw_others w) (cw_turn w) (cw_events w), Ok (cw_clock w (cw_ticks w))).

(** An [IdIssuer] over the system's entropy source. *)
Definition issue {A} (f : S -> A * S) : Co A := fun w =>
  let '(x, s) := f (cw_entropy w) in
  (mkCWorld (cw_coordinator w) (cw_clock w) (cw_ticks w) s (cw_io w) (cw_others w) (cw_turn w)
     (cw_events w), Ok x).

Definition emit (e : Event) : Co unit := fun w =>
  (mkCWorld (cw_coordinator w) (cw_clock w) (cw_ticks w) (cw_entropy w) (cw_io w) (cw_others w)
     (cw_turn w) (e :: cw_events w), Ok tt).

Definition io_plan : Co IoPlan := fun w => (w, Ok (cw_io w)).

Definition count (k : Counter) : Co unit :=
  change (fun c => set_counters c (bump k (cd_counters c)) (cd_active_sessions c)).

(** [store_->put(record)], also [persist]. *)
Definition persist (record : MovementRecord) : Co unit :=
  let$ io := io_plan in
  let$ status := atomically (fun c => let '(s, status) := store_put io (cd_store c) record in
                                      (set_store c s, status)) in
  emit (Stored record (is_ok status)) ;$
  eff_lift status.

(** [store_->get(id)] *)
Definition stored (id : bytes) : Co MovementRecord :=
  let$ found := atomically (fun c => let '(s, found) := store_get (cd_store c) id in (set_store c s, found)) in
  eff_lift found.

Definition require_running : Co unit :=
  let$ running := look cd_running in
  eff_reject (negb running) RC.SHUTTING_DOWN
    "the coordinator has been stopped and no longer owns its state".

(** *** Exchanges with an endpoint *)

Definition link_to (endpoint : bytes) : Co nat :=
  let$ found := look (fun c => find_link (cd_links c) endpoint) in
  eff_lift found.

Definition push_to (l : nat) (type : MessageType) (payload : bytes) : Co unit :=
  let$ status := atomically (fun c => let '(ls, status) := push (cd_links c) l type payload in
                                      (set_links c ls, status)) in
  emit (Sent l type payload (is_ok status)) ;$
  eff_lift status.

Definition reserve_on (l : nat) (key : bytes) : Co nat :=
  let$ promise := atomically (fun c => let '(ls, promise) := reserve (cd_links c) l key in
                                       (set_links c ls, promise)) in
  eff_lift promise.

Definition release_on (l : nat) (key : bytes) : Co unit :=
  change (fun c => set_links c (release (cd_links c) l key)).

Definition await (l : nat) (key : bytes) (promise : nat) (what : bytes) : Co Frame :=
  let$ arrived := look (fun c => ready (cd_links c) promise) in
  match arrived with
  | None =>
      release_on l key ;$
      eff_lift (Err (mkStatus RC.IO_TIMEOUT (lit "the endpoint did not answer " ++ what)))
  | Some frame =>
      emit (Answered key frame) ;$
      eff_reject (bool_decide (fh_type (fr_header frame) = MT.INVALID)) RC.CONNECTION_CLOSED
        "the endpoint session ended before it answered" ;$
      eff_ret frame
  end.

Definition request (l : nat) (key : bytes) (type : MessageType) (payload : bytes) : Co Frame :=
  let$ promise := reserve_on l key in
  let$ sent := eff_try (push_to l type payload) in
  match sent with
  | Err e => release_on l key ;$ eff_lift (Err e)
  | Ok _ => await l key promise (message_type_to_string type)
  end.

Definition digest_of_capability c : Digest :=
  canonical_digest (enc_text (lit "SMF-COORDINATOR-CAPABILITY-v1") ++
    enc_text (cc_endpoint_id (cd_config c)) ++ enc_text kVersionString ++ PolicySet_encode (cd_policy c)).
End steps.

(** ** Assignments to a record's fields *)

Definition with_cancel_requested (r : MovementRecord) : MovementRecord :=
  mkMovement (m_id r) (m_generation r) (m_object r) (m_source r) (m_destination r)
    (m_source_incarnation r) (m_destination_incarnation r) (m_compatibility_generation r)
    (m_compatibility_evidence r) (m_topology_generation r) (m_policy_generation r) (m_state r)
    (m_last_reason r) (m_last_detail r) (m_attempt r) (m_attempt_count r) (m_bytes_transferred r)
    (m_chunks_verified r) (m_source_verified_digest r) (m_destination_verified_digest r)
    (m_commit_marker_digest r) (m_created_unix_millis r) (m_updated_unix_millis r) (m_repeatable r)
    true (m_provenance r).

(** What arrived at the destination, as it is reported. *)
Definition with_arrival (r : MovementRecord) (transferred chunks : Z) (digest : Digest)
    : MovementRecord :=
  mkMovement (m_id r) (m_generation r) (m_object r) (m_source r) (m_destination r)
    (m_source_incarnation r) (m_destination_incarnation r) (m_compatibility_generation r)
    (m_compatibility_evidence r) (m_topology_generation r) (m_policy_generation r) (m_state r)
    (m_last_reason r) (m_last_detail r) (m_attempt r) (m_attempt_count r) transferred chunks
    (m_source_verified_digest r) digest (m_commit_marker_digest r) (m_created_unix_millis r)
    (m_updated_unix_millis r) (m_repeatable r) (m_cancel_requested r) (m_provenance r).

Definition with_verified (r : MovementRecord) (digest : Digest) : MovementRecord :=
  mkMovement (m_id r) (m_generation r) (m_object r) (m_source r) (m_destination r)
    (m_source_incarnation r) (m_destination_incarnation r) (m_compatibility_generation r)
    (m_compatibility_evidence r) (m_topology_generation r) (m_policy_generation r) (m_state r)
    (m_last_reason r) (m_last_detail r) (m_attempt r) (m_attempt_count r) (m_bytes_transferred r)
    (m_chunks_verified r) digest (m_destination_verified_digest r) (m_commit_marker_digest r)
    (m_created_unix_millis r) (m_updated_unix_millis r) (m_repeatable r) (m_cancel_requested r)
    (m_provenance r).

Definition with_marker (r : MovementRecord) (digest : Digest) : MovementRecord :=
  mkMovement (m_id r) (m_generation r) (m_object r) (m_source r) (m_destination r)
    (m_source_incarnation r) (m_destination_incarnation r) (m_compatibility_generation r)
    (m_compatibility_evidence r) (m_topology_generation r) (m_policy_generation r) (m_state r)
    (m_last_reason r) (m_last_detail r) (m_attempt r) (m_attempt_count r) (m_bytes_transferred r)
    (m_chunks_verified r) (m_source_verified_digest r) (m_destination_verified_digest r) digest
    (m_created_unix_millis r) (m_updated_unix_millis r) (m_repeatable r) (m_cancel_requested r)
    (m_provenance r).

Definition with_outcome (r : MovementRecord) (transferred chunks : Z) (digest marker : Digest)
    : MovementRecord := with_marker (with_arrival r transferred chunks digest) marker.

(** ** Operators' operations *)

Section operations.
Context {C P S : Type} `{!Connection C, !EntropySource S, !CompatibilityProvider P}.
Implicit Types c : Coordinator C P.
#[local] Abbreviation Co := (Eff (CWorld C P S)).

(** *** Submission *)

(** The announced version a submission names, under the inventory's lock. *)
Definition announced c (request : SubmitMovement) : Result StateObjectDescriptor :=
  match cd_inventory c !! sm_object_id request with
  | None => fail RC.OBJECT_NOT_FOUND "no source has announced that state object"
  | Some found =>
      if negb (d_generation found =? sm_object_generation request)
      then Err (mkStatus RC.STALE_STATE_GENERATION
                  (lit "the announced generation of that object is " ++
                   std_to_string (d_generation found) ++ lit ", not " ++
                   std_to_string (sm_object_generation request)))
      else if negb (bool_decide (cd_inventory_source c !! sm_object_id request = Some (sm_source request)))
      then fail RC.NOT_AUTHORIZED
             "the named source is not the endpoint that announced this object version"
      else Ok found
  end.

(** The compatibility evidence for a version at a destination; returns the note
    for the movement's history.  Evidence that applies sets
    [compatibility_generation_], also when it then refuses the movement. *)
Definition check_compatibility (policy : MovementPolicy) (object : StateObjectDescriptor)
    (destination : bytes) : Co bytes :=
  let required := po_require_compatibility_evidence policy in
  let$ provider := look cd_compatibility in
  match provider with
  | None =>
      eff_ret (lit "no compatibility provider is configured, so the verdict is explicitly unknown")
  | Some provider =>
      match provider_query provider object destination with
      | Err e =>
          if required then eff_lift (Err (mkStatus RC.COMPATIBILITY_EVIDENCE_MISSING (st_message e)))
          else eff_ret (lit "no evidence is published: " ++ st_message e)
      | Ok evidence =>
          if negb (applies_to evidence object destination) then
            if required then
              eff_lift (fail RC.COMPATIBILITY_STALE_EVIDENCE
                "the published evidence does not bind this object version at this destination")
            else eff_ret (lit "published evidence does not apply to this version and destination")
          else
            let verdict := ev_verdict evidence in
            change (fun c => set_compatibility_generation c (ev_generation evidence)) ;$
            eff_reject (bool_decide (verdict = CV.UNSUPPORTED)) RC.COMPATIBILITY_UNSUPPORTED
              "published evidence says this destination cannot use this state version" ;$
            eff_reject (bool_decide (verdict = CV.UNKNOWN) && required) RC.COMPATIBILITY_UNKNOWN
              "published evidence is explicitly unknown, which is not support" ;$
            eff_ret (lit "compatibility verdict " ++ verdict_to_string verdict)
      end
  end.

(** The record a submission creates, before its first history event. *)
Definition planned_record (id : bytes) (object : StateObjectDescriptor) (request : SubmitMovement)
    (source destination : EndpointRegistration) (compatibility topology policy now bound : Z)
    : MovementRecord :=
  mkMovement id 1 object (sm_source request) (sm_destination request) (er_incarnation source)
    (er_incarnation destination) compatibility zero_digest topology policy MS.PLANNED RC.OK []
    (zero_id kTransferAttemptIdBytes) 0 0 0 zero_digest zero_digest zero_digest now now
    (d_repeatable object) false (chain_set_bound empty_chain bound).

Definition enqueue (id : bytes) : Co unit :=
  change (fun c => set_queue c (cd_queue c ++ [id]) (cd_active_movements c)).

Definition authorized_detail (r : MovementRecord) : bytes :=
  lit "authorized under topology generation " ++ std_to_string (m_topology_generation r) ++
  lit " and policy generation " ++ std_to_string (m_policy_generation r).

(** The version and the two endpoints a submission names, if it is admissible. *)
Definition admit_request (request : SubmitMovement)
    : Co (StateObjectDescriptor * EndpointRegistration * EndpointRegistration) :=
  require_running ;$
  eff_lift (SubmitMovement_validate request) ;$
  let$ object := let$ found := look (fun c => announced c request) in eff_lift found in
  let$ policy := look (fun c => cc_policy (cd_config c)) in
  eff_reject (po_max_object_bytes policy <? d_total_bytes object) RC.POLICY_VIOLATION
    "the object exceeds the configured size bound" ;$
  eff_reject ((d_chunk_bytes object <? po_min_chunk_bytes policy) ||
              (po_max_chunk_bytes policy <? d_chunk_bytes object)) RC.POLICY_VIOLATION
    "the object's segmentation is outside the policy bounds" ;$
  let$ source := let$ found := look (fun c => topology_find (cd_topology c) (sm_source request)) in
                 eff_lift found in
  let$ destination := let$ found := look (fun c => topology_find (cd_topology c) (sm_destination request)) in
                      eff_lift found in
  eff_reject (negb (er_live source) || negb (er_live destination)) RC.ENDPOINT_NOT_LIVE
    "one of the endpoints is not currently live" ;$
  eff_ret (object, source, destination).

(** The planned record is stored, authorized, stored again and queued. *)
Definition authorize (record : MovementRecord) (note : bytes) : Co MovementAccepted :=
  eff_lift (MovementRecord_validate record) ;$
  persist record ;$
  let$ now := unix_millis in
  let '(record, authorized) :=
    apply_transition record MS.AUTHORIZED (decision_allow_with RC.OK (authorized_detail record))
      PK.AUTHORIZED now in
  match authorized with
  | Err e => count CT.movements_rejected ;$ eff_lift (Err e)
  | Ok _ =>
      persist record ;$
      count CT.movements_submitted ;$
      enqueue (m_id record) ;$
      eff_ret (mkMovementAccepted (m_id record) (m_state record) RC.OK note)
  end.

Definition submit (request : SubmitMovement) : Co MovementAccepted :=
  let$ (object, source, destination) := admit_request request in
  let$ policy := look (fun c => cc_policy (cd_config c)) in
  let$ note := check_compatibility policy object (sm_destination request) in
  let$ id := issue new_movement_id in
  let$ compatibility := look cd_compatibility_generation in
  let$ topology := look (fun c => tv_generation (cd_topology c)) in
  let$ generation := look (fun c => ps_generation (cd_policy c)) in
  let$ now := unix_millis in
  let record := planned_record id object request source destination compatibility topology generation
                  now (po_max_provenance_events policy) in
  let '(chain, created) := chain_append (m_provenance record) PK.CREATED MS.PLANNED
                             (m_generation record) RC.OK now note in
  eff_lift created ;$
  authorize (with_decision record (m_last_reason record) (m_last_detail record) chain) note.

(** *** Queries *)

Definition query (id : bytes) : Co MovementRecord := require_running ;$ stored id.

Definition to_summary (r : MovementRecord) : MovementSummary :=
  mkMovementSummary (m_id r) (m_state r) (d_object_id (m_object r)) (d_generation (m_object r))
    (m_source r) (m_destination r) (m_last_reason r) (m_attempt_count r) (m_bytes_transferred r).

Definition list_movements (limit offset : Z) : Co (list MovementSummary) :=
  require_running ;$
  let bounded := Z.min limit 256 in
  let$ records := look (fun c => store_list (cd_store c) bounded offset) in
  eff_ret (to_summary <$> records).

Definition provenance (id : bytes) : Co ProvenanceReport :=
  require_running ;$
  let$ record := stored id in
  eff_ret (mkProvenanceReport id RC.OK (pc_events (m_provenance record))).

Definition topology_report : Co TopologyReport :=
  look (fun c => mkTopologyReport (tv_generation (cd_topology c)) (cd_incarnation c)
                   (tv_endpoints (cd_topology c))).

Definition policy_report : Co PolicyReport :=
  look (fun c => mkPolicyReport (cd_policy c) (PolicySet_digest (cd_policy c))).

(** *** Cancellation *)

(** The notice to one endpoint; its answer is not looked at. *)
Definition notify_cancel (r : MovementRecord) (endpoint : bytes) : Co unit :=
  let$ link := eff_try (link_to endpoint) in
  match link with
  | Err _ => eff_ret tt
  | Ok l =>
      let$ _ := eff_try (request l (key_for MT.CANCEL_ACK (to_hex (m_id r))) MT.CANCEL
                           (CancelRequest_encode (mkCancelRequest (m_id r) (m_generation r)))) in
      eff_ret tt
  end.

Definition cancel (id : bytes) : Co MovementRecord :=
  require_running ;$
  let$ record := stored id in
  if is_terminal (m_state record) then
    eff_lift (Err (mkStatus RC.ALREADY_TERMINAL
      (lit "the movement is already " ++ movement_state_to_string (m_state record))))
  else
    let record := with_cancel_requested record in
    notify_cancel record (m_source record) ;$
    notify_cancel record (m_destination record) ;$
    let$ now := unix_millis in
    let '(record, applied) :=
      apply_transition record MS.CANCELLED
        (decision_deny RC.CANCELLED_BY_OPERATOR (lit "cancelled by the operator")) PK.CANCELLED now in
    eff_lift applied ;$
    persist record ;$
    count CT.movements_cancelled ;$
    eff_ret record.

(** *** Reconciliation *)

Definition reconcile (id : bytes) : Co MovementRecord :=
  require_running ;$
  let$ record := stored id in
  if negb (bool_decide (m_state record = MS.OUTCOME_UNKNOWN)) then
    eff_lift (Err (mkStatus RC.MOVEMENT_NOT_RECONCILABLE
      (lit "only an OUTCOME_UNKNOWN movement can be reconciled; this one is " ++
       movement_state_to_string (m_state record))))
  else
    count CT.reconciliations ;$
    let$ link := eff_try (link_to (m_destination record)) in
    match link with
    | Err e =>
        eff_lift (Err (mkStatus RC.REVALIDATION_REQUIRED
          (lit "the destination is not reachable, so the outcome remains unknown: " ++ st_message e)))
    | Ok l =>
        let query := mkAuthorityQuery (m_id record) (d_object_id (m_object record))
                       (d_generation (m_object record)) in
        let$ answer := eff_try (request l (key_for MT.AUTHORITY_REPORT (to_hex (m_id record)))
                                  MT.AUTHORITY_QUERY (AuthorityQuery_encode query)) in
        match answer with
        | Err e =>
            eff_lift (Err (mkStatus RC.REVALIDATION_REQUIRED
              (lit "the destination did not answer the authority query: " ++ st_message e)))
        | Ok frame =>
            let$ report := eff_lift (decode_message AuthorityReport frame) in
            if ap_marker_present report && (ap_authoritative report && ap_verified report) then
              let$ now := unix_millis in
              let '(record, applied) :=
                apply_transition record MS.COMMITTED
                  (decision_allow_with RC.OK
                     (lit "reconciliation found a valid commit marker at the destination"))
                  PK.RECONCILED now in
              eff_lift applied ;$
              let record := with_outcome record (d_total_bytes (m_object record))
                              (d_chunk_count (m_object record)) (d_content_digest (m_object record))
                              (ap_marker_digest report) in
              persist record ;$
              count CT.movements_committed ;$
              eff_ret record
            else if negb (ap_marker_present report) then
              let cancelled := m_cancel_requested record in
              let$ now := unix_millis in
              let '(record, applied) :=
                apply_transition record (if cancelled then MS.CANCELLED else MS.FAILED)
                  (decision_deny (if cancelled then RC.CANCELLED_BY_OPERATOR else RC.REVALIDATION_REQUIRED)
                     (lit "reconciliation proved that no commit marker exists at the destination, so the movement did not take effect"))
                  PK.RECONCILED now in
              eff_lift applied ;$
              persist record ;$
              count (if cancelled then CT.movements_cancelled else CT.movements_failed) ;$
              eff_ret record
            else
              eff_lift (fail RC.COMMIT_MARKER_INVALID
                "a commit marker exists at the destination but its binding does not verify; the outcome remains unknown")
        end
    end.
End operations.

(** ** Start and recovery *)

Section lifetime.
Context {C P S : Type} `{!Connection C, !EntropySource S}.
Implicit Types c : Coordinator C P.
#[local] Abbreviation Co := (Eff (CWorld C P S)).

(** What recovery decides about a stored movement: nothing was dispatched for a
    planned one, the outcome of any other is unknown. *)
Definition recovery_state (stored : MovementRecord) : MovementState :=
  if bool_decide (m_state stored = MS.PLANNED) then MS.FAILED else MS.OUTCOME_UNKNOWN.
Definition recovery_kind (stored : MovementRecord) : ProvenanceEventKind :=
  if bool_decide (m_state stored = MS.PLANNED) then PK.FAILED else PK.OUTCOME_UNKNOWN.
Definition recovery_decision (stored : MovementRecord) : MovementDecision :=
  decision_deny RC.REVALIDATION_REQUIRED
    (if bool_decide (m_state stored = MS.PLANNED)
     then lit "the coordinator restarted before the movement was authorized"
     else lit "the coordinator restarted while the movement was in flight; the outcome must be reconciled rather than assumed").

(** The body of the recovery loop, for one stored movement. *)
Definition recover_record (stored : MovementRecord) : Co unit :=
  if is_terminal (m_state stored) then eff_ret tt
  else
    let$ now := unix_millis in
    let '(record, applied) :=
      apply_transition stored (recovery_state stored) (recovery_decision stored) (recovery_kind stored) now in
    match applied with
    | Err _ => eff_ret tt
    | Ok _ => let$ _ := eff_try (persist record) in eff_ret tt
    end.

Fixpoint recover_records (records : list MovementRecord) : Co unit :=
  match records with
  | [] => eff_ret tt
  | r :: rest => recover_record r ;$ recover_records rest
  end.

Definition recover_after_restart : Co unit :=
  change (fun c => set_topology c (reset_dynamic_state (cd_topology c))) ;$
  let$ listed := look (fun c => store_list (cd_store c) (po_max_history_records (cc_policy (cd_config c))) 0) in
  recover_records listed.

Definition set_identity c (incarnation : Incarnation) : Coordinator C P :=
  mkCoordinator (cd_config c) incarnation (cd_policy c) (cd_running c) (cd_store c)
    (mkTopology incarnation (tv_generation (cd_topology c)) (tv_endpoints (cd_topology c))
       (tv_links (cd_topology c)) (tv_index (cd_topology c)))
    (cd_compatibility c) (cd_compatibility_generation c) (cd_links c) (cd_inventory c)
    (cd_inventory_source c) (cd_queue c) (cd_active_movements c) (cd_active_sessions c)
    (cd_counters c) (cd_stopping c).

(** The epoch after the one the store last saw. *)
Definition next_epoch (s : MovementStore) : Z :=
  match load_coordinator_state s with
  | Ok previous => match Generation_next (cp_epoch previous) with Ok next => next | Err _ => 1 end
  | Err _ => 1
  end.

(** [start] once the store is open; [endpoint_bound] and [admin_bound] are the
    outcomes of binding the two listeners. *)
Definition start_up (endpoint_bound admin_bound : Result unit) : Co unit :=
  let$ epoch := look (fun c => next_epoch (cd_store c)) in
  let$ boot := issue new_boot_id in
  let$ name := look (fun c => cc_endpoint_id (cd_config c)) in
  let$ incarnation := eff_lift (Incarnation_make name boot epoch) in
  change (fun c => set_identity c incarnation) ;$
  let$ now := unix_millis in
  let$ io := io_plan in
  let$ saved := atomically (fun c =>
    let state := mkPersistent epoch (ps_generation (cd_policy c)) (cd_compatibility_generation c)
                   (tv_generation (cd_topology c)) (PolicySet_digest (cd_policy c)) now in
    let '(s, status) := save_coordinator_state io (cd_store c) state in (set_store c s, status)) in
  eff_lift saved ;$
  eff_lift endpoint_bound ;$
  eff_lift admin_bound ;$
  recover_after_restart.

Definition store_options (config : CoordinatorConfig P) : MovementStoreOptions :=
  mkStoreOptions (cc_state_directory config) (4 * 2 ^ 20)
    (po_max_store_bytes (cc_policy config)) (po_max_history_records (cc_policy config)) 10
    (cc_sync_store config) (cc_exclusive_lock config).

Definition fresh_coordinator (config : CoordinatorConfig P) (s : MovementStore) : Coordinator C P :=
  mkCoordinator config no_incarnation (mkPolicySet 1 (cc_policy config)) true s
    (TopologyView_init no_incarnation 1) (cc_compatibility config) 1 no_links ∅ ∅ [] 0 0
    zero_counters false.

(** [start] on the bytes of the movement log ([existing]); returns the log it
    leaves behind, also when it fails, and the running coordinator in a world
    without other threads yet. *)
Definition start (config : CoordinatorConfig P) (existing : bytes)
    (endpoint_bound admin_bound : Result unit) (clock : nat -> Z) (entropy : S) (io : IoPlan)
    : bytes * Result (CWorld C P S) :=
  if bytes_eqb (cc_endpoint_id config) []
  then (existing, fail RC.INVALID_ID "the coordinator needs an endpoint name")
  else if negb (Nat.eqb (length (cc_shared_secret config)) kDigestBytes)
  then (existing, fail RC.INVALID_ARGUMENT "the shared secret must be exactly 32 bytes")
  else if bytes_eqb (cc_state_directory config) []
  then (existing, fail RC.INVALID_ARGUMENT "the coordinator state directory must not be empty")
  else
    match MovementPolicy_validate (cc_policy config) with
    | Err e => (existing, Err e)
    | Ok _ =>
        match MovementStore_open (store_options config) existing with
        | Err e => (existing, Err e)
        | Ok (s, _) =>
            let '(w, status) :=
              start_up endpoint_bound admin_bound
                (mkCWorld (fresh_coordinator config s) clock 0 entropy io (fun _ c => c) 0 []) in
            (ms_file (cd_store (cw_coordinator w)), status ;! Ok w)
        end
    end.

(** ** Shutdown *)

Definition request_shutdown : Co unit :=
  let$ before := atomically (fun c => (set_stopping c (cd_running c) true, cd_stopping c)) in
  if before then eff_ret tt
  else change (fun c => set_links c (kill_links (cd_links c))).

(** [stop], once the threads have been joined. *)
Definition stop : Co unit :=
  let$ _ := eff_try request_shutdown in
  change (fun c => set_links c (set_table (cd_links c) ∅)) ;$
  change (fun c => set_queue c [] (cd_active_movements c)) ;$
  change (fun c => set_stopping c false (cd_stopping c)).
End lifetime.

(** ** Messages of endpoint sessions *)

Section sessions.
Context {C P S : Type} `{!Connection C, !EntropySource S, !CompatibilityProvider P}.
Implicit Types c : Coordinator C P.
#[local] Abbreviation Co := (Eff (CWorld C P S)).

(** Decoding the payload of a frame and sending a message on a link. *)
Definition parse (T : Type) `{!WireMessage T} (frame : Frame) : Co T :=
  eff_lift (decode_message T frame).
Definition reply (l : nat) {T : Type} `{!WireMessage T} (m : T) : Co unit :=
  push_to l (wm_type T) (wm_encode m).
Definition reply_error (l : nat) (e : Status) : Co unit :=
  reply l (mkErrorMessage (st_code e) (st_message e)).

Definition handle_register (l : nat) (m : RegisterRequest) : Co unit :=
  let hint := rr_identity m in
  eff_reject (negb (bytes_eqb (ph_contract hint) kPeerContract)) RC.ENDPOINT_CONTRACT_MISMATCH
    "the endpoint speaks a different peer contract" ;$
  eff_reject (bytes_eqb (ph_endpoint hint) (lit "local-origin")) RC.INVALID_ID
    "that endpoint name is reserved" ;$
  let$ incarnation := eff_lift (Incarnation_make (ph_endpoint hint) (ph_boot hint) (ph_epoch hint)) in
  let$ now := unix_millis in
  let registration :=
    mkRegistration (ph_endpoint hint) incarnation (rr_service_address m) (rr_data_address m)
      (ph_contract hint) (ph_capability_digest hint) now true in
  let$ put := atomically (fun c =>
    let '(t, status) := topology_put (cd_topology c) registration
                          (po_max_endpoints (cc_policy (cd_config c))) in (set_topology c t, status)) in
  eff_lift put ;$
  let$ advanced := atomically (fun c =>
    let '(t, g) := topology_advance (cd_topology c) in (set_topology c t, g)) in
  eff_lift advanced ;$
  change (fun c => set_links c (register_link (cd_links c) (ph_endpoint hint) l)) ;$
  let$ ack := look (fun c =>
    let policy := cc_policy (cd_config c) in
    mkRegisterAck (tv_generation (cd_topology c)) (ps_generation (cd_policy c)) (cd_incarnation c)
      (PolicySet_digest (cd_policy c)) (po_max_inflight_chunks policy) (po_max_chunk_bytes policy)
      (po_max_object_bytes policy) (wrap 32 (Z.min (cc_io_budget_millis (cd_config c)) 3600000))
      (po_transfer_budget_millis policy)) in
  reply l ack.

(** The update of the inventory under its lock; the answer to send. *)
Definition announce c (endpoint : bytes) (d : StateObjectDescriptor) : Coordinator C P * AnnounceAck :=
  match cd_inventory c !! d_object_id d with
  | Some existing =>
      if d_generation d <? d_generation existing
      then (c, mkAnnounceAck RC.STALE_STATE_GENERATION
                 (lit "a newer generation of this object is already announced"))
      else (set_inventory c (<[d_object_id d := d]> (cd_inventory c))
              (<[d_object_id d := endpoint]> (cd_inventory_source c)),
            mkAnnounceAck RC.OK (lit "announced"))
  | None => (set_inventory c (<[d_object_id d := d]> (cd_inventory c))
               (<[d_object_id d := endpoint]> (cd_inventory_source c)),
             mkAnnounceAck RC.OK (lit "announced"))
  end.

Definition link_endpoint c (l : nat) : bytes :=
  match ls_heap (cd_links c) !! l with Some lk => lk_endpoint lk | None => [] end.

Definition handle_announce (l : nat) (m : AnnounceObject) : Co unit :=
  let$ ack := atomically (fun c => announce c (link_endpoint c l) (ao_descriptor m)) in
  reply l ack.

Definition refuse_message {A} (type : MessageType) (session : bytes) : Co A :=
  eff_lift (Err (mkStatus RC.PROTOCOL_UNKNOWN_MESSAGE
    (lit "the coordinator does not accept " ++ message_type_to_string type ++ session))).

Definition handle_topology_request (l : nat) (frame : Frame) : Co unit :=
  parse TopologyRequest frame ;$ let$ report := topology_report in reply l report.
Definition handle_policy_request (l : nat) (frame : Frame) : Co unit :=
  parse PolicyRequest frame ;$ let$ report := policy_report in reply l report.

Definition handle_endpoint_message (l : nat) (frame : Frame) : Co unit :=
  match fh_type (fr_header frame) with
  | MT.REGISTER => let$ m := parse RegisterRequest frame in handle_register l m
  | MT.ANNOUNCE_OBJECT => let$ m := parse AnnounceObject frame in handle_announce l m
  | MT.TOPOLOGY_REQUEST => handle_topology_request l frame
  | MT.POLICY_REQUEST => handle_policy_request l frame
  | MT.HEARTBEAT => push_to l MT.HEARTBEAT_ACK (enc_text (lit "SMF-MSG-HEARTBEAT-ACK-v1"))
  | MT.ERROR => eff_ret tt
  | MT.ATTEMPT_RESULT | MT.COMMIT_RESULT | MT.VERIFY_RESPONSE | MT.AUTHORITY_REPORT
  | MT.CLEANUP_RESULT | MT.CANCEL_ACK | MT.GRANT_ACK => count CT.stale_rejections
  | type => refuse_message type (lit " from an endpoint session")
  end.

(** ** Messages of operator sessions *)

(** The answer to an operation, or the error it ended in. *)
Definition answer {A} (l : nat) (m : Co A) (respond : A -> Co unit) : Co unit :=
  let$ r := eff_try m in
  match r with
  | Ok x => respond x
  | Err e => reply_error l e
  end.

Definition handle_submit (l : nat) (m : SubmitMovement) : Co unit :=
  let$ accepted := eff_try (submit m) in
  match accepted with
  | Err e => count CT.movements_rejected ;$ reply_error l e
  | Ok accepted => reply l accepted
  end.

Definition handle_admin_message (l : nat) (frame : Frame) : Co unit :=
  match fh_type (fr_header frame) with
  | MT.SUBMIT_MOVEMENT => let$ m := parse SubmitMovement frame in handle_submit l m
  | MT.QUERY_MOVEMENT =>
      let$ m := parse QueryMovement frame in
      answer l (query (qm_movement_id m)) (fun r => reply l (mkMovementStatus r))
  | MT.LIST_MOVEMENTS =>
      let$ m := parse ListMovements frame in
      let$ records := list_movements (lm_limit m) (lm_offset m) in
      reply l (mkMovementList records)
  | MT.CANCEL_MOVEMENT =>
      let$ m := parse CancelMovement frame in
      answer l (cancel (xm_movement_id m)) (fun r => reply l (mkMovementStatus r))
  | MT.RECONCILE_MOVEMENT =>
      let$ m := parse ReconcileMovement frame in
      answer l (reconcile (rm_movement_id m)) (fun r => reply l (mkMovementStatus r))
  | MT.PROVENANCE_REQUEST =>
      let$ m := parse ProvenanceRequest frame in
      answer l (provenance (pq_movement_id m)) (fun report => reply l report)
  | MT.TOPOLOGY_REQUEST => handle_topology_request l frame
  | MT.POLICY_REQUEST => handle_policy_request l frame
  | MT.SHUTDOWN =>
      parse ShutdownRequest frame ;$
      let$ _ := eff_try (reply l (mkShutdownAck RC.OK (lit "shutting down"))) in
      request_shutdown
  | type => refuse_message type (lit " from an operator session")
  end.

(** ** Sessions *)

(** The identity the coordinator presents on a listener. *)
Definition self_identity c (role : SessionRole) : PeerIdentity :=
  mkPeer (cc_endpoint_id (cd_config c)) (inc_boot (cd_incarnation c)) (inc_epoch (cd_incarnation c))
    role kPeerContract (digest_of_capability c).

Definition listener_role (admin : bool) : SessionRole := if admin then SR.ADMIN else SR.ENDPOINT.

Definition decode_hello (frame : Frame) : Result HelloRequest :=
  decode_all (message_limits (fr_payload frame)) HelloRequest_decode (fr_payload frame).

(** The handshake of [session_loop] on a stream whose first frame has been
    received; returns the keyed stream and the hello it answers. *)
Definition accept_session (stream : FrameStream C) (hello_frame : Frame) (admin : bool)
    : Co (FrameStream C * HelloRequest) :=
  let required := listener_role admin in
  eff_reject (negb (bool_decide (fh_type (fr_header hello_frame) = MT.HELLO)))
    RC.PROTOCOL_HANDSHAKE_REQUIRED "sessions begin with a hello" ;$
  let$ hello := eff_lift (decode_hello hello_frame) in
  let$ self := look (fun c => self_identity c required) in
  if negb (bool_decide (pi_role (hq_identity hello) = required)) then
    let$ nonce := issue new_nonce in
    let$ session_id := issue new_session_id in
    let rejection := mkHelloResponse nonce session_id self zero_digest in
    let '(_, _) := FrameStream_send stream MT.HELLO_REJECT (HelloResponse_encode rejection) 0 in
    eff_lift (fail RC.NOT_AUTHORIZED
      "this listener serves a different session role than the one offered")
  else
    let$ session_id := issue new_session_id in
    let$ secret := look (fun c => cc_shared_secret (cd_config c)) in
    let$ response := issue (fun s => let '(s, r) := accept_hello_request secret hello self session_id s in (r, s)) in
    match response with
    | Err e => count CT.sessions_refused ;$ eff_lift (Err e)
    | Ok response =>
        let '(stream, sent) := FrameStream_send stream MT.HELLO_ACK (HelloResponse_encode response) 0 in
        eff_lift sent ;$
        let key := derive_session_key secret (hq_client_nonce hello) (hr_server_nonce response) in
        count CT.sessions_accepted ;$
        eff_ret (mkFrameStream (fs_connection stream) (set_session_key (fs_codec stream) key)
                   (fs_max_payload_bytes stream), hello)
    end.

(** [link->stream.receive()] *)
Definition receive_on (l : nat) : Co Frame :=
  let$ frame := atomically (fun c =>
    match ls_heap (cd_links c) !! l with
    | None => (c, fail RC.CONNECTION_CLOSED "peer closed the connection")
    | Some lk => let '(stream, frame) := FrameStream_receive (lk_stream lk) in
                 (set_links c (set_link (cd_links c) l (with_stream lk stream)), frame)
    end) in
  eff_lift frame.

(** A received frame: a response goes to its waiter, a request to its handler,
    whose error is reported to the peer. *)
Definition session_frame (l : nat) (admin : bool) (frame : Frame) : Co unit :=
  let$ delivered := atomically (fun c =>
    let '(ls, b) := deliver (cd_links c) l frame in (set_links c ls, b)) in
  if delivered then eff_ret tt
  else
    let$ handled := eff_try (if admin then handle_admin_message l frame
                             else handle_endpoint_message l frame) in
    match handled with
    | Ok _ => eff_ret tt
    | Err e => let$ _ := eff_try (reply_error l e) in eff_ret tt
    end.

(** The receive loop; [fuel] bounds the frames the session lives for. *)
Fixpoint session_frames (fuel : nat) (l : nat) (admin : bool) : Co unit :=
  match fuel with
  | O => eff_ret tt
  | Datatypes.S fuel =>
      let$ frame := eff_try (receive_on l) in
      match frame with
      | Err _ => eff_ret tt
      | Ok frame => session_frame l admin frame ;$ session_frames fuel l admin
      end
  end.

Definition end_session (l : nat) (admin : bool) : Co unit :=
  let$ endpoint := look (fun c => link_endpoint c l) in
  change (fun c => set_links c (close_link (cd_links c) l)) ;$
  if admin then eff_ret tt
  else change (fun c => set_topology c (topology_mark_dead (cd_topology c) endpoint).1).

Definition session_loop (fuel : nat) (connection : C) (admin : bool) : Co unit :=
  let$ bound := look (fun c => wrap 32 (po_max_chunk_bytes (cc_policy (cd_config c)) + 2 ^ 16)) in
  let '(stream, hello_frame) := FrameStream_receive (mkFrameStream connection FrameCodec_init bound) in
  let$ hello_frame := eff_lift hello_frame in
  let$ (stream, hello) := accept_session stream hello_frame admin in
  let$ l := atomically (fun c =>
    let '(ls, l) := open_link (cd_links c) stream (pi_endpoint (hq_identity hello)) in
    (set_links c ls, l)) in
  session_frames fuel l admin ;$
  end_session l admin.

(** A connection taken off a listener by [accept_loop]: whether a session is
    started for it, and the thread's body. *)
Definition admit_session : Co bool :=
  let$ full := atomically (fun c => (c, cc_max_sessions (cd_config c) <=? cd_active_sessions c)) in
  if full then count CT.sessions_refused ;$ eff_ret false
  else change (fun c => set_counters c (cd_counters c) (wrap 32 (cd_active_sessions c + 1))) ;$ eff_ret true.

Definition accept_connection (fuel : nat) (connection : C) (admin : bool) : Co unit :=
  let$ admitted := admit_session in
  if negb admitted then eff_ret tt
  else
    let$ _ := eff_try (session_loop fuel connection admin) in
    change (fun c => set_counters c (cd_counters c) (wrap 32 (cd_active_sessions c - 1))).
End sessions.

(** ** Transitions of records *)

(** What a movement is: fixed when it is submitted. *)
Definition movement_identity (r : MovementRecord) :=
  (m_id r, m_object r, m_source r, m_destination r, m_source_incarnation r,
   m_destination_incarnation r, (m_compatibility_generation r, m_topology_generation r,
   m_policy_generation r, m_repeatable r, m_cancel_requested r)).

(** [r'] is [r] after a legal transition to [next]. *)
Definition moved (next : MovementState) (r r' : MovementRecord) : Prop :=
  check_transition (m_state r) next = Ok tt /\ m_state r' = next /\
  Generation_next (m_generation r) = Ok (m_generation r') /\ movement_identity r' = movement_identity r /\
  m_attempt r' = m_attempt r.

Lemma apply_moved r next d k now r' u : apply_transition r next d k now = (r', Ok u) -> moved next r r'.
Proof.
  unfold apply_transition. destruct (check_transition (m_state r) next) as [[]|] eqn:Ec; [|done].
  destruct (Generation_next (m_generation r)) as [g|] eqn:Eg; [|done].
  destruct (chain_append_event _ _) as [chain st]. intros [= <- ->]. by repeat split.
Qed.

(** ** Following a protocol *)

(** The rules of [leads] for the steps above, for any protocol over the events
    of a thread. *)
Section following.
Context {C P S : Type} `{!Connection C, !EntropySource S}.
Context {Ph : Type} {step : Ph -> Event -> Ph -> Prop}.
#[local] Abbreviation follows := (leads (cw_events (C:=C) (P:=P) (S:=S)) step).

Lemma follows_atomically {A} (f : Coordinator C P -> Coordinator C P * A) p (Q : Result A -> Ph -> Prop) :
  (forall x, Q (Ok x) p) -> follows (atomically f) p Q.
Proof.
  intros H. apply leads_silent; intros w; unfold atomically;
    destruct (f (cw_others w (cw_turn w) (cw_coordinator w))); [done|apply H].
Qed.

Lemma follows_now p (Q : Result Z -> Ph -> Prop) : (forall n, Q (Ok n) p) -> follows unix_millis p Q.
Proof. intros H. apply leads_silent; intros w; [done|apply H]. Qed.

Lemma follows_issue {A} (f : S -> A * S) p (Q : Result A -> Ph -> Prop) :
  (forall x, Q (Ok x) p) -> follows (issue f) p Q.
Proof. intros H. apply leads_silent; intros w; unfold issue; destruct (f (cw_entropy w)); [done|apply H]. Qed.

Lemma follows_io p (Q : Result IoPlan -> Ph -> Prop) : (forall x, Q (Ok x) p) -> follows io_plan p Q.
Proof. intros H. apply leads_silent; intros w; [done|apply H]. Qed.

Lemma follows_emit e q p (Q : Result unit -> Ph -> Prop) :
  step p e q -> Q (Ok tt) q -> follows (emit e) p Q.
Proof. intros H HQ. apply leads_emit. intros w. by exists e, q. Qed.

Lemma follows_count k p (Q : Result unit -> Ph -> Prop) : Q (Ok tt) p -> follows (count k) p Q.
Proof. intros H. apply follows_atomically. by intros []. Qed.

Lemma follows_reject cond c m p (Q : Result unit -> Ph -> Prop) :
  (cond = true -> forall e, Q (Err e) p) -> (cond = false -> Q (Ok tt) p) -> follows (eff_reject cond c m) p Q.
Proof. intros H1 H2. apply leads_pure. destruct cond; [by apply H1|by apply H2]. Qed.

Lemma follows_persist r p q q' (Q : Result unit -> Ph -> Prop) :
  step p (Stored r true) q -> Q (Ok tt) q ->
  step p (Stored r false) q' -> (forall e, Q (Err e) q') ->
  follows (persist r) p Q.
Proof.
  intros H1 HQ1 H2 HQ2. unfold persist. apply leads_bind, follows_io. intros io.
  apply leads_bind, follows_atomically. intros [[]|e]; apply leads_bind.
  - apply (follows_emit _ q); [exact H1|]. by apply leads_pure.
  - apply (follows_emit _ q'); [exact H2|]. by apply leads_pure.
Qed.

Lemma follows_push l type payload p q (Q : Result unit -> Ph -> Prop) :
  (forall b, step p (Sent l type payload b) q) -> (forall r, Q r q) ->
  follows (push_to l type payload) p Q.
Proof.
  intros H HQ. unfold push_to. apply leads_bind, follows_atomically. intros x.
  apply leads_bind. apply (follows_emit _ q); [apply H|]. by apply leads_pure.
Qed.

Lemma follows_reserve l key p (Q : Result nat -> Ph -> Prop) :
  (forall r, Q r p) -> follows (reserve_on l key) p Q.
Proof. intros H. apply leads_bind, follows_atomically. intros x. by apply leads_pure. Qed.

Lemma follows_release l key p (Q : Result unit -> Ph -> Prop) :
  Q (Ok tt) p -> follows (release_on l key) p Q.
Proof. intros H. apply follows_atomically. by intros []. Qed.

Lemma follows_link e p (Q : Result nat -> Ph -> Prop) : (forall r, Q r p) -> follows (link_to e) p Q.
Proof. intros H. apply leads_bind, follows_atomically. intros x. by apply leads_pure. Qed.

Lemma follows_await l key promise what p (q : Frame -> Ph) (Q : Result Frame -> Ph -> Prop) :
  (forall f, step p (Answered key f) (q f)) ->
  (forall e, Q (Err e) p) -> (forall f r, r = Ok f \/ (exists e, r = Err e) -> Q r (q f)) ->
  follows (await l key promise what) p Q.
Proof.
  intros H H1 H2. unfold await. apply leads_bind, follows_atomically. intros [f|].
  - apply leads_bind. eapply follows_emit; [apply H|]. apply leads_bind, follows_reject; intros _.
    + intros e. apply H2. eauto.
    + apply leads_ret. auto.
  - apply leads_bind, follows_release, leads_pure, H1.
Qed.

Lemma follows_request l key type payload p p1 (q : Frame -> Ph) (Q : Result Frame -> Ph -> Prop) :
  (forall b, step p (Sent l type payload b) p1) ->
  (forall f, step p1 (Answered key f) (q f)) ->
  (forall e, Q (Err e) p) -> (forall e, Q (Err e) p1) ->
  (forall f r, r = Ok f \/ (exists e, r = Err e) -> Q r (q f)) ->
  follows (request l key type payload) p Q.
Proof.
  intros Hs Ha Hp Hp1 Hq. unfold request. apply leads_bind, follows_reserve. intros [promise|e]; [|by apply Hp].
  apply leads_bind, leads_try. eapply follows_push; [done|]. intros [[]|e].
  - by eapply follows_await.
  - by apply leads_bind, follows_release, leads_pure.
Qed.
End following.

(** ** Running alone *)

(** The rules of [ends] for a thread that is not interfered with. *)
Section quiet.
Context {C P S : Type} `{!Connection C, !EntropySource S}.
Implicit Types w : CWorld C P S.

Definition quiet w : Prop := forall n c, cw_others w n c = c.

(** [w'] is [w] after some steps of this thread. *)
Definition follows_world w w' : Prop :=
  cw_others w' = cw_others w /\ cw_io w' = cw_io w /\ cw_clock w' = cw_clock w.

Lemma quiet_next w w' : quiet w -> follows_world w w' -> quiet w'.
Proof. intros H (E & _ & _) n c. by rewrite E. Qed.

Lemma follows_world_trans w1 w2 w3 : follows_world w1 w2 -> follows_world w2 w3 -> follows_world w1 w3.
Proof. unfold follows_world. intros (?&?&?) (?&?&?). split_and!; congruence. Qed.

(** [w'] is [w] with coordinator [c] and the events [es] on top. *)
Definition becomes w (c : Coordinator C P) (es : list Event) w' : Prop :=
  quiet w' /\ cw_io w' = cw_io w /\ cw_coordinator w' = c /\ cw_events w' = es ++ cw_events w.

Lemma becomes_refl w : quiet w -> becomes w (cw_coordinator w) [] w.
Proof. by intros. Qed.

Lemma becomes_trans w c1 es1 w1 c2 es2 w2 :
  becomes w c1 es1 w1 -> becomes w1 c2 es2 w2 -> becomes w c2 (es2 ++ es1) w2.
Proof.
  intros (? & E1 & ? & F1) (? & E2 & ? & F2). split_and!; [done|congruence|done|]. by rewrite F2, F1, app_assoc.
Qed.

Lemma quiet_atomically {A} (f : Coordinator C P -> Coordinator C P * A) w (Q : CWorld C P S -> Result A -> Prop) :
  quiet w -> (forall w', becomes w (f (cw_coordinator w)).1 [] w' -> Q w' (Ok (f (cw_coordinator w)).2)) ->
  ends (atomically f) w Q.
Proof.
  intros Hu H. unfold ends, atomically. rewrite Hu.
  destruct (f (cw_coordinator w)) as [c x] eqn:E. by apply H.
Qed.

Lemma quiet_look {A} (f : Coordinator C P -> A) w (Q : CWorld C P S -> Result A -> Prop) :
  quiet w -> (forall w', becomes w (cw_coordinator w) [] w' -> Q w' (Ok (f (cw_coordinator w)))) ->
  ends (look f) w Q.
Proof. intros Hu H. by apply quiet_atomically. Qed.

Lemma quiet_change (f : Coordinator C P -> Coordinator C P) w (Q : CWorld C P S -> Result unit -> Prop) :
  quiet w -> (forall w', becomes w (f (cw_coordinator w)) [] w' -> Q w' (Ok tt)) -> ends (change f) w Q.
Proof. intros Hu H. by apply quiet_atomically. Qed.

Lemma quiet_now w (Q : CWorld C P S -> Result Z -> Prop) : quiet w ->
  (forall w' now, becomes w (cw_coordinator w) [] w' -> Q w' (Ok now)) -> ends unix_millis w Q.
Proof. intros Hu H. by apply H. Qed.

Lemma quiet_issue {A} (f : S -> A * S) w (Q : CWorld C P S -> Result A -> Prop) : quiet w ->
  (forall w' s, becomes w (cw_coordinator w) [] w' -> Q w' (Ok (f s).1)) -> ends (issue f) w Q.
Proof.
  intros Hu H. unfold ends, issue. pose proof (H) as H'. destruct (f (cw_entropy w)) as [x s] eqn:E.
  replace x with (f (cw_entropy w)).1 by (by rewrite E). by apply H.
Qed.

Lemma quiet_persist w r (Q : CWorld C P S -> Result unit -> Prop) : quiet w ->
  (forall w' s' x, store_put (cw_io w) (cd_store (cw_coordinator w)) r = (s', x) ->
     becomes w (set_store (cw_coordinator w) s') [Stored r (is_ok x)] w' -> Q w' x) ->
  ends (persist r) w Q.
Proof.
  intros Hu H. unfold persist. apply ends_bind. unfold io_plan. unfold ends at 1.
  apply ends_bind, quiet_atomically; [done|].
  destruct (store_put (cw_io w) (cd_store (cw_coordinator w)) r) as [s' x] eqn:E. intros w1 (Hq & Hi & Hc & He).
  apply ends_bind. unfold emit. unfold ends at 1. apply ends_lift, (H _ s'); [done|]. by split_and!; simpl; rewrite ?He.
Qed.

(** The same rules from where the thread has got to. *)
Lemma from_atomically {A} (f : Coordinator C P -> Coordinator C P * A) w0 c es w (Q : CWorld C P S -> Result A -> Prop) :
  becomes w0 c es w -> (forall w', becomes w0 (f c).1 es w' -> Q w' (Ok (f c).2)) -> ends (atomically f) w Q.
Proof.
  intros Hb H. pose proof Hb as (Hq & _ & Hc & _). apply quiet_atomically; [done|]. rewrite Hc.
  intros w' Hw. apply H. exact (becomes_trans _ _ _ _ _ [] _ Hb Hw).
Qed.

Lemma from_look {A} (f : Coordinator C P -> A) w0 c es w (Q : CWorld C P S -> Result A -> Prop) :
  becomes w0 c es w -> (forall w', becomes w0 c es w' -> Q w' (Ok (f c))) -> ends (look f) w Q.
Proof. intros Hb H. by apply (from_atomically _ w0 c es). Qed.

Lemma from_change (f : Coordinator C P -> Coordinator C P) w0 c es w (Q : CWorld C P S -> Result unit -> Prop) :
  becomes w0 c es w -> (forall w', becomes w0 (f c) es w' -> Q w' (Ok tt)) -> ends (change f) w Q.
Proof. intros Hb H. by apply (from_atomically _ w0 c es). Qed.

Lemma from_now w0 c es w (Q : CWorld C P S -> Result Z -> Prop) :
  becomes w0 c es w -> (forall w' now, becomes w0 c es w' -> Q w' (Ok now)) -> ends unix_millis w Q.
Proof. intros Hb H. by apply H. Qed.

Lemma from_issue {A} (f : S -> A * S) w0 c es w (Q : CWorld C P S -> Result A -> Prop) :
  becomes w0 c es w -> (forall w' s, becomes w0 c es w' -> Q w' (Ok (f s).1)) -> ends (issue f) w Q.
Proof.
  intros Hb H. pose proof Hb as (Hq & _ & Hc & _). apply quiet_issue; [done|]. rewrite Hc.
  intros w' s Hw. apply H. exact (becomes_trans _ _ _ _ _ [] _ Hb Hw).
Qed.

Lemma from_persist r w0 c es w (Q : CWorld C P S -> Result unit -> Prop) :
  becomes w0 c es w ->
  (forall w' s' x, store_put (cw_io w0) (cd_store c) r = (s', x) ->
     becomes w0 (set_store c s') (Stored r (is_ok x) :: es) w' -> Q w' x) -> ends (persist r) w Q.
Proof.
  intros Hb H. pose proof Hb as (Hq & Hi & Hc & _). apply quiet_persist; [done|]. rewrite Hc, Hi.
  intros w' s' x Hp Hw. apply (H w' s'); [done|]. exact (becomes_trans _ _ _ _ _ [_] _ Hb Hw).
Qed.
End quiet.

(** *** Examples *)

Definition demo_policy : MovementPolicy :=
  mkPolicy 3 8 1024 (2 ^ 20) (64 * 2 ^ 30) (64 * 2 ^ 30) 256 256 1024 64 200000 (256 * 2 ^ 20)
    (8 * 2 ^ 30) true true true true 4 30000 600000.

Definition demo_config : CoordinatorConfig CompatibilityRegistry :=
  mkCoordinatorConfig (lit "coordinator") (lit "/var/lib/smf") demo_secret demo_policy 30000 64 4
    true true 3 None.

Definition demo_clock : nat -> Z := fun _ => 1767225600000.

(** A running coordinator with two live endpoints that holds the log [s] and
    has been told of [demo_descriptor] by the first of them. *)
Definition demo_endpoint (name : bytes) : EndpointRegistration :=
  mkRegistration name (demo_incarnation name) (mkAddress (lit "10.0.0.1") 7000)
    (mkAddress (lit "10.0.0.1") 7001) kPeerContract (replicate 32 x09) 1 true.
Definition demo_fabric : TopologyView :=
  (topology_put (topology_put (TopologyView_init no_incarnation 2) (demo_endpoint (lit "alpha")) 8).1
     (demo_endpoint (lit "beta")) 8).1.
Definition demo_session : FrameStream Pipe := mkFrameStream (mkPipe [] []) keyed_codec (2 ^ 20).
Definition demo_control : Links Pipe :=
  let '(ls, a) := open_link no_links demo_session (lit "alpha") in
  let '(ls, b) := open_link ls demo_session (lit "beta") in
  register_link (register_link ls (lit "alpha") a) (lit "beta") b.
Definition demo_coordinator (s : MovementStore) : Coordinator Pipe CompatibilityRegistry :=
  mkCoordinator demo_config (demo_incarnation (lit "coordinator")) (mkPolicySet 1 demo_policy) true s
    demo_fabric None 1 demo_control {[ d_object_id demo_descriptor := demo_descriptor ]}
    {[ d_object_id demo_descriptor := lit "alpha" ]} [] 0 2 zero_counters false.
Definition demo_new_log : MovementStore :=
  match MovementStore_open (store_options demo_config) [] with
  | Ok (s, _) => s
  | Err _ => empty_store (store_options demo_config) []
  end.
Definition demo_world (s : MovementStore)
    (others : nat -> Coordinator Pipe CompatibilityRegistry -> Coordinator Pipe CompatibilityRegistry)
    : CWorld Pipe CompatibilityRegistry DeterministicEntropy :=
  mkCWorld (demo_coordinator s) demo_clock 0 demo_cs no_faults others 0 [].
