(* ===== verification/Recovery.v ===== *)
(** * Restart of a coordinator (start, open_store and recover_after_restart of
    src/src/coordinator.cpp over src/src/movement_store.cpp)

    What a coordinator does with the movements it finds in its store when it
    starts, composed from the store's recovery, the transition table and the
    reset of the topology. *)
From S2P Require Import Prelude Status Bytes Digest Codec Ids StateObject Provenance Movement MovementStore.
From S2P Require Import Framing Session Policy Topology Compatibility WireFields Wire Effect Links Coordinator.

(** ** Every record fits the store's record bound *)

Lemma event_encode_bound e : event_ok e -> zlen (ProvenanceEvent_encode e) <= 1300.
Proof.
  intros []. apply event_validate_spec in eo_valid as (_ & _ & _ & [Hd _]).
  apply actor_text in eo_actor as [Ha _]. unfold ProvenanceEvent_encode, FixedId_encode.
  autorewrite with enc_len. rewrite zlen_enc_digest by done. unfold zlen, id_wf in *.
  rewrite eo_boot, eo_attempt. unfold kMaxEndpointIdBytes, kMaxDetailBytes in *. lia.
Qed.

Lemma enc_seq_bound {A} (enc : A -> bytes) (P : A -> Prop) b (xs : list A) :
  (forall x, P x -> zlen (enc x) <= b) -> Forall P xs -> zlen (enc_seq enc xs) <= b * zlen xs.
Proof.
  intros Hb. induction 1 as [|x xs Hx _ IH]; [unfold zlen; simpl; lia|].
  change (enc_seq enc (x :: xs)) with (enc x ++ enc_seq enc xs). rewrite zlen_app.
  replace (zlen (x :: xs)) with (1 + zlen xs) by (unfold zlen; simpl; lia). specialize (Hb x Hx). lia.
Qed.

Lemma movement_encode_bound r : movement_inv r -> zlen (MovementRecord_encode r) <= 2 ^ 20.
Proof.
  intros (Hr & Hv & (Hb & Hl & _) & Hf & _).
  pose proof (enc_seq_bound _ _ _ _ event_encode_bound Hf) as Hs.
  pose proof (descriptor_encode_bound (m_object r) (conj (mr_obj r Hr) (vm_obj r Hv))) as Hd.
  destruct (endpoint_text _ (mr_src r Hr)) as [[H1 _] _]. destruct (endpoint_text _ (mr_dst r Hr)) as [[H2 _] _].
  pose proof (vm_detail r Hv) as H3. unfold MovementRecord_encode, FixedId_encode, ProvenanceChain_encode.
  autorewrite with enc_len. rewrite (vm_sname r Hv), (vm_dname r Hv).
  destruct Hr. rewrite !zlen_enc_digest by done. unfold id_wf in *. unfold zlen in *.
  rewrite mr_id, mr_sboot, mr_dboot, mr_att. unfold kMaxEndpointIdBytes in *. lia.
Qed.

(** ** Storing a new version of a known movement *)

(** Room for [n] more appends. *)
Definition room_for (n : Z) (s : MovementStore) : Prop :=
  ms_next_sequence s + zlen (ms_order s) + 3 + n < 2 ^ 64.

Lemma room_for_one n s : 0 <= n -> room_for n s -> sequence_room s.
Proof. unfold room_for, sequence_room. lia. Qed.

(** Within the history bound a put drops nothing. *)
Definition within_history (s : MovementStore) : Prop :=
  map_size (ms_records s) <= so_max_history_records (ms_options s).

Lemma put_existing s r n : store_inv s -> 0 < n -> room_for n s -> within_history s ->
  2 ^ 20 <= so_max_record_bytes (ms_options s) -> movement_inv r -> is_Some (ms_records s !! m_id r) ->
  exists s', store_put no_faults s r = (s', Ok tt) /\ store_inv s' /\ ms_options s' = ms_options s /\
    ms_coordinator_state s' = ms_coordinator_state s /\ ms_order s' = ms_order s /\
    ms_records s' = <[m_id r := r]> (ms_records s) /\ room_for (n - 1) s' /\ within_history s'.
Proof.
  intros Hs Hn Hroom Hh Hmax Hr Hk.
  assert (Hsz : map_size (<[m_id r := r]> (ms_records s)) = map_size (ms_records s)).
  { unfold map_size. destruct Hk as [r0 Hk]. by rewrite map_size_insert_Some by eauto. }
  assert (Hlen : zlen (MovementRecord_encode r) <= so_max_record_bytes (ms_options s))
    by (pose proof (movement_encode_bound r Hr); lia).
  destruct (put_step s r Hs (room_for_one n s ltac:(lia) Hroom) Hr Hlen)
    as (s' & Hp & Hs' & Ho & Hc & Hsub & Hall).
  assert (Erec : ms_records s' = <[m_id r := r]> (ms_records s)).
  { apply map_eq. intros id. destruct (<[m_id r := r]> (ms_records s) !! id) as [r0|] eqn:E.
    - apply Hall; [done|]. right. rewrite Hsz. exact Hh.
    - destruct (ms_records s' !! id) as [r1|] eqn:E1; [|done]. by rewrite (lookup_weaken _ _ _ _ E1 Hsub) in E. }
  assert (ms_order s' = ms_order s /\ ms_next_sequence s' = ms_next_sequence s + 1) as [Eord Eseq].
  { unfold store_put in Hp. rewrite (proj2 (movement_validate_spec r)) in Hp by apply Hr.
    destruct (append_record no_faults s kRecordMovement (MovementRecord_encode r)) as [s1 [u|e]] eqn:Ea; [|done].
    destruct u. destruct (append_fields _ _ _ _ _ Ea eq_refl (si_open _ Hs) (si_offset _ Hs))
      as (_ & _ & _ & _ & Hns & Hopt & Hrec & Hord & _).
    assert (enforce_retention no_faults (index_put s1 r) = (index_put s1 r, Ok tt)) as Er.
    { unfold enforce_retention. simpl. rewrite Hrec, Hsz, Hopt. destruct (_ =? 0); [done|].
      destruct (_ <=? _); [done|]. unfold within_history in Hh. by rewrite (proj2 (Z.leb_le _ _) Hh). }
    rewrite Er in Hp. injection Hp as <-. simpl. rewrite Hrec. destruct Hk as [r0 Hk]. rewrite Hk.
    rewrite bool_decide_false by done. split; [done|]. rewrite Hns. apply wrap_small.
    pose proof (next_nonneg s Hs). unfold room_for in Hroom. pose proof (zlen_nonneg (ms_order s)).
    unfold in_u. lia. }
  exists s'. unfold room_for, within_history in *. rewrite Eord, Eseq, Erec, Hsz, Ho.
  split_and!; try done. lia.
Qed.

(** ** Recovery of one movement *)

(** What recovery makes of a stored movement. *)
Definition recovered (r r' : MovementRecord) : Prop :=
  match m_state r with
  | MS.PLANNED => moved MS.FAILED r r'
  | MS.AUTHORIZED | MS.TRANSFERRING | MS.BYTES_ARRIVED | MS.VERIFIED => moved MS.OUTCOME_UNKNOWN r r'
  | MS.OUTCOME_UNKNOWN | MS.COMMITTED | MS.CANCELLED | MS.FAILED | MS.SUPERSEDED => r' = r
  end.

(** A record with room for one more transition. *)
Definition can_move (r : MovementRecord) : Prop :=
  m_generation r <> u64_max /\ zlen (pc_events (m_provenance r)) < pc_bound (m_provenance r).

Section recovery.
Context {C P S : Type} `{!Connection C, !EntropySource S}.
Implicit Types w : CWorld C P S.

(** A world without other threads and faults, whose clock is sane. *)
Record undisturbed w : Prop := {
  un_quiet : forall n c, cw_others w n c = c;
  un_io : cw_io w = no_faults;
  un_clock : forall n, 0 < cw_clock w n /\ in_i64 (cw_clock w n) }.

Lemma undisturbed_next w w' : undisturbed w -> follows_world w w' -> undisturbed w'.
Proof. intros [H1 H2 H3] (E1 & E2 & E3). split; rewrite ?E1, ?E2, ?E3; done. Qed.

Lemma ends_atomically {A} (f : Coordinator C P -> Coordinator C P * A) w (Q : CWorld C P S -> Result A -> Prop) :
  undisturbed w ->
  (forall w', follows_world w w' -> cw_coordinator w' = (f (cw_coordinator w)).1 ->
     Q w' (Ok (f (cw_coordinator w)).2)) ->
  ends (atomically f) w Q.
Proof.
  intros Hu H. unfold ends, atomically. rewrite (un_quiet _ Hu).
  destruct (f (cw_coordinator w)) as [c x] eqn:E. by apply H.
Qed.

(** The same for a step that is followed by drawing identifiers. *)
Lemma ends_look {A} (f : Coordinator C P -> A) w (Q : CWorld C P S -> Result A -> Prop) :
  undisturbed w ->
  (forall w', follows_world w w' -> cw_coordinator w' = cw_coordinator w -> cw_entropy w' = cw_entropy w ->
     Q w' (Ok (f (cw_coordinator w)))) ->
  ends (look f) w Q.
Proof. intros Hu H. unfold ends, look, atomically. rewrite (un_quiet _ Hu). by apply H. Qed.

Lemma ends_now w (Q : CWorld C P S -> Result Z -> Prop) : undisturbed w ->
  (forall w' now, follows_world w w' -> cw_coordinator w' = cw_coordinator w -> 0 < now -> in_i64 now ->
     Q w' (Ok now)) -> ends unix_millis w Q.
Proof. intros Hu H. unfold ends, unix_millis. destruct (un_clock _ Hu (cw_ticks w)). by apply H. Qed.

Lemma ends_persist w r s' (Q : CWorld C P S -> Result unit -> Prop) : undisturbed w ->
  store_put no_faults (cd_store (cw_coordinator w)) r = (s', Ok tt) ->
  (forall w', follows_world w w' -> cw_coordinator w' = set_store (cw_coordinator w) s' -> Q w' (Ok tt)) ->
  ends (persist r) w Q.
Proof.
  intros Hu Hp H. unfold persist. apply ends_bind. unfold io_plan. unfold ends at 1. rewrite (un_io _ Hu).
  apply ends_bind, ends_atomically; [done|]. rewrite Hp. intros w' Hw Ec. apply ends_bind.
  unfold emit. unfold ends at 1. apply ends_lift. by apply H.
Qed.

(** A store that can take [n] more versions of its movements. *)
Definition ready_store (n : Z) (s : MovementStore) : Prop :=
  store_inv s /\ room_for n s /\ within_history s /\ 2 ^ 20 <= so_max_record_bytes (ms_options s).

(** The parts of a store that new versions of its movements leave alone. *)
Definition same_frame (s s' : MovementStore) : Prop :=
  ms_options s' = ms_options s /\ ms_coordinator_state s' = ms_coordinator_state s /\
  ms_order s' = ms_order s.

Lemma transition_succeeds r next d kind now : movement_inv r -> can_move r ->
  check_transition (m_state r) next = Ok tt -> reason_wf (dec_code d) -> text_ok 1024 (dec_detail d) ->
  0 < now -> in_i64 now -> next <> MS.COMMITTED ->
  exists r', apply_transition r next d kind now = (r', Ok tt) /\ movement_inv r' /\ moved next r r' /\
    m_id r' = m_id r.
Proof.
  intros Hr [Hg Hc] Ht Hw Hd Hn Hi Hnc. pose proof (apply_transition_cases r next d kind now Hr) as H.
  pose proof (apply_transition_inv r next d kind now Hr Hw Hd Hn Hi ltac:(done)) as Hinv.
  destruct (apply_transition r next d kind now) as [r' st] eqn:E. rewrite Ht, decide_False in H by done.
  destruct H as (_ & _ & _ & _ & _ & Hiff & _). assert (st = Ok tt) as -> by (by apply Hiff).
  pose proof (apply_moved _ _ _ _ _ _ _ E) as Hm. exists r'. split_and!; try done.
  destruct Hm as (_ & _ & _ & Hid & _). unfold movement_identity in Hid. congruence.
Qed.

Lemma set_store_same (c : Coordinator C P) : set_store c (cd_store c) = c.
Proof. by destruct c. Qed.

Lemma set_store_twice (c : Coordinator C P) s s' : set_store (set_store c s) s' = set_store c s'.
Proof. done. Qed.

Lemma ends_recover_record r w n (Q : CWorld C P S -> Result unit -> Prop) :
  undisturbed w -> 0 < n -> ready_store n (cd_store (cw_coordinator w)) ->
  ms_records (cd_store (cw_coordinator w)) !! m_id r = Some r ->
  (is_terminal (m_state r) = false -> can_move r) ->
  (forall w' s' r', follows_world w w' -> cw_coordinator w' = set_store (cw_coordinator w) s' ->
     ready_store (n - 1) s' -> same_frame (cd_store (cw_coordinator w)) s' ->
     ms_records s' = <[m_id r := r']> (ms_records (cd_store (cw_coordinator w))) ->
     recovered r r' -> Q w' (Ok tt)) ->
  ends (recover_record r) w Q.
Proof.
  intros Hu Hn Hs Hk Hmv HQ. pose proof Hs as (Hinv & Hroom & Hh & Hmax).
  destruct (ix_recs _ (si_index _ Hinv) _ _ Hk) as (_ & Hr & _).
  assert (Hsame : forall w', follows_world w w' -> cw_coordinator w' = cw_coordinator w -> recovered r r ->
            Q w' (Ok tt)).
  { intros w' Hw Ec Hrec. apply (HQ w' (cd_store (cw_coordinator w)) r); try done.
    - by rewrite set_store_same.
    - split_and!; try done. unfold room_for in *. lia.
    - by rewrite insert_id. }
  unfold recover_record. destruct (is_terminal (m_state r)) eqn:Et.
  { apply ends_ret, Hsame; try done. unfold recovered. by destruct (m_state r). }
  specialize (Hmv eq_refl). apply ends_bind, ends_now; [done|]. intros w1 now Hw1 Ec1 Hnow Hi.
  assert (Hu1 : undisturbed w1) by (by eapply undisturbed_next).
  destruct (check_transition (m_state r) (recovery_state r)) as [[]|e] eqn:Ec.
  - destruct (transition_succeeds r (recovery_state r) (recovery_decision r) (recovery_kind r) now)
      as (r' & -> & Hr' & Hm & Hid); try done;
      try (unfold recovery_state, recovery_decision; by destruct (bool_decide _)).
    destruct (put_existing (cd_store (cw_coordinator w)) r' n Hinv Hn Hroom Hh Hmax Hr')
      as (s' & Hp & Hs' & Ho & Hco & Hord & Hrecs & Hroom' & Hh'); [rewrite Hid; eauto|].
    apply ends_bind, ends_try. apply (ends_persist _ _ s'); [done|by rewrite Ec1|].
    intros w2 Hw2 Ec2. apply ends_ret, (HQ w2 s' r'); try done.
    + by eapply follows_world_trans.
    + by rewrite Ec2, Ec1.
    + split_and!; try done. by rewrite Ho.
    + by rewrite Hrecs, Hid.
    + revert Hm. unfold recovered, recovery_state. clear - Et Ec. revert Ec. unfold recovery_state.
      by destruct (m_state r).
  - unfold apply_transition. rewrite Ec. apply ends_ret, Hsame; try done.
    clear - Et Ec. revert Ec. unfold recovered, recovery_state. by destruct (m_state r).
Qed.

Definition ids (l : list MovementRecord) : list bytes := m_id <$> l.

Lemma ends_recover_records l w (Q : CWorld C P S -> Result unit -> Prop) :
  undisturbed w -> ready_store (zlen l) (cd_store (cw_coordinator w)) -> NoDup (ids l) ->
  (forall r, r ∈ l -> ms_records (cd_store (cw_coordinator w)) !! m_id r = Some r /\
     (is_terminal (m_state r) = false -> can_move r)) ->
  (forall w' s', follows_world w w' -> cw_coordinator w' = set_store (cw_coordinator w) s' ->
     ready_store 0 s' -> same_frame (cd_store (cw_coordinator w)) s' ->
     (forall id, id ∉ ids l -> ms_records s' !! id = ms_records (cd_store (cw_coordinator w)) !! id) ->
     (forall r, r ∈ l -> exists r', ms_records s' !! m_id r = Some r' /\ recovered r r') -> Q w' (Ok tt)) ->
  ends (recover_records l) w Q.
Proof.
  revert w. induction l as [|r l IH]; intros w Hu Hs Hnd Hl HQ; cbn [recover_records].
  - apply ends_ret, (HQ w (cd_store (cw_coordinator w))); try done; [by rewrite set_store_same|].
    by intros r Hr%not_elem_of_nil.
  - replace (zlen (r :: l)) with (1 + zlen l) in Hs by (unfold zlen; simpl; lia).
    pose proof (zlen_nonneg l) as Hz. apply list.NoDup_cons in Hnd as [Hni Hnd].
    destruct (Hl r (list_elem_of_here _ _)) as [Hk Hmv].
    apply ends_bind, (ends_recover_record r w (1 + zlen l)); try done; [lia|].
    intros w1 s1 r1 Hw1 Ec1 Hs1 Hf1 Hr1 Hrec1. replace (1 + zlen l - 1) with (zlen l) in Hs1 by lia.
    assert (cd_store (cw_coordinator w1) = s1) as Es1 by (by rewrite Ec1).
    apply IH; [by eapply undisturbed_next|by rewrite Es1|done| |].
    + intros r0 Hr0. destruct (Hl r0 (list_elem_of_further _ _ _ Hr0)) as [Hk0 Hm0]. split; [|done].
      rewrite Es1, Hr1, lookup_insert_ne; [done|]. intros E. apply Hni. unfold ids. rewrite E.
      by apply list_elem_of_fmap_2.
    + rewrite Es1. intros w2 s2 Hw2 Ec2 Hs2 Hf2 Hout2 Hin2. apply (HQ w2 s2); try done.
      * by eapply follows_world_trans.
      * by rewrite Ec2, Ec1.
      * unfold same_frame in *. destruct Hf1 as (?&?&?), Hf2 as (?&?&?). split_and!; congruence.
      * intros id Hid. apply not_elem_of_cons in Hid as [Hid1 Hid2]. rewrite Hout2, Hr1 by done.
        by rewrite lookup_insert_ne.
      * intros r0 [->|Hr0]%elem_of_cons; [|by apply Hin2]. exists r1. split; [|done].
        by rewrite Hout2, Hr1, lookup_insert_eq.
Qed.

(** The listing recovery works on is the whole index. *)
Lemma listed_all s max : store_inv s -> zlen (ms_order s) <= max ->
  NoDup (ids (store_list s max 0)) /\
  (forall id r, ms_records s !! id = Some r <-> r ∈ store_list s max 0 /\ m_id r = id) /\
  zlen (store_list s max 0) <= zlen (ms_order s).
Proof.
  intros Hs Hmax. pose proof (si_index _ Hs) as [Hnd Hdom Hrec _].
  assert (store_list s max 0 = omap (fun id => ms_records s !! id) (rev (ms_order s))) as El.
  { unfold store_list. destruct (Z.leb_spec (zlen (ms_order s)) 0) as [H0|H0].
    - destruct (ms_order s); [done|]. unfold zlen in H0. simpl in H0. lia.
    - rewrite Z.sub_0_r, Z.min_l by lia. rewrite list_loop_spec by (unfold zlen; lia).
      rewrite take_ge; [done|]. rewrite length_drop, length_rev. unfold zlen. lia. }
  rewrite El.
  assert (Hm : forall l, (forall id, id ∈ l -> is_Some (ms_records s !! id)) ->
            ids (omap (fun id => ms_records s !! id) l) = l).
  { induction l as [|id l IH]; intros Hl; [done|]. cbn [omap list_omap].
    destruct (Hl id (list_elem_of_here _ _)) as [r Hr]. rewrite Hr. unfold ids in *. simpl.
    destruct (Hrec _ _ Hr) as [-> _]. f_equal. apply IH. intros. apply Hl. by apply list_elem_of_further. }
  assert (Hin : forall id, id ∈ rev (ms_order s) <-> is_Some (ms_records s !! id)).
  { intros id. rewrite <- Hdom. rewrite !list_elem_of_In. symmetry. apply in_rev. }
  split_and!.
  - rewrite Hm by (intros id; apply Hin). apply NoDup_ListNoDup, List.NoDup_rev, NoDup_ListNoDup, Hnd.
  - intros id r. rewrite list_elem_of_omap. split.
    + intros Hr. split; [|by apply Hrec]. exists id. split; [|done]. apply Hin. eauto.
    + intros [(id' & _ & Hr) <-]. destruct (Hrec _ _ Hr) as [-> _]. done.
  - assert (forall l : list bytes, length (omap (fun id => ms_records s !! id) l) <= length l)%nat as Hlen.
    { induction l as [|id l IH]; [done|]. cbn [omap list_omap]. destruct (ms_records s !! id); simpl; lia. }
    unfold zlen. rewrite <- (length_rev (ms_order s)). specialize (Hlen (rev (ms_order s))). lia.
Qed.

Lemma index_size s : store_inv s -> map_size (ms_records s) = zlen (ms_order s).
Proof.
  intros Hs. destruct (si_index _ Hs) as [Hnd Hdom _ _]. unfold map_size, zlen. f_equal.
  rewrite <- size_dom.
  replace (dom (ms_records s)) with (list_to_set (ms_order s) : gset bytes).
  - by apply size_list_to_set.
  - apply set_eq. intros id. rewrite elem_of_list_to_set, elem_of_dom. apply Hdom.
Qed.

Lemma restart_sequence s s' rp : store_inv s -> sequence_room s ->
  MovementStore_open (ms_options s) (ms_file s) = Ok (s', rp) -> ms_next_sequence s' <= ms_next_sequence s.
Proof.
  intros [Ho _ _ Hix (recs & s1 & Hf & Hok & Hlast & Hre & _) _] Hroom Hop.
  destruct (open_log (ms_options s) recs [] s1 Ho Hok (tail_clean _) Hre)
    as (s2 & rp2 & Hop2 & _ & _ & _ & _ & _ & _ & _ & Hn & _).
  rewrite app_nil_r, <- Hf in Hop2. assert (s2 = s') as -> by congruence.
  pose proof (last_seq_ge _ _ _ Hok). pose proof (zlen_nonneg recs). unfold sequence_room in Hroom.
  pose proof (zlen_nonneg (ms_order s)). rewrite Hn, wrap_small by (unfold in_u; lia). lia.
Qed.

Lemma save_sequence s c s' : store_inv s -> sequence_room s ->
  save_coordinator_state no_faults s c = (s', Ok tt) -> ms_next_sequence s' = ms_next_sequence s + 1.
Proof.
  intros Hs Hroom. unfold save_coordinator_state.
  destruct (append_record no_faults s _ _) as [s1 [[]|e]] eqn:Ea; [|done]. intros [= <-]. simpl.
  destruct (append_fields _ _ _ _ _ Ea eq_refl (si_open _ Hs) (si_offset _ Hs)) as (_ & _ & _ & _ & -> & _).
  pose proof (next_nonneg s Hs). unfold sequence_room in Hroom. pose proof (zlen_nonneg (ms_order s)).
  apply wrap_small. unfold in_u. lia.
Qed.

Lemma ends_issue {A} (f : S -> A * S) w (Q : CWorld C P S -> Result A -> Prop) :
  (forall w', follows_world w w' -> cw_coordinator w' = cw_coordinator w -> Q w' (Ok (f (cw_entropy w)).1)) ->
  ends (issue f) w Q.
Proof. intros H. unfold ends, issue. destruct (f (cw_entropy w)) as [x s]. by apply H. Qed.

Lemma ends_recovery w (Q : CWorld C P S -> Result unit -> Prop) :
  let c := cw_coordinator w in
  undisturbed w -> ready_store (zlen (ms_order (cd_store c))) (cd_store c) ->
  zlen (ms_order (cd_store c)) <= po_max_history_records (cc_policy (cd_config c)) ->
  (forall id r, ms_records (cd_store c) !! id = Some r -> is_terminal (m_state r) = false -> can_move r) ->
  (forall w' s', cw_coordinator w' = set_store (set_topology c (reset_dynamic_state (cd_topology c))) s' ->
     store_inv s' -> same_frame (cd_store c) s' ->
     (forall id, ms_records (cd_store c) !! id = None -> ms_records s' !! id = None) ->
     (forall id r, ms_records (cd_store c) !! id = Some r ->
        exists r', ms_records s' !! id = Some r' /\ recovered r r') -> Q w' (Ok tt)) ->
  ends recover_after_restart w Q.
Proof.
  intros c Hu Hs Hmax Hmv HQ. unfold recover_after_restart.
  apply ends_bind, ends_atomically; [done|]. intros w1 Hw1 Ec1. simpl in Ec1.
  assert (Hu1 : undisturbed w1) by (by eapply undisturbed_next).
  apply ends_bind, ends_atomically; [done|]. intros w2 Hw2 Ec2. cbn [fst snd] in *. rewrite Ec1 in Ec2.
  set (l := store_list _ _ _).
  assert (l = store_list (cd_store c) (po_max_history_records (cc_policy (cd_config c))) 0) as El
    by (subst l; by rewrite Ec1).
  pose proof Hs as (Hinv & Hroom & Hh & Hrec).
  destruct (listed_all _ _ Hinv Hmax) as (Hnd & Hall & Hlen). rewrite <- El in *.
  assert (Es2 : cd_store (cw_coordinator w2) = cd_store c) by (by rewrite Ec2).
  apply ends_recover_records; [by eapply undisturbed_next|rewrite Es2; split_and!; try done|done| |].
  - unfold room_for in *. lia.
  - rewrite Es2. intros r Hr. assert (ms_records (cd_store c) !! m_id r = Some r) as E by (by apply Hall).
    split; [done|]. by eapply Hmv.
  - rewrite Es2. intros w3 s3 Hw3 Ec3 (Hinv3 & _) Hf3 Hout Hin. apply (HQ w3 s3); try done.
    + by rewrite Ec3, Ec2.
    + intros id Hid. rewrite Hout; [done|]. intros (r & -> & Hr)%list_elem_of_fmap.
      assert (ms_records (cd_store c) !! m_id r = Some r) by (by apply Hall). congruence.
    + intros id r Hr. apply Hall in Hr as [Hr <-]. by apply Hin.
Qed.
End recovery.

(** ** Start *)

Lemma next_epoch_ok s : store_inv s -> in_u 64 (next_epoch s) /\ next_epoch s <> 0.
Proof.
  intros Hs. unfold next_epoch, load_coordinator_state.
  destruct (ms_coordinator_state s) as [p|] eqn:E; [|done].
  destruct (ix_coord _ (si_index _ Hs) p E) as (He & _).
  destruct (Generation_next (cp_epoch p)) as [g|] eqn:Eg; [|done].
  destruct (Generation_next_Ok _ _ He Eg) as [-> Hg]. split; [done|]. unfold in_u in He. lia.
Qed.

Section restart.
Context {C P S : Type} `{!Connection C, !EntropySource S}.

(** A configuration [start] accepts. *)
Definition config_ok (config : CoordinatorConfig P) : Prop :=
  cc_endpoint_id config <> [] /\ length (cc_shared_secret config) = 32%nat /\
  cc_state_directory config <> [] /\ MovementPolicy_validate (cc_policy config) = Ok tt.

Lemma ends_start_up w (s : MovementStore) (Q : CWorld C P S -> Result unit -> Prop) config :
  undisturbed w -> cw_coordinator w = fresh_coordinator config s ->
  config_ok config -> array_is_zero (new_boot_id (cw_entropy w)).1 = false ->
  ready_store (zlen (ms_order s) + 1) s ->
  zlen (ms_order s) <= po_max_history_records (cc_policy config) ->
  (forall id r, ms_records s !! id = Some r -> is_terminal (m_state r) = false -> can_move r) ->
  (forall w' s' p i, cw_coordinator w' =
       set_store (set_topology (set_identity (fresh_coordinator config s) i)
                    (reset_dynamic_state (TopologyView_init i 1))) s' ->
     inc_epoch i = next_epoch s -> inc_endpoint i = cc_endpoint_id config ->
     store_inv s' -> ms_coordinator_state s' = Some p -> cp_epoch p = next_epoch s ->
     (forall id, ms_records s !! id = None -> ms_records s' !! id = None) ->
     (forall id r, ms_records s !! id = Some r ->
        exists r', ms_records s' !! id = Some r' /\ recovered r r') -> Q w' (Ok tt)) ->
  ends (start_up (Ok tt) (Ok tt)) w Q.
Proof.
  intros Hu Ec (Hname & Hsec & Hdir & Hpol) Hboot (Hinv & Hroom & Hh & Hrec) Hmax Hmv HQ.
  pose proof (next_epoch_ok s Hinv) as [He1 He2]. unfold start_up.
  apply ends_bind, ends_look; [done|]. rewrite Ec. intros w1 Hw1 Ec1 Ee1.
  assert (Hu1 : undisturbed w1) by (by eapply undisturbed_next).
  apply ends_bind, ends_issue. intros w2 Hw2 Ec2. rewrite Ec1 in Ec2.
  assert (Hu2 : undisturbed w2) by (by eapply undisturbed_next). rewrite Ee1.
  apply ends_bind, ends_look; [done|]. rewrite Ec2. intros w3 Hw3 Ec3 _.
  assert (Hu3 : undisturbed w3) by (by eapply undisturbed_next).
  set (i := mkIncarnation (cc_endpoint_id config) (new_boot_id (cw_entropy w)).1 (next_epoch s)).
  assert (Incarnation_make (cc_endpoint_id config) (new_boot_id (cw_entropy w)).1 (next_epoch s) = Ok i) as Ei.
  { unfold Incarnation_make, is_set. by rewrite (proj2 (Z.eqb_neq _ _) He2), (proj2 (bytes_eqb_neq _ _) Hname), Hboot. }
  cbn [cd_store fresh_coordinator cd_config]. apply ends_bind, ends_lift. rewrite Ei.
  apply ends_bind, ends_atomically; [done|]. rewrite Ec3. cbn [fst snd]. intros w4 Hw4 Ec4.
  assert (Hu4 : undisturbed w4) by (by eapply undisturbed_next).
  apply ends_bind, ends_now; [done|]. rewrite Ec4. intros w5 now Hw5 Ec5 Hn Hi.
  assert (Hu5 : undisturbed w5) by (by eapply undisturbed_next).
  apply ends_bind. unfold io_plan. unfold ends at 1. rewrite (un_io _ Hu5).
  set (p := mkPersistent (next_epoch s) 1 1 1 (PolicySet_digest (mkPolicySet 1 (cc_policy config))) now).
  assert (persistent_ok p) as Hp.
  { by split_and!. }
  assert (Hsr : sequence_room s) by (eapply (room_for_one (zlen (ms_order s) + 1)); [pose proof (zlen_nonneg (ms_order s)); lia|done]).
  destruct (save_step s p Hinv Hsr Hp) as (s1 & Hsave & Hinv1 & Hrec1 & Hord1 & Hco1 & Hopt1).
  pose proof (save_sequence s p s1 Hinv Hsr Hsave) as Hseq1.
  apply ends_bind, ends_atomically; [done|]. rewrite Ec5. cbn [cd_store cd_policy cd_compatibility_generation cd_topology
    set_identity fresh_coordinator ps_generation tv_generation TopologyView_init]. fold p.
  rewrite Hsave. cbn [fst snd]. intros w6 Hw6 Ec6.
  assert (Hu6 : undisturbed w6) by (by eapply undisturbed_next).
  apply ends_bind, ends_lift, ends_bind, ends_lift, ends_bind, ends_lift.
  assert (Es6 : cd_store (cw_coordinator w6) = s1) by (by rewrite Ec6).
  apply ends_recovery; rewrite ?Es6; [done| | | |].
  - split_and!; [done| | |].
    + unfold room_for in *. rewrite Hord1, Hseq1. lia.
    + unfold within_history. by rewrite Hrec1, Hopt1.
    + by rewrite Hopt1.
  - rewrite Ec6, Hord1. exact Hmax.
  - intros id r. rewrite Hrec1. apply Hmv.
  - rewrite Hrec1. intros w7 s7 Ec7 Hinv7 (_ & Hco7 & _) Hnone Hsome. apply (HQ w7 s7 p i); try done.
    + by rewrite Ec7, Ec6.
    + by rewrite Hco7, Hco1.
Qed.
End restart.

(** ** Properties *)


(** *** Witness *)

Definition demo_log_options : MovementStoreOptions := store_options demo_config.

Lemma demo_log_options_ok : options_ok demo_log_options.
Proof. split; [done|]. split; vm_compute; [split|]; congruence. Qed.

Definition demo_log : MovementStore := (store_put no_faults demo_new_log demo_planned).1.

Lemma demo_log_ready : store_inv demo_log /\ ms_records demo_log !! m_id demo_planned = Some demo_planned /\
  (forall id r, ms_records demo_log !! id = Some r -> r = demo_planned).
Proof.
  destruct (fresh_store demo_log_options demo_log_options_ok) as (s & rp & E & Hs & Hr & _).
  assert (demo_new_log = s) as Es by (unfold demo_new_log; fold demo_log_options; by rewrite E).
  destruct (put_step s demo_planned Hs) as (s' & Hp & Hs' & _ & _ & Hsub & Hall).
  - rewrite <- Es. vm_compute. reflexivity.
  - apply demo_planned_inv.
  - rewrite <- Es. vm_compute. congruence.
  - assert (demo_log = s') as -> by (unfold demo_log; by rewrite Es, Hp).
    rewrite Hr, insert_empty in *. split_and!; [done| |].
    + apply Hall; [by rewrite lookup_singleton_eq|by left].
    + intros id r H. eapply lookup_weaken in H; [|done]. by apply lookup_singleton_Some in H as [_ <-].
Qed.

