(* ===== verification/Authority.v ===== *)
(** * Decisions of the coordinator (submit, cancel, reconcile and the inventory
    of src/src/coordinator.cpp)

    When a submission is authorized, what an operator's cancellation and a
    reconciliation may make of a movement, and what the inventory of announced
    versions keeps. *)
From S2P Require Import Prelude Status Bytes Digest Codec Ids StateObject Provenance Movement MovementStore.
From S2P Require Import Framing Session Policy Topology Compatibility WireFields Wire Effect Links Coordinator.

(** ** What a put leaves in the index *)

Lemma append_keeps_index io s t p s' x : append_record io s t p = (s', x) -> ms_records s' = ms_records s.
Proof.
  unfold append_record. destruct (negb _); [by intros [= <- <-]|]. destruct (_ <? _); [by intros [= <- <-]|].
  destruct (io _); by intros [= <- <-].
Qed.

Lemma retire_keeps io s victims s' x id : retire_victims io s victims = (s', x) -> id ∉ victims ->
  ms_records s' !! id = ms_records s !! id.
Proof.
  revert s. induction victims as [|v victims IH]; intros s H Hn; cbn [retire_victims] in H; [by injection H as <- _|].
  apply not_elem_of_cons in Hn as [Hv Hn].
  destruct (append_record _ _ _ _) as [s1 [u|e]] eqn:Ea; apply append_keeps_index in Ea.
  - rewrite (IH _ H Hn). simpl. rewrite Ea. by rewrite lookup_delete_ne.
  - injection H as <- _. by rewrite Ea.
Qed.

(** A put that succeeds is visible while the movement is active. *)
Lemma put_visible io s r s' x : store_put io s r = (s', Ok x) -> is_terminal (m_state r) = false ->
  ms_records s' !! m_id r = Some r.
Proof.
  unfold store_put. destruct (MovementRecord_validate r); [|done].
  destruct (append_record _ _ _ _) as [s1 [u|e]] eqn:Ea; [|done]. apply append_keeps_index in Ea.
  destruct (enforce_retention io (index_put s1 r)) as [s3 [u3|e]] eqn:Er; [|done]. intros [= <-] Ht. simpl.
  assert (Hi : ms_records (index_put s1 r) !! m_id r = Some r) by (simpl; apply lookup_insert_eq).
  revert Er. unfold enforce_retention. repeat (destruct (_ =? _) || destruct (_ <=? _)); try (by intros [= <-]).
  intros Er. rewrite (retire_keeps _ _ _ _ _ _ Er); [done|]. intros Hin.
  destruct (retention_victims_spec (ms_records (index_put s1 r)) (ms_order (index_put s1 r))
    (Z.to_nat (map_size (ms_records (index_put s1 r)) - so_retention_completed (ms_options (index_put s1 r)))))
    as [Hf _]. rewrite list.Forall_forall in Hf. destruct (Hf _ Hin) as (_ & r0 & Hr0 & Hterm). congruence.
Qed.

(** An accepted event is the new last one. *)
Lemma append_kinds c e c' u : chain_append_event c e = (c', Ok u) ->
  ev_kind <$> pc_events c' = (ev_kind <$> pc_events c) ++ [ev_kind e].
Proof.
  unfold chain_append_event. destruct (_ <=? _); [done|].
  assert (forall e0, (if negb (ev_sequence e0 =? next_sequence c)
            then (c, fail RC.STORE_RECORD_INVALID "provenance events must be appended with contiguous sequences")
            else match ProvenanceEvent_validate e0 with
                 | Err s => (c, Err s) | Ok _ => (mkChain (pc_events c ++ [e0]) (pc_bound c), Ok tt) end) = (c', Ok u) ->
          ev_kind <$> pc_events c' = (ev_kind <$> pc_events c) ++ [ev_kind e0]) as Hgen.
  { intros e0. destruct (negb _); [done|]. destruct (ProvenanceEvent_validate e0); [|done].
    intros [= <- _]. cbn [pc_events]. by rewrite fmap_app. }
  intros H. apply Hgen in H. rewrite H. by destruct (ev_sequence e =? 0).
Qed.

Lemma apply_kinds r next d k now r' u : apply_transition r next d k now = (r', Ok u) ->
  ev_kind <$> pc_events (m_provenance r') = (ev_kind <$> pc_events (m_provenance r)) ++ [k].
Proof.
  unfold apply_transition. destruct (check_transition (m_state r) next) as [[]|]; [|done].
  destruct (Generation_next (m_generation r)) as [g|]; [|done].
  destruct (chain_append_event _ _) as [chain st] eqn:E. intros [= <- ->]. by apply append_kinds in E.
Qed.

Lemma apply_count r next d k now r' u : apply_transition r next d k now = (r', Ok u) ->
  m_attempt_count r' = m_attempt_count r.
Proof.
  unfold apply_transition. destruct (check_transition (m_state r) next) as [[]|]; [|done].
  destruct (Generation_next (m_generation r)) as [g|]; [|done].
  destruct (chain_append_event _ _) as [chain st]. by intros [= <- ->].
Qed.

(** ** Submission *)

Section authority.
Context {C P S : Type} `{!Connection C, !EntropySource S, !CompatibilityProvider P}.
Implicit Types w : CWorld C P S.

(** The compatibility judgement under which a movement may be authorized. *)
Definition compatible (c : Coordinator C P) (object : StateObjectDescriptor) (destination : bytes) : Prop :=
  match cd_compatibility c with
  | None => True
  | Some p =>
      let required := po_require_compatibility_evidence (cc_policy (cd_config c)) in
      match provider_query p object destination with
      | Err _ => required = false
      | Ok e => if applies_to e object destination
                then ev_verdict e = CV.SUPPORTED \/ (ev_verdict e = CV.UNKNOWN /\ required = false)
                else required = false
      end
  end.

(** Coordinators that differ at most in the compatibility generation. *)
Definition but_compatibility (c c' : Coordinator C P) : Prop :=
  exists g, c' = set_compatibility_generation c g.

Lemma set_compatibility_same (c : Coordinator C P) :
  set_compatibility_generation c (cd_compatibility_generation c) = c.
Proof. by destruct c. Qed.

Lemma from_compatibility object destination w0 c w (Q : CWorld C P S -> Result bytes -> Prop) :
  becomes w0 c [] w ->
  (forall w' c' note, but_compatibility c c' -> becomes w0 c' [] w' -> compatible c object destination ->
     Q w' (Ok note)) ->
  (forall w' c' e, but_compatibility c c' -> becomes w0 c' [] w' -> Q w' (Err e)) ->
  ends (check_compatibility (cc_policy (cd_config c)) object destination) w Q.
Proof.
  intros Hb Hok Herr. assert (but_compatibility c c) as Hc0 by (eexists; symmetry; apply set_compatibility_same).
  unfold check_compatibility. apply ends_bind, (from_look _ w0 c []); [done|]. intros w1 Hb1.
  assert (Hok1 : forall note, compatible c object destination -> Q w1 (Ok note)) by (intros; by apply (Hok _ _ _ Hc0)).
  assert (Herr1 : forall e, Q w1 (Err e)) by (intros; by apply (Herr _ _ _ Hc0)).
  unfold compatible in *. destruct (cd_compatibility c) as [p|]; [|by apply ends_ret, Hok1].
  destruct (provider_query p object destination) as [e|e].
  - destruct (applies_to e object destination); cbn [negb].
    + apply ends_bind, (from_change _ w0 c []); [done|]. intros w2 Hb2.
      assert (but_compatibility c (set_compatibility_generation c (ev_generation e))) as Hc2
        by (exists (ev_generation e); reflexivity).
      apply ends_bind, ends_reject; intros E1; b2p; [by apply (Herr _ _ _ Hc2)|].
      apply ends_bind, ends_reject; intros E2; [by apply (Herr _ _ _ Hc2)|].
      apply ends_ret. apply (Hok _ _ _ Hc2); [done|]. apply andb_false_iff in E2.
      destruct (ev_verdict e) eqn:Ev; [|by left|done]. right. destruct E2; b2p; done.
    + destruct (po_require_compatibility_evidence _) eqn:Er; [apply ends_lift, Herr1|]. by apply ends_ret, Hok1.
  - destruct (po_require_compatibility_evidence _) eqn:Er; [apply ends_lift, Herr1|]. by apply ends_ret, Hok1.
Qed.

(** What stands behind an accepted submission. *)
Record authorization (c : Coordinator C P) (request : SubmitMovement) (object : StateObjectDescriptor)
    (source destination : EndpointRegistration) : Prop := {
  au_running : cd_running c = true;
  au_request : SubmitMovement_validate request = Ok tt;
  au_object : cd_inventory c !! sm_object_id request = Some object;
  au_generation : d_generation object = sm_object_generation request;
  au_announcer : cd_inventory_source c !! sm_object_id request = Some (sm_source request);
  au_size : d_total_bytes object <= po_max_object_bytes (cc_policy (cd_config c));
  au_chunks : po_min_chunk_bytes (cc_policy (cd_config c)) <= d_chunk_bytes object
                <= po_max_chunk_bytes (cc_policy (cd_config c));
  au_source : topology_find (cd_topology c) (sm_source request) = Ok source;
  au_destination : topology_find (cd_topology c) (sm_destination request) = Ok destination;
  au_live : er_live source = true /\ er_live destination = true;
  au_compatible : compatible c object (sm_destination request) }.

(** The record of an authorized submission. *)
Record authorized_as (c : Coordinator C P) (request : SubmitMovement) (object : StateObjectDescriptor)
    (source destination : EndpointRegistration) (r : MovementRecord) : Prop := {
  as_state : m_state r = MS.AUTHORIZED;
  as_generation : m_generation r = 2;
  as_object : m_object r = object;
  as_ends : m_source r = sm_source request /\ m_destination r = sm_destination request;
  as_incarnations : m_source_incarnation r = er_incarnation source /\
                    m_destination_incarnation r = er_incarnation destination;
  as_topology : m_topology_generation r = tv_generation (cd_topology c);
  as_policy : m_policy_generation r = ps_generation (cd_policy c);
  as_fresh : m_attempt_count r = 0 /\ m_cancel_requested r = false;
  as_valid : MovementRecord_validate r = Ok tt;
  as_history : ev_kind <$> pc_events (m_provenance r) = [PK.CREATED; PK.AUTHORIZED] }.

Lemma announced_Ok (c : Coordinator C P) request object : announced c request = Ok object ->
  cd_inventory c !! sm_object_id request = Some object /\ d_generation object = sm_object_generation request /\
  cd_inventory_source c !! sm_object_id request = Some (sm_source request).
Proof.
  unfold announced. destruct (cd_inventory c !! _) as [found|]; [|done].
  destruct (negb (d_generation found =? sm_object_generation request)) eqn:E1; [done|].
  destruct (negb (bool_decide (cd_inventory_source c !! _ = _))) eqn:E2; [done|]. b2p.
  intros H. injection H as <-. done.
Qed.

Lemma put_valid io s r s' x : store_put io s r = (s', Ok x) -> MovementRecord_validate r = Ok tt.
Proof. unfold store_put. by destruct (MovementRecord_validate r) as [[]|]. Qed.

(** What submission leaves alone, whatever it decides. *)
Definition untouched (c c' : Coordinator C P) : Prop :=
  cd_inventory c' = cd_inventory c /\ cd_topology c' = cd_topology c /\ cd_links c' = cd_links c /\
  cd_running c' = cd_running c.

Lemma admit_ends request w c (Q : CWorld C P S -> Result _ -> Prop) :
  becomes w c [] w ->
  (forall w' e, becomes w c [] w' -> Q w' (Err e)) ->
  (forall w' object source destination, becomes w c [] w' ->
     (compatible c object (sm_destination request) -> authorization c request object source destination) ->
     Q w' (Ok (object, source, destination))) ->
  ends (admit_request request) w Q.
Proof.
  intros Hb Herr Hok. unfold admit_request, require_running.
  apply ends_bind, ends_bind, (from_look _ w c []); [done|]. intros w1 Hb1. clear Hb.
  apply ends_reject; intros Erun; [by apply Herr|]. b2p.
  apply ends_bind, ends_lift. destruct (SubmitMovement_validate request) as [[]|e] eqn:Ereq; [|by apply Herr].
  apply ends_bind, ends_bind, (from_look _ w c []); [done|]. intros w2 Hb2. clear Hb1.
  apply ends_lift. destruct (announced c request) as [object|e] eqn:Eann; [|by apply Herr].
  apply announced_Ok in Eann as (Einv & Egen & Esrc).
  apply ends_bind, (from_look _ w c []); [done|]. intros w3 Hb3. clear Hb2.
  apply ends_bind, ends_reject; intros Esz; [by apply Herr|].
  apply ends_bind, ends_reject; intros Ech; [by apply Herr|]. b2p.
  apply ends_bind, ends_bind, (from_look _ w c []); [done|]. intros w4 Hb4. clear Hb3.
  apply ends_lift. destruct (topology_find (cd_topology c) (sm_source request)) as [source|e] eqn:Es; [|by apply Herr].
  apply ends_bind, ends_bind, (from_look _ w c []); [done|]. intros w5 Hb5. clear Hb4.
  apply ends_lift. destruct (topology_find (cd_topology c) (sm_destination request)) as [dest|e] eqn:Ed; [|by apply Herr].
  apply ends_bind, ends_reject; intros Elive; [by apply Herr|]. b2p.
  apply ends_ret, Hok; [done|]. intros Hcomp. by constructor; try lia.
Qed.

(** The two records a submission stores: [planned], then [r]. *)
Definition stored_as (planned r : MovementRecord) : Prop :=
  moved MS.AUTHORIZED planned r /\ m_attempt_count r = m_attempt_count planned /\
  MovementRecord_validate r = Ok tt /\
  ev_kind <$> pc_events (m_provenance r) = (ev_kind <$> pc_events (m_provenance planned)) ++ [PK.AUTHORIZED].

Lemma authorize_ends planned note w0 c w (Q : CWorld C P S -> Result _ -> Prop) : becomes w0 c [] w ->
  (forall w' c' es e, untouched c c' -> cd_queue c' = cd_queue c -> becomes w0 c' es w' -> Q w' (Err e)) ->
  (forall w' c' r, untouched c c' -> stored_as planned r -> ms_records (cd_store c') !! m_id planned = Some r ->
     cd_queue c' = cd_queue c ++ [m_id planned] -> becomes w0 c' [Stored r true; Stored planned true] w' ->
     Q w' (Ok (mkMovementAccepted (m_id planned) MS.AUTHORIZED RC.OK note))) ->
  ends (authorize planned note) w Q.
Proof.
  intros Hb Herr Hok. unfold authorize.
  apply ends_bind, ends_lift. destruct (MovementRecord_validate planned) as [[]|e] eqn:Ev; [|by (eapply Herr; [| |eassumption])].
  apply ends_bind, (from_persist _ w0 c []); [done|]. intros w1 s1 [u1|e] Hp1 Hb1; [|by (eapply Herr; [| |eassumption])].
  apply ends_bind, (from_now w0 (set_store c s1) [Stored planned true]); [done|]. intros w2 now Hb2. clear Hb1.
  destruct (apply_transition _ _ _ _ _) as [r [u|e]] eqn:Ea.
  2: { apply ends_bind, (from_change _ w0 (set_store c s1) [Stored planned true]); [done|]. intros w3 Hb3.
       apply ends_lift. by (eapply Herr; [| |eassumption]). }
  pose proof (apply_moved _ _ _ _ _ _ _ Ea) as Hm. pose proof Hm as (_ & Hs & _ & Hi & _).
  assert (m_id r = m_id planned) as Hid by (unfold movement_identity in Hi; congruence).
  apply ends_bind, (from_persist _ w0 (set_store c s1) [Stored planned true]); [done|].
  intros w3 s3 [u3|e] Hp3 Hb3; [|by (eapply Herr; [| |eassumption])].
  apply ends_bind, (from_change _ w0 (set_store (set_store c s1) s3) [Stored r true; Stored planned true]); [done|].
  intros w4 Hb4. apply ends_bind.
  eapply from_change; [exact Hb4|]. intros w5 Hb5. apply ends_ret. rewrite Hid in Hb5 |- *. rewrite Hs.
  eapply (Hok _ _ r); [..|exact Hb5]; [done| |simpl|done].
  - split; [done|]. split; [by apply (apply_count _ _ _ _ _ _ _ Ea)|]. split; [by eapply put_valid|].
    by apply (apply_kinds _ _ _ _ _ _ _ Ea).
  - rewrite <- Hid. eapply put_visible; [exact Hp3|]. by rewrite Hs.
Qed.

Lemma submit_ends request w : quiet w ->
  ends (submit request) w (fun w' x =>
    let c := cw_coordinator w in let c' := cw_coordinator w' in untouched c c' /\
    match x with
    | Err _ => cd_queue c' = cd_queue c
    | Ok acc =>
        exists object source destination planned r, authorization c request object source destination /\
          authorized_as c request object source destination r /\ m_id r = ma_movement_id acc /\
          ma_state acc = MS.AUTHORIZED /\ ms_records (cd_store c') !! ma_movement_id acc = Some r /\
          cd_queue c' = cd_queue c ++ [ma_movement_id acc] /\
          m_state planned = MS.PLANNED /\ m_id planned = m_id r /\
          cw_events w' = [Stored r true; Stored planned true] ++ cw_events w
    end).
Proof.
  intros Hq. set (Q := fun w' x => _). set (c := cw_coordinator w) in *.
  assert (Herr : forall w' c' es e, untouched c c' -> cd_queue c' = cd_queue c -> becomes w c' es w' -> Q w' (Err e)).
  { intros w' c' es e H1 H2 (_ & _ & Hc & _). subst Q. cbn beta. by rewrite Hc. }
  assert (untouched c c) as Hc0 by done.
  pose proof (becomes_refl w Hq) as Hb. fold c in Hb. unfold submit.
  apply ends_bind, (admit_ends request w c); [done|intros; by (eapply Herr; [| |eassumption])|].
  intros w1 object source destination Hb1 Hauth. clear Hb.
  apply ends_bind, (from_look _ w c []); [done|]. intros w2 Hb2. clear Hb1.
  apply ends_bind, (from_compatibility object (sm_destination request) w c); [done| |].
  2: { intros w3 c3 e [g ->] Hb3. by (eapply Herr; [| |eassumption]). }
  intros w3 c3 note [g ->] Hb3 Hcomp. specialize (Hauth Hcomp).
  set (c3 := set_compatibility_generation c g) in *.
  apply ends_bind, (from_issue _ w c3 []); [done|]. intros w4 s Hb4.
  do 3 (apply ends_bind; eapply from_look; [eassumption|]; intros ? ?).
  apply ends_bind. eapply from_now; [eassumption|]. intros w8 now Hb8.
  destruct (chain_append _ _ _ _ _ _ _) as [chain [u|e]] eqn:Ec.
  2: { apply ends_bind, ends_lift. by (eapply Herr; [| |eassumption]). }
  apply ends_bind, ends_lift. eapply authorize_ends; [exact Hb8|intros; by (eapply Herr; [| |eassumption])|].
  intros w9 c9 r Hun (Hm & Hcount & Hv & Hk) Hrec Hqueue (_ & _ & Hc & He).
  subst Q. cbn beta. rewrite Hc. split; [done|].
  destruct Hm as (_ & Hst & Hg & Hi & _). unfold movement_identity in Hi.
  injection Hi as Hi1 Hi2 Hi3 Hi4 Hi5 Hi6 Hi7 Hi8 Hi9 Hi10 Hi11. injection Hg as Hg.
  eexists object, source, destination, _, r. split; [done|]. split.
  { constructor; try done; try congruence.
    rewrite Hk. apply append_kinds in Ec. unfold with_decision at 1. cbn [m_provenance]. by rewrite Ec. }
  split_and!; [| | | | | |exact He]; (done || congruence || idtac).
Qed.

(** ** What a thread stores and is answered *)

(** The events of a thread without what it sent, and the protocol that keeps
    them: the phase is what has been noted so far, newest first. *)
Definition noted (es : list Event) : list Event :=
  List.filter (fun e => match e with Sent _ _ _ _ => false | _ => true end) es.
Definition notes (p : list Event) (e : Event) (q : list Event) : Prop := q = noted [e] ++ p.

Lemma noted_app es fs : noted (es ++ fs) = noted es ++ noted fs.
Proof. apply List.filter_app. Qed.

Lemma notes_steps p es q : steps notes p es q -> q = noted (rev es) ++ p.
Proof.
  induction 1 as [p|p e es q r -> _ IH]; [done|]. rewrite IH. cbn [rev].
  by rewrite noted_app, <- app_assoc.
Qed.

Lemma leads_noted {A} (m : Eff (CWorld C P S) A) (Q : Result A -> list Event -> Prop) :
  leads cw_events notes m [] Q ->
  forall w, exists es, cw_events (m w).1 = es ++ cw_events w /\ Q (m w).2 (noted es).
Proof.
  intros H w. destruct (H w) as (es & q & He & Hs & HQ). exists (rev es). split; [done|].
  apply notes_steps in Hs. by rewrite app_nil_r in Hs; subst q.
Qed.

Abbreviation answers := (Forall (fun ev => match ev with Answered _ _ => True | _ => False end)).

(** ** Reconciliation *)

(** The outcome a destination's report proves. *)
Definition proves (report : AuthorityReport) (r : MovementRecord) : Prop :=
  (m_state r = MS.COMMITTED /\ ap_marker_present report = true /\ ap_authoritative report = true /\
   ap_verified report = true /\ m_commit_marker_digest r = ap_marker_digest report /\
   m_destination_verified_digest r = d_content_digest (m_object r)) \/
  (m_state r = (if m_cancel_requested r then MS.CANCELLED else MS.FAILED) /\ ap_marker_present report = false).

(** What reconciliation noted when it ended with [x]. *)
Definition reconciled (x : Result MovementRecord) (es : list Event) : Prop :=
  (exists e, x = Err e /\ answers es) \/
  exists r b frame report,
    es = [Stored r b; Answered (key_for MT.AUTHORITY_REPORT (to_hex (m_id r))) frame] /\
    decode_message AuthorityReport frame = Ok report /\ proves report r /\
    match x with Ok r' => b = true /\ r' = r | Err _ => b = false end.

Lemma moved_identity next r r' : moved next r r' -> m_state r' = next /\ m_id r' = m_id r /\
  m_object r' = m_object r /\ m_cancel_requested r' = m_cancel_requested r.
Proof. intros (_ & H & _ & Hi & _). unfold movement_identity in Hi. split_and!; congruence. Qed.

Lemma leads_store_resolution r k p (Q : Result MovementRecord -> list Event -> Prop) :
  Q (Ok r) (Stored r true :: p) -> (forall e, Q (Err e) (Stored r false :: p)) ->
  leads cw_events notes (eff_bind (persist r) (fun _ => eff_bind (count k) (fun _ => eff_ret r))
                         : Eff (CWorld C P S) MovementRecord) p Q.
Proof.
  intros Hok Herr. apply leads_bind.
  apply (follows_persist _ _ (Stored r true :: p) (Stored r false :: p)); [done| |done|done].
  by apply leads_bind, follows_count, leads_ret.
Qed.

Lemma reconciled_by x r b f report id : m_id r = id -> decode_message AuthorityReport f = Ok report ->
  proves report r -> match x with Ok r' => b = true /\ r' = r | Err _ => b = false end ->
  reconciled x [Stored r b; Answered (key_for MT.AUTHORITY_REPORT (to_hex id)) f].
Proof. intros <- Hr Hp Hx. right. by exists r, b, f, report. Qed.

Lemma reconcile_follows id :
  leads cw_events notes (reconcile id : Eff (CWorld C P S) MovementRecord) [] reconciled.
Proof.
  unfold reconcile, require_running, stored.
  assert (Herr : forall e es, answers es ->
            reconciled (Err e) es) by (intros; left; eauto).
  apply leads_bind, leads_bind, follows_atomically. intros running.
  apply follows_reject; intros _; [intros e; by apply Herr|].
  apply leads_bind, leads_bind, follows_atomically. intros [r0|e]; apply leads_pure; [|by apply Herr].
  destruct (negb _); [by apply leads_pure, Herr|]. apply leads_bind, follows_count.
  apply leads_bind, leads_try, follows_link. intros [l|e]; [|by apply leads_pure, Herr].
  apply leads_bind, leads_try.
  apply (follows_request _ _ _ _ [] [] (fun f => [Answered (key_for MT.AUTHORITY_REPORT (to_hex (m_id r0))) f]));
    [done|done| | |]; try (intros e; by apply leads_pure, Herr).
  intros f r [->|[e ->]]; [|apply leads_pure, Herr; by repeat constructor].
  apply leads_bind, leads_pure. destruct (decode_message AuthorityReport f) as [report|e] eqn:Er;
    [|apply Herr; by repeat constructor].
  destruct (ap_marker_present report) eqn:Em; cbn [andb negb].
  1: destruct (ap_authoritative report) eqn:E1; cbn [andb]; [destruct (ap_verified report) eqn:E2|];
       [|apply leads_pure, Herr; by repeat constructor..].
  all: apply leads_bind, follows_now; intros now; destruct (apply_transition _ _ _ _ _) as [r1 [u|e]] eqn:Ea;
    apply leads_bind, leads_pure; [|apply Herr; by repeat constructor].
  all: apply apply_moved, moved_identity in Ea as (Hs & Hid & Ho & Hx); apply leads_store_resolution;
    [|intros e]; (eapply reconciled_by; [exact Hid|exact Er| |done]); unfold proves; rewrite ?Hx; auto 10.
Qed.
(** ** Cancellation *)

(** What cancellation noted when it ended with [x]. *)
Definition cancelled (x : Result MovementRecord) (es : list Event) : Prop :=
  match x with
  | Ok r => exists es' r0, es = Stored r true :: es' /\ answers es' /\ is_terminal (m_state r0) = false /\
                         moved MS.CANCELLED (with_cancel_requested r0) r
  | Err _ => answers es \/ exists es' r, es = Stored r false :: es' /\ answers es'
  end.

Lemma notify_follows r endpoint p (Q : Result unit -> list Event -> Prop) : answers p ->
  (forall q, answers q -> Q (Ok tt) q) ->
  leads cw_events notes (notify_cancel r endpoint : Eff (CWorld C P S) unit) p Q.
Proof.
  intros Hp HQ. unfold notify_cancel. apply leads_bind, leads_try, follows_link.
  intros [l|e]; [|by apply leads_ret, HQ]. apply leads_bind, leads_try.
  apply (follows_request _ _ _ _ p p (fun f => Answered (key_for MT.CANCEL_ACK (to_hex (m_id r))) f :: p));
    [done|done| | |]; try (intros e; by apply leads_ret, HQ).
  intros f x _. apply leads_ret, HQ. by constructor.
Qed.

Lemma cancel_follows id :
  leads cw_events notes (cancel id : Eff (CWorld C P S) MovementRecord) [] cancelled.
Proof.
  unfold cancel, require_running, stored.
  apply leads_bind, leads_bind, follows_atomically. intros running.
  apply follows_reject; intros _; [by left|].
  apply leads_bind, leads_bind, follows_atomically. intros [r0|e]; apply leads_pure; [|by left].
  destruct (is_terminal (m_state r0)) eqn:Et; [by apply leads_pure; left|].
  apply leads_bind, notify_follows; [done|]. intros p1 Hp1.
  apply leads_bind, notify_follows; [done|]. intros p2 Hp2.
  apply leads_bind, follows_now. intros now. destruct (apply_transition _ _ _ _ _) as [r [u|e]] eqn:Ea;
    apply leads_bind, leads_pure; [|by left].
  apply leads_store_resolution; [|intros e; right; by exists p2, r].
  exists p2, r0. split_and!; [done|done|done|]. by apply apply_moved in Ea.
Qed.

(** ** The inventory of announced versions *)

Definition announce_all (c : Coordinator C P) (anns : list (bytes * StateObjectDescriptor)) : Coordinator C P :=
  fold_left (fun c a => (announce c a.1 a.2).1) anns c.

(** One announcement: refused if a newer generation is known, else it is the
    version on offer, from the endpoint that announced it. *)
Lemma announce_cases (c : Coordinator C P) e d : let c' := (announce c e d).1 in
  (exists d0, cd_inventory c !! d_object_id d = Some d0 /\ d_generation d < d_generation d0 /\ c' = c) \/
  (forall d0, cd_inventory c !! d_object_id d = Some d0 -> d_generation d0 <= d_generation d) /\
  cd_inventory c' = <[d_object_id d := d]> (cd_inventory c) /\
  cd_inventory_source c' = <[d_object_id d := e]> (cd_inventory_source c).
Proof.
  unfold announce. destruct (cd_inventory c !! d_object_id d) as [d0|] eqn:E; [|by right].
  destruct (d_generation d <? d_generation d0) eqn:Eg; b2p; [by left; exists d0|].
  right. split_and!; [|done|done]. intros ? [= <-]. lia.
Qed.

Lemma announce_keeps (c : Coordinator C P) e d oid d0 : cd_inventory c !! oid = Some d0 ->
  exists d1, cd_inventory (announce c e d).1 !! oid = Some d1 /\ d_generation d0 <= d_generation d1.
Proof.
  intros H. destruct (announce_cases c e d) as [(? & _ & _ & ->)|(Hle & -> & _)]; [by exists d0|].
  destruct (decide (oid = d_object_id d)) as [->|]; [rewrite lookup_insert_eq|rewrite lookup_insert_ne by done];
    eauto with lia.
Qed.

Lemma announce_offers (c : Coordinator C P) e d : exists d1,
  cd_inventory (announce c e d).1 !! d_object_id d = Some d1 /\ d_generation d <= d_generation d1.
Proof.
  destruct (announce_cases c e d) as [(d0 & H & Hlt & ->)|(_ & -> & _)]; [exists d0; by split; [|lia]|].
  exists d. by rewrite lookup_insert_eq.
Qed.

Lemma announce_all_keeps anns : forall (c : Coordinator C P) oid d0, cd_inventory c !! oid = Some d0 ->
  exists d1, cd_inventory (announce_all c anns) !! oid = Some d1 /\ d_generation d0 <= d_generation d1.
Proof.
  induction anns as [|[e d] anns IH]; intros c oid d0 H; [by exists d0|].
  destruct (announce_keeps c e d oid d0 H) as (d1 & H1 & Hle).
  destruct (IH _ oid d1 H1) as (d2 & H2 & Hle2). exists d2. split; [exact H2|lia].
Qed.
End authority.

(** ** Properties *)


(** C5: (safety, ordering) An unknown outcome is resolved only with proof.  Whatever
    the endpoints, the disk and the other threads do, [reconcile] stores at most
    one record, right after an authority report for that movement that decodes:
    COMMITTED only if the report says a marker is present, authoritative and
    verified, with the reported marker digest, and FAILED (or CANCELLED, if that
    was requested) only if it says there is no marker.  It succeeds exactly when
    that record was stored. *)
Theorem reconcile_needs_proof {C P S : Type} `{!Connection C, !EntropySource S}
    (id : bytes) (w : CWorld C P S) :
  exists es, cw_events (reconcile id w).1 = es ++ cw_events w /\ reconciled (reconcile id w).2 (noted es).
Proof. apply leads_noted, reconcile_follows. Qed.

(** (functional, error) Cancellation, in every world: it succeeds exactly when
    it stored, as the last thing it did, the movement's record moved by a legal
    transition from a state that was not terminal to CANCELLED, with the
    cancellation on record; otherwise nothing was stored. *)
Theorem cancel_outcome {C P S : Type} `{!Connection C, !EntropySource S} (id : bytes) (w : CWorld C P S) :
  exists es, cw_events (cancel id w).1 = es ++ cw_events w /\ cancelled (cancel id w).2 (noted es).
Proof. apply leads_noted, cancel_follows. Qed.

(** (invariant) The inventory offers the newest announced version.  After any
    sequence of announcements an object that was on offer still is, with a
    generation at least as new; every announced version is on offer or has been
    overtaken by a newer one; and what is on offer was there before or is one of
    the announcements, credited to the endpoint that made it. *)
Theorem inventory_offers_newest {C P : Type} (c : Coordinator C P) (anns : list (bytes * StateObjectDescriptor))
    (oid : bytes) :
  let c' := announce_all c anns in
  (forall d0, cd_inventory c !! oid = Some d0 ->
     exists d, cd_inventory c' !! oid = Some d /\ d_generation d0 <= d_generation d) /\
  (forall e d0, (e, d0) ∈ anns -> d_object_id d0 = oid ->
     exists d, cd_inventory c' !! oid = Some d /\ d_generation d0 <= d_generation d) /\
  (forall d, cd_inventory c' !! oid = Some d ->
     (cd_inventory c !! oid = Some d /\ cd_inventory_source c' !! oid = cd_inventory_source c !! oid) \/
     exists e, (e, d) ∈ anns /\ cd_inventory_source c' !! oid = Some e).
Proof.
  split_and!; [apply announce_all_keeps| |]; revert c; induction anns as [|[e d] anns IH]; intros c.
  - by intros ? ? ?%elem_of_nil.
  - intros e0 d0 [[= -> ->]|Hin]%elem_of_cons Hid; [|by apply (IH _ e0 d0)]. subst oid.
    destruct (announce_offers c e d) as (d1 & H1 & Hle).
    destruct (announce_all_keeps anns _ _ _ H1) as (d2 & H2 & Hle2). exists d2. split; [exact H2|lia].
  - by left.
  - intros d0 H. destruct (IH _ d0 H) as [[H1 H2]|(e1 & H1 & H2)].
    2: { right. exists e1. split; [by apply list_elem_of_further|exact H2]. }
    cbn [announce_all fold_left fst snd] in H1, H2 |- *. unfold announce_all in *. rewrite H2.
    destruct (announce_cases c e d) as [(? & _ & _ & Ec)|(_ & Ei & Es)]; [rewrite Ec in H1 |- *; left; by split|].
    rewrite Ei in H1. rewrite Es. destruct (decide (oid = d_object_id d)) as [->|].
    + rewrite lookup_insert_eq in H1. rewrite lookup_insert_eq. injection H1 as <-. right. exists e.
      split; [apply list_elem_of_here|done].
    + rewrite lookup_insert_ne in H1 by done. rewrite lookup_insert_ne by done. by left.
Qed.

(** *** Witnesses *)

Definition demo_submission : SubmitMovement :=
  mkSubmitMovement (d_object_id demo_descriptor) 1 (lit "alpha") (lit "beta").
Definition demo_idle : CWorld Pipe CompatibilityRegistry DeterministicEntropy :=
  demo_world demo_new_log (fun _ c => c).


(** (error) Cancellation resolves an unknown outcome without any proof: a
    movement that may have committed at a destination which cannot be reached
    is recorded as CANCELLED, and the record is all there is: nothing was sent
    to the destination and nothing was heard from it. *)
Theorem cancel_resolves_unknown_outcome :
  exists (w : CWorld Pipe CompatibilityRegistry DeterministicEntropy) id r,
    m_state <$> ms_records (cd_store (cw_coordinator w)) !! id = Some MS.OUTCOME_UNKNOWN /\
    (cancel id w).2 = Ok r /\ m_state r = MS.CANCELLED /\
    cw_events (cancel id w).1 = Stored r true :: cw_events w /\
    noted (cw_events (cancel id w).1) = [Stored r true].
Proof.
  pose (r0 := demo_movement MS.OUTCOME_UNKNOWN (lit "planned") demo_chain).
  pose (w0 := demo_world (store_put no_faults demo_new_log r0).1 (fun _ c => set_links c no_links)).
  exists w0, (m_id r0).
  destruct (leads_noted _ _ (cancel_follows (m_id r0)) w0) as (es & He & Hc).
  assert (is_ok (cancel (m_id r0) w0).2 = true) as Hok by (vm_compute; reflexivity).
  assert (length (cw_events (cancel (m_id r0) w0).1) = 1%nat) as Hl by (vm_compute; reflexivity).
  apply is_ok_Ok in Hok as [r Hr]. rewrite Hr in Hc. destruct Hc as (es' & r1 & Hn & _ & _ & _ & Hs & _).
  exists r. split; [vm_compute; reflexivity|]. split; [exact Hr|]. split; [exact Hs|].
  rewrite He in Hl |- *. rewrite length_app in Hl. clear Hr He. destruct es as [|e [|e2 es]]; [discriminate Hl| |simpl in Hl; lia].
  destruct e; [|discriminate Hn..]. injection Hn as -> -> _. split; reflexivity.
Qed.
