(* ===== verification/Driver.v ===== *)
(** * The movement engine (drive_movement, verify_destination and worker_loop of
    src/src/coordinator.cpp)

    A worker takes a movement from AUTHORIZED to an end: it grants the transfer
    to both endpoints, has the destination execute it, believes an attempt only
    after probing the destination and commits through the destination's commit
    barrier.  The record it works on is its own copy; every step that matters is
    stored before the next message goes out.  [movement_protocol] says what the
    engine may store and send in which order, and [drive_movement] is proved to
    follow it whatever the endpoints answer, the store's disk does and other
    threads change meanwhile. *)
From S2P Require Import Prelude Status Bytes Digest Codec Ids StateObject Provenance Movement MovementStore.
From S2P Require Import Framing Session Policy Topology Compatibility WireFields Wire Effect Links Coordinator.

Section driver.
Context {C P S : Type} `{!Connection C, !EntropySource S}.
#[local] Abbreviation Co := (Eff (CWorld C P S)).

(** ** Independent verification *)

Definition verify_key (record : MovementRecord) (index : Z) : bytes :=
  key_for MT.VERIFY_RESPONSE (to_hex (m_id record) ++ lit ":" ++ std_to_string index).

Definition verify_request (record : MovementRecord) (full : bool) (index : Z) : VerifyRequest :=
  mkVerifyRequest (m_id record) (m_generation record) (d_object_id (m_object record))
    (d_generation (m_object record)) full index (d_chunk_bytes (m_object record)).

(** The lambda [ask]. *)
Definition ask (l : nat) (record : MovementRecord) (full : bool) (index : Z) : Co VerifyResponse :=
  let$ answer := request l (verify_key record index) MT.VERIFY_REQUEST
                   (VerifyRequest_encode (verify_request record full index)) in
  let$ response := eff_lift (decode_message VerifyResponse answer) in
  eff_reject (negb (bytes_eqb (vr_movement_id response) (m_id record)) ||
              negb (bytes_eqb (vr_object_id response) (d_object_id (m_object record))) ||
              negb (vr_object_generation response =? d_generation (m_object record)))
    RC.STALE_ATTEMPT "a verification response named a different movement or object version" ;$
  (if bool_decide (vr_code response = RC.OK) then eff_ret tt
   else eff_lift (Err (mkStatus (vr_code response)
                         (lit "the destination refused a verification probe")))) ;$
  eff_ret response.

(** One sampled chunk, read back and hashed here. *)
Definition probe_chunk (l : nat) (record : MovementRecord) (index : Z) : Co unit :=
  let$ response := ask l record false index in
  let$ offset := eff_lift (chunk_offset (m_object record) index) in
  let$ length := eff_lift (chunk_length (m_object record) index) in
  eff_reject (negb (zlen (vr_chunk_payload response) =? length)) RC.BYTE_COUNT_MISMATCH
    "a sampled chunk came back with the wrong length" ;$
  let recomputed := compute_chunk_digest (d_object_id (m_object record)) (d_generation (m_object record))
                      index offset length (vr_chunk_payload response) in
  eff_reject (negb (bytes_eqb recomputed (vr_chunk_digest response))) RC.CHUNK_DIGEST_MISMATCH
    "a sampled chunk does not hash to the digest the destination reported" ;$
  count CT.verification_probes.

Fixpoint probe_chunks (l : nat) (record : MovementRecord) (sample : list Z) : Co unit :=
  match sample with
  | [] => eff_ret tt
  | index :: rest => probe_chunk l record index ;$ probe_chunks l record rest
  end.

Definition verify_destination (record : MovementRecord) : Co Digest :=
  let$ l := link_to (m_destination record) in
  let$ full := ask l record true 0 in
  eff_reject (negb (bytes_eqb (vr_stored_digest full) (d_content_digest (m_object record))))
    RC.CONTENT_DIGEST_MISMATCH
    "the destination's own full-content digest does not match the authorized one" ;$
  eff_reject (negb (vr_stored_bytes full =? d_total_bytes (m_object record))) RC.BYTE_COUNT_MISMATCH
    "the destination reports a different stored byte count" ;$
  let$ config := look cd_config in
  if negb (po_verify_sample_chunks (cc_policy config)) then eff_ret (vr_stored_digest full)
  else
    let wanted := if cc_verify_sample_chunks config =? 0 then 1 else cc_verify_sample_chunks config in
    probe_chunks l record (verification_sample (m_id record) (d_chunk_count (m_object record)) wanted) ;$
    eff_ret (vr_stored_digest full).

(** ** The engine *)

(** Why a movement stops: the arguments of the lambda [fail]. *)
Record Failure := mkFailure { fl_code : ReasonCode; fl_detail : bytes; fl_state : MovementState }.

Definition failure_kind (state : MovementState) : ProvenanceEventKind :=
  match state with
  | MS.CANCELLED => PK.CANCELLED
  | MS.SUPERSEDED => PK.SUPERSEDED
  | _ => PK.FAILED
  end.

Definition failure_counter (state : MovementState) : Counter :=
  match state with
  | MS.CANCELLED => CT.movements_cancelled
  | MS.SUPERSEDED => CT.movements_superseded
  | _ => CT.movements_failed
  end.

(** The lambda [fail] *)
Definition fail_movement (record : MovementRecord) (f : Failure) : Co unit :=
  let$ now := unix_millis in
  let '(record, applied) :=
    apply_transition record (fl_state f) (decision_deny (fl_code f) (fl_detail f))
      (failure_kind (fl_state f)) now in
  (match applied with
   | Ok _ => let$ _ := eff_try (persist record) in eff_ret tt
   | Err _ => eff_ret tt
   end) ;$
  count (failure_counter (fl_state f)) ;$
  eff_lift applied.

(** The grant of an attempt, before it is signed. *)
Definition grant_for (record : MovementRecord) (attempt nonce : bytes) (now : Z) : TransferGrant :=
  mkGrant (m_id record) (m_generation record) attempt (m_object record) (m_source record)
    (m_source_incarnation record) (m_destination record) (m_destination_incarnation record)
    (m_policy_generation record) nonce (d_total_bytes (m_object record))
    (d_chunk_count (m_object record)) now
    (if m_repeatable record then EC.REPEATABLE else EC.NON_REPEATABLE) zero_digest.

(** Delivery of the grant to one endpoint; [Some] is the failure it ends in. *)
Definition send_grant (l : nat) (grant : TransferGrant) : Co (option Failure) :=
  let$ answer := eff_try (request l (key_for MT.GRANT_ACK (to_hex (tg_grant_nonce grant)))
                            MT.GRANT_TRANSFER (GrantTransfer_encode (mkGrantTransfer grant))) in
  eff_ret
    match answer with
    | Err e => Some (mkFailure (st_code e) (lit "the grant could not be delivered: " ++ st_message e)
                       MS.FAILED)
    | Ok frame =>
        match decode_message GrantAck frame with
        | Err e => Some (mkFailure (st_code e) (st_message e) MS.FAILED)
        | Ok ack => if bool_decide (ga_code ack = RC.OK) then None
                    else Some (mkFailure (ga_code ack) (ga_detail ack) MS.FAILED)
        end
    end.

Definition result_key (record : MovementRecord) : bytes :=
  key_for MT.ATTEMPT_RESULT (to_hex (m_id record)).

(** [record.provenance.append], its status dropped. *)
Definition note (record : MovementRecord) (kind : ProvenanceEventKind) (code : ReasonCode) (now : Z)
    (detail : bytes) : MovementRecord :=
  with_decision record (m_last_reason record) (m_last_detail record)
    (chain_append (m_provenance record) kind (m_state record) (m_generation record) code now detail).1.

(** The loop that waits past completions of other attempts; [patience] is how
    many more it discards before it gives up, 4 at first. *)
Fixpoint await_result (patience : nat) (l : nat) (record : MovementRecord) (attempt : bytes)
    (promise : nat) : Co (MovementRecord * (Failure + AttemptResult)) :=
  let$ answer := eff_try (await l (result_key record) promise (lit "the attempt result")) in
  match answer with
  | Err e =>
      eff_ret (record, inl (mkFailure (st_code e)
        (lit "the destination never reported an outcome: " ++ st_message e) MS.OUTCOME_UNKNOWN))
  | Ok frame =>
      match decode_message AttemptResult frame with
      | Err e => eff_ret (record, inl (mkFailure (st_code e) (st_message e) MS.OUTCOME_UNKNOWN))
      | Ok result =>
          if negb (bytes_eqb (ar_movement_id result) (m_id record)) ||
             negb (bytes_eqb (ar_attempt result) attempt) then
            let$ now := unix_millis in
            let record := note record PK.STALE_REJECTED RC.STALE_ATTEMPT now
              (lit "discarded a completion that names a different movement or attempt") in
            match patience with
            | O | Datatypes.S O =>
                eff_ret (record, inl (mkFailure RC.STALE_ATTEMPT
                  (lit "only stale completions arrived for this attempt") MS.OUTCOME_UNKNOWN))
            | Datatypes.S patience =>
                let$ promise := reserve_on l (result_key record) in
                await_result patience l record attempt promise
            end
          else eff_ret (record, inr result)
      end
  end.

(** From the commit barrier on. *)
Definition commit_movement (l : nat) (record : MovementRecord) (attempt : bytes) : Co unit :=
  let commit := mkCommitRequest (m_id record) (m_generation record) attempt (m_object record)
                  (m_source record) in
  let$ answer := eff_try (request l (key_for MT.COMMIT_RESULT (to_hex (m_id record)))
                            MT.COMMIT_REQUEST (CommitRequest_encode commit)) in
  match answer with
  | Err e =>
      fail_movement record (mkFailure (st_code e)
        (lit "the commit barrier was requested but not answered: " ++ st_message e ++
         lit "; reconcile before retrying") MS.OUTCOME_UNKNOWN)
  | Ok frame =>
      match decode_message CommitResult frame with
      | Err e => fail_movement record (mkFailure (st_code e) (st_message e) MS.OUTCOME_UNKNOWN)
      | Ok committed =>
          if negb (bytes_eqb (cr_movement_id committed) (m_id record)) ||
             negb (cr_movement_generation committed =? m_generation record) then
            fail_movement record (mkFailure RC.STALE_MOVEMENT_GENERATION
              (lit "the commit result answered a different movement generation") MS.OUTCOME_UNKNOWN)
          else if negb (bool_decide (cr_code committed = RC.OK)) then
            fail_movement record (mkFailure (cr_code committed) (cr_detail committed) MS.FAILED)
          else
            let$ now := unix_millis in
            let '(record, status) :=
              apply_transition record MS.COMMITTED
                (decision_allow_with RC.OK (lit "the destination wrote and confirmed its commit marker"))
                PK.COMMITTED now in
            eff_lift status ;$
            persist (with_marker record (cr_marker_digest committed)) ;$
            count CT.movements_committed
      end
  end.

(** How an attempt went on after its bytes were reported: the movement is over,
    or it is retried with the record as it now is. *)
Inductive Progress : Type := Over | Retry (record : MovementRecord).

(** Verification and commit of an attempt whose bytes arrived. *)
Definition verify_and_commit (l : nat) (record : MovementRecord) (attempt : bytes)
    (attempt_number max_attempts : Z) : Co Progress :=
  let$ verified := eff_try (verify_destination record) in
  match verified with
  | Err e =>
      if max_attempts <=? attempt_number then
        fail_movement record (mkFailure (st_code e)
          (lit "independent verification failed on the last permitted attempt: " ++ st_message e)
          MS.FAILED) ;$
        eff_ret Over
      else
        let$ now := unix_millis in
        let record := note record PK.RETRY_SCHEDULED (st_code e) now
          (lit "independent verification refused the bytes: " ++ st_message e) in
        let$ _ := eff_try (persist record) in
        count CT.attempts_failed ;$
        eff_ret (Retry record)
  | Ok digest =>
      let$ now := unix_millis in
      let '(record, status) :=
        apply_transition record MS.VERIFIED
          (decision_allow_with RC.OK
             (lit "the coordinator re-hashed stored bytes and they match the authorized content digest"))
          PK.VERIFIED now in
      eff_lift status ;$
      let record := with_verified record digest in
      persist record ;$
      (if m_cancel_requested record then
         fail_movement record (mkFailure RC.CANCELLED_BY_OPERATOR
           (lit "cancelled at the commit barrier") MS.CANCELLED)
       else commit_movement l record attempt) ;$
      eff_ret Over
  end.

(** An attempt result that was believed. *)
Definition settle_attempt (l : nat) (record : MovementRecord) (attempt : bytes) (result : AttemptResult)
    (attempt_number max_attempts : Z) : Co Progress :=
  if bool_decide (ar_state result = MS.CANCELLED) then
    fail_movement record (mkFailure (ar_code result) (ar_detail result) MS.CANCELLED) ;$
    eff_ret Over
  else if negb (bool_decide (ar_state result = MS.BYTES_ARRIVED)) then
    let record := with_decision record (ar_code result) (ar_detail result) (m_provenance record) in
    if max_attempts <=? attempt_number then
      fail_movement record (mkFailure (ar_code result)
        (lit "the last permitted attempt failed: " ++ ar_detail result) MS.FAILED) ;$
      eff_ret Over
    else
      count CT.attempts_failed ;$
      let$ now := unix_millis in
      let record := note record PK.RETRY_SCHEDULED (ar_code result) now
                      (lit "retrying after: " ++ ar_detail result) in
      let$ _ := eff_try (persist record) in
      eff_ret (Retry record)
  else
    let$ now := unix_millis in
    let '(record, status) :=
      apply_transition record MS.BYTES_ARRIVED
        (decision_allow_with RC.OK (lit "the destination reports verified bytes (not authority)"))
        PK.BYTES_ARRIVED now in
    eff_lift status ;$
    let record := with_arrival record (ar_bytes result) (ar_chunks result) (ar_verified_digest result) in
    persist record ;$
    verify_and_commit l record attempt attempt_number max_attempts.

(** The attempt from the dispatch on: the result slot is reserved before the
    destination is asked to start. *)
Definition execute_attempt (l : nat) (record : MovementRecord) (attempt nonce : bytes)
    (attempt_number max_attempts : Z) : Co Progress :=
  let$ promise := reserve_on l (result_key record) in
  let execute := mkExecuteMovement (m_id record) (m_generation record) attempt nonce (m_source record) in
  let$ started := eff_try (push_to l MT.EXECUTE_MOVEMENT (ExecuteMovement_encode execute)) in
  match started with
  | Err e =>
      release_on l (result_key record) ;$
      fail_movement record (mkFailure (st_code e) (st_message e) MS.FAILED) ;$
      eff_ret Over
  | Ok _ =>
      let$ now := unix_millis in
      let '(record, status) :=
        apply_transition record MS.TRANSFERRING
          (decision_allow_with RC.OK (lit "attempt " ++ std_to_string attempt_number ++ lit " dispatched"))
          PK.ATTEMPT_STARTED now in
      match status with
      | Err e => release_on l (result_key record) ;$ eff_lift (Err e)
      | Ok _ =>
          persist record ;$
          let$ (record, outcome) := await_result 4 l record attempt promise in
          match outcome with
          | inl f => fail_movement record f ;$ eff_ret Over
          | inr result => settle_attempt l record attempt result attempt_number max_attempts
          end
      end
  end.

(** One turn of the attempt loop. *)
Definition run_attempt (source_link destination_link : nat) (record : MovementRecord)
    (attempt_number max_attempts : Z) : Co Progress :=
  if m_cancel_requested record then
    fail_movement record (mkFailure RC.CANCELLED_BY_OPERATOR (lit "cancelled between attempts")
      MS.CANCELLED) ;$
    eff_ret Over
  else
    let$ attempt := issue new_attempt_id in
    let$ now := unix_millis in
    let '(record, status) := record_attempt_started record attempt now in
    eff_lift status ;$
    persist record ;$
    let$ nonce := issue new_nonce in
    let$ now := unix_millis in
    let$ secret := look (fun c => cc_shared_secret (cd_config c)) in
    let '(grant, status) := sign secret (grant_for record attempt nonce now) in
    eff_lift status ;$
    let$ refused := send_grant source_link grant in
    match refused with
    | Some f => fail_movement record f ;$ eff_ret Over
    | None =>
        let$ refused := send_grant destination_link grant in
        match refused with
        | Some f => fail_movement record f ;$ eff_ret Over
        | None => execute_attempt destination_link record attempt nonce attempt_number max_attempts
        end
    end.

(** The attempt loop, at attempt [attempt_number] of [max_attempts] with [turns]
    turns to go. *)
Fixpoint attempt_loop (turns : nat) (source_link destination_link : nat) (record : MovementRecord)
    (attempt_number max_attempts : Z) : Co unit :=
  match turns with
  | O => fail_movement record (mkFailure RC.ATTEMPT_EXHAUSTED (lit "no attempts remain") MS.FAILED)
  | Datatypes.S turns =>
      let$ progress := run_attempt source_link destination_link record attempt_number max_attempts in
      match progress with
      | Over => eff_ret tt
      | Retry record =>
          attempt_loop turns source_link destination_link record (attempt_number + 1) max_attempts
      end
  end.

(** The checks between picking a movement up and its first attempt. *)
Definition precheck (record : MovementRecord) : Co (Failure + nat * nat) :=
  if m_cancel_requested record then
    eff_ret (inl (mkFailure RC.CANCELLED_BY_OPERATOR (lit "cancelled before the transfer started")
      MS.CANCELLED))
  else
    let$ source_link := eff_try (link_to (m_source record)) in
    match source_link with
    | Err e => eff_ret (inl (mkFailure RC.ENDPOINT_NOT_LIVE (st_message e) MS.FAILED))
    | Ok source_link =>
        let$ destination_link := eff_try (link_to (m_destination record)) in
        match destination_link with
        | Err e => eff_ret (inl (mkFailure RC.ENDPOINT_NOT_LIVE (st_message e) MS.FAILED))
        | Ok destination_link =>
            let$ current_source := look (fun c => topology_find (cd_topology c) (m_source record)) in
            let$ current_destination := look (fun c => topology_find (cd_topology c) (m_destination record)) in
            match current_source, current_destination with
            | Ok s, Ok d =>
                if negb (bool_decide (er_incarnation s = m_source_incarnation record)) ||
                   negb (bool_decide (er_incarnation d = m_destination_incarnation record))
                then eff_ret (inl (mkFailure RC.STALE_INCARNATION
                       (lit "an endpoint restarted after the movement was authorized") MS.SUPERSEDED))
                else eff_ret (inr (source_link, destination_link))
            | _, _ => eff_ret (inl (mkFailure RC.STALE_INCARNATION
                        (lit "an endpoint left the topology") MS.FAILED))
            end
        end
    end.

Definition drive_movement (id : bytes) : Co unit :=
  let$ record := stored id in
  if is_terminal (m_state record) || bool_decide (m_state record = MS.OUTCOME_UNKNOWN) then eff_ret tt
  else
    let$ checked := precheck record in
    match checked with
    | inl f => fail_movement record f
    | inr (source_link, destination_link) =>
        let$ max_attempts := look (fun c => po_max_attempts (cc_policy (cd_config c))) in
        attempt_loop (Z.to_nat max_attempts) source_link destination_link record 1 max_attempts
    end.

(** A turn of [worker_loop]: the next movement of the queue, if any. *)
Definition worker_turn : Co bool :=
  let$ next := atomically (fun c =>
    match cd_queue c with
    | [] => (c, None)
    | id :: rest => (set_queue c rest (cd_active_movements c), Some id)
    end) in
  match next with
  | None => eff_ret false
  | Some id =>
      change (fun c => set_queue c (cd_queue c) (wrap 32 (cd_active_movements c + 1))) ;$
      let$ _ := eff_try (drive_movement id) in
      change (fun c => set_queue c (cd_queue c) (wrap 32 (cd_active_movements c - 1))) ;$
      eff_ret true
  end.
End driver.

(** ** The protocol *)

(** [r'] is [r] with a further attempt. *)
Definition attempted (r r' : MovementRecord) : Prop :=
  is_terminal (m_state r) = false /\ m_state r' = m_state r /\
  Generation_next (m_generation r) = Ok (m_generation r') /\ movement_identity r' = movement_identity r.

(** [r'] is [r] with another line in its history. *)
Definition annotated (r r' : MovementRecord) : Prop :=
  m_state r' = m_state r /\ m_generation r' = m_generation r /\
  movement_identity r' = movement_identity r /\ m_attempt r' = m_attempt r.

(** A grant of the attempt of [r] under some key. *)
Definition grants (r : MovementRecord) (payload : bytes) : Prop :=
  exists key nonce now,
    let '(grant, status) := sign key (grant_for r (m_attempt r) nonce now) in
    status = Ok tt /\ payload = GrantTransfer_encode (mkGrantTransfer grant).

Definition grant_accepted (f : Frame) : Prop :=
  exists ack, decode_message GrantAck f = Ok ack /\ ga_code ack = RC.OK.

(** The completion of the current attempt. *)
Definition completion (r : MovementRecord) (f : Frame) (result : AttemptResult) : Prop :=
  decode_message AttemptResult f = Ok result /\ ar_movement_id result = m_id r /\
  ar_attempt result = m_attempt r.

(** The destination's answer about the whole object agrees with what was
    authorized. *)
Definition agrees (r : MovementRecord) (f : Frame) : Prop :=
  exists m, decode_message VerifyResponse f = Ok m /\ vr_movement_id m = m_id r /\
    vr_object_id m = d_object_id (m_object r) /\ vr_object_generation m = d_generation (m_object r) /\
    vr_code m = RC.OK /\ vr_stored_digest m = d_content_digest (m_object r) /\
    vr_stored_bytes m = d_total_bytes (m_object r).

(** An answer to this commit request, with its verdict. *)
Definition commit_answer (r : MovementRecord) (f : Frame) (m : CommitResult) : Prop :=
  decode_message CommitResult f = Ok m /\ cr_movement_id m = m_id r /\
  cr_movement_generation m = m_generation r.

Definition commit_request (r : MovementRecord) : bytes :=
  CommitRequest_encode (mkCommitRequest (m_id r) (m_generation r) (m_attempt r) (m_object r) (m_source r)).

Inductive Phase : Type :=
  | Idle (r : MovementRecord)
  | Granting (r : MovementRecord)
  | GrantSent (r : MovementRecord) (accepted : nat)
  | GrantAnswered (r : MovementRecord) (accepted : nat) (f : Frame)
  | Dispatched (r : MovementRecord)
  | Moving (r : MovementRecord)
  | Reported (r : MovementRecord) (f : Frame)
  | Arrived (r : MovementRecord)
  | Probing (r : MovementRecord)
  | Probed (r : MovementRecord) (f : Frame)
  | Sampling (r : MovementRecord)
  | Verified (r : MovementRecord)
  | Committing (r : MovementRecord)
  | CommitAnswered (r : MovementRecord) (f : Frame)
  | Closed.

(** While the destination's bytes are being checked, and once they are proved. *)
Inductive checking (r : MovementRecord) : Phase -> Prop :=
  | checking_arrived : checking r (Arrived r)
  | checking_probing : checking r (Probing r)
  | checking_probed f : checking r (Probed r f)
  | checking_sampling : checking r (Sampling r).

Inductive proved (r : MovementRecord) : Phase -> Prop :=
  | proved_whole f : agrees r f -> proved r (Probed r f)
  | proved_sampled : proved r (Sampling r).

Inductive stops (r : MovementRecord) : Phase -> MovementState -> Prop :=
  | stop_idle s : is_terminal s = true -> s <> MS.COMMITTED -> stops r (Idle r) s
  | stop_granting : stops r (Granting r) MS.FAILED
  | stop_grant_sent n : stops r (GrantSent r n) MS.FAILED
  | stop_grant_answered n f : stops r (GrantAnswered r n f) MS.FAILED
  | stop_dispatched : stops r (Dispatched r) MS.FAILED
  | stop_moving : stops r (Moving r) MS.OUTCOME_UNKNOWN
  | stop_silent f : stops r (Reported r f) MS.OUTCOME_UNKNOWN
  | stop_reported f result s : completion r f result -> ar_state result <> MS.BYTES_ARRIVED ->
      s = (if bool_decide (ar_state result = MS.CANCELLED) then MS.CANCELLED else MS.FAILED) ->
      stops r (Reported r f) s
  | stop_checking p : checking r p -> stops r p MS.FAILED
  | stop_verified : m_cancel_requested r = true -> stops r (Verified r) MS.CANCELLED
  | stop_doubt : stops r (Committing r) MS.OUTCOME_UNKNOWN
  | stop_unanswered : stops r (Verified r) MS.OUTCOME_UNKNOWN
  | stop_misanswered f : stops r (CommitAnswered r f) MS.OUTCOME_UNKNOWN
  | stop_refused f m : commit_answer r f m -> cr_code m <> RC.OK -> stops r (CommitAnswered r f) MS.FAILED.

(** The protocol of one movement over the links [src] and [dst].  An event that
    stores a record carries whether that succeeded: every step that goes on
    needs the store to have it. *)
Inductive movement_protocol (src dst : nat) : Phase -> Event -> Phase -> Prop :=
  | mp_begin r r' : attempted r r' -> movement_protocol src dst (Idle r) (Stored r' true) (Granting r')
  | mp_begin_lost r r' : attempted r r' -> movement_protocol src dst (Idle r) (Stored r' false) Closed
  | mp_grant r payload b : grants r payload ->
      movement_protocol src dst (Granting r) (Sent src MT.GRANT_TRANSFER payload b) (GrantSent r 0)
  | mp_grant_answer r n key f :
      movement_protocol src dst (GrantSent r n) (Answered key f) (GrantAnswered r n f)
  | mp_grant_next r payload b f : grant_accepted f -> grants r payload ->
      movement_protocol src dst (GrantAnswered r 0 f) (Sent dst MT.GRANT_TRANSFER payload b) (GrantSent r 1)
  | mp_dispatch r nonce b f : grant_accepted f ->
      movement_protocol src dst (GrantAnswered r 1 f)
        (Sent dst MT.EXECUTE_MOVEMENT
           (ExecuteMovement_encode (mkExecuteMovement (m_id r) (m_generation r) (m_attempt r) nonce (m_source r))) b)
        (Dispatched r)
  | mp_move r r' : moved MS.TRANSFERRING r r' ->
      movement_protocol src dst (Dispatched r) (Stored r' true) (Moving r')
  | mp_move_lost r r' : moved MS.TRANSFERRING r r' ->
      movement_protocol src dst (Dispatched r) (Stored r' false) Closed
  | mp_report r f : movement_protocol src dst (Moving r) (Answered (result_key r) f) (Reported r f)
  | mp_stale r r' f f' : annotated r r' -> (forall result, ~ completion r f result) ->
      movement_protocol src dst (Reported r f) (Answered (result_key r) f') (Reported r' f')
  | mp_arrive r r' f result : completion r f result -> ar_state result = MS.BYTES_ARRIVED ->
      moved MS.BYTES_ARRIVED r r' ->
      m_bytes_transferred r' = ar_bytes result -> m_chunks_verified r' = ar_chunks result ->
      m_destination_verified_digest r' = ar_verified_digest result ->
      movement_protocol src dst (Reported r f) (Stored r' true) (Arrived r')
  | mp_arrive_lost r r' f : moved MS.BYTES_ARRIVED r r' ->
      movement_protocol src dst (Reported r f) (Stored r' false) Closed
  | mp_retry_attempt r r' f result b : completion r f result -> ar_state result <> MS.BYTES_ARRIVED ->
      annotated r r' -> movement_protocol src dst (Reported r f) (Stored r' b) (Idle r')
  | mp_probe r l b :
      movement_protocol src dst (Arrived r)
        (Sent l MT.VERIFY_REQUEST (VerifyRequest_encode (verify_request r true 0)) b) (Probing r)
  | mp_probed r f : movement_protocol src dst (Probing r) (Answered (verify_key r 0) f) (Probed r f)
  | mp_sample p r l i b : proved r p ->
      movement_protocol src dst p
        (Sent l MT.VERIFY_REQUEST (VerifyRequest_encode (verify_request r false i)) b) (Sampling r)
  | mp_sampled r i f : movement_protocol src dst (Sampling r) (Answered (verify_key r i) f) (Sampling r)
  | mp_retry_bytes p r r' b : checking r p -> annotated r r' ->
      movement_protocol src dst p (Stored r' b) (Idle r')
  | mp_verify p r r' : proved r p -> moved MS.VERIFIED r r' ->
      m_source_verified_digest r' = d_content_digest (m_object r) ->
      movement_protocol src dst p (Stored r' true) (Verified r')
  | mp_verify_lost p r r' : proved r p -> moved MS.VERIFIED r r' ->
      movement_protocol src dst p (Stored r' false) Closed
  | mp_commit r b : m_cancel_requested r = false ->
      movement_protocol src dst (Verified r) (Sent dst MT.COMMIT_REQUEST (commit_request r) b) (Committing r)
  | mp_commit_answer r key f :
      movement_protocol src dst (Committing r) (Answered key f) (CommitAnswered r f)
  | mp_committed r r' f m b : commit_answer r f m -> cr_code m = RC.OK -> moved MS.COMMITTED r r' ->
      m_commit_marker_digest r' = cr_marker_digest m ->
      movement_protocol src dst (CommitAnswered r f) (Stored r' b) Closed
  | mp_stop p r r' s b : stops r p s -> moved s r r' -> movement_protocol src dst p (Stored r' b) Closed.

(** ** The engine follows the protocol *)

#[local] Arguments lit : simpl never.

Lemma started_attempted r a now r' u : record_attempt_started r a now = (r', Ok u) ->
  attempted r r' /\ m_attempt r' = a.
Proof.
  unfold record_attempt_started. destruct (is_terminal (m_state r)) eqn:Et; [done|].
  destruct (Generation_next (m_generation r)) as [g|] eqn:Eg; [|done].
  destruct (chain_append_event _ _) as [chain st]. intros [= <- ->]. by repeat split.
Qed.

Lemma annotated_refl r : annotated r r.
Proof. by repeat split. Qed.
Lemma annotated_trans r1 r2 r3 : annotated r1 r2 -> annotated r2 r3 -> annotated r1 r3.
Proof. unfold annotated. intros (?&?&?&?) (?&?&?&?). split_and!; congruence. Qed.
Lemma note_annotated r k c now d : annotated r (note r k c now d).
Proof. by repeat split. Qed.
Lemma annotated_moved s r0 r r' : annotated r0 r -> moved s r r' -> moved s r0 r'.
Proof. unfold annotated, moved. intros (E1&E2&E3&E4) (?&?&?&?&?). rewrite E1 in *. split_and!; congruence. Qed.
Lemma annotated_id r0 r : annotated r0 r -> m_id r = m_id r0.
Proof. intros (_ & _ & H & _). unfold movement_identity in H. congruence. Qed.
Lemma annotated_completion r0 r f x : annotated r0 r -> completion r f x -> completion r0 f x.
Proof.
  intros Ha (H1 & H2 & H3). pose proof (annotated_id _ _ Ha). destruct Ha as (_ & _ & _ & E).
  unfold completion. split_and!; congruence.
Qed.
#[local] Hint Resolve annotated_refl note_annotated : core.

Section follows.
Context {C P S : Type} `{!Connection C, !EntropySource S}.
Context (src dst : nat).
#[local] Abbreviation Co := (Eff (CWorld C P S)).
#[local] Abbreviation follows := (leads (cw_events (C:=C) (P:=P) (S:=S)) (movement_protocol src dst)).

(** *** Verification *)

Lemma follows_fail r0 r f p (Q : Result unit -> Phase -> Prop) :
  stops r0 p (fl_state f) -> annotated r0 r -> (forall x q, Q x q) -> follows (fail_movement r f) p Q.
Proof.
  intros Hs Ha HQ. unfold fail_movement. apply leads_bind, follows_now. intros now.
  destruct (apply_transition _ _ _ _ _) as [r' [u|e]] eqn:E.
  - apply apply_moved in E. pose proof (annotated_moved _ _ _ _ Ha E).
    apply leads_bind, leads_bind, leads_try. apply (follows_persist _ _ Closed Closed);
      try (by eapply mp_stop); intros; apply leads_ret, leads_bind, follows_count, leads_pure, HQ.
  - apply leads_bind, leads_ret, leads_bind, follows_count, leads_pure, HQ.
Qed.

(** The answer [ask] believes. *)
Definition believed (r : MovementRecord) (f : Frame) (m : VerifyResponse) : Prop :=
  decode_message VerifyResponse f = Ok m /\ vr_movement_id m = m_id r /\
  vr_object_id m = d_object_id (m_object r) /\ vr_object_generation m = d_generation (m_object r) /\
  vr_code m = RC.OK.

Lemma follows_ask l r full i p p1 (q : Frame -> Phase) (Q : Result VerifyResponse -> Phase -> Prop) :
  (forall b, movement_protocol src dst p
     (Sent l MT.VERIFY_REQUEST (VerifyRequest_encode (verify_request r full i)) b) p1) ->
  (forall f, movement_protocol src dst p1 (Answered (verify_key r i) f) (q f)) ->
  (forall e, Q (Err e) p) -> (forall e, Q (Err e) p1) -> (forall e f, Q (Err e) (q f)) ->
  (forall f m, believed r f m -> Q (Ok m) (q f)) -> follows (ask l r full i) p Q.
Proof.
  intros Hs Ha H1 H2 H3 Hok. unfold ask. apply leads_bind.
  apply (follows_request l (verify_key r i) _ _ p p1 q); try done.
  intros f x [->|[e ->]]; [|done]. apply leads_bind, leads_pure.
  destruct (decode_message VerifyResponse f) as [m|e] eqn:Ed; [|done].
  apply leads_bind, follows_reject; [by intros _ e|]. rewrite !orb_false_iff, !negb_false_iff.
  intros [[E1 E2] E3]. b2p. apply leads_bind. destruct (bool_decide (vr_code m = RC.OK)) eqn:Ec.
  - apply leads_ret, leads_ret, Hok. b2p. by split_and!.
  - apply leads_pure. done.
Qed.

Lemma follows_probe l r i p (Q : Result unit -> Phase -> Prop) :
  proved r p -> checking r p -> (forall x q, checking r q -> (x = Ok tt -> proved r q) -> Q x q) ->
  follows (probe_chunk l r i) p Q.
Proof.
  intros Hp Hc HQ. unfold probe_chunk. apply leads_bind.
  apply (follows_ask _ _ _ _ _ (Sampling r) (fun _ => Sampling r)).
  - intros b. by apply mp_sample.
  - intros f. apply mp_sampled.
  - intros e. by apply HQ.
  - intros e. apply HQ; [constructor|done].
  - intros e f. apply HQ; [constructor|done].
  - intros f m Hb. assert (forall x, Q x (Sampling r)) as HS by (intros x; apply HQ; constructor).
    apply leads_bind, leads_pure. destruct (chunk_offset _ _) as [offset|]; [|done].
    apply leads_bind, leads_pure. destruct (chunk_length _ _) as [len|]; [|done].
    apply leads_bind, follows_reject; [done|]. intros _.
    apply leads_bind, follows_reject; [done|]. intros _. by apply follows_count.
Qed.

Lemma follows_probes l r sample p (Q : Result unit -> Phase -> Prop) :
  proved r p -> checking r p -> (forall x q, checking r q -> (x = Ok tt -> proved r q) -> Q x q) ->
  follows (probe_chunks l r sample) p Q.
Proof.
  revert p. induction sample as [|i rest IH]; intros p Hp Hc HQ; simpl.
  - apply leads_ret. by apply HQ.
  - apply leads_bind, follows_probe; [done..|]. intros [[]|e] q Hq Hx; [apply IH; auto|by apply HQ].
Qed.

Lemma follows_verify r (Q : Result Digest -> Phase -> Prop) :
  (forall e q, checking r q -> Q (Err e) q) ->
  (forall q, proved r q -> Q (Ok (d_content_digest (m_object r))) q) ->
  follows (verify_destination r) (Arrived r) Q.
Proof.
  intros He Hok. unfold verify_destination. apply leads_bind, follows_link.
  intros [l|e]; [|apply He; constructor]. apply leads_bind.
  apply (follows_ask _ _ _ _ _ (Probing r) (Probed r)); try (intros; constructor); try (intros; apply He; constructor).
  intros f m (Hd & H1 & H2 & H3 & H4).
  apply leads_bind, follows_reject; [intros; apply He; constructor|]. intros E1. b2p.
  apply leads_bind, follows_reject; [intros; apply He; constructor|]. intros E2. b2p.
  assert (agrees r f) as Hag by (exists m; by split_and!).
  apply leads_bind, follows_atomically. intros config. destruct (negb _).
  - apply leads_ret. rewrite E1. apply Hok. by constructor.
  - apply leads_bind, follows_probes; [by constructor|constructor|].
    intros [[]|e] q Hc Hx; [|by apply He]. apply leads_ret. rewrite E1. by apply Hok, Hx.
Qed.

(** *** Commit *)

Lemma follows_commit r (Q : Result unit -> Phase -> Prop) :
  m_cancel_requested r = false -> (forall x q, Q x q) ->
  follows (commit_movement dst r (m_attempt r)) (Verified r) Q.
Proof.
  intros Hc HQ. unfold commit_movement. apply leads_bind, leads_try.
  apply (follows_request _ _ _ _ _ (Committing r) (CommitAnswered r)).
  - intros b. by apply mp_commit.
  - intros f. apply mp_commit_answer.
  - intros e. by apply (follows_fail r); [apply stop_unanswered| |].
  - intros e. by apply (follows_fail r); [apply stop_doubt| |].
  - intros f x [->|[e ->]]; [|by apply (follows_fail r); [apply stop_misanswered| |]].
    destruct (decode_message CommitResult f) as [m|e] eqn:Ed;
      [|by apply (follows_fail r); [apply stop_misanswered| |]].
    destruct (negb _ || negb _) eqn:Em; [by apply (follows_fail r); [apply stop_misanswered| |]|].
    b2p. assert (commit_answer r f m) as Hm by done.
    destruct (negb _) eqn:Eo; b2p; [by apply (follows_fail r); [apply (stop_refused _ _ m)| |]|].
    apply leads_bind, follows_now. intros now. destruct (apply_transition _ _ _ _ _) as [r' [u|e]] eqn:Ea.
    + apply leads_bind, leads_pure, leads_bind. apply apply_moved in Ea.
      apply (follows_persist _ _ Closed Closed); try (by apply (mp_committed _ _ r _ f m)).
      * by apply follows_count.
      * done.
    + by apply leads_bind, leads_pure.
Qed.

(** After an attempt the engine is done or back at the start with the record as
    it is. *)
Definition ready_again (x : Result Progress) (q : Phase) : Prop :=
  match x with Ok (Retry r) => q = Idle r | _ => True end.

Lemma follows_fail_over r0 r f p : stops r0 p (fl_state f) -> annotated r0 r ->
  follows (fail_movement r f ;$ eff_ret Over) p ready_again.
Proof.
  intros Hs Ha. apply leads_bind. apply (follows_fail r0); [done..|].
  intros [[]|e] q; [by apply leads_ret|done].
Qed.

Lemma follows_verify_and_commit r n max :
  follows (verify_and_commit dst r (m_attempt r) n max) (Arrived r) ready_again.
Proof.
  unfold verify_and_commit. apply leads_bind, leads_try, follows_verify.
  - intros e q Hq. destruct (max <=? n); [by apply (follows_fail_over r); [apply stop_checking| ]|].
    apply leads_bind, follows_now. intros now. apply leads_bind, leads_try.
    apply (follows_persist _ _ (Idle (note r PK.RETRY_SCHEDULED (st_code e) now
        (lit "independent verification refused the bytes: " ++ st_message e)))
      (Idle (note r PK.RETRY_SCHEDULED (st_code e) now
        (lit "independent verification refused the bytes: " ++ st_message e))));
      try (by apply (mp_retry_bytes _ _ _ r)); intros; by apply leads_bind, follows_count, leads_ret.
  - intros q Hq. apply leads_bind, follows_now. intros now.
    destruct (apply_transition _ _ _ _ _) as [r' [u|e]] eqn:Ea; [|by apply leads_bind, leads_pure].
    apply apply_moved in Ea. apply leads_bind, leads_pure, leads_bind.
    set (rv := with_verified r' _).
    assert (moved MS.VERIFIED r rv) as Hv by (destruct Ea as (?&?&?&?&?); by split_and!).
    apply (follows_persist _ _ (Verified rv) Closed); [by apply (mp_verify _ _ _ r)| |
      by apply (mp_verify_lost _ _ _ r)|done].
    change (m_cancel_requested r') with (m_cancel_requested rv).
    replace (m_attempt r) with (m_attempt rv) by apply Hv.
    apply leads_bind. destruct (m_cancel_requested rv) eqn:Ec.
    + apply (follows_fail rv); [by apply stop_verified|done|]. intros [[]|e] q'; [by apply leads_ret|done].
    + apply follows_commit; [done|]. intros [[]|e] q'; [by apply leads_ret|done].
Qed.

(** *** Attempts *)

Lemma follows_settle r f result n max :
  completion r f result -> follows (settle_attempt dst r (m_attempt r) result n max) (Reported r f) ready_again.
Proof.
  intros Hc. unfold settle_attempt. destruct (bool_decide _) eqn:E1; b2p.
  - apply (follows_fail_over r); [|done]. apply (stop_reported _ _ result); [done|by rewrite E1|].
    by rewrite bool_decide_true.
  - destruct (negb _) eqn:E2; b2p.
    + destruct (max <=? n).
      * apply (follows_fail_over r); [|by repeat split]. apply (stop_reported _ _ result); [done..|].
        by rewrite bool_decide_false.
      * apply leads_bind, follows_count, leads_bind, follows_now. intros now. apply leads_bind, leads_try.
        set (r' := note _ _ _ _ _). assert (annotated r r') by (by repeat split).
        apply (follows_persist _ _ (Idle r') (Idle r')); try (by apply (mp_retry_attempt _ _ _ _ _ result));
          intros; by apply leads_ret.
    + apply leads_bind, follows_now. intros now.
      destruct (apply_transition _ _ _ _ _) as [r' [u|e]] eqn:Ea; [|by apply leads_bind, leads_pure].
      apply apply_moved in Ea. apply leads_bind, leads_pure, leads_bind.
      set (ra := with_arrival r' _ _ _).
      assert (moved MS.BYTES_ARRIVED r ra) as Hv by (destruct Ea as (?&?&?&?&?); by split_and!).
      apply (follows_persist _ _ (Arrived ra) Closed); [by apply (mp_arrive _ _ _ _ _ result)| |
        by apply mp_arrive_lost|done].
      replace (m_attempt r) with (m_attempt ra) by apply Hv. apply follows_verify_and_commit.
Qed.

Definition waiting (r : MovementRecord) (p : Phase) : Prop :=
  p = Moving r \/ exists r0 f, p = Reported r0 f /\ annotated r0 r /\ forall x, ~ completion r0 f x.

Lemma waiting_answer r p f : waiting r p ->
  movement_protocol src dst p (Answered (result_key r) f) (Reported r f).
Proof.
  intros [->|(r0 & f0 & -> & Ha & Hn)]; [apply mp_report|].
  replace (result_key r) with (result_key r0); [by apply mp_stale|].
  unfold result_key. by rewrite (annotated_id _ _ Ha).
Qed.

Lemma waiting_stops r p : waiting r p -> exists r0, annotated r0 r /\ stops r0 p MS.OUTCOME_UNKNOWN.
Proof. intros [->|(r0 & f & -> & Ha & _)]; [exists r|exists r0]; split; auto; constructor. Qed.

Definition awaited (x : Result (MovementRecord * (Failure + AttemptResult))) (q : Phase) : Prop :=
  match x with
  | Ok (r, inl f) => exists r0, annotated r0 r /\ stops r0 q (fl_state f)
  | Ok (r, inr result) => exists f, q = Reported r f /\ completion r f result
  | Err _ => True
  end.

Lemma follows_await_result patience r promise p : waiting r p ->
  follows (await_result patience dst r (m_attempt r) promise) p
    (fun x q => awaited x q /\ match x with Ok (r', _) => m_attempt r' = m_attempt r | Err _ => True end).
Proof.
  revert r promise p. induction patience as [|patience IH]; intros r promise p Hw; cbn [await_result];
    apply leads_bind, leads_try, (follows_await _ _ _ _ _ (Reported r));
    try (intros f; by apply waiting_answer);
    try (intros e; apply leads_ret; split; [by apply waiting_stops|done]);
    (intros f x [->|[e ->]]; [|apply leads_ret; split; [exists r; split; [done|constructor]|done]]);
    (destruct (decode_message AttemptResult f) as [result|e] eqn:Ed;
      [|apply leads_ret; split; [exists r; split; [done|constructor]|done]]);
    destruct (negb _ || negb _) eqn:Em; try (apply leads_bind, follows_now; intros now).
  - apply leads_ret. split; [exists r; split; [done|constructor]|done].
  - b2p. apply leads_ret. split; [|done]. by exists f.
  - destruct patience as [|patience]; [apply leads_ret; split; [exists r; split; [done|constructor]|done]|].
    apply leads_bind, follows_reserve. intros [promise'|e]; [|done].
    set (r' := note _ _ _ _ _). change (m_attempt r) with (m_attempt r'). apply IH.
    right. exists r, f. split_and!; [done..|]. intros y (Hy & Hid & Hat).
    assert (y = result) as -> by congruence. rewrite Hid, Hat, !(proj2 (bytes_eqb_eq _ _) eq_refl) in Em. done.
  - b2p. apply leads_ret. split; [|done]. by exists f.
Qed.

Lemma follows_execute r f nonce n max : grant_accepted f ->
  follows (execute_attempt dst r (m_attempt r) nonce n max) (GrantAnswered r 1 f) ready_again.
Proof.
  intros Hg. unfold execute_attempt. apply leads_bind, follows_reserve. intros [promise|e]; [|done].
  apply leads_bind, leads_try. apply (follows_push _ _ _ _ (Dispatched r)); [intros b; by apply mp_dispatch|].
  intros [[]|e].
  - apply leads_bind, follows_now. intros now.
    destruct (apply_transition _ _ _ _ _) as [r' [u|e]] eqn:Ea; [|by apply leads_bind, follows_release, leads_pure].
    apply apply_moved in Ea. apply leads_bind, (follows_persist _ _ (Moving r') Closed);
      [by apply mp_move| |by apply mp_move_lost|done].
    replace (m_attempt r) with (m_attempt r') by apply Ea.
    apply leads_bind. eapply leads_mono; [apply follows_await_result; by left|].
    intros [[rw [fl|result]]|e] q [Hq Hat]; [| |done].
    + destruct Hq as (r0 & Ha & Hs). by apply (follows_fail_over r0).
    + destruct Hq as (f' & -> & Hc). rewrite <- Hat. by apply follows_settle.
  - apply leads_bind, follows_release. apply (follows_fail_over r); [apply stop_dispatched|done].
Qed.

Lemma follows_grant l g p p1 (q : Frame -> Phase) (Q : Result (option Failure) -> Phase -> Prop) :
  (forall b, movement_protocol src dst p (Sent l MT.GRANT_TRANSFER (GrantTransfer_encode (mkGrantTransfer g)) b) p1) ->
  (forall key f, movement_protocol src dst p1 (Answered key f) (q f)) ->
  (forall fl x, (x = p \/ x = p1 \/ exists f, x = q f) -> fl_state fl = MS.FAILED -> Q (Ok (Some fl)) x) ->
  (forall f, grant_accepted f -> Q (Ok None) (q f)) ->
  follows (send_grant l g) p Q.
Proof.
  intros Hs Ha Hf Hok. unfold send_grant. apply leads_bind, leads_try.
  apply (follows_request _ _ _ _ _ p1 q); try done; try (intros e; apply leads_ret, Hf; auto).
  intros f x Hx. apply leads_ret. destruct Hx as [->|[e ->]]; [|apply Hf; eauto].
  destruct (decode_message GrantAck f) as [ack|e] eqn:Ed; [|apply Hf; eauto].
  destruct (bool_decide _) eqn:Eo; [|apply Hf; eauto]. b2p. apply Hok. by exists ack.
Qed.

Lemma follows_attempt r n max : follows (run_attempt src dst r n max) (Idle r) ready_again.
Proof.
  unfold run_attempt. destruct (m_cancel_requested r); [by apply (follows_fail_over r); [apply stop_idle|]|].
  apply leads_bind, follows_issue. intros attempt. apply leads_bind, follows_now. intros now.
  destruct (record_attempt_started _ _ _) as [r' [u|e]] eqn:Es; [|by apply leads_bind, leads_pure].
  apply started_attempted in Es as [Hs Hat]. apply leads_bind, leads_pure, leads_bind.
  apply (follows_persist _ _ (Granting r') Closed); [by apply mp_begin| |by apply (mp_begin_lost _ _ r)|done].
  apply leads_bind, follows_issue. intros nonce. apply leads_bind, follows_now. intros now'.
  apply leads_bind, follows_atomically. intros secret. rewrite <- Hat.
  destruct (sign secret _) as [g [u'|e]] eqn:Eg; [|by apply leads_bind, leads_pure].
  apply leads_bind, leads_pure.
  assert (grants r' (GrantTransfer_encode (mkGrantTransfer g))) as Hg.
  { exists secret, nonce, now'. rewrite Eg. by destruct u'. }
  apply leads_bind. apply (follows_grant _ _ _ (GrantSent r' 0) (GrantAnswered r' 0)).
  - intros b. by apply mp_grant.
  - intros. apply mp_grant_answer.
  - intros fl x Hx Hf. apply (follows_fail_over r'); [rewrite Hf|done].
    destruct Hx as [->|[->|[f ->]]]; constructor.
  - intros f Hacc. apply leads_bind. apply (follows_grant _ _ _ (GrantSent r' 1) (GrantAnswered r' 1)).
    + intros b. by apply (mp_grant_next _ _ r' _ _ f).
    + intros. apply mp_grant_answer.
    + intros fl x Hx Hf. apply (follows_fail_over r'); [rewrite Hf|done].
      destruct Hx as [->|[->|[f' ->]]]; constructor.
    + intros f' Hacc'. by apply follows_execute.
Qed.

Lemma follows_loop turns r n max :
  follows (attempt_loop turns src dst r n max) (Idle r) (fun _ _ => True).
Proof.
  revert r n. induction turns as [|turns IH]; intros r n; simpl.
  - by apply (follows_fail r); [apply stop_idle| |].
  - apply leads_bind. eapply leads_mono; [apply follows_attempt|].
    intros [[|r']|e] q Hq; [by apply leads_ret| |done]. simpl in Hq. subst q. apply IH.
Qed.
End follows.

(** ** Consequences of the protocol *)

Section consequences.
Context (src dst : nat).
#[local] Abbreviation run_of := (steps (movement_protocol src dst)).

Lemma steps_snoc {E Ph} (step : Ph -> E -> Ph -> Prop) p es q : steps step p es q ->
  (es = [] /\ p = q) \/ exists es0 e p', es = es0 ++ [e] /\ steps step p es0 p' /\ step p' e q.
Proof.
  induction 1 as [p|p e es q r Hs Hr IH]; [auto|right].
  destruct IH as [[-> ->]|(es0 & e' & p' & -> & Hs0 & He)].
  - exists [], e, p. split_and!; [done|constructor|done].
  - exists (e :: es0), e', p'. split_and!; [done|by econstructor|done].
Qed.

Lemma closed_final es q : run_of Closed es q -> es = [].
Proof.
  destruct 1 as [|e es q r Hs]; [done|]. inversion Hs; subst;
    repeat match goal with H : stops _ Closed _ |- _ => inversion H; clear H; subst
           | H : checking _ Closed |- _ => inversion H | H : proved _ Closed |- _ => inversion H end.
Qed.

Lemma verified_before r0 es rv : run_of (Idle r0) es (Verified rv) ->
  exists es0, es = es0 ++ [Stored rv true] /\ m_state rv = MS.VERIFIED /\
    m_source_verified_digest rv = d_content_digest (m_object rv).
Proof.
  intros H. apply steps_snoc in H as [[_ ?]|(es0 & e & p & -> & _ & Hs)]; [done|].
  inversion Hs; subst.
  match goal with H : moved _ _ _ |- _ => destruct H as (_ & Hst & _ & Hid & _) end.
  exists es0. split_and!; [done..|]. unfold movement_identity in Hid. congruence.
Qed.

Lemma commit_sent p l payload b q :
  movement_protocol src dst p (Sent l MT.COMMIT_REQUEST payload b) q ->
  exists r, p = Verified r /\ q = Committing r /\ l = dst /\ payload = commit_request r.
Proof. inversion 1; subst; eauto. Qed.

(** What may follow a commit request. *)
Inductive commit_tail (rv : MovementRecord) : list Event -> Prop :=
  | tail_none : commit_tail rv []
  | tail_doubt r b : moved MS.OUTCOME_UNKNOWN rv r -> commit_tail rv [Stored r b]
  | tail_answer key f : commit_tail rv [Answered key f]
  | tail_misanswer key f r b : moved MS.OUTCOME_UNKNOWN rv r -> commit_tail rv [Answered key f; Stored r b]
  | tail_refused key f m r b : commit_answer rv f m -> cr_code m <> RC.OK -> moved MS.FAILED rv r ->
      commit_tail rv [Answered key f; Stored r b]
  | tail_committed key f m r b : commit_answer rv f m -> cr_code m = RC.OK -> moved MS.COMMITTED rv r ->
      m_commit_marker_digest r = cr_marker_digest m -> commit_tail rv [Answered key f; Stored r b].

Ltac no_phase :=
  match goal with
  | H : checking _ _ |- _ => by inversion H
  | H : proved _ _ |- _ => by inversion H
  end.

Lemma committing_tail rv es q : run_of (Committing rv) es q -> commit_tail rv es.
Proof.
  destruct 1 as [|e es q r Hs Hr]; [constructor|]. inversion Hs; subst; try no_phase.
  - destruct Hr as [|e es q r Hs' Hr]; [constructor|]. inversion Hs'; subst; try no_phase;
      apply closed_final in Hr as ->; [by eapply tail_committed|].
    match goal with H : stops _ _ _ |- _ => inversion H; subst; try no_phase end;
      [by apply tail_misanswer|by eapply tail_refused].
  - apply closed_final in Hr as ->. match goal with H : stops _ _ _ |- _ => inversion H; subst; try no_phase end.
    by apply tail_doubt.
Qed.

Definition open_phase (p : Phase) : Prop :=
  match p with
  | Closed => True
  | Idle r | Granting r | GrantSent r _ | GrantAnswered r _ _ | Dispatched r | Moving r | Reported r _
  | Arrived r | Probing r | Probed r _ | Sampling r | Verified r | Committing r | CommitAnswered r _ =>
      is_terminal (m_state r) = false
  end.

(** Facts about the states of the records of a step. *)
Ltac state_facts :=
  repeat match goal with
  | H : moved _ _ _ |- _ => destruct H as (? & ? & _)
  | H : attempted _ _ |- _ => destruct H as (? & ? & _)
  | H : annotated _ _ |- _ => destruct H as (? & _)
  | H : checking _ _ |- _ => inversion H; clear H; subst
  | H : proved _ _ |- _ => inversion H; clear H; subst
  end; simpl in *.

Lemma phase_open_step p e q : open_phase p -> movement_protocol src dst p e q -> open_phase q.
Proof.
  intros Ho Hs; inversion Hs; subst; simpl in *; try done; state_facts; try congruence;
    match goal with H : m_state ?r = _ |- is_terminal (m_state ?r) = false => by rewrite H end.
Qed.

Lemma open_run p es q : open_phase p -> run_of p es q -> open_phase q.
Proof. intros Ho. induction 1; [done|]. eauto using phase_open_step. Qed.

Lemma committed_stored p r b q : open_phase p -> movement_protocol src dst p (Stored r b) q ->
  m_state r = MS.COMMITTED -> exists rv f, p = CommitAnswered rv f.
Proof.
  intros Ho Hs Hc; inversion Hs; subst; simpl in *; eauto; exfalso;
    try match goal with H : stops _ _ _ |- _ => inversion H; subst; clear H end; state_facts; try congruence;
    try (rewrite Hc in *; congruence);
    try match goal with H : m_state ?r = m_state ?r0, Hc : m_state ?r = MS.COMMITTED |- _ =>
          rewrite <- H, Hc in *; done end.
  destruct (bool_decide _); congruence.
Qed.

(** Every record of a run is the same movement. *)
Definition phase_record (p : Phase) : option MovementRecord :=
  match p with
  | Closed => None
  | Idle r | Granting r | GrantSent r _ | GrantAnswered r _ _ | Dispatched r | Moving r | Reported r _
  | Arrived r | Probing r | Probed r _ | Sampling r | Verified r | Committing r | CommitAnswered r _ => Some r
  end.

Definition names_movement (r : MovementRecord) (p : Phase) : Prop :=
  forall r', phase_record p = Some r' -> movement_identity r' = movement_identity r.

Lemma stops_record r p s0 : stops r p s0 -> phase_record p = Some r.
Proof. intros H. destruct H; try done. by match goal with H : checking _ _ |- _ => inversion H end. Qed.

Lemma identity_step r p e q : names_movement r p -> movement_protocol src dst p e q ->
  names_movement r q /\ forall r' b, e = Stored r' b -> movement_identity r' = movement_identity r.
Proof.
  intros Hn Hs. unfold names_movement in *. inversion Hs; subst; simpl in *;
    repeat match goal with
    | H : stops _ _ _ |- _ => apply stops_record in H
    | H : checking _ _ |- _ => inversion H; clear H; subst
    | H : proved _ _ |- _ => inversion H; clear H; subst
    | H : moved _ _ _ |- _ => destruct H as (_ & _ & _ & ? & _)
    | H : attempted _ _ |- _ => destruct H as (_ & _ & _ & ?)
    | H : annotated _ _ |- _ => destruct H as (_ & _ & ? & _)
    end; simpl in *;
    (split; [intros ? [= <-]|intros ? ? [= <- <-]]);
    repeat match goal with H : _ = movement_identity _ |- _ => rewrite H; clear H end; eauto.
Qed.

Lemma names_self r : names_movement r (Idle r).
Proof. intros r' H. simpl in H. congruence. Qed.

Lemma identity_run r p es q : names_movement r p -> run_of p es q -> names_movement r q.
Proof. intros Hn. induction 1; [done|]. eapply IHsteps, identity_step; eauto. Qed.

(** Before the answer to a commit request comes the request. *)
Lemma answered_before r0 es rv f : run_of (Idle r0) es (CommitAnswered rv f) ->
  exists es0 key b,
    es = es0 ++ [Stored rv true; Sent dst MT.COMMIT_REQUEST (commit_request rv) b; Answered key f].
Proof.
  intros H. apply steps_snoc in H as [[_ ?]|(es1 & e & p & -> & Hr & Hs)]; [done|]. inversion Hs; subst.
  apply steps_snoc in Hr as [[_ ?]|(es2 & e & p & -> & Hr & Hs')]; [done|]. inversion Hs'; subst.
  apply verified_before in Hr as (es3 & -> & _). exists es3. do 2 eexists. by rewrite <- !app_assoc.
Qed.
(** *** Attempts after one that failed *)

(** The movement is recorded as TRANSFERRING and another attempt is being set
    up; or one is under way. *)
Definition stuck (p : Phase) : Prop :=
  match p with
  | Idle r | Granting r | GrantSent r _ | GrantAnswered r _ _ | Dispatched r => m_state r = MS.TRANSFERRING
  | Closed => True
  | _ => False
  end.
Definition transferring (p : Phase) : Prop :=
  match p with Moving r | Reported r _ => m_state r = MS.TRANSFERRING | _ => stuck p end.

(** What a stuck movement may still be recorded as. *)
Definition no_progress (s : MovementState) : Prop :=
  s = MS.TRANSFERRING \/ is_terminal s = true /\ s <> MS.COMMITTED.

Lemma stuck_step p e q : stuck p -> movement_protocol src dst p e q ->
  stuck q /\ forall r b, e = Stored r b -> no_progress (m_state r).
Proof.
  intros Hp Hs. inversion Hs; subst; simpl in Hp; try done; try no_phase.
  all: match goal with H : stops _ _ _ |- _ => inversion H; subst; try no_phase | _ => idtac end.
  all: try done; state_facts; try done.
  all: try match goal with H1 : check_transition (m_state ?r) MS.TRANSFERRING = Ok _, H2 : m_state ?r = _ |- _ =>
             rewrite H2 in H1; discriminate H1 end.
  all: split; [simpl; first [exact I|congruence]|]; intros ? ? [= <- <-]; unfold no_progress.
  all: first [left; congruence | right; match goal with H : m_state ?r = _ |- is_terminal (m_state ?r) = _ /\ _ => by rewrite H end].
Qed.

Lemma stuck_run p es q : stuck p -> run_of p es q -> Forall (fun e => forall r b, e = Stored r b -> no_progress (m_state r)) es.
Proof.
  intros Hp H. induction H as [|p e es q r Hs _ IH]; [constructor|].
  destruct (stuck_step _ _ _ Hp Hs) as [Hq He]. constructor; [exact He|by apply IH].
Qed.

Lemma transferring_stored p r b q : movement_protocol src dst p (Stored r b) q ->
  m_state r = MS.TRANSFERRING -> transferring q.
Proof.
  intros Hs Hr. inversion Hs; subst; simpl; try done; state_facts; congruence.
Qed.

Lemma transferring_silent p e q : transferring p -> movement_protocol src dst p e q ->
  (forall r b, e <> Stored r b) -> transferring q.
Proof.
  intros Hp Hs He. inversion Hs; subst; simpl in *; try done; try (by exfalso; eapply He);
    state_facts; try congruence; done.
Qed.

Lemma transferring_again p r b q : transferring p -> movement_protocol src dst p (Stored r b) q ->
  m_state r = MS.TRANSFERRING -> stuck q.
Proof.
  intros Hp Hs Hr. inversion Hs; subst; simpl in *; try done; state_facts; try congruence; try done.
  match goal with H1 : check_transition (m_state ?r) MS.TRANSFERRING = Ok _, H2 : m_state ?r = _ |- _ =>
    rewrite H2 in H1; discriminate H1 end.
Qed.

Lemma second_transfer_stuck p before r0 b0 mid r1 b1 after q :
  run_of p (before ++ Stored r0 b0 :: mid ++ Stored r1 b1 :: after) q ->
  m_state r0 = MS.TRANSFERRING -> m_state r1 = MS.TRANSFERRING ->
  Forall (fun e => forall r b, e <> Stored r b) mid ->
  Forall (fun e => forall r b, e = Stored r b -> no_progress (m_state r)) after.
Proof.
  intros H H0 H1 Hmid. apply steps_split in H as (p0 & _ & H). inversion H as [|? ? p1 ? Hs0 H']; subst.
  apply transferring_stored in Hs0; [|done]. apply steps_split in H' as (p2 & Hm & H').
  assert (transferring p2) as Hp2.
  { clear H H'. induction Hm as [|p1 e mid p1' p2 Hs Hm IH]; [done|].
    apply list.Forall_cons in Hmid as [He Hmid]. eapply IH; eauto using transferring_silent. }
  inversion H' as [|? ? p3 ? Hs1 Ha]; subst. apply (stuck_run p3 _ q); [|done].
  by apply (transferring_again _ _ _ _ Hp2 Hs1).
Qed.
End consequences.

(** ** Driving a movement *)

Section drive.
Context {C P S : Type} `{!Connection C, !EntropySource S}.
Implicit Types w : CWorld C P S.

Lemma precheck_silent (r : MovementRecord) w :
  cw_events (precheck r w).1 = cw_events w /\
  match (precheck r w).2 with
  | Ok (inl f) => is_terminal (fl_state f) = true /\ fl_state f <> MS.COMMITTED
  | _ => True
  end.
Proof.
  apply (leads_silence cw_events (precheck r)
           (fun x => match x with Ok (inl f) => is_terminal (fl_state f) = true /\ fl_state f <> MS.COMMITTED
                     | _ => True end)).
  unfold precheck. destruct (m_cancel_requested r); [by apply leads_ret|].
  apply leads_bind, leads_try, follows_link. intros [l1|e]; [|by apply leads_ret].
  apply leads_bind, leads_try, follows_link. intros [l2|e]; [|by apply leads_ret].
  apply leads_bind, follows_atomically. intros x. apply leads_bind, follows_atomically. intros y.
  destruct x, y; try (by apply leads_ret). destruct (_ || _); by apply leads_ret.
Qed.

(** The record a worker finds when it looks a movement up. *)
Definition found (w : CWorld C P S) (id : bytes) : option MovementRecord :=
  ms_records (cd_store (cw_others w (cw_turn w) (cw_coordinator w))) !! id.

(** The events of [drive_movement]: none, or a run of the protocol from the
    record that was found. *)
Definition driven w (id : bytes) (es : list Event) : Prop :=
  es = [] \/ exists r src dst q, found w id = Some r /\ is_terminal (m_state r) = false /\
    m_state r <> MS.OUTCOME_UNKNOWN /\ steps (movement_protocol src dst) (Idle r) es q.

Lemma drive_follows (id : bytes) w :
  exists es, emits cw_events w (drive_movement id w).1 es /\ driven w id es.
Proof.
  unfold drive_movement, stored, eff_bind, atomically, store_get, eff_lift, driven, found.
  destruct (ms_records _ !! id) as [r|]; cbn [fst snd]; [|exists []; by split; [|left]].
  destruct (_ || _) eqn:Et; [exists []; by split; [|left]|]. b2p.
  set (w1 := mkCWorld _ _ _ _ _ _ _ _). destruct (precheck_silent r w1) as [He Hf].
  destruct (precheck r w1) as [w2 [[f|[src dst]]|e]]; cbn [fst snd] in *.
  - destruct (follows_fail (C:=C) (P:=P) (S:=S) 0 0 r r f (Idle r) (fun _ _ => True)
                (stop_idle r (fl_state f) (proj1 Hf) (proj2 Hf)) (annotated_refl r)) with (w := w2)
      as (es & q & Hes & Hs & _); [done|].
    exists es. split; [unfold emits in *; by rewrite Hes, He|]. right. by exists r, 0%nat, 0%nat, q.
  - assert (leads (cw_events (C:=C) (P:=P) (S:=S)) (movement_protocol src dst)
      (let$ max_attempts := look (fun c => po_max_attempts (cc_policy (cd_config c))) in
       attempt_loop (Z.to_nat max_attempts) src dst r 1 max_attempts) (Idle r) (fun _ _ => True)) as Hl.
    { apply leads_bind, follows_atomically. intros max. apply follows_loop. }
    destruct (Hl w2) as (es & q & Hes & Hs & _).
    exists es. split; [unfold emits in *; etransitivity; [exact Hes|by rewrite He]|]. right. by exists r, src, dst, q.
  - exists []. split; [exact He|by left].
Qed.
End drive.

(** ** Properties *)

(** C2: (refinement, ordering) The movement engine refines the protocol.  For every
    world - every behaviour of the endpoints, the disk, the clock and the other
    threads - what [drive_movement] stores and sends is a run of
    [movement_protocol] that starts from the record it found: an attempt is
    stored before it is granted, both grants are accepted before the destination
    is told to execute, bytes count as arrived only on a completion of this very
    attempt, as verified only after the destination's answer about the whole
    object agreed with what was authorized, and a record of the next state is
    stored before anything else is sent. *)
Theorem drive_movement_refines_protocol {C P S : Type} `{!Connection C, !EntropySource S}
    (id : bytes) (w : CWorld C P S) :
  exists es, cw_events (drive_movement id w).1 = rev es ++ cw_events w /\
    (es = [] \/ exists r src dst q, found w id = Some r /\ is_terminal (m_state r) = false /\
       m_state r <> MS.OUTCOME_UNKNOWN /\ steps (movement_protocol src dst) (Idle r) es q).
Proof. apply drive_follows. Qed.

(** C1: (safety) The commit barrier.  A commit is requested only for a record that
    has just been stored as VERIFIED, whose verified digest is the authorized
    content digest, and the request names exactly that record's movement,
    generation, attempt and object.  After it the engine sends nothing more:
    the movement is stored as COMMITTED only on an OK for that movement
    generation, with the marker digest the destination reported, as FAILED only
    on an explicit refusal, and otherwise as OUTCOME_UNKNOWN. *)
Theorem commit_barrier {C P S : Type} `{!Connection C, !EntropySource S}
    (id : bytes) (w : CWorld C P S) (es : list Event) :
  cw_events (drive_movement id w).1 = rev es ++ cw_events w ->
  (forall before l payload sent after, es = before ++ Sent l MT.COMMIT_REQUEST payload sent :: after ->
     exists earlier rv r, before = earlier ++ [Stored rv true] /\ m_state rv = MS.VERIFIED /\
       m_source_verified_digest rv = d_content_digest (m_object rv) /\
       found w id = Some r /\ movement_identity rv = movement_identity r /\
       payload = commit_request rv /\ commit_tail rv after) /\
  (forall before r b after, es = before ++ Stored r b :: after -> m_state r = MS.COMMITTED ->
     after = [] /\ exists earlier rv l sent key f,
       before = earlier ++ [Stored rv true; Sent l MT.COMMIT_REQUEST (commit_request rv) sent; Answered key f]).
Proof.
  intros He. destruct (drive_follows id w) as (es' & He' & Hd).
  assert (es' = es) as ->.
  { unfold emits in He'. rewrite He' in He. apply app_inv_tail in He. by apply rev_inj in He. }
  destruct Hd as [->|(r0 & src & dst & q & Hf & Ht & Hu & Hs)].
  { split; intros before; intros; by destruct before. }
  split.
  - intros before l payload sent after ->. apply steps_split in Hs as (p & Hb & Ha).
    inversion Ha as [|? ? q1 ? Hc Hr]; subst. apply commit_sent in Hc as (rv & -> & -> & -> & ->).
    pose proof (identity_run src dst r0 _ _ _ (names_self r0) Hb rv eq_refl) as Hid.
    apply verified_before in Hb as (earlier & -> & Hst & Hdg). exists earlier, rv, r0.
    apply committing_tail in Hr. by split_and!.
  - intros before r b after -> Hc. apply steps_split in Hs as (p & Hb & Ha).
    inversion Ha as [|? ? q1 ? Hst Hr]; subst.
    destruct (committed_stored src dst p r b q1) as (rv & f & ->); [exact (open_run src dst _ _ _ (Ht : open_phase (Idle r0)) Hb)|done..|].
    assert (q1 = Closed) as -> by (inversion Hst; subst; first [reflexivity|
      match goal with H : checking _ _ |- _ => inversion H | H : proved _ _ |- _ => inversion H end]).
    split; [by eapply closed_final|].
    apply answered_before in Hb as (es0 & key & sent & ->). by exists es0, rv, dst, sent, key, f.
Qed.

(** (error) An attempt that ended without its bytes is never made good.  Once
    the engine has stored the movement as TRANSFERRING twice in a row, that is,
    a retry was scheduled after such an attempt, whatever follows leaves it
    TRANSFERRING or ends it without a commit: TRANSFERRING cannot be entered
    again from itself, so a further attempt is granted and dispatched to the
    destination but can never be recorded. *)
Theorem failed_attempt_is_not_made_good {C P S : Type} `{!Connection C, !EntropySource S}
    (id : bytes) (w : CWorld C P S) before r0 b0 mid r1 b1 after :
  cw_events (drive_movement id w).1 =
    rev (before ++ Stored r0 b0 :: mid ++ Stored r1 b1 :: after) ++ cw_events w ->
  m_state r0 = MS.TRANSFERRING -> m_state r1 = MS.TRANSFERRING ->
  (forall r b, Stored r b ∉ mid) ->
  forall r b, Stored r b ∈ after -> no_progress (m_state r).
Proof.
  intros He H0 H1 Hmid r b Hin. destruct (drive_follows id w) as (es & He' & Hd). unfold emits in He'.
  rewrite He' in He. apply app_inv_tail, rev_inj in He. subst es.
  destruct Hd as [Hd|(r2 & src & dst & q & _ & _ & _ & Hs)]; [by destruct before|].
  apply second_transfer_stuck in Hs; [|done..|].
  - rewrite list.Forall_forall in Hs. by apply (Hs _ Hin r b).
  - apply list.Forall_forall. intros e Hm r' b' ->. by apply (Hmid r' b').
Qed.

(** *** Witnesses *)

Definition demo_authorized : MovementRecord :=
  demo_movement MS.AUTHORIZED (lit "planned") (mkChain [demo_event] 64).
Definition demo_assigned : MovementStore := (store_put no_faults demo_new_log demo_authorized).1.

(** The identities the engine will issue, two per attempt. *)
Definition demo_attempt : bytes := (new_attempt_id demo_cs).1.
Definition demo_nonce : Digest := (new_nonce (new_attempt_id demo_cs).2).1.
Definition demo_attempt_2 : bytes := (new_attempt_id (new_nonce (new_attempt_id demo_cs).2).2).1.
Definition demo_nonce_2 : Digest :=
  (new_nonce (new_attempt_id (new_nonce (new_attempt_id demo_cs).2).2).2).1.

Definition demo_frame {T : Type} `{!WireMessage T} (m : T) : Frame :=
  mkFrame (mkFrameHeader kProtocolVersion FF_AUTHENTICATED (wm_type T) (zlen (wm_encode m)) 2 zero_digest)
    (wm_encode m).

(** The destination's account of chunk [i]. *)
Definition demo_chunk (i len : Z) : VerifyResponse :=
  let payload := replicate (Z.to_nat len) x61 in
  mkVerifyResponse (m_id demo_authorized) (d_object_id demo_descriptor) 1 RC.OK
    (d_content_digest demo_descriptor) 2500 3 i
    (compute_chunk_digest (d_object_id demo_descriptor) 1 i (i * 1024) len payload) payload.

Definition demo_result (state : MovementState) (attempt : bytes) : AttemptResult :=
  mkAttemptResult (m_id demo_authorized) 7 attempt state RC.OK (lit "reported")
    (d_content_digest demo_descriptor) 2500 3 zero_digest.

(** Endpoints that send these answers while something is awaited of them. *)
Definition demo_deliver (l : nat) (ls : Links Pipe) (f : Frame) : Links Pipe :=
  match ls_heap ls !! l with
  | Some lk => if Z.of_nat (size (lk_pending lk)) =? 0 then ls else (deliver ls l f).1
  | None => ls
  end.
Definition demo_answers (frames : list Frame) (n : nat) (c : Coordinator Pipe CompatibilityRegistry)
    : Coordinator Pipe CompatibilityRegistry :=
  set_links c (fold_left (fun ls f => demo_deliver 1 (demo_deliver 0 ls f) f) frames (cd_links c)).

Definition demo_good_frames : list Frame := Eval vm_compute in
  [demo_frame (mkGrantAck demo_nonce RC.OK []); demo_frame (demo_result MS.BYTES_ARRIVED demo_attempt);
   demo_frame (demo_chunk 0 1024); demo_frame (demo_chunk 1 1024); demo_frame (demo_chunk 2 452);
   demo_frame (mkCommitResult (m_id demo_authorized) 9 RC.OK (replicate 32 x5c) (lit "done"))].
Definition demo_bad_frames : list Frame := Eval vm_compute in
  [demo_frame (mkGrantAck demo_nonce RC.OK []); demo_frame (mkGrantAck demo_nonce_2 RC.OK []);
   demo_frame (demo_result MS.FAILED demo_attempt)].

Definition demo_run (frames : list Frame) :=
  drive_movement (m_id demo_authorized) (demo_world demo_assigned (demo_answers frames)).

(** The states a run stores, in order, with [None] for every other event. *)
Definition stored_state (e : Event) : option MovementState :=
  match e with Stored r _ => Some (m_state r) | _ => None end.
Definition stored_states (frames : list Frame) : list (option MovementState) :=
  stored_state <$> rev (cw_events (demo_run frames).1).

Ltac by_evaluation := lazymatch goal with |- _ = ?r => vm_cast_no_check (eq_refl r) end.

Lemma demo_good_states : stored_states demo_good_frames =
  [Some MS.AUTHORIZED; None; None; None; None; None; Some MS.TRANSFERRING; None; Some MS.BYTES_ARRIVED;
   None; None; None; None; None; None; None; None; Some MS.VERIFIED; None; None; Some MS.COMMITTED].
Proof. by_evaluation. Qed.

Lemma demo_bad_states : stored_states demo_bad_frames =
  [Some MS.AUTHORIZED; None; None; None; None; None; Some MS.TRANSFERRING; None; Some MS.TRANSFERRING;
   Some MS.TRANSFERRING; None; None; None; None; None].
Proof. by_evaluation. Qed.

Lemma stored_at (es : list Event) (i : nat) st : (stored_state <$> es) !! i = Some (Some st) ->
  exists r b, es !! i = Some (Stored r b) /\ m_state r = st.
Proof.
  rewrite list_lookup_fmap. destruct (es !! i) as [[r b| |]|]; try done. intros [= H]. by exists r, b.
Qed.

Lemma two_at {A} (l : list A) i j a b : l !! i = Some a -> l !! (i + Datatypes.S j)%nat = Some b ->
  l = take i l ++ a :: take j (drop (Datatypes.S i) l) ++ b :: drop (Datatypes.S (i + Datatypes.S j)) l.
Proof.
  intros Ha Hb. rewrite <- (take_drop_middle l i a Ha) at 1. do 2 f_equal.
  rewrite <- (take_drop_middle (drop (Datatypes.S i) l) j b) at 1.
  - rewrite drop_drop. by replace (Datatypes.S i + Datatypes.S j)%nat with (Datatypes.S (i + Datatypes.S j)) by lia.
  - rewrite lookup_drop, <- Hb. f_equal. lia.
Qed.

Lemma commit_barrier_witness : exists earlier rv l sent key f r b,
  rev (cw_events (demo_run demo_good_frames).1) =
    (earlier ++ [Stored rv true; Sent l MT.COMMIT_REQUEST (commit_request rv) sent; Answered key f]) ++ [Stored r b] /\
  m_state r = MS.COMMITTED.
Proof.
  set (es := rev (cw_events (demo_run demo_good_frames).1)).
  destruct (stored_at es 20 MS.COMMITTED) as (r & b & Hr & Hs).
  { change ((stored_states demo_good_frames) !! 20%nat = Some (Some MS.COMMITTED)). rewrite demo_good_states. reflexivity. }
  destruct (commit_barrier (m_id demo_authorized) (demo_world demo_assigned (demo_answers demo_good_frames)) es)
    as [_ Hc].
  - unfold es. rewrite rev_involutive, app_nil_r. reflexivity.
  - destruct (Hc (take 20 es) r b (drop 21 es)) as (Ha & earlier & rv & l & sent & key & f & Hb).
    + symmetry. exact (take_drop_middle es 20 _ Hr).
    + exact Hs.
    + exists earlier, rv, l, sent, key, f, r, b. split; [|exact Hs].
      rewrite <- Hb. rewrite <- (take_drop_middle es 20 _ Hr) at 1. rewrite Ha. reflexivity.
Defined.

Lemma failed_attempt_is_not_made_good_witness :
  exists r b, Stored r b ∈ drop 9 (rev (cw_events (demo_run demo_bad_frames).1)) /\ no_progress (m_state r).
Proof.
  set (es := rev (cw_events (demo_run demo_bad_frames).1)).
  assert (forall i st, (stored_states demo_bad_frames) !! i = Some (Some st) ->
            exists r b, es !! i = Some (Stored r b) /\ m_state r = st) as Hat by (intros i st; apply stored_at).
  rewrite demo_bad_states in Hat.
  destruct (Hat 6%nat _ eq_refl) as (r0 & b0 & H0 & Hs0). destruct (Hat 8%nat _ eq_refl) as (r1 & b1 & H1 & Hs1).
  destruct (Hat 9%nat _ eq_refl) as (r & b & H2 & Hs2). exists r, b.
  assert (Stored r b ∈ drop 9 es) as Hin by (apply (list_elem_of_lookup_2 _ 0); rewrite lookup_drop; exact H2).
  split; [exact Hin|].
  apply (failed_attempt_is_not_made_good (m_id demo_authorized)
           (demo_world demo_assigned (demo_answers demo_bad_frames)) (take 6 es) r0 b0 (take 1 (drop 7 es)) r1 b1 (drop 9 es))
    with (b := b); [|exact Hs0|exact Hs1| |exact Hin].
  - pose proof (two_at es 6 1 _ _ H0 H1) as Ht. change (Datatypes.S (6 + 2)) with 9%nat in Ht. rewrite <- Ht. unfold es. rewrite rev_involutive, app_nil_r. reflexivity.
  - intros r' b' Hm. apply list_elem_of_lookup_1 in Hm as [[|i] Hi]; [|by destruct (drop 7 es)].
    rewrite lookup_take_lt, lookup_drop in Hi by lia. change (7 + 0)%nat with 7%nat in Hi.
    assert ((stored_states demo_bad_frames) !! 7%nat = Some (stored_state (Stored r' b'))) as Hx
      by (unfold stored_states; fold es; rewrite list_lookup_fmap, Hi; reflexivity).
    rewrite demo_bad_states in Hx. discriminate Hx.
Defined.
