(* ===== verification/Agent.v ===== *)
(** * Endpoint agent: state and control plane (src/src/endpoint_agent.cpp,
    include/smf/endpoint_agent.hpp)

    The state of an endpoint process, its start, its session with the coordinator
    and the handlers of the coordinator's messages.  The data plane is in
    Transfer.v, publication in Publication.v.

    As in the coordinator, threads share the agent's state under locks: an
    operation runs in an [AWorld], every access to shared state is one step, and
    before each step the other threads may have changed agent and disk in any way
    ([aw_others]).  A call into the object store is one step too.  A cancellation
    flag is shared between the table and the threads that hold it, so the table
    has the flags' addresses and [ag_flags] their values.  [aw_events] records,
    newest first, what this thread sent to the coordinator, what it sent on a data
    connection and which transfers it started. *)
From S2P Require Import Prelude Status Bytes Digest Codec Ids StateObject Framing Session Policy Topology.
From S2P Require Import CommitMarker ObjectStore WireFields Wire Effect Links.

(** ** State *)

Record EndpointAgentConfig := mkAgentConfig {
  ec_endpoint_id : bytes;
  ec_store_root : bytes;
  ec_shared_secret : bytes;
  ec_capability : bytes;
  ec_policy : MovementPolicy;
  ec_max_data_sessions : Z;
  ec_max_concurrent_movements : Z;
  ec_allow_resume : bool;
  ec_sync_store : bool }.

(** The fields of [EndpointCounters]. *)
Module AC.
Inductive Counter : Set :=
  | objects_published | transfers_served | transfers_received | chunks_written | duplicate_chunks
  | bytes_received | bytes_sent | refusals | sessions_accepted | sessions_refused.
End AC.
#[global] Instance AgentCounter_eq_dec : EqDecision AC.Counter.
Proof. solve_decision. Defined.

Definition EndpointCounters : Type := AC.Counter -> Z.
Definition add_counter (k : AC.Counter) (n : Z) (c : EndpointCounters) : EndpointCounters :=
  fun k' => if bool_decide (k' = k) then wrap 64 (c k' + n) else c k'.

(** [EndpointAgent::ControlLink] *)
Record AgentLink (C : Type) := mkAgentLink {
  al_stream : FrameStream C;
  al_alive : bool;
  al_pending : gmap bytes nat }.
Arguments mkAgentLink {C}.
Arguments al_stream {C}.
Arguments al_alive {C}.
Arguments al_pending {C}.

Record GrantEntry := mkGrantEntry {
  ge_grant : TransferGrant;
  ge_consumed : bool;
  ge_received_unix_millis : Z }.

Record Agent (C : Type) := mkAgent {
  ag_config : EndpointAgentConfig;
  ag_incarnation : Incarnation;
  ag_service_address : SocketAddress;
  ag_data_address : SocketAddress;
  ag_policy_generation : Z;
  ag_topology_generation : Z;
  ag_control : option (AgentLink C);
  ag_ready : gmap nat Frame;
  ag_session_queue : list C;
  ag_grants : gmap bytes GrantEntry;
  ag_cancellations : gmap bytes nat;
  ag_flags : gmap nat bool;
  ag_fresh : nat;
  ag_counters : EndpointCounters;
  ag_active_sessions : Z;
  ag_stopping : bool }.
Arguments mkAgent {C}.
Arguments ag_config {C}.
Arguments ag_incarnation {C}.
Arguments ag_service_address {C}.
Arguments ag_data_address {C}.
Arguments ag_policy_generation {C}.
Arguments ag_topology_generation {C}.
Arguments ag_control {C}.
Arguments ag_ready {C}.
Arguments ag_session_queue {C}.
Arguments ag_grants {C}.
Arguments ag_cancellations {C}.
Arguments ag_flags {C}.
Arguments ag_fresh {C}.
Arguments ag_counters {C}.
Arguments ag_active_sessions {C}.
Arguments ag_stopping {C}.

Inductive AgentEvent : Type :=
  | Told (type : MessageType) (payload : bytes) (ok : bool)
  | Served (type : MessageType) (payload : bytes) (ok : bool)
  | Spawned (movement_id attempt nonce : bytes).

(** [aw_network n address] is what the [n]th step would get from connecting to
    [address]: a connection and its local address. *)
Record AWorld (C S : Type) := mkAWorld {
  aw_agent : Agent C;
  aw_store : World;
  aw_clock : nat -> Z;
  aw_ticks : nat;
  aw_entropy : S;
  aw_network : nat -> SocketAddress -> Result (C * SocketAddress);
  aw_others : nat -> Agent C -> Disk -> Agent C * Disk;
  aw_turn : nat;
  aw_events : list AgentEvent }.
Arguments mkAWorld {C S}.
Arguments aw_agent {C S}.
Arguments aw_store {C S}.
Arguments aw_clock {C S}.
Arguments aw_ticks {C S}.
Arguments aw_entropy {C S}.
Arguments aw_network {C S}.
Arguments aw_others {C S}.
Arguments aw_turn {C S}.
Arguments aw_events {C S}.

Section setters.
Context {C : Type}.
Implicit Types a : Agent C.

Definition set_control a (control : option (AgentLink C)) (ready : gmap nat Frame) (fresh : nat) : Agent C :=
  mkAgent (ag_config a) (ag_incarnation a) (ag_service_address a) (ag_data_address a)
    (ag_policy_generation a) (ag_topology_generation a) control ready (ag_session_queue a)
    (ag_grants a) (ag_cancellations a) (ag_flags a) fresh (ag_counters a) (ag_active_sessions a)
    (ag_stopping a).
Definition set_registration a (service : SocketAddress) (policy topology : Z) : Agent C :=
  mkAgent (ag_config a) (ag_incarnation a) service (ag_data_address a) policy topology (ag_control a)
    (ag_ready a) (ag_session_queue a) (ag_grants a) (ag_cancellations a) (ag_flags a) (ag_fresh a)
    (ag_counters a) (ag_active_sessions a) (ag_stopping a).
Definition set_sessions a (queue : list C) (active : Z) : Agent C :=
  mkAgent (ag_config a) (ag_incarnation a) (ag_service_address a) (ag_data_address a)
    (ag_policy_generation a) (ag_topology_generation a) (ag_control a) (ag_ready a) queue
    (ag_grants a) (ag_cancellations a) (ag_flags a) (ag_fresh a) (ag_counters a) active
    (ag_stopping a).
Definition set_grants a (grants : gmap bytes GrantEntry) : Agent C :=
  mkAgent (ag_config a) (ag_incarnation a) (ag_service_address a) (ag_data_address a)
    (ag_policy_generation a) (ag_topology_generation a) (ag_control a) (ag_ready a)
    (ag_session_queue a) grants (ag_cancellations a) (ag_flags a) (ag_fresh a) (ag_counters a)
    (ag_active_sessions a) (ag_stopping a).
Definition set_cancels a (cancellations : gmap bytes nat) (flags : gmap nat bool) (fresh : nat) : Agent C :=
  mkAgent (ag_config a) (ag_incarnation a) (ag_service_address a) (ag_data_address a)
    (ag_policy_generation a) (ag_topology_generation a) (ag_control a) (ag_ready a)
    (ag_session_queue a) (ag_grants a) cancellations flags fresh (ag_counters a)
    (ag_active_sessions a) (ag_stopping a).
Definition set_agent_counters a (counters : EndpointCounters) : Agent C :=
  mkAgent (ag_config a) (ag_incarnation a) (ag_service_address a) (ag_data_address a)
    (ag_policy_generation a) (ag_topology_generation a) (ag_control a) (ag_ready a)
    (ag_session_queue a) (ag_grants a) (ag_cancellations a) (ag_flags a) (ag_fresh a) counters
    (ag_active_sessions a) (ag_stopping a).
Definition set_agent_stopping a : Agent C :=
  mkAgent (ag_config a) (ag_incarnation a) (ag_service_address a) (ag_data_address a)
    (ag_policy_generation a) (ag_topology_generation a) (ag_control a) (ag_ready a)
    (ag_session_queue a) (ag_grants a) (ag_cancellations a) (ag_flags a) (ag_fresh a)
    (ag_counters a) (ag_active_sessions a) true.
End setters.

(** ** Start *)

(** [start] runs on the store's disk and the file [incarnation.epoch]. *)
Abbreviation Boot := (Eff (World * option bytes)).

Definition boot_io {A} (m : IO A) : Boot A := fun '(w, file) => let '(w, r) := m w in ((w, file), r).

Definition read_entire_file (path file : bytes) (max_bytes : Z) : IO bytes :=
  let* f := open_read path (Some file) in
  let* size := size_of f in
  io_reject (max_bytes <? size) RC.PROTOCOL_BOUNDS_EXCEEDED "message exceeds the configured bound" ;*
  if size =? 0 then io_ret []
  else
    let* buffer := read_file f 0 (length f) in
    io_reject (negb (zlen buffer =? size)) RC.PROTOCOL_TRUNCATED "message file was shorter than expected" ;*
    io_ret buffer.

(** The number at the head of the epoch file, in 64-bit arithmetic. *)
Fixpoint parse_epoch (text : bytes) (epoch : Z) : Z :=
  match text with
  | [] => epoch
  | c :: rest =>
      if (zb c <? 48) || (57 <? zb c) then epoch else parse_epoch rest (wrap 64 (epoch * 10 + (zb c - 48)))
  end.

Definition epoch_path (config : EndpointAgentConfig) : bytes :=
  slash (ec_store_root config) (lit "incarnation.epoch").

Definition previous_epoch (config : EndpointAgentConfig) : Boot Z := fun st =>
  match st.2 with
  | None => (st, Ok 0)
  | Some text =>
      (let$ buffer := boot_io (read_entire_file (epoch_path config) text 64) in
       eff_ret (parse_epoch buffer 0)) st
  end.

Definition write_epoch (config : EndpointAgentConfig) (epoch : Z) : Boot unit := fun '(w, file) =>
  match atomic_replace (epoch_path config) (fun d => d) true w with
  | (w, Ok _) => ((w, Some (std_to_string epoch)), Ok tt)
  | (w, Err e) => ((w, file), Err e)
  end.

(** The epoch of this start, on disk before it is used. *)
Definition advance_epoch (config : EndpointAgentConfig) : Boot Z :=
  let$ previous := previous_epoch config in
  let epoch := wrap 64 (previous + 1) in
  write_epoch config epoch ;$
  eff_ret epoch.

(** [open_store] *)
Definition agent_store (config : EndpointAgentConfig) : ObjectStoreOptions :=
  mkOsOptions (ec_store_root config) (po_max_object_bytes (ec_policy config)) (ec_sync_store config)
    (ec_allow_resume config).

Definition fresh_agent {C : Type} (config : EndpointAgentConfig) (incarnation : Incarnation)
    (data_address : SocketAddress) : Agent C :=
  mkAgent config incarnation (mkAddress [] 0) data_address 1 1 None ∅ [] ∅ ∅ ∅ 0 (fun _ => 0) 0 false.

(** [listening] is the outcome of binding the data listener; [boot] the fresh
    boot id. *)
Definition agent_start {C : Type} (config : EndpointAgentConfig) (boot : bytes)
    (listening : Result SocketAddress) : Boot (Agent C) :=
  eff_reject (bytes_eqb (ec_endpoint_id config) []) RC.INVALID_ID "endpoint id must not be empty" ;$
  eff_reject (negb (Nat.eqb (length (ec_shared_secret config)) kDigestBytes)) RC.INVALID_ARGUMENT
    "the shared secret must be exactly 32 bytes; generate one and distribute it" ;$
  eff_reject (bytes_eqb (ec_store_root config) []) RC.INVALID_ARGUMENT
    "the endpoint store root must not be empty" ;$
  eff_lift (MovementPolicy_validate (ec_policy config)) ;$
  boot_io (ObjectStore_open (agent_store config)) ;$
  let$ epoch := advance_epoch config in
  let$ incarnation := eff_lift (Incarnation_make (ec_endpoint_id config) boot epoch) in
  let$ address := eff_lift listening in
  eff_ret (fresh_agent config incarnation address).

(** ** Steps *)

Section steps.
Context {C S : Type} `{!Connection C, !EntropySource S}.
Implicit Types a : Agent C.
#[local] Abbreviation Ag := (Eff (AWorld C S)).

(** One access to the shared state, after whatever the other threads did. *)
Definition shared {A} (f : Agent C -> World -> Agent C * World * A) : Ag A := fun w =>
  let '(a, d) := aw_others w (aw_turn w) (aw_agent w) (w_disk (aw_store w)) in
  let '(a, s, x) := f a (mkWorld d (w_io (aw_store w))) in
  (mkAWorld a s (aw_clock w) (aw_ticks w) (aw_entropy w) (aw_network w) (aw_others w)
     (Datatypes.S (aw_turn w)) (aw_events w), Ok x).

Definition peek {A} (f : Agent C -> A) : Ag A := shared (fun a s => (a, s, f a)).
Definition update (f : Agent C -> Agent C) : Ag unit := shared (fun a s => (f a, s, tt)).
Definition disk_peek {A} (f : Disk -> A) : Ag A := shared (fun a s => (a, s, f (w_disk s))).

(** A call into the object store. *)
Definition on_store {A} (m : IO A) : Ag A :=
  let$ r := shared (fun a s => let '(s, r) := m s in (a, s, r)) in
  eff_lift r.

Definition agent_now : Ag Z := fun w =>
  (mkAWorld (aw_agent w) (aw_store w) (aw_clock w) (Datatypes.S (aw_ticks w)) (aw_entropy w)
     (aw_network w) (aw_others w) (aw_turn w) (aw_events w), Ok (aw_clock w (aw_ticks w))).

Definition draw {A} (f : S -> A * S) : Ag A := fun w =>
  let '(x, s) := f (aw_entropy w) in
  (mkAWorld (aw_agent w) (aw_store w) (aw_clock w) (aw_ticks w) s (aw_network w) (aw_others w)
     (aw_turn w) (aw_events w), Ok x).

(** [TcpConnection::connect] *)
Definition connect (address : SocketAddress) : Ag (C * SocketAddress) := fun w =>
  (mkAWorld (aw_agent w) (aw_store w) (aw_clock w) (aw_ticks w) (aw_entropy w) (aw_network w)
     (aw_others w) (Datatypes.S (aw_turn w)) (aw_events w), aw_network w (aw_turn w) address).

Definition observe (e : AgentEvent) : Ag unit := fun w =>
  (mkAWorld (aw_agent w) (aw_store w) (aw_clock w) (aw_ticks w) (aw_entropy w) (aw_network w)
     (aw_others w) (aw_turn w) (e :: aw_events w), Ok tt).

Definition tally (k : AC.Counter) (n : Z) : Ag unit :=
  update (fun a => set_agent_counters a (add_counter k n (ag_counters a))).

(** ** Identity and streams *)

Definition capability_digest_for (endpoint capability version : bytes) : Digest :=
  canonical_digest (enc_text (lit "SMF-ENDPOINT-CAPABILITY-v1") ++ enc_text endpoint ++
    enc_text capability ++ enc_text version).

Definition agent_identity a : PeerIdentity :=
  mkPeer (ec_endpoint_id (ag_config a)) (inc_boot (ag_incarnation a)) (inc_epoch (ag_incarnation a))
    SR.ENDPOINT kPeerContract
    (capability_digest_for (ec_endpoint_id (ag_config a)) (ec_capability (ag_config a)) kVersionString).

(** A stream on a new connection. *)
Definition new_stream a (connection : C) : FrameStream C :=
  mkFrameStream connection FrameCodec_init (wrap 32 (po_max_chunk_bytes (ec_policy (ag_config a)) + 2 ^ 16)).

Definition keyed (stream : FrameStream C) (key : bytes) : FrameStream C :=
  mkFrameStream (fs_connection stream) (set_session_key (fs_codec stream) key) (fs_max_payload_bytes stream).

(** [stream.send(type, encoder.view())] and [stream.receive()] on a connection of
    this thread's own. *)
Definition send_on (stream : FrameStream C) (type : MessageType) (payload : bytes) : Ag (FrameStream C) :=
  let '(stream, sent) := FrameStream_send stream type payload 0 in
  observe (Served type payload (is_ok sent)) ;$
  eff_lift sent ;$
  eff_ret stream.

Definition receive_from (stream : FrameStream C) : Ag (FrameStream C * Frame) :=
  let '(stream, frame) := FrameStream_receive stream in
  let$ frame := eff_lift frame in
  eff_ret (stream, frame).

(** ** Control link *)

Definition link_down {A} : Result A := fail RC.CONNECTION_CLOSED "the coordinator link is not available".

Definition send_control (type : MessageType) (payload : bytes) : Ag unit :=
  let$ sent := shared (fun a s =>
    match ag_control a with
    | Some l =>
        if negb (al_alive l) then (a, s, link_down)
        else let '(stream, sent) := FrameStream_send (al_stream l) type payload 0 in
             (set_control a (Some (mkAgentLink stream (al_alive l) (al_pending l))) (ag_ready a) (ag_fresh a),
              s, sent)
    | None => (a, s, link_down)
    end) in
  observe (Told type payload (is_ok sent)) ;$
  eff_lift sent.

Definition tell {T : Type} `{!WireMessage T} (m : T) : Ag unit := send_control (wm_type T) (wm_encode m).

(** The client's side of a handshake on a fresh stream. *)
Definition say_hello (stream : FrameStream C) (refused : Status) : Ag (FrameStream C) :=
  let$ identity := peek agent_identity in
  let$ secret := peek (fun a => ec_shared_secret (ag_config a)) in
  let$ request := draw (fun s => let '(s, r) := make_hello_request secret identity s in (r, s)) in
  let$ request := eff_lift request in
  let$ stream := send_on stream MT.HELLO (HelloRequest_encode request) in
  let$ (stream, frame) := receive_from stream in
  eff_lift (if bool_decide (fh_type (fr_header frame) = MT.HELLO_ACK) then Ok tt else Err refused) ;$
  let$ response := eff_lift (decode_all (message_limits (fr_payload frame)) HelloResponse_decode (fr_payload frame)) in
  let$ key := eff_lift (verify_hello_response secret request response) in
  eff_ret (keyed stream key).

Definition registration_of a : RegisterRequest :=
  let i := agent_identity a in
  mkRegisterRequest
    (mkPeerIdentityHint (pi_endpoint i) (pi_boot i) (pi_epoch i) (session_role_value (pi_role i))
       (pi_contract i) (pi_capability_digest i))
    (ag_service_address a) (ag_data_address a) (sha256 (lit "empty-inventory")).

(** The coordinator's answer to a registration. *)
Definition registration_ack (frame : Frame) : Result RegisterAck :=
  if bool_decide (fh_type (fr_header frame) = MT.REGISTER_ACK) then decode_message RegisterAck frame
  else match decode_message ErrorMessage frame with
       | Ok rejection => Err (mkStatus (if bool_decide (erm_code rejection = RC.OK) then RC.NOT_AUTHORIZED
                                        else erm_code rejection) (erm_detail rejection))
       | Err _ => fail RC.NOT_AUTHORIZED "the coordinator refused the registration"
       end.

Definition connect_to_coordinator (coordinator : SocketAddress) : Ag unit :=
  let$ connected := peek (fun a => match ag_control a with Some _ => true | None => false end) in
  eff_reject connected RC.ALREADY_TERMINAL "the endpoint is already registered" ;$
  let$ (connection, local) := connect coordinator in
  let$ stream := peek (fun a => new_stream a connection) in
  let$ stream := say_hello stream
                   (mkStatus RC.PROTOCOL_HANDSHAKE_FAILED (lit "the coordinator did not answer the hello")) in
  update (fun a => set_registration a local (ag_policy_generation a) (ag_topology_generation a)) ;$
  let$ registration := peek registration_of in
  let$ stream := send_on stream MT.REGISTER (RegisterRequest_encode registration) in
  let$ (stream, frame) := receive_from stream in
  let$ ack := eff_lift (registration_ack frame) in
  update (fun a => set_registration a (ag_service_address a) (ra_policy_generation ack)
                     (ra_topology_generation ack)) ;$
  update (fun a => set_control a (Some (mkAgentLink stream true ∅)) (ag_ready a) (ag_fresh a)).

(** The promises of a link are all fulfilled with the empty frame. *)
Definition release_waiters a (l : AgentLink C) (alive : bool) : Agent C :=
  set_control a (Some (mkAgentLink (al_stream l) alive ∅))
    (map_fold (fun _ promise r => <[promise := empty_frame]> r) (ag_ready a) (al_pending l)) (ag_fresh a).

Definition agent_shutdown : Ag unit :=
  update (fun a =>
    if ag_stopping a then a
    else match ag_control a with
         | Some l => release_waiters (set_agent_stopping a) l false
         | None => set_agent_stopping a
         end).

(** [stop], once the threads have been joined. *)
Definition agent_stop : Ag unit :=
  agent_shutdown ;$
  update (fun a => set_control a None (ag_ready a) (ag_fresh a)) ;$
  update (fun a => set_sessions a [] (ag_active_sessions a)).

(** A request to the coordinator whose answer the reader thread delivers under
    the message type's name; [gone] is what the empty frame means. *)
Definition ask_coordinator (answer : MessageType) (busy late gone : Status) (type : MessageType)
    (payload : bytes) : Ag Frame :=
  let key := message_type_to_string answer in
  let drop_slot := update (fun a => match ag_control a with
    | Some l => set_control a (Some (mkAgentLink (al_stream l) (al_alive l) (delete key (al_pending l))))
                  (ag_ready a) (ag_fresh a)
    | None => a end) in
  let$ promise := shared (fun a s =>
    match ag_control a with
    | Some l =>
        match al_pending l !! key with
        | Some _ => (a, s, Err busy)
        | None => (set_control a (Some (mkAgentLink (al_stream l) (al_alive l) (<[key := ag_fresh a]> (al_pending l))))
                     (ag_ready a) (Datatypes.S (ag_fresh a)), s, Ok (ag_fresh a))
        end
    | None => (a, s, link_down)
    end) in
  let$ promise := eff_lift promise in
  let$ sent := eff_try (send_control type payload) in
  match sent with
  | Err e => drop_slot ;$ eff_lift (Err e)
  | Ok _ =>
      let$ arrived := peek (fun a => ag_ready a !! promise) in
      match arrived with
      | None => drop_slot ;$ eff_lift (Err late)
      | Some frame =>
          eff_lift (if bool_decide (fh_type (fr_header frame) = answer) then Ok tt else Err gone) ;$
          eff_ret frame
      end
  end.

Definition agent_announce (descriptor : StateObjectDescriptor) : Ag unit :=
  let$ up := peek (fun a => match ag_control a with Some l => al_alive l | None => false end) in
  eff_lift (if up then Ok tt else link_down) ;$
  let$ frame := ask_coordinator MT.ANNOUNCE_ACK
    (mkStatus RC.BUSY (lit "another announcement is already in flight"))
    (mkStatus RC.IO_TIMEOUT (lit "the coordinator did not acknowledge the announcement"))
    (mkStatus RC.CONNECTION_CLOSED (lit "the coordinator link closed before the acknowledgement arrived"))
    MT.ANNOUNCE_OBJECT (AnnounceObject_encode (mkAnnounceObject descriptor)) in
  let$ ack := eff_lift (decode_message AnnounceAck frame) in
  eff_lift (if bool_decide (aa_code ack = RC.OK) then Ok tt else Err (mkStatus (aa_code ack) (aa_detail ack))).

(** ** The coordinator's messages *)

(** [cancellation_flag]: the address of the movement's flag, made if there is
    none. *)
Definition cancellation_flag (movement_id : bytes) : Ag nat :=
  shared (fun a s =>
    match ag_cancellations a !! movement_id with
    | Some flag => (a, s, flag)
    | None =>
        (set_cancels a (<[movement_id := ag_fresh a]> (ag_cancellations a))
           (<[ag_fresh a := false]> (ag_flags a)) (Datatypes.S (ag_fresh a)), s, ag_fresh a)
    end).

Definition clear_cancellation (movement_id : bytes) : Ag unit :=
  update (fun a => set_cancels a (delete movement_id (ag_cancellations a)) (ag_flags a) (ag_fresh a)).

Definition flag_set a (flag : nat) : bool := default false (ag_flags a !! flag).

Definition on_grant (grant : TransferGrant) : Ag unit :=
  let$ config := peek ag_config in
  eff_lift (verify_signature (ec_shared_secret config) grant) ;$
  eff_lift (TransferGrant_validate grant) ;$
  let$ generation := peek ag_policy_generation in
  eff_reject (negb (tg_policy_generation grant =? generation)) RC.STALE_POLICY_GENERATION
    "the grant was issued under a different policy generation" ;$
  eff_reject (negb (bytes_eqb (tg_source grant) (ec_endpoint_id config)) &&
              negb (bytes_eqb (tg_destination grant) (ec_endpoint_id config))) RC.AUTHORITY_MISMATCH
    "the grant does not involve this endpoint" ;$
  let$ now := agent_now in
  let$ recorded := shared (fun a s =>
    if wrap 32 (po_max_movements_in_flight (ec_policy config) * 2) <=? Z.of_nat (size (ag_grants a))
    then (a, s, fail RC.RESOURCE_EXHAUSTED "too many live transfer grants")
    else (set_grants a (<[tg_grant_nonce grant := mkGrantEntry grant false now]> (ag_grants a)), s, Ok tt)) in
  eff_lift recorded ;$
  tell (mkGrantAck (tg_grant_nonce grant) RC.OK (lit "grant recorded")).

Definition on_execute (message : ExecuteMovement) : Ag unit :=
  let$ found := peek (fun a => ag_grants a !! em_nonce message) in
  match found with
  | None => eff_lift (fail RC.AUTHORITY_MISMATCH "no grant matches that nonce")
  | Some entry =>
      let grant := ge_grant entry in
      let$ config := peek ag_config in
      eff_reject (negb (bytes_eqb (tg_destination grant) (ec_endpoint_id config))) RC.NOT_AUTHORIZED
        "this endpoint is not the destination of the grant" ;$
      eff_reject (negb (bytes_eqb (tg_movement_id grant) (em_movement_id message)) ||
                  negb (bytes_eqb (tg_attempt grant) (em_attempt message))) RC.AUTHORITY_MISMATCH
        "the execute request does not match the grant" ;$
      let$ active := peek ag_active_sessions in
      eff_reject (wrap 32 (ec_max_concurrent_movements config + ec_max_data_sessions config) <=? active)
        RC.RESOURCE_EXHAUSTED "too many concurrent movements" ;$
      update (fun a => set_cancels a (<[em_movement_id message := ag_fresh a]> (ag_cancellations a))
                         (<[ag_fresh a := false]> (ag_flags a)) (Datatypes.S (ag_fresh a))) ;$
      observe (Spawned (em_movement_id message) (em_attempt message) (em_nonce message))
  end.

(** The lambda [reject]. *)
Definition reject_commit (message : CommitRequest) (code : ReasonCode) (detail : bytes) : Ag unit :=
  let$ _ := eff_try (tell (mkCommitResult (co_movement_id message) (co_movement_generation message) code
                             zero_digest detail)) in
  eff_lift (Err (mkStatus code detail)).

(** The incarnation the agent was started as, [make(...).value()] of its own
    parts. *)
Definition own_incarnation a : Incarnation :=
  mkIncarnation (ec_endpoint_id (ag_config a)) (inc_boot (ag_incarnation a)) (inc_epoch (ag_incarnation a)).

Definition commit_marker_for a (message : CommitRequest) (stored_bytes now : Z) : CommitMarker :=
  let object := co_object message in
  seal (mkMarker (co_movement_id message) (co_movement_generation message) object (co_source message)
          (ec_endpoint_id (ag_config a)) (own_incarnation a) (d_content_digest object) stored_bytes
          (d_chunk_count object) now zero_digest).

Definition on_commit_request (message : CommitRequest) : Ag unit :=
  let$ flag := peek (fun a => ag_cancellations a !! co_movement_id message) in
  let$ cancelled := peek (fun a => match flag with Some f => flag_set a f | None => false end) in
  let$ options := peek (fun a => agent_store (ag_config a)) in
  let v := version_of (co_object message) in
  if cancelled then
    reject_commit message RC.MOVEMENT_CANCELLED (lit "the movement was cancelled before the commit barrier")
  else
    let$ present := disk_peek (fun d => object_present d v) in
    if negb present then
      reject_commit message RC.OBJECT_NOT_FOUND (lit "no bytes are placed for that object version")
    else
      let$ digest := eff_try (on_store (digest_object options v)) in
      match digest with
      | Err e => reject_commit message (st_code e) (st_message e)
      | Ok (digest, stored_bytes) =>
          if negb (bytes_eqb digest (d_content_digest (co_object message))) then
            reject_commit message RC.CONTENT_DIGEST_MISMATCH
              (lit "the stored bytes no longer hash to the authorized content digest")
          else if negb (stored_bytes =? d_total_bytes (co_object message)) then
            reject_commit message RC.BYTE_COUNT_MISMATCH (lit "the stored byte count changed before commit")
          else
            let$ now := agent_now in
            let$ marker := peek (fun a => commit_marker_for a message stored_bytes now) in
            let$ written := eff_try (on_store (write_commit_marker options marker)) in
            match written with
            | Err e => reject_commit message (st_code e) (st_message e)
            | Ok _ =>
                tell (mkCommitResult (co_movement_id message) (co_movement_generation message) RC.OK
                        (cm_marker_digest marker) (lit "commit marker written"))
            end
      end.

(** The response to a probe as it is before an answer is filled in, and the
    lambda [reply]. *)
Definition no_verify_response (message : VerifyRequest) (code : ReasonCode) : VerifyResponse :=
  mkVerifyResponse (vq_movement_id message) (vq_object_id message) (vq_object_generation message) code
    zero_digest 0 0 0 zero_digest [].

Definition on_verify_request (message : VerifyRequest) : Ag unit :=
  let v := (vq_object_id message, vq_object_generation message) in
  let refuse code := tell (no_verify_response message code) in
  let$ options := peek (fun a => agent_store (ag_config a)) in
  let$ present := disk_peek (fun d => object_present d v) in
  if negb present then refuse RC.OBJECT_VERSION_NOT_FOUND
  else if vq_full_digest_requested message then
    let$ digest := eff_try (on_store (digest_object options v)) in
    match digest with
    | Err e => refuse (st_code e)
    | Ok (digest, stored_bytes) =>
        tell (mkVerifyResponse (vq_movement_id message) (vq_object_id message) (vq_object_generation message)
                RC.OK digest stored_bytes 0 0 zero_digest [])
    end
  else
    match checked_mul (vq_chunk_index message) (vq_chunk_bytes message) with
    | None => refuse RC.SIZE_OVERFLOW
    | Some offset =>
        let$ size := disk_peek (fun d => object_size d v) in
        match size with
        | Err e => refuse (st_code e)
        | Ok size =>
            if size <=? offset then refuse RC.CHUNK_INDEX_OUT_OF_RANGE
            else
              let length := Z.min (vq_chunk_bytes message) (size - offset) in
              let$ payload := eff_try (on_store (read_range options v offset length (vq_chunk_bytes message))) in
              match payload with
              | Err e => refuse (st_code e)
              | Ok payload =>
                  tell (mkVerifyResponse (vq_movement_id message) (vq_object_id message)
                          (vq_object_generation message) RC.OK zero_digest size 0 (vq_chunk_index message)
                          (compute_chunk_digest (vq_object_id message) (vq_object_generation message)
                             (vq_chunk_index message) offset length payload) payload)
              end
        end
    end.

(** The wire report of the storage layer's view. *)
Definition authority_report (message : AuthorityQuery) (authority : ObjectAuthority) (placed : bool)
    : AuthorityReport :=
  mkAuthorityReport (aq_movement_id message) (oa_code authority)
    (if oa_bytes_present authority then true else placed)
    (oa_marker_present authority && oa_authoritative authority) (oa_marker_present authority)
    (oa_authoritative authority) (oa_marker_digest authority) (oa_stored_bytes authority) (oa_detail authority).

Definition on_authority_query (message : AuthorityQuery) : Ag unit :=
  let v := (aq_object_id message, aq_object_generation message) in
  let$ options := peek (fun a => agent_store (ag_config a)) in
  let$ found := eff_try (on_store (authority options v)) in
  let$ placed := disk_peek (fun d => object_present d v) in
  tell match found with
       | Ok found => authority_report message found placed
       | Err e => mkAuthorityReport (aq_movement_id message) (st_code e) placed false false false zero_digest 0
                    (st_message e)
       end.

Definition on_cleanup_request (message : CleanupRequest) : Ag unit :=
  let target := mkCleanup (kq_movement_id message) (replicate kDigestBytes x00) 0 (kq_quarantine message) false in
  let$ cleaned := eff_try (on_store (cleanup target)) in
  update (fun a => set_grants a (filter (fun e => tg_movement_id (ge_grant e.2) <> kq_movement_id message)
                                   (ag_grants a))) ;$
  clear_cancellation (kq_movement_id message) ;$
  tell match cleaned with
       | Ok (removed, entries) =>
           mkCleanupResult (kq_movement_id message) RC.OK removed entries (lit "staging removed")
       | Err e => mkCleanupResult (kq_movement_id message) (st_code e) 0 0 (st_message e)
       end.

Definition on_cancel (message : CancelRequest) : Ag unit :=
  update (fun a =>
    match ag_cancellations a !! cq_movement_id message with
    | Some flag => set_cancels a (ag_cancellations a) (<[flag := true]> (ag_flags a)) (ag_fresh a)
    | None => set_cancels a (<[cq_movement_id message := ag_fresh a]> (ag_cancellations a))
                (<[ag_fresh a := true]> (ag_flags a)) (Datatypes.S (ag_fresh a))
    end) ;$
  tell (mkCancelAck (cq_movement_id message) (cq_movement_generation message) RC.OK (lit "cancellation recorded")).

(** Decoding the payload of a control frame. *)
Definition control_message (T : Type) `{!WireMessage T} (frame : Frame) : Ag T := eff_lift (decode_message T frame).

Definition handle_control (frame : Frame) : Ag unit :=
  match fh_type (fr_header frame) with
  | MT.GRANT_TRANSFER => let$ m := control_message GrantTransfer frame in on_grant (gt_grant m)
  | MT.EXECUTE_MOVEMENT => let$ m := control_message ExecuteMovement frame in on_execute m
  | MT.COMMIT_REQUEST => let$ m := control_message CommitRequest frame in on_commit_request m
  | MT.VERIFY_REQUEST => let$ m := control_message VerifyRequest frame in on_verify_request m
  | MT.AUTHORITY_QUERY => let$ m := control_message AuthorityQuery frame in on_authority_query m
  | MT.CLEANUP_REQUEST => let$ m := control_message CleanupRequest frame in on_cleanup_request m
  | MT.CANCEL => let$ m := control_message CancelRequest frame in on_cancel m
  | MT.HEARTBEAT => send_control MT.HEARTBEAT_ACK (enc_text (lit "SMF-MSG-HEARTBEAT-ACK-v1"))
  | MT.ANNOUNCE_ACK | MT.GRANT_ACK | MT.CANCEL_ACK | MT.SHUTDOWN_ACK | MT.ERROR => eff_ret tt
  | MT.SHUTDOWN => agent_shutdown
  | type => eff_lift (Err (mkStatus RC.PROTOCOL_UNKNOWN_MESSAGE
              (lit "the endpoint does not accept " ++ message_type_to_string type ++
               lit " on the coordinator link")))
  end.

(** *** The reader thread *)

(** The link failed: waiters are released, and every grant and cancellation the
    session carried dies with it. *)
Definition link_lost : Ag unit :=
  update (fun a => match ag_control a with Some l => release_waiters a l (al_alive l) | None => a end) ;$
  update (fun a => set_grants a ∅) ;$
  update (fun a => set_cancels a ∅ (ag_flags a) (ag_fresh a)).

(** A frame completes the request that waits for its type, or is handled. *)
Definition control_frame (frame : Frame) : Ag unit :=
  let key := message_type_to_string (fh_type (fr_header frame)) in
  let$ completed := shared (fun a s =>
    match ag_control a with
    | Some l =>
        match al_pending l !! key with
        | Some promise =>
            (set_control a (Some (mkAgentLink (al_stream l) (al_alive l) (delete key (al_pending l))))
               (<[promise := frame]> (ag_ready a)) (ag_fresh a), s, true)
        | None => (a, s, false)
        end
    | None => (a, s, false)
    end) in
  if completed then eff_ret tt
  else
    let$ handled := eff_try (handle_control frame) in
    match handled with
    | Ok _ => eff_ret tt
    | Err e => let$ _ := eff_try (tell (mkErrorMessage (st_code e) (st_message e))) in eff_ret tt
    end.

Definition receive_control : Ag (Result Frame) :=
  shared (fun a s =>
    match ag_control a with
    | Some l => let '(stream, frame) := FrameStream_receive (al_stream l) in
                (set_control a (Some (mkAgentLink stream (al_alive l) (al_pending l))) (ag_ready a) (ag_fresh a),
                 s, frame)
    | None => (a, s, link_down)
    end).

(** [fuel] bounds the frames the session lives for. *)
Fixpoint control_reader_loop (fuel : nat) : Ag unit :=
  match fuel with
  | O => eff_ret tt
  | Datatypes.S fuel =>
      let$ stopping := peek ag_stopping in
      if stopping then eff_ret tt
      else
        let$ frame := receive_control in
        match frame with
        | Err _ => link_lost
        | Ok frame => control_frame frame ;$ control_reader_loop fuel
        end
  end.
End steps.

(** ** The digest of a placed object *)

Lemma read_extends file off n w w' buf : read_file file off n w = (w', Ok buf) ->
  w_disk w' = w_disk w /\ take off file ++ buf = take (off + length buf) file.
Proof.
  intros H. apply read_file_Ok in H as [Hd [k ->]]. split; [done|].
  rewrite <- take_take_drop. f_equal. rewrite take_take, length_take.
  destruct (decide (k `min` n <= length (drop off file))%nat); [rewrite (Nat.min_l (k `min` n)) by lia; reflexivity|].
  rewrite (Nat.min_r (k `min` n)) by lia. rewrite !take_ge by lia. done.
Qed.

Lemma finalize_prefix file k h : hashed (take k file) h -> Sha256_finalize h = sha256 (take k file).
Proof. intros H. rewrite sha256_is_spec. by apply finalize_hashed. Qed.

(** Whatever the reads do, the digest is that of a prefix of the file, with that
    prefix's length. *)
Lemma digest_loop_prefix fuel file : forall off h total w w' dg n,
  digest_loop fuel file off h total w = (w', Ok (dg, n)) -> hashed (take off file) h ->
  total = wrap 64 (Z.of_nat off) ->
  w_disk w' = w_disk w /\ exists k, dg = sha256 (take k file) /\ n = wrap 64 (Z.of_nat k).
Proof.
  induction fuel as [|fuel IH]; intros off h total w w' dg n H Hh Ht; cbn [digest_loop] in H.
  { injection H as <- <- <-. split; [done|]. exists off. by rewrite (finalize_prefix _ _ _ Hh). }
  apply io_bind_Ok in H as (buf & w1 & Hr & H). apply read_extends in Hr as [Hd Hp].
  destruct (zlen buf =? 0).
  { injection H as <- <- <-. split; [done|]. exists off. by rewrite (finalize_prefix _ _ _ Hh). }
  assert (hashed (take (off + length buf) file) (Sha256_update h buf)) as Hh1
    by (rewrite <- Hp; by apply hashed_update).
  assert (wrap 64 (total + zlen buf) = wrap 64 (Z.of_nat (off + length buf))) as Ht1
    by (rewrite Ht, wrap_add_l; unfold zlen; f_equal; lia).
  destruct (zlen buf <? kCopyBufferBytes).
  - injection H as <- <- <-. split; [done|]. exists (off + length buf)%nat.
    by rewrite (finalize_prefix _ _ _ Hh1).
  - destruct (IH _ _ _ _ _ _ _ H Hh1 Ht1) as [Hd2 Hk]. by rewrite Hd2.
Qed.

Lemma digest_object_prefix o v w w' dg n : digest_object o v w = (w', Ok (dg, n)) ->
  w_disk w' = w_disk w /\ exists file k, object_file (w_disk w) v = Some file /\
    dg = sha256 (take k file) /\ n = wrap 64 (Z.of_nat k).
Proof.
  intros H. unfold digest_object in H. iostep H. iofacts. iostep H. apply open_read_Ok in E as [Hd Hf].
  apply digest_loop_prefix in H as (Hd2 & k & H); [|by apply hashed_reset|done].
  split; [congruence|]. match goal with Hf : object_file _ _ = Some ?f |- _ => by exists f, k end.
Qed.

(** Without faults it is the whole file. *)
Lemma digest_loop_whole d file fuel : forall off h total,
  hashed (take off file) h -> total = wrap 64 (Z.of_nat off) -> (off <= length file)%nat ->
  (length file - off < fuel)%nat ->
  digest_loop fuel file off h total (mkWorld d []) = (mkWorld d [], Ok (sha256 file, wrap 64 (zlen file))).
Proof.
  assert (exists block, Z.to_nat kCopyBufferBytes = block /\ kCopyBufferBytes = Z.of_nat block) as (block & Eb & Ez)
    by (eexists; split; [reflexivity|]; by rewrite Z2Nat.id).
  assert (0 < kCopyBufferBytes) as Hk by done.
  induction fuel as [|fuel IH]; intros off h total Hh Ht Hoff Hf; [lia|]. cbn [digest_loop]. rewrite Eb.
  rewrite (io_bind_step _ _ _ _ _ (read_file_quiet file off block d)).
  destruct (read_extends file off block _ _ _ (read_file_quiet file off block d)) as [_ Hp].
  assert (length (take block (drop off file)) = block `min` (length file - off))%nat as Hlen
    by (by rewrite length_take, length_drop).
  revert Hp Hlen. generalize (take block (drop off file)). intros buf Hp Hlen.
  assert (hashed (take (off + length buf) file) (Sha256_update h buf)) as Hh1
    by (rewrite <- Hp; by apply hashed_update).
  assert (wrap 64 (total + zlen buf) = wrap 64 (Z.of_nat (off + length buf))) as Ht1
    by (rewrite Ht, wrap_add_l; unfold zlen; f_equal; lia).
  destruct (Z.eqb_spec (zlen buf) 0) as [E|E]; unfold zlen in *.
  - assert (off = length file) as -> by lia.
    unfold io_ret. rewrite (finalize_prefix file (length file)) by done. rewrite take_ge by lia. by rewrite Ht.
  - destruct (Z.ltb_spec (Z.of_nat (length buf)) kCopyBufferBytes) as [El|El].
    + assert (off + length buf = length file)%nat as Hall by lia. rewrite Hall in *.
      unfold io_ret. rewrite (finalize_prefix file (length file)) by done. by rewrite Ht1, take_ge by lia.
    + apply IH; [done|done|lia|lia].
Qed.

Lemma digest_object_whole o v d file : object_file d v = Some file ->
  digest_object o v (mkWorld d []) = (mkWorld d [], Ok (sha256 file, wrap 64 (zlen file))).
Proof.
  intros Hf. unfold digest_object. rewrite (io_bind_step _ _ (mkWorld d []) (mkWorld d []) d); [|done].
  rewrite (io_bind_step _ _ (mkWorld d []) (mkWorld d []) file); [|rewrite Hf; apply open_read_quiet].
  apply digest_loop_whole; [apply hashed_reset|done|lia|lia].
Qed.

(** ** The marker a commit leaves *)

Lemma existing_marker_Some o v w w' m : existing_marker o v w = (w', Ok (Some m)) ->
  exists f, dk_commits (w_disk w) !! v = Some f /\ decode_existing f = Some m.
Proof.
  unfold existing_marker. destruct (dk_commits (w_disk w) !! v) as [f|]; [|done].
  match goal with |- context [match ?att w with _ => _ end] => set (attempt := att) end.
  destruct (attempt w) as [w1 [x|e]] eqn:E; [|done]. intros [= <- ->]. exists f. split; [done|].
  unfold attempt in E. iostep E. apply open_read_Ok in E0 as [_ [= ->]].
  iostep E. apply size_of_Ok in E0 as [_ ->]. destruct (negb _); [done|].
  iostep E. destruct (negb (_ =? _)) eqn:El; [done|]. b2p.
  match goal with H : read_file _ _ _ _ = _ |- _ => apply read_whole in H as [_ ->]; [|done] end.
  by injection E as _ <-.
Qed.

Lemma to_write_seal m : to_write (seal m) = seal m.
Proof. unfold to_write. by destruct (array_is_zero _). Qed.

(** [d'] is [d] with [m] filed: newly, or under the same digest before. *)
Definition filed (m : CommitMarker) (d d' : Disk) : Prop :=
  let v := version_of (cm_object m) in
  d' = set_commit v (marker_contents m) d \/
  (d' = d /\ exists f m0, dk_commits d !! v = Some f /\ decode_existing f = Some m0 /\
     cm_marker_digest m0 = cm_marker_digest m).

Lemma write_commit_marker_filed o m w w' : write_commit_marker o m w = (w', Ok tt) ->
  filed (to_write m) (w_disk w) (w_disk w') /\ sealed (to_write m) /\ valid_marker (to_write m).
Proof.
  intros H. pose proof (write_commit_marker_cases o m w w' _ H) as [Hd Hg]. specialize (Hg eq_refl).
  split; [|done]. unfold filed. rewrite to_write_version. destruct Hd as [Hd|[_ Hd]]; [|by left].
  unfold write_commit_marker in H. fold (to_write m) in H. rewrite to_write_version in H.
  do 2 (iostep H; iofacts). apply io_bind_Ok in H as ([m0|] & w1 & Ex & H).
  - right. split; [done|]. apply existing_marker_Some in Ex as (f & Hf & Hm). exists f, m0.
    destruct (bytes_eqb (cm_marker_digest m0) _) eqn:Eb; [|done]. by apply bytes_eqb_eq in Eb.
  - left. apply existing_marker_disk in Ex as [Ed _]. apply io_bind_Ok in H as (u & w2 & E2 & H). apply file_op_Ok in E2.
    apply (atomic_replace_commit o) in H as [[_ H]|[[e He] _]]; [congruence|discriminate He].
Qed.

Lemma write_commit_marker_fails o m w w' e : write_commit_marker o m w = (w', Err e) -> w_disk w' = w_disk w.
Proof. intros H. apply write_commit_marker_cases in H as [[H|[He _]] _]; [done|discriminate He]. Qed.

(** ** Running alone *)

(** The rules of [ends] for a thread that is not interfered with. *)
Section alone.
Context {C S : Type} `{!Connection C, !EntropySource S}.
Implicit Types (w : AWorld C S) (a : Agent C) (s : World).

Definition alone w : Prop := forall n a d, aw_others w n a d = (a, d).

(** [w] is where the thread that started in [w0] has got to: agent [a], store
    [s], events [es] since. *)
Definition arrives w0 a s (es : list AgentEvent) w : Prop :=
  alone w /\ aw_agent w = a /\ aw_store w = s /\ aw_events w = es ++ aw_events w0.

Lemma arrives_refl w : alone w -> arrives w (aw_agent w) (aw_store w) [] w.
Proof. by intros. Qed.

Lemma at_shared {A} (f : Agent C -> World -> Agent C * World * A) w0 a s es w (Q : AWorld C S -> Result A -> Prop) :
  arrives w0 a s es w ->
  (forall w', arrives w0 (f a s).1.1 (f a s).1.2 es w' -> Q w' (Ok (f a s).2)) -> ends (shared f) w Q.
Proof.
  intros (Hal & <- & <- & He) H. unfold ends, shared. rewrite Hal. destruct (aw_store w) as [d io] eqn:Es.
  cbn [w_disk w_io]. destruct (f (aw_agent w) (mkWorld d io)) as [[a' s'] x]. by apply H.
Qed.

Lemma at_peek {A} (f : Agent C -> A) w0 a s es w (Q : AWorld C S -> Result A -> Prop) :
  arrives w0 a s es w -> (forall w', arrives w0 a s es w' -> Q w' (Ok (f a))) -> ends (peek f) w Q.
Proof. intros Hb H. by apply (at_shared _ w0 a s es). Qed.

Lemma at_update (f : Agent C -> Agent C) w0 a s es w (Q : AWorld C S -> Result unit -> Prop) :
  arrives w0 a s es w -> (forall w', arrives w0 (f a) s es w' -> Q w' (Ok tt)) -> ends (update f) w Q.
Proof. intros Hb H. by apply (at_shared _ w0 a s es). Qed.

Lemma at_disk_peek {A} (f : Disk -> A) w0 a s es w (Q : AWorld C S -> Result A -> Prop) :
  arrives w0 a s es w -> (forall w', arrives w0 a s es w' -> Q w' (Ok (f (w_disk s)))) -> ends (disk_peek f) w Q.
Proof. intros Hb H. by apply (at_shared _ w0 a s es). Qed.

Lemma at_store {A} (m : IO A) w0 a s es w (Q : AWorld C S -> Result A -> Prop) : arrives w0 a s es w ->
  (forall w' s' x, m s = (s', x) -> arrives w0 a s' es w' -> Q w' x) -> ends (on_store m) w Q.
Proof.
  intros Hb H. unfold on_store. apply ends_bind, (at_shared _ w0 a s es); [done|].
  destruct (m s) as [s' x] eqn:E. intros w' Hw. apply ends_lift, (H w' s'); [done|exact Hw].
Qed.

Lemma at_clock w0 a s es w (Q : AWorld C S -> Result Z -> Prop) : arrives w0 a s es w ->
  (forall w' now, arrives w0 a s es w' -> Q w' (Ok now)) -> ends agent_now w Q.
Proof. intros Hb H. by apply H. Qed.

Lemma at_observe e w0 a s es w (Q : AWorld C S -> Result unit -> Prop) : arrives w0 a s es w ->
  (forall w', arrives w0 a s (e :: es) w' -> Q w' (Ok tt)) -> ends (observe e) w Q.
Proof. intros (Hal & Ha & Hs & He) H. apply H. split_and!; try done. simpl. by rewrite He. Qed.

(** Sending changes the control stream and leaves a trace, whether or not it
    succeeds. *)
Definition after_send a (control : option (AgentLink C)) : Agent C := set_control a control (ag_ready a) (ag_fresh a).

Lemma after_send_same a : after_send a (ag_control a) = a.
Proof. by destruct a. Qed.

Lemma at_send_control type payload w0 a s es w (Q : AWorld C S -> Result unit -> Prop) : arrives w0 a s es w ->
  (forall w' c x, arrives w0 (after_send a c) s (Told type payload (is_ok x) :: es) w' -> Q w' x) ->
  ends (send_control type payload) w Q.
Proof.
  intros Hb H. unfold send_control.
  apply ends_bind, (at_shared _ w0 a s es); [done|].
  assert (forall sent w' c, arrives w0 (after_send a c) s es w' ->
            ends (observe (Told type payload (is_ok sent)) ;$ eff_lift sent) w' Q) as Hend.
  { intros sent w' c Hw. apply ends_bind, (at_observe _ w0 _ s es w' _ Hw). intros w2 Hw2.
    apply ends_lift. by apply (H w2 c sent). }
  destruct (ag_control a) as [l|] eqn:Ec; [destruct (al_alive l); cbn [negb]|].
  - destruct (FrameStream_send _ _ _ _) as [stream sent]. intros w' Hw. exact (Hend sent w' _ Hw).
  - intros w' Hw. eapply (Hend _ _ (ag_control a)). by rewrite after_send_same.
  - intros w' Hw. eapply (Hend _ _ (ag_control a)). by rewrite after_send_same.
Qed.

(** *** The commit barrier at the destination *)

(** A rejection: told to the coordinator and returned, with nothing filed. *)
Definition rejected (m : CommitRequest) w w' (x : Result unit) : Prop :=
  exists code detail told, x = Err (mkStatus code detail) /\ w_disk (aw_store w') = w_disk (aw_store w) /\
    aw_events w' = Told MT.COMMIT_RESULT
      (CommitResult_encode (mkCommitResult (co_movement_id m) (co_movement_generation m) code zero_digest detail))
      told :: aw_events w.

Lemma reject_ends m code detail w0 a s w (Q : AWorld C S -> Result unit -> Prop) : arrives w0 a s [] w ->
  w_disk s = w_disk (aw_store w0) -> (forall w' x, rejected m w0 w' x -> Q w' x) ->
  ends (reject_commit m code detail) w Q.
Proof.
  intros Hb Hd H. unfold reject_commit, tell. apply ends_bind, ends_try.
  apply (at_send_control _ _ w0 a s []); [done|]. intros w' c x (_ & _ & Hs & He). apply ends_lift, H.
  exists code, detail, (is_ok x). split; [done|]. split; [congruence|exact He].
Qed.

(** An acceptance: the placed bytes are the authorized ones and the marker that
    says so is filed. *)
Definition committed (m : CommitRequest) w w' : Prop :=
  let d := w_disk (aw_store w) in let object := co_object m in
  exists file k marker told,
    object_file d (version_of object) = Some file /\ sha256 (take k file) = d_content_digest object /\
    wrap 64 (Z.of_nat k) = d_total_bytes object /\ (w_io (aw_store w) = [] -> take k file = file) /\
    cm_movement_id marker = co_movement_id m /\ cm_movement_generation marker = co_movement_generation m /\
    cm_object marker = object /\ cm_source marker = co_source m /\
    sealed marker /\ valid_marker marker /\ filed marker d (w_disk (aw_store w')) /\
    aw_events w' = Told MT.COMMIT_RESULT
      (CommitResult_encode (mkCommitResult (co_movement_id m) (co_movement_generation m) RC.OK
         (cm_marker_digest marker) (lit "commit marker written"))) told :: aw_events w.

Lemma digest_object_disk o v (w w' : World) x : digest_object o v w = (w', x) -> w_disk w' = w_disk w.
Proof.
  assert (keeps eq (digest_object o v)) as Hk; [|intros H; symmetry; by eapply Hk].
  assert (forall fuel file off h t, keeps eq (digest_loop fuel file off h t)) as Hloop.
  { induction fuel as [|fuel IH]; intros file off h t; cbn [digest_loop]; [by keeps_tac|].
    keeps_tac; try apply IH. }
  unfold digest_object. apply keeps_bind; [apply _|by keeps_tac|]. intros d.
  apply keeps_bind; [apply _|apply keeps_open; apply _|]. intros file. apply Hloop.
Qed.

Lemma digest_step o v (w w' : World) dg n : digest_object o v w = (w', Ok (dg, n)) ->
  w_disk w' = w_disk w /\ exists file k, object_file (w_disk w) v = Some file /\ dg = sha256 (take k file) /\
    n = wrap 64 (Z.of_nat k) /\ (w_io w = [] -> take k file = file).
Proof.
  intros H. destruct (digest_object_prefix o v w w' dg n H) as (Hd & file & k & Hf & Hdg & Hn). split; [done|].
  destruct w as [d io]. cbn [w_disk w_io] in *. destruct io as [|x io]; [|exists file, k; by split_and!].
  rewrite (digest_object_whole o v d file Hf) in H. injection H as <- <- <-.
  exists file, (length file). rewrite firstn_all. unfold zlen. by split_and!.
Qed.

Lemma commit_ends m w : alone w ->
  ends (on_commit_request m) w (fun w' x => committed m w w' \/ rejected m w w' x).
Proof.
  intros Hal. set (Q := fun w' x => _). set (a := aw_agent w). set (s := aw_store w). set (v := version_of (co_object m)).
  assert (forall code detail w' s', arrives w a s' [] w' -> w_disk s' = w_disk s ->
            ends (reject_commit m code detail) w' Q) as Hrej.
  { intros code detail w' s' Hb Hd. eapply reject_ends; [exact Hb|exact Hd|]. intros w2 x H. by right. }
  pose proof (arrives_refl w Hal) as Hb. fold a s in Hb. unfold on_commit_request. fold v.
  do 3 (apply ends_bind; eapply at_peek; [eassumption|]; clear Hb; intros ? Hb).
  destruct (match _ with Some _ => _ | None => _ end); [by eapply Hrej|].
  apply ends_bind; eapply at_disk_peek; [exact Hb|]; clear Hb; intros w1 Hb. destruct (negb _); [by eapply Hrej|].
  apply ends_bind, ends_try. eapply at_store; [exact Hb|]. clear Hb. intros w2 s2 [[dg n]|e] Ed Hb.
  2: { eapply Hrej; [exact Hb|]. by eapply digest_object_disk. }
  apply digest_step in Ed as (Hd2 & file & k & Hf & -> & -> & Hwhole).
  destruct (negb (bytes_eqb _ _)) eqn:E1; [by eapply Hrej|]. destruct (negb (_ =? _)) eqn:E2; [by eapply Hrej|]. b2p.
  apply ends_bind. eapply at_clock; [exact Hb|]. clear Hb. intros w3 now Hb.
  apply ends_bind. eapply at_peek; [exact Hb|]. clear Hb. intros w4 Hb.
  apply ends_bind, ends_try. eapply at_store; [exact Hb|]. clear Hb. intros w5 s5 [[]|e] Ew Hb.
  2: { eapply Hrej; [exact Hb|]. apply write_commit_marker_fails in Ew. congruence. }
  unfold tell. eapply at_send_control; [exact Hb|]. intros w6 c x (_ & _ & Hs & He). left.
  apply write_commit_marker_filed in Ew as (Hfiled & Hsealed & Hvalid).
  unfold commit_marker_for in Hfiled, Hsealed, Hvalid. rewrite to_write_seal in Hfiled, Hsealed, Hvalid.
  exists file, k, (commit_marker_for a m (wrap 64 (Z.of_nat k)) now), (is_ok x).
  fold s v. rewrite Hs, <- Hd2. split_and!; try done. by rewrite Hd2.
Qed.
End alone.

(** ** Epochs *)

Lemma parse_digits fuel : forall v acc, 0 <= v < 10 ^ Z.of_nat fuel -> v < 2 ^ 64 ->
  parse_epoch (dec_digits fuel v acc) 0 = parse_epoch acc v.
Proof.
  induction fuel as [|fuel IH]; intros v acc Hv Hlt; cbn [dec_digits].
  { assert (v = 0) as -> by (cbn in Hv; lia). done. }
  assert (forall e n, 0 <= n < 10 -> 0 <= e -> e * 10 + n < 2 ^ 64 ->
            parse_epoch (bz (48 + n) :: acc) e = parse_epoch acc (e * 10 + n)) as Hstep.
  { intros e n Hn He Hb. cbn [parse_epoch]. rewrite zb_bz_small by lia.
    replace ((48 + n <? 48) || (57 <? 48 + n)) with false by (symmetry; apply orb_false_iff; rewrite !Z.ltb_ge; lia).
    rewrite wrap_small by (unfold in_u; lia). f_equal. lia. }
  destruct (Z.ltb_spec v 10).
  - rewrite Z.mod_small by lia. rewrite Hstep by lia. done.
  - assert (Hp : 10 ^ Z.of_nat (S fuel) = 10 * 10 ^ Z.of_nat fuel) by (rewrite Nat2Z.inj_succ, Z.pow_succ_r; lia).
    rewrite IH by zdiv. rewrite Hstep by zdiv. f_equal. zdiv.
Qed.

Lemma parse_epoch_to_string v : in_u 64 v -> parse_epoch (std_to_string v) 0 = v.
Proof. intros Hv. unfold std_to_string. unfold in_u in Hv. rewrite parse_digits; [done| |lia]. split; [lia|]. etrans; [apply Hv|done]. Qed.

(** The contents of the epoch file after a start with epoch [e]; no file yet
    counts as zero. *)
Definition epoch_file (file : option bytes) (e : Z) : Prop :=
  file = Some (std_to_string e) \/ (file = None /\ e = 0).

Lemma read_entire_Ok path file max w w' buf : read_entire_file path file max w = (w', Ok buf) -> buf = file.
Proof.
  intros H. unfold read_entire_file in H. iostep H. apply open_read_Ok in E as [_ E]. injection E as <-.
  iostep H. apply size_of_Ok in E as [_ ->]. iostep H. iofacts. destruct (zlen file =? 0) eqn:Ez.
  - iofacts. b2p. symmetry. by apply zlen_nil.
  - iostep H. iostep H. iofacts. b2p.
    match goal with E : read_file _ _ _ _ = _ |- _ => by apply read_whole in E as [_ ->] end.
Qed.

Lemma previous_epoch_spec config w file e w' file' x : in_u 64 e -> epoch_file file e ->
  previous_epoch config (w, file) = ((w', file'), x) -> file' = file /\ (forall n, x = Ok n -> n = e).
Proof.
  intros He Hf. unfold previous_epoch. cbn [snd]. destruct Hf as [->|[-> ->]].
  - unfold eff_bind, boot_io. destruct (read_entire_file _ _ _ w) as [w1 [buf|err]] eqn:E.
    + apply read_entire_Ok in E as ->. intros [= <- <- <-]. split; [done|].
      intros n [= <-]. by apply parse_epoch_to_string.
    + by intros [= <- <- <-].
  - intros [= <- <- <-]. split; [done|]. by intros n [= <-].
Qed.

(** A start leaves the epoch file as it was or one further, and an agent that
    came up has the epoch that is on disk. *)
Lemma start_epoch {C : Type} config boot listening w file e w' file' (x : Result (Agent C)) :
  0 <= e < u64_max -> epoch_file file e -> agent_start config boot listening (w, file) = ((w', file'), x) ->
  (file' = file \/ file' = Some (std_to_string (e + 1))) /\
  (forall a, x = Ok a -> file' = Some (std_to_string (e + 1)) /\ inc_epoch (ag_incarnation a) = e + 1).
Proof.
  intros He Hf H. assert (in_u 64 e) as Hin by (unfold in_u, u64_max in *; lia).
  refine (ends_elim _ _ _ _ (fun st r => (st.2 = file \/ st.2 = Some (std_to_string (e + 1))) /\
    (forall a, r = Ok a -> st.2 = Some (std_to_string (e + 1)) /\ inc_epoch (ag_incarnation a) = e + 1)) _ H).
  clear H. unfold agent_start.
  do 3 (apply ends_bind, ends_reject; intros _; [by split; [left|]|]).
  apply ends_bind, ends_lift. destruct (MovementPolicy_validate _); [|by split; [left|]].
  apply ends_bind. unfold boot_io, ends at 1. destruct (ObjectStore_open _ w) as [w1 [o|err]]; [|by split; [left|]].
  apply ends_bind, ends_bind. unfold ends at 1.
  destruct (previous_epoch config (w1, file)) as [[w2 f2] p] eqn:Ep.
  apply (previous_epoch_spec _ _ _ e) in Ep as [-> Hp]; [|done..]. destruct p as [n|err]; [|by split; [left|]].
  rewrite (Hp n eq_refl). rewrite wrap_small by (unfold in_u, u64_max in *; lia).
  apply ends_bind. unfold write_epoch, ends at 1.
  destruct (atomic_replace _ _ _ w2) as [w3 [[]|err]]; [|by split; [left|]]. apply ends_ret.
  apply ends_bind, ends_lift. unfold Incarnation_make. destruct (negb _); [by split; [right|]|].
  destruct (bytes_eqb _ _); [by split; [right|]|]. destruct (array_is_zero boot); [by split; [right|]|].
  apply ends_bind, ends_lift. destruct listening; [|by split; [right|]]. apply ends_ret.
  split; [by right|]. by intros ? [= <-].
Qed.

(** ** Reports and cancellations *)

Lemma authority_quiet o v d m file : marker_at d v m -> object_file d v = Some file -> zlen file = cm_stored_bytes m ->
  exists report, authority o v (mkWorld d []) = (mkWorld d [], Ok report) /\ oa_marker_present report = true /\
    oa_authoritative report = true /\ oa_marker_digest report = cm_marker_digest m.
Proof.
  intros Hm Hf Hl. unfold authority. rewrite (read_commit_marker_quiet o v d m Hm). cbn [w_disk].
  unfold object_present, object_size. rewrite Hf. cbn [negb]. rewrite Hl, Z.eqb_refl. cbn [negb].
  eexists. split; [reflexivity|done].
Qed.

Section handlers.
Context {C S : Type} `{!Connection C, !EntropySource S}.
Implicit Types w : AWorld C S.

Lemma query_ends q m file w : alone w -> w_io (aw_store w) = [] ->
  marker_at (w_disk (aw_store w)) (aq_object_id q, aq_object_generation q) m ->
  object_file (w_disk (aw_store w)) (aq_object_id q, aq_object_generation q) = Some file ->
  zlen file = cm_stored_bytes m ->
  ends (on_authority_query q) w (fun w' _ => exists report told,
    aw_events w' = Told MT.AUTHORITY_REPORT (AuthorityReport_encode report) told :: aw_events w /\
    ap_movement_id report = aq_movement_id q /\ ap_marker_present report = true /\
    ap_authoritative report = true /\ ap_verified report = true /\ ap_marker_digest report = cm_marker_digest m).
Proof.
  intros Hal Hio Hm Hf Hl. pose proof (arrives_refl w Hal) as Hb. unfold on_authority_query.
  apply ends_bind. eapply at_peek; [exact Hb|]. clear Hb. intros w1 Hb.
  apply ends_bind, ends_try. eapply at_store; [exact Hb|]. clear Hb. intros w2 s2 x Ea Hb.
  destruct (aw_store w) as [d io]. cbn [w_io w_disk] in *. subst io.
  destruct (authority_quiet (agent_store (ag_config (aw_agent w))) _ d m file Hm Hf Hl) as (r & Er & H1 & H2 & H3).
  rewrite Er in Ea. injection Ea as <- <-.
  apply ends_bind. eapply at_disk_peek; [exact Hb|]. clear Hb. intros w3 Hb.
  unfold tell. eapply at_send_control; [exact Hb|]. intros w4 c x (_ & _ & _ & He).
  eexists _, (is_ok x). split; [exact He|]. unfold authority_report. cbn. by rewrite H1, H2, H3.
Qed.

(** The movement's cancellation as the table has it. *)
Definition cancelled_now (a : Agent C) (id : bytes) : option bool := flag_set a <$> ag_cancellations a !! id.

Lemma cancel_sets m w : alone w ->
  ends (on_cancel m) w (fun w' _ => alone w' /\ cancelled_now (aw_agent w') (cq_movement_id m) = Some true).
Proof.
  intros Hal. pose proof (arrives_refl w Hal) as Hb. unfold on_cancel.
  apply ends_bind. eapply at_update; [exact Hb|]. clear Hb. intros w1 Hb.
  unfold tell. eapply at_send_control; [exact Hb|]. intros w2 c x (Hal2 & Ha & _). split; [done|].
  rewrite Ha. unfold cancelled_now, flag_set.
  destruct (ag_cancellations (aw_agent w) !! cq_movement_id m) as [f|] eqn:E; cbn.
  - rewrite E. simpl. by rewrite lookup_insert_eq.
  - rewrite lookup_insert_eq. simpl. by rewrite lookup_insert_eq.
Qed.

Lemma execute_clears m w : alone w ->
  ends (on_execute m) w (fun w' x => x = Ok tt -> cancelled_now (aw_agent w') (em_movement_id m) = Some false /\
    exists es, aw_events w' = Spawned (em_movement_id m) (em_attempt m) (em_nonce m) :: es).
Proof.
  intros Hal. pose proof (arrives_refl w Hal) as Hb. unfold on_execute.
  apply ends_bind. eapply at_peek; [exact Hb|]. clear Hb. intros w1 Hb.
  destruct (ag_grants (aw_agent w) !! em_nonce m) as [entry|]; [|by apply ends_lift].
  apply ends_bind. eapply at_peek; [exact Hb|]. clear Hb. intros w2 Hb.
  do 2 (apply ends_bind, ends_reject; intros _; [done|]).
  apply ends_bind. eapply at_peek; [exact Hb|]. clear Hb. intros w3 Hb.
  apply ends_bind, ends_reject; intros _; [done|].
  apply ends_bind. eapply at_update; [exact Hb|]. clear Hb. intros w4 Hb.
  eapply at_observe; [exact Hb|]. intros w5 (_ & Ha & _ & He) _. split; [|by eexists].
  rewrite Ha. unfold cancelled_now, flag_set. cbn. rewrite lookup_insert_eq. simpl. by rewrite lookup_insert_eq.
Qed.
End handlers.

(** ** Properties *)


(** (invariant) Epochs only grow.  Whatever the file operations do, a start moves
    the epoch file from [e] to [e + 1] or leaves it, and an agent that comes up
    carries the epoch that is then on disk; so no two successful starts on one
    store have the same incarnation epoch. *)
Theorem restart_advances_epoch {C : Type} (config : EndpointAgentConfig) (boot : bytes)
    (listening : Result SocketAddress) (w w' : World) (file file' : option bytes) (e : Z) (x : Result (Agent C)) :
  0 <= e < u64_max -> epoch_file file e -> agent_start config boot listening (w, file) = ((w', file'), x) ->
  (file' = file \/ file' = Some (std_to_string (e + 1))) /\
  (forall a, x = Ok a -> file' = Some (std_to_string (e + 1)) /\ inc_epoch (ag_incarnation a) = e + 1).
Proof. apply start_epoch. Qed.

(** (error) The authority report does not say whose commit it found.  A
    destination that holds a committed version reports a present, authoritative
    and verified marker to a query for any movement whatever, also one that is
    not the movement in the marker: this is all the coordinator's reconciliation
    asks for before it records that movement as COMMITTED. *)
Theorem authority_report_ignores_movement {C S : Type} `{!Connection C, !EntropySource S}
    (q : AuthorityQuery) (m : CommitMarker) (file : bytes) (w w' : AWorld C S) (x : Result unit) :
  alone w -> w_io (aw_store w) = [] ->
  marker_at (w_disk (aw_store w)) (aq_object_id q, aq_object_generation q) m ->
  object_file (w_disk (aw_store w)) (aq_object_id q, aq_object_generation q) = Some file ->
  zlen file = cm_stored_bytes m -> aq_movement_id q <> cm_movement_id m ->
  on_authority_query q w = (w', x) ->
  exists report told,
    aw_events w' = Told MT.AUTHORITY_REPORT (AuthorityReport_encode report) told :: aw_events w /\
    ap_movement_id report = aq_movement_id q /\ ap_marker_present report = true /\
    ap_authoritative report = true /\ ap_verified report = true /\ ap_marker_digest report = cm_marker_digest m.
Proof.
  intros Hal Hio Hm Hf Hl _ H. exact (ends_elim _ _ _ _ _ (query_ends q m file w Hal Hio Hm Hf Hl) H).
Qed.

(** (error) A cancellation that arrives before the order to execute is lost.
    [on_cancel] acknowledges it and sets the movement's flag; an accepted
    [on_execute] for the same movement replaces the flag by a fresh one that is
    not set and starts the transfer, so neither the transfer nor the commit
    barrier will see that the movement was cancelled. *)
Theorem execute_forgets_cancellation {C S : Type} `{!Connection C, !EntropySource S}
    (c : CancelRequest) (m : ExecuteMovement) (w w1 w2 : AWorld C S) (x : Result unit) :
  alone w -> on_cancel c w = (w1, x) -> on_execute m w1 = (w2, Ok tt) ->
  em_movement_id m = cq_movement_id c ->
  cancelled_now (aw_agent w1) (cq_movement_id c) = Some true /\
  cancelled_now (aw_agent w2) (cq_movement_id c) = Some false /\
  exists es, aw_events w2 = Spawned (em_movement_id m) (em_attempt m) (em_nonce m) :: es.
Proof.
  intros Hal Hc He Hid. destruct (ends_elim _ _ _ _ _ (cancel_sets c w Hal) Hc) as [Hal1 H1].
  destruct (ends_elim _ _ _ _ _ (execute_clears m w1 Hal1) He eq_refl) as [H2 H3]. by rewrite Hid in *.
Qed.

(** *** Witnesses *)

(** An endpoint with a session to its coordinator, on a given disk. *)
Definition demo_agent_config : EndpointAgentConfig :=
  mkAgentConfig (lit "dst") (lit "/srv/smf") demo_secret (lit "smf.endpoint.std") default_policy 8 4 true true.
Definition demo_agent : Agent Pipe :=
  set_control (fresh_agent demo_agent_config (mkIncarnation (lit "dst") (replicate 16 x07) 3)
                 (mkAddress (lit "10.0.0.2") 7001))
    (Some (mkAgentLink (mkFrameStream (mkPipe [] []) keyed_codec (2 ^ 20)) true ∅)) ∅ 0.
Definition demo_aworld (a : Agent Pipe) (d : Disk) : AWorld Pipe DeterministicEntropy :=
  mkAWorld a (mkWorld d []) (fun _ => 1767225600000) 0 demo_cs (fun _ _ => fail RC.CONNECTION_CLOSED "no route")
    (fun _ a d => (a, d)) 0 [].
Definition demo_commit : CommitRequest :=
  mkCommitRequest (replicate 16 x0b) 9 (replicate 16 x01) small_object (lit "src").
Definition demo_placed : Disk := set_object (version_of small_object) (Some small_content) empty_disk.
Definition demo_committing : AWorld Pipe DeterministicEntropy := demo_aworld demo_agent demo_placed.


Lemma restart_advances_epoch_witness : exists w' (a : Agent Pipe),
  agent_start demo_agent_config (replicate 16 x07) (Ok (mkAddress (lit "10.0.0.2") 7001))
    (mkWorld empty_disk [], Some (lit "41")) = (w', Some (lit "42"), Ok a) /\
  inc_epoch (ag_incarnation a) = 42.
Proof.
  destruct (agent_start (C:=Pipe) demo_agent_config (replicate 16 x07) (Ok (mkAddress (lit "10.0.0.2") 7001))
    (mkWorld empty_disk [], Some (lit "41"))) as [[w' f] [a|e]] eqn:E; [|vm_compute in E; discriminate E].
  destruct (restart_advances_epoch demo_agent_config (replicate 16 x07) (Ok (mkAddress (lit "10.0.0.2") 7001))
    (mkWorld empty_disk []) w' (Some (lit "41")) f 41 (Ok a) ltac:(unfold u64_max; lia)
    ltac:(left; reflexivity) E) as [_ H].
  destruct (H a eq_refl) as [-> He]. exists w', a. split; [reflexivity|exact He].
Defined.

Definition demo_committed : Disk :=
  set_object (version_of demo_descriptor) (Some (replicate 2500 x61))
    (set_commit (version_of demo_descriptor) (marker_contents demo_marker) empty_disk).
Definition foreign_query : AuthorityQuery :=
  mkAuthorityQuery (replicate 16 x2a) (d_object_id demo_descriptor) (d_generation demo_descriptor).

Lemma authority_report_ignores_movement_witness : exists report told,
  aw_events (on_authority_query foreign_query (demo_aworld demo_agent demo_committed)).1 =
    [Told MT.AUTHORITY_REPORT (AuthorityReport_encode report) told] /\
  ap_movement_id report = replicate 16 x2a /\ ap_authoritative report = true.
Proof.
  destruct (on_authority_query foreign_query (demo_aworld demo_agent demo_committed)) as [w' x] eqn:E.
  destruct (authority_report_ignores_movement foreign_query demo_marker (replicate 2500 x61)
    (demo_aworld demo_agent demo_committed) w' x) as (report & told & H1 & H2 & _ & H3 & _).
  - intros n a d. reflexivity.
  - reflexivity.
  - split_and!; [|apply demo_marker_ok|apply demo_marker_sealed|vm_compute; reflexivity].
    vm_compute. reflexivity.
  - reflexivity.
  - vm_compute. reflexivity.
  - vm_compute. congruence.
  - exact E.
  - exists report, told. split; [exact H1|]. split; [exact H2|exact H3].
Defined.

Definition demo_granted : Agent Pipe := set_grants demo_agent {[ replicate 32 x09 := mkGrantEntry demo_grant false 1 ]}.
Definition demo_order : ExecuteMovement :=
  mkExecuteMovement (replicate 16 x0b) 4 (replicate 16 x01) (replicate 32 x09) (lit "src").

Lemma execute_forgets_cancellation_witness : exists w1 w2,
  on_cancel (mkCancelRequest (replicate 16 x0b) 4) (demo_aworld demo_granted empty_disk) = (w1, Ok tt) /\
  on_execute demo_order w1 = (w2, Ok tt) /\ cancelled_now (aw_agent w2) (replicate 16 x0b) = Some false.
Proof.
  destruct (on_cancel (mkCancelRequest (replicate 16 x0b) 4) (demo_aworld demo_granted empty_disk)) as [w1 x1] eqn:E1.
  destruct (on_execute demo_order w1) as [w2 x2] eqn:E2. exists w1, w2.
  assert (x1 = Ok tt) as ->.
  { change x1 with (w1, x1).2. rewrite <- E1. vm_compute. reflexivity. }
  assert (x2 = Ok tt) as ->.
  { change x2 with (w2, x2).2. rewrite <- E2. change w1 with (w1, Ok tt : Result unit).1. rewrite <- E1.
    vm_compute. reflexivity. }
  split; [reflexivity|]. split; [exact E2|].
  exact (proj1 (proj2 (execute_forgets_cancellation (mkCancelRequest (replicate 16 x0b) 4) demo_order
    (demo_aworld demo_granted empty_disk) w1 w2 (Ok tt) (fun _ _ _ => eq_refl) E1 E2 eq_refl))).
Defined.
