(* ===== verification/Transfer.v ===== *)
(** * Endpoint agent: data plane (src/src/endpoint_agent.cpp)

    The source's side of a data session ([serve_data_connection] and the threads
    that lead to it) and the destination's ([execute_movement_worker] and
    [run_transfer]), as computations of Agent.v's [AWorld].

    An open file keeps the contents it was opened on: the store replaces placed
    objects by renaming and never writes to them, so the served bytes are those
    of the open.  The fault hooks are not modelled. *)
From S2P Require Import Prelude Status Bytes Digest Codec Ids StateObject Provenance Framing Session Policy Topology.
From S2P Require Import CommitMarker ObjectStore WireFields Wire Effect Links Agent.

Section transfer.
Context {C S : Type} `{!Connection C, !EntropySource S}.
Implicit Types a : Agent C.
#[local] Abbreviation Ag := (Eff (AWorld C S)).

(** [frame.header.type != type] and the error it is answered with. *)
Definition expect (type : MessageType) (frame : Frame) (c : ReasonCode) (m : String.string) : Ag unit :=
  eff_reject (negb (bool_decide (fh_type (fr_header frame) = type))) c m.
#[local] Arguments expect _ _ _ _%_string_scope.

Definition send_data {T : Type} `{!WireMessage T} (stream : FrameStream C) (m : T) : Ag (FrameStream C) :=
  send_on stream (wm_type T) (wm_encode m).

(** ** Source *)

(** The handshake of an inbound data session: the peer's identity and the keyed
    stream. *)
Definition accept_data_session (connection : C) : Ag (FrameStream C * PeerIdentity) :=
  let$ stream := peek (fun a => new_stream a connection) in
  let$ (stream, frame) := receive_from stream in
  expect MT.HELLO frame RC.PROTOCOL_HANDSHAKE_REQUIRED "data sessions begin with a hello" ;$
  let$ hello := eff_lift (decode_all (message_limits (fr_payload frame)) HelloRequest_decode (fr_payload frame)) in
  let$ self := peek agent_identity in
  let$ secret := peek (fun a => ec_shared_secret (ag_config a)) in
  let$ session_id := draw new_session_id in
  let$ response := draw (fun s => let '(s, r) := accept_hello_request secret hello self session_id s in (r, s)) in
  match response with
  | Err e => tally AC.sessions_refused 1 ;$ eff_lift (Err e)
  | Ok response =>
      let$ stream := send_on stream MT.HELLO_ACK (HelloResponse_encode response) in
      tally AC.sessions_accepted 1 ;$
      eff_ret (keyed stream (derive_session_key secret (hq_client_nonce hello) (hr_server_nonce response)),
               hq_identity hello)
  end.

(** The grant under [nonce], if it is live; taking it consumes it. *)
Definition take_grant (nonce : bytes) : Ag (option TransferGrant) :=
  shared (fun a s =>
    match ag_grants a !! nonce with
    | Some entry =>
        if ge_consumed entry then (a, s, None)
        else (set_grants a (<[nonce := mkGrantEntry (ge_grant entry) true (ge_received_unix_millis entry)]>
                              (ag_grants a)), s, Some (ge_grant entry))
    | None => (a, s, None)
    end).

(** The lambda [refuse]. *)
Definition refuse_data {A} (stream : FrameStream C) (begin : DataBegin) (code : ReasonCode) (detail : bytes) : Ag A :=
  let$ _ := eff_try (send_data stream (mkDataBeginAck (db_nonce begin) code 0 0 detail)) in
  tally AC.refusals 1 ;$
  eff_lift (Err (mkStatus code detail)).

(** [if (cond) return refuse(code, detail);] *)
Definition refuse_if (cond : bool) (stream : FrameStream C) (begin : DataBegin) (code : ReasonCode)
    (detail : String.string) : Ag unit :=
  if cond then refuse_data stream begin code (lit detail) else eff_ret tt.
#[local] Arguments refuse_if _ _ _ _ _%_string_scope.

(** The authority check: the grant a request is served under. *)
Definition authorize_serving (stream : FrameStream C) (peer : PeerIdentity) (begin : DataBegin) : Ag TransferGrant :=
  let$ found := take_grant (db_nonce begin) in
  match found with
  | None => refuse_data stream begin RC.AUTHORITY_MISMATCH
      (lit "no live transfer grant matches that nonce; grants are single use and never survive a coordinator restart")
  | Some grant =>
      let$ config := peek ag_config in
      eff_lift (verify_signature (ec_shared_secret config) grant) ;$
      refuse_if (negb (bytes_eqb (tg_source grant) (ec_endpoint_id config))) stream begin
        RC.AUTHORITY_MISMATCH "the grant does not name this endpoint as source" ;$
      refuse_if (negb (bytes_eqb (tg_destination grant) (db_destination begin)) ||
                 negb (bool_decide (tg_destination_incarnation grant = db_destination_incarnation begin)))
        stream begin RC.STALE_INCARNATION "the grant binds a different destination" ;$
      refuse_if (negb (bytes_eqb (pi_endpoint peer) (tg_destination grant))) stream begin
        RC.PROTOCOL_AUTH_FAILED "the authenticated peer is not the destination named by the grant" ;$
      refuse_if (negb (bytes_eqb (d_object_id (tg_object grant)) (d_object_id (db_object begin))) ||
                 negb (d_generation (tg_object grant) =? d_generation (db_object begin)) ||
                 negb (bytes_eqb (d_content_digest (tg_object grant)) (d_content_digest (db_object begin))))
        stream begin RC.AUTHORITY_MISMATCH "the grant binds a different object version" ;$
      let$ generation := peek ag_policy_generation in
      refuse_if (negb (tg_policy_generation grant =? generation)) stream begin
        RC.STALE_POLICY_GENERATION "the grant was issued under a different policy generation" ;$
      let$ present := disk_peek (fun d => object_present d (version_of (tg_object grant))) in
      refuse_if (negb present) stream begin
        RC.OBJECT_VERSION_NOT_FOUND "this endpoint does not hold the requested object version" ;$
      eff_ret grant
  end.

(** Where the source starts: the declared prefix if it fits the object. *)
Definition resume_point (object : StateObjectDescriptor) (begin : DataBegin) : Z * Z :=
  if (0 <? db_resume_from_chunk begin) && (db_resume_from_chunk begin <=? d_chunk_count object) then
    match chunk_offset object (db_resume_from_chunk begin) with
    | Ok offset => if offset =? db_resume_from_offset begin then (db_resume_from_chunk begin, offset) else (0, 0)
    | Err _ => (0, 0)
    end
  else (0, 0).

(** Chunk [index] as the source reads it from the open file. *)
Definition read_chunk (grant : TransferGrant) (file : bytes) (index : Z) : IO DataChunk :=
  let object := tg_object grant in
  let* offset := io_lift (chunk_offset object index) in
  let* length := io_lift (chunk_length object index) in
  file_op (fun d => d) (io_error "seek failed") ;*
  let* payload := read_file file (Z.to_nat offset) (Z.to_nat length) in
  io_reject (negb (zlen payload =? length)) RC.STORE_TRUNCATED "the stored object ended inside a chunk" ;*
  io_ret (mkDataChunk (tg_movement_id grant) (tg_attempt grant) index offset length
            (compute_chunk_digest (d_object_id object) (d_generation object) index offset length payload) payload).

(** Whether the agent is stopping or the movement's flag is set. *)
Definition interrupted (flag : nat) : Ag bool := peek (fun a => ag_stopping a || flag_set a flag).

Definition abort_serving {A} (stream : FrameStream C) (grant : TransferGrant) : Ag A :=
  let detail := lit "the movement was cancelled while it was being served" in
  let$ _ := eff_try (send_data stream (mkDataAbort (tg_movement_id grant) (tg_attempt grant)
                                         RC.CANCELLED_BY_OPERATOR detail)) in
  eff_lift (Err (mkStatus RC.CANCELLED_BY_OPERATOR detail)).

(** The sending loop: [n] chunks from [index]; [sent] chunks and [total] bytes
    were sent.  Ends with the stream and the bytes sent. *)
Fixpoint serve_chunks (n : nat) (stream : FrameStream C) (grant : TransferGrant) (file : bytes) (flag : nat)
    (window index sent total : Z) : Ag (FrameStream C * Z) :=
  match n with
  | O => eff_ret (stream, total)
  | Datatypes.S n =>
      let$ stop := interrupted flag in
      if stop then abort_serving stream grant
      else
        let$ chunk := on_store (read_chunk grant file index) in
        let$ stream := send_data stream chunk in
        let sent := wrap 32 (sent + 1) in
        let total := wrap 64 (total + dc_chunk_length chunk) in
        let$ stream :=
          (if sent mod window =? 0 then
             let$ (stream, frame) := receive_from stream in
             expect MT.DATA_CHUNK_ACK frame RC.PROTOCOL_STATE_VIOLATION "expected a chunk acknowledgement" ;$
             eff_ret stream
           else eff_ret stream) in
        serve_chunks n stream grant file flag window (index + 1) sent total
  end.

(** The end of a transfer and the destination's verdict. *)
Definition finish_serving (stream : FrameStream C) (grant : TransferGrant) (sent_bytes : Z) : Ag unit :=
  let object := tg_object grant in
  let$ stream := send_data stream (mkDataEnd (tg_movement_id grant) (tg_attempt grant) (d_chunk_count object)
                                     (d_total_bytes object) (d_content_digest object)) in
  let$ (stream, frame) := receive_from stream in
  expect MT.DATA_RESULT frame RC.PROTOCOL_STATE_VIOLATION "expected a data result" ;$
  let$ result := eff_lift (decode_message DataResult frame) in
  update (fun a => set_agent_counters a (add_counter AC.bytes_sent sent_bytes
                                           (add_counter AC.transfers_served 1 (ag_counters a)))) ;$
  eff_lift (if bool_decide (dr_code result = RC.OK) then Ok tt else Err (mkStatus (dr_code result) (dr_detail result))).

Definition serve_data_connection (connection : C) : Ag unit :=
  let$ (stream, peer) := accept_data_session connection in
  let$ (stream, frame) := receive_from stream in
  expect MT.DATA_BEGIN frame RC.PROTOCOL_STATE_VIOLATION "expected a data begin" ;$
  let$ begin := eff_lift (decode_message DataBegin frame) in
  let$ grant := authorize_serving stream peer begin in
  let object := tg_object grant in
  let '(start_chunk, start_offset) := resume_point object begin in
  let$ stream := send_data stream (mkDataBeginAck (db_nonce begin) RC.OK start_chunk start_offset []) in
  let$ options := peek (fun a => agent_store (ag_config a)) in
  let$ file := on_store (let* d := io_disk in
                         open_read (object_data_path options (version_of object)) (object_file d (version_of object))) in
  let$ flag := cancellation_flag (tg_movement_id grant) in
  let$ window := peek (fun a => po_max_inflight_chunks (ec_policy (ag_config a))) in
  let$ (stream, sent_bytes) :=
    serve_chunks (Z.to_nat (d_chunk_count object - start_chunk)) stream grant file flag window start_chunk 0 0 in
  finish_serving stream grant sent_bytes.

(** *** The threads of the data listener *)

(** What [accept_loop] does with an accepted connection: a full queue refuses. *)
Definition enqueue_connection (connection : C) : Ag unit :=
  update (fun a =>
    if ec_max_data_sessions (ag_config a) <=? zlen (ag_session_queue a)
    then set_agent_counters a (add_counter AC.sessions_refused 1 (ag_counters a))
    else set_sessions a (ag_session_queue a ++ [connection]) (ag_active_sessions a)).

(** One turn of [session_worker_loop] on a non-empty queue. *)
Definition session_worker_turn : Ag unit :=
  let$ next := shared (fun a s =>
    match ag_session_queue a with
    | [] => (a, s, None)
    | connection :: rest => (set_sessions a rest (ag_active_sessions a), s, Some connection)
    end) in
  match next with
  | None => eff_ret tt
  | Some connection =>
      update (fun a => set_sessions a (ag_session_queue a) (wrap 32 (ag_active_sessions a + 1))) ;$
      let$ _ := eff_try (serve_data_connection connection) in
      update (fun a => set_sessions a (ag_session_queue a) (wrap 32 (ag_active_sessions a - 1)))
  end.

(** ** Destination *)

(** A call of the staging writer. *)
Definition on_writer {A} (m : World -> World * StagingWriter * Result A) : Ag (StagingWriter * Result A) :=
  shared (fun a s => let '(s, writer, r) := m s in (a, s, (writer, r))).

(** The first registration of the source in the coordinator's answer. *)
Definition source_address (endpoints : list EndpointRegistration) (source : bytes) : Result SocketAddress :=
  match List.find (fun r => bytes_eqb (er_endpoint r) source) endpoints with
  | Some r => Ok (er_data_address r)
  | None => fail RC.ENDPOINT_NOT_FOUND "the coordinator does not list the source endpoint"
  end.

(** The topology query; where the source would dereference a link that [stop]
    has destroyed, it is refused. *)
Definition locate_source (grant : TransferGrant) : Ag SocketAddress :=
  let$ frame := ask_coordinator MT.TOPOLOGY_REPORT
    (mkStatus RC.BUSY (lit "another topology query is already in flight"))
    (mkStatus RC.IO_TIMEOUT (lit "the coordinator did not answer the topology query"))
    (mkStatus RC.IO_TIMEOUT (lit "the coordinator link closed before the answer arrived"))
    MT.TOPOLOGY_REQUEST (TopologyRequest_encode mkTopologyRequest) in
  let$ topology := eff_lift (decode_message TopologyReport frame) in
  eff_lift (source_address (tr_endpoints topology) (tg_source grant)).

Definition open_data_session (address : SocketAddress) : Ag (FrameStream C) :=
  let$ (connection, _) := connect address in
  let$ stream := peek (fun a => new_stream a connection) in
  say_hello stream (mkStatus RC.SOURCE_REJECTED (lit "the source refused the data session")).

(** [StagingWriter::resume_from_chunk] *)
Definition resume_from_chunk (writer : StagingWriter) : Z := sj_verified_chunks (sw_journal writer).

Definition data_begin (grant : TransferGrant) (attempt endpoint : bytes) (writer : StagingWriter) : DataBegin :=
  mkDataBegin (tg_grant_nonce grant) (tg_movement_id grant) (tg_movement_generation grant) attempt
    (tg_object grant) endpoint (tg_destination_incarnation grant) (resume_from_chunk writer)
    (if resume_from_chunk writer =? 0 then 0 else sj_verified_bytes (sw_journal writer)).

(** The request for the object and the source's answer. *)
Definition request_object (stream : FrameStream C) (grant : TransferGrant) (attempt : bytes)
    (writer : StagingWriter) : Ag (FrameStream C) :=
  let$ endpoint := peek (fun a => ec_endpoint_id (ag_config a)) in
  let$ stream := send_data stream (data_begin grant attempt endpoint writer) in
  let$ (stream, frame) := receive_from stream in
  let$ ack := eff_lift (decode_message DataBeginAck frame) in
  eff_lift (if bool_decide (dk_code ack = RC.OK) then Ok tt else Err (mkStatus (dk_code ack) (dk_detail ack))) ;$
  if negb (dk_resume_from_chunk ack =? resume_from_chunk writer) then
    clear_cancellation (tg_movement_id grant) ;$
    eff_lift (fail RC.RESUME_INCOMPATIBLE "the source refused the resume point declared by the destination")
  else eff_ret stream.

(** The locals of the receiving loop. *)
Record Receiving := mkReceiving {
  rv_writer : StagingWriter;
  rv_received : Z;
  rv_duplicates : Z;
  rv_since_ack : Z }.

(** A chunk.  [staging.abort()] before an error only closes the file, and the
    writer is gone with it. *)
Definition receive_chunk (stream : FrameStream C) (grant : TransferGrant) (attempt : bytes) (window : Z)
    (st : Receiving) (frame : Frame) : Ag (FrameStream C * Receiving) :=
  let$ chunk := eff_lift (decode_message DataChunk frame) in
  eff_reject (negb (bytes_eqb (dc_movement_id chunk) (tg_movement_id grant)) ||
              negb (bytes_eqb (dc_attempt chunk) attempt)) RC.AUTHORITY_MISMATCH
    "a chunk arrived for a different attempt" ;$
  let duplicate := dc_chunk_index chunk <? resume_from_chunk (rv_writer st) in
  let$ options := peek (fun a => agent_store (ag_config a)) in
  let$ (writer, appended) := on_writer (append options (rv_writer st) (dc_chunk_index chunk) (dc_chunk_offset chunk)
                                          (dc_payload chunk) (dc_chunk_digest chunk)) in
  eff_lift appended ;$
  let duplicates := if duplicate then wrap 32 (rv_duplicates st + 1) else rv_duplicates st in
  let received := if duplicate then rv_received st else wrap 32 (rv_received st + 1) in
  let since_ack := wrap 32 (rv_since_ack st + 1) in
  if window <=? since_ack then
    let$ stream := send_data stream (mkDataChunkAck (tg_movement_id grant) attempt
                                       (wrap 32 (resume_from_chunk writer - 1)) duplicates) in
    eff_ret (stream, mkReceiving writer received duplicates 0)
  else eff_ret (stream, mkReceiving writer received duplicates since_ack).

Definition check_end (grant : TransferGrant) (attempt : bytes) (frame : Frame) : Result unit :=
  let! last := decode_message DataEnd frame in
  reject_if (negb (bytes_eqb (de_movement_id last) (tg_movement_id grant)) ||
             negb (bytes_eqb (de_attempt last) attempt)) RC.AUTHORITY_MISMATCH
    "the transfer end names a different movement or attempt" ;!
  reject_if (negb (bytes_eqb (de_content_digest last) (d_content_digest (tg_object grant))))
    RC.CONTENT_DIGEST_MISMATCH "the source declared a content digest the grant does not authorize".

(** [DATA_ABORT] *)
Definition source_aborted (frame : Frame) : Status :=
  match decode_message DataAbort frame with
  | Ok m => mkStatus (dx_code m) (dx_detail m)
  | Err _ => mkStatus RC.SOURCE_REJECTED (lit "the source aborted the transfer")
  end.

(** The receiving loop.  A source may repeat chunks for ever, so the loop has no
    bound of its own: [fuel] is the number of frames the peer sends before it
    closes the connection. *)
Fixpoint receive_chunks (fuel : nat) (stream : FrameStream C) (grant : TransferGrant) (attempt : bytes)
    (flag : nat) (window : Z) (st : Receiving) : Ag (FrameStream C * Receiving) :=
  let$ stop := interrupted flag in
  eff_reject stop RC.CANCELLED_BY_OPERATOR "the movement was cancelled" ;$
  match fuel with
  | O => eff_lift (fail RC.CONNECTION_CLOSED "peer closed the connection")
  | Datatypes.S fuel =>
      let$ (stream, frame) := receive_from stream in
      match fh_type (fr_header frame) with
      | MT.DATA_ABORT => eff_lift (Err (source_aborted frame))
      | MT.DATA_END => eff_lift (check_end grant attempt frame) ;$ eff_ret (stream, st)
      | MT.DATA_CHUNK =>
          let$ (stream, st) := receive_chunk stream grant attempt window st frame in
          receive_chunks fuel stream grant attempt flag window st
      | _ => eff_lift (fail RC.PROTOCOL_STATE_VIOLATION "expected a data chunk")
      end
  end.

Definition report_attempt_result (movement_id : bytes) (generation : Z) (attempt : bytes) (state : MovementState)
    (code : ReasonCode) (detail : bytes) (verified_digest : Digest) (bytes_ chunks : Z) (marker : Digest) : Ag unit :=
  tell (mkAttemptResult movement_id generation attempt state code detail verified_digest bytes_ chunks marker).

(** From the end of the stream to the report: nothing is placed until the staged
    bytes hash to the authorized digest. *)
Definition place_object (stream : FrameStream C) (grant : TransferGrant) (attempt : bytes) (st : Receiving) : Ag unit :=
  let object := tg_object grant in
  let$ options := peek (fun a => agent_store (ag_config a)) in
  let$ (writer, digest) := on_writer (finish (rv_writer st)) in
  let$ digest := eff_lift digest in
  if negb (bytes_eqb digest (d_content_digest object)) then
    let$ _ := eff_try (on_store (discard_staging (tg_movement_id grant))) in
    eff_lift (fail RC.CONTENT_DIGEST_MISMATCH "the received bytes do not hash to the authorized content digest")
  else
    let$ (_, promoted) := on_writer (promote options writer) in
    eff_lift promoted ;$
    let$ _ := eff_try (send_data stream (mkDataResult (tg_movement_id grant) attempt RC.OK digest
                (d_total_bytes object) (d_chunk_count object) zero_digest (lit "stored and verified locally"))) in
    update (fun a => set_agent_counters a
      (add_counter AC.duplicate_chunks (rv_duplicates st) (add_counter AC.chunks_written (rv_received st)
         (add_counter AC.bytes_received (d_total_bytes object) (add_counter AC.transfers_received 1 (ag_counters a)))))) ;$
    report_attempt_result (tg_movement_id grant) (tg_movement_generation grant) attempt MS.BYTES_ARRIVED RC.OK
      (lit "bytes arrived and verified locally") digest (d_total_bytes object) (d_chunk_count object) zero_digest.

(** The receiving part of [run_transfer], once the source has agreed. *)
Definition receive_object (fuel : nat) (stream : FrameStream C) (grant : TransferGrant) (attempt : bytes)
    (writer : StagingWriter) : Ag unit :=
  let$ flag := cancellation_flag (tg_movement_id grant) in
  let$ window := peek (fun a => po_max_inflight_chunks (ec_policy (ag_config a))) in
  let$ (stream, st) := receive_chunks fuel stream grant attempt flag window (mkReceiving writer 0 0 0) in
  place_object stream grant attempt st.

Definition run_transfer (fuel : nat) (grant : TransferGrant) (attempt : bytes) : Ag unit :=
  let$ address := locate_source grant in
  let$ options := peek (fun a => agent_store (ag_config a)) in
  let$ writer := on_store (begin options (tg_movement_id grant) (tg_movement_generation grant) attempt
                             (tg_object grant)) in
  let$ stream := open_data_session address in
  let$ stream := request_object stream grant attempt writer in
  receive_object fuel stream grant attempt writer.

Definition execute_movement_worker (fuel : nat) (movement_id attempt nonce : bytes) : Ag unit :=
  let$ found := peek (fun a => ag_grants a !! nonce) in
  match found with
  | None => eff_ret tt
  | Some entry =>
      let grant := ge_grant entry in
      let$ ran := eff_try (run_transfer fuel grant attempt) in
      match ran with
      | Ok _ => eff_ret tt
      | Err e =>
          let$ _ := eff_try (report_attempt_result movement_id (tg_movement_generation grant) attempt
            (if bool_decide (st_code e = RC.CANCELLED_BY_OPERATOR) then MS.CANCELLED else MS.FAILED)
            (st_code e) (st_message e) zero_digest 0 0 zero_digest) in
          eff_ret tt
      end
  end.
End transfer.

(** ** Steps that only talk *)

(** What no step of the data plane but [take_grant] changes in the agent. *)
Definition same_authority {C : Type} (a a' : Agent C) : Prop :=
  ag_config a' = ag_config a /\ ag_incarnation a' = ag_incarnation a /\ ag_grants a' = ag_grants a /\
  ag_policy_generation a' = ag_policy_generation a /\ ag_stopping a' = ag_stopping a.
#[global] Instance same_authority_preorder {C} : PreOrder (same_authority (C := C)).
Proof. split; [by intros a|]. intros a b c (?&?&?&?&?) (?&?&?&?&?). split_and!; congruence. Qed.

Section calm.
Context {C S : Type} `{!Connection C, !EntropySource S}.
Implicit Types (w : AWorld C S) (P : AgentEvent -> Prop).

(** A thread got from [w] to [w'] on its own: authority and disk are as they
    were, and everything it emitted satisfies [P]. *)
Definition passes P w w' : Prop :=
  alone w' /\ same_authority (aw_agent w) (aw_agent w') /\ w_disk (aw_store w') = w_disk (aw_store w) /\
  exists es, aw_events w' = es ++ aw_events w /\ Forall P es.

Lemma passes_refl P w : alone w -> passes P w w.
Proof. intros H. split_and!; try done. by exists []. Qed.

Lemma passes_trans P w1 w2 w3 : passes P w1 w2 -> passes P w2 w3 -> passes P w1 w3.
Proof.
  intros (_ & Ha & Hd & es & He & Hes) (Hal & Ha' & Hd' & es' & He' & Hes'). split_and!; [done|by etrans|congruence|].
  exists (es' ++ es). split; [by rewrite He', He, app_assoc|]. by apply Forall_app.
Qed.

Definition calm P {A} (m : Eff (AWorld C S) A) : Prop := forall w, alone w -> passes P w (m w).1.

Lemma ends_calm P {A} (m : Eff (AWorld C S) A) w (Q : AWorld C S -> Result A -> Prop) :
  calm P m -> alone w -> (forall w' x, passes P w w' -> m w = (w', x) -> Q w' x) -> ends m w Q.
Proof. intros Hm Hal H. apply ends_intro. intros w' x E. apply H; [|done]. specialize (Hm w Hal). by rewrite E in Hm. Qed.

Lemma calm_bind P {A B} (m : Eff (AWorld C S) A) (k : A -> Eff (AWorld C S) B) :
  calm P m -> (forall x, calm P (k x)) -> calm P (eff_bind m k).
Proof.
  intros Hm Hk w Hal. specialize (Hm w Hal). unfold eff_bind. destruct (m w) as [w1 [x|e]]; [|done].
  eapply passes_trans; [exact Hm|]. apply Hk, Hm.
Qed.

Lemma calm_lift P {A} (r : Result A) : calm P (eff_lift r).
Proof. intros w. apply passes_refl. Qed.
Lemma calm_ret P {A} (x : A) : calm P (eff_ret x).
Proof. intros w. apply passes_refl. Qed.
Lemma calm_reject P cond c m : calm P (eff_reject cond c m).
Proof. intros w. apply passes_refl. Qed.
Lemma calm_try P {A} (m : Eff (AWorld C S) A) : calm P m -> calm P (eff_try m).
Proof. intros H w Hal. specialize (H w Hal). unfold eff_try. by destruct (m w). Qed.

Lemma calm_shared P {A} (f : Agent C -> World -> Agent C * World * A) :
  (forall a s, same_authority a (f a s).1.1 /\ w_disk (f a s).1.2 = w_disk s) -> calm P (shared f).
Proof.
  intros H w Hal. unfold shared. rewrite Hal. destruct (aw_store w) as [d io] eqn:Es. cbn [w_disk w_io].
  specialize (H (aw_agent w) (mkWorld d io)). destruct (f _ _) as [[a s] x]. destruct H as [H1 H2].
  split_and!; try done; [by rewrite Es|by exists []].
Qed.

Lemma calm_peek P {A} (f : Agent C -> A) : calm P (peek f).
Proof. apply calm_shared. intros a s. by split. Qed.
Lemma calm_disk_peek P {A} (f : Disk -> A) : calm P (disk_peek f).
Proof. apply calm_shared. intros a s. by split. Qed.
Lemma calm_update P (f : Agent C -> Agent C) : (forall a, same_authority a (f a)) -> calm P (update f).
Proof. intros H. apply calm_shared. intros a s. by split. Qed.
Lemma calm_tally P k n : calm P (tally k n).
Proof. by apply calm_update. Qed.
Lemma calm_on_store P {A} (m : IO A) : keeps eq m -> calm P (on_store m).
Proof.
  intros H. unfold on_store. apply calm_bind; [|intros; apply calm_lift]. apply calm_shared. intros a s.
  destruct (m s) as [s' x] eqn:E. split; [done|]. symmetry. by eapply H.
Qed.
Lemma calm_observe P e : P e -> calm P (observe e).
Proof. intros H w Hal. split_and!; try done. exists [e]. by split; [|constructor]. Qed.
Lemma calm_draw P {A} (f : S -> A * S) : calm P (draw f).
Proof. intros w Hal. unfold draw. destruct (f (aw_entropy w)). by apply (passes_refl P w Hal). Qed.
Lemma calm_connect P address : calm P (connect address).
Proof. intros w Hal. by apply (passes_refl P w Hal). Qed.

Lemma calm_send_on P stream type payload : (forall ok, P (Served type payload ok)) -> calm P (send_on stream type payload).
Proof.
  intros H. unfold send_on. destruct (FrameStream_send _ _ _ _) as [s r].
  apply calm_bind; [by apply calm_observe|]. intros _. apply calm_bind; [apply calm_lift|]. intros _. apply calm_ret.
Qed.
Lemma calm_receive_from P stream : calm P (receive_from stream).
Proof.
  unfold receive_from. destruct (FrameStream_receive stream) as [s r].
  apply calm_bind; [apply calm_lift|]. intros f. apply calm_ret.
Qed.
Lemma calm_send_control P type payload : (forall ok, P (Told type payload ok)) -> calm P (send_control type payload).
Proof.
  intros H. unfold send_control. apply calm_bind.
  - apply calm_shared. intros a s. destruct (ag_control a) as [l|]; [destruct (al_alive l); cbn [negb]|]; try done.
    by destruct (FrameStream_send _ _ _ _).
  - intros x. apply calm_bind; [by apply calm_observe|]. intros _. apply calm_lift.
Qed.
End calm.

Create HintDb calm.
#[export] Hint Resolve calm_lift calm_ret calm_reject calm_peek calm_disk_peek calm_tally calm_draw
  calm_connect calm_receive_from : calm.
Ltac calm_tac :=
  repeat first
    [ progress auto with calm
    | apply calm_try | apply calm_send_on; intros ? | apply calm_send_control; intros ?
    | apply calm_bind; [|intros ?]
    | match goal with
      | |- calm _ (match ?x with _ => _ end) => destruct x
      end ].

Section calm_steps.
Context {C S : Type} `{!Connection C, !EntropySource S}.
#[local] Abbreviation calm := (calm (C := C) (S := S)).

Lemma calm_cancellation_flag P id : calm P (cancellation_flag id).
Proof. apply calm_shared. intros a s. by destruct (ag_cancellations a !! id). Qed.
Lemma calm_clear_cancellation P id : calm P (clear_cancellation id).
Proof. by apply calm_update. Qed.
Lemma calm_interrupted P flag : calm P (interrupted flag).
Proof. apply calm_peek. Qed.

Lemma calm_say_hello P stream refused : (forall p ok, P (Served MT.HELLO p ok)) -> calm P (say_hello stream refused).
Proof. intros H. unfold say_hello. calm_tac. Qed.

Lemma calm_ask P answer busy late gone type payload : (forall ok, P (Told type payload ok)) ->
  calm P (ask_coordinator answer busy late gone type payload).
Proof.
  intros H. unfold ask_coordinator. cbv zeta. set (drop := update _).
  assert (calm P drop) as Hd by (apply calm_update; intros a; by destruct (ag_control a)).
  apply calm_bind; [|intros promise; calm_tac].
  apply calm_shared. intros a s. destruct (ag_control a) as [l|]; [|done]. by destruct (al_pending l !! _).
Qed.

Lemma calm_locate P g : (forall p ok, P (Told MT.TOPOLOGY_REQUEST p ok)) -> calm P (locate_source g).
Proof. intros H. unfold locate_source. apply calm_bind; [by apply calm_ask|]. intros f. calm_tac. Qed.

Lemma calm_open_session P address : (forall p ok, P (Served MT.HELLO p ok)) -> calm P (open_data_session address).
Proof. intros H. unfold open_data_session, say_hello. calm_tac. Qed.

Lemma calm_request P stream g att wr : (forall p ok, P (Served MT.DATA_BEGIN p ok)) ->
  calm P (request_object stream g att wr).
Proof. intros H. unfold request_object, send_data. calm_tac. by apply calm_update. Qed.
End calm_steps.
#[export] Hint Resolve calm_cancellation_flag calm_clear_cancellation calm_interrupted : calm.

(** ** What the destination places *)

(** The disk changed at most in the staging of movement [id] and the data of
    version [v]. *)
Definition touches (id : bytes) (v : Version) (d d' : Disk) : Prop :=
  (forall i, i <> id -> dk_staging d' !! i = dk_staging d !! i) /\
  (forall u, u <> v -> dk_objects d' !! u = dk_objects d !! u) /\
  dk_commits d' = dk_commits d /\ dk_quarantine d' = dk_quarantine d.
#[global] Instance touches_preorder id v : PreOrder (touches id v).
Proof.
  split; [by intros d|]. intros a b c (H1 & H2 & H3 & H4) (K1 & K2 & K3 & K4).
  split_and!; try congruence; [intros i Hi; by rewrite K1, H1|intros u Hu; by rewrite K2, H2].
Qed.

Lemma only_touches id v d d' : only id d d' -> touches id v d d'.
Proof. intros (H1 & H2 & H3 & H4). split_and!; try done. intros u _. by rewrite H2. Qed.

Lemma touches_set id v x d : touches id v d (set_object v x d).
Proof. split_and!; try done. intros u Hu. cbn. by rewrite lookup_insert_ne. Qed.

Lemma touches_move id v d : touches id v d (move_to_object id v d).
Proof.
  unfold move_to_object. destruct (staging_file d id) as [f|]; [|reflexivity]. split_and!; try done; cbn.
  - intros i Hi. by rewrite lookup_alter_ne.
  - intros u Hu. by rewrite lookup_insert_ne.
Qed.

Lemma promote_staging_touches o id obj : keeps (touches id (version_of obj)) (promote_staging o id obj).
Proof.
  unfold promote_staging. keeps_tac; intros;
    first [apply touches_set|apply touches_move|reflexivity|idtac].
  apply keeps_swallow; [apply _|]. keeps_tac. intros. apply only_touches, only_remove.
Qed.

Lemma promote_staging_places o id obj w w' file : staging_file (w_disk w) id = Some file ->
  promote_staging o id obj w = (w', Ok tt) -> object_file (w_disk w') (version_of obj) = Some file.
Proof.
  intros Hf H. unfold promote_staging in H. iostep H. iofacts. iostep H. iofacts. iostep H. iostep H. iofacts.
  iostep H. iostep H. iostep H. apply file_op_Ok in E1.
  assert (staging_file (w_disk w1) id = Some file) as Hf1.
  { assert (dk_staging (w_disk w1) = dk_staging (w_disk w0)) as Hs.
    { destruct (object_file (w_disk w0) (version_of obj)); [apply file_op_Ok in E0; by rewrite E0|by iofacts]. }
    unfold staging_file in *. by rewrite Hs, E. }
  assert (w_disk w3 = w_disk w2) as H3.
  { destruct (os_sync_on_write o); [by apply sync_op_Ok in E2|by iofacts]. }
  assert (object_file (w_disk w3) (version_of obj) = Some file) as Ho.
  { rewrite H3, E1. unfold move_to_object. rewrite Hf1. unfold object_file. cbn. by rewrite lookup_insert_eq. }
  injection H as <-.
  destruct (file_op_cases (remove_staging id) (io_error "") w3) as [(w4 & -> & Hd)|(w4 & -> & Hd)];
    cbn [fst]; rewrite Hd; done.
Qed.

Lemma finish_disk s w w' s' r : finish s w = (w', s', r) -> w_disk w' = w_disk w.
Proof.
  unfold finish. destruct (negb (sw_open s)); [by intros [= <- _ _]|]. destruct (_ || _); [by intros [= <- _ _]|].
  destruct (file_sync_cases w) as [(w1 & -> & Hd)|(w1 & e & -> & Hd)];
    by intros [= <- _ _].
Qed.

Lemma promote_touches o s w w' s' r : promote o s w = (w', s', r) ->
  touches (sj_movement_id (sw_journal s)) (version_of (sj_object (sw_journal s))) (w_disk w) (w_disk w').
Proof.
  unfold promote. destruct (negb _); [by intros [= <- _ _]|].
  destruct (promote_staging _ _ _ w) as [w1 [[]|e]] eqn:E; intros [= <- _ _]; by eapply promote_staging_touches.
Qed.

Lemma promote_places o s w w' s' file : staging_file (w_disk w) (sj_movement_id (sw_journal s)) = Some file ->
  promote o s w = (w', s', Ok tt) -> object_file (w_disk w') (version_of (sj_object (sw_journal s))) = Some file.
Proof.
  intros Hf. unfold promote. destruct (negb _); [done|].
  destruct (promote_staging _ _ _ w) as [w1 [[]|e]] eqn:E; intros H; [|done]. injection H as <- _.
  by eapply promote_staging_places.
Qed.

(** Every event but an attempt's report. *)
Definition no_report (e : AgentEvent) : Prop :=
  match e with Told MT.ATTEMPT_RESULT _ _ => False | _ => True end.

Section arrival.
Context {C S : Type} `{!Connection C, !EntropySource S}.
Implicit Types w : AWorld C S.

(** A thread got from [w] to [w'] on its own, touching only its movement and
    version and reporting nothing. *)
Definition strays (id : bytes) (v : Version) w w' : Prop :=
  alone w' /\ touches id v (w_disk (aw_store w)) (w_disk (aw_store w')) /\
  exists es, aw_events w' = es ++ aw_events w /\ Forall no_report es.

Lemma strays_refl id v w : alone w -> strays id v w w.
Proof. intros H. split_and!; [done|reflexivity|by exists []]. Qed.

Lemma strays_trans id v w1 w2 w3 : strays id v w1 w2 -> strays id v w2 w3 -> strays id v w1 w3.
Proof.
  intros (_ & Ht & es & He & Hes) (Hal & Ht' & es' & He' & Hes'). split_and!; [done|by etrans|].
  exists (es' ++ es). split; [by rewrite He', He, app_assoc|]. by apply Forall_app.
Qed.

Lemma passes_strays id v w w' : passes no_report w w' -> strays id v w w'.
Proof. intros (Hal & _ & Hd & He). split_and!; [done| |done]. by rewrite Hd. Qed.

(** The staging writer [wr] of movement [id] for [obj] is sound in [w]. *)
Definition staged (id : bytes) (obj : StateObjectDescriptor) w0 w (wr : StagingWriter) : Prop :=
  strays id (version_of obj) w0 w /\ writer_ok (w_disk (aw_store w)) wr /\
  sj_movement_id (sw_journal wr) = id /\ same_version obj (sj_object (sw_journal wr)) = true.

Lemma staged_passes id obj w0 w w' wr : staged id obj w0 w wr -> passes no_report w w' -> staged id obj w0 w' wr.
Proof.
  intros (Hs & Hok & Hid & Hv) Hp. split_and!; try done.
  - eapply strays_trans; [exact Hs|]. by apply passes_strays.
  - destruct Hp as (_ & _ & Hd & _). by rewrite Hd.
Qed.

Lemma at_writer {A} (m : World -> World * StagingWriter * Result A) w (Q : AWorld C S -> Result (StagingWriter * Result A) -> Prop) :
  alone w -> (forall w' s' wr r, m (aw_store w) = (s', wr, r) -> alone w' -> aw_store w' = s' ->
    aw_events w' = aw_events w -> Q w' (Ok (wr, r))) -> ends (on_writer m) w Q.
Proof.
  intros Hal H. unfold on_writer. eapply (at_shared _ w); [by apply arrives_refl|].
  destruct (m (aw_store w)) as [[s' wr] r] eqn:E. intros w' (Hal' & _ & Hs & He). by apply (H w' s').
Qed.

Lemma disk_step id v w w' : alone w' -> touches id v (w_disk (aw_store w)) (w_disk (aw_store w')) ->
  aw_events w' = aw_events w -> strays id v w w'.
Proof. intros Ha Ht He. split_and!; try done. exists []. by split. Qed.

Lemma receive_chunk_ends id obj w0 w stream g att window st frame : staged id obj w0 w (rv_writer st) ->
  ends (receive_chunk stream g att window st frame) w (fun w' x =>
    match x with Ok (_, st') => staged id obj w0 w' (rv_writer st') | Err _ => strays id (version_of obj) w0 w' end).
Proof.
  intros Hst. pose proof Hst as (Hs & Hok & Hid & Hv). unfold receive_chunk.
  apply ends_bind, ends_lift. destruct (decode_message DataChunk frame) as [c|e] eqn:Ed; [|done].
  apply decode_message_canonical in Ed as [(_ & _ & Hi & _) _].
  apply ends_bind, ends_reject; intros _; [done|]. cbv zeta.
  apply ends_bind, (ends_calm no_report); [apply calm_peek|apply Hs|]. intros w1 o Hp _.
  pose proof (staged_passes _ _ _ _ _ _ Hst Hp) as Hst1. destruct o as [o|e]; [|apply Hst1].
  clear Hst Hs Hok Hp. destruct Hst1 as (Hs & Hok & _ & _).
  apply ends_bind, at_writer; [apply Hs|]. intros w2 s2 wr r Ea Hal2 <- He2.
  assert (strays id (version_of obj) w0 w2) as Hs2.
  { eapply strays_trans; [exact Hs|]. apply disk_step; [done| |done]. apply only_touches. rewrite <- Hid.
    by eapply append_only. }
  apply ends_bind, ends_lift. destruct r as [rs|e]; [|done].
  assert (staged id obj w0 w2 wr) as Hst2.
  { assert (0 <= dc_chunk_index c) as Hi0 by apply Hi.
    destruct (append_effect o _ _ _ _ _ _ _ _ _ (wk_inv _ _ Hok) Hi0 Ea) as (_ & Hid' & Hobj' & _).
    split_and!; [done|by eapply append_keeps_ok|congruence|by rewrite Hobj']. }
  destruct (window <=? _); [|apply ends_ret; exact Hst2].
  apply ends_bind. unfold send_data. apply (ends_calm no_report); [by calm_tac|apply Hs2|]. intros w3 x Hp3 _.
  pose proof (staged_passes _ _ _ _ _ _ Hst2 Hp3) as Hst3.
  destruct x as [s3|e]; [apply ends_ret; exact Hst3|apply Hst3].
Qed.

Lemma receive_chunks_ends id obj w0 fuel : forall stream g att flag window st w, staged id obj w0 w (rv_writer st) ->
  ends (receive_chunks fuel stream g att flag window st) w (fun w' x =>
    match x with Ok (_, st') => staged id obj w0 w' (rv_writer st') | Err _ => strays id (version_of obj) w0 w' end).
Proof.
  induction fuel as [|fuel IH]; intros stream g att flag window st w Hst; cbn [receive_chunks].
  all: apply ends_bind, (ends_calm no_report); [apply calm_interrupted|apply Hst|]; intros w1 b Hp _.
  all: pose proof (staged_passes _ _ _ _ _ _ Hst Hp) as Hst1; clear Hst Hp; destruct b as [b|e]; [|apply Hst1].
  all: apply ends_bind, ends_reject; intros _; [apply Hst1|].
  { apply ends_lift, Hst1. }
  apply ends_bind, (ends_calm no_report); [apply calm_receive_from|apply Hst1|]; intros w2 x Hp _.
  pose proof (staged_passes _ _ _ _ _ _ Hst1 Hp) as Hst2; clear Hst1 Hp. destruct x as [[s2 frame]|e]; [|apply Hst2].
  destruct (fh_type (fr_header frame)); try (apply ends_lift; apply Hst2).
  - apply ends_bind. eapply ends_mono; [by apply receive_chunk_ends|]. intros w3 [[s3 st3]|e] H3; [|done].
    by apply IH.
  - apply ends_bind, ends_lift. destruct (check_end g att frame); [|apply Hst2]. by apply ends_ret.
Qed.

(** The report of bytes that arrived. *)
Definition arrival (g : TransferGrant) (att : bytes) : AttemptResult :=
  mkAttemptResult (tg_movement_id g) (tg_movement_generation g) att MS.BYTES_ARRIVED RC.OK
    (lit "bytes arrived and verified locally") (d_content_digest (tg_object g)) (d_total_bytes (tg_object g))
    (d_chunk_count (tg_object g)) zero_digest.

(** The object is placed with contents [file], as authorized, and was reported
    last. *)
Definition placed_and_told (g : TransferGrant) (att file : bytes) w0 w' (told : bool) : Prop :=
  let v := version_of (tg_object g) in
  alone w' /\ touches (tg_movement_id g) v (w_disk (aw_store w0)) (w_disk (aw_store w')) /\
  object_file (w_disk (aw_store w')) v = Some file /\
  sha256 file = d_content_digest (tg_object g) /\ zlen file = d_total_bytes (tg_object g) /\
  exists es, aw_events w' =
      Told MT.ATTEMPT_RESULT (AttemptResult_encode (arrival g att)) told :: es ++ aw_events w0 /\
    Forall no_report es.

Lemma same_version_of a b : same_version a b = true -> version_of a = version_of b.
Proof. intros H. apply same_version_spec in H as (H1 & H2 & _). unfold version_of. by rewrite H1, H2. Qed.

Lemma tell_arrival g att file w0 w (Q : AWorld C S -> Result unit -> Prop) :
  strays (tg_movement_id g) (version_of (tg_object g)) w0 w ->
  object_file (w_disk (aw_store w)) (version_of (tg_object g)) = Some file ->
  sha256 file = d_content_digest (tg_object g) -> zlen file = d_total_bytes (tg_object g) ->
  (forall w' x, placed_and_told g att file w0 w' (is_ok x) -> Q w' x) -> ends (tell (arrival g att)) w Q.
Proof.
  intros (Hal & Ht & es & He & Hes) Hf Hdg Hlen H. unfold tell. eapply (at_send_control _ _ w); [by apply arrives_refl|].
  intros w' c x (Hal' & _ & Hs & He'). apply H. split_and!; [done|by rewrite Hs|by rewrite Hs|done|done|].
  exists es. by rewrite He', He.
Qed.

Lemma place_object_ends stream g att st w0 w : staged (tg_movement_id g) (tg_object g) w0 w (rv_writer st) ->
  ends (place_object stream g att st) w (fun w' x =>
    (is_ok x = false /\ strays (tg_movement_id g) (version_of (tg_object g)) w0 w') \/
    exists file, placed_and_told g att file w0 w' (is_ok x)).
Proof.
  intros Hst. unfold place_object. cbv zeta. set (id := tg_movement_id g) in *. set (obj := tg_object g) in *.
  apply ends_bind, (ends_calm no_report); [apply calm_peek|apply Hst|]. intros w1 o Hp _.
  pose proof (staged_passes _ _ _ _ _ _ Hst Hp) as (Hs & Hok & Hid & Hv). clear Hst Hp.
  destruct o as [o|e]; [|by left].
  apply ends_bind, at_writer; [apply Hs|]. intros w2 s2 wr r Ef Hal2 <- He2. apply ends_bind, ends_lift.
  destruct r as [dg|e].
  2: { left. split; [done|]. eapply strays_trans; [exact Hs|]. apply disk_step; [done| |done].
       apply finish_disk in Ef. by rewrite Ef. }
  apply (finish_effect _ _ _ _ _ (wk_inv _ _ Hok)) in Ef as (Hd & _ & _ & Hj & file & Hf & Hl & -> & _).
  assert (strays id (version_of obj) w0 w2) as Hs2.
  { eapply strays_trans; [exact Hs|]. apply disk_step; [done| |done]. by rewrite Hd. }
  destruct (negb (bytes_eqb _ _)) eqn:Eq.
  { apply ends_bind, ends_try. eapply (at_store _ w2); [by apply arrives_refl|].
    intros w3 s3 x Ex (Hal3 & _ & <- & He3). apply ends_lift. left. split; [done|].
    eapply strays_trans; [exact Hs2|]. apply disk_step; [done| |done]. apply only_touches.
    assert (keeps (only id) (discard_staging id)) as Hk; [|by eapply Hk].
    unfold discard_staging. keeps_tac. intros. apply only_remove. }
  b2p. apply ends_bind, at_writer; [done|]. intros w3 s3 wr' r Epr Hal3 <- He3.
  apply ends_bind, ends_lift. apply same_version_of in Hv as Hvo.
  assert (strays id (version_of obj) w0 w3) as Hs3.
  { eapply strays_trans; [exact Hs2|]. apply disk_step; [done| |done]. rewrite Hvo, <- Hid, <- Hj.
    by eapply promote_touches. }
  destruct r as [[]|e]; [|by left].
  assert (object_file (w_disk (aw_store w3)) (version_of obj) = Some file) as Hfile.
  { rewrite Hvo, <- Hj. eapply promote_places; [|exact Epr]. by rewrite Hd, Hj. }
  apply ends_bind, (ends_calm no_report); [unfold send_data; by calm_tac|done|]. intros w4 x Hp4 _.
  destruct x as [x|e]; [|left; split; [done|]; eapply strays_trans; [exact Hs3|by apply passes_strays]].
  apply ends_bind, (ends_calm no_report); [by apply calm_update|apply Hp4|]. intros w5 y Hp5 _.
  pose proof (passes_trans _ _ _ _ Hp4 Hp5) as Hp. assert (strays id (version_of obj) w0 w5) as Hs5.
  { eapply strays_trans; [exact Hs3|]. by apply passes_strays. }
  destruct y as [[]|e]; [|by left]. unfold report_attempt_result. unfold obj in Eq. rewrite Eq.
  apply same_version_spec in Hv as (_ & _ & _ & Ht & _). destruct Hp as (_ & _ & Hd5 & _).
  apply (tell_arrival g att file w0 w5); [done|by rewrite Hd5|done|unfold obj in *; congruence|]. right. by exists file.
Qed.

Lemma grant_ok_begin g : grant_ok g -> id_wf 16 (tg_movement_id g) /\ array_is_zero (tg_movement_id g) = false /\
  in_u 64 (tg_movement_generation g) /\ tg_movement_generation g <> 0 /\ id_wf 16 (tg_attempt g) /\
  descriptor_ok (tg_object g).
Proof.
  intros (H1 & H2 & H3 & H4 & _ & _ & _ & _ & _ & _ & _ & _ & _ & _ & Hv). unfold TransferGrant_validate in Hv.
  destruct (array_is_zero (tg_movement_id g)); [done|]. cbn [reject_if rbind] in Hv.
  split_and!; try done. intros H0. by rewrite H0 in Hv.
Qed.

Lemma run_transfer_ends fuel g w : alone w -> lengths_ok (w_disk (aw_store w)) -> grant_ok g ->
  ends (run_transfer fuel g (tg_attempt g)) w (fun w' x =>
    (is_ok x = false /\ strays (tg_movement_id g) (version_of (tg_object g)) w w') \/
    exists file, placed_and_told g (tg_attempt g) file w w' (is_ok x)).
Proof.
  intros Hal Hl Hg. destruct (grant_ok_begin g Hg) as (G1 & G2 & G3 & G4 & G5 & G6). unfold run_transfer.
  set (id := tg_movement_id g) in *. set (v := version_of (tg_object g)).
  apply ends_bind, (ends_calm no_report); [by apply calm_locate|done|]. intros w1 x1 Hp1 _.
  destruct x1 as [address|e]; [|left; split; [done|by apply passes_strays]].
  apply ends_bind, (ends_calm no_report); [apply calm_peek|apply Hp1|]. intros w2 x2 Hp2 _.
  pose proof (passes_trans _ _ _ _ Hp1 Hp2) as Hp. clear Hp1 Hp2.
  destruct x2 as [o|e]; [|left; split; [done|by apply passes_strays]].
  apply ends_bind. eapply (at_store _ w2); [apply arrives_refl, Hp|]. intros w3 s3 x3 Eb (Hal3 & _ & <- & He3).
  assert (strays id v w w3) as Hs3.
  { eapply strays_trans; [by apply passes_strays|]. apply disk_step; [done| |done]. apply only_touches.
    by eapply begin_only. }
  destruct x3 as [wr|e]; [|by left].
  apply begin_ok in Eb as (Hok & _ & Hv & Hid & _); try done.
  2: { destruct Hp as (_ & _ & Hd & _). by rewrite Hd. }
  assert (staged id (tg_object g) w w3 wr) as Hst by done. clear Hp Hs3 Hok Hv Hid.
  apply ends_bind, (ends_calm no_report); [by apply calm_open_session|done|]. intros w4 x4 Hp _.
  pose proof (staged_passes _ _ _ _ _ _ Hst Hp) as Hst4. clear Hst Hp.
  destruct x4 as [stream|e]; [|left; split; [done|apply Hst4]].
  apply ends_bind, (ends_calm no_report); [by apply calm_request|apply Hst4|]. intros w5 x5 Hp _.
  pose proof (staged_passes _ _ _ _ _ _ Hst4 Hp) as Hst5. clear Hst4 Hp.
  destruct x5 as [stream5|e]; [|left; split; [done|apply Hst5]]. unfold receive_object.
  apply ends_bind, (ends_calm no_report); [apply calm_cancellation_flag|apply Hst5|]. intros w6 x6 Hp _.
  pose proof (staged_passes _ _ _ _ _ _ Hst5 Hp) as Hst6. clear Hst5 Hp.
  destruct x6 as [flag|e]; [|left; split; [done|apply Hst6]].
  apply ends_bind, (ends_calm no_report); [apply calm_peek|apply Hst6|]. intros w7 x7 Hp _.
  pose proof (staged_passes _ _ _ _ _ _ Hst6 Hp) as Hst7. clear Hst6 Hp.
  destruct x7 as [window|e]; [|left; split; [done|apply Hst7]].
  apply ends_bind. eapply ends_mono; [by apply receive_chunks_ends|]. intros w8 [[s8 st8]|e] H8.
  - by apply place_object_ends.
  - by left.
Qed.

(** The report of a transfer that ended with [e]. *)
Definition failure (id : bytes) (generation : Z) (att : bytes) (e : Status) : AttemptResult :=
  mkAttemptResult id generation att
    (if bool_decide (st_code e = RC.CANCELLED_BY_OPERATOR) then MS.CANCELLED else MS.FAILED)
    (st_code e) (st_message e) zero_digest 0 0 zero_digest.

(** How a transfer may end: [Some told] with the object placed and reported, or
    with a failure report only. *)
Definition transfer_outcome (g : TransferGrant) w w' : Prop :=
  let id := tg_movement_id g in let v := version_of (tg_object g) in
  touches id v (w_disk (aw_store w)) (w_disk (aw_store w')) /\
  exists es, Forall no_report es /\
    ((exists file told, object_file (w_disk (aw_store w')) v = Some file /\
        sha256 file = d_content_digest (tg_object g) /\ zlen file = d_total_bytes (tg_object g) /\
        let report := Told MT.ATTEMPT_RESULT (AttemptResult_encode (arrival g (tg_attempt g))) told in
        (told = true /\ aw_events w' = report :: es ++ aw_events w) \/
        (told = false /\ exists e told', aw_events w' =
           Told MT.ATTEMPT_RESULT (AttemptResult_encode (failure id (tg_movement_generation g) (tg_attempt g) e)) told' ::
           report :: es ++ aw_events w)) \/
     (exists e told, aw_events w' =
        Told MT.ATTEMPT_RESULT (AttemptResult_encode (failure id (tg_movement_generation g) (tg_attempt g) e)) told ::
        es ++ aw_events w)).

Lemma worker_ends fuel nonce entry w : alone w -> lengths_ok (w_disk (aw_store w)) ->
  ag_grants (aw_agent w) !! nonce = Some entry -> grant_ok (ge_grant entry) ->
  let g := ge_grant entry in
  ends (execute_movement_worker fuel (tg_movement_id g) (tg_attempt g) nonce) w (fun w' x =>
    x = Ok tt /\ transfer_outcome g w w').
Proof.
  intros Hal Hl Hn Hg g. unfold execute_movement_worker.
  apply ends_bind. eapply (at_peek _ w); [by apply arrives_refl|]. intros w1 (Hal1 & Ha1 & Hs1 & He1). rewrite Hn.
  cbv zeta. fold g. apply ends_bind, ends_try. eapply ends_mono.
  { apply run_transfer_ends; [done|by rewrite Hs1|done]. }
  intros w2 x H. assert (forall e es, aw_events w2 = es ++ aw_events w ->
    alone w2 -> touches (tg_movement_id g) (version_of (tg_object g)) (w_disk (aw_store w)) (w_disk (aw_store w2)) ->
    (forall w' told, aw_store w' = aw_store w2 -> aw_events w' =
       Told MT.ATTEMPT_RESULT (AttemptResult_encode (failure (tg_movement_id g) (tg_movement_generation g)
         (tg_attempt g) e)) told :: es ++ aw_events w -> transfer_outcome g w w') ->
    ends (let$ _ := eff_try (report_attempt_result (tg_movement_id g) (tg_movement_generation g) (tg_attempt g)
            (if bool_decide (st_code e = RC.CANCELLED_BY_OPERATOR) then MS.CANCELLED else MS.FAILED)
            (st_code e) (st_message e) zero_digest 0 0 zero_digest) in eff_ret tt) w2
      (fun w' x => x = Ok tt /\ transfer_outcome g w w')) as Hrep.
  { intros e es He Hal2 Ht Hout. apply ends_bind, ends_try. unfold report_attempt_result, tell.
    eapply (at_send_control _ _ w2); [by apply arrives_refl|]. intros w3 c y (_ & _ & Hs3 & He3).
    apply ends_ret. split; [done|]. eapply Hout; [done|]. by rewrite He3, He. }
  destruct H as [[Hx (Hal2 & Ht & es & He & Hes)]|(file & Hal2 & Ht & F1 & F2 & F3 & es & He & Hes)].
  - rewrite He1 in He. rewrite Hs1 in Ht. destruct x as [[]|e]; [done|]. apply (Hrep e es); try done.
    intros w' told Hs' He'. split; [by rewrite Hs'|]. exists es. split; [done|]. right. by exists e, told.
  - rewrite He1 in He. rewrite Hs1 in Ht. destruct x as [[]|e].
    + apply ends_ret. split; [done|]. split; [done|]. exists es. split; [done|]. left. exists file, true.
      split_and!; try done. by left.
    + eapply (Hrep e (_ :: es)); [exact He|done|done|]. intros w' told Hs' He'. split; [by rewrite Hs'|].
      exists es. split; [done|]. left. exists file, false. rewrite Hs'. split_and!; try done. right. split; [done|].
      by exists e, told.
Qed.
End arrival.

(** ** What the source serves *)

(** The payloads of the data chunks among the events, oldest first. *)
Definition chunk_payload (e : AgentEvent) : option bytes :=
  match e with Served MT.DATA_CHUNK payload _ => Some payload | _ => None end.
Definition chunks_in (es : list AgentEvent) : list bytes := rev (omap chunk_payload es).

Definition no_chunk (e : AgentEvent) : Prop := chunk_payload e = None.

(** Chunk [i] of [file] as the grant [g] has it sent, and the first [k] of them. *)
Definition chunk_of (g : TransferGrant) (file : bytes) (i : Z) : DataChunk :=
  let o := tg_object g in
  mkDataChunk (tg_movement_id g) (tg_attempt g) i (i * d_chunk_bytes o) (plan_length o i) (digest_at o file i)
    (chunk_slice o file i).
Definition first_chunks (g : TransferGrant) (file : bytes) (start : Z) (k : nat) : list bytes :=
  map (fun i => DataChunk_encode (chunk_of g file (start + Z.of_nat i))) (seq 0 k).

Lemma first_chunks_S g file start k :
  first_chunks g file start (Datatypes.S k) = DataChunk_encode (chunk_of g file start) :: first_chunks g file (start + 1) k.
Proof.
  unfold first_chunks. cbn [seq map]. rewrite Z.add_0_r. f_equal. rewrite <- seq_shift, map_map.
  apply map_ext. intros i. f_equal. f_equal. lia.
Qed.

Lemma chunks_in_app es fs : chunks_in (es ++ fs) = chunks_in fs ++ chunks_in es.
Proof. unfold chunks_in. by rewrite omap_app, rev_app_distr. Qed.

Lemma chunks_in_none es : Forall no_chunk es -> chunks_in es = [].
Proof. unfold chunks_in. induction 1 as [|e es He _ IH]; [done|]. cbn. rewrite He. exact IH. Qed.

Lemma read_chunk_Ok g file i w w' c : descriptor_ok (tg_object g) -> 0 <= i ->
  read_chunk g file i w = (w', Ok c) -> c = chunk_of g file i /\ i < d_chunk_count (tg_object g).
Proof.
  intros Ho Hi H. unfold read_chunk in H. cbv zeta in H. iostep H. iofacts.
  rewrite chunk_offset_spec in H0 by done. destruct (Z.ltb_spec i (d_chunk_count (tg_object g))) as [Hlt|]; [|done].
  injection H0 as <-. iostep H. iofacts. rewrite chunk_length_spec in H0 by done.
  rewrite (proj2 (Z.ltb_lt _ _) Hlt) in H0. injection H0 as <-.
  iostep H. iostep H. iostep H. iofacts. b2p. destruct (plan_length_pos _ _ Ho (conj Hi Hlt)) as [Hp _].
  apply read_file_full in E0 as (_ & -> & _); [|unfold zlen in *; lia].
  by split.
Qed.

Lemma read_chunk_disk g file i : keeps eq (read_chunk g file i).
Proof. unfold read_chunk. cbv zeta. keeps_tac. done. Qed.

Section serving.
Context {C S : Type} `{!Connection C, !EntropySource S}.
Implicit Types w : AWorld C S.

(** On its own from [w] to [w'], with the chunks [cs] sent. *)
Definition sends (cs : list bytes) w w' : Prop :=
  alone w' /\ same_authority (aw_agent w) (aw_agent w') /\ w_disk (aw_store w') = w_disk (aw_store w) /\
  exists es, aw_events w' = es ++ aw_events w /\ chunks_in es = cs.

Lemma passes_sends w w' : passes no_chunk w w' -> sends [] w w'.
Proof. intros (H1 & H2 & H3 & es & He & Hes). split_and!; try done. exists es. by rewrite chunks_in_none. Qed.

Lemma sends_trans cs ds w1 w2 w3 : sends cs w1 w2 -> sends ds w2 w3 -> sends (cs ++ ds) w1 w3.
Proof.
  intros (_ & Ha & Hd & es & He & Hes) (Hal & Ha' & Hd' & es' & He' & Hes'). split_and!; [done|by etrans|congruence|].
  exists (es' ++ es). rewrite chunks_in_app, Hes, Hes'. by rewrite He', He, app_assoc.
Qed.

Lemma sends_then_passes cs w1 w2 w3 : sends cs w1 w2 -> passes no_chunk w2 w3 -> sends cs w1 w3.
Proof. intros H1 H2%passes_sends. rewrite <- (app_nil_r cs). by eapply sends_trans. Qed.

Lemma send_chunk_ends stream c w (Q : AWorld C S -> Result (FrameStream C) -> Prop) : alone w ->
  (forall w' x, sends [DataChunk_encode c] w w' -> Q w' x) -> ends (send_data stream c) w Q.
Proof.
  intros Hal H. unfold send_data, send_on. destruct (FrameStream_send _ _ _ _) as [s r].
  apply ends_bind. eapply (at_observe _ w); [by apply arrives_refl|]. intros w' (Ha & Hag & Hs & He).
  assert (sends [DataChunk_encode c] w w') as Hw.
  { split_and!; [done|by rewrite Hag|by rewrite Hs|]. eexists. split; [exact He|done]. }
  apply ends_bind, ends_lift. destruct r; [apply ends_ret|]; by apply H.
Qed.

(** Of the [n] chunks of [file] from [i] on, the first few were sent; all of them
    if it [ended] well. *)
Definition sends_some (g : TransferGrant) (file : bytes) (i : Z) (n : nat) (ended : bool) w w' : Prop :=
  exists k, (k <= n)%nat /\ (ended = true -> k = n) /\ sends (first_chunks g file i k) w w'.

Lemma sends_none g file i n w w' : passes no_chunk w w' -> sends_some g file i n false w w'.
Proof. intros Hp. exists 0%nat. split; [lia|]. split; [done|by apply passes_sends]. Qed.

Lemma sends_one g file i n ended w w1 w2 : sends [DataChunk_encode (chunk_of g file i)] w w1 ->
  sends_some g file (i + 1) n ended w1 w2 -> sends_some g file i (Datatypes.S n) ended w w2.
Proof.
  intros H1 (k & Hk & He & H2). exists (Datatypes.S k). split; [lia|]. split; [intros E; by rewrite He|].
  rewrite first_chunks_S. by apply (sends_trans [_] _ _ w1).
Qed.

Lemma passes_sends_some g file i n ended w w1 w2 : passes no_chunk w w1 ->
  sends_some g file i n ended w1 w2 -> sends_some g file i n ended w w2.
Proof.
  intros H1%passes_sends (k & Hk & He & H2). exists k. split_and!; try done. by apply (sends_trans [] _ _ w1).
Qed.

Lemma abort_serving_ends {A} stream g w : alone w ->
  ends (abort_serving (A := A) stream g) w (fun w' x => is_ok x = false /\ passes no_chunk w w').
Proof.
  intros Hal. unfold abort_serving. apply ends_bind, (ends_calm no_chunk); [unfold send_data; by calm_tac|done|].
  intros w1 x Hp _. destruct x; [by apply ends_lift|done].
Qed.

Lemma read_chunk_ends g file i w (Q : AWorld C S -> Result DataChunk -> Prop) : alone w ->
  descriptor_ok (tg_object g) -> 0 <= i ->
  (forall w' x, passes no_chunk w w' -> (forall c, x = Ok c -> c = chunk_of g file i) -> Q w' x) ->
  ends (on_store (read_chunk g file i)) w Q.
Proof.
  intros Hal Ho Hi H. eapply (at_store _ w); [by apply arrives_refl|]. intros w' s' x Hx (Hal' & Ha & Hs & He).
  apply H.
  - split_and!; [done|by rewrite Ha| |by exists []]. rewrite Hs. symmetry. by eapply read_chunk_disk.
  - intros c ->. by apply read_chunk_Ok in Hx as [? _].
Qed.

Lemma serve_chunks_ends n : forall stream g file flag window i sent total w, alone w ->
  descriptor_ok (tg_object g) -> 0 <= i ->
  ends (serve_chunks n stream g file flag window i sent total) w (fun w' x =>
    sends_some g file i n (is_ok x) w w').
Proof.
  induction n as [|n IH]; intros stream g file flag window i sent total w Hal Ho Hi; cbn [serve_chunks].
  { apply ends_ret. exists 0%nat. split; [done|]. split; [done|]. by apply passes_sends, passes_refl. }
  apply ends_bind, (ends_calm no_chunk); [apply calm_interrupted|done|]. intros w1 b Hp1 _.
  destruct b as [b|e]; [|by apply sends_none]. destruct b.
  { eapply ends_mono; [apply abort_serving_ends, Hp1|]. intros w2 x [-> Hp2]. apply sends_none. by eapply passes_trans. }
  apply ends_bind, read_chunk_ends; [apply Hp1|done|done|]. intros w2 x Hp2 Hx.
  pose proof (passes_trans _ _ _ _ Hp1 Hp2) as Hp. destruct x as [c|e]; [|by apply sends_none].
  rewrite (Hx c eq_refl). clear Hx Hp1 Hp2.
  apply ends_bind, send_chunk_ends; [apply Hp|]. intros w3 y Hs3.
  assert (forall w4 ended, sends_some g file (i + 1) n ended w3 w4 ->
            sends_some g file i (Datatypes.S n) ended w w4) as Hone.
  { intros w4 ended H. eapply passes_sends_some; [exact Hp|]. by eapply sends_one. }
  destruct y as [stream'|e]; [|apply Hone, sends_none, passes_refl, Hs3]. cbv zeta.
  apply ends_bind, (ends_calm no_chunk); [unfold expect; by calm_tac|apply Hs3|]. intros w4 z Hp4 _.
  destruct z as [stream4|e]; [|by apply Hone, sends_none].
  eapply ends_mono; [apply IH; [apply Hp4|done|lia]|]. intros w5 x H5. apply Hone. by eapply passes_sends_some.
Qed.

(** *** The authority check *)

(** Reading the agent and the disk as they are. *)
Lemma ends_peek {A} P (f : Agent C -> A) w (Q : AWorld C S -> Result A -> Prop) : alone w ->
  (forall w', passes P w w' -> Q w' (Ok (f (aw_agent w)))) -> ends (peek f) w Q.
Proof.
  intros Hal H. eapply (at_peek _ w); [by apply arrives_refl|]. intros w' (Hal' & Ha & Hs & He).
  apply H. split_and!; [done|by rewrite Ha|by rewrite Hs|by exists []].
Qed.

Lemma ends_disk_peek {A} P (f : Disk -> A) w (Q : AWorld C S -> Result A -> Prop) : alone w ->
  (forall w', passes P w w' -> Q w' (Ok (f (w_disk (aw_store w))))) -> ends (disk_peek f) w Q.
Proof.
  intros Hal H. eapply (at_disk_peek _ w); [by apply arrives_refl|]. intros w' (Hal' & Ha & Hs & He).
  apply H. split_and!; [done|by rewrite Ha|by rewrite Hs|by exists []].
Qed.

Lemma ends_draw {A} P (f : S -> A * S) w (Q : AWorld C S -> Result A -> Prop) : alone w ->
  (forall w', passes P w w' -> Q w' (Ok (f (aw_entropy w)).1)) -> ends (draw f) w Q.
Proof.
  intros Hal H. apply (ends_calm P); [apply calm_draw|done|]. intros w' x Hp E. unfold draw in E.
  destruct (f (aw_entropy w)) as [y t] eqn:Ef. injection E as Ew <-. change y with (y, t).1. apply (H w' Hp).
Qed.

(** The peer proved that it holds the shared secret. *)
Definition authentic (secret : bytes) (peer : PeerIdentity) : Prop :=
  exists hello, hq_identity hello = peer /\
    hq_client_mac hello = compute_client_mac secret (hq_client_nonce hello) (hq_identity hello).

Lemma accept_data_session_ends connection w : alone w ->
  ends (accept_data_session connection) w (fun w' x => passes no_chunk w w' /\
    forall stream peer, x = Ok (stream, peer) -> authentic (ec_shared_secret (ag_config (aw_agent w))) peer).
Proof.
  intros Hal. unfold accept_data_session.
  apply ends_bind, (ends_calm no_chunk); [apply calm_peek|done|]. intros w1 x Hp1 _. destruct x as [stream|e]; [|done].
  apply ends_bind, (ends_calm no_chunk); [apply calm_receive_from|apply Hp1|]. intros w2 x Hp2 _.
  pose proof (passes_trans _ _ _ _ Hp1 Hp2) as Hp. clear Hp1 Hp2. destruct x as [[stream2 frame]|e]; [|done].
  apply ends_bind. unfold expect. apply ends_reject; intros _; [done|].
  apply ends_bind, ends_lift. destruct (decode_all _ _ _) as [hello|e]; [|done].
  apply ends_bind, (ends_peek no_chunk); [apply Hp|]. intros w3 Hp3. pose proof (passes_trans _ _ _ _ Hp Hp3) as Hp'. clear Hp Hp3.
  apply ends_bind, (ends_peek no_chunk); [apply Hp'|]. intros w4 Hp4. pose proof (passes_trans _ _ _ _ Hp' Hp4) as Hp.
  assert (ec_shared_secret (ag_config (aw_agent w3)) = ec_shared_secret (ag_config (aw_agent w))) as ->.
  { destruct Hp' as (_ & (-> & _) & _). done. }
  clear Hp' Hp4. set (secret := ec_shared_secret _).
  apply ends_bind, (ends_draw no_chunk); [apply Hp|]. intros w5 Hp5. pose proof (passes_trans _ _ _ _ Hp Hp5) as Hp'. clear Hp Hp5.
  apply ends_bind, (ends_draw no_chunk); [apply Hp'|]. intros w6 Hp6. pose proof (passes_trans _ _ _ _ Hp' Hp6) as Hp. clear Hp' Hp6.
  destruct (accept_hello_request _ _ _ _ _) as [s' [response|e]] eqn:Ea; cbn [fst].
  2: { apply (ends_calm no_chunk); [by calm_tac|apply Hp|]. intros w7 x Hp7 Hx. split; [by eapply passes_trans|].
       intros s p ->. unfold eff_bind in Hx. by destruct (tally _ _ _) as [? [[]|?]]. }
  apply accept_hello_request_Ok in Ea as (_ & Hmac & _).
  apply ends_bind, (ends_calm no_chunk); [by calm_tac|apply Hp|]. intros w7 x Hp7 _.
  pose proof (passes_trans _ _ _ _ Hp Hp7) as Hp'. clear Hp Hp7. destruct x as [stream7|e]; [|done].
  apply ends_bind, (ends_calm no_chunk); [apply calm_tally|apply Hp'|]. intros w8 x Hp8 _.
  pose proof (passes_trans _ _ _ _ Hp' Hp8) as Hp. destruct x as [[]|e]; [|done].
  apply ends_ret. split; [done|]. intros s p [= _ <-]. by exists hello.
Qed.

(** On its own from [w] to [w'], the disk as it was and the chunks [cs] sent. *)
Definition talks (cs : list bytes) w w' : Prop :=
  alone w' /\ w_disk (aw_store w') = w_disk (aw_store w) /\
  exists es, aw_events w' = es ++ aw_events w /\ chunks_in es = cs.

Lemma sends_talks cs w w' : sends cs w w' -> talks cs w w'.
Proof. intros (H1 & _ & H2 & H3). done. Qed.

Lemma talks_trans cs ds w1 w2 w3 : talks cs w1 w2 -> talks ds w2 w3 -> talks (cs ++ ds) w1 w3.
Proof.
  intros (_ & Hd & es & He & Hes) (Hal & Hd' & es' & He' & Hes'). split_and!; [done|congruence|].
  exists (es' ++ es). rewrite chunks_in_app, Hes, Hes'. by rewrite He', He, app_assoc.
Qed.

Lemma passes_talks w w' : passes no_chunk w w' -> talks [] w w'.
Proof. intros H. by apply sends_talks, passes_sends. Qed.

(** Under the nonce there was a live grant [g] of this agent's coordinator for
    an object it holds, from this agent to [peer]; now it is consumed. *)
Definition licensed w w' (peer : PeerIdentity) (nonce : bytes) (g : TransferGrant) : Prop :=
  let a := aw_agent w in
  exists entry, ag_grants a !! nonce = Some entry /\ ge_grant entry = g /\ ge_consumed entry = false /\
    ag_grants (aw_agent w') = <[nonce := mkGrantEntry g true (ge_received_unix_millis entry)]> (ag_grants a) /\
    verify_signature (ec_shared_secret (ag_config a)) g = Ok tt /\ tg_source g = ec_endpoint_id (ag_config a) /\
    tg_destination g = pi_endpoint peer /\ tg_policy_generation g = ag_policy_generation a.

Lemma refuse_if_ends cond stream begin code detail w : alone w ->
  ends (refuse_if cond stream begin code detail) w (fun w' x => passes no_chunk w w' /\ (x = Ok tt -> cond = false)).
Proof.
  intros Hal. unfold refuse_if. destruct cond; [|apply ends_ret; split; [by apply passes_refl|done]].
  unfold refuse_data, send_data. apply ends_bind, (ends_calm no_chunk); [by calm_tac|done|]. intros w1 x Hp1 _.
  destruct x; [|done]. apply ends_bind, (ends_calm no_chunk); [apply calm_tally|apply Hp1|]. intros w2 y Hp2 _.
  pose proof (passes_trans _ _ _ _ Hp1 Hp2). destruct y; [|done]. by apply ends_lift.
Qed.

(** A check that refuses: on success its condition does not hold. *)
Lemma after_refusal {A} cond stream begin code detail (k : unit -> Eff (AWorld C S) A) w0 w
    (Q : AWorld C S -> Result A -> Prop) : passes no_chunk w0 w ->
  (forall w' e, passes no_chunk w0 w' -> Q w' (Err e)) ->
  (forall w', cond = false -> passes no_chunk w0 w' -> ends (k tt) w' Q) ->
  ends (eff_bind (refuse_if cond stream begin code detail) k) w Q.
Proof.
  intros Hp He Hk. apply ends_bind. eapply ends_mono; [apply refuse_if_ends, Hp|]. intros w1 x [Hp1 Hx].
  pose proof (passes_trans _ _ _ _ Hp Hp1) as Hp'. destruct x as [[]|e]; [|by apply He]. apply Hk; [by apply Hx|done].
Qed.

Lemma take_grant_ends nonce w (Q : AWorld C S -> Result (option TransferGrant) -> Prop) : alone w ->
  (forall w', passes no_chunk w w' -> Q w' (Ok None)) ->
  (forall w' entry, talks [] w w' -> ag_grants (aw_agent w) !! nonce = Some entry -> ge_consumed entry = false ->
     aw_agent w' = set_grants (aw_agent w) (<[nonce := mkGrantEntry (ge_grant entry) true
       (ge_received_unix_millis entry)]> (ag_grants (aw_agent w))) -> Q w' (Ok (Some (ge_grant entry)))) ->
  ends (take_grant nonce) w Q.
Proof.
  intros Hal Hnone Hsome. unfold take_grant. eapply (at_shared _ w); [by apply arrives_refl|].
  assert (forall w', arrives w (aw_agent w) (aw_store w) [] w' -> passes no_chunk w w') as Hsame.
  { intros w' (Hal' & Ha & Hs & He). split_and!; [done|by rewrite Ha|by rewrite Hs|by exists []]. }
  destruct (ag_grants (aw_agent w) !! nonce) as [entry|] eqn:Hn; [|intros w' Hw; by apply Hnone, Hsame].
  destruct (ge_consumed entry) eqn:Hc; [intros w' Hw; by apply Hnone, Hsame|].
  intros w' (Hal' & Ha & Hs & He). apply Hsome; try done. split_and!; [done|by rewrite Hs|by exists []].
Qed.

Lemma authorize_serving_ends stream peer begin w : alone w ->
  ends (authorize_serving stream peer begin) w (fun w' x => talks [] w w' /\
    forall g, x = Ok g -> licensed w w' peer (db_nonce begin) g).
Proof.
  intros Hal. unfold authorize_serving. apply ends_bind, take_grant_ends; [done| |].
  { intros w1 Hp. unfold refuse_data, send_data.
    apply (ends_calm no_chunk); [by calm_tac|apply Hp|]. intros w2 x Hp2 Hx.
    split; [apply passes_talks; by eapply passes_trans|]. intros g ->. unfold eff_bind, eff_try in Hx.
    destruct (send_on _ _ _ _) as [w3 r]. by destruct (tally _ _ _) as [? [[]|?]]. }
  intros w1 entry Ht Hn Hc Ha. set (g := ge_grant entry) in *.
  assert (forall w', passes no_chunk w1 w' -> talks [] w w') as Htalk.
  { intros w' Hp. apply (talks_trans [] [] _ w1); [done|by apply passes_talks]. }
  set (Q := fun w' x => _).
  assert (forall w' e, passes no_chunk w1 w' -> Q w' (Err e)) as Herr by (intros w' e Hp; split; [by apply Htalk|done]).
  apply ends_bind, (ends_peek no_chunk); [apply Ht|]. intros w2 Hp2.
  apply ends_bind, ends_lift. assert (ag_config (aw_agent w1) = ag_config (aw_agent w)) as -> by by rewrite Ha.
  destruct (verify_signature _ g) as [[]|e] eqn:Hsig; [|by apply Herr].
  eapply after_refusal; [exact Hp2|exact Herr|]. intros w3 E1 Hp3.
  eapply after_refusal; [exact Hp3|exact Herr|]. intros w4 _ Hp4.
  eapply after_refusal; [exact Hp4|exact Herr|]. intros w5 E2 Hp5.
  eapply after_refusal; [exact Hp5|exact Herr|]. intros w6 _ Hp6.
  apply ends_bind, (ends_peek no_chunk); [apply Hp6|]. intros w7 Hp7.
  eapply after_refusal; [exact (passes_trans _ _ _ _ Hp6 Hp7)|exact Herr|]. intros w8 E3 Hp8.
  apply ends_bind, (ends_disk_peek no_chunk); [apply Hp8|]. intros w9 Hp9.
  eapply after_refusal; [exact (passes_trans _ _ _ _ Hp8 Hp9)|exact Herr|]. intros w10 _ Hp10.
  apply ends_ret. split; [by apply Htalk|]. intros g' [= <-]. b2p. exists entry.
  destruct Hp10 as (_ & (_ & _ & Hgr & _) & _). destruct Hp6 as (_ & (_ & _ & _ & Hpg & _) & _).
  rewrite Ha in Hgr, Hpg. cbn in Hgr, Hpg. split_and!; try done; congruence.
Qed.

(** A session that sent data: to an authentic peer, under a grant it consumed,
    the leading chunks of the object on disk; all of them if it ended well. *)
Definition served_as_granted w w' (x : Result unit) : Prop :=
  exists peer nonce g file k,
    authentic (ec_shared_secret (ag_config (aw_agent w))) peer /\ licensed w w' peer nonce g /\
    object_file (w_disk (aw_store w)) (version_of (tg_object g)) = Some file /\
    Z.of_nat k <= d_chunk_count (tg_object g) /\ (is_ok x = true -> Z.of_nat k = d_chunk_count (tg_object g)) /\
    talks (first_chunks g file 0 k) w w'.

Lemma licensed_from w0 w w' peer nonce g : passes no_chunk w0 w -> licensed w w' peer nonce g ->
  licensed w0 w' peer nonce g.
Proof.
  intros (_ & (Hc & _ & Hg & Hp & _) & _) (entry & H1 & H2 & H3 & H4 & H5 & H6 & H7 & H8). exists entry.
  rewrite <- Hc, <- Hg, <- Hp. done.
Qed.

Lemma licensed_to w w1 w2 peer nonce g : licensed w w1 peer nonce g -> same_authority (aw_agent w1) (aw_agent w2) ->
  licensed w w2 peer nonce g.
Proof.
  intros (entry & H1 & H2 & H3 & H4 & H5) (_ & _ & Hg & _). exists entry. rewrite Hg. done.
Qed.

Lemma open_object_ends o v w (Q : AWorld C S -> Result bytes -> Prop) : alone w ->
  (forall w' x, passes no_chunk w w' -> (forall f, x = Ok f -> object_file (w_disk (aw_store w)) v = Some f) -> Q w' x) ->
  ends (on_store (let* d := io_disk in open_read (object_data_path o v) (object_file d v))) w Q.
Proof.
  intros Hal H. eapply (at_store _ w); [by apply arrives_refl|]. intros w' s' x Hx (Hal' & Ha & Hs & He).
  apply H.
  - split_and!; [done|by rewrite Ha| |by exists []]. rewrite Hs. symmetry.
    assert (keeps eq (let* d := io_disk in open_read (object_data_path o v) (object_file d v))) as Hk; [|by eapply Hk].
    apply keeps_bind; [apply _|apply keeps_disk; apply _|]. intros d. apply keeps_open. apply _.
  - intros f ->. iostep Hx. iofacts. by apply open_read_Ok in Hx as [_ ?].
Qed.

Lemma resume_point_decoded frame begin o : decode_message DataBegin frame = Ok begin -> resume_point o begin = (0, 0).
Proof.
  intros H. apply decode_message_canonical in H as [Hb _]. unfold resume_point.
  assert (db_resume_from_chunk begin = 0) as -> by (unfold DataBegin_ok in Hb; tauto). done.
Qed.

(** The part of [serve_data_connection] after the authority check. *)
Lemma serve_object_ends stream begin g w : alone w -> descriptor_ok (tg_object g) ->
  resume_point (tg_object g) begin = (0, 0) ->
  ends (let '(start_chunk, start_offset) := resume_point (tg_object g) begin in
        let$ stream := send_data stream (mkDataBeginAck (db_nonce begin) RC.OK start_chunk start_offset []) in
        let$ options := peek (fun a => agent_store (ag_config a)) in
        let$ file := on_store (let* d := io_disk in
          open_read (object_data_path options (version_of (tg_object g))) (object_file d (version_of (tg_object g)))) in
        let$ flag := cancellation_flag (tg_movement_id g) in
        let$ window := peek (fun a => po_max_inflight_chunks (ec_policy (ag_config a))) in
        let$ (stream, sent_bytes) := serve_chunks (Z.to_nat (d_chunk_count (tg_object g) - start_chunk)) stream g file
          flag window start_chunk 0 0 in
        finish_serving stream g sent_bytes) w (fun w' x =>
    (is_ok x = false /\ passes no_chunk w w') \/
    exists file, object_file (w_disk (aw_store w)) (version_of (tg_object g)) = Some file /\
      sends_some g file 0 (Z.to_nat (d_chunk_count (tg_object g))) (is_ok x) w w').
Proof.
  intros Hal Ho ->. rewrite Z.sub_0_r. set (n := Z.to_nat _).
  apply ends_bind, (ends_calm no_chunk); [unfold send_data; by calm_tac|done|]. intros w1 x Hp1 _.
  destruct x as [stream1|e]; [|by left].
  apply ends_bind, (ends_peek no_chunk); [apply Hp1|]. intros w2 Hp2.
  pose proof (passes_trans _ _ _ _ Hp1 Hp2) as Hp. clear Hp1 Hp2.
  apply ends_bind, open_object_ends; [apply Hp|]. intros w3 x Hp3 Hf.
  pose proof (passes_trans _ _ _ _ Hp Hp3) as Hp'. destruct x as [file|e]; [|by left].
  specialize (Hf file eq_refl). assert (w_disk (aw_store w2) = w_disk (aw_store w)) as Hd by apply Hp. rewrite Hd in Hf.
  clear Hp Hp3 Hd. apply ends_bind, (ends_calm no_chunk); [apply calm_cancellation_flag|apply Hp'|]. intros w4 x Hp4 _.
  pose proof (passes_trans _ _ _ _ Hp' Hp4) as Hp. clear Hp' Hp4. destruct x as [flag|e]; [|by left].
  apply ends_bind, (ends_peek no_chunk); [apply Hp|]. intros w5 Hp5.
  pose proof (passes_trans _ _ _ _ Hp Hp5) as Hp'. clear Hp Hp5.
  apply ends_bind. eapply ends_mono; [apply serve_chunks_ends; [apply Hp'|done|lia]|]. intros w6 x H6.
  eapply passes_sends_some in H6; [|exact Hp']. destruct x as [[stream6 total]|e]; [|right; by exists file].
  apply (ends_calm no_chunk); [unfold finish_serving, expect, send_data; calm_tac; first [done|by apply calm_update]| |].
  { destruct H6 as (k & _ & _ & H6). apply H6. }
  intros w7 x Hp7 _. right. exists file. split; [done|]. destruct H6 as (k & Hk & He & H6). exists k.
  split; [done|]. split; [auto|]. by eapply sends_then_passes.
Qed.

Lemma serve_data_connection_ends connection w : alone w ->
  map_Forall (fun _ e => grant_ok (ge_grant e)) (ag_grants (aw_agent w)) ->
  ends (serve_data_connection connection) w (fun w' x =>
    (is_ok x = false /\ talks [] w w') \/ served_as_granted w w' x).
Proof.
  intros Hal Hgr. unfold serve_data_connection.
  apply ends_bind. eapply ends_mono; [by apply accept_data_session_ends|]. intros w1 x [Hp1 Hauth].
  destruct x as [[stream peer]|e]; [|left; split; [done|by apply passes_talks]]. specialize (Hauth _ _ eq_refl).
  apply ends_bind, (ends_calm no_chunk); [apply calm_receive_from|apply Hp1|]. intros w2 x Hp2 _.
  pose proof (passes_trans _ _ _ _ Hp1 Hp2) as Hp. clear Hp1 Hp2.
  destruct x as [[stream2 frame]|e]; [|left; split; [done|by apply passes_talks]].
  apply ends_bind. unfold expect. apply ends_reject; intros _; [left; split; [done|by apply passes_talks]|].
  apply ends_bind, ends_lift. destruct (decode_message DataBegin frame) as [begin|e] eqn:Eb;
    [|left; split; [done|by apply passes_talks]].
  apply ends_bind. eapply ends_mono; [apply authorize_serving_ends, Hp|]. intros w3 x [Ht Hlic].
  assert (talks [] w w3) as Htw by (apply (talks_trans [] [] _ w2); [by apply passes_talks|done]).
  destruct x as [g|e]; [|by left]. specialize (Hlic g eq_refl).
  apply (licensed_from w) in Hlic; [|done].
  assert (grant_ok g) as Hg by (destruct Hlic as (entry & Hn & <- & _); by apply (Hgr _ _ Hn)).
  cbv zeta. eapply ends_mono; [apply serve_object_ends; [apply Ht|apply Hg|by eapply resume_point_decoded]|].
  intros w4 x [[Hx Hp4]|(file & Hf & k & Hk & Hkx & Hs)].
  { left. split; [done|]. apply (talks_trans [] [] _ w3); [done|by apply passes_talks]. }
  right. exists peer, (db_nonce begin), g, file, k.
  pose proof (chunk_count_spec _ (proj1 (proj2 (proj2 (proj2 Hg))))) as (Hcc & _).
  split; [done|]. split; [by eapply licensed_to; [|apply Hs]|].
  split; [by rewrite <- (proj1 (proj2 Htw))|]. split; [lia|].
  split; [intros Hx; rewrite (Hkx Hx); lia|]. apply (talks_trans [] _ _ w3); [done|by apply sends_talks].
Qed.
End serving.

(** ** A complete stream is placed *)

(** The end of a transfer as the source sends it. *)
Definition end_of (g : TransferGrant) : DataEnd :=
  mkDataEnd (tg_movement_id g) (tg_attempt g) (d_chunk_count (tg_object g)) (d_total_bytes (tg_object g))
    (d_content_digest (tg_object g)).

(** What the source sends for [content] from chunk [i] on. *)
Definition rest_of_transfer (g : TransferGrant) (content : bytes) (i : Z) (n : nat) : list (MessageType * bytes) :=
  map (pair MT.DATA_CHUNK) (first_chunks g content i n) ++ [(MT.DATA_END, DataEnd_encode (end_of g))].

Definition message_of (f : Frame) : MessageType * bytes := (fh_type (fr_header f), fr_payload f).

Section complete.
Context {C S : Type} `{!Connection C, !EntropySource S}.
Implicit Types w : AWorld C S.

(** The stream yields these messages, with room for an acknowledgement after
    each. *)
Fixpoint feeds (ms : list (MessageType * bytes)) (stream : FrameStream C) : Prop :=
  match ms with
  | [] => True
  | m :: ms => exists f s1, FrameStream_receive stream = (s1, Ok f) /\ message_of f = m /\ feeds ms s1 /\
      forall ack, id_wf 16 (da_movement_id ack) -> id_wf 16 (da_attempt ack) ->
        exists s2, FrameStream_send s1 MT.DATA_CHUNK_ACK (DataChunkAck_encode ack) 0 = (s2, Ok tt) /\ feeds ms s2
  end.

Lemma at_receive stream s1 (f : Frame) w (Q : AWorld C S -> Result (FrameStream C * Frame) -> Prop) :
  FrameStream_receive stream = (s1, Ok f) -> Q w (Ok (s1, f)) -> ends (receive_from stream) w Q.
Proof. intros E H. unfold receive_from. rewrite E. exact H. Qed.

Lemma at_send_on stream s1 type payload w0 a s es w (Q : AWorld C S -> Result (FrameStream C) -> Prop) :
  arrives w0 a s es w -> FrameStream_send stream type payload 0 = (s1, Ok tt) ->
  (forall w', arrives w0 a s (Served type payload true :: es) w' -> Q w' (Ok s1)) -> ends (send_on stream type payload) w Q.
Proof.
  intros Hb E H. unfold send_on. rewrite E. apply ends_bind. eapply at_observe; [exact Hb|]. intros w' Hw.
  apply ends_bind, ends_lift, ends_ret. by apply H.
Qed.

Lemma grant_attempt_set g : grant_ok g -> array_is_zero (tg_attempt g) = false.
Proof.
  intros Hg. pose proof (grant_ok_begin g Hg) as (_ & G2 & _).
  destruct Hg as (_ & _ & _ & _ & _ & _ & _ & _ & _ & _ & _ & _ & _ & _ & Hv). unfold TransferGrant_validate in Hv.
  rewrite G2 in Hv. cbn [reject_if rbind] in Hv. destruct (require_generation _ _); [|done]. cbn [rbind] in Hv.
  by destruct (array_is_zero (tg_attempt g)).
Qed.

Lemma chunk_of_ok g content i : grant_ok g -> zlen content = d_total_bytes (tg_object g) ->
  plan_length (tg_object g) i <= kMaxWireChunkBytes -> 0 <= i < d_chunk_count (tg_object g) ->
  DataChunk_ok (chunk_of g content i).
Proof.
  intros Hg Hlen Hw Hi. pose proof (grant_ok_begin g Hg) as (G1 & G2 & _ & _ & G5 & G6).
  destruct (descriptor_range_count _ G6) as (Ht & Hcb & Hcc). pose proof (plan_length_pos _ i G6 Hi) as [Hp Hs].
  pose proof (chunk_slice_length (tg_object g) content i G6 Hlen Hi) as Hsl.
  pose proof (grant_attempt_set g Hg) as Hat.
  assert (in_u 32 i) as Hi32 by (unfold in_u in *; lia).
  assert (in_u 64 (i * d_chunk_bytes (tg_object g))) as Hoff by (unfold in_u in *; lia).
  assert (in_u 64 (plan_length (tg_object g) i)) as Hpl by (unfold in_u in *; lia).
  unfold DataChunk_ok, DataChunk_validate, chunk_of. cbn [dc_movement_id dc_attempt dc_chunk_index dc_chunk_offset
    dc_chunk_length dc_chunk_digest dc_payload]. rewrite G2, Hat, Hsl, Z.eqb_refl.
  rewrite (proj2 (Z.ltb_ge _ _) Hw). unfold chunk_bytes_ok. rewrite Hsl. by split_and!.
Qed.

Lemma end_of_ok g : grant_ok g -> DataEnd_ok (end_of g).
Proof.
  intros Hg. pose proof (grant_ok_begin g Hg) as (G1 & G2 & _ & _ & G5 & G6).
  destruct (descriptor_range_count _ G6) as (Ht & Hcb & Hcc).
  unfold DataEnd_ok, DataEnd_validate, end_of. cbn [de_movement_id de_attempt de_total_chunks de_total_bytes
    de_content_digest]. rewrite G2, (grant_attempt_set g Hg). destruct G6 as [Hr [_ _ _ _ _ Hcd _ _ _ _ _]].
  rewrite Hcd, andb_false_r. split_and!; try done. apply Hr.
Qed.

Lemma rest_of_transfer_S g content i n : rest_of_transfer g content i (Datatypes.S n) =
  (MT.DATA_CHUNK, DataChunk_encode (chunk_of g content i)) :: rest_of_transfer g content (i + 1) n.
Proof. unfold rest_of_transfer. by rewrite first_chunks_S. Qed.

(** A next chunk that is accepted: one step of the verified prefix. *)
Lemma append_next o s i off p dg (w w' : World) s' rs : append o s i off p dg w = (w', s', Ok rs) ->
  i = sj_verified_chunks (sw_journal s) -> in_u 32 (i + 1) ->
  sj_object (sw_journal s') = sj_object (sw_journal s) /\ resume_from_chunk s' = i + 1.
Proof.
  intros H -> Hu. unfold append in H. destruct (append_checks _ _ _ _ _) as [len|]; [|done].
  rewrite Z.ltb_irrefl, Z.eqb_refl in H. cbn [negb] in H. destruct (append_write _ _ _ _ w) as [w1 [[]|]]; [|done].
  destruct (if sw_journaling _ then _ else _) as [w2 [[]|]]; [|done]. injection H as _ <- _. split; [done|].
  unfold resume_from_chunk. cbn. by apply wrap_small.
Qed.

Lemma receive_chunk_takes stream g att window st f c ms w0 a s es w s2 wr2 rs : arrives w0 a s es w ->
  decode_message DataChunk f = Ok c -> dc_movement_id c = tg_movement_id g -> dc_attempt c = att ->
  append (agent_store (ag_config a)) (rv_writer st) (dc_chunk_index c) (dc_chunk_offset c) (dc_payload c)
    (dc_chunk_digest c) s = (s2, wr2, Ok rs) ->
  feeds ms stream -> id_wf 16 (tg_movement_id g) -> id_wf 16 att ->
  (forall ack, id_wf 16 (da_movement_id ack) -> id_wf 16 (da_attempt ack) -> exists s',
     FrameStream_send stream MT.DATA_CHUNK_ACK (DataChunkAck_encode ack) 0 = (s', Ok tt) /\ feeds ms s') ->
  ends (receive_chunk stream g att window st f) w (fun w' x => exists stream' st' es',
    x = Ok (stream', st') /\ rv_writer st' = wr2 /\ feeds ms stream' /\ arrives w0 a s2 (es' ++ es) w' /\
    Forall no_report es').
Proof.
  intros Hb Hd Hid Hat Ea Hf Hwid Hwat Hack. unfold receive_chunk. apply ends_bind, ends_lift. rewrite Hd.
  apply ends_bind, ends_reject; intros E; [by rewrite Hid, Hat, !bytes_eqb_refl in E|]. cbv zeta.
  apply ends_bind. eapply at_peek; [exact Hb|]. clear w Hb. intros w Hb.
  apply ends_bind. unfold on_writer. eapply at_shared; [exact Hb|]. rewrite Ea. cbn [fst snd]. clear w Hb. intros w Hb.
  apply ends_bind, ends_lift. destruct (window <=? _).
  - apply ends_bind.
    match goal with |- ends (send_data _ ?ack) _ _ => destruct (Hack ack Hwid Hwat) as (s' & Es & Hf') end.
    eapply at_send_on; [exact Hb|exact Es|]. clear w Hb. intros w Hb.
    apply ends_ret. exists s'. eexists _, [_]. split_and!; [reflexivity|done|done|exact Hb|]. by constructor.
  - apply ends_ret. exists stream. eexists _, []. by split_and!.
Qed.

(** One turn of the receiving loop that is not interrupted. *)
Lemma receive_turn fuel stream g att flag window st s1 f w0 a s es w
    (Q : AWorld C S -> Result (FrameStream C * Receiving) -> Prop) :
  arrives w0 a s es w -> ag_stopping a = false -> flag_set a flag = false ->
  FrameStream_receive stream = (s1, Ok f) ->
  (forall w', arrives w0 a s es w' -> ends (match fh_type (fr_header f) with
      | MT.DATA_ABORT => eff_lift (Err (source_aborted f))
      | MT.DATA_END => eff_lift (check_end g att f) ;$ eff_ret (s1, st)
      | MT.DATA_CHUNK =>
          let$ (stream, st) := receive_chunk s1 g att window st f in
          receive_chunks fuel stream g att flag window st
      | _ => eff_lift (fail RC.PROTOCOL_STATE_VIOLATION "expected a data chunk")
      end) w' Q) ->
  ends (receive_chunks (Datatypes.S fuel) stream g att flag window st) w Q.
Proof.
  intros Hb Hstop Hflag Er H. cbn [receive_chunks]. apply ends_bind. unfold interrupted at 1.
  eapply at_peek; [exact Hb|]. clear w Hb. intros w Hb. rewrite Hstop, Hflag.
  apply ends_bind, ends_reject; intros E; [done|]. apply ends_bind. eapply at_receive; [exact Er|]. by apply H.
Qed.

(** The loop on the rest of a transfer does what appending the chunks does. *)
Lemma receive_rest g content flag window n : grant_ok g -> zlen content = d_total_bytes (tg_object g) ->
  d_chunk_bytes (tg_object g) <= kMaxWireChunkBytes ->
  forall stream st w0 a s es w s' wr',
  arrives w0 a s es w -> ag_stopping a = false -> flag_set a flag = false ->
  sj_object (sw_journal (rv_writer st)) = tg_object g -> 0 <= resume_from_chunk (rv_writer st) ->
  resume_from_chunk (rv_writer st) + Z.of_nat n <= d_chunk_count (tg_object g) ->
  feeds (rest_of_transfer g content (resume_from_chunk (rv_writer st)) n) stream ->
  send_chunks (agent_store (ag_config a)) n content (rv_writer st) s = (s', wr', Ok tt) ->
  ends (receive_chunks (Datatypes.S n) stream g (tg_attempt g) flag window st) w (fun w' x =>
    exists stream' st' es', x = Ok (stream', st') /\ rv_writer st' = wr' /\ arrives w0 a s' (es' ++ es) w' /\
      Forall no_report es').
Proof.
  intros Hg Hlen Hcb. destruct (grant_ok_begin g Hg) as (_ & _ & _ & _ & _ & Ho).
  induction n as [|n IH]; intros stream st w0 a s es w s' wr' Hb Hstop Hflag Hobj Hi0 Hn Hfeed Hsend.
  - destruct Hfeed as (f & s1 & Er & Hm & _ & _). eapply receive_turn; [exact Hb|done|done|exact Er|].
    clear w Hb. intros w Hb. injection Hm as -> Hpl. apply ends_bind, ends_lift.
    assert (check_end g (tg_attempt g) f = Ok tt) as ->.
    { unfold check_end. destruct f as [h p]. cbn [fr_payload] in Hpl. rewrite Hpl.
      change (DataEnd_encode (end_of g)) with (wm_encode (end_of g)).
      rewrite (decode_message_encode h (end_of g) (end_of_ok g Hg)). cbn [rbind end_of de_movement_id de_attempt
        de_content_digest]. by rewrite !bytes_eqb_refl. }
    apply ends_ret. cbn [send_chunks] in Hsend. injection Hsend as <- <-. exists s1, st, []. by split_and!.
  - set (i := resume_from_chunk (rv_writer st)) in *. rewrite rest_of_transfer_S in Hfeed.
    destruct Hfeed as (f & s1 & Er & Hm & Hfeed & Hack). eapply receive_turn; [exact Hb|done|done|exact Er|].
    clear w Hb. intros w Hb. injection Hm as -> Hpl. cbn [send_chunks] in Hsend. fold (resume_from_chunk (rv_writer st)) in Hsend. fold i in Hsend.
    rewrite Hobj in Hsend. destruct (append _ _ _ _ _ _ s) as [[s2 wr2] [rs|e]] eqn:Ea; [|done].
    assert (decode_message DataChunk f = Ok (chunk_of g content i)) as Hd.
    { destruct f as [h p]. cbn [fr_payload] in Hpl. rewrite Hpl. refine (decode_message_encode (ok := DataChunk_ok) h (chunk_of g content i) _).
      destruct (plan_length_pos _ i Ho ltac:(lia)). apply chunk_of_ok; try done; lia. }
    destruct (append_next _ _ _ _ _ _ _ _ _ _ Ea eq_refl) as [Hobj2 Hi2].
    { destruct (descriptor_range_count _ Ho) as (_ & _ & Hcc). unfold in_u in *. lia. }
    apply ends_bind. eapply ends_mono; [eapply receive_chunk_takes; [exact Hb|exact Hd|done|done|exact Ea|exact Hfeed|apply Hg|apply Hg|exact Hack]|].
    intros w1 x (s3 & st3 & es3 & -> & Hw3 & Hf3 & Hb3 & He3). eapply ends_mono; [eapply IH; [exact Hb3|done|done|..]|].
    + rewrite Hw3. congruence.
    + rewrite Hw3. lia.
    + rewrite Hw3. lia.
    + rewrite Hw3, Hi2. exact Hf3.
    + rewrite Hw3. exact Hsend.
    + intros w4 y (s4 & st4 & es4 & -> & Hw4 & Hb4 & He4). exists s4, st4, (es4 ++ es3).
      split_and!; try done; [by rewrite <- app_assoc|by apply Forall_app].
Qed.

Lemma place_object_quiet stream g content st w0 a s es w s3 wr3 s4 wr4 :
  arrives w0 a s es w -> Forall no_report es ->
  touches (tg_movement_id g) (version_of (tg_object g)) (w_disk (aw_store w0)) (w_disk s4) ->
  sha256 content = d_content_digest (tg_object g) -> zlen content = d_total_bytes (tg_object g) ->
  finish (rv_writer st) s = (s3, wr3, Ok (sha256 content)) ->
  promote (agent_store (ag_config a)) wr3 s3 = (s4, wr4, Ok tt) ->
  object_file (w_disk s4) (version_of (tg_object g)) = Some content ->
  ends (place_object stream g (tg_attempt g) st) w (fun w' x => placed_and_told g (tg_attempt g) content w0 w' (is_ok x)).
Proof.
  intros Hb Hes Ht Hdg Hlen Ef Epr Hob. unfold place_object. cbv zeta.
  apply ends_bind. eapply at_peek; [exact Hb|]. clear w Hb. intros w Hb.
  apply ends_bind. unfold on_writer at 1. eapply at_shared; [exact Hb|]. rewrite Ef. cbn [fst snd]. clear w Hb. intros w Hb.
  apply ends_bind, ends_lift. rewrite Hdg, bytes_eqb_refl. cbn [negb].
  apply ends_bind. unfold on_writer. eapply at_shared; [exact Hb|]. rewrite Epr. cbn [fst snd]. clear w Hb. intros w Hb.
  apply ends_bind, ends_lift. assert (aw_store w = s4) as Hs4 by apply Hb.
  assert (strays (tg_movement_id g) (version_of (tg_object g)) w0 w) as Hs.
  { destruct Hb as (Hal & _ & _ & He). split_and!; [done|by rewrite Hs4|by exists es]. }
  clear Hb. apply ends_bind, ends_try, (ends_calm no_report); [unfold send_data; by calm_tac|apply Hs|]. intros w1 x Hp1 _.
  apply ends_bind. eapply (at_update _ w1); [apply arrives_refl, Hp1|]. intros w2 (Hal2 & _ & Hs2 & He2).
  assert (w_disk (aw_store w2) = w_disk s4) as Hd2 by (rewrite Hs2, <- Hs4; apply Hp1).
  unfold report_attempt_result. apply (tell_arrival g (tg_attempt g) content w0 w2); [|by rewrite Hd2|done|done|done].
  eapply strays_trans; [exact Hs|]. eapply strays_trans; [by apply passes_strays|].
  apply disk_step; [done|by rewrite Hs2|done].
Qed.

(** A flag that is there or made, and is not set. *)
Lemma cancellation_flag_quiet id w0 a s es w (Q : AWorld C S -> Result nat -> Prop) : arrives w0 a s es w ->
  cancelled_now a id <> Some true ->
  (forall w' a' flag, arrives w0 a' s es w' -> same_authority a a' -> flag_set a' flag = false -> Q w' (Ok flag)) ->
  ends (cancellation_flag id) w Q.
Proof.
  intros Hb Hc H. unfold cancellation_flag. eapply at_shared; [exact Hb|]. unfold cancelled_now in Hc.
  destruct (ag_cancellations a !! id) as [flag|]; cbn [fst snd]; intros w' Hw.
  - apply (H w' a); [done|done|]. cbn in Hc. by destruct (flag_set a flag).
  - eapply H; [exact Hw|done|]. unfold flag_set. cbn. by rewrite lookup_insert_eq.
Qed.

(** Beginning clean and receiving everything the source has to send. *)
Lemma complete_ends g content stream w d : grant_ok g -> d_chunk_bytes (tg_object g) <= kMaxWireChunkBytes ->
  zlen content = d_total_bytes (tg_object g) -> sha256 content = d_content_digest (tg_object g) ->
  alone w -> aw_store w = mkWorld d [] -> lengths_ok d -> journal_file d (tg_movement_id g) = None ->
  ag_stopping (aw_agent w) = false -> cancelled_now (aw_agent w) (tg_movement_id g) <> Some true ->
  feeds (rest_of_transfer g content 0 (Z.to_nat (d_chunk_count (tg_object g)))) stream ->
  ends (let$ options := peek (fun a => agent_store (ag_config a)) in
        let$ writer := on_store (begin options (tg_movement_id g) (tg_movement_generation g) (tg_attempt g) (tg_object g)) in
        receive_object (Datatypes.S (Z.to_nat (d_chunk_count (tg_object g)))) stream g (tg_attempt g) writer) w
    (fun w' x => placed_and_told g (tg_attempt g) content w w' (is_ok x)).
Proof.
  intros Hg Hcb Hlen Hdg Hal Hst Hl Hj Hstop Hc Hfeed. pose proof (arrives_refl w Hal) as Hb. rewrite Hst in Hb.
  destruct (grant_ok_begin g Hg) as (G1 & G2 & G3 & G4 & G5 & G6). set (a := aw_agent w) in *.
  set (o := agent_store (ag_config a)).
  destruct (fault_free_transfer o _ _ _ _ content d Hl Hj G1 G2 G3 G4 G5 G6 Hlen)
    as (d1 & s1 & d2 & s2 & d3 & s3 & d4 & s4 & Eb & Es & Ef & Ep & Hob & _ & _ & Hj1 & Honly & Hid3 & Hobj3).
  apply ends_bind. eapply at_peek; [exact Hb|]. intros w1 Hb1.
  apply ends_bind. eapply at_store; [exact Hb1|]. intros w2 s' x Eb' Hb2. fold a o in Eb'. rewrite Eb in Eb'.
  injection Eb' as <- <-. unfold receive_object. apply ends_bind. eapply cancellation_flag_quiet; [exact Hb2|done|].
  intros w3 a' flag Hb3 Hsame Hflag. apply ends_bind. eapply at_peek; [exact Hb3|]. intros w4 Hb4.
  assert (agent_store (ag_config a') = o) as Hcfg by (unfold o; destruct Hsame as (-> & _); done).
  assert (ag_stopping a' = false) as Hstop' by (destruct Hsame as (_ & _ & _ & _ & ->); done).
  pose proof (chunk_count_spec _ G6) as (Hcc & _). apply ends_bind. eapply ends_mono.
  { eapply (receive_rest g content); [done|done|done|exact Hb4|done|done|..]; cbn [rv_writer];
      unfold resume_from_chunk; rewrite ?Hj1, ?Hcfg; [done|done|cbn; lia|exact Hfeed|exact Es]. }
  intros w5 x (s5 & st5 & es5 & -> & Hw5 & Hb5 & He5). rewrite app_nil_r in Hb5.
  eapply place_object_quiet; [exact Hb5|done| |done|done|rewrite Hw5; exact Ef|rewrite Hcfg; exact Ep|exact Hob].
  rewrite Hst. etrans; [apply only_touches; exact Honly|]. rewrite <- Hid3, <- Hobj3. exact (promote_touches _ _ _ _ _ _ Ep).
Qed.
End complete.

(** The messages of a whole transfer, as the source puts them on its stream. *)
Definition transfer_messages (g : TransferGrant) (content : bytes) : list Message :=
  map (fun m => mkMessage m.1 0 m.2) (rest_of_transfer g content 0 (Z.to_nat (d_chunk_count (tg_object g)))).

Section sent.
Context {C D : Type} `{!Connection C, !ConnectionLaws C, !Connection D, !ConnectionLaws D}.

(** A connection that takes what is sent and loses nothing that is pending. *)
Definition duplex : Prop := forall (c : D) bs, exists c', send_all c bs = (c', Ok tt) /\ incoming c' = incoming c.

Lemma ack_length ack : id_wf 16 (da_movement_id ack) -> id_wf 16 (da_attempt ack) ->
  zlen (DataChunkAck_encode ack) <= 128.
Proof.
  intros H1 H2. unfold DataChunkAck_encode.
  rewrite !zlen_app, zlen_enc_text, !zlen_enc_u32, (zlen_FixedId 16 (da_movement_id ack)),
    (zlen_FixedId 16 (da_attempt ack)) by done. vm_compute. congruence.
Qed.

(** What is sent on one end feeds the other. *)
Lemma feeds_sent ms : forall (s s' : FrameStream C) (r : FrameStream D) wire,
  in_step s r -> key_set (fs_codec s) = true -> 128 <= fs_max_payload_bytes r -> Forall sendable ms ->
  fc_send_sequence (fs_codec s) + zlen ms < 2 ^ 64 -> send_messages s ms = (s', Ok tt) ->
  outgoing (fs_connection s') = outgoing (fs_connection s) ++ wire -> incoming (fs_connection r) = wire ->
  responsive D -> duplex -> feeds (map (fun m => (msg_type m, msg_payload m)) ms) r.
Proof.
  induction ms as [|m ms IH]; intros s s' r wire Hst Hk Hmax Hs Hb Hsend Ho Hi HR Hdup; [done|].
  cbn [send_messages map feeds] in *. apply list.Forall_cons in Hs as [Hm Hms].
  assert (zlen (m :: ms) = 1 + zlen ms) as Hz by (unfold zlen; cbn [length]; lia). pose proof (zlen_nonneg ms).
  destruct (FrameStream_send s _ _ _) as [s1 [[]|e]] eqn:E; [|done].
  destruct (send_step s s1 r m E Hst Hm) as (h & Ho1 & Hok & Had & Hc & Hks & Hsq & Hnext); [lia|].
  destruct (send_messages_outgoing _ _ _ Hsend) as [w Hw].
  rewrite Hw, Ho1, <- app_assoc in Ho. apply app_inv_head in Ho as <-. rewrite <- app_assoc in Hi.
  destruct (receive_frame r h _ _ Hok Had Hi) as [(r1 & e & Er)|(c1 & Er & Hi1)].
  { by destruct (receive_frame_responsive r h _ _ HR Hok Had Hi) as (r2 & f & Er2); rewrite Er in Er2. }
  assert (forall c' codec, incoming c' = w -> fc_key codec = fc_key (fs_codec r) ->
    fc_expected_sequence codec = fc_expected_sequence (bump_expected (fs_codec r)) ->
    feeds (map (fun m => (msg_type m, msg_payload m)) ms) (mkFrameStream c' codec (fs_max_payload_bytes r))) as Hrest.
  { intros c' codec Hin Hkey Hseq. eapply IH; [| | |done| |exact Hsend|exact Hw|done|done|done].
    - destruct (Hnext c') as (N1 & N2 & N3 & N4 & N5). split_and!; try done; cbn in *; congruence.
    - by rewrite Hks.
    - done.
    - lia. }
  exists (mkFrame h (msg_payload m)). eexists. split_and!; [exact Er| | |].
  - injection Hc as Hty _. unfold message_of. cbn [fr_header fr_payload]. by rewrite Hty.
  - by apply Hrest.
  - intros ack Hid Hat. unfold FrameStream_send. cbn [fs_codec fs_connection fs_max_payload_bytes].
    unfold FrameCodec_encode. rewrite (proj2 (Z.ltb_ge _ _)) by (etrans; [by apply ack_length|done]).
    assert (key_set (bump_expected (fs_codec r)) = true) as ->.
    { destruct Hst as (_ & _ & Hkk & _). unfold key_set in *. cbn. by rewrite Hkk. }
    cbn [is_handshake_message negb andb]. edestruct (Hdup c1) as (c2 & Es & Hi2). rewrite Es.
    eexists. split; [reflexivity|]. apply Hrest; [congruence|done|done].
Qed.
End sent.

Lemma feeds_messages g content :
  rest_of_transfer g content 0 (Z.to_nat (d_chunk_count (tg_object g))) =
  map (fun m => (msg_type m, msg_payload m)) (transfer_messages g content).
Proof.
  unfold transfer_messages. rewrite map_map. symmetry. rewrite <- map_id. apply map_ext. by intros [].
Qed.

Lemma transfer_sendable g content : Forall sendable (transfer_messages g content).
Proof.
  unfold transfer_messages, rest_of_transfer. rewrite map_app, map_map. apply Forall_app. split.
  - induction (first_chunks _ _ _ _) as [|p ps IH]; constructor; [by split_and!|exact IH].
  - constructor; [by split_and!|constructor].
Qed.

Lemma zlen_transfer g content : 0 <= d_chunk_count (tg_object g) ->
  zlen (transfer_messages g content) = d_chunk_count (tg_object g) + 1.
Proof.
  intros H. unfold transfer_messages, rest_of_transfer, first_chunks, zlen.
  rewrite length_map, length_app, !length_map, length_seq. cbn [length]. lia.
Qed.

(** ** Resumption *)

Section resumption.
Context {C S : Type} `{!Connection C, !EntropySource S}.
Implicit Types w : AWorld C S.

Lemma request_refused stream s1 s2 g att writer (reply : Frame) ack w : alone w ->
  let request := data_begin g att (ec_endpoint_id (ag_config (aw_agent w))) writer in
  FrameStream_send stream MT.DATA_BEGIN (DataBegin_encode request) 0 = (s1, Ok tt) ->
  FrameStream_receive s1 = (s2, Ok reply) -> decode_message DataBeginAck reply = Ok ack -> dk_code ack = RC.OK ->
  dk_resume_from_chunk ack <> resume_from_chunk writer ->
  ends (request_object stream g att writer) w (fun w' x =>
    x = fail RC.RESUME_INCOMPATIBLE "the source refused the resume point declared by the destination" /\
    w_disk (aw_store w') = w_disk (aw_store w) /\
    ag_cancellations (aw_agent w') = delete (tg_movement_id g) (ag_cancellations (aw_agent w))).
Proof.
  intros Hal request Hs Hr Hd Hc Hne. unfold request_object.
  pose proof (arrives_refl w Hal) as Hb.
  apply ends_bind. eapply at_peek; [exact Hb|]. intros w1 Hb1.
  apply ends_bind. eapply at_send_on; [exact Hb1|exact Hs|]. intros w2 Hb2.
  apply ends_bind. eapply at_receive; [exact Hr|]. apply ends_bind, ends_lift. rewrite Hd.
  apply ends_bind, ends_lift. rewrite bool_decide_true by done.
  rewrite (proj2 (Z.eqb_neq _ _) Hne). cbn [negb].
  apply ends_bind. eapply at_update; [exact Hb2|]. intros w3 (_ & Ha & Hst & _). apply ends_lift.
  split; [done|]. by rewrite Ha, Hst.
Qed.
End resumption.

(** ** Properties *)



(** C27: (liveness) A whole object that is sent is placed.  If the source's stream took
    the messages of the transfer of [content] and the destination's stream is in
    step with it, then a destination without faults, not stopping and not
    cancelled, that begins clean and receives, places exactly [content] under the
    grant's version, touches nothing else, and reports the arrival last; it
    succeeds if the report is sent. *)
Theorem sent_object_is_placed {C D S : Type} `{!Connection C, !ConnectionLaws C, !Connection D, !ConnectionLaws D,
    !EntropySource S} (g : TransferGrant) (content : bytes) (s s' : FrameStream C) (r : FrameStream D)
    (w w' : AWorld D S) (d : Disk) (x : Result unit) :
  grant_ok g -> d_chunk_bytes (tg_object g) <= kMaxWireChunkBytes ->
  zlen content = d_total_bytes (tg_object g) -> sha256 content = d_content_digest (tg_object g) ->
  in_step s r -> key_set (fs_codec s) = true -> 128 <= fs_max_payload_bytes r ->
  fc_send_sequence (fs_codec s) + d_chunk_count (tg_object g) + 1 < 2 ^ 64 ->
  send_messages s (transfer_messages g content) = (s', Ok tt) ->
  outgoing (fs_connection s') = outgoing (fs_connection s) ++ incoming (fs_connection r) ->
  responsive D -> duplex (D := D) ->
  alone w -> aw_store w = mkWorld d [] -> lengths_ok d -> journal_file d (tg_movement_id g) = None ->
  ag_stopping (aw_agent w) = false -> cancelled_now (aw_agent w) (tg_movement_id g) <> Some true ->
  (let$ options := peek (fun a => agent_store (ag_config a)) in
   let$ writer := on_store (begin options (tg_movement_id g) (tg_movement_generation g) (tg_attempt g) (tg_object g)) in
   receive_object (Datatypes.S (Z.to_nat (d_chunk_count (tg_object g)))) r g (tg_attempt g) writer) w = (w', x) ->
  placed_and_told g (tg_attempt g) content w w' (is_ok x).
Proof.
  intros Hg Hcb Hlen Hdg Hst Hk Hmax Hseq Hsend Ho HR Hdup Hal Hw Hl Hj Hstop Hc H.
  refine (ends_elim _ _ _ _ _ (complete_ends g content r w d Hg Hcb Hlen Hdg Hal Hw Hl Hj Hstop Hc _) H).
  rewrite (feeds_messages g content). pose proof (chunk_count_spec _ (proj1 (proj2 (proj2 (proj2 Hg))))) as (Hcc & _).
  eapply (feeds_sent (C := C)); [exact Hst|done|done|apply transfer_sendable| |exact Hsend|exact Ho|done|done|done].
  rewrite zlen_transfer by lia. lia.
Qed.

(** (error) A transfer can never be resumed.  A destination whose staging writer
    has verified chunks declares its resume point; the request's encoding does not
    carry it, so a source that agrees to the request it decodes agrees to start at
    chunk 0, and the destination gives up with RESUME_INCOMPATIBLE.  The disk, and
    with it the journal that every later attempt will resume from, is as it was. *)
Theorem resumed_transfer_is_refused {C S : Type} `{!Connection C, !EntropySource S}
    (stream s1 s2 : FrameStream C) (g : TransferGrant) (att : bytes) (writer : StagingWriter)
    (request reply : Frame) (b : DataBegin) (ack : DataBeginAck) (w : AWorld C S) :
  alone w -> 0 < resume_from_chunk writer ->
  let begin := data_begin g att (ec_endpoint_id (ag_config (aw_agent w))) writer in
  fr_payload request = DataBegin_encode begin -> decode_message DataBegin request = Ok b ->
  FrameStream_send stream MT.DATA_BEGIN (DataBegin_encode begin) 0 = (s1, Ok tt) ->
  FrameStream_receive s1 = (s2, Ok reply) -> decode_message DataBeginAck reply = Ok ack ->
  dk_code ack = RC.OK -> dk_resume_from_chunk ack = (resume_point (tg_object g) b).1 ->
  db_resume_from_chunk begin = resume_from_chunk writer /\
  exists y, request_object stream g att writer w = (y, fail RC.RESUME_INCOMPATIBLE
    "the source refused the resume point declared by the destination") /\
    w_disk (aw_store y) = w_disk (aw_store w).
Proof.
  intros Hal Hpos begin Hpl Hd Hs Hr Hack Hc Hres. split; [done|].
  rewrite (resume_point_decoded _ _ _ Hd) in Hres. cbn in Hres.
  pose proof (request_refused stream s1 s2 g att writer reply ack w Hal Hs Hr Hack Hc ltac:(lia)) as H.
  unfold ends in H. destruct (request_object stream g att writer w) as [y z]. destruct H as (-> & H & _). by exists y.
Qed.

(** *** Witnesses *)

Lemma pipe_duplex : duplex (D := Pipe).
Proof. intros c bs. eexists. by split. Qed.

(** A grant for a three-byte object from [src] to [dst]. *)
Definition small_grant : TransferGrant :=
  mkGrant demo_movement 9 (replicate 16 x01) small_object (lit "src")
    (mkIncarnation (lit "src") (replicate 16 x06) 2) (lit "dst") (mkIncarnation (lit "dst") (replicate 16 x07) 3)
    1 (replicate 32 x09) 3 1 1767225600000 EC.REPEATABLE (replicate 32 x05).

Lemma small_grant_ok : grant_ok small_grant.
Proof. unfold grant_ok. split_and!; first [apply small_object_ok|vm_compute; repeat split; congruence]. Qed.

Definition small_sender : FrameStream Pipe := mkFrameStream (mkPipe [] []) keyed_codec (2 ^ 16).
Definition small_sent : FrameStream Pipe :=
  Eval vm_compute in (send_messages small_sender (transfer_messages small_grant small_content)).1.
Definition small_receiver : FrameStream Pipe :=
  mkFrameStream (mkPipe [pipe_sent (fs_connection small_sent)] []) keyed_codec (2 ^ 16).

Lemma sent_object_is_placed_witness : exists w' x,
  (let$ options := peek (fun a => agent_store (ag_config a)) in
   let$ writer := on_store (begin options demo_movement 9 (replicate 16 x01) small_object) in
   receive_object 2 small_receiver small_grant (replicate 16 x01) writer) (demo_aworld demo_agent empty_disk) = (w', x) /\
  object_file (w_disk (aw_store w')) (version_of small_object) = Some small_content.
Proof.
  destruct ((let$ options := peek (fun a => agent_store (ag_config a)) in
   let$ writer := on_store (begin options demo_movement 9 (replicate 16 x01) small_object) in
   receive_object 2 small_receiver small_grant (replicate 16 x01) writer) (demo_aworld demo_agent empty_disk))
    as [w' x] eqn:E. exists w', x. split; [reflexivity|].
  destruct (sent_object_is_placed small_grant small_content small_sender small_sent small_receiver
    (demo_aworld demo_agent empty_disk) w' empty_disk x) as (_ & _ & H & _).
  - exact small_grant_ok.
  - vm_compute. congruence.
  - reflexivity.
  - vm_compute. reflexivity.
  - repeat split; vm_compute; congruence.
  - reflexivity.
  - vm_compute. congruence.
  - vm_compute. reflexivity.
  - vm_compute. reflexivity.
  - vm_compute. reflexivity.
  - exact pipe_responsive.
  - exact pipe_duplex.
  - intros n a d. reflexivity.
  - reflexivity.
  - exact empty_lengths_ok.
  - reflexivity.
  - reflexivity.
  - vm_compute. congruence.
  - exact E.
  - exact H.
Defined.


(** The source [src] holds the object and a grant for it; [dst] connects, asks for
    the object and confirms it. *)
Definition signed_grant : TransferGrant :=
  Eval vm_compute in with_signature small_grant (compute_signature demo_secret small_grant).
Definition demo_source : Agent Pipe :=
  set_grants (fresh_agent (mkAgentConfig (lit "src") (lit "/srv/smf") demo_secret (lit "smf.endpoint.std")
                             default_policy 8 4 true true)
                (mkIncarnation (lit "src") (replicate 16 x06) 2) (mkAddress (lit "10.0.0.1") 7001))
    {[ replicate 32 x09 := mkGrantEntry signed_grant false 1 ]}.
Definition demo_serving : AWorld Pipe DeterministicEntropy := demo_aworld demo_source demo_placed.

Definition demo_hello : HelloRequest :=
  Eval vm_compute in
  match (make_hello_request demo_secret (agent_identity demo_agent) demo_ss).2 with
  | Ok q => q | Err _ => mkHelloRequest [] (agent_identity demo_agent) [] end.
Definition demo_session_key : Digest :=
  Eval vm_compute in
  derive_session_key demo_secret (hq_client_nonce demo_hello) (new_nonce (new_session_id demo_cs).2).1.
Definition demo_peer_stream (key : option Digest) (sequence : Z) : FrameStream Pipe :=
  mkFrameStream (mkPipe [] []) (mkFrameCodec key sequence 1) (2 ^ 16).
Definition frame_bytes (stream : FrameStream Pipe) (type : MessageType) (payload : bytes) : bytes :=
  pipe_sent (fs_connection (FrameStream_send stream type payload 0).1).
Definition demo_inbound : Pipe :=
  Eval vm_compute in
  mkPipe [frame_bytes (demo_peer_stream None 1) MT.HELLO (HelloRequest_encode demo_hello);
          frame_bytes (demo_peer_stream (Some demo_session_key) 2) MT.DATA_BEGIN
            (DataBegin_encode (mkDataBegin (replicate 32 x09) demo_movement 9 (replicate 16 x01) small_object (lit "dst")
               (mkIncarnation (lit "dst") (replicate 16 x07) 3) 0 0));
          frame_bytes (demo_peer_stream (Some demo_session_key) 3) MT.DATA_RESULT
            (DataResult_encode (mkDataResult demo_movement (replicate 16 x01) RC.OK (sha256 small_content) 3 1
               zero_digest (lit "stored and verified locally")))] [].

Lemma demo_source_grants : map_Forall (fun _ e => grant_ok (ge_grant e)) (ag_grants (aw_agent demo_serving)).
Proof.
  apply map_Forall_singleton. cbn [ge_grant]. unfold grant_ok.
  split_and!; first [apply small_object_ok|vm_compute; repeat split; congruence].
Qed.


(** A destination that holds the first of three chunks. *)
Definition resuming_writer : StagingWriter :=
  mkWriter (mkJournal demo_movement 4 (replicate 16 x01) demo_descriptor 1 1024 [replicate 32 x33]) Sha256_reset
    true true false false.
Definition resuming_begin : DataBegin := data_begin demo_grant (replicate 16 x01) (lit "dst") resuming_writer.
Definition agreed : DataBeginAck := mkDataBeginAck (replicate 32 x09) RC.OK 0 0 [].
Definition resuming_stream : FrameStream Pipe :=
  Eval vm_compute in
  mkFrameStream (mkPipe [frame_bytes (demo_peer_stream (Some demo_key) 1) MT.DATA_BEGIN_ACK (DataBeginAck_encode agreed)] [])
    keyed_codec (2 ^ 16).

Definition resuming_asked : FrameStream Pipe :=
  Eval vm_compute in (FrameStream_send resuming_stream MT.DATA_BEGIN (DataBegin_encode resuming_begin) 0).1.
Definition resuming_answer : FrameStream Pipe * Frame :=
  Eval vm_compute in let '(s, f) := FrameStream_receive resuming_asked in (s, from_result (mkFrame demo_header []) f).

Lemma resumed_transfer_is_refused_witness : exists y,
  request_object resuming_stream demo_grant (replicate 16 x01) resuming_writer (demo_aworld demo_agent empty_disk) =
    (y, fail RC.RESUME_INCOMPATIBLE "the source refused the resume point declared by the destination").
Proof.
  destruct (resumed_transfer_is_refused resuming_stream resuming_asked resuming_answer.1 demo_grant (replicate 16 x01)
    resuming_writer (mkFrame demo_header (DataBegin_encode resuming_begin)) resuming_answer.2
    (mkDataBegin (replicate 32 x09) demo_movement 4 (replicate 16 x01) demo_descriptor (lit "dst")
       (mkIncarnation (lit "dst") (replicate 16 x07) 3) 0 0) agreed (demo_aworld demo_agent empty_disk))
    as (_ & y & H & _).
  - intros n a d. reflexivity.
  - reflexivity.
  - reflexivity.
  - vm_compute. reflexivity.
  - vm_compute. reflexivity.
  - vm_compute. reflexivity.
  - vm_compute. reflexivity.
  - reflexivity.
  - reflexivity.
  - exists y. exact H.
Defined.
