(* ===== verification/Publication.v ===== *)
(** * Endpoint agent: publication (src/src/endpoint_agent.cpp)

    [publish_file] and [publish_bytes], which make a version of an object known on
    the endpoint that produced it, and [finalize_publication], the part they
    share.  They run in Agent.v's [AWorld].

    The temporary file [data.import] in the object's directory is read by nobody
    but the publication that writes it, so its contents are a value here and not a
    part of the disk.  The published file lies outside the store: its contents are
    arguments, once as [handle.open] finds them and once as [copy_file] does. *)
From S2P Require Import Prelude Status Bytes Digest Codec Ids StateObject Policy.
From S2P Require Import CommitMarker ObjectStore Wire Effect Links Framing Topology Agent.

Section publication.
Context {C S : Type} `{!Connection C, !EntropySource S}.
Implicit Types a : Agent C.
#[local] Abbreviation Ag := (Eff (AWorld C S)).

Definition kLocalOrigin : bytes := lit "local-origin".

(** The fixed segmentation, clamped into the policy's bounds. *)
Definition publication_chunk_bytes (policy : MovementPolicy) : Z :=
  Z.min (po_max_chunk_bytes policy) (Z.max (po_min_chunk_bytes policy) (2 ^ 20)).

(** The descriptor both publications announce.  [create] divides by the chunk
    size, which no validated policy makes zero. *)
Definition describe_publication (kind : StateKind) (name : bytes) (generation : Z) (content : Digest) (size : Z)
    (producer : bytes) (repeatable : bool) : Ag StateObjectDescriptor :=
  let$ policy := peek (fun a => ec_policy (ag_config a)) in
  let$ now := agent_now in
  let$ d := eff_lift (match StateObjectDescriptor_create kind name generation content size
                              (publication_chunk_bytes policy) now producer with
                      | Some r => r
                      | None => fail RC.INTERNAL_ERROR "division by zero"
                      end) in
  eff_ret (mkDescriptor (d_object_id d) (d_kind d) (d_name d) (d_generation d) (d_content_digest d)
             (d_total_bytes d) (d_chunk_bytes d) (d_chunk_count d) (d_created_unix_millis d) (d_producer d) repeatable).

(** [create_directories] of the object's directory. *)
Definition create_object_directory (v : Version) : IO unit :=
  file_op (fun d => set_object v (object_file d v) d) (io_error "could not create the object directory").

(** [sync_existing_file] *)
Definition sync_existing_file : IO unit :=
  file_op (fun d => d) (io_error "could not open the file to sync it") ;*
  file_op (fun d => d) (io_error "fsync failed").

(** [remove(target)], whose failure is overwritten by what [rename] reports, and
    [rename(staged, target)]. *)
Definition place_published (v : Version) (staged : bytes) : IO unit :=
  (fun w => ((file_op (fun d => match object_file d v with Some _ => set_object v None d | None => d end)
                (io_error "") w).1, Ok tt)) ;*
  file_op (set_object v (Some staged)) (io_error "could not place the object bytes").

(** The marker of a local publication. *)
Definition publication_marker a (value : StateObjectDescriptor) (origin movement_id : bytes) (now : Z) : CommitMarker :=
  seal (mkMarker movement_id 1 value origin (ec_endpoint_id (ag_config a)) (own_incarnation a)
          (d_content_digest value) (d_total_bytes value) (d_chunk_count value) now zero_digest).

Definition finalize_publication (value : StateObjectDescriptor) (staged : bytes) : Ag unit :=
  on_store sync_existing_file ;$
  on_store (place_published (version_of value) staged) ;$
  let$ origin := eff_lift (EndpointId_parse kLocalOrigin) in
  let$ movement_id := draw new_movement_id in
  let$ now := agent_now in
  let$ marker := peek (fun a => publication_marker a value origin movement_id now) in
  let$ options := peek (fun a => agent_store (ag_config a)) in
  on_store (write_commit_marker options marker) ;$
  tally AC.objects_published 1.

(** The end of both publications: the directory, the temporary file [data.import]
    written by [import], and what it then contains. *)
Definition import_publication (value : StateObjectDescriptor) (import : IO unit) (staged : Result bytes) : Ag unit :=
  on_store (create_object_directory (version_of value)) ;$
  on_store import ;$
  let$ staged := eff_lift staged in
  finalize_publication value staged.

(** The value returned is what [descriptor_out] receives. *)
Definition publish_bytes (kind : StateKind) (name : bytes) (generation : Z) (contents producer : bytes)
    (repeatable : bool) : Ag StateObjectDescriptor :=
  let$ policy := peek (fun a => ec_policy (ag_config a)) in
  eff_reject (po_max_object_bytes policy <? zlen contents) RC.POLICY_VIOLATION
    "the payload exceeds the configured object bound" ;$
  let$ value := describe_publication kind name generation (sha256 contents) (zlen contents) producer repeatable in
  let$ options := peek (fun a => agent_store (ag_config a)) in
  import_publication value
    (atomic_replace (slash (object_directory options (version_of value)) (lit "data.import")) (fun d => d) true)
    (Ok contents) ;$
  eff_ret value.

(** The reading loop of [publish_file]: [size] is the buffer's.  A full buffer
    advances by at least one byte, so the file's length and one more turns
    suffice. *)
Fixpoint hash_file (fuel : nat) (file : bytes) (size offset : nat) (hasher : Sha256) : IO Digest :=
  match fuel with
  | O => io_ret (Sha256_finalize hasher)
  | Datatypes.S fuel =>
      let* block := read_file file offset size in
      if zlen block =? 0 then io_ret (Sha256_finalize hasher)
      else
        let hasher := Sha256_update hasher block in
        if zlen block <? Z.of_nat size then io_ret (Sha256_finalize hasher)
        else hash_file fuel file size (offset + length block) hasher
  end.

Definition publish_file (kind : StateKind) (name : bytes) (generation : Z) (path : bytes)
    (opened copied : option bytes) (producer : bytes) (repeatable : bool) : Ag unit :=
  let$ file := on_store (open_read path opened) in
  let$ size := on_store (size_of file) in
  let$ policy := peek (fun a => ec_policy (ag_config a)) in
  eff_reject (po_max_object_bytes policy <? size) RC.POLICY_VIOLATION "the file exceeds the configured object bound" ;$
  let$ content := on_store (hash_file (length file + 1) file (Z.to_nat (Z.min (2 ^ 20) (Z.max size 1))) 0 Sha256_reset) in
  let$ value := describe_publication kind name generation content size producer repeatable in
  import_publication value (file_op (fun d => d) (io_error "could not copy the object into the store"))
    (match copied with
     | Some staged => Ok staged
     | None => Err (io_error "could not copy the object into the store")
     end).
End publication.

(** ** What a publication leaves on disk *)

(** The disk changed at most in the data and the commit marker of [v]. *)
Definition publishes (v : Version) (d d' : Disk) : Prop :=
  dk_staging d' = dk_staging d /\ dk_quarantine d' = dk_quarantine d /\
  forall u, u <> v -> dk_objects d' !! u = dk_objects d !! u /\ dk_commits d' !! u = dk_commits d !! u.
#[global] Instance publishes_preorder v : PreOrder (publishes v).
Proof.
  split; [by intros d|]. intros a b c (H1 & H2 & H3) (K1 & K2 & K3). split_and!; try congruence.
  intros u Hu. destruct (H3 u Hu), (K3 u Hu). split; congruence.
Qed.

Lemma publishes_object v x d : publishes v d (set_object v x d).
Proof. split_and!; try done. intros u Hu. cbn. by rewrite lookup_insert_ne. Qed.

Lemma publishes_commit v x d : publishes v d (set_commit v x d).
Proof. split_and!; try done. intros u Hu. cbn. by rewrite lookup_insert_ne. Qed.

(** The marker is the one on disk, or one with its digest was there already. *)
Definition recorded (m : CommitMarker) (d d' : Disk) : Prop :=
  let v := version_of (cm_object m) in
  dk_commits d' = <[v := marker_contents m]> (dk_commits d) \/
  (dk_commits d' = dk_commits d /\ exists f m0, dk_commits d !! v = Some f /\ decode_existing f = Some m0 /\
     cm_marker_digest m0 = cm_marker_digest m).

(** A version with its bytes and a sealed marker that describes it. *)
Definition published (value : StateObjectDescriptor) (staged : bytes) (d d' : Disk) : Prop :=
  object_file d' (version_of value) = Some staged /\
  exists m, cm_object m = value /\ cm_content_digest m = d_content_digest value /\
    cm_stored_bytes m = d_total_bytes value /\ sealed m /\ valid_marker m /\ recorded m d d'.

Lemma place_published_spec v staged w w' r : place_published v staged w = (w', r) ->
  publishes v (w_disk w) (w_disk w') /\ dk_commits (w_disk w') = dk_commits (w_disk w) /\
  (r = Ok tt -> object_file (w_disk w') v = Some staged).
Proof.
  unfold place_published, io_bind. set (f := fun d : Disk => match object_file d v with _ => _ end).
  assert (forall d, publishes v d (f d) /\ dk_commits (f d) = dk_commits d) as Hf.
  { intros d. unfold f. destruct (object_file d v); [split; [apply publishes_object|done]|by split]. }
  assert (publishes v (w_disk w) (w_disk (file_op f (io_error "") w).1) /\
          dk_commits (w_disk (file_op f (io_error "") w).1) = dk_commits (w_disk w)) as [H1 H2].
  { destruct (file_op_cases f (io_error "") w) as [(w1 & -> & Hd)|(w1 & -> & Hd)]; cbn [fst]; rewrite Hd; [apply Hf|done]. }
  revert H1 H2. generalize (file_op f (io_error "") w).1. intros w1 H1 H2.
  destruct (file_op_cases (set_object v (Some staged)) (io_error "could not place the object bytes") w1)
    as [(w2 & -> & Hd)|(w2 & -> & Hd)]; intros [= <- <-]; rewrite Hd; split_and!; try done.
  - etrans; [exact H1|]. apply publishes_object.
  - intros _. unfold object_file. cbn. by rewrite lookup_insert_eq.
Qed.

Lemma write_commit_marker_publishes o m w w' r : write_commit_marker o m w = (w', r) ->
  publishes (version_of (cm_object m)) (w_disk w) (w_disk w') /\
  dk_objects (w_disk w') = dk_objects (w_disk w).
Proof.
  intros H. apply write_commit_marker_cases in H as [[->|[_ ->]] _]; [done|]. split; [apply publishes_commit|done].
Qed.

Lemma hash_file_prefix fuel file size : forall off h w w' dg, hashed (take off file) h ->
  hash_file fuel file size off h w = (w', Ok dg) -> w_disk w' = w_disk w /\ exists k, dg = sha256 (take k file).
Proof.
  induction fuel as [|fuel IH]; intros off h w w' dg Hh H; cbn [hash_file] in H.
  { injection H as <- <-. split; [done|]. exists off. by apply finalize_prefix. }
  apply io_bind_Ok in H as (buf & w1 & Hr & H). apply read_extends in Hr as [Hd Hp].
  assert (hashed (take (off + length buf) file) (Sha256_update h buf)) as Hh1 by (rewrite <- Hp; by apply hashed_update).
  destruct (zlen buf =? 0); [|destruct (zlen buf <? _)].
  - injection H as <- <-. split; [done|]. exists off. by apply finalize_prefix.
  - injection H as <- <-. split; [done|]. exists (off + length buf)%nat. by apply finalize_prefix.
  - destruct (IH _ _ _ _ _ Hh1 H) as [Hd2 Hk]. by rewrite Hd2.
Qed.

Lemma hash_file_disk fuel file size : forall off h, keeps eq (hash_file fuel file size off h).
Proof. induction fuel as [|fuel IH]; intros off h; cbn [hash_file]; keeps_tac; apply IH. Qed.

Section outcome.
Context {C S : Type} `{!Connection C, !EntropySource S}.
Implicit Types w : AWorld C S.

(** On its own from [w] to [w'], the disk changed at most in version [v]. *)
Definition alters (v : Version) w w' : Prop :=
  alone w' /\ publishes v (w_disk (aw_store w)) (w_disk (aw_store w')).

Lemma alters_trans v w1 w2 w3 : alters v w1 w2 -> alters v w2 w3 -> alters v w1 w3.
Proof. intros [_ H1] [Hal H2]. split; [done|by etrans]. Qed.

Lemma store_step {A} (m : IO A) w (Q : AWorld C S -> Result A -> Prop) : alone w ->
  (forall w' x, m (aw_store w) = (aw_store w', x) -> alone w' -> aw_agent w' = aw_agent w -> Q w' x) ->
  ends (on_store m) w Q.
Proof.
  intros Hal H. eapply (at_store _ w); [by apply arrives_refl|]. intros w' s' x E (Hal' & Ha & <- & _). by apply H.
Qed.

(** A computation that leaves agent and disk alone. *)
Definition inert {A} (m : Eff (AWorld C S) A) : Prop :=
  forall w, alone w -> alone (m w).1 /\ aw_store (m w).1 = aw_store w /\ aw_agent (m w).1 = aw_agent w.

Lemma ends_inert {A} (m : Eff (AWorld C S) A) w (Q : AWorld C S -> Result A -> Prop) : inert m -> alone w ->
  (forall w' x, m w = (w', x) -> alone w' -> aw_store w' = aw_store w -> aw_agent w' = aw_agent w -> Q w' x) -> ends m w Q.
Proof.
  intros Hm Hal H. apply ends_intro. intros w' x E. destruct (Hm w Hal) as (H1 & H2 & H3). rewrite E in H1, H2, H3.
  by apply H.
Qed.

Lemma inert_peek {A} (f : Agent C -> A) : inert (peek f).
Proof.
  intros w Hal. unfold peek, shared. rewrite Hal. cbn. split_and!; [done| |done]. by destruct (aw_store w).
Qed.
Lemma inert_now : inert agent_now.
Proof. by intros w Hal. Qed.
Lemma inert_draw {A} (f : S -> A * S) : inert (draw f).
Proof. intros w Hal. unfold draw. by destruct (f (aw_entropy w)). Qed.
Lemma inert_lift {A} (r : Result A) : inert (eff_lift r).
Proof. by intros w Hal. Qed.
Lemma inert_bind {A B} (m : Eff (AWorld C S) A) (k : A -> Eff (AWorld C S) B) :
  inert m -> (forall x, inert (k x)) -> inert (eff_bind m k).
Proof.
  intros Hm Hk w Hal. specialize (Hm w Hal) as (H1 & H2 & H3). unfold eff_bind. destruct (m w) as [w1 [x|e]]; [|done].
  destruct (Hk x w1 H1) as (K1 & K2 & K3). cbn in *. by split_and!; [|congruence|congruence].
Qed.

Lemma inert_describe kind name generation content size producer repeatable :
  inert (describe_publication kind name generation content size producer repeatable).
Proof.
  unfold describe_publication. apply inert_bind; [apply inert_peek|]. intros policy.
  apply inert_bind; [apply inert_now|]. intros now. apply inert_bind; [apply inert_lift|]. intros d. by intros w Hal.
Qed.

(** What the caller asked for is in the descriptor. *)
Lemma describe_Ok kind name generation content size producer repeatable w w' value :
  describe_publication kind name generation content size producer repeatable w = (w', Ok value) ->
  d_content_digest value = content /\ d_total_bytes value = size /\ d_generation value = generation /\
  d_kind value = kind /\ d_name value = name /\ d_repeatable value = repeatable /\
  derive_state_object_id kind name = Ok (d_object_id value).
Proof.
  intros H. unfold describe_publication, eff_bind in H. destruct (peek _ w) as [w1 [policy|]]; [|done].
  destruct (agent_now w1) as [w2 [now|]]; [|done]. unfold eff_lift in H.
  destruct (StateObjectDescriptor_create _ _ _ _ _ _ _ _) as [[d|e]|] eqn:Ec; [|done|done].
  injection H as _ <-. cbn. unfold StateObjectDescriptor_create in Ec.
  destruct (derive_state_object_id kind name) as [id|]; [|done]. destruct (_ && _); [done|].
  destruct (StateObjectDescriptor_validate _) as [[]|]; [|done]. injection Ec as <-. by split_and!.
Qed.

Lemma finalize_ends value staged w : alone w ->
  ends (finalize_publication value staged) w (fun w' x => alters (version_of value) w w' /\
    (x = Ok tt -> published value staged (w_disk (aw_store w)) (w_disk (aw_store w')))).
Proof.
  intros Hal. set (v := version_of value). unfold finalize_publication.
  apply ends_bind, store_step; [done|]. intros w1 x E1 Hal1 Ha1.
  assert (w_disk (aw_store w1) = w_disk (aw_store w)) as Hd1.
  { assert (keeps eq sync_existing_file) as Hk by (unfold sync_existing_file; keeps_tac; done). symmetry. by eapply Hk. }
  assert (alters v w w1) as H1 by (split; [done|by rewrite Hd1]). destruct x as [[]|e]; [|done].
  apply ends_bind, store_step; [done|]. intros w2 x E2 Hal2 Ha2.
  apply place_published_spec in E2 as (Hp2 & Hc2 & Ho2). fold v in Hp2, Ho2.
  assert (alters v w w2) as H2 by (split; [done|by rewrite <- Hd1]). destruct x as [[]|e]; [|done]. specialize (Ho2 eq_refl).
  apply ends_bind, ends_lift. destruct (EndpointId_parse kLocalOrigin) as [origin|e]; [|done].
  apply ends_bind, ends_inert; [apply inert_draw|done|]. intros w3 x _ Hal3 Hs3 _. rewrite <- Hs3 in Hc2, Ho2.
  assert (alters v w w3) as H3 by (split; [done|rewrite Hs3; apply H2]). clear H1 H2 Hp2. destruct x as [id|e]; [|done].
  apply ends_bind, ends_inert; [apply inert_now|done|]. intros w4 x _ Hal4 Hs4 _. rewrite <- Hs4 in Hc2, Ho2.
  assert (alters v w w4) as H4 by (split; [done|rewrite Hs4; apply H3]). destruct x as [now|e]; [|done].
  apply ends_bind. eapply (at_peek _ w4); [by apply arrives_refl|]. intros w5 (Hal5 & Ha5 & Hs5 & _).
  apply ends_bind. eapply (at_peek _ w5); [by apply arrives_refl|]. intros w6 (Hal6 & _ & Hs6 & _).
  rewrite <- Hs5, <- Hs6 in Hc2, Ho2. set (m := publication_marker _ _ _ _ _).
  apply ends_bind, store_step; [done|]. intros w7 x E7 Hal7 _.
  assert (alters v w w7) as H7.
  { split; [done|]. etrans; [apply H4|]. rewrite <- Hs5, <- Hs6. by eapply (write_commit_marker_publishes _ m). }
  destruct x as [[]|e]; [|done]. unfold tally. eapply (at_update _ w7); [by apply arrives_refl|].
  intros w8 (Hal8 & _ & Hs8 & _). split; [split; [done|by rewrite Hs8; apply H7]|]. intros _. rewrite Hs8. split.
  { unfold object_file. rewrite (proj2 (write_commit_marker_publishes _ m _ _ _ E7)). exact Ho2. }
  apply write_commit_marker_filed in E7 as (Hf & Hse & Hva). unfold m, publication_marker in Hf, Hse, Hva.
  rewrite to_write_seal in Hf, Hse, Hva. fold (publication_marker (aw_agent w4) value origin id now) in Hf, Hse, Hva.
  eexists. split_and!; [| | |exact Hse|exact Hva|]; try reflexivity. rewrite Hd1 in Hc2.
  destruct Hf as [->|[-> (f & m0 & Hf0 & Hm0)]].
  - left. cbn [set_commit dk_commits]. by rewrite Hc2.
  - right. rewrite Hc2 in Hf0 |- *. split; [done|]. by exists f, m0.
Qed.

Lemma import_ends value import staged w : alone w -> keeps eq import ->
  ends (import_publication value import staged) w (fun w' x => alters (version_of value) w w' /\
    (x = Ok tt -> exists bs, staged = Ok bs /\ published value bs (w_disk (aw_store w)) (w_disk (aw_store w')))).
Proof.
  intros Hal Himp. unfold import_publication. apply ends_bind, store_step; [done|]. intros w1 x E1 Hal1 _.
  assert (publishes (version_of value) (w_disk (aw_store w)) (w_disk (aw_store w1)) /\
          dk_commits (w_disk (aw_store w1)) = dk_commits (w_disk (aw_store w))) as [H1 Hc1].
  { assert (keeps (fun d d' => publishes (version_of value) d d' /\ dk_commits d' = dk_commits d)
      (create_object_directory (version_of value))) as Hk; [|by eapply Hk].
    intros w' w'' r E. unfold create_object_directory in E. revert E.
    destruct (file_op_cases (fun d => set_object (version_of value) (object_file d (version_of value)) d)
      (io_error "could not create the object directory") w') as [(s1 & -> & Hd)|(s1 & -> & Hd)];
      intros [= <- _]; rewrite Hd; [split; [apply publishes_object|done]|by split]. }
  destruct x as [[]|e]; [|done]. apply ends_bind, store_step; [done|]. intros w2 x E2 Hal2 _.
  apply Himp in E2. assert (alters (version_of value) w w2) as H2 by (split; [done|by rewrite <- E2]).
  destruct x as [[]|e]; [|done]. apply ends_bind, ends_lift. destruct staged as [bs|e]; [|done].
  eapply ends_mono; [by apply finalize_ends|]. intros w3 x [H3 Hp]. split; [by eapply alters_trans|].
  intros Hx. exists bs. split; [done|]. destruct (Hp Hx) as (Ho & m & M1 & M2 & M3 & M4 & M5 & Hr). split; [done|].
  exists m. split_and!; try done. unfold recorded in *. rewrite <- E2, Hc1 in Hr. exact Hr.
Qed.

(** A publication that described [value] and went on, or one that stopped. *)
Definition publication_outcome (kind : StateKind) (name : bytes) (generation : Z) (content : Digest) (size : Z)
    (staged : Result bytes) w w' (ok : bool) : Prop :=
  (ok = false /\ alone w' /\ w_disk (aw_store w') = w_disk (aw_store w)) \/
  exists value, d_content_digest value = content /\ d_total_bytes value = size /\ d_generation value = generation /\
    derive_state_object_id kind name = Ok (d_object_id value) /\ alters (version_of value) w w' /\
    (ok = true -> exists bs, staged = Ok bs /\ published value bs (w_disk (aw_store w)) (w_disk (aw_store w'))).

Lemma publish_bytes_ends kind name generation contents producer repeatable w : alone w ->
  ends (publish_bytes kind name generation contents producer repeatable) w (fun w' x =>
    publication_outcome kind name generation (sha256 contents) (zlen contents) (Ok contents) w w' (is_ok x) /\
    forall value, x = Ok value -> published value contents (w_disk (aw_store w)) (w_disk (aw_store w')) /\
      d_content_digest value = sha256 contents /\ d_total_bytes value = zlen contents).
Proof.
  intros Hal. unfold publish_bytes.
  assert (forall w', alone w' -> aw_store w' = aw_store w -> publication_outcome kind name generation
    (sha256 contents) (zlen contents) (Ok contents) w w' false) as Hsame by (intros w' Ha Hs; left; by rewrite Hs).
  apply ends_bind, ends_inert; [apply inert_peek|done|]. intros w1 x _ Hal1 Hs1 _.
  destruct x as [policy|e]; [|split; [by apply Hsame|done]].
  apply ends_bind, ends_reject; intros _; [split; [by apply Hsame|done]|].
  apply ends_bind, ends_inert; [apply inert_describe|done|]. intros w2 x E2 Hal2 Hs2 _. rewrite Hs1 in Hs2.
  destruct x as [value|e]; [|split; [by apply Hsame|done]].
  apply describe_Ok in E2 as (D1 & D2 & D3 & _ & _ & _ & D4).
  apply ends_bind. eapply (at_peek _ w2); [by apply arrives_refl|]. intros w3 (Hal3 & _ & Hs3 & _).
  apply ends_bind. eapply ends_mono; [apply import_ends; [done|unfold atomic_replace; keeps_tac; done]|].
  intros w4 x [[Hal4 Hp4] Hpub]. rewrite Hs3, Hs2 in Hp4, Hpub. destruct x as [[]|e].
  - destruct (Hpub eq_refl) as (bs & [= <-] & Hpub'). apply ends_ret. split; [|by intros v [= <-]].
    right. exists value. split_and!; try done. by exists contents.
  - split; [|done]. right. exists value. by split_and!.
Qed.

Lemma publish_file_ends kind name generation path opened copied producer repeatable w : alone w ->
  ends (publish_file kind name generation path opened copied producer repeatable) w (fun w' x =>
    (is_ok x = false /\ alone w' /\ w_disk (aw_store w') = w_disk (aw_store w)) \/
    exists file k, opened = Some file /\
      publication_outcome kind name generation (sha256 (take k file)) (zlen file)
        (match copied with Some staged => Ok staged | None => Err (io_error "could not copy the object into the store") end)
        w w' (is_ok x)).
Proof.
  intros Hal. unfold publish_file.
  apply ends_bind, store_step; [done|]. intros w1 x E1 Hal1 _.
  assert (w_disk (aw_store w1) = w_disk (aw_store w)) as Hd1.
  { symmetry. by eapply (keeps_open eq). }
  destruct x as [file|e]; [|by left]. apply open_read_Ok in E1 as [_ ->].
  apply ends_bind, store_step; [done|]. intros w2 x E2 Hal2 _.
  assert (w_disk (aw_store w2) = w_disk (aw_store w)) as Hd2.
  { rewrite <- Hd1. symmetry. by eapply (keeps_size eq). }
  destruct x as [size|e]; [|by left]. apply size_of_Ok in E2 as [_ ->].
  apply ends_bind, ends_inert; [apply inert_peek|done|]. intros w3 x _ Hal3 Hs3 _.
  assert (w_disk (aw_store w3) = w_disk (aw_store w)) as Hd3 by congruence. destruct x as [policy|e]; [|by left].
  apply ends_bind, ends_reject; intros _; [by left|].
  apply ends_bind, store_step; [done|]. intros w4 x E4 Hal4 _.
  destruct x as [content|e].
  2: { left. split; [done|]. split; [done|]. rewrite <- Hd3. symmetry. by eapply hash_file_disk. }
  apply hash_file_prefix in E4 as [Hd4 [k ->]]; [|apply hashed_reset]. rewrite Hd3 in Hd4.
  apply ends_bind, ends_inert; [apply inert_describe|done|]. intros w5 x E5 Hal5 Hs5 _.
  assert (w_disk (aw_store w5) = w_disk (aw_store w)) as Hd5 by congruence. destruct x as [value|e]; [|by left].
  apply describe_Ok in E5 as (D1 & D2 & D3 & _ & _ & _ & D4).
  eapply ends_mono; [apply import_ends; [done|keeps_tac; done]|]. intros w6 x [[Hal6 Hp6] Hpub]. rewrite Hd5 in Hp6, Hpub.
  right. exists file, k. split; [done|]. right. exists value. split_and!; try done. intros Hx. apply Hpub. by destruct x as [[]|].
Qed.

(** *** Publishing over a committed version *)

Lemma write_over_existing o m m0 d (w' : World) x : marker_at d (version_of (cm_object m)) m0 ->
  write_commit_marker o m (mkWorld d []) = (w', x) -> w' = mkWorld d [].
Proof.
  intros Hm. unfold write_commit_marker. fold (to_write m). cbv zeta. rewrite to_write_version. unfold io_bind at 1.
  destruct (io_reject _ _ _ _) as [w1 [[]|e]] eqn:E1; [|unfold io_reject, io_lift in E1; by injection E1 as <- _; intros [= <- _]].
  apply io_reject_Ok in E1 as [_ ->]. unfold io_bind at 1, io_lift.
  destruct (CommitMarker_validate _) as [[]|e]; [|by intros [= <- _]].
  unfold io_bind at 1. rewrite (existing_marker_quiet _ _ _ _ Hm).
  destruct (bytes_eqb _ _); by intros [= <- _].
Qed.

Lemma marker_at_objects d d' v m : dk_commits d' = dk_commits d -> marker_at d v m -> marker_at d' v m.
Proof. intros E (H1 & H2). split; [by rewrite E|done]. Qed.

Lemma finalize_over value staged m w d : alone w -> aw_store w = mkWorld d [] ->
  marker_at d (version_of value) m ->
  ends (finalize_publication value staged) w (fun w' _ => exists d', aw_store w' = mkWorld d' [] /\
    object_file d' (version_of value) = Some staged /\ marker_at d' (version_of value) m).
Proof.
  intros Hal Hs Hm. set (v := version_of value) in *. unfold finalize_publication.
  apply ends_bind, store_step; [done|]. intros w1 x E1 Hal1 _. rewrite Hs in E1. injection E1 as Hs1 <-.
  apply ends_bind, store_step; [done|]. intros w2 x E2 Hal2 _. rewrite <- Hs1 in E2.
  assert (exists d2, aw_store w2 = mkWorld d2 [] /\ x = Ok tt /\ dk_commits d2 = dk_commits d /\
            object_file d2 v = Some staged) as (d2 & Hs2 & -> & Hc2 & Ho2).
  { pose proof (place_published_spec _ _ _ _ _ E2) as (_ & Hc & Ho). unfold place_published, io_bind in E2.
    rewrite !file_op_quiet in E2. cbn [fst] in E2. rewrite file_op_quiet in E2. injection E2 as E2 <-.
    eexists. rewrite <- E2 in Hc, Ho |- *. split; [reflexivity|]. split; [done|]. split; [exact Hc|]. by apply Ho. }
  assert (marker_at d2 v m) as Hm2 by (by apply (marker_at_objects d)).
  apply ends_bind, ends_lift. destruct (EndpointId_parse kLocalOrigin) as [origin|e]; [|by exists d2].
  apply ends_bind, ends_inert; [apply inert_draw|done|]. intros w3 x _ Hal3 Hs3 _. rewrite Hs2 in Hs3.
  destruct x as [id|e]; [|by exists d2].
  apply ends_bind, ends_inert; [apply inert_now|done|]. intros w4 x _ Hal4 Hs4 _. rewrite Hs3 in Hs4.
  destruct x as [now|e]; [|by exists d2].
  apply ends_bind. eapply (at_peek _ w4); [by apply arrives_refl|]. intros w5 (Hal5 & Ha5 & Hs5 & _).
  apply ends_bind. eapply (at_peek _ w5); [by apply arrives_refl|]. intros w6 (Hal6 & _ & Hs6 & _).
  rewrite Hs4 in Hs5. rewrite Hs5 in Hs6.
  apply ends_bind, store_step; [done|]. intros w7 x E7 Hal7 _. rewrite Hs6 in E7.
  apply (write_over_existing _ _ m) in E7; [|exact Hm2]. destruct x as [[]|e]; [|by exists d2].
  unfold tally. eapply (at_update _ w7); [by apply arrives_refl|]. intros w8 (_ & _ & Hs8 & _). exists d2. by rewrite Hs8.
Qed.

Lemma republish_ends kind name generation contents producer repeatable w d id m : alone w ->
  aw_store w = mkWorld d [] -> zlen contents <= po_max_object_bytes (ec_policy (ag_config (aw_agent w))) ->
  (forall now, exists value, StateObjectDescriptor_create kind name generation (sha256 contents) (zlen contents)
     (publication_chunk_bytes (ec_policy (ag_config (aw_agent w)))) now producer = Some (Ok value)) ->
  derive_state_object_id kind name = Ok id -> marker_at d (id, generation) m ->
  ends (publish_bytes kind name generation contents producer repeatable) w (fun w' _ => exists d',
    aw_store w' = mkWorld d' [] /\ object_file d' (id, generation) = Some contents /\ marker_at d' (id, generation) m).
Proof.
  intros Hal Hs Hmax Hcr Hid Hm. unfold publish_bytes.
  apply ends_bind. eapply (at_peek _ w); [by apply arrives_refl|]. intros w1 (Hal1 & Ha1 & Hs1 & _).
  apply ends_bind, ends_reject; intros E; b2p; [lia|]. clear E.
  apply ends_bind, ends_inert; [apply inert_describe|done|]. intros w2 x E2 Hal2 Hs2 Ha2.
  rewrite Hs1, Hs in Hs2. destruct x as [value|e].
  2: { exfalso. unfold describe_publication, eff_bind in E2. unfold peek, shared in E2. rewrite Hal1 in E2. cbn in E2.
       rewrite Ha1 in E2. destruct (Hcr (aw_clock w1 (aw_ticks w1))) as [value Hv]. by rewrite Hv in E2. }
  apply describe_Ok in E2 as (_ & _ & D3 & _ & _ & _ & D4). rewrite Hid in D4. injection D4 as ->.
  assert (version_of value = (d_object_id value, generation)) as Hv by (unfold version_of; by rewrite D3).
  rewrite <- Hv in *. apply ends_bind. eapply (at_peek _ w2); [by apply arrives_refl|]. intros w3 (Hal3 & _ & Hs3 & _).
  rewrite Hs2 in Hs3. apply ends_bind. unfold import_publication.
  apply ends_bind, store_step; [done|]. intros w4 x E4 Hal4 _. rewrite Hs3 in E4. unfold create_object_directory in E4.
  rewrite file_op_quiet in E4. injection E4 as Hs4 <-.
  apply ends_bind, store_step; [done|]. intros w5 x E5 Hal5 _. rewrite <- Hs4 in E5. injection E5 as Hs5 <-.
  apply ends_bind, ends_lift. eapply ends_mono; [eapply finalize_over; [done|by symmetry|]|].
  { by eapply marker_at_objects; [|exact Hm]. }
  intros w6 x H. destruct x as [[]|e]; [by apply ends_ret|done].
Qed.
End outcome.

(** ** Properties *)

(** (functional) What is published is placed and marked.  Whatever the file
    operations do, [publish_bytes] touches only the version it describes, and when
    it succeeds the descriptor has the SHA-256 and the size of the contents, the
    placed object is exactly the contents, and a sealed valid marker that names
    that descriptor, digest and size is the one on disk, or has the digest of the
    one that was. *)
Theorem published_bytes_are_placed {C S : Type} `{!Connection C, !EntropySource S} (kind : StateKind) (name : bytes)
    (generation : Z) (contents producer : bytes) (repeatable : bool) (w w' : AWorld C S) (x : Result StateObjectDescriptor) :
  alone w -> publish_bytes kind name generation contents producer repeatable w = (w', x) ->
  publication_outcome kind name generation (sha256 contents) (zlen contents) (Ok contents) w w' (is_ok x) /\
  forall value, x = Ok value -> published value contents (w_disk (aw_store w)) (w_disk (aw_store w')) /\
    d_content_digest value = sha256 contents /\ d_total_bytes value = zlen contents.
Proof.
  intros Hal H. exact (ends_elim _ _ _ _ _ (publish_bytes_ends kind name generation contents producer repeatable w Hal) H).
Qed.

(** (error) Publishing again replaces committed bytes.  When a version is committed
    and the same name and generation are published with other contents, then also
    without any fault the placed object becomes the new contents while the commit
    marker stays the old one; if the sizes agree the storage layer goes on to
    report the version as authoritative with the old marker. *)
Theorem republication_replaces_committed_bytes {C S : Type} `{!Connection C, !EntropySource S} (kind : StateKind)
    (name : bytes) (generation : Z) (contents producer : bytes) (repeatable : bool) (w w' : AWorld C S) (d : Disk)
    (id : Digest) (m : CommitMarker) (x : Result StateObjectDescriptor) :
  alone w -> aw_store w = mkWorld d [] -> zlen contents <= po_max_object_bytes (ec_policy (ag_config (aw_agent w))) ->
  (forall now, exists value, StateObjectDescriptor_create kind name generation (sha256 contents) (zlen contents)
     (publication_chunk_bytes (ec_policy (ag_config (aw_agent w)))) now producer = Some (Ok value)) ->
  derive_state_object_id kind name = Ok id -> marker_at d (id, generation) m ->
  cm_content_digest m <> sha256 contents ->
  publish_bytes kind name generation contents producer repeatable w = (w', x) ->
  exists d', aw_store w' = mkWorld d' [] /\ object_file d' (id, generation) = Some contents /\
    marker_at d' (id, generation) m /\
    (zlen contents = cm_stored_bytes m -> forall o, exists report,
       authority o (id, generation) (mkWorld d' []) = (mkWorld d' [], Ok report) /\
       oa_authoritative report = true /\ oa_marker_digest report = cm_marker_digest m).
Proof.
  intros Hal Hs Hmax Hcr Hid Hm _ H.
  destruct (ends_elim _ _ _ _ _ (republish_ends kind name generation contents producer repeatable w d id m Hal Hs Hmax
    Hcr Hid Hm) H) as (d' & Hs' & Ho & Hm').
  exists d'. split_and!; try done. intros Hz o.
  destruct (authority_quiet o _ _ _ _ Hm' Ho Hz) as (report & E & _ & R1 & R2). by exists report.
Qed.

(** (error) A published file is not verified.  The digest in the descriptor and the
    marker is that of the file as it was read; the object placed is the file as it
    was copied afterwards, and a publication that succeeds does not compare them. *)
Theorem published_file_is_not_verified {C S : Type} `{!Connection C, !EntropySource S} (kind : StateKind) (name : bytes)
    (generation : Z) (path : bytes) (opened copied : option bytes) (producer : bytes) (repeatable : bool)
    (w w' : AWorld C S) :
  alone w -> publish_file kind name generation path opened copied producer repeatable w = (w', Ok tt) ->
  exists file k staged value, opened = Some file /\ copied = Some staged /\
    d_content_digest value = sha256 (take k file) /\ d_total_bytes value = zlen file /\
    published value staged (w_disk (aw_store w)) (w_disk (aw_store w')).
Proof.
  intros Hal H.
  pose proof (ends_elim _ _ _ _ _ (publish_file_ends kind name generation path opened copied producer repeatable w Hal) H)
    as [(Hx & _)|(file & k & -> & [(Hx & _)|(value & D1 & D2 & _ & _ & _ & Hp)])]; [done|done|].
  destruct (Hp eq_refl) as (bs & Hb & Hpub). destruct copied as [staged|]; [|done]. injection Hb as <-.
  by exists file, k, staged, value.
Qed.

(** *** Witnesses *)

Definition demo_publisher : AWorld Pipe DeterministicEntropy := demo_aworld demo_agent empty_disk.

Lemma published_bytes_are_placed_witness : exists w' value,
  publish_bytes SK.MODEL (lit "demo") 1 small_content (lit "producer") true demo_publisher = (w', Ok value) /\
  object_file (w_disk (aw_store w')) (version_of value) = Some small_content.
Proof.
  destruct (publish_bytes SK.MODEL (lit "demo") 1 small_content (lit "producer") true demo_publisher) as [w' x] eqn:E.
  assert (is_ok (publish_bytes SK.MODEL (lit "demo") 1 small_content (lit "producer") true demo_publisher).2 = true) as Hok
    by (vm_compute; reflexivity).
  rewrite E in Hok. destruct x as [value|e]; [|discriminate Hok]. exists w', value. split; [reflexivity|].
  exact (proj1 (proj1 (proj2 (published_bytes_are_placed SK.MODEL (lit "demo") 1 small_content (lit "producer") true
    demo_publisher w' (Ok value) (fun _ _ _ => eq_refl) E) value eq_refl))).
Defined.

Lemma republication_replaces_committed_bytes_witness : exists w' x d',
  publish_bytes (d_kind demo_descriptor) (d_name demo_descriptor) (d_generation demo_descriptor) (lit "other")
    (lit "producer") true (demo_aworld demo_agent demo_committed) = (w', x) /\
  aw_store w' = mkWorld d' [] /\ object_file d' (version_of demo_descriptor) = Some (lit "other") /\
  marker_at d' (version_of demo_descriptor) demo_marker.
Proof.
  destruct (publish_bytes (d_kind demo_descriptor) (d_name demo_descriptor) (d_generation demo_descriptor) (lit "other")
    (lit "producer") true (demo_aworld demo_agent demo_committed)) as [w' x] eqn:E. exists w', x.
  destruct (republication_replaces_committed_bytes (d_kind demo_descriptor) (d_name demo_descriptor)
    (d_generation demo_descriptor) (lit "other") (lit "producer") true (demo_aworld demo_agent demo_committed) w'
    demo_committed (d_object_id demo_descriptor) demo_marker x) as (d' & H1 & H2 & H3 & _).
  - intros n a d. reflexivity.
  - reflexivity.
  - vm_compute. congruence.
  - intros now. eexists. vm_compute. reflexivity.
  - vm_compute. reflexivity.
  - split_and!; [vm_compute; reflexivity|apply demo_marker_ok|apply demo_marker_sealed|reflexivity].
  - vm_compute. congruence.
  - exact E.
  - exists d'. split; [reflexivity|]. split; [exact H1|]. split; [exact H2|exact H3].
Defined.

(** The file was rewritten between the reading and the copy. *)
Lemma published_file_is_not_verified_witness : exists w' k value,
  publish_file SK.MODEL (lit "demo") 1 (lit "/tmp/model") (Some (lit "before")) (Some (lit "after!"))
    (lit "producer") true demo_publisher = (w', Ok tt) /\
  d_content_digest value = sha256 (take k (lit "before")) /\
  object_file (w_disk (aw_store w')) (version_of value) = Some (lit "after!").
Proof.
  destruct (publish_file SK.MODEL (lit "demo") 1 (lit "/tmp/model") (Some (lit "before")) (Some (lit "after!"))
    (lit "producer") true demo_publisher) as [w' x] eqn:E.
  assert (is_ok (publish_file SK.MODEL (lit "demo") 1 (lit "/tmp/model") (Some (lit "before")) (Some (lit "after!"))
    (lit "producer") true demo_publisher).2 = true) as Hok by (vm_compute; reflexivity).
  rewrite E in Hok. destruct x as [[]|e]; [|discriminate Hok].
  destruct (published_file_is_not_verified SK.MODEL (lit "demo") 1 (lit "/tmp/model") (Some (lit "before"))
    (Some (lit "after!")) (lit "producer") true demo_publisher w' (fun _ _ _ => eq_refl) E)
    as (file & k & staged & value & Hf & Hs & D1 & _ & Hp & _).
  injection Hf as <-. injection Hs as <-. exists w', k, value. split; [reflexivity|]. split; [exact D1|exact Hp].
Defined.
