(* ===== verification/Text.v ===== *)
(** * Text

    What the parsers of addresses, options and fault specifications share of
    [std::string]: searching for a character, splitting at one, and decimal
    numbers.  [decimal] is the value a digit string denotes, without a width;
    each parser's own bounded arithmetic is compared with it. *)
From S2P Require Import Prelude.

(** ** Searching *)

(** [text.find(c)] and [text.rfind(c)]; [None] is [npos]. *)
Fixpoint find_byte (c : byte) (s : bytes) : option nat :=
  match s with
  | [] => None
  | b :: r => if decide (b = c) then Some O else S <$> find_byte c r
  end.

Fixpoint rfind_byte (c : byte) (s : bytes) : option nat :=
  match s with
  | [] => None
  | b :: r =>
    match rfind_byte c r with
    | Some i => Some (S i)
    | None => if decide (b = c) then Some O else None
    end
  end.

Definition contains (c : byte) (s : bytes) : bool := bool_decide (c ∈ s).

Lemma contains_true c s : contains c s = true <-> c ∈ s.
Proof. apply bool_decide_eq_true. Qed.

Lemma contains_false c s : contains c s = false <-> c ∉ s.
Proof. apply bool_decide_eq_false. Qed.

Lemma find_byte_None c s : find_byte c s = None <-> c ∉ s.
Proof.
  induction s as [|b s IH]; simpl; [split; [intros _; apply not_elem_of_nil|done]|].
  rewrite not_elem_of_cons. destruct (decide (b = c)) as [->|Hb]; [naive_solver|].
  rewrite fmap_None, IH. naive_solver.
Qed.

Lemma find_byte_app c a b : c ∉ a -> find_byte c (a ++ c :: b) = Some (length a).
Proof.
  induction a as [|x a IH]; intros Ha; simpl; [by rewrite decide_True|].
  apply not_elem_of_cons in Ha as [Hx Ha]. rewrite decide_False by done. by rewrite IH.
Qed.

Lemma find_byte_Some c s i : find_byte c s = Some i ->
  exists a b, s = a ++ c :: b /\ length a = i /\ c ∉ a.
Proof.
  revert i. induction s as [|x s IH]; intros i; simpl; [done|].
  destruct (decide (x = c)) as [->|Hx].
  - intros [= <-]. exists [], s. split_and!; [done|done|apply not_elem_of_nil].
  - intros (j & Hj & ->)%fmap_Some. apply IH in Hj as (a & b & -> & <- & Ha).
    exists (x :: a), b. split_and!; [done|done|]. by apply not_elem_of_cons.
Qed.

Lemma rfind_byte_None c s : rfind_byte c s = None <-> c ∉ s.
Proof.
  induction s as [|b s IH]; simpl; [split; [intros _; apply not_elem_of_nil|done]|].
  rewrite not_elem_of_cons. destruct (rfind_byte c s); [naive_solver|].
  destruct (decide (b = c)) as [->|]; naive_solver.
Qed.

Lemma rfind_byte_app c a b : c ∉ b -> rfind_byte c (a ++ c :: b) = Some (length a).
Proof.
  intros Hb. apply rfind_byte_None in Hb.
  induction a as [|x a IH]; simpl; [by rewrite Hb, decide_True|by rewrite IH].
Qed.

Lemma rfind_byte_Some c s i : rfind_byte c s = Some i ->
  exists a b, s = a ++ c :: b /\ length a = i /\ c ∉ b.
Proof.
  revert i. induction s as [|x s IH]; intros i; simpl; [done|].
  destruct (rfind_byte c s) as [j|] eqn:E.
  - intros [= <-]. destruct (IH j eq_refl) as (a & b & -> & <- & Hb). by exists (x :: a), b.
  - destruct (decide (x = c)) as [->|]; [|done]. intros [= <-].
    apply rfind_byte_None in E. by exists [], s.
Qed.

(** ** Splitting *)

(** [split]: the pieces between separators, in order; there is always a last
    piece, so the empty text has one empty piece. *)
Fixpoint split_loop (sep : byte) (s current : bytes) : list bytes :=
  match s with
  | [] => [current]
  | c :: r => if decide (c = sep) then current :: split_loop sep r [] else split_loop sep r (current ++ [c])
  end.

Definition split (s : bytes) (sep : byte) : list bytes := split_loop sep s [].

Fixpoint join (sep : byte) (parts : list bytes) : bytes :=
  match parts with
  | [] => []
  | [p] => p
  | p :: rest => p ++ sep :: join sep rest
  end.

Lemma join_cons sep p q rest : join sep (p :: q :: rest) = p ++ sep :: join sep (q :: rest).
Proof. done. Qed.

Lemma split_loop_nonnil sep s current : split_loop sep s current <> [].
Proof. revert current. induction s as [|c s IH]; intros current; simpl; [done|]. case_decide; auto. Qed.

Lemma join_split_loop sep s current : join sep (split_loop sep s current) = current ++ s.
Proof.
  revert current. induction s as [|c s IH]; intros current; simpl; [by rewrite app_nil_r|].
  case_decide as Hc.
  - subst. pose proof (split_loop_nonnil sep s []) as Hn. specialize (IH []).
    destruct (split_loop sep s []); [done|]. rewrite join_cons, IH. done.
  - rewrite IH, <- app_assoc. done.
Qed.

Lemma split_loop_pieces sep s current :
  sep ∉ current -> Forall (fun p => sep ∉ p) (split_loop sep s current).
Proof.
  revert current. induction s as [|c s IH]; intros current Hc; simpl; [by repeat constructor|].
  case_decide as E; [constructor; [done|]; apply IH, not_elem_of_nil|].
  apply IH. rewrite elem_of_app, list_elem_of_singleton. naive_solver.
Qed.

Lemma split_loop_join sep parts current :
  parts <> [] -> Forall (fun p => sep ∉ p) parts ->
  split_loop sep (join sep parts) current =
    match parts with p :: rest => (current ++ p) :: rest | [] => [] end.
Proof.
  assert (Hpiece : forall p cur tail, sep ∉ p ->
    split_loop sep (p ++ tail) cur = split_loop sep tail (cur ++ p)).
  { induction p as [|x p IH]; intros cur tail Hp; simpl; [by rewrite app_nil_r|].
    apply not_elem_of_cons in Hp as [Hx Hp]. rewrite decide_False by done.
    rewrite IH by done. by rewrite <- app_assoc. }
  revert current. induction parts as [|p [|q rest] IH]; intros current Hn HF; [done| |].
  - apply list.Forall_cons in HF as [Hp _]. cbn [join].
    rewrite <- (app_nil_r p) at 1. by rewrite Hpiece.
  - apply list.Forall_cons in HF as [Hp HF]. rewrite join_cons, Hpiece by done.
    cbn [split_loop]. rewrite decide_True by done. by rewrite IH.
Qed.

(** [split] and [join] are inverse: the pieces never contain the separator and
    joined give the text back, and pieces without it are recovered. *)
Lemma join_split sep s : join sep (split s sep) = s /\ Forall (fun p => sep ∉ p) (split s sep).
Proof. split; [apply join_split_loop|apply split_loop_pieces, not_elem_of_nil]. Qed.

Lemma split_join sep parts :
  parts <> [] -> Forall (fun p => sep ∉ p) parts -> split (join sep parts) sep = parts.
Proof. intros Hn HF. unfold split. rewrite split_loop_join by done. by destruct parts. Qed.

(** ** Decimal numbers *)

Definition is_digit (c : byte) : bool := (48 <=? zb c) && (zb c <=? 57).
Definition digit (c : byte) : Z := zb c - 48.
Definition decimal (text : bytes) (acc : Z) : Z := fold_left (fun v c => v * 10 + digit c) text acc.

Definition numeral (text : bytes) : Prop := Forall (fun c => is_digit c = true) text.

#[global] Instance numeral_dec text : Decision (numeral text).
Proof. unfold numeral. apply _. Defined.

Lemma is_digit_spec c : is_digit c = true <-> 0 <= digit c <= 9.
Proof. unfold is_digit, digit. rewrite andb_true_iff, !Z.leb_le. lia. Qed.

(** The test as the sources write it. *)
Lemma not_digit c : (zb c <? 48) || (57 <? zb c) = negb (is_digit c).
Proof. unfold is_digit. rewrite negb_andb, !Z.leb_antisym, !negb_involutive. done. Qed.

Lemma decimal_grows text acc : numeral text -> 0 <= acc -> acc <= decimal text acc.
Proof.
  revert acc. induction text as [|c text IH]; intros acc HF Ha; simpl; [lia|].
  apply list.Forall_cons in HF as [Hc HF]. apply is_digit_spec in Hc.
  etrans; [|apply IH; [done|lia]]. lia.
Qed.

Lemma dec_digits_decimal fuel : forall v acc, 0 <= v < 10 ^ Z.of_nat fuel -> numeral acc ->
  numeral (dec_digits fuel v acc) /\ decimal (dec_digits fuel v acc) 0 = decimal acc v.
Proof.
  induction fuel as [|fuel IH]; intros v acc Hv Hacc; cbn [dec_digits].
  { assert (v = 0) as -> by (cbn in Hv; lia). done. }
  assert (Hd : 0 <= v mod 10 < 10) by (apply Z.mod_pos_bound; lia).
  assert (Hdig : digit (bz (48 + v mod 10)) = v mod 10) by (unfold digit; rewrite zb_bz_small; lia).
  assert (Hnum : numeral (bz (48 + v mod 10) :: acc)) by (constructor; [apply is_digit_spec; lia|done]).
  destruct (Z.ltb_spec v 10) as [Hlt|Hge].
  - split; [done|]. simpl. rewrite Hdig, Z.mod_small by lia. done.
  - assert (Hp : 10 ^ Z.of_nat (S fuel) = 10 * 10 ^ Z.of_nat fuel)
      by (rewrite Nat2Z.inj_succ, Z.pow_succ_r; lia).
    destruct (IH (v / 10) (bz (48 + v mod 10) :: acc)) as [H1 H2];
      [split; [apply Z.div_pos; lia|apply Z.div_lt_upper_bound; lia]|done|].
    split; [done|]. rewrite H2. simpl. rewrite Hdig. f_equal. pose proof (Z.div_mod v 10). lia.
Qed.

Lemma dec_digits_nonnil fuel v acc : dec_digits (S fuel) v acc <> [].
Proof.
  assert (forall f u a, a <> [] -> dec_digits f u a <> []) as Hg.
  { induction f as [|f IH]; intros u a Ha; cbn [dec_digits]; [done|]. destruct (u <? 10); [done|by apply IH]. }
  cbn [dec_digits]. destruct (v <? 10); [done|by apply Hg].
Qed.

(** [std::to_string] writes the digits of the number. *)
Lemma to_string_decimal v : in_u 64 v ->
  numeral (std_to_string v) /\ decimal (std_to_string v) 0 = v /\ std_to_string v <> [].
Proof.
  intros Hv. destruct (dec_digits_decimal 20 v []) as [H1 H2]; [|by constructor|].
  - unfold in_u in Hv. split; [lia|]. etrans; [apply Hv|done].
  - split_and!; [done|done|apply dec_digits_nonnil].
Qed.

Lemma numeral_excludes c text : is_digit c = false -> numeral text -> c ∉ text.
Proof. intros Hc HF Hin. unfold numeral in HF. rewrite list.Forall_forall in HF. by rewrite HF in Hc. Qed.
