(* ===== verification/Transport.v ===== *)
(** * Transport

    Models [src/transport.cpp] and [include/smf/transport.hpp], the POSIX
    branches: socket addresses, non-blocking connections and listeners with a
    time budget on every operation, and the shared ownership of descriptors.

    The operating system is an interface, [Kernel]; what the code relies on of
    it is [KernelLaws].  A turn of a loop is a function [Turn] on the state the
    loop works on, and [spin] iterates it.  The loops read the monotonic clock
    once per turn that does not progress, so a clock that reaches the deadline
    bounds their turns; the bound is the fuel, and [spin_total] shows it is
    never exhausted.

    A [TcpConnection] shares its [State] with its copies.  [Net] holds the
    states, the connection objects of the process and what other threads do to
    them between two steps of the modelled thread. *)
From S2P Require Import Prelude Status Text Topology Framing.

(** ** Addresses *)

Definition is_space (c : byte) : bool :=
  bool_decide (c = x20) || bool_decide (c = x09) || bool_decide (c = x0a) || bool_decide (c = x0d).

(** The loop over the digits of the port, in 32-bit arithmetic. *)
Fixpoint parse_port (text : bytes) (port : Z) : Result Z :=
  match text with
  | [] => Ok port
  | c :: rest =>
    if (zb c <? 48) || (57 <? zb c) then fail RC.ADDRESS_INVALID "port must be numeric"
    else
      let port := wrap 32 (wrap 32 (port * 10) + (zb c - 48)) in
      if 65535 <? port then fail RC.ADDRESS_INVALID "port is out of range"
      else parse_port rest port
  end.

(** The host and the port text. *)
Definition split_address (text : bytes) : Result (bytes * bytes) :=
  if bool_decide (head text = Some x5b) then
    match find_byte x5d text with
    | None => fail RC.ADDRESS_INVALID "bracketed address is missing ']'"
    | Some closing =>
      let host := take (closing - 1) (drop 1 text) in
      if (length text <=? closing + 1)%nat || negb (bool_decide (text !! (closing + 1)%nat = Some x3a))
      then fail RC.ADDRESS_INVALID "bracketed address is missing a port"
      else Ok (host, drop (closing + 2) text)
    end
  else
    match rfind_byte x3a text with
    | None => fail RC.ADDRESS_INVALID "address must be host:port"
    | Some colon =>
      let host := take colon text in
      if contains x3a host
      then fail RC.ADDRESS_INVALID "an IPv6 literal must be enclosed in brackets"
      else Ok (host, drop (colon + 1) text)
    end.

Definition SocketAddress_parse (text : bytes) : Result SocketAddress :=
  if bool_decide (text = []) then fail RC.ADDRESS_INVALID "address must not be empty"
  else if existsb is_space text then fail RC.ADDRESS_INVALID "address must not contain whitespace"
  else
    let! (host, port_text) := split_address text in
    if bool_decide (port_text = []) then fail RC.ADDRESS_INVALID "address must carry a port"
    else
      let! port := parse_port port_text 0 in
      Ok (mkAddress host (wrap 16 port)).

Definition SocketAddress_loopback (port : Z) : Result SocketAddress :=
  Ok (mkAddress (lit "127.0.0.1") port).

Definition SocketAddress_to_string (a : SocketAddress) : bytes :=
  if contains x3a (sa_host a) then lit "[" ++ sa_host a ++ lit "]:" ++ std_to_string (sa_port a)
  else if bool_decide (sa_host a = []) then lit "127.0.0.1:" ++ std_to_string (sa_port a)
  else sa_host a ++ lit ":" ++ std_to_string (sa_port a).

(** *** The language of addresses *)

Inductive address_form : bytes -> bytes -> bytes -> Prop :=
  | form_bracketed host port : x5d ∉ host ->
      address_form (x5b :: host ++ x5d :: x3a :: port) host port
  | form_plain host port : x3a ∉ host -> x3a ∉ port -> head host <> Some x5b ->
      address_form (host ++ x3a :: port) host port.

Lemma split_bracketed host rest : x5d ∉ host ->
  split_address (x5b :: host ++ x5d :: rest) =
    match rest with
    | x3a :: port => Ok (host, port)
    | _ => fail RC.ADDRESS_INVALID "bracketed address is missing a port"
    end.
Proof.
  intros Hh. unfold split_address. rewrite bool_decide_eq_true_2 by done.
  assert (find_byte x5d (x5b :: host ++ x5d :: rest) = Some (S (length host))) as ->
    by (apply (find_byte_app x5d (x5b :: host)); by apply not_elem_of_cons).
  cbn [length]. rewrite length_app. cbn [length].
  replace (S (length host) + 1)%nat with (S (length host + 1)) by lia.
  change ((x5b :: host ++ x5d :: rest) !! S (length host + 1)) with ((host ++ x5d :: rest) !! (length host + 1)%nat).
  rewrite lookup_app_r by lia. replace (length host + 1 - length host)%nat with 1%nat by lia.
  change ((x5d :: rest) !! 1%nat) with (rest !! 0%nat).
  destruct rest as [|c port]; [by rewrite (proj2 (Nat.leb_le _ _)) by (simpl; lia)|].
  rewrite (proj2 (Nat.leb_gt _ _)) by (simpl; lia). cbn [orb].
  change ((c :: port) !! 0%nat) with (Some c).
  case_bool_decide as Hc; [injection Hc as ->|destruct c; done].
  replace (S (length host) - 1)%nat with (length host) by lia.
  change (drop 1 (x5b :: host ++ x5d :: x3a :: port)) with (host ++ x5d :: x3a :: port). cbn [negb]. rewrite take_app_exact. repeat f_equal.
  replace (S (length host) + 2)%nat with (length (x5b :: host ++ [x5d; x3a]))
    by (cbn [length]; rewrite length_app; cbn; lia).
  replace (x5b :: host ++ x5d :: x3a :: port) with ((x5b :: host ++ [x5d; x3a]) ++ port)
    by (cbn; by rewrite <- app_assoc).
  by rewrite drop_app_exact.
Qed.

Lemma split_plain host port : x3a ∉ port -> head (host ++ [x3a]) <> Some x5b ->
  split_address (host ++ x3a :: port) =
    if contains x3a host
    then fail RC.ADDRESS_INVALID "an IPv6 literal must be enclosed in brackets"
    else Ok (host, port).
Proof.
  intros Hp Hh. unfold split_address.
  rewrite bool_decide_eq_false_2 by (destruct host; simpl in *; congruence).
  rewrite rfind_byte_app, take_app_exact by done.
  destruct (contains x3a host); [done|]. repeat f_equal.
  replace (length host + 1)%nat with (length (host ++ [x3a])) by (rewrite length_app; done).
  replace (host ++ x3a :: port) with ((host ++ [x3a]) ++ port) by (by rewrite <- app_assoc).
  by rewrite drop_app_exact.
Qed.

Lemma split_address_spec text host port :
  split_address text = Ok (host, port) <-> address_form text host port.
Proof.
  split.
  - intros H. destruct (decide (head text = Some x5b)) as [Hh|Hh].
    + destruct text as [|c text]; [done|]. injection Hh as ->.
      destruct (find_byte x5d (x5b :: text)) as [i|] eqn:Ef.
      2: { unfold split_address in H. rewrite bool_decide_eq_true_2, Ef in H by done. done. }
      apply find_byte_Some in Ef as ([|c a] & b & E & _ & Ha); [done|]. injection E as <- ->.
      apply not_elem_of_cons in Ha as [_ Ha]. rewrite split_bracketed in H by done.
      destruct b as [|[] b]; try done. injection H as <- <-. by constructor.
    + destruct (rfind_byte x3a text) as [i|] eqn:Ef.
      2: { unfold split_address in H. rewrite bool_decide_eq_false_2, Ef in H by done. done. }
      apply rfind_byte_Some in Ef as (a & b & -> & _ & Hb).
      rewrite split_plain in H; [|done|by destruct a].
      destruct (contains x3a a) eqn:Ec; [done|]. injection H as <- <-.
      constructor; [by apply contains_false|done|by destruct a].
  - intros [h p Hh|h p Hh Hp Hn].
    + by rewrite split_bracketed.
    + rewrite split_plain; [|done|by destruct h]. by rewrite (proj2 (contains_false _ _)).
Qed.

Lemma parse_port_spec text acc v : 0 <= acc <= 65535 ->
  parse_port text acc = Ok v <-> numeral text /\ decimal text acc = v /\ v <= 65535.
Proof.
  revert acc. induction text as [|c text IH]; intros acc Ha; cbn [parse_port].
  { split; [intros [= ->]; split_and!; [by constructor|done|lia]|by intros (_ & <- & _)]. }
  rewrite not_digit. destruct (is_digit c) eqn:Ec; cbn [negb].
  2: { split; [done|]. intros [HF _]. apply list.Forall_cons in HF as [HF _]. congruence. }
  pose proof (proj1 (is_digit_spec c) Ec) as Hd. fold (digit c).
  rewrite (wrap_small 32 (acc * 10)) by (unfold in_u; lia).
  rewrite wrap_small by (unfold in_u; lia).
  destruct (Z.ltb_spec 65535 (acc * 10 + digit c)) as [Hgt|Hle].
  - split; [done|]. intros (HF & Hdec & Hv). apply list.Forall_cons in HF as [_ HF].
    change (decimal (c :: text) acc) with (decimal text (acc * 10 + digit c)) in Hdec.
    pose proof (decimal_grows text (acc * 10 + digit c) HF ltac:(lia)). lia.
  - rewrite IH by lia. unfold numeral. rewrite list.Forall_cons. tauto.
Qed.

Lemma parse_port_bounds text acc v : 0 <= acc <= 65535 -> parse_port text acc = Ok v -> 0 <= v <= 65535.
Proof.
  intros Ha H. apply parse_port_spec in H as (HF & <- & Hle); [|done].
  pose proof (decimal_grows text acc HF ltac:(lia)). lia.
Qed.

Lemma split_address_error text e : split_address text = Err e -> st_code e = RC.ADDRESS_INVALID.
Proof.
  unfold split_address. repeat (case_match || case_bool_decide); try done; intros [= <-]; done.
Qed.

Lemma parse_port_error text acc e : parse_port text acc = Err e -> st_code e = RC.ADDRESS_INVALID.
Proof.
  revert acc. induction text as [|c text IH]; intros acc; cbn [parse_port]; [done|].
  repeat case_match; try (intros [= <-]; done). apply IH.
Qed.

(** What [parse] accepts. *)
Definition denotes (text : bytes) (a : SocketAddress) : Prop :=
  existsb is_space text = false /\
  exists port, address_form text (sa_host a) port /\ port <> [] /\ numeral port /\
    decimal port 0 = sa_port a /\ sa_port a <= 65535.

Lemma parse_denotes text a : SocketAddress_parse text = Ok a <-> denotes text a.
Proof.
  unfold SocketAddress_parse, denotes. case_bool_decide as Ht.
  { subst. split; [done|]. intros (_ & p & Hf & _). inversion Hf as [|h ? ? ? ? E]; destruct h; done. }
  destruct (existsb is_space text); [split; [done|naive_solver]|].
  split.
  - intros ([host port] & Hs & H)%rbind_Ok. apply split_address_spec in Hs.
    case_bool_decide as Hp; [done|]. apply rbind_Ok in H as (v & Hv & [= <-]).
    pose proof (parse_port_bounds port 0 v ltac:(lia) Hv).
    apply parse_port_spec in Hv as (HF & Hd & Hle); [|lia].
    split; [done|]. exists port. cbn [sa_host sa_port]. rewrite wrap_small by (unfold in_u; lia). done.
  - intros (_ & port & Hf & Hp & HF & Hd & Hle). apply split_address_spec in Hf.
    rewrite Hf. cbn [rbind]. rewrite bool_decide_eq_false_2 by done.
    assert (parse_port port 0 = Ok (sa_port a)) as Hv by (apply parse_port_spec; [lia|done]).
    pose proof (parse_port_bounds port 0 _ ltac:(lia) Hv). rewrite Hv. cbn [rbind].
    rewrite wrap_small by (unfold in_u; lia). by destruct a.
Qed.

Lemma parse_error text e : SocketAddress_parse text = Err e -> st_code e = RC.ADDRESS_INVALID.
Proof.
  unfold SocketAddress_parse. repeat case_bool_decide; try (intros [= <-]; done).
  destruct (existsb is_space text); [intros [= <-]; done|].
  destruct (split_address text) as [[host port]|e'] eqn:Es; cbn [rbind];
    [|intros [= <-]; by apply split_address_error in Es].
  case_bool_decide; [intros [= <-]; done|].
  destruct (parse_port port 0) as [v|e'] eqn:Ep; cbn [rbind]; [done|].
  intros [= <-]. by apply parse_port_error in Ep.
Qed.

(** ** The operating system *)

Inductive Errno : Type :=
  | EWOULDBLOCK | EAGAIN | EINPROGRESS | ECONNREFUSED | ECONNRESET | ECONNABORTED | ETIMEDOUT
  | ENETUNREACH | ENETDOWN | EHOSTUNREACH | EADDRINUSE | EADDRNOTAVAIL
  | ErrnoOther (v : Z).

#[global] Instance errno_eq_dec : EqDecision Errno.
Proof. solve_decision. Defined.

(** [kInvalidNativeSocket] *)
Definition kInvalidNativeSocket : Z := -1.

(** A [sockaddr] by its family; the address in network byte order. *)
Inductive SockAddr : Type :=
  | SaV4 (addr : bytes) (port : Z)
  | SaV6 (addr : bytes) (port : Z)
  | SaOther (family : Z).

(** A system call returns a value, or -1 with [errno] set. *)
Inductive Sys (A : Type) : Type :=
  | Done (a : A)
  | Failed (e : Errno).
Arguments Done {A}.
Arguments Failed {A}.

Inductive SockOpt : Type := TCP_NODELAY | SO_REUSEADDR | SO_KEEPALIVE.

(** The calls the transport makes, as POSIX declares them; [K] is the state of
    the operating system.  [sys_poll] waits for one descriptor, [sys_so_error]
    is [getsockopt(SO_ERROR)], [sys_getaddrinfo] gives the first result and its
    length. *)
Class Kernel (K : Type) := {
  sys_getaddrinfo : bytes -> bytes -> bool -> K -> K * option (SockAddr * Z);
  sys_inet_ntop : SockAddr -> bytes;
  sys_socket : SockAddr -> K -> K * Sys Z;
  sys_connect : Z -> SockAddr -> K -> K * Sys unit;
  sys_so_error : Z -> K -> K * Sys (option Errno);
  sys_bind : Z -> SockAddr -> K -> K * Sys unit;
  sys_listen : Z -> Z -> K -> K * Sys unit;
  sys_accept : Z -> K -> K * Sys (Z * SockAddr);
  sys_getsockname : Z -> K -> K * Sys SockAddr;
  sys_setsockopt : Z -> SockOpt -> Z -> K -> K;
  sys_set_nonblocking : Z -> K -> K;
  sys_poll : Z -> bool -> Z -> K -> K * Sys nat;
  sys_send : Z -> bytes -> K -> K * Sys nat;
  sys_recv : Z -> nat -> K -> K * Sys bytes;
  sys_shutdown : Z -> K -> K;
  sys_close : Z -> K -> K }.

(** The monotonic clock: [monotonic_millis n] is the [n]th reading of the
    process, and [reading_at t] a reading by which time [t] has come. *)
Class MonotonicClock := {
  monotonic_millis : nat -> Z;
  reading_at : Z -> nat }.

Definition would_block (e : Errno) : bool :=
  match e with EWOULDBLOCK | EAGAIN | EINPROGRESS => true | _ => false end.

Definition classify_socket_error (e : Errno) : ReasonCode :=
  match e with
  | ECONNREFUSED => RC.CONNECTION_REFUSED
  | ECONNRESET | ECONNABORTED => RC.CONNECTION_RESET
  | ETIMEDOUT => RC.IO_TIMEOUT
  | ENETUNREACH | ENETDOWN | EHOSTUNREACH => RC.NETWORK_UNAVAILABLE
  | EADDRINUSE => RC.BIND_FAILED
  | EADDRNOTAVAIL => RC.ADDRESS_INVALID
  | _ => RC.IO_ERROR
  end.

(** [return Status(classify_socket_error(), "m");] *)
Definition fail_errno {A} (e : Errno) (m : String.string) : Result A := fail (classify_socket_error e) m.
Arguments fail_errno {A} e m%_string_scope.

(** ** Loops *)

(** A turn of a loop returns from the function or goes around. *)
Inductive Turn (A : Type) : Type :=
  | Finish (r : Result A)
  | Again.
Arguments Finish {A}.
Arguments Again {A}.

Section spin.
Context {X A : Type} (turn : X -> X * Turn A).

Fixpoint spin (fuel : nat) (x : X) : X * option (Result A) :=
  match fuel with
  | O => (x, None)
  | S f => match turn x with
           | (x', Finish r) => (x', Some r)
           | (x', Again) => spin f x'
           end
  end.

(** The loop as a total function; [None] is shown unreachable for the fuel in
    use. *)
Definition loop (fuel : nat) (x : X) : X * Result A :=
  match spin fuel x with
  | (x', Some r) => (x', r)
  | (x', None) => (x', fail RC.INTERNAL_ERROR "loop ran out of fuel")
  end.

(** A loop whose turns decrease a measure returns. *)
Lemma spin_total (m : X -> nat) (I : X -> Prop) :
  (forall x x', I x -> turn x = (x', Again) -> I x' /\ (m x' < m x)%nat) ->
  forall fuel x, I x -> (m x < fuel)%nat -> exists x' r, spin fuel x = (x', Some r).
Proof.
  intros Hm fuel. induction fuel as [|f IH]; intros x Hx Hf; [lia|]. cbn [spin].
  destruct (turn x) as [x' [r|]] eqn:E; [eauto|].
  destruct (Hm x x' Hx E). apply IH; [done|lia].
Qed.

(** What every turn preserves holds of the state in which the loop returns. *)
Lemma spin_ind (I : X -> Prop) (Q : X -> Result A -> Prop) :
  (forall x x' r, I x -> turn x = (x', Finish r) -> Q x' r) ->
  (forall x x', I x -> turn x = (x', Again) -> I x') ->
  forall fuel x x' r, I x -> spin fuel x = (x', Some r) -> Q x' r.
Proof.
  intros HF HA fuel. induction fuel as [|f IH]; intros x x' r Hx; cbn [spin]; [done|].
  destruct (turn x) as [x1 [r1|]] eqn:E; [intros [= <- <-]; eauto|]. intros H. eauto.
Qed.

Lemma spin_Ok (I : X -> Prop) (P : X -> A -> Prop) :
  (forall x x' v, I x -> turn x = (x', Finish (Ok v)) -> P x' v) ->
  (forall x x', I x -> turn x = (x', Again) -> I x') ->
  forall fuel x x' v, I x -> spin fuel x = (x', Some (Ok v)) -> P x' v.
Proof.
  intros HF HA fuel x x' v Hx Hs.
  refine (spin_ind I (fun x r => forall v, r = Ok v -> P x v) _ HA fuel x x' (Ok v) Hx Hs v eq_refl).
  intros x1 x2 r Hi E u ->. by eapply HF.
Qed.
End spin.

(** ** Connections *)

(** [TcpConnection::State], and the same fields of [TcpListener::State]. *)
Record State := mkState { st_socket : Z; st_closed : bool }.

(** [tc_state] is the [shared_ptr]: the number of the [State] it points to. *)
Record TcpConnection := mkTcp {
  tc_state : option nat;
  tc_peer : SocketAddress;
  tc_local : SocketAddress }.

Definition no_address : SocketAddress := mkAddress [] 0.
Definition TcpConnection_default : TcpConnection := mkTcp None no_address no_address.

(** What a thread does to connection objects, by their numbers. *)
Inductive HandleOp : Type :=
  | OpShutdown (h : nat)
  | OpClose (h : nat)
  | OpCopy (src dst : nat)
  | OpMove (src dst : nat)
  | OpDestroy (h : nat).

(** [nt_others n] is what other threads do before the [n]th step of this one;
    [nt_calls] records the descriptor of each call of this thread on a
    connection with the system state it met, newest first. *)
Record Net (K : Type) := mkNet {
  nt_kernel : K;
  nt_ticks : nat;
  nt_states : gmap nat State;
  nt_handles : gmap nat TcpConnection;
  nt_others : nat -> list HandleOp;
  nt_turn : nat;
  nt_calls : list (Z * K) }.
Arguments mkNet {K}.
Arguments nt_kernel {K}.
Arguments nt_ticks {K}.
Arguments nt_states {K}.
Arguments nt_handles {K}.
Arguments nt_others {K}.
Arguments nt_turn {K}.
Arguments nt_calls {K}.

Section connections.
Context {K : Type} `{!Kernel K} `{!MonotonicClock}.
Implicit Types w : Net K.

Definition set_kernel (k : K) w : Net K :=
  mkNet k (nt_ticks w) (nt_states w) (nt_handles w) (nt_others w) (nt_turn w) (nt_calls w).
Definition set_states (m : gmap nat State) w : Net K :=
  mkNet (nt_kernel w) (nt_ticks w) m (nt_handles w) (nt_others w) (nt_turn w) (nt_calls w).
Definition set_handles (m : gmap nat TcpConnection) w : Net K :=
  mkNet (nt_kernel w) (nt_ticks w) (nt_states w) m (nt_others w) (nt_turn w) (nt_calls w).

(** A call that no other thread comes before. *)
Definition call {A} (f : K -> K * A) w : Net K * A :=
  let '(k, a) := f (nt_kernel w) in (set_kernel k w, a).
Definition effect (f : K -> K) w : Net K := set_kernel (f (nt_kernel w)) w.

(** *** Ownership *)

Definition close_native (socket : Z) w : Net K :=
  if socket =? kInvalidNativeSocket then w else effect (sys_close socket) w.

(** The [shared_ptr] was the last one: [~State] runs. *)
Definition unreferenced (i : nat) w : bool :=
  bool_decide (map_Forall (fun _ c => tc_state c <> Some i) (nt_handles w)).

Definition release (state : option nat) w : Net K :=
  match state with
  | None => w
  | Some i =>
    if unreferenced i w then
      match nt_states w !! i with
      | Some s => set_states (delete i (nt_states w)) (close_native (st_socket s) w)
      | None => w
      end
    else w
  end.

(** The [shared_ptr] a connection object holds. *)
Definition holds w (h : nat) : option nat := c ← nt_handles w !! h; tc_state c.

(** Assignment to [h], or its construction; what it held before is released. *)
Definition assign (h : nat) (c : TcpConnection) w : Net K :=
  release (holds w h) (set_handles (<[h := c]> (nt_handles w)) w).

Definition moved_from (c : TcpConnection) : TcpConnection :=
  mkTcp None (mkAddress [] (sa_port (tc_peer c))) (mkAddress [] (sa_port (tc_local c))).

Definition copy (src dst : nat) w : Net K :=
  match nt_handles w !! src with Some c => assign dst c w | None => w end.

(** Move construction and move assignment, with its self-assignment test. *)
Definition move (src dst : nat) w : Net K :=
  if bool_decide (src = dst) then w
  else match nt_handles w !! src with
       | Some c => assign dst c (set_handles (<[src := moved_from c]> (nt_handles w)) w)
       | None => w
       end.

Definition TcpConnection_close (h : nat) w : Net K :=
  match nt_handles w !! h with
  | Some c => assign h (mkTcp None (tc_peer c) (tc_local c)) w
  | None => w
  end.

Definition destroy (h : nat) w : Net K :=
  release (holds w h) (set_handles (delete h (nt_handles w)) w).

Definition is_open_state (s : option State) : bool :=
  match s with
  | None => false
  | Some s => negb (st_closed s) && negb (st_socket s =? kInvalidNativeSocket)
  end.

Definition TcpConnection_is_open (h : nat) w : bool :=
  is_open_state (i ← holds w h; nt_states w !! i).

Definition TcpConnection_shutdown (h : nat) w : Net K * Result unit :=
  match holds w h with
  | None => (w, fail RC.CONNECTION_CLOSED "connection was never established")
  | Some i =>
    match nt_states w !! i with
    | None => (w, fail RC.CONNECTION_CLOSED "connection was never established")
    | Some s =>
      let w := set_states (<[i := mkState (st_socket s) true]> (nt_states w)) w in
      if st_socket s =? kInvalidNativeSocket
      then (w, fail RC.CONNECTION_CLOSED "connection is already closed")
      else (effect (sys_shutdown (st_socket s)) w, Ok tt)
    end
  end.

Definition set_connection_option (h : nat) (name : SockOpt) (enabled : bool) w : Net K :=
  match i ← holds w h; nt_states w !! i with
  | None => w
  | Some s => if st_socket s =? kInvalidNativeSocket then w
              else effect (sys_setsockopt (st_socket s) name (if enabled then 1 else 0)) w
  end.

Definition set_no_delay (h : nat) (enabled : bool) w : Net K := set_connection_option h TCP_NODELAY enabled w.
Definition set_keep_alive (h : nat) (enabled : bool) w : Net K := set_connection_option h SO_KEEPALIVE enabled w.

Definition run_op (op : HandleOp) w : Net K :=
  match op with
  | OpShutdown h => (TcpConnection_shutdown h w).1
  | OpClose h => TcpConnection_close h w
  | OpCopy src dst => copy src dst w
  | OpMove src dst => move src dst w
  | OpDestroy h => destroy h w
  end.

(** *** Steps of this thread *)

(** Other threads run. *)
Definition yield w : Net K :=
  let w' := foldl (fun w op => run_op op w) w (nt_others w (nt_turn w)) in
  mkNet (nt_kernel w') (nt_ticks w') (nt_states w') (nt_handles w') (nt_others w) (S (nt_turn w)) (nt_calls w').

(** Reading the atomics of a [State] this thread holds; a read of a state that
    is gone would be a use after free, it gets the values of a fresh one. *)
Definition load_closed (i : nat) w : Net K * bool :=
  let w := yield w in (w, match nt_states w !! i with Some s => st_closed s | None => false end).

Definition load_socket (i : nat) w : Net K * Z :=
  let w := yield w in
  (w, match nt_states w !! i with Some s => st_socket s | None => kInvalidNativeSocket end).

(** A call on the descriptor of a state. *)
Definition syscall {A} (i : nat) (f : Z -> K -> K * A) w : Net K * A :=
  let '(w, fd) := load_socket i w in
  let w := yield w in
  let '(k, a) := f fd (nt_kernel w) in
  (mkNet k (nt_ticks w) (nt_states w) (nt_handles w) (nt_others w) (nt_turn w)
     ((fd, nt_kernel w) :: nt_calls w), a).

Definition read_clock w : Net K * Z :=
  (mkNet (nt_kernel w) (S (nt_ticks w)) (nt_states w) (nt_handles w) (nt_others w) (nt_turn w) (nt_calls w),
   monotonic_millis (nt_ticks w)).

Definition remaining_budget (deadline : Z) w : Net K * Z :=
  let '(w, now) := read_clock w in
  (w, if deadline <=? now then 0 else deadline - now).

(** [poll_socket]: both arms of its last line are 1. *)
Definition poll_socket (for_read : bool) (timeout_millis : Z) (socket : Z) (k : K) : K * Sys nat :=
  match sys_poll socket for_read timeout_millis k with
  | (k, Done O) => (k, Done O)
  | (k, Done (S _)) => (k, Done 1%nat)
  | (k, Failed e) => (k, Failed e)
  end.

(** *** Sending and receiving *)

Definition shut_down_locally {A} : Result A := fail RC.CONNECTION_CLOSED "connection was shut down locally".

(** A call failed: the local shutdown is the cause if there was one. *)
Definition failed_call {A} (i : nat) (e : Errno) (m : String.string) w : Net K * Turn A :=
  let '(w, closed) := load_closed i w in
  (w, Finish (if closed then shut_down_locally else fail_errno e m)).
#[local] Arguments failed_call {A} _ _ m%_string_scope _.

(** The end of a turn that would block: the budget, and a wait of at most 50 ms. *)
Definition wait_ready {A} (i : nat) (for_read : bool) (deadline : Z) (late polled : String.string) w :
    Net K * Turn A :=
  let '(w, remaining) := remaining_budget deadline w in
  if remaining <=? 0 then (w, Finish (fail RC.IO_TIMEOUT late))
  else
    let slice := Z.min remaining 50 in
    match syscall i (poll_socket for_read slice) w with
    | (w, Failed e) => failed_call i e polled w
    | (w, Done _) => (w, Again)
    end.
#[local] Arguments wait_ready {A} _ _ _ (late polled)%_string_scope _.

Definition send_turn (i : nat) (data : bytes) (deadline : Z) (x : Net K * nat) : (Net K * nat) * Turn unit :=
  let '(w, offset) := x in
  if negb (offset <? length data)%nat then ((w, offset), Finish (Ok tt))
  else
    let '(w, closed) := load_closed i w in
    if closed then ((w, offset), Finish shut_down_locally)
    else
      let chunk := Z.to_nat (Z.min (Z.of_nat (length data - offset)) (2 ^ 20)) in
      match syscall i (fun fd => sys_send fd (take chunk (drop offset data))) w with
      | (w, Done (S n)) => ((w, (offset + S n)%nat), Again)
      | (w, Done O) => ((w, offset), Finish (fail RC.CONNECTION_CLOSED "peer closed during send"))
      | (w, Failed e) =>
        let '(w, t) :=
          if would_block e then wait_ready i false deadline "send timed out" "poll during send failed" w
          else failed_call i e "send failed" w in
        ((w, offset), t)
      end.

(** A deadline passes after at most this many more readings. *)
Definition patience (deadline : Z) w : nat := reading_at deadline - nt_ticks w.

Definition TcpConnection_send_all (h : nat) (data : bytes) (budget_millis : Z) w : Net K * Result unit :=
  match holds w h with
  | None => (w, fail RC.CONNECTION_CLOSED "connection was never established")
  | Some i =>
    let '(w, now) := read_clock w in
    let deadline := now + budget_millis in
    let '((w, _), r) := loop (send_turn i data deadline) (S (length data + patience deadline w)) (w, O) in
    (w, r)
  end.

Definition recv_turn (i : nat) (size : nat) (deadline : Z) w : Net K * Turn bytes :=
  let '(w, closed) := load_closed i w in
  if closed then (w, Finish shut_down_locally)
  else
    let chunk := Z.to_nat (Z.min (Z.of_nat size) (2 ^ 20)) in
    match syscall i (fun fd => sys_recv fd chunk) w with
    | (w, Done received) => (w, Finish (Ok received))
    | (w, Failed e) =>
      if would_block e then wait_ready i true deadline "receive timed out" "poll during receive failed" w
      else failed_call i e "receive failed" w
    end.

(** The bytes written to the caller's buffer of [size] bytes, none of them when
    the peer has closed. *)
Definition TcpConnection_receive_some (h : nat) (size : nat) (budget_millis : Z) w : Net K * Result bytes :=
  match holds w h with
  | None => (w, fail RC.CONNECTION_CLOSED "connection was never established")
  | Some i =>
    if Nat.eqb size 0 then (w, Ok [])
    else
      let '(w, now) := read_clock w in
      let deadline := now + budget_millis in
      loop (recv_turn i size deadline) (S (patience deadline w)) w
  end.
End connections.

(** ** Opening connections *)

Record TcpListener := mkListener { tl_state : option State; tl_address : SocketAddress }.

(** A listener with its other users: before its [n]th step another thread calls
    [close()] when [lw_closer n]. *)
Record ListenerWorld (K : Type) := mkListenerWorld {
  lw_net : Net K;
  lw_listener : TcpListener;
  lw_closer : nat -> bool;
  lw_turn : nat }.
Arguments mkListenerWorld {K}.
Arguments lw_net {K}.
Arguments lw_listener {K}.
Arguments lw_closer {K}.
Arguments lw_turn {K}.

Section opening.
Context {K : Type} `{!Kernel K} `{!MonotonicClock}.
Implicit Types (w : Net K) (l : ListenerWorld K).

(** The POSIX branch has nothing to initialise. *)
Definition ensure_socket_runtime : Result unit := Ok tt.

Definition from_sockaddr (a : SockAddr) : SocketAddress :=
  match a with
  | SaV4 _ port => mkAddress (sys_inet_ntop a) port
  | SaV6 _ port => mkAddress (sys_inet_ntop a) port
  | SaOther _ => no_address
  end.

Definition resolve (host : bytes) (port : Z) (passive : bool) w : Net K * Result SockAddr :=
  if bool_decide (host = []) then (w, Ok (SaV4 [x7f; x00; x00; x01] port))
  else
    match call (sys_getaddrinfo host (std_to_string port) passive) w with
    | (w, None) =>
        (w, Err (mkStatus RC.ADDRESS_INVALID (lit "host could not be resolved: " ++ host)))
    | (w, Some (address, length)) =>
        (w, if length <=? 0 then fail RC.ADDRESS_INVALID "resolved address has no length" else Ok address)
    end.

Definition set_non_blocking (socket : Z) w : Net K := effect (sys_set_nonblocking socket) w.
Definition set_option (socket : Z) (name : SockOpt) (value : Z) w : Net K :=
  effect (sys_setsockopt socket name value) w.

(** [make_shared<State>()] with the socket stored, held by the connection
    object [h] that the caller constructs from the result. *)
Definition new_connection (h : nat) (socket : Z) (peer local : SocketAddress) w : Net K :=
  let i := fresh (dom (nt_states w)) in
  assign h (mkTcp (Some i) peer local) (set_states (<[i := mkState socket false]> (nt_states w)) w).

(** One turn of the wait for a connection in progress; it returns once the
    socket is connected. *)
Definition connect_turn (socket deadline : Z) w : Net K * Turn unit :=
  let '(w, remaining) := remaining_budget deadline w in
  if remaining <=? 0 then (close_native socket w, Finish (fail RC.IO_TIMEOUT "connect timed out"))
  else
    let slice := Z.min remaining 50 in
    match call (poll_socket false slice socket) w with
    | (w, Failed e) => (close_native socket w, Finish (fail_errno e "poll during connect failed"))
    | (w, Done O) => (w, Again)
    | (w, Done (S _)) =>
      match call (sys_so_error socket) w with
      | (w, Failed _) =>
          (close_native socket w, Finish (fail RC.IO_ERROR "could not read the connect result"))
      | (w, Done (Some e)) => (close_native socket w, Finish (fail_errno e "connect failed"))
      | (w, Done None) => (w, Finish (Ok tt))
      end
    end.

(** The connect call and the wait. *)
Definition establish (socket : Z) (address : SockAddr) (budget_millis : Z) w : Net K * Result unit :=
  let '(w, now) := read_clock w in
  let deadline := now + budget_millis in
  match call (sys_connect socket address) w with
  | (w, Done _) => (w, Ok tt)
  | (w, Failed e) =>
    if negb (would_block e) then (close_native socket w, fail_errno e "connect failed")
    else loop (connect_turn socket deadline) (S (patience deadline w)) w
  end.

Definition TcpConnection_connect (h : nat) (address : SocketAddress) (budget_millis : Z) w :
    Net K * Result unit :=
  if sa_port address =? 0 then (w, fail RC.ADDRESS_INVALID "port zero cannot be connected to")
  else match ensure_socket_runtime with Err e => (w, Err e) | Ok _ =>
  match resolve (sa_host address) (sa_port address) false w with
  | (w, Err e) => (w, Err e)
  | (w, Ok storage) =>
    match call (sys_socket storage) w with
    | (w, Failed e) => (w, fail_errno e "socket creation failed")
    | (w, Done socket) =>
      match establish socket storage budget_millis (set_non_blocking socket w) with
      | (w, Err e) => (w, Err e)
      | (w, Ok _) =>
        let w := set_option socket TCP_NODELAY 1 w in
        let '(w, name) := call (sys_getsockname socket) w in
        let local := match name with Done a => from_sockaddr a | Failed _ => no_address end in
        (new_connection h socket address local w, Ok tt)
      end
    end
  end end.

(** [adopt]: the descriptor travels as a pointer, so descriptor zero is a null
    pointer. *)
Definition TcpConnection_adopt (h : nat) (native_handle : Z) (peer : SocketAddress) w : Net K * Result unit :=
  if native_handle =? 0 then (w, fail RC.INVALID_ARGUMENT "no native handle supplied")
  else
    let w := new_connection h native_handle peer no_address w in
    (set_option native_handle TCP_NODELAY 1 (set_non_blocking native_handle w), Ok tt).

(** *** Listeners *)

Definition TcpListener_bind (address : SocketAddress) w : Net K * Result TcpListener :=
  match ensure_socket_runtime with Err e => (w, Err e) | Ok _ =>
  match resolve (sa_host address) (sa_port address) true w with
  | (w, Err e) => (w, Err e)
  | (w, Ok storage) =>
    match call (sys_socket storage) w with
    | (w, Failed e) => (w, fail_errno e "listener socket creation failed")
    | (w, Done socket) =>
      match call (sys_bind socket storage) (set_option socket SO_REUSEADDR 1 w) with
      | (w, Failed e) =>
          (close_native socket w, Err (mkStatus (classify_socket_error e)
             (lit "bind failed for " ++ SocketAddress_to_string address)))
      | (w, Done _) =>
        match call (sys_listen socket 64) w with
        | (w, Failed e) =>
            let code := classify_socket_error e in
            (close_native socket w,
             fail (if bool_decide (code = RC.IO_ERROR) then RC.LISTEN_FAILED else code) "listen failed")
        | (w, Done _) =>
          let w := set_non_blocking socket w in
          let '(w, name) := call (sys_getsockname socket) w in
          let bound := match name with Done a => from_sockaddr a | Failed _ => address end in
          (w, Ok (mkListener (Some (mkState socket false)) bound))
        end
      end
    end
  end end.

Definition TcpListener_is_open (t : TcpListener) : bool := is_open_state (tl_state t).

Definition TcpListener_close (t : TcpListener) w : Net K * TcpListener * Result unit :=
  match tl_state t with
  | None => (w, t, fail RC.SHUTTING_DOWN "listener was never bound")
  | Some s =>
    if st_socket s =? kInvalidNativeSocket
    then (w, mkListener (Some (mkState (st_socket s) true)) (tl_address t),
          fail RC.SHUTTING_DOWN "listener is already closed")
    else (close_native (st_socket s) (effect (sys_shutdown (st_socket s)) w),
          mkListener (Some (mkState kInvalidNativeSocket true)) (tl_address t), Ok tt)
  end.

(** [~TcpListener] *)
Definition destroy_listener (t : TcpListener) w : Net K :=
  match tl_state t with
  | None => w
  | Some s => close_native (st_socket s) w
  end.

Definition listener_yield l : ListenerWorld K :=
  let w := yield (lw_net l) in
  let '(w, t) :=
    if lw_closer l (lw_turn l) then (TcpListener_close (lw_listener l) w).1 else (w, lw_listener l) in
  mkListenerWorld w t (lw_closer l) (S (lw_turn l)).

Definition listener_state l : State :=
  match tl_state (lw_listener l) with Some s => s | None => mkState kInvalidNativeSocket false end.

Definition listener_closed l : ListenerWorld K * bool :=
  let l := listener_yield l in (l, st_closed (listener_state l)).

Definition set_net w l : ListenerWorld K := mkListenerWorld w (lw_listener l) (lw_closer l) (lw_turn l).

(** A call on the listener's descriptor, loaded before other threads may run
    again. *)
Definition listener_call {A} (f : Z -> K -> K * A) l : ListenerWorld K * A :=
  let l := listener_yield l in
  let fd := st_socket (listener_state l) in
  let l := listener_yield l in
  let w := lw_net l in
  let '(k, a) := f fd (nt_kernel w) in
  (set_net (mkNet k (nt_ticks w) (nt_states w) (nt_handles w) (nt_others w) (nt_turn w)
              ((fd, nt_kernel w) :: nt_calls w)) l, a).

Definition listener_was_closed {A} : Result A := fail RC.SHUTTING_DOWN "listener was closed".

(** [state_->closed ? "listener was closed" : otherwise] *)
Definition closed_or {A} (otherwise : Result A) l : ListenerWorld K * Turn A :=
  let '(l, closed) := listener_closed l in
  (l, Finish (if closed then listener_was_closed else otherwise)).

(** The connection accepted becomes the object [h]. *)
Definition accept_turn (h : nat) (deadline : Z) l : ListenerWorld K * Turn unit :=
  let '(l, closed) := listener_closed l in
  if closed then (l, Finish listener_was_closed)
  else
    match listener_call sys_accept l with
    | (l, Done (accepted, peer)) =>
      match TcpConnection_adopt h accepted (from_sockaddr peer) (lw_net l) with
      | (w, Err e) => (set_net (close_native accepted w) l, Finish (Err e))
      | (w, Ok _) => (set_net w l, Finish (Ok tt))
      end
    | (l, Failed e) =>
      if negb (would_block e) then closed_or (fail_errno e "accept failed") l
      else
        let '(w, remaining) := remaining_budget deadline (lw_net l) in
        let l := set_net w l in
        if remaining <=? 0
        then closed_or (fail RC.IO_TIMEOUT "no inbound connection arrived within the budget") l
        else
          let slice := Z.min remaining 50 in
          match listener_call (poll_socket true slice) l with
          | (l, Failed e) => closed_or (fail_errno e "poll during accept failed") l
          | (l, Done _) => (l, Again)
          end
    end.

Definition TcpListener_accept (h : nat) (budget_millis : Z) l : ListenerWorld K * Result unit :=
  match tl_state (lw_listener l) with
  | None => (l, fail RC.SHUTTING_DOWN "listener was never bound")
  | Some _ =>
    let '(w, now) := read_clock (lw_net l) in
    let deadline := now + budget_millis in
    loop (accept_turn h deadline) (S (patience deadline w)) (set_net w l)
  end.
End opening.

(** ** What the operating system promises *)

Class ClockLaws `{!MonotonicClock} : Prop := {
  clock_monotonic : forall m n, (m <= n)%nat -> monotonic_millis m <= monotonic_millis n;
  clock_advances : forall t, t <= monotonic_millis (reading_at t) }.

(** [k_open] are the descriptors the process has open, [k_out k fd] the bytes
    that [send] has accepted on [fd], [k_in k fd] those that [recv] is yet to
    return before the end of the stream. *)
Class KernelLaws (K : Type) `{!Kernel K} := {
  k_open : K -> gset Z;
  k_in : K -> Z -> bytes;
  k_out : K -> Z -> bytes;
  socket_opens : forall a k k' fd, sys_socket a k = (k', Done fd) ->
    0 <= fd /\ (fd ∉ k_open k) /\ k_open k' = ({[fd]} ∪ k_open k);
  socket_refused : forall a k k' e, sys_socket a k = (k', Failed e) -> k_open k' = k_open k;
  accept_opens : forall s k k' fd a, sys_accept s k = (k', Done (fd, a)) ->
    0 <= fd /\ (fd ∉ k_open k) /\ k_open k' = ({[fd]} ∪ k_open k);
  accept_refused : forall s k k' e, sys_accept s k = (k', Failed e) -> k_open k' = k_open k;
  close_closes : forall fd k, k_open (sys_close fd k) = k_open k ∖ {[fd]};
  getaddrinfo_keeps : forall h p b k, k_open (sys_getaddrinfo h p b k).1 = k_open k;
  connect_keeps : forall fd a k, k_open (sys_connect fd a k).1 = k_open k;
  so_error_keeps : forall fd k, k_open (sys_so_error fd k).1 = k_open k;
  bind_keeps : forall fd a k, k_open (sys_bind fd a k).1 = k_open k;
  listen_keeps : forall fd n k, k_open (sys_listen fd n k).1 = k_open k;
  getsockname_keeps : forall fd k, k_open (sys_getsockname fd k).1 = k_open k;
  setsockopt_keeps : forall fd o v k, k_open (sys_setsockopt fd o v k) = k_open k;
  nonblocking_keeps : forall fd k, k_open (sys_set_nonblocking fd k) = k_open k;
  poll_keeps : forall fd b t k, k_open (sys_poll fd b t k).1 = k_open k;
  send_keeps : forall fd bs k, k_open (sys_send fd bs k).1 = k_open k;
  recv_keeps : forall fd n k, k_open (sys_recv fd n k).1 = k_open k;
  shutdown_keeps : forall fd k, k_open (sys_shutdown fd k) = k_open k;
  send_accepts : forall fd bs k k' r, sys_send fd bs k = (k', r) ->
    match r with
    | Done n => (n <= length bs)%nat /\ k_out k' fd = k_out k fd ++ take n bs
    | Failed _ => k_out k' fd = k_out k fd
    end;
  poll_out : forall fd' b t k fd, k_out (sys_poll fd' b t k).1 fd = k_out k fd;
  recv_out : forall fd' n k fd, k_out (sys_recv fd' n k).1 fd = k_out k fd;
  shutdown_out : forall fd' k fd, k_out (sys_shutdown fd' k) fd = k_out k fd;
  close_out : forall fd' k fd, fd <> fd' -> k_out (sys_close fd' k) fd = k_out k fd;
  recv_delivers : forall fd n k k' r, (0 < n)%nat -> sys_recv fd n k = (k', r) ->
    match r with
    | Done bs => k_in k fd = bs ++ k_in k' fd /\ (length bs <= n)%nat /\ (bs = [] -> k_in k fd = [])
    | Failed _ => k_in k' fd = k_in k fd
    end;
  poll_in : forall fd' b t k fd, k_in (sys_poll fd' b t k).1 fd = k_in k fd;
  send_in : forall fd' bs k fd, k_in (sys_send fd' bs k).1 fd = k_in k fd }.

(** ** Ownership of descriptors *)

Section ownership.
Context {K : Type} `{!Kernel K, !KernelLaws K} `{!MonotonicClock}.
Implicit Types (w : Net K) (i j h : nat).

(** Every state is held, every holder's state is there, and each state has an
    open descriptor of its own. *)
Record net_ok w : Prop := {
  ok_held : forall i s, nt_states w !! i = Some s -> exists h, holds w h = Some i;
  ok_there : forall h i, holds w h = Some i -> is_Some (nt_states w !! i);
  ok_open : forall i s, nt_states w !! i = Some s -> 0 <= st_socket s /\ st_socket s ∈ k_open (nt_kernel w);
  ok_distinct : forall i j s t, nt_states w !! i = Some s -> nt_states w !! j = Some t ->
    st_socket s = st_socket t -> i = j }.

(** Two worlds with the same connection objects, states and open descriptors. *)
Definition same_owners w w' : Prop :=
  nt_handles w' = nt_handles w /\ nt_states w' = nt_states w /\
  k_open (nt_kernel w') = k_open (nt_kernel w).

Lemma same_owners_ok w w' : same_owners w w' -> net_ok w -> net_ok w'.
Proof.
  intros (Hh & Hs & Hk) [H1 H2 H3 H4].
  assert (forall h, holds w' h = holds w h) as Hd by (intros h; unfold holds; by rewrite Hh).
  split.
  - intros i s. rewrite Hs. intros Hst. destruct (H1 i s Hst) as [h Hi]. exists h. by rewrite Hd.
  - intros h i. rewrite Hd, Hs. apply H2.
  - intros i s. rewrite Hs, Hk. apply H3.
  - intros i j s t. rewrite Hs. apply H4.
Qed.

Lemma unreferenced_true i w : unreferenced i w = true -> forall h, holds w h <> Some i.
Proof.
  unfold unreferenced. rewrite bool_decide_eq_true. intros HF h. unfold holds.
  destruct (nt_handles w !! h) as [c|] eqn:E; [exact (HF h c E)|done].
Qed.

Lemma unreferenced_false i w : unreferenced i w = false -> exists h, holds w h = Some i.
Proof.
  unfold unreferenced. rewrite bool_decide_eq_false. intros (h & c & E & Hc)%map_not_Forall; [|apply _].
  exists h. unfold holds. rewrite E. destruct (decide (tc_state c = Some i)); [done|naive_solver].
Qed.

(** [net_ok] while the state [o] points to may have lost its last holder. *)
Record net_ok_but (o : option nat) w : Prop := {
  but_held : forall i s, nt_states w !! i = Some s -> Some i = o \/ exists h, holds w h = Some i;
  but_there : forall h i, holds w h = Some i -> is_Some (nt_states w !! i);
  but_open : forall i s, nt_states w !! i = Some s -> 0 <= st_socket s /\ st_socket s ∈ k_open (nt_kernel w);
  but_distinct : forall i j s t, nt_states w !! i = Some s -> nt_states w !! j = Some t ->
    st_socket s = st_socket t -> i = j }.

Lemma release_ok o w : net_ok_but o w -> net_ok (release o w).
Proof.
  intros [H1 H2 H3 H4]. destruct o as [i|]; cbn [release].
  2: { split; auto. intros i s Hi. by destruct (H1 i s Hi). }
  destruct (unreferenced i w) eqn:Eu.
  2: { apply unreferenced_false in Eu. split; auto.
       intros j s Hj. by destruct (H1 j s Hj) as [[= ->]|]. }
  pose proof (unreferenced_true i w Eu) as Hfree.
  destruct (nt_states w !! i) as [s|] eqn:Es.
  2: { split; auto. intros j t Hj. destruct (H1 j t Hj) as [[= ->]|]; congruence. }
  destruct (H3 i s Es) as [Hpos _]. unfold close_native.
  rewrite (proj2 (Z.eqb_neq _ _)) by (unfold kInvalidNativeSocket; lia).
  split; unfold set_states, effect, set_kernel, holds; cbn.
  - intros j t [Hij Hj]%lookup_delete_Some. destruct (H1 j t Hj) as [[= ->]|]; [done|done].
  - intros h j Hj. rewrite lookup_delete_ne; [by apply (H2 h)|]. intros ->. by apply (Hfree h).
  - intros j t [Hij Hj]%lookup_delete_Some. destruct (H3 j t Hj) as [Hp Ho]. split; [done|].
    rewrite close_closes. apply elem_of_difference. split; [done|]. intros He%elem_of_singleton.
    destruct (Hij (H4 i j s t Es Hj (eq_sym He))).
  - intros j1 j2 t1 t2 [_ Hj1]%lookup_delete_Some [_ Hj2]%lookup_delete_Some. by apply H4.
Qed.

Lemma net_ok_any o w : net_ok w -> net_ok_but o w.
Proof. intros [H1 H2 H3 H4]. split; eauto. Qed.

Lemma holds_insert h c w h' :
  holds (set_handles (<[h := c]> (nt_handles w)) w) h' = if decide (h' = h) then tc_state c else holds w h'.
Proof.
  unfold holds, set_handles; cbn. destruct (decide (h' = h)) as [->|Hn].
  - by rewrite lookup_insert_eq.
  - by rewrite lookup_insert_ne.
Qed.

(** The connection object [h] takes over [c], whose state may be new. *)
Lemma assign_but h c w :
  net_ok_but (tc_state c) w -> (forall i, tc_state c = Some i -> is_Some (nt_states w !! i)) ->
  net_ok_but (holds w h) (set_handles (<[h := c]> (nt_handles w)) w).
Proof.
  intros [H1 H2 H3 H4] Hc. split; [| |exact H3|exact H4].
  - intros i s Hi. setoid_rewrite holds_insert.
    destruct (H1 i s Hi) as [E|[h' Hh']].
    + right. exists h. by rewrite decide_True.
    + destruct (decide (h' = h)) as [->|Hn]; [by left|]. right. exists h'. by rewrite decide_False.
  - intros h' i. rewrite holds_insert. destruct (decide (h' = h)); [apply Hc|apply H2].
Qed.

Lemma destroy_but h w : net_ok w ->
  net_ok_but (holds w h) (set_handles (delete h (nt_handles w)) w).
Proof.
  intros [H1 H2 H3 H4].
  assert (Hd : forall h', holds (set_handles (delete h (nt_handles w)) w) h' =
                 if decide (h' = h) then None else holds w h').
  { intros h'. unfold holds, set_handles; cbn.
    destruct (decide (h' = h)) as [->|Hn]; [by rewrite lookup_delete_eq|by rewrite lookup_delete_ne]. }
  split; [| |exact H3|exact H4].
  - intros i s Hi. setoid_rewrite Hd. destruct (H1 i s Hi) as [h' Hh'].
    destruct (decide (h' = h)) as [->|Hn]; [by left|]. right. exists h'. by rewrite decide_False.
  - intros h' i. rewrite Hd. destruct (decide (h' = h)); [done|apply H2].
Qed.

(** *** A connection object in use *)

(** [h] holds the state [i] with descriptor [fd]. *)
Definition holding h i (fd : Z) (closed : bool) w : Prop :=
  net_ok w /\ holds w h = Some i /\ nt_states w !! i = Some (mkState fd closed).

(** What the release of another object leaves alone. *)
Definition spared h i (fd : Z) w w' : Prop :=
  holds w' h = Some i /\ nt_states w' !! i = nt_states w !! i /\
  k_out (nt_kernel w') fd = k_out (nt_kernel w) fd /\
  nt_ticks w' = nt_ticks w /\ nt_others w' = nt_others w /\ nt_calls w' = nt_calls w.

Lemma release_spares o w h i fd closed :
  net_ok_but o w -> holds w h = Some i -> nt_states w !! i = Some (mkState fd closed) ->
  spared h i fd w (release o w).
Proof.
  intros [H1 H2 H3 H4] Hh Hi. unfold spared. destruct o as [j|]; cbn [release]; [|done].
  destruct (unreferenced j w) eqn:Eu; [|done]. pose proof (unreferenced_true j w Eu) as Hfree.
  destruct (nt_states w !! j) as [t|] eqn:Ej; [|done].
  assert (i <> j) as Hij by (intros ->; by apply (Hfree h)).
  unfold close_native, set_states, effect, set_kernel, holds in *.
  destruct (st_socket t =? kInvalidNativeSocket); cbn;
    (rewrite lookup_delete_ne by done); split_and!; try done.
  apply close_out. intros E. apply Hij, (H4 i j _ t Hi Ej). exact E.
Qed.

Definition spares h (op : HandleOp) : Prop :=
  match op with
  | OpShutdown _ => True
  | OpClose h' | OpDestroy h' => h' <> h
  | OpCopy _ dst => dst <> h
  | OpMove src dst => src <> h /\ dst <> h
  end.

(** [w'] is [w] after steps that leave [h] its connection; a shutdown may have
    come. *)
Definition carries h i (fd : Z) (closed : bool) w w' : Prop :=
  exists closed', holding h i fd closed' w' /\ (closed = true -> closed' = true) /\
    k_out (nt_kernel w') fd = k_out (nt_kernel w) fd /\
    nt_ticks w' = nt_ticks w /\ nt_others w' = nt_others w /\ nt_calls w' = nt_calls w.

Lemma carries_refl h i fd closed w : holding h i fd closed w -> carries h i fd closed w w.
Proof. intros Hh. exists closed. done. Qed.

Lemma spared_carries o h i fd closed w w1 :
  net_ok_but o w1 -> holds w1 h = Some i -> nt_states w1 = nt_states w -> nt_kernel w1 = nt_kernel w ->
  nt_ticks w1 = nt_ticks w -> nt_others w1 = nt_others w -> nt_calls w1 = nt_calls w ->
  nt_states w !! i = Some (mkState fd closed) -> carries h i fd closed w (release o w1).
Proof.
  intros Hok Hh Hs Hk Ht Ho Hc Hi. rewrite <- Hs in Hi.
  destruct (release_spares o w1 h i fd closed Hok Hh Hi) as (E1 & E2 & E3 & E4 & E5 & E6).
  exists closed. split_and!; try done; try congruence.
  split_and!; [by apply release_ok|done|congruence].
Qed.

Lemma assign_carries h' c h i fd closed w :
  holding h i fd closed w -> h' <> h ->
  (forall j, tc_state c = Some j -> is_Some (nt_states w !! j)) ->
  carries h i fd closed w (assign h' c w).
Proof.
  intros (Hok & Hh & Hi) Hn Hc. apply spared_carries; try done.
  - apply assign_but; [by apply net_ok_any|done].
  - rewrite holds_insert. by rewrite decide_False.
Qed.

Lemma mark_closed_ok i s (closed : bool) w : nt_states w !! i = Some s -> net_ok w ->
  net_ok (set_states (<[i := mkState (st_socket s) closed]> (nt_states w)) w).
Proof.
  intros Hi [H1 H2 H3 H4].
  assert (Hlook : forall j t, <[i := mkState (st_socket s) closed]> (nt_states w) !! j = Some t ->
            exists t', nt_states w !! j = Some t' /\ st_socket t = st_socket t').
  { intros j t. destruct (decide (i = j)) as [<-|Hn].
    - rewrite lookup_insert_eq. intros [= <-]. eauto.
    - rewrite lookup_insert_ne by done. eauto. }
  split; cbn.
  - intros j t (t' & Hj & _)%Hlook. by apply (H1 j t').
  - intros h j Hj. apply lookup_insert_is_Some. destruct (decide (i = j)); [by left|].
    right. split; [done|]. by apply (H2 h).
  - intros j t (t' & Hj & ->)%Hlook. by apply (H3 j).
  - intros j1 j2 t1 t2 (u1 & Hj1 & ->)%Hlook (u2 & Hj2 & ->)%Hlook. by apply H4.
Qed.

Lemma shutdown_cases h w : net_ok w ->
  (holds w h = None /\
   TcpConnection_shutdown h w = (w, fail RC.CONNECTION_CLOSED "connection was never established")) \/
  (exists i s, holds w h = Some i /\ nt_states w !! i = Some s /\
   TcpConnection_shutdown h w =
     (effect (sys_shutdown (st_socket s)) (set_states (<[i := mkState (st_socket s) true]> (nt_states w)) w), Ok tt)).
Proof.
  intros Hok. unfold TcpConnection_shutdown. destruct (holds w h) as [i|] eqn:Eh; [right|by left].
  destruct (ok_there w Hok h i Eh) as [s Es]. exists i, s. rewrite Es.
  destruct (ok_open w Hok i s Es) as [Hp _].
  by rewrite (proj2 (Z.eqb_neq _ _)) by (unfold kInvalidNativeSocket; lia).
Qed.

Lemma shutdown_carries h' h i fd closed w : holding h i fd closed w ->
  carries h i fd closed w (TcpConnection_shutdown h' w).1.
Proof.
  intros (Hok & Hh & Hi). destruct (shutdown_cases h' w Hok) as [[_ ->]|(j & s & Ej & Es & ->)].
  { apply carries_refl. by split_and!. }
  exists (closed || bool_decide (i = j)). split_and!; cbn; try done.
  - split_and!; [|done|].
    + eapply same_owners_ok; [|by apply (mark_closed_ok j s true)]. split_and!; [done|done|]. cbn.
      apply shutdown_keeps.
    + cbn. destruct (decide (j = i)) as [->|Hn].
      * rewrite lookup_insert_eq. rewrite bool_decide_eq_true_2, orb_true_r by done.
        rewrite Hi in Es. by injection Es as <-.
      * rewrite lookup_insert_ne by done. rewrite bool_decide_eq_false_2 by done. by rewrite orb_false_r.
  - by intros ->.
  - apply shutdown_out.
Qed.

Lemma move_but src dst c w : net_ok w -> nt_handles w !! src = Some c ->
  let w1 := set_handles (<[src := moved_from c]> (nt_handles w)) w in
  net_ok_but (holds w1 dst) (set_handles (<[dst := c]> (nt_handles w1)) w1).
Proof.
  intros Hok Hc w1. assert (holds w src = tc_state c) as Hs by (unfold holds; by rewrite Hc).
  apply assign_but.
  - rewrite <- Hs. apply assign_but; [by apply net_ok_any|done].
  - intros j Hj. apply (ok_there w Hok src). by rewrite Hs.
Qed.

Lemma run_op_carries op h i fd closed w :
  spares h op -> holding h i fd closed w -> carries h i fd closed w (run_op op w).
Proof.
  intros Hsp Hhold. pose proof Hhold as (Hok & Hh & Hi).
  destruct op as [h'|h'|src dst|src dst|h']; cbn [run_op spares] in *.
  - by apply shutdown_carries.
  - unfold TcpConnection_close. destruct (nt_handles w !! h'); [|by apply carries_refl].
    by apply assign_carries.
  - unfold copy. destruct (nt_handles w !! src) as [c|] eqn:Ec; [|by apply carries_refl].
    apply assign_carries; [done|done|]. intros j Hj. apply (ok_there w Hok src). unfold holds. by rewrite Ec.
  - unfold move. case_bool_decide; [by apply carries_refl|].
    destruct (nt_handles w !! src) as [c|] eqn:Ec; [|by apply carries_refl].
    destruct Hsp as [Hs Hd]. apply spared_carries; try done; [by apply move_but|].
    by rewrite !holds_insert, !decide_False.
  - apply spared_carries; try done; [by apply destroy_but|].
    unfold holds, set_handles; cbn. rewrite lookup_delete_ne by done. done.
Qed.

(** Any operation preserves the ownership invariant. *)
Lemma run_op_ok op w : net_ok w -> net_ok (run_op op w).
Proof.
  intros Hok. destruct op as [h|h|src dst|src dst|h]; cbn [run_op].
  - destruct (shutdown_cases h w Hok) as [[_ ->]|(j & s & Ej & Es & ->)]; [done|].
    eapply same_owners_ok; [|by apply (mark_closed_ok j s true)]. split_and!; [done|done|]. apply shutdown_keeps.
  - unfold TcpConnection_close. destruct (nt_handles w !! h); [|done].
    apply release_ok, assign_but; [by apply net_ok_any|done].
  - unfold copy. destruct (nt_handles w !! src) as [c|] eqn:Ec; [|done].
    apply release_ok, assign_but; [by apply net_ok_any|].
    intros j Hj. apply (ok_there w Hok src). unfold holds. by rewrite Ec.
  - unfold move. case_bool_decide; [done|].
    destruct (nt_handles w !! src) as [c|] eqn:Ec; [|done]. by apply release_ok, move_but.
  - by apply release_ok, destroy_but.
Qed.

Lemma carries_trans h i fd c1 c2 w w1 w2 :
  holding h i fd c2 w1 -> (c1 = true -> c2 = true) -> 
  k_out (nt_kernel w1) fd = k_out (nt_kernel w) fd ->
  nt_ticks w1 = nt_ticks w -> nt_others w1 = nt_others w -> nt_calls w1 = nt_calls w ->
  carries h i fd c2 w1 w2 -> carries h i fd c1 w w2.
Proof.
  intros Hh Hc Hk Ht Ho Hl (c3 & H1 & H2 & H3 & H4 & H5 & H6).
  exists c3. split_and!; try done; try congruence. auto.
Qed.

(** Nothing that other threads will do takes [h] away. *)
Definition undisturbed h w : Prop := forall n, Forall (spares h) (nt_others w n).

Lemma run_ops_carries ops h i fd closed w :
  Forall (spares h) ops -> holding h i fd closed w ->
  carries h i fd closed w (foldl (fun w op => run_op op w) w ops).
Proof.
  intros HF. revert closed w. induction HF as [|op ops Hop HF IH]; intros closed w Hh; cbn [foldl].
  - by apply carries_refl.
  - destruct (run_op_carries op h i fd closed w Hop Hh) as (c & H1 & H2 & H3 & H4 & H5 & H6).
    eapply carries_trans; [exact H1|..]; try done. by apply IH.
Qed.

Lemma yield_carries h i fd closed w :
  undisturbed h w -> holding h i fd closed w -> carries h i fd closed w (yield w).
Proof.
  intros Hu Hh.
  destruct (run_ops_carries _ h i fd closed w (Hu (nt_turn w)) Hh) as (c & (H1 & H1' & H1'') & H2 & H3 & H4 & H5 & H6).
  exists c. unfold yield. split_and!; try done. split_and!; [|done|done].
  eapply same_owners_ok; [|exact H1]. done.
Qed.
End ownership.

(** ** Calls on a connection *)

Section calls.
Context {K : Type} `{!Kernel K, !KernelLaws K} `{!MonotonicClock}.
Implicit Types (w : Net K) (i h : nat).

Definition sound_calls w : Prop := Forall (fun c => c.1 ∈ k_open c.2) (nt_calls w).

(** A thread that uses [h] and has had [out] accepted for sending. *)
Definition in_use h i (fd : Z) (closed : bool) (out : bytes) w : Prop :=
  holding h i fd closed w /\ undisturbed h w /\ sound_calls w /\ k_out (nt_kernel w) fd = out.

Lemma carries_in_use h i fd closed out w w' :
  in_use h i fd closed out w -> carries h i fd closed w w' ->
  exists closed', in_use h i fd closed' out w' /\ (closed = true -> closed' = true) /\
    nt_ticks w' = nt_ticks w /\ nt_calls w' = nt_calls w.
Proof.
  intros (_ & Hu & Hs & Hk) (c & H1 & H2 & H3 & H4 & H5 & H6). exists c. split_and!; try done.
  split_and!; [done| | |congruence].
  - intros n. rewrite H5. apply Hu.
  - unfold sound_calls. by rewrite H6.
Qed.

Lemma load_closed_in_use h i fd closed out w w' b :
  in_use h i fd closed out w -> load_closed i w = (w', b) ->
  in_use h i fd b out w' /\ (closed = true -> b = true) /\ nt_ticks w' = nt_ticks w /\ nt_calls w' = nt_calls w.
Proof.
  intros Hw. unfold load_closed. cbv zeta. pose proof Hw as (Hh & Hu & _).
  destruct (carries_in_use _ _ _ _ _ _ _ Hw (yield_carries _ _ _ _ _ Hu Hh)) as (c & H1 & H2).
  assert (nt_states (yield w) !! i = Some (mkState fd c)) as -> by apply H1.
  by intros [= <- <-].
Qed.

(** A call on the descriptor finds it open, and no other thread changed what
    was sent on it. *)
Lemma syscall_in_use {A} (f : Z -> K -> K * A) h i fd closed out w w' a :
  (forall k, k_open (f fd k).1 = k_open k) ->
  in_use h i fd closed out w -> syscall i f w = (w', a) ->
  exists closed' k, f fd k = (nt_kernel w', a) /\ k_out k fd = out /\ (closed = true -> closed' = true) /\
    in_use h i fd closed' (k_out (nt_kernel w') fd) w' /\ nt_ticks w' = nt_ticks w.
Proof.
  intros Hf Hw. unfold syscall, load_socket. cbv zeta. pose proof Hw as (Hh & Hu & _).
  destruct (carries_in_use _ _ _ _ _ _ _ Hw (yield_carries _ _ _ _ _ Hu Hh)) as (c & H1 & H2 & H3 & H4).
  assert (nt_states (yield w) !! i = Some (mkState fd c)) as -> by apply H1. cbn [st_socket].
  pose proof H1 as (Hh1 & Hu1 & _).
  destruct (carries_in_use _ _ _ _ _ _ _ H1 (yield_carries _ _ _ _ _ Hu1 Hh1)) as (d & H5 & H6 & H7 & H8).
  set (w2 := yield (yield w)) in *. clearbody w2.
  destruct (f fd (nt_kernel w2)) as [k' a'] eqn:Ef. intros [= <- <-]. exists d, (nt_kernel w2).
  destruct H5 as ((Hok & Hd & Hi) & Hu2 & Hs & Hk).
  split_and!; [done|done|auto| |by rewrite H7].
  split_and!; [split_and!| | |]; try done.
  - eapply same_owners_ok; [|exact Hok]. split_and!; [done|done|]. cbn.
    pose proof (Hf (nt_kernel w2)) as Hk2. by rewrite Ef in Hk2.
  - unfold sound_calls. cbn. constructor; [|done]. cbn. by apply (ok_open w2 Hok i _ Hi).
Qed.

Lemma poll_socket_spec b t fd k :
  k_open (poll_socket b t fd k).1 = k_open k /\
  (forall fd', k_out (poll_socket b t fd k).1 fd' = k_out k fd') /\
  (forall fd', k_in (poll_socket b t fd k).1 fd' = k_in k fd').
Proof.
  unfold poll_socket. pose proof (poll_keeps fd b t k) as H1. pose proof (poll_out fd b t k) as H2.
  pose proof (poll_in fd b t k) as H3. destruct (sys_poll fd b t k) as [k' [[|n]|e]]; done.
Qed.

Lemma failed_call_in_use {A} h i fd closed out e m w w' (t : Turn A) :
  in_use h i fd closed out w -> failed_call i e m w = (w', t) ->
  exists closed', in_use h i fd closed' out w' /\
    t = Finish (if closed' then shut_down_locally else fail_errno e m).
Proof.
  intros Hw. unfold failed_call. destruct (load_closed i w) as [w1 b] eqn:E.
  apply (load_closed_in_use h i fd closed out) in E as (H1 & _); [|done]. intros [= <- <-]. eauto.
Qed.

(** A wait sends nothing, and goes around only before the deadline. *)
Lemma wait_ready_in_use {A} h i fd closed out b deadline late polled w w' (t : Turn A) :
  in_use h i fd closed out w -> wait_ready i b deadline late polled w = (w', t) ->
  exists closed', in_use h i fd closed' out w' /\ (forall v, t <> Finish (Ok v)).
Proof.
  intros Hw. unfold wait_ready, remaining_budget, read_clock.
  set (w1 := mkNet _ (S _) _ _ _ _ _).
  assert (Hw1 : in_use h i fd closed out w1).
  { destruct Hw as ((Hok & Hd & Hi) & Hu & Hs & Hk). split_and!; try done. split_and!; try done.
    eapply same_owners_ok; [|exact Hok]. done. }
  destruct (_ <=? 0); [intros [= <- <-]; eauto|].
  destruct (syscall i _ w1) as [w2 [n|e]] eqn:E;
    (eapply syscall_in_use in E as (c & k & Ef & Hk & _ & Hu & _); [|intros k; apply poll_socket_spec|done]);
    pose proof (poll_socket_spec b (Z.min (if deadline <=? monotonic_millis (nt_ticks w) then 0
      else deadline - monotonic_millis (nt_ticks w)) 50) fd k) as (_ & Ho & _); rewrite Ef in Ho; cbn in Ho;
    rewrite Ho, Hk in Hu.
  - intros [= <- <-]. eauto.
  - intros Hf. eapply failed_call_in_use in Hf as (c' & Hu' & ->); [|done]. exists c'. split; [done|].
    intros v. by destruct c'.
Qed.

(** *** One turn *)

Lemma take_more {A} (o c n : nat) (data : list A) : (n <= length (take c (drop o data)))%nat ->
  take o data ++ take n (take c (drop o data)) = take (o + n) data /\ (n <= length data - o)%nat.
Proof.
  rewrite length_take, length_drop. intros Hn. split; [|lia].
  rewrite take_take, Nat.min_l by lia. by rewrite take_take_drop.
Qed.

Lemma send_turn_in_use h i fd closed base data deadline w o w' o' t :
  in_use h i fd closed (base ++ take o data) w -> (o <= length data)%nat ->
  send_turn i data deadline (w, o) = ((w', o'), t) ->
  exists closed', in_use h i fd closed' (base ++ take o' data) w' /\ (o' <= length data)%nat /\
    (t = Finish (Ok tt) -> o' = length data).
Proof.
  intros Hw Ho. unfold send_turn. destruct (Nat.ltb_spec o (length data)) as [Hlt|Hge]; cbn [negb].
  2: { intros [= <- <- <-]. exists closed. split_and!; try done. intros _. lia. }
  destruct (load_closed i w) as [w1 b] eqn:E1.
  apply (load_closed_in_use h i fd closed (base ++ take o data)) in E1 as (Hw1 & _); [|done].
  destruct b; [intros [= <- <- <-]; eexists; by split_and!|].
  set (chunk := Z.to_nat _).
  destruct (syscall i _ w1) as [w2 r] eqn:E2.
  eapply syscall_in_use in E2 as (c & k & Ef & Hk & _ & Hw2 & _); [|intros k; apply send_keeps|done].
  apply send_accepts in Ef. destruct r as [n|e].
  - destruct Ef as [Hn Hout]. rewrite Hout, Hk, <- app_assoc in Hw2.
    destruct (take_more o chunk n data Hn) as [Et Hlen]. rewrite Et in Hw2.
    destruct n as [|n]; intros [= <- <- <-]; exists c.
    + rewrite Nat.add_0_r in Hw2. by split_and!.
    + split_and!; [done|lia|done].
  - rewrite Ef, Hk in Hw2.
    destruct (if would_block e then _ else _) as [w3 t3] eqn:E3. intros [= <- <- <-].
    assert (exists c', in_use h i fd c' (base ++ take o data) w3 /\ t3 <> Finish (Ok tt)) as (c' & H1 & H2).
    { destruct (would_block e).
      - eapply wait_ready_in_use in E3 as (c' & H1 & H2); [eauto|done].
      - eapply failed_call_in_use in E3 as (c' & H1 & ->); [|done]. exists c'. split; [done|]. by destruct c'. }
    exists c'. by split_and!.
Qed.

Lemma recv_turn_in_use h i fd closed out n deadline w w' t :
  in_use h i fd closed out w -> recv_turn i n deadline w = (w', t) ->
  exists closed', in_use h i fd closed' out w'.
Proof.
  intros Hw E. unfold recv_turn in E. destruct (load_closed i w) as [w1 b] eqn:E1.
  apply (load_closed_in_use h i fd closed out) in E1 as (Hw1 & _); [|done].
  destruct b; [injection E as <- _; eauto|].
  set (chunk := Z.to_nat _) in E.
  destruct (syscall i _ w1) as [w2 r] eqn:E2.
  eapply syscall_in_use in E2 as (c & k & Ef & Hk & _ & Hw2 & _); [|intros k; apply recv_keeps|done].
  pose proof (recv_out fd chunk k fd) as Hr. rewrite Ef, Hk in Hr. cbn in Hr. rewrite Hr in Hw2.
  destruct r as [bs|e]; [injection E as <- _; eauto|].
  destruct (would_block e).
  - eapply wait_ready_in_use in E as (c' & H1 & _); [eauto|done].
  - eapply failed_call_in_use in E as (c' & H1 & _); [eauto|done].
Qed.

(** A connection that was shut down ends the turn before any call. *)
Lemma closed_turns h i fd out w : in_use h i fd true out w ->
  (forall n deadline, exists w', recv_turn i n deadline w = (w', Finish shut_down_locally) /\
     nt_calls w' = nt_calls w) /\
  (forall data deadline o, (o < length data)%nat ->
     exists w', send_turn i data deadline (w, o) = ((w', o), Finish shut_down_locally) /\
       nt_calls w' = nt_calls w).
Proof.
  intros Hw. destruct (load_closed i w) as [w1 b] eqn:E1.
  pose proof (load_closed_in_use h i fd true out w w1 b Hw E1) as (_ & Hb & _ & Hc). rewrite Hb in E1 by done.
  split.
  - intros n deadline. exists w1. unfold recv_turn. by rewrite E1.
  - intros data deadline o Ho. exists w1. unfold send_turn.
    rewrite (proj2 (Nat.ltb_lt _ _)) by done. cbn [negb]. by rewrite E1.
Qed.
End calls.

(** ** Termination *)

Section termination.
Context {K : Type} `{!Kernel K} `{!MonotonicClock}.
Implicit Types (w : Net K) (i h : nat).

Lemma close_native_ticks fd w : nt_ticks (close_native fd w) = nt_ticks w.
Proof. unfold close_native. by destruct (_ =? _). Qed.

Lemma release_ticks o w : nt_ticks (release o w) = nt_ticks w.
Proof.
  destruct o as [i|]; [|done]. cbn [release]. destruct (unreferenced i w); [|done].
  destruct (nt_states w !! i); [|done]. cbn. apply close_native_ticks.
Qed.

Lemma run_op_ticks op w : nt_ticks (run_op op w) = nt_ticks w.
Proof.
  destruct op; cbn [run_op];
    unfold TcpConnection_shutdown, TcpConnection_close, copy, move, destroy, assign;
    repeat (case_match || case_bool_decide); cbn; rewrite ?release_ticks; done.
Qed.

Lemma yield_ticks w : nt_ticks (yield w) = nt_ticks w.
Proof.
  unfold yield; cbn. generalize (nt_others w (nt_turn w)). intros ops. revert w.
  induction ops as [|op ops IH]; intros w; cbn [foldl]; [done|]. by rewrite IH, run_op_ticks.
Qed.

Lemma syscall_ticks {A} i (f : Z -> K -> K * A) w : nt_ticks (syscall i f w).1 = nt_ticks w.
Proof.
  unfold syscall, load_socket. cbv zeta. destruct (f _ _) as [k a].
  change (nt_ticks (yield (yield w)) = nt_ticks w). by rewrite !yield_ticks.
Qed.

(** Going around a wait takes one reading of a clock that is before the
    deadline. *)
Lemma wait_ready_again {A} i b deadline late polled w w' :
  wait_ready (A:=A) i b deadline late polled w = (w', Again) ->
  nt_ticks w' = S (nt_ticks w) /\ monotonic_millis (nt_ticks w) < deadline.
Proof.
  unfold wait_ready, remaining_budget, read_clock. set (w1 := mkNet _ (S _) _ _ _ _ _).
  destruct (Z.leb_spec deadline (monotonic_millis (nt_ticks w))) as [Hle|Hlt]; [done|].
  rewrite (proj2 (Z.leb_gt _ _)) by lia.
  pose proof (syscall_ticks i (poll_socket b (Z.min (deadline - monotonic_millis (nt_ticks w)) 50)) w1) as Ht.
  destruct (syscall i _ w1) as [w2 [n|e]]; [intros [= <-]; done|].
  unfold failed_call. by destruct (load_closed i w2).
Qed.

Lemma failed_call_finishes {A} i e m w w' : failed_call (A:=A) i e m w <> (w', Again).
Proof. unfold failed_call. by destruct (load_closed i w). Qed.

Lemma recv_turn_again i n deadline w w' : recv_turn i n deadline w = (w', Again) ->
  nt_ticks w' = S (nt_ticks w) /\ monotonic_millis (nt_ticks w) < deadline.
Proof.
  unfold recv_turn, load_closed. cbv zeta. set (closed := match _ with Some _ => _ | None => _ end).
  destruct closed; [done|].
  set (f := fun fd : Z => _). pose proof (syscall_ticks i f (yield w)) as Ht.
  destruct (syscall i f (yield w)) as [w2 [bs|e]]; [done|]. cbn [fst] in Ht; rewrite yield_ticks in Ht.
  destruct (would_block e); [|intros H'; by apply failed_call_finishes in H'].
  intros H'. apply wait_ready_again in H'. by rewrite Ht in H'.
Qed.

Lemma send_turn_again i data deadline w o w' o' : send_turn i data deadline (w, o) = ((w', o'), Again) ->
  (o < length data)%nat /\
  ((o < o')%nat /\ nt_ticks w' = nt_ticks w \/
   o' = o /\ nt_ticks w' = S (nt_ticks w) /\ monotonic_millis (nt_ticks w) < deadline).
Proof.
  unfold send_turn, load_closed. cbv zeta.
  destruct (Nat.ltb_spec o (length data)) as [Hlt|Hge]; cbn [negb]; [|done].
  set (closed := match _ with Some _ => _ | None => _ end). destruct closed; [done|].
  set (f := fun fd : Z => _). pose proof (syscall_ticks i f (yield w)) as Ht.
  destruct (syscall i f (yield w)) as [w2 [[|n]|e]]; cbn [fst] in Ht; rewrite yield_ticks in Ht; [done| |].
  - intros [= <- <-]. split; [done|]. left. split; [lia|done].
  - destruct (if would_block e then _ else _) as [w3 t3] eqn:E3. intros [= <- <- ->]. split; [done|]. right.
    destruct (would_block e); [|by apply failed_call_finishes in E3].
    apply wait_ready_again in E3. by rewrite Ht in E3.
Qed.

Lemma connect_turn_again socket deadline w w' : connect_turn socket deadline w = (w', Again) ->
  nt_ticks w' = S (nt_ticks w) /\ monotonic_millis (nt_ticks w) < deadline.
Proof.
  unfold connect_turn, remaining_budget, read_clock, call.
  destruct (Z.leb_spec deadline (monotonic_millis (nt_ticks w))) as [Hle|Hlt]; [done|].
  rewrite (proj2 (Z.leb_gt _ _)) by lia. cbv zeta.
  destruct (poll_socket _ _ _ _) as [k [[|n]|e]]; [intros [= <-]; done| |done].
  destruct (sys_so_error _ _) as [k' [[e|]|e]]; done.
Qed.

Implicit Types l : ListenerWorld K.

Lemma listener_yield_ticks l : nt_ticks (lw_net (listener_yield l)) = nt_ticks (lw_net l).
Proof.
  unfold listener_yield. rewrite <- (yield_ticks (lw_net l)). generalize (yield (lw_net l)). intros w.
  destruct (lw_closer l (lw_turn l)); [|done]. unfold TcpListener_close.
  destruct (tl_state (lw_listener l)) as [s|]; [|done]. destruct (_ =? _); [done|]. cbn.
  by rewrite close_native_ticks.
Qed.

Lemma listener_call_ticks {A} (f : Z -> K -> K * A) l :
  nt_ticks (lw_net (listener_call f l).1) = nt_ticks (lw_net l).
Proof.
  unfold listener_call. cbv zeta. destruct (f _ _) as [k a].
  change (nt_ticks (lw_net (listener_yield (listener_yield l))) = nt_ticks (lw_net l)).
  by rewrite !listener_yield_ticks.
Qed.

Lemma closed_or_finishes {A} (r : Result A) l l' : closed_or r l <> (l', Again).
Proof. unfold closed_or. by destruct (listener_closed l). Qed.

Lemma accept_turn_again h deadline l l' : accept_turn h deadline l = (l', Again) ->
  nt_ticks (lw_net l') = S (nt_ticks (lw_net l)) /\ monotonic_millis (nt_ticks (lw_net l)) < deadline.
Proof.
  unfold accept_turn, listener_closed. cbv zeta. destruct (st_closed _); [done|].
  pose proof (listener_call_ticks sys_accept (listener_yield l)) as Ht.
  destruct (listener_call sys_accept (listener_yield l)) as [l1 [[fd a]|e]].
  { by destruct (TcpConnection_adopt _ _ _ _) as [w1 [[]|e]]. }
  cbn [fst] in Ht. rewrite listener_yield_ticks in Ht.
  destruct (would_block e); cbn [negb]; [|intros E; by apply closed_or_finishes in E].
  unfold remaining_budget, read_clock. set (w1 := mkNet _ (S _) _ _ _ _ _).
  destruct (Z.leb_spec deadline (monotonic_millis (nt_ticks (lw_net l1)))) as [Hle|Hlt].
  { intros E. by apply closed_or_finishes in E. }
  rewrite (proj2 (Z.leb_gt _ _)) by lia.
  pose proof (listener_call_ticks (poll_socket true (Z.min (deadline - monotonic_millis (nt_ticks (lw_net l1))) 50))
    (set_net w1 l1)) as Ht2.
  destruct (listener_call _ (set_net w1 l1)) as [l2 [n|e2]]; [|intros E; by apply closed_or_finishes in E].
  intros [= <-]. cbn [fst set_net lw_net] in Ht2. rewrite Ht2, <- Ht. cbn. done.
Qed.

(** *** Within the budget *)

Context `{!ClockLaws}.

(** A clock before the deadline has readings to go. *)
Lemma before_deadline n deadline : monotonic_millis n < deadline -> (n < reading_at deadline)%nat.
Proof.
  intros Hn. destruct (Nat.lt_ge_cases n (reading_at deadline)) as [|Hge]; [done|].
  pose proof (clock_monotonic _ _ Hge). pose proof (clock_advances deadline). lia.
Qed.

(** A loop that reads the clock on every turn it goes around returns. *)
Lemma patient_loop_returns {X A} (turn : X -> X * Turn A) (ticks : X -> nat) deadline :
  (forall x x', turn x = (x', Again) -> ticks x' = S (ticks x) /\ monotonic_millis (ticks x) < deadline) ->
  forall x fuel, (reading_at deadline - ticks x < fuel)%nat -> exists x' r, spin turn fuel x = (x', Some r).
Proof.
  intros Hturn x fuel Hf.
  apply (spin_total turn (fun x => reading_at deadline - ticks x)%nat (fun _ => True)); [|done|done].
  intros x1 x2 _ E. destruct (Hturn x1 x2 E) as [Ht Hd]. apply before_deadline in Hd. rewrite Ht. split; [done|lia].
Qed.

Lemma send_loop_returns i data deadline w o fuel : (o <= length data)%nat ->
  (length data - o + patience deadline w < fuel)%nat ->
  exists x' r, spin (send_turn i data deadline) fuel (w, o) = (x', Some r).
Proof.
  intros Ho Hf.
  apply (spin_total (send_turn i data deadline)
           (fun x => length data - x.2 + patience deadline x.1)%nat (fun _ => True)); [|done|done].
  intros [w1 o1] [w2 o2] _ E. apply send_turn_again in E as (Hlt & [[H1 H2]|(H1 & H2 & H3)]); cbn [fst snd].
  - split; [done|]. unfold patience. rewrite H2. lia.
  - split; [done|]. apply before_deadline in H3. unfold patience. rewrite H2, H1. lia.
Qed.
End termination.

(** ** Opening and leaking *)

Section leaks.
Context {K : Type} `{!Kernel K, !KernelLaws K} `{!MonotonicClock, !ClockLaws}.
Implicit Types (w : Net K) (i h : nat) (D : gset Z).

(** [w'] differs from [w] in the system only, where the descriptors [D] are open. *)
Definition opened D w w' : Prop :=
  nt_handles w' = nt_handles w /\ nt_states w' = nt_states w /\ k_open (nt_kernel w') = D.

Lemma opened_call {A} (f : K -> K * A) D w w1 w2 a :
  opened D w w1 -> (forall k, k_open (f k).1 = k_open k) -> call f w1 = (w2, a) -> opened D w w2.
Proof.
  intros (H1 & H2 & H3) Hf. unfold call. pose proof (Hf (nt_kernel w1)) as Hk.
  destruct (f (nt_kernel w1)) as [k b]. intros [= <- <-]. split_and!; [done|done|]. cbn in *. by rewrite Hk.
Qed.

Lemma opened_effect (f : K -> K) D w w1 :
  opened D w w1 -> (forall k, k_open (f k) = k_open k) -> opened D w (effect f w1).
Proof. intros (H1 & H2 & H3) Hf. split_and!; [done|done|]. cbn. by rewrite Hf. Qed.

Lemma opened_close fd D w w1 : 0 <= fd -> fd ∉ D ->
  opened ({[fd]} ∪ D) w w1 -> opened D w (close_native fd w1).
Proof.
  intros Hfd HD (H1 & H2 & H3). unfold close_native.
  rewrite (proj2 (Z.eqb_neq _ _)) by (unfold kInvalidNativeSocket; lia).
  split_and!; [done|done|]. cbn. rewrite close_closes, H3. set_solver.
Qed.

Lemma resolve_opened host port passive w w' r :
  resolve host port passive w = (w', r) -> opened (k_open (nt_kernel w)) w w'.
Proof.
  unfold resolve. case_bool_decide; [intros [= <- _]; done|].
  destruct (call _ w) as [w1 o] eqn:E.
  eapply (opened_call _ (k_open (nt_kernel w)) w w) in E; [|done|intros k; apply getaddrinfo_keeps].
  destruct o as [[a n]|]; by intros [= <- _].
Qed.

Lemma connect_turn_opened fd deadline D w w1 w2 t : 0 <= fd -> fd ∉ D ->
  opened ({[fd]} ∪ D) w w1 -> connect_turn fd deadline w1 = (w2, t) ->
  match t with Finish (Err _) => opened D w w2 | _ => opened ({[fd]} ∪ D) w w2 end.
Proof.
  intros Hfd HD Hw. unfold connect_turn, remaining_budget, read_clock.
  set (w1' := mkNet _ (S _) _ _ _ _ _). assert (opened ({[fd]} ∪ D) w w1') as Hw' by exact Hw.
  destruct (_ <=? 0); [intros [= <- <-]; by apply opened_close|].
  destruct (call (poll_socket _ _ _) w1') as [w3 r] eqn:E3.
  eapply opened_call in E3; [|exact Hw'|intros k; apply poll_socket_spec].
  destruct r as [[|n]|e]; [by intros [= <- <-]| |intros [= <- <-]; by apply opened_close].
  destruct (call (sys_so_error fd) w3) as [w4 r] eqn:E4.
  eapply opened_call in E4; [|exact E3|intros k; apply so_error_keeps].
  destruct r as [[e|]|e]; intros [= <- <-]; [by apply opened_close|done|by apply opened_close].
Qed.

Lemma establish_opened fd a budget D w w1 w2 r : 0 <= fd -> fd ∉ D ->
  opened ({[fd]} ∪ D) w w1 -> establish fd a budget w1 = (w2, r) ->
  opened (if is_ok r then {[fd]} ∪ D else D) w w2.
Proof.
  intros Hfd HD Hw. unfold establish, read_clock. set (w1' := mkNet _ (S _) _ _ _ _ _).
  assert (opened ({[fd]} ∪ D) w w1') as Hw' by exact Hw.
  destruct (call (sys_connect fd a) w1') as [w3 c] eqn:E3.
  eapply opened_call in E3; [|exact Hw'|intros k; apply connect_keeps].
  destruct c as [u|e]; [by intros [= <- <-]|].
  destruct (would_block e); cbn [negb]; [|intros [= <- <-]; by apply opened_close].
  unfold loop. set (deadline := _ + budget).
  destruct (patient_loop_returns (connect_turn fd deadline) nt_ticks deadline
    (connect_turn_again fd deadline) w3 (S (patience deadline w3)) ltac:(unfold patience; lia)) as (x & r' & Es).
  rewrite Es. intros [= <- <-]. revert Es.
  apply (spin_ind _ (fun x => opened ({[fd]} ∪ D) w x) (fun x r => opened (if is_ok r then {[fd]} ∪ D else D) w x));
    [| |done].
  - intros x1 x2 r1 Hx E. eapply connect_turn_opened in E; [|done|exact HD|exact Hx]. by destruct r1.
  - intros x1 x2 Hx E. by eapply connect_turn_opened in E; [|done|exact HD|exact Hx].
Qed.

(** A new descriptor given to a new connection object. *)
Lemma new_connection_ok h fd peer local w w1 :
  net_ok w -> 0 <= fd -> fd ∉ k_open (nt_kernel w) -> holds w h = None ->
  opened ({[fd]} ∪ k_open (nt_kernel w)) w w1 ->
  let w2 := new_connection h fd peer local w1 in
  exists i, holding h i fd false w2 /\ nt_kernel w2 = nt_kernel w1 /\ nt_states w !! i = None.
Proof.
  intros [H1 H2 H3 H4] Hfd Hfr Hh (E1 & E2 & E3) w2.
  set (i := fresh (dom (nt_states w))).
  assert (Hi : nt_states w !! i = None) by (apply not_elem_of_dom, is_fresh).
  set (ws := set_states (<[i := mkState fd false]> (nt_states w)) w1).
  assert (w2 = assign h (mkTcp (Some i) peer local) ws) as -> by (unfold w2, new_connection; by rewrite E2).
  assert (Hd : forall h', holds ws h' = holds w h') by (intros h'; unfold holds; cbn; by rewrite E1).
  assert (Hok : net_ok_but (Some i) ws).
  { split; cbn.
    - intros j s. destruct (decide (i = j)) as [<-|Hn]; [by left|]. rewrite lookup_insert_ne by done.
      intros Hj. right. destruct (H1 j s Hj) as [h' Hh']. exists h'. by rewrite Hd.
    - intros h' j. rewrite Hd. intros Hj. apply lookup_insert_is_Some.
      destruct (decide (i = j)); [by left|right]. split; [done|by apply (H2 h')].
    - intros j s. destruct (decide (i = j)) as [<-|Hn].
      + rewrite lookup_insert_eq. intros [= <-]. split; [done|]. cbn. rewrite E3. set_solver.
      + rewrite lookup_insert_ne by done. intros Hj. destruct (H3 j s Hj). split; [done|]. rewrite E3. set_solver.
    - intros j1 j2 s1 s2. destruct (decide (i = j1)) as [<-|Hn1]; destruct (decide (i = j2)) as [<-|Hn2]; try done;
        rewrite ?lookup_insert_eq, ?lookup_insert_ne by done.
      + intros [= <-] Hj E. destruct (H3 j2 s2 Hj). cbn in E. congruence.
      + intros Hj [= <-] E. destruct (H3 j1 s1 Hj). cbn in E. congruence.
      + apply H4. }
  exists i. unfold assign. rewrite Hd, Hh. cbn [release]. split_and!; [split_and!| |]; try done.
  - apply (release_ok None). change None with (@None nat). rewrite <- Hh, <- (Hd h).
    apply assign_but; [done|]. cbn. intros j [= <-]. rewrite lookup_insert_eq. done.
  - rewrite holds_insert. by rewrite decide_True.
  - cbn. by rewrite lookup_insert_eq.
Qed.

Lemma connect_outcome h address budget w w' r :
  net_ok w -> holds w h = None -> TcpConnection_connect h address budget w = (w', r) ->
  match r with
  | Err _ => net_ok w' /\ opened (k_open (nt_kernel w)) w w'
  | Ok _ => exists i fd, holding h i fd false w' /\ (fd ∉ k_open (nt_kernel w)) /\
              k_open (nt_kernel w') = {[fd]} ∪ k_open (nt_kernel w)
  end.
Proof.
  intros Hok Hh. assert (Herr : forall w1 : Net K, opened (k_open (nt_kernel w)) w w1 ->
    net_ok w1 /\ opened (k_open (nt_kernel w)) w w1) by (intros w1 H1; split; [by apply (same_owners_ok w)|done]).
  unfold TcpConnection_connect. destruct (sa_port address =? 0); [intros [= <- <-]; by apply Herr|].
  cbn [ensure_socket_runtime].
  destruct (resolve _ _ _ w) as [w1 rs] eqn:E1. apply resolve_opened in E1.
  destruct rs as [a|e]; [|intros [= <- <-]; by apply Herr].
  unfold call at 1. destruct (sys_socket a (nt_kernel w1)) as [k [fd|e]] eqn:E2; pose proof E1 as (F1 & F2 & F3).
  2: { intros [= <- <-]. apply Herr. split_and!; [done|done|]. cbn.
       apply socket_refused in E2. by rewrite E2. }
  apply socket_opens in E2 as (Hfd & Hfr & Hop). rewrite F3 in Hfr, Hop.
  set (w2 := set_non_blocking _ _).
  assert (opened ({[fd]} ∪ k_open (nt_kernel w)) w w2) as Hw2
    by (apply opened_effect; [by split_and!|intros k'; apply nonblocking_keeps]).
  destruct (establish fd a budget w2) as [w3 re] eqn:E3.
  eapply establish_opened in E3; [|done|exact Hfr|exact Hw2].
  destruct re as [[]|e]; cbn [is_ok] in E3; [|intros [= <- <-]; by apply Herr].
  destruct (call (sys_getsockname fd) _) as [w4 name] eqn:E4.
  eapply opened_call in E4; [|by apply (opened_effect _ _ _ _ E3); intros k'; apply setsockopt_keeps
                             |intros k'; apply getsockname_keeps].
  intros [= <- <-].
  edestruct (new_connection_ok h fd address) as (i & H1 & H2 & H3); [exact Hok|done|exact Hfr|done|exact E4|].
  exists i, fd. split_and!; [exact H1|done|]. rewrite H2. apply E4.
Qed.
End leaks.

(** ** Connections for framed streams *)

(** The connection a [FrameStream] owns: a connection object that only this
    thread uses, with the stream's budget for every call. *)
Record TcpStream (K : Type) := mkTcpStream {
  ts_net : Net K;
  ts_handle : nat;
  ts_budget : Z }.
Arguments mkTcpStream {K}.
Arguments ts_net {K}.
Arguments ts_handle {K}.
Arguments ts_budget {K}.

Section stream.
Context {K : Type} `{!Kernel K} `{!MonotonicClock}.
Implicit Types (w : Net K) (i h : nat).

Definition alone w : Net K :=
  mkNet (nt_kernel w) (nt_ticks w) (nt_states w) (nt_handles w) (fun _ => []) (nt_turn w) (nt_calls w).

#[global] Instance tcp_connection : Connection (TcpStream K) := {
  receive_some s n :=
    let '(w, r) := TcpConnection_receive_some (ts_handle s) n (ts_budget s) (alone (ts_net s)) in
    (mkTcpStream w (ts_handle s) (ts_budget s), r);
  send_all s bs :=
    let '(w, r) := TcpConnection_send_all (ts_handle s) bs (ts_budget s) (alone (ts_net s)) in
    (mkTcpStream w (ts_handle s) (ts_budget s), r) }.

(** The same objects and states, and no other thread. *)
Definition steady w w' : Prop :=
  nt_states w' = nt_states w /\ nt_handles w' = nt_handles w /\ nt_others w' = fun _ => [].

Definition socket_of w i : Z :=
  match nt_states w !! i with Some s => st_socket s | None => kInvalidNativeSocket end.

Lemma steady_refl w : (nt_others w = fun _ => []) -> steady w w.
Proof. done. Qed.

Lemma steady_trans w w1 w2 : steady w w1 -> steady w1 w2 -> steady w w2.
Proof. intros (H1 & H2 & H3) (H4 & H5 & H6). split_and!; congruence. Qed.

Lemma steady_socket w w' i : steady w w' -> socket_of w' i = socket_of w i.
Proof. intros (H1 & _). unfold socket_of. by rewrite H1. Qed.

Lemma yield_alone w : (nt_others w = fun _ => []) -> steady w (yield w) /\ nt_kernel (yield w) = nt_kernel w.
Proof. intros Hq. unfold yield, steady. rewrite Hq. done. Qed.

Lemma load_closed_alone i w w' b : (nt_others w = fun _ => []) -> load_closed i w = (w', b) ->
  steady w w' /\ nt_kernel w' = nt_kernel w.
Proof. intros Hq [= <- _]. by apply yield_alone. Qed.

Lemma syscall_alone {A} (f : Z -> K -> K * A) i w w' a : (nt_others w = fun _ => []) ->
  syscall i f w = (w', a) -> steady w w' /\ f (socket_of w i) (nt_kernel w) = (nt_kernel w', a).
Proof.
  intros Hq. unfold syscall, load_socket. cbv zeta.
  destruct (yield_alone w Hq) as [H1 K1].
  destruct (yield_alone (yield w)) as [H2 K2]; [by apply H1|].
  pose proof (steady_trans _ _ _ H1 H2) as H3. fold (socket_of (yield w) i).
  rewrite (steady_socket w (yield w) i H1), K2, K1.
  destruct (f (socket_of w i) (nt_kernel w)) as [k x]. intros [= <- <-]. split; [|done].
  destruct H3 as (E1 & E2 & E3). by split_and!.
Qed.

Lemma failed_call_alone {A} i e m w w' (t : Turn A) : (nt_others w = fun _ => []) ->
  failed_call i e m w = (w', t) -> steady w w' /\ nt_kernel w' = nt_kernel w /\ forall v, t <> Finish (Ok v).
Proof.
  intros Hq. unfold failed_call. destruct (load_closed i w) as [w1 b] eqn:E.
  apply load_closed_alone in E as [H1 H2]; [|done]. intros [= <- <-]. split_and!; [done|done|].
  intros v. by destruct b.
Qed.

Context `{!KernelLaws K}.

Lemma wait_ready_alone {A} i b deadline late polled w w' (t : Turn A) : (nt_others w = fun _ => []) ->
  wait_ready i b deadline late polled w = (w', t) ->
  steady w w' /\ (forall fd, k_in (nt_kernel w') fd = k_in (nt_kernel w) fd) /\
  (forall fd, k_out (nt_kernel w') fd = k_out (nt_kernel w) fd) /\ (forall v, t <> Finish (Ok v)).
Proof.
  intros Hq. unfold wait_ready, remaining_budget, read_clock. set (w1 := mkNet _ (S _) _ _ _ _ _).
  assert (steady w w1) as Hw1 by (by split_and!).
  destruct (_ <=? 0); [intros [= <- <-]; done|].
  set (slice := Z.min _ 50). destruct (syscall i _ w1) as [w2 r] eqn:E.
  apply syscall_alone in E as [H1 Ef]; [|done].
  pose proof (poll_socket_spec b slice (socket_of w1 i) (nt_kernel w1)) as (_ & Ho & Hi).
  rewrite Ef in Ho, Hi. cbn in Ho, Hi. pose proof (steady_trans _ _ _ Hw1 H1) as H2.
  destruct r as [n|e]; [intros [= <- <-]; by split_and!|].
  intros Hf. apply failed_call_alone in Hf as (H3 & H4 & H5); [|apply H1].
  split_and!; [by eapply steady_trans|by rewrite H4|by rewrite H4|done].
Qed.

Lemma recv_turn_alone i n deadline w w' t : (nt_others w = fun _ => []) -> (0 < n)%nat ->
  recv_turn i n deadline w = (w', t) ->
  steady w w' /\
  match t with
  | Finish (Ok bs) =>
      k_in (nt_kernel w) (socket_of w i) = bs ++ k_in (nt_kernel w') (socket_of w i) /\
      (length bs <= n)%nat /\ (bs = [] -> k_in (nt_kernel w) (socket_of w i) = [])
  | _ => k_in (nt_kernel w') (socket_of w i) = k_in (nt_kernel w) (socket_of w i)
  end.
Proof.
  intros Hq Hn. unfold recv_turn. destruct (load_closed i w) as [w1 b] eqn:E1.
  apply load_closed_alone in E1 as [H1 K1]; [|done].
  destruct b; [intros [= <- <-]; by rewrite K1|].
  set (chunk := Z.to_nat _). assert (0 < chunk <= n)%nat as Hc by (unfold chunk; lia).
  destruct (syscall i _ w1) as [w2 r] eqn:E2. apply syscall_alone in E2 as [H2 Ef]; [|apply H1].
  rewrite (steady_socket w w1 i H1), K1 in Ef. pose proof (steady_trans _ _ _ H1 H2) as H3.
  apply recv_delivers in Ef; [|lia]. destruct r as [bs|e].
  - intros [= <- <-]. destruct Ef as (F1 & F2 & F3). split_and!; try done. lia.
  - destruct (would_block e); intros E.
    + apply wait_ready_alone in E as (G1 & G2 & _ & G3); [|apply H2]. split; [by eapply steady_trans|].
      destruct t as [[v|s]|]; [by destruct (G3 v)|by rewrite G2|by rewrite G2].
    + apply failed_call_alone in E as (G1 & G2 & G3); [|apply H2]. split; [by eapply steady_trans|].
      destruct t as [[v|s]|]; [by destruct (G3 v)|by rewrite G2|by rewrite G2].
Qed.

Lemma send_turn_alone i data deadline w o w' o' t : (nt_others w = fun _ => []) -> (o <= length data)%nat ->
  send_turn i data deadline (w, o) = ((w', o'), t) ->
  steady w w' /\ (o' <= length data)%nat /\ (t = Finish (Ok tt) -> o' = length data) /\
  forall base, k_out (nt_kernel w) (socket_of w i) = base ++ take o data ->
    k_out (nt_kernel w') (socket_of w i) = base ++ take o' data.
Proof.
  intros Hq Ho. unfold send_turn. destruct (Nat.ltb_spec o (length data)) as [Hlt|Hge]; cbn [negb].
  2: { intros [= <- <- <-]. split_and!; try done. lia. }
  destruct (load_closed i w) as [w1 b] eqn:E1. apply load_closed_alone in E1 as [H1 K1]; [|done].
  destruct b; [intros [= <- <- <-]; by rewrite K1|].
  set (chunk := Z.to_nat _).
  destruct (syscall i _ w1) as [w2 r] eqn:E2. apply syscall_alone in E2 as [H2 Ef]; [|apply H1].
  rewrite (steady_socket w w1 i H1), K1 in Ef. pose proof (steady_trans _ _ _ H1 H2) as H3.
  apply send_accepts in Ef. destruct r as [n|e].
  - destruct Ef as [Hn Hout]. destruct (take_more o chunk n data Hn) as [Et Hlen].
    assert (forall base, k_out (nt_kernel w) (socket_of w i) = base ++ take o data ->
      k_out (nt_kernel w2) (socket_of w i) = base ++ take (o + n) data) as Hgo.
    { intros base Hb. by rewrite Hout, Hb, <- app_assoc, Et. }
    destruct n as [|n]; intros [= <- <- <-].
    + rewrite Nat.add_0_r in Hgo. by split_and!.
    + split_and!; [done|lia|done|done].
  - destruct (if would_block e then _ else _) as [w3 t3] eqn:E3. intros [= <- <- <-].
    assert (steady w2 w3 /\ (forall fd, k_out (nt_kernel w3) fd = k_out (nt_kernel w2) fd) /\
            forall v, t3 <> Finish (Ok v)) as (G1 & G2 & G3).
    { destruct (would_block e).
      - apply wait_ready_alone in E3 as (G1 & _ & G2 & G3); [done|apply H2].
      - apply failed_call_alone in E3 as (G1 & G2 & G3); [by rewrite G2|apply H2]. }
    split_and!; [by eapply steady_trans|done|intros ->; by destruct (G3 tt)|].
    intros base Hb. by rewrite G2, Ef.
Qed.

(** The descriptor of the stream. *)
Definition stream_socket (s : TcpStream K) : Z :=
  match holds (ts_net s) (ts_handle s) with Some i => socket_of (ts_net s) i | None => kInvalidNativeSocket end.

Lemma receive_alone h n budget w w' bs : (nt_others w = fun _ => []) -> (0 < n)%nat ->
  TcpConnection_receive_some h n budget w = (w', Ok bs) ->
  exists i, holds w h = Some i /\ steady w w' /\
    k_in (nt_kernel w) (socket_of w i) = bs ++ k_in (nt_kernel w') (socket_of w i) /\
    (length bs <= n)%nat /\ (bs = [] -> k_in (nt_kernel w) (socket_of w i) = []).
Proof.
  intros Hq Hn. unfold TcpConnection_receive_some. destruct (holds w h) as [i|]; [|done].
  rewrite (proj2 (Nat.eqb_neq _ _)) by lia. unfold read_clock. set (w1 := mkNet _ (S _) _ _ _ _ _).
  set (deadline := _ + budget). unfold loop.
  destruct (spin _ _ w1) as [x [r|]] eqn:Es; [|done]. intros [= <- ->]. exists i. split; [done|]. revert Es.
  apply (spin_Ok _ (fun x => steady w x /\ k_in (nt_kernel x) (socket_of w i) = k_in (nt_kernel w) (socket_of w i))
    (fun x bs => steady w x /\ k_in (nt_kernel w) (socket_of w i) = bs ++ k_in (nt_kernel x) (socket_of w i) /\
       (length bs <= n)%nat /\ (bs = [] -> k_in (nt_kernel w) (socket_of w i) = []))); [| |done].
  - intros x1 x2 b [Hst Hk] E. apply recv_turn_alone in E as [G1 G2]; [|apply Hst|done].
    rewrite (steady_socket w x1 i Hst), Hk in G2. split; [by eapply steady_trans|done].
  - intros x1 x2 [Hst Hk] E. apply recv_turn_alone in E as [G1 G2]; [|apply Hst|done].
    rewrite (steady_socket w x1 i Hst), Hk in G2. split; [by eapply steady_trans|done].
Qed.

Lemma send_alone h data budget w w' : (nt_others w = fun _ => []) ->
  TcpConnection_send_all h data budget w = (w', Ok tt) ->
  exists i, holds w h = Some i /\ steady w w' /\
    k_out (nt_kernel w') (socket_of w i) = k_out (nt_kernel w) (socket_of w i) ++ data.
Proof.
  intros Hq. unfold TcpConnection_send_all. destruct (holds w h) as [i|]; [|done].
  unfold read_clock. set (w1 := mkNet _ (S _) _ _ _ _ _). set (deadline := _ + budget). unfold loop.
  destruct (spin _ _ (w1, 0%nat)) as [[x o] [r|]] eqn:Es; [|done]. intros [= <- ->].
  exists i. split; [done|]. set (base := k_out (nt_kernel w) (socket_of w i)).
  change x with (x, o).1. generalize (x, o) Es. clear Es x o. intros y Es. revert Es.
  apply (spin_Ok _ (fun y => steady w y.1 /\ (y.2 <= length data)%nat /\
                     k_out (nt_kernel y.1) (socket_of w i) = base ++ take y.2 data)
    (fun y _ => steady w y.1 /\ k_out (nt_kernel y.1) (socket_of w i) = base ++ data)).
  - intros [x1 o1] [x2 o2] [] (Hst & Ho & Hk) E. cbn [fst snd] in *.
    apply send_turn_alone in E as (G1 & G2 & G3 & G4); [|apply Hst|done].
    rewrite (steady_socket w x1 i Hst) in G4. apply G4 in Hk. rewrite (G3 eq_refl), take_ge in Hk by done.
    split; [by eapply steady_trans|done].
  - intros [x1 o1] [x2 o2] (Hst & Ho & Hk) E. cbn [fst snd] in *.
    apply send_turn_alone in E as (G1 & G2 & G3 & G4); [|apply Hst|done].
    rewrite (steady_socket w x1 i Hst) in G4. split_and!; [by eapply steady_trans|done|by apply G4].
  - cbn. split_and!; [done|lia|]. by rewrite app_nil_r.
Qed.

(** A TCP connection keeps the promises the framed stream relies on. *)
#[global] Instance tcp_laws : ConnectionLaws (TcpStream K).
Proof.
  refine {| incoming s := k_in (nt_kernel (ts_net s)) (stream_socket s);
            outgoing s := k_out (nt_kernel (ts_net s)) (stream_socket s) |}.
  - intros [w h b] n c' bs Hn Hc. cbn [receive_some tcp_connection ts_net ts_handle ts_budget] in Hc.
    destruct (TcpConnection_receive_some h n b (alone w)) as [w' r] eqn:E. injection Hc as <- ->.
    apply receive_alone in E as (i & Hh & Hst & H1 & H2 & H3); [|done|done].
    unfold stream_socket. cbn [ts_net ts_handle].
    assert (holds w' h = Some i) as -> by (unfold holds; destruct Hst as (_ & -> & _); exact Hh).
    rewrite (steady_socket _ _ i Hst). change (holds w h) with (holds (alone w) h). rewrite Hh.
    by split_and!.
  - intros [w h b] bs c' Hc. cbn [send_all tcp_connection ts_net ts_handle ts_budget] in Hc.
    destruct (TcpConnection_send_all h bs b (alone w)) as [w' r] eqn:E. injection Hc as <- ->.
    apply send_alone in E as (i & Hh & Hst & H1); [|done].
    unfold stream_socket. cbn [ts_net ts_handle].
    assert (holds w' h = Some i) as -> by (unfold holds; destruct Hst as (_ & -> & _); exact Hh).
    rewrite (steady_socket _ _ i Hst). change (holds w h) with (holds (alone w) h). by rewrite Hh.
Defined.

Context `{!ClockLaws}.

(** With the clock going on, a call ends with bytes, or with an error and
    nothing lost. *)
Lemma receive_alone_total h n budget w w' r i : (nt_others w = fun _ => []) -> (0 < n)%nat ->
  holds w h = Some i -> TcpConnection_receive_some h n budget w = (w', r) ->
  steady w w' /\
  (forall e, r = Err e -> k_in (nt_kernel w') (socket_of w i) = k_in (nt_kernel w) (socket_of w i)).
Proof.
  intros Hq Hn Hh. unfold TcpConnection_receive_some. rewrite Hh.
  rewrite (proj2 (Nat.eqb_neq _ _)) by lia. unfold read_clock. set (w1 := mkNet _ (S _) _ _ _ _ _).
  set (deadline := _ + budget). unfold loop.
  destruct (patient_loop_returns (recv_turn i n deadline) nt_ticks deadline
    (recv_turn_again i n deadline) w1 (S (patience deadline w1)) ltac:(unfold patience; lia)) as (x & r' & Es).
  rewrite Es. intros [= <- <-]. revert Es.
  apply (spin_ind _ (fun x => steady w x /\ k_in (nt_kernel x) (socket_of w i) = k_in (nt_kernel w) (socket_of w i))
    (fun x r => steady w x /\ forall e, r = Err e ->
       k_in (nt_kernel x) (socket_of w i) = k_in (nt_kernel w) (socket_of w i))); [| |done].
  - intros x1 x2 r1 [Hst Hk] E. apply recv_turn_alone in E as [G1 G2]; [|apply Hst|done].
    rewrite (steady_socket w x1 i Hst), Hk in G2. split; [by eapply steady_trans|]. intros e ->. done.
  - intros x1 x2 [Hst Hk] E. apply recv_turn_alone in E as [G1 G2]; [|apply Hst|done].
    rewrite (steady_socket w x1 i Hst), Hk in G2. split; [by eapply steady_trans|done].
Qed.

Lemma send_alone_total h data budget w w' r i : (nt_others w = fun _ => []) ->
  holds w h = Some i -> TcpConnection_send_all h data budget w = (w', r) ->
  steady w w' /\ exists m, k_out (nt_kernel w') (socket_of w i) = k_out (nt_kernel w) (socket_of w i) ++ take m data.
Proof.
  intros Hq Hh. unfold TcpConnection_send_all. rewrite Hh.
  unfold read_clock. set (w1 := mkNet _ (S _) _ _ _ _ _). set (deadline := _ + budget). unfold loop.
  destruct (send_loop_returns i data deadline w1 0 (S (length data + patience deadline w1)) ltac:(lia) ltac:(lia))
    as ([x o] & r' & Es). rewrite Es. intros [= <- <-].
  set (base := k_out (nt_kernel w) (socket_of w i)).
  change x with (x, o).1. generalize (x, o) Es. clear Es x o. intros y Es. revert Es.
  apply (spin_ind _ (fun y => steady w y.1 /\ (y.2 <= length data)%nat /\
                     k_out (nt_kernel y.1) (socket_of w i) = base ++ take y.2 data)
    (fun y _ => steady w y.1 /\ exists m, k_out (nt_kernel y.1) (socket_of w i) = base ++ take m data)).
  - intros [x1 o1] [x2 o2] r1 (Hst & Ho & Hk) E. cbn [fst snd] in *.
    apply send_turn_alone in E as (G1 & G2 & G3 & G4); [|apply Hst|done].
    rewrite (steady_socket w x1 i Hst) in G4. split; [by eapply steady_trans|eauto].
  - intros [x1 o1] [x2 o2] (Hst & Ho & Hk) E. cbn [fst snd] in *.
    apply send_turn_alone in E as (G1 & G2 & G3 & G4); [|apply Hst|done].
    rewrite (steady_socket w x1 i Hst) in G4. split_and!; [by eapply steady_trans|done|by apply G4].
  - cbn. split_and!; [done|lia|]. by rewrite app_nil_r.
Qed.

Lemma steady_stream_socket w w' h b : steady (alone w) w' ->
  stream_socket (mkTcpStream w' h b) = stream_socket (mkTcpStream w h b).
Proof.
  intros Hst. unfold stream_socket. cbn [ts_net ts_handle].
  assert (holds w' h = holds w h) as -> by (unfold holds; by destruct Hst as (_ & -> & _)).
  destruct (holds w h) as [i|]; [|done]. apply (steady_socket _ _ i Hst).
Qed.
End stream.

(** ** A simulated system *)

(** [sim_in] are the segments to come on a descriptor, an empty one stands for
    a moment when nothing is there; [send] takes at most [S sim_room] bytes. *)
Record Sim := mkSim {
  sim_open : gset Z;
  sim_in : gmap Z (list bytes);
  sim_out : gmap Z bytes;
  sim_room : nat }.

(** A standard descriptor that is free, or one beyond those in use. *)
Definition sim_fresh (k : Sim) : Z :=
  match find (fun fd => bool_decide (fd ∉ sim_open k)) [0; 1; 2] with
  | Some fd => fd
  | None => Z.of_nat (fresh (set_map Z.to_nat (sim_open k) : gset nat))
  end.

Definition sim_opened (k : Sim) : Sim :=
  mkSim ({[sim_fresh k]} ∪ sim_open k) (sim_in k) (sim_out k) (sim_room k).

Definition sim_recv (fd : Z) (n : nat) (k : Sim) : Sim * Sys bytes :=
  let rest r := mkSim (sim_open k) (<[fd := r]> (sim_in k)) (sim_out k) (sim_room k) in
  match default [] (sim_in k !! fd) with
  | [] => (k, Done [])
  | [] :: r => (rest r, Failed EAGAIN)
  | seg :: r => if Nat.leb (length seg) n then (rest r, Done seg) else (rest (drop n seg :: r), Done (take n seg))
  end.

Definition sim_send (fd : Z) (bs : bytes) (k : Sim) : Sim * Sys nat :=
  let n := Nat.min (S (sim_room k)) (length bs) in
  (mkSim (sim_open k) (sim_in k) (<[fd := default [] (sim_out k !! fd) ++ take n bs]> (sim_out k)) (sim_room k), Done n).

#[local] Instance sim_kernel : Kernel Sim := {
  sys_getaddrinfo _ _ _ k := (k, Some (SaV4 [x7f; x00; x00; x01] 0, 16));
  sys_inet_ntop _ := lit "127.0.0.1";
  sys_socket _ k := (sim_opened k, Done (sim_fresh k));
  sys_connect _ _ k := (k, Done tt);
  sys_so_error _ k := (k, Done None);
  sys_bind _ _ k := (k, Done tt);
  sys_listen _ _ k := (k, Done tt);
  sys_accept _ k := (sim_opened k, Done (sim_fresh k, SaV4 [x7f; x00; x00; x01] 0));
  sys_getsockname _ k := (k, Done (SaV4 [x7f; x00; x00; x01] 0));
  sys_setsockopt _ _ _ k := k;
  sys_set_nonblocking _ k := k;
  sys_poll _ _ _ k := (k, Done 1%nat);
  sys_send := sim_send;
  sys_recv := sim_recv;
  sys_shutdown _ k := k;
  sys_close fd k := mkSim (sim_open k ∖ {[fd]}) (sim_in k) (sim_out k) (sim_room k) }.

Lemma sim_fresh_spec k : 0 <= sim_fresh k /\ sim_fresh k ∉ sim_open k.
Proof.
  unfold sim_fresh. destruct (find _ [0; 1; 2]) as [fd|] eqn:E.
  - apply find_some in E as [Hin Hd]. apply bool_decide_eq_true in Hd. split; [|done].
    repeat (destruct Hin as [<-|Hin]; [lia|]). done.
  - set (n := fresh _). split; [lia|]. intros Hin.
    apply (is_fresh (set_map Z.to_nat (sim_open k) : gset nat)). fold n.
    apply elem_of_map. exists (Z.of_nat n). by rewrite Nat2Z.id.
Qed.

Lemma sim_recv_spec fd n k k' r : (0 < n)%nat -> sim_recv fd n k = (k', r) ->
  let pending j := concat (default [] (sim_in j !! fd)) in
  match r with
  | Done bs => pending k = bs ++ pending k' /\ (length bs <= n)%nat /\ (bs = [] -> pending k = [])
  | Failed _ => pending k' = pending k
  end.
Proof.
  intros Hn. unfold sim_recv. cbv beta zeta. destruct (default [] (sim_in k !! fd)) as [|[|b seg] segs] eqn:E.
  - intros [= <- <-]. rewrite E. by split_and!; [|cbn; lia|].
  - intros [= <- <-]. cbn. by rewrite lookup_insert_eq.
  - destruct (Nat.leb_spec (length (b :: seg)) n) as [Hle|Hgt]; intros [= <- <-];
      cbn [sim_in]; rewrite lookup_insert_eq; cbn [default concat].
    + by split_and!.
    + split_and!; [|rewrite length_take; lia|].
      * transitivity ((take n (b :: seg) ++ drop n (b :: seg)) ++ concat segs); [by rewrite take_drop|by rewrite <- app_assoc].
      * intros Ht. apply (f_equal length) in Ht. rewrite length_take in Ht. cbn [length] in Ht. lia.
Qed.

#[local] Instance sim_laws : KernelLaws Sim.
Proof.
  refine {| k_open := sim_open; k_in k fd := concat (default [] (sim_in k !! fd));
            k_out k fd := default [] (sim_out k !! fd) |}; try done.
  - intros a k k' fd [= <- <-]. destruct (sim_fresh_spec k). done.
  - intros s k k' fd a [= <- <- <-]. destruct (sim_fresh_spec k). done.
  - intros fd n k. cbn. unfold sim_recv. by repeat case_match.
  - intros fd bs k k' r [= <- <-]. split; [exact (Nat.le_min_r (S (sim_room k)) (length bs))|]. cbn. by rewrite lookup_insert_eq.
  - intros fd' n k fd. cbn. unfold sim_recv. by repeat case_match.
  - intros fd n k k' r Hn. by apply sim_recv_spec.
Defined.

#[local] Instance sim_clock : MonotonicClock := {
  monotonic_millis n := Z.of_nat n;
  reading_at t := Z.to_nat t }.

#[local] Instance sim_clock_laws : ClockLaws.
Proof. split; cbn; lia. Qed.

(** ** The fate of a descriptor *)

Section fate.
Context {K : Type} `{!Kernel K, !KernelLaws K} `{!MonotonicClock}.
Implicit Types (w : Net K) (i h : nat).

(** The state [i] is there with its descriptor, or both are gone. *)
Definition fate i (fd : Z) w : Prop :=
  (exists closed, nt_states w !! i = Some (mkState fd closed)) \/
  (nt_states w !! i = None /\ fd ∉ k_open (nt_kernel w)).

Lemma release_fate o i fd w : net_ok_but o w -> fate i fd w -> fate i fd (release o w).
Proof.
  intros [H1 H2 H3 H4] Hf. destruct o as [j|]; cbn [release]; [|done].
  destruct (unreferenced j w); [|done]. destruct (nt_states w !! j) as [t|] eqn:Ej; [|done].
  destruct (H3 j t Ej) as [Hp _]. unfold close_native.
  rewrite (proj2 (Z.eqb_neq _ _)) by (unfold kInvalidNativeSocket; lia). unfold fate; cbn.
  rewrite close_closes. destruct Hf as [[c Hi]|[Hi Ho]].
  - destruct (decide (j = i)) as [->|Hn].
    + right. rewrite lookup_delete_eq. split; [done|]. rewrite Hi in Ej. injection Ej as <-. cbn. set_solver.
    + left. exists c. by rewrite lookup_delete_ne.
  - right. split; [by apply lookup_delete_None; right|]. set_solver.
Qed.

Lemma run_op_fate op i fd w : net_ok w -> fate i fd w -> fate i fd (run_op op w).
Proof.
  intros Hok Hf. destruct op as [h|h|src dst|src dst|h]; cbn [run_op].
  - destruct (shutdown_cases h w Hok) as [[_ ->]|(j & s & Ej & Es & ->)]; [done|].
    unfold fate; cbn. rewrite shutdown_keeps. destruct Hf as [[c Hi]|[Hi Ho]].
    + left. destruct (decide (j = i)) as [->|Hn].
      * rewrite lookup_insert_eq. rewrite Hi in Es. injection Es as <-. eauto.
      * rewrite lookup_insert_ne by done. eauto.
    + right. split; [|done]. rewrite lookup_insert_ne; [done|]. intros ->. congruence.
  - unfold TcpConnection_close. destruct (nt_handles w !! h); [|done].
    apply release_fate; [|done]. apply assign_but; [by apply net_ok_any|done].
  - unfold copy. destruct (nt_handles w !! src) as [c|] eqn:Ec; [|done].
    apply release_fate; [|done]. apply assign_but; [by apply net_ok_any|].
    intros j Hj. apply (ok_there w Hok src). unfold holds. by rewrite Ec.
  - unfold move. case_bool_decide; [done|].
    destruct (nt_handles w !! src) as [c|] eqn:Ec; [|done].
    apply release_fate; [by apply move_but|done].
  - apply release_fate; [by apply destroy_but|done].
Qed.

Lemma run_ops_fate ops i fd w : net_ok w -> fate i fd w ->
  let w' := foldl (fun w op => run_op op w) w ops in net_ok w' /\ fate i fd w'.
Proof.
  revert w. induction ops as [|op ops IH]; intros w Hok Hf; cbn [foldl]; [done|].
  apply IH; [by apply run_op_ok|by apply run_op_fate].
Qed.
End fate.

(** ** Properties *)

(** A host that [to_string] renders unambiguously. *)
Definition host_ok (host : bytes) : Prop :=
  existsb is_space host = false /\
  if contains x3a host then x5d ∉ host else head host <> Some x5b.

(** The address with the default host made explicit. *)
Definition explicit (a : SocketAddress) : SocketAddress :=
  mkAddress (if bool_decide (sa_host a = []) then lit "127.0.0.1" else sa_host a) (sa_port a).

Lemma numeral_no_space text : numeral text -> existsb is_space text = false.
Proof.
  induction 1 as [|c text Hc _ IH]; [done|]. cbn [existsb]. rewrite IH, orb_false_r.
  destruct c; done.
Qed.

Lemma rendered_denotes a : host_ok (sa_host a) -> in_u 16 (sa_port a) ->
  denotes (SocketAddress_to_string a) (explicit a).
Proof.
  intros [Hs Hh] Hp. destruct a as [host port]. cbn [sa_host sa_port] in *.
  destruct (to_string_decimal port) as (Hn & Hd & Hne); [unfold in_u in *; lia|].
  pose proof (numeral_no_space _ Hn) as Hns. unfold in_u in Hp.
  assert (x3a ∉ std_to_string port) as Hcol by (by apply numeral_excludes).
  unfold denotes, SocketAddress_to_string, explicit. cbn [sa_host sa_port].
  destruct (contains x3a host) eqn:Ec.
  - apply contains_true in Ec. rewrite bool_decide_eq_false_2 by (intros ->; by apply elem_of_nil in Ec).
    split.
    + rewrite !existsb_app, Hs, Hns. done.
    + exists (std_to_string port). split_and!; try done; [by apply (form_bracketed host)|lia].
  - apply contains_false in Ec. case_bool_decide as Eh.
    + split; [rewrite existsb_app, Hns; done|]. exists (std_to_string port). split_and!; try done; [|lia].
      apply (form_plain (lit "127.0.0.1")); [|done|done]. by vm_compute; set_solver.
    + split; [rewrite !existsb_app, Hs, Hns; done|]. exists (std_to_string port). split_and!; try done; [|lia].
      by apply (form_plain host).
Qed.

(** (roundtrip) [SocketAddress::parse] accepts exactly the texts
    [host:port] and [[host]:port] without white space whose port is a decimal
    number up to 65535, where a bare host has no colon and a bracketed one no
    closing bracket; every refusal is [ADDRESS_INVALID]; and an address whose
    host can be written is read back from [to_string], with the loopback for an
    empty host. *)
Theorem address_text_roundtrip (text : bytes) (a : SocketAddress) (e : Status) :
  (SocketAddress_parse text = Ok a <-> denotes text a) /\
  (SocketAddress_parse text = Err e -> st_code e = RC.ADDRESS_INVALID) /\
  (host_ok (sa_host a) -> in_u 16 (sa_port a) ->
     SocketAddress_parse (SocketAddress_to_string a) = Ok (explicit a)).
Proof.
  split_and!; [apply parse_denotes|apply parse_error|].
  intros Hh Hp. by apply parse_denotes, rendered_denotes.
Qed.

Lemma address_text_roundtrip_witness :
  SocketAddress_parse (SocketAddress_to_string (mkAddress (lit "fe80::1") 7000)) = Ok (mkAddress (lit "fe80::1") 7000).
Proof.
  apply (address_text_roundtrip [] (mkAddress (lit "fe80::1") 7000) (mkStatus RC.OK [])).
  - split; [reflexivity|]. change (x5d ∉ lit "fe80::1"). by apply contains_false.
  - unfold in_u; cbn; lia.
Defined.

(** (error) The parser accepts port zero and an empty bracketed host, which the
    declaration in transport.hpp says it rejects. *)
Theorem address_parse_exceeds_documentation (host : bytes) :
  x3a ∉ host -> head host <> Some x5b -> existsb is_space host = false ->
  SocketAddress_parse (host ++ lit ":0") = Ok (mkAddress host 0) /\
  SocketAddress_parse (lit "[]:80") = Ok (mkAddress [] 80).
Proof.
  intros Hc Hh Hs. split; [|reflexivity]. apply parse_denotes. split.
  - rewrite existsb_app, Hs. done.
  - exists (lit "0"). split_and!; [|done|by vm_compute; repeat constructor|done|done].
    apply (form_plain host (lit "0")); [done| |done]. apply not_elem_of_cons. split; [done|apply not_elem_of_nil].
Qed.

Lemma address_parse_exceeds_documentation_witness :
  SocketAddress_parse (lit "10.0.0.1:0") = Ok (mkAddress (lit "10.0.0.1") 0).
Proof.
  apply (address_parse_exceeds_documentation (lit "10.0.0.1")); [by apply contains_false|done|reflexivity].
Defined.

(** *** A process with two connections *)

Definition demo_kernel : Sim :=
  mkSim {[3; 4]} {[3 := [lit "he"; []; lit "llo"]]} ∅ 1.

Definition demo_handles : gmap nat TcpConnection :=
  {[1%nat := mkTcp (Some 1%nat) no_address no_address;
    2%nat := mkTcp (Some 1%nat) no_address no_address;
    3%nat := mkTcp (Some 2%nat) no_address no_address]}.

Definition demo_net (others : nat -> list HandleOp) : Net Sim :=
  mkNet demo_kernel 0 {[1%nat := mkState 3 false; 2%nat := mkState 4 false]} demo_handles others 0 [].

Lemma demo_states others i s : nt_states (demo_net others) !! i = Some s ->
  i = 1%nat /\ s = mkState 3 false \/ i = 2%nat /\ s = mkState 4 false.
Proof.
  cbn. intros [[<- <-]|[_ [<- <-]%lookup_singleton_Some]]%lookup_insert_Some; auto.
Qed.

Lemma demo_net_ok others : net_ok (demo_net others).
Proof.
  split.
  - intros i s [[-> ->]|[-> ->]]%demo_states; [by exists 1%nat|by exists 3%nat].
  - intros h i. unfold holds, demo_net, demo_handles; cbn.
    destruct (decide (h = 1)%nat) as [->|H1]; [intros [= <-]; eauto|].
    destruct (decide (h = 2)%nat) as [->|H2]; [intros [= <-]; eauto|].
    destruct (decide (h = 3)%nat) as [->|H3]; [intros [= <-]; eauto|].
    by rewrite !lookup_insert_ne, lookup_singleton_ne by done.
  - intros i s [[-> ->]|[-> ->]]%demo_states; cbn; (split; [lia|set_solver]).
  - intros i j s t [[-> ->]|[-> ->]]%demo_states [[-> ->]|[-> ->]]%demo_states; done.
Qed.

Lemma demo_in_use others : (forall n, Forall (spares 1) (others n)) ->
  in_use 1 1 3 false [] (demo_net others).
Proof.
  intros Ho. split_and!; [split_and!| | |]; [apply demo_net_ok|done|done|exact Ho|constructor|done].
Qed.

(** C24: (invariant) However the connection objects of the process are copied,
    moved, shut down, closed and destroyed, each live [State] keeps a descriptor
    of its own open, and the descriptor of a state is open exactly as long as
    some object holds the state: it is closed once, by the last holder, and
    never under one that remains. *)
Theorem descriptor_outlives_every_holder {K : Type} `{!Kernel K, !KernelLaws K, !MonotonicClock}
    (ops : list HandleOp) (w : Net K) (i : nat) (s : State) :
  net_ok w -> nt_states w !! i = Some s ->
  let w' := foldl (fun w op => run_op op w) w ops in
  net_ok w' /\ ((exists h, holds w' h = Some i) <-> st_socket s ∈ k_open (nt_kernel w')).
Proof.
  intros Hok Hi w'. destruct (run_ops_fate ops i (st_socket s) w Hok) as [Hok' Hf].
  { left. exists (st_closed s). by destruct s. }
  split; [exact Hok'|]. fold w' in Hok', Hf. destruct Hf as [[c Hc]|[Hn Ho]].
  - split; intros _; [by apply (ok_open w' Hok' i _ Hc)|by apply (ok_held w' Hok' i _ Hc)].
  - split; [|done]. intros [h Hh]. destruct (ok_there w' Hok' h i Hh). congruence.
Qed.

Lemma descriptor_outlives_every_holder_witness :
  let w := foldl (fun w op => run_op op w) (demo_net (fun _ => []))
             [OpCopy 2 3; OpClose 1; OpShutdown 2; OpMove 2 5; OpDestroy 3] in
  net_ok w /\ ((exists h, holds w h = Some 1%nat) <-> 3 ∈ k_open (nt_kernel w)).
Proof.
  exact (descriptor_outlives_every_holder [OpCopy 2 3; OpClose 1; OpShutdown 2; OpMove 2 5; OpDestroy 3]
           (demo_net (fun _ => [])) 1 (mkState 3 false) (demo_net_ok _) eq_refl).
Defined.

(** (safety) [connect] either gives the new connection object a new descriptor
    of its own, open, or fails and leaves no descriptor behind. *)
Theorem connect_leaks_no_descriptor {K : Type} `{!Kernel K, !KernelLaws K, !MonotonicClock, !ClockLaws}
    (h : nat) (address : SocketAddress) (budget : Z) (w w' : Net K) (r : Result unit) :
  net_ok w -> holds w h = None -> TcpConnection_connect h address budget w = (w', r) ->
  net_ok w' /\
  match r with
  | Err _ => TcpConnection_is_open h w' = false /\ k_open (nt_kernel w') = k_open (nt_kernel w)
  | Ok _ => TcpConnection_is_open h w' = true /\
      exists fd, (fd ∉ k_open (nt_kernel w)) /\ k_open (nt_kernel w') = ({[fd]} ∪ k_open (nt_kernel w))
  end.
Proof.
  intros Hok Hh Hc. apply connect_outcome in Hc; [|done|done]. destruct r as [[]|e].
  - destruct Hc as (i & fd & (Hok' & Hh' & Hi) & Hfr & Hop). split_and!; [done| |eauto].
    unfold TcpConnection_is_open. rewrite Hh'. cbn. rewrite Hi. cbn.
    destruct (ok_open w' Hok' i _ Hi) as [Hp _]. cbn in Hp.
    by rewrite (proj2 (Z.eqb_neq _ _)) by (unfold kInvalidNativeSocket; lia).
  - destruct Hc as (Hok' & E1 & E2 & E3). split_and!; [done| |done].
    unfold TcpConnection_is_open, holds in *. rewrite E1. by rewrite Hh.
Qed.

Lemma connect_leaks_no_descriptor_witness :
  let w' := (TcpConnection_connect 9 (mkAddress (lit "10.0.0.1") 7000) 100 (demo_net (fun _ => []))).1 in
  net_ok w' /\ TcpConnection_is_open 9 w' = true.
Proof.
  destruct (TcpConnection_connect 9 (mkAddress (lit "10.0.0.1") 7000) 100 (demo_net (fun _ => []))) as [w' r] eqn:E.
  destruct (connect_leaks_no_descriptor 9 (mkAddress (lit "10.0.0.1") 7000) 100 (demo_net (fun _ => [])) w' r
    (demo_net_ok _) eq_refl E) as [H1 H2].
  assert (is_ok r = true) as Hr by (change r with (w', r).2; rewrite <- E; vm_compute; reflexivity).
  destruct r as [[]|e]; [|done]. split; [exact H1|apply H2].
Defined.

(** C25: (termination) Every operation of the transport returns: whatever the
    system answers and other threads do, the loops of [send_all],
    [receive_some], [connect] and [accept] go around only while the monotonic
    clock is before the deadline (or, sending, while bytes are accepted), and
    end within the turns their fuel allows. *)
Theorem calls_return_within_budget {K : Type} `{!Kernel K, !MonotonicClock, !ClockLaws}
    (w : Net K) (l : ListenerWorld K) (deadline : Z) :
  (forall i data, exists x r,
     spin (send_turn i data deadline) (S (length data + patience deadline w)) (w, O) = (x, Some r)) /\
  (forall i n, exists x r, spin (recv_turn i n deadline) (S (patience deadline w)) w = (x, Some r)) /\
  (forall socket, exists x r, spin (connect_turn socket deadline) (S (patience deadline w)) w = (x, Some r)) /\
  (forall h, exists x r, spin (accept_turn h deadline) (S (patience deadline (lw_net l))) l = (x, Some r)).
Proof.
  split_and!.
  - intros i data. apply send_loop_returns; lia.
  - intros i n. apply (patient_loop_returns _ nt_ticks deadline (recv_turn_again i n deadline)). unfold patience; lia.
  - intros socket. apply (patient_loop_returns _ nt_ticks deadline (connect_turn_again socket deadline)).
    unfold patience; lia.
  - intros h. apply (patient_loop_returns _ (fun l => nt_ticks (lw_net l)) deadline (accept_turn_again h deadline)).
    unfold patience; lia.
Qed.

Lemma calls_return_within_budget_witness :
  exists x r, spin (recv_turn 1 4 10) (S (patience 10 (demo_net (fun _ => [])))) (demo_net (fun _ => [])) = (x, Some r).
Proof.
  apply (calls_return_within_budget (demo_net (fun _ => []))
    (mkListenerWorld (demo_net (fun _ => [])) (mkListener None no_address) (fun _ => false) 0) 10).
Defined.

(** (functional) [send_all] on a connection that other threads may copy, shut
    down or release their own references to: what reaches the connection is the
    data in order, all of it when the call reports success and a prefix
    otherwise, nothing else is sent on it meanwhile, and every system call of
    the loop is made on an open descriptor. *)
Theorem send_all_sends_data_or_a_prefix {K : Type}
    `{!Kernel K, !KernelLaws K, !MonotonicClock, !ClockLaws}
    (h i : nat) (fd : Z) (closed : bool) (sent data : bytes) (budget : Z) (w w' : Net K) (r : Result unit) :
  in_use h i fd closed sent w -> TcpConnection_send_all h data budget w = (w', r) ->
  exists m closed', in_use h i fd closed' (sent ++ take m data) w' /\ (m <= length data)%nat /\
    (r = Ok tt -> m = length data).
Proof.
  intros Hw. pose proof Hw as ((Hok & Hh & Hi) & Hu & Hs & Hk). unfold TcpConnection_send_all. rewrite Hh.
  unfold read_clock. set (w1 := mkNet _ (S _) _ _ _ _ _). set (deadline := _ + budget). unfold loop.
  destruct (send_loop_returns i data deadline w1 0 (S (length data + patience deadline w1)) ltac:(lia) ltac:(lia))
    as ([x o] & r' & Es). rewrite Es. intros [= <- <-]. revert Es.
  apply (spin_ind _ (fun y => (exists c, in_use h i fd c (sent ++ take y.2 data) y.1) /\ (y.2 <= length data)%nat)
    (fun y r => exists m c, in_use h i fd c (sent ++ take m data) y.1 /\ (m <= length data)%nat /\
       (r = Ok tt -> m = length data))).
  - intros [x1 o1] [x2 o2] r1 [[c Hc] Ho] E. cbn [fst snd] in *.
    eapply send_turn_in_use in E as (c' & H1 & H2 & H3); [|exact Hc|exact Ho].
    exists o2, c'. split_and!; [done|done|]. intros ->. by apply H3.
  - intros [x1 o1] [x2 o2] [[c Hc] Ho] E. cbn [fst snd] in *.
    eapply send_turn_in_use in E as (c' & H1 & H2 & H3); [|exact Hc|exact Ho]. eauto.
  - cbn. split; [|lia]. exists closed. rewrite app_nil_r. split_and!; try done. split_and!; try done.
    by apply (same_owners_ok w w1).
Qed.

Definition demo_others (n : nat) : list HandleOp :=
  match n with 2%nat => [OpCopy 2 7; OpClose 2] | 4%nat => [OpDestroy 3; OpShutdown 7] | _ => [] end.

Lemma demo_others_spare n : Forall (spares 1) (demo_others n).
Proof. do 5 (destruct n as [|n]; [by repeat constructor|]). by repeat constructor. Qed.

Lemma send_all_sends_data_or_a_prefix_witness :
  exists m closed', in_use 1 1 3 closed' ([] ++ take m (lit "abcde"))
    (TcpConnection_send_all 1 (lit "abcde") 5 (demo_net demo_others)).1 /\ (m <= 5)%nat.
Proof.
  destruct (TcpConnection_send_all 1 (lit "abcde") 5 (demo_net demo_others)) as [w' r] eqn:E.
  destruct (send_all_sends_data_or_a_prefix 1 1 3 false [] (lit "abcde") 5 (demo_net demo_others) w' r
    (demo_in_use _ demo_others_spare) E) as (m & c & H1 & H2 & _).
  exists m, c. split; [exact H1|exact H2].
Defined.

(** (liveness) A shutdown through any object that shares the connection marks
    it closed for all of them and keeps its descriptor open, and then a thread
    inside [receive_some] or [send_all], at whatever point of its loop, returns
    [CONNECTION_CLOSED] by its next turn, without another system call. *)
Theorem shutdown_releases_every_user {K : Type} `{!Kernel K, !KernelLaws K, !MonotonicClock}
    (h h' i : nat) (fd : Z) (closed : bool) (sent : bytes) (w : Net K) :
  in_use h i fd closed sent w -> holds w h' = Some i ->
  exists w', TcpConnection_shutdown h' w = (w', Ok tt) /\ in_use h i fd true sent w' /\
    TcpConnection_is_open h w' = false /\ fd ∈ k_open (nt_kernel w') /\
    (forall n deadline fuel, exists w'', spin (recv_turn i n deadline) (S fuel) w' = (w'', Some shut_down_locally) /\
       nt_calls w'' = nt_calls w') /\
    (forall data deadline o fuel, (o < length data)%nat -> exists w'',
       spin (send_turn i data deadline) (S fuel) (w', o) = ((w'', o), Some shut_down_locally) /\
       nt_calls w'' = nt_calls w').
Proof.
  intros Hw Hh'. pose proof Hw as ((Hok & Hh & Hi) & Hu & Hs & Hk).
  destruct (shutdown_cases h' w Hok) as [[E _]|(j & s & Ej & Es & E)]; [congruence|].
  assert (j = i) as -> by congruence. assert (s = mkState fd closed) as -> by congruence.
  assert (Hc : carries h i fd closed w (TcpConnection_shutdown h' w).1) by (by apply shutdown_carries).
  destruct (carries_in_use _ _ _ _ _ _ _ Hw Hc) as (c & Hw' & _). rewrite E in Hw'. cbn [fst] in Hw'.
  set (w' := effect _ _) in *. exists w'.
  assert (nt_states w' !! i = Some (mkState fd true)) as Hst by (cbn; by rewrite lookup_insert_eq).
  assert (c = true) as ->. { destruct Hw' as ((_ & _ & Hi') & _). congruence. }
  destruct (closed_turns h i fd sent w' Hw') as [Hr Hsd]. pose proof Hw' as ((Hok' & Hh2 & _) & _).
  split_and!; [done|done| |by apply (ok_open w' Hok' i _ Hst)| |].
  - unfold TcpConnection_is_open. rewrite Hh2. cbn -[w']. by rewrite Hst.
  - intros n deadline fuel. destruct (Hr n deadline) as (w'' & E1 & E2). exists w''. cbn [spin]. by rewrite E1.
  - intros data deadline o fuel Ho. destruct (Hsd data deadline o Ho) as (w'' & E1 & E2). exists w''.
    cbn [spin]. by rewrite E1.
Qed.

Lemma shutdown_releases_every_user_witness :
  exists w', TcpConnection_shutdown 2 (demo_net (fun _ => [])) = (w', Ok tt) /\ TcpConnection_is_open 1 w' = false.
Proof.
  destruct (shutdown_releases_every_user 1 2 1 3 false [] (demo_net (fun _ => []))) as (w' & H1 & _ & H2 & _).
  - apply demo_in_use. intros n. constructor.
  - reflexivity.
  - eauto.
Defined.

(** C26: (refinement) A TCP connection used by one thread implements the byte stream
    that the framing layer is verified against: a read returns the next bytes of
    the stream, at most as many as asked for, and none only at its end; a read
    that fails or times out consumes nothing; a write appends its data, and one
    that fails a prefix of it. *)
Theorem tcp_connection_is_a_byte_stream {K : Type} `{!Kernel K, !KernelLaws K, !MonotonicClock, !ClockLaws}
    (s s' : TcpStream K) :
  (forall n r, (0 < n)%nat -> receive_some s n = (s', r) ->
     match r with
     | Ok bs => incoming s = bs ++ incoming s' /\ (length bs <= n)%nat /\ (bs = [] -> incoming s = [])
     | Err _ => incoming s' = incoming s
     end) /\
  (forall data r, send_all s data = (s', r) ->
     match r with
     | Ok _ => outgoing s' = outgoing s ++ data
     | Err _ => exists m, outgoing s' = outgoing s ++ take m data
     end).
Proof.
  split.
  - intros n [bs|e] Hn E; [by apply receive_ordered|]. destruct s as [w h b].
    cbn [receive_some tcp_connection ts_net ts_handle ts_budget] in E.
    destruct (TcpConnection_receive_some h n b (alone w)) as [w' r] eqn:Er. injection E as <- ->.
    destruct (holds w h) as [i|] eqn:Eh.
    + eapply receive_alone_total in Er as [Hst Hk]; [|done|exact Hn|exact Eh].
      cbn [incoming tcp_laws ts_net]. rewrite (steady_stream_socket w w' h b Hst).
      unfold stream_socket. cbn [ts_net ts_handle]. rewrite Eh. by apply (Hk e).
    + unfold TcpConnection_receive_some in Er. change (holds (alone w) h) with (holds w h) in Er. rewrite Eh in Er.
      injection Er as <- _. done.
  - intros data [[]|e] E; [by apply send_ordered|]. destruct s as [w h b].
    cbn [send_all tcp_connection ts_net ts_handle ts_budget] in E.
    destruct (TcpConnection_send_all h data b (alone w)) as [w' r] eqn:Er. injection E as <- ->.
    destruct (holds w h) as [i|] eqn:Eh.
    + eapply send_alone_total in Er as [Hst [m Hk]]; [|done|exact Eh]. exists m.
      cbn [outgoing tcp_laws ts_net]. rewrite (steady_stream_socket w w' h b Hst).
      unfold stream_socket. cbn [ts_net ts_handle]. rewrite Eh. exact Hk.
    + unfold TcpConnection_send_all in Er. change (holds (alone w) h) with (holds w h) in Er. rewrite Eh in Er.
      injection Er as <- _. exists O. by rewrite app_nil_r.
Qed.

Lemma tcp_connection_is_a_byte_stream_witness :
  let s := mkTcpStream (demo_net (fun _ => [])) 1 5 in
  incoming s = lit "hello" /\
  let '(s', r) := receive_some s 4 in
  match r with Ok bs => incoming s = bs ++ incoming s' | Err _ => incoming s' = incoming s end.
Proof.
  cbv zeta. split; [reflexivity|].
  destruct (receive_some (mkTcpStream (demo_net (fun _ => [])) 1 5) 4) as [s' r] eqn:E.
  destruct (tcp_connection_is_a_byte_stream (mkTcpStream (demo_net (fun _ => [])) 1 5) s') as [H _].
  apply H in E; [|lia]. destruct r; [apply E|exact E].
Defined.

(** (error) [TcpListener::close] closes the descriptor itself, so a thread in
    [accept] that has loaded the descriptor makes its system call on one that is
    no longer open (and may already be another file). *)
Theorem closing_listener_races_accept {K A : Type} `{!Kernel K, !KernelLaws K, !MonotonicClock}
    (f : Z -> K -> K * A) (l : ListenerWorld K) (fd : Z) (address : SocketAddress) :
  lw_listener l = mkListener (Some (mkState fd false)) address -> 0 <= fd ->
  (forall n, nt_others (lw_net l) n = []) ->
  lw_closer l (lw_turn l) = false -> lw_closer l (S (lw_turn l)) = true ->
  exists k, nt_calls (lw_net (listener_call f l).1) = (fd, k) :: nt_calls (lw_net l) /\ fd ∉ k_open k.
Proof.
  intros Hl Hfd Hq H0 H1. unfold listener_call. cbv zeta.
  assert (listener_yield l = mkListenerWorld (yield (lw_net l)) (lw_listener l) (lw_closer l) (S (lw_turn l))) as ->
    by (unfold listener_yield; by rewrite H0).
  set (l1 := mkListenerWorld _ _ _ _). unfold listener_yield. cbn [lw_net lw_listener lw_closer lw_turn l1].
  rewrite H1. unfold TcpListener_close, listener_state. cbn [lw_listener l1]. rewrite Hl. cbn [tl_state st_socket].
  rewrite (proj2 (Z.eqb_neq _ _)) by (unfold kInvalidNativeSocket; lia). cbn [fst lw_net].
  unfold close_native. rewrite (proj2 (Z.eqb_neq _ _)) by (unfold kInvalidNativeSocket; lia).
  destruct (f fd _) as [k a]. cbn. repeat (rewrite Hq; cbn). eexists. split; [reflexivity|].
  rewrite close_closes. set_solver.
Qed.

Definition demo_listener : ListenerWorld Sim :=
  mkListenerWorld (demo_net (fun _ => [])) (mkListener (Some (mkState 4 false)) no_address)
    (fun n => Nat.eqb n 1) 0.

Lemma closing_listener_races_accept_witness :
  exists k, nt_calls (lw_net (listener_call sys_accept demo_listener).1) = [(4, k)] /\ 4 ∉ k_open k.
Proof.
  apply (closing_listener_races_accept sys_accept demo_listener 4 no_address); done.
Defined.

(** (error) Descriptor zero is a valid descriptor, but [adopt] takes it for a
    null pointer: [accept] closes a connection that gets it and reports
    [INVALID_ARGUMENT], while [connect] uses it. *)
Theorem accept_drops_descriptor_zero {K : Type} `{!Kernel K, !MonotonicClock}
    (h : nat) (deadline : Z) (l l1 : ListenerWorld K) (peer : SockAddr) :
  (listener_closed l).2 = false ->
  listener_call sys_accept (listener_closed l).1 = (l1, Done (0, peer)) ->
  accept_turn h deadline l =
    (set_net (close_native 0 (lw_net l1)) l1, Finish (fail RC.INVALID_ARGUMENT "no native handle supplied")).
Proof.
  intros Hc Ha. unfold accept_turn. destruct (listener_closed l) as [l0 c]. cbn [fst snd] in *.
  rewrite Hc, Ha. done.
Qed.

Lemma accept_drops_descriptor_zero_witness :
  let k := mkSim {[4]} ∅ ∅ 0 in
  let l := mkListenerWorld (mkNet k 0 ∅ ∅ (fun _ => []) 0 []) (mkListener (Some (mkState 4 false)) no_address)
             (fun _ => false) 0 in
  (accept_turn 1 10 l).2 = Finish (fail RC.INVALID_ARGUMENT "no native handle supplied").
Proof.
  cbv zeta. erewrite accept_drops_descriptor_zero; [reflexivity|reflexivity|]. vm_compute. reflexivity.
Defined.
