(* ===== verification/Faults.v ===== *)
(** * Fault injection

    Models [src/fault_injection.cpp] and [include/smf/fault_injection.hpp]: the
    parser of fault specifications and the injector that decides at which
    arrival at a named point a process dies or parks.  The grammar is given as a
    renderer of entries, [render]; the schedule as a count of arrivals. *)
From S2P Require Import Prelude Status Text.

(** ** Rules *)

Module FaultAction.
Inductive t : Type := NONE | EXIT_NOW | HOLD.
End FaultAction.

#[global] Instance fault_action_eq_dec : EqDecision FaultAction.t.
Proof. solve_decision. Defined.

Definition fault_action_to_string (action : FaultAction.t) : bytes :=
  match action with
  | FaultAction.NONE => lit "NONE"
  | FaultAction.EXIT_NOW => lit "EXIT_NOW"
  | FaultAction.HOLD => lit "HOLD"
  end.

Record Rule := mkRule {
  rule_action : FaultAction.t;
  rule_every : bool;
  rule_ordinal : Z;
  rule_seen : Z }.

Record FaultInjector := mkInjector {
  fi_rules : gmap bytes Rule;
  fi_specification : bytes }.

Definition FaultInjector_init : FaultInjector := mkInjector ∅ [].

(** ** Configuration *)

(** [parse_u64]: [None] is [false].  The arithmetic is 64-bit and unchecked. *)
Fixpoint parse_u64_loop (text : bytes) (value : Z) : option Z :=
  match text with
  | [] => Some value
  | c :: rest =>
      if (zb c <? 48) || (57 <? zb c) then None
      else parse_u64_loop rest (wrap 64 (value * 10 + (zb c - 48)))
  end.

Definition parse_u64 (text : bytes) : option Z :=
  if bool_decide (text = []) then None else parse_u64_loop text 0.

Definition parse_action (text : bytes) : option FaultAction.t :=
  if bytes_eqb text (lit "exit") then Some FaultAction.EXIT_NOW
  else if bytes_eqb text (lit "hold") then Some FaultAction.HOLD
  else None.

Definition bad_entry {A} (m : String.string) (entry : bytes) : Result A :=
  Err (mkStatus RC.INVALID_ARGUMENT (lit m ++ entry)).
Arguments bad_entry {A} m%_string_scope entry.

(** The point and the ordinal of [point] or [point@N]; the flag says that no
    ordinal was given. *)
Definition parse_point (text entry : bytes) : Result (bytes * Z * bool) :=
  match split text x40 with
  | [point] => Ok (point, 0, true)
  | [point; number] =>
    match parse_u64 number with
    | Some ordinal =>
        if ordinal =? 0 then bad_entry "fault injection ordinal must be a positive integer: " entry
        else Ok (point, ordinal, false)
    | None => bad_entry "fault injection ordinal must be a positive integer: " entry
    end
  | _ => bad_entry "malformed fault injection point: " entry
  end.

Definition parse_entry (entry : bytes) : Result (bytes * Rule) :=
  if bool_decide (entry = []) then
    fail RC.INVALID_ARGUMENT "fault injection specification has an empty entry"
  else
    match split entry x3d with
    | [key; action] =>
      let! (point, ordinal, every) := parse_point key entry in
      if bool_decide (point = []) then fail RC.INVALID_ARGUMENT "fault injection point must not be empty"
      else
        match parse_action action with
        | Some a => Ok (point, mkRule a every ordinal 0)
        | None => bad_entry "fault injection action must be 'exit' or 'hold': " entry
        end
    | _ => bad_entry "fault injection entry must be point=action: " entry
    end.

(** The loop over the entries; a later entry for a point replaces an earlier. *)
Fixpoint parse_entries (entries : list bytes) (parsed : gmap bytes Rule) : Result (gmap bytes Rule) :=
  match entries with
  | [] => Ok parsed
  | entry :: rest =>
    let! (point, rule) := parse_entry entry in
    parse_entries rest (<[point := rule]> parsed)
  end.

Definition FaultInjector_configure (specification : bytes) (f : FaultInjector) : FaultInjector * Result unit :=
  match (if bool_decide (specification = []) then Ok ∅ else parse_entries (split specification x2c) ∅) with
  | Err e => (f, Err e)
  | Ok parsed => (mkInjector parsed specification, Ok tt)
  end.

Definition FaultInjector_enabled (f : FaultInjector) : bool := negb (bool_decide (fi_rules f = ∅)).

(** ** Arrival at a point *)

Inductive Fate : Type := Continues | Parked | Exited (code : Z).

Definition FaultInjector_reach (point : bytes) (f : FaultInjector) : FaultInjector * Fate :=
  if bool_decide (fi_rules f = ∅) then (f, Continues)
  else
    match fi_rules f !! point with
    | None => (f, Continues)
    | Some rule =>
      let rule := mkRule (rule_action rule) (rule_every rule) (rule_ordinal rule) (wrap 64 (rule_seen rule + 1)) in
      let f := mkInjector (<[point := rule]> (fi_rules f)) (fi_specification f) in
      let fires := if rule_every rule then true else rule_seen rule =? rule_ordinal rule in
      if negb fires then (f, Continues)
      else if negb (rule_every rule) && (rule_ordinal rule <? rule_seen rule) then (f, Continues)
      else (f, match rule_action rule with FaultAction.HOLD => Parked | _ => Exited 86 end)
    end.

Definition FaultInjector_will_hold (point : bytes) (f : FaultInjector) : bool :=
  match fi_rules f !! point with
  | None => false
  | Some rule => bool_decide (rule_action rule = FaultAction.HOLD)
  end.

(** A process arriving at points one after the other, until it stops. *)
Fixpoint arrive (points : list bytes) (f : FaultInjector) : FaultInjector * list Fate :=
  match points with
  | [] => (f, [])
  | p :: rest =>
    match FaultInjector_reach p f with
    | (f, Continues) => let '(f, fates) := arrive rest f in (f, Continues :: fates)
    | (f, fate) => (f, [fate])
    end
  end.

(** ** The grammar *)

(** [point=action] or [point@N=action]. *)
Record Entry := mkEntry { en_point : bytes; en_ordinal : option Z; en_hold : bool }.

Definition entry_ok (e : Entry) : Prop :=
  en_point e <> [] /\ (x2c ∉ en_point e) /\ (x3d ∉ en_point e) /\ (x40 ∉ en_point e) /\
  (forall n, en_ordinal e = Some n -> 1 <= n < 2 ^ 64).

Definition render_key (e : Entry) : bytes :=
  match en_ordinal e with
  | None => en_point e
  | Some n => en_point e ++ x40 :: std_to_string n
  end.

Definition render (e : Entry) : bytes := render_key e ++ x3d :: (if en_hold e then lit "hold" else lit "exit").

Definition entry_rule (e : Entry) : Rule :=
  mkRule (if en_hold e then FaultAction.HOLD else FaultAction.EXIT_NOW)
    (match en_ordinal e with None => true | Some _ => false end)
    (match en_ordinal e with None => 0 | Some n => n end) 0.

(** The rules a list of entries stands for: the last one for each point. *)
Definition entry_rules (es : list Entry) : gmap bytes Rule :=
  foldl (fun m e => <[en_point e := entry_rule e]> m) ∅ es.

Lemma decimal_mod text a b : a mod 2 ^ 64 = b mod 2 ^ 64 ->
  decimal text a mod 2 ^ 64 = decimal text b mod 2 ^ 64.
Proof.
  revert a b. induction text as [|x text IH]; intros a b Hab; [done|]. cbn. apply IH.
  rewrite (Zplus_mod (a * 10)), (Zplus_mod (b * 10)), (Zmult_mod a), (Zmult_mod b), Hab. done.
Qed.

Lemma parse_u64_loop_decimal text acc : numeral text -> in_u 64 acc ->
  parse_u64_loop text acc = Some (wrap 64 (decimal text acc)).
Proof.
  revert acc. induction text as [|c text IH]; intros acc HF Ha; cbn [parse_u64_loop].
  { cbn. by rewrite wrap_small. }
  apply list.Forall_cons in HF as [Hc HF]. rewrite not_digit, Hc. cbn [negb]. fold (digit c).
  rewrite IH; [|done|apply wrap_in_u; lia]. f_equal. unfold wrap. cbn. apply decimal_mod, Z.mod_mod. lia.
Qed.

(** The number read is the decimal value modulo 2^64. *)
Lemma parse_u64_decimal text : numeral text -> text <> [] -> parse_u64 text = Some (wrap 64 (decimal text 0)).
Proof.
  intros HF Hn. unfold parse_u64. rewrite bool_decide_eq_false_2 by done.
  by rewrite parse_u64_loop_decimal.
Qed.

Lemma parse_u64_to_string n : in_u 64 n -> parse_u64 (std_to_string n) = Some n.
Proof.
  intros Hn. destruct (to_string_decimal n Hn) as (H1 & H2 & H3).
  rewrite parse_u64_decimal by done. by rewrite H2, wrap_small.
Qed.

Lemma split_one s sep : sep ∉ s -> split s sep = [s].
Proof. intros Hs. apply (split_join sep [s]); [done|by constructor]. Qed.

Lemma split_two a b sep : sep ∉ a -> sep ∉ b -> split (a ++ sep :: b) sep = [a; b].
Proof. intros Ha Hb. apply (split_join sep [a; b]); [done|by repeat constructor]. Qed.

Lemma render_key_excludes e c : is_digit c = false -> c <> x40 -> c ∉ en_point e ->
  (forall n, en_ordinal e = Some n -> in_u 64 n) -> c ∉ render_key e.
Proof.
  intros Hd Hc Hp Hn. unfold render_key. destruct (en_ordinal e) as [n|]; [|done].
  rewrite elem_of_app, elem_of_cons. destruct (to_string_decimal n (Hn n eq_refl)) as (H1 & _).
  pose proof (numeral_excludes c _ Hd H1). naive_solver.
Qed.

Lemma entry_ok_ordinal e : entry_ok e -> forall n, en_ordinal e = Some n -> in_u 64 n.
Proof. intros (_ & _ & _ & _ & H) n Hn. specialize (H n Hn). unfold in_u. lia. Qed.

Lemma parse_rendered_entry e : entry_ok e -> parse_entry (render e) = Ok (en_point e, entry_rule e).
Proof.
  intros He. pose proof He as (Hne & Hc & Heq & Hat & Hn). pose proof (entry_ok_ordinal e He) as Hu.
  unfold parse_entry. rewrite bool_decide_eq_false_2.
  2: { unfold render, render_key. by destruct (en_ordinal e), (en_point e). }
  unfold render at 1. rewrite split_two; [|by apply render_key_excludes|].
  2: { destruct (en_hold e); apply contains_false; reflexivity. }
  assert (parse_point (render_key e) (render e) =
          Ok (en_point e, rule_ordinal (entry_rule e), rule_every (entry_rule e))) as ->.
  { unfold parse_point, render_key, entry_rule; cbn [rule_ordinal rule_every]. destruct (en_ordinal e) as [n|] eqn:En.
    - rewrite split_two; [|done|apply numeral_excludes; [done|by apply to_string_decimal, Hu]].
      cbv beta iota. rewrite parse_u64_to_string by by apply Hu.
      specialize (Hn n eq_refl). by rewrite (proj2 (Z.eqb_neq _ _)) by lia.
    - by rewrite split_one. }
  cbn [rbind]. rewrite bool_decide_eq_false_2 by done. unfold entry_rule. by destruct (en_hold e).
Qed.

Lemma render_no_comma e : entry_ok e -> x2c ∉ render e.
Proof.
  intros He. pose proof He as (_ & Hc & _). unfold render. rewrite elem_of_app, elem_of_cons.
  intros [Hin|[Hin|Hin]]; [|done|].
  - revert Hin. apply render_key_excludes; [done|done|done|by apply entry_ok_ordinal].
  - revert Hin. destruct (en_hold e); apply contains_false; reflexivity.
Qed.

Lemma parse_rendered_entries es m : Forall entry_ok es ->
  parse_entries (map render es) m = Ok (foldl (fun m e => <[en_point e := entry_rule e]> m) m es).
Proof.
  intros HF. revert m. induction HF as [|e es He HF IH]; intros m; cbn; [done|].
  rewrite parse_rendered_entry by done. cbn. apply IH.
Qed.

(** ** The schedule *)

Definition occurrences (p : bytes) (past : list bytes) : Z := zlen (filter (fun q => q = p) past).

(** What should happen at [p] after the arrivals in [past]. *)
Definition due (rules : gmap bytes Rule) (past : list bytes) (p : bytes) : Fate :=
  match rules !! p with
  | None => Continues
  | Some r =>
      if rule_every r || (occurrences p past + 1 =? rule_ordinal r)
      then match rule_action r with FaultAction.HOLD => Parked | _ => Exited 86 end
      else Continues
  end.

Fixpoint schedule (rules : gmap bytes Rule) (past points : list bytes) : list Fate :=
  match points with
  | [] => []
  | p :: rest =>
    match due rules past p with
    | Continues => Continues :: schedule rules (past ++ [p]) rest
    | fate => [fate]
    end
  end.

Definition with_seen (n : Z) (r : Rule) : Rule := mkRule (rule_action r) (rule_every r) (rule_ordinal r) n.

(** The injector has counted the arrivals in [past]. *)
Definition has_counted (rules : gmap bytes Rule) (past : list bytes) (f : FaultInjector) : Prop :=
  forall p, fi_rules f !! p = with_seen (occurrences p past) <$> rules !! p.

Lemma occurrences_snoc p q past :
  occurrences p (past ++ [q]) = occurrences p past + (if decide (q = p) then 1 else 0).
Proof.
  unfold occurrences. rewrite list.filter_app, zlen_app. f_equal. rewrite list.filter_cons. by case_decide.
Qed.

Lemma occurrences_bound p past : 0 <= occurrences p past <= zlen past.
Proof. unfold occurrences, zlen. pose proof (length_filter (fun q => q = p) past). lia. Qed.

Lemma reach_counts rules past f p : has_counted rules past f -> zlen past + 1 < 2 ^ 64 ->
  exists f', FaultInjector_reach p f = (f', due rules past p) /\ has_counted rules (past ++ [p]) f'.
Proof.
  intros Hf Hb. unfold FaultInjector_reach, due. pose proof (Hf p) as Hp. pose proof (occurrences_bound p past).
  destruct (rules !! p) as [r|] eqn:Er; cbn [fmap option_fmap option_map] in Hp.
  2: { rewrite Hp. exists f. split; [by case_bool_decide|]. intros q. rewrite occurrences_snoc.
       case_decide as Hq; [subst; by rewrite Hp, Er|]. by rewrite Z.add_0_r. }
  rewrite bool_decide_eq_false_2 by (intros E; by rewrite E, lookup_empty in Hp).
  rewrite Hp. cbn [with_seen rule_action rule_every rule_ordinal rule_seen].
  rewrite wrap_small by (unfold in_u; lia). set (f' := mkInjector _ _).
  assert (has_counted rules (past ++ [p]) f') as Hf'.
  { intros q. cbn. rewrite occurrences_snoc. case_decide as Hq.
    - subst q. by rewrite lookup_insert_eq, Er.
    - rewrite lookup_insert_ne by done. by rewrite Z.add_0_r. }
  exists f'. split; [|done]. destruct (rule_every r) eqn:Ev; cbn [negb andb orb]; [done|].
  destruct (Z.eqb_spec (occurrences p past + 1) (rule_ordinal r)) as [E|E]; cbn [negb]; [|done].
  by rewrite (proj2 (Z.ltb_ge _ _)) by lia.
Qed.

Lemma arrive_schedule rules points past f : has_counted rules past f -> zlen past + zlen points < 2 ^ 64 ->
  (arrive points f).2 = schedule rules past points.
Proof.
  revert past f. induction points as [|p points IH]; intros past f Hf Hb; cbn [arrive schedule]; [done|].
  assert (zlen (p :: points) = 1 + zlen points) as Hz by (unfold zlen; cbn [length]; lia).
  pose proof (zlen_nonneg points).
  destruct (reach_counts rules past f p Hf ltac:(lia)) as (f' & E & Hf'). rewrite E.
  destruct (due rules past p); [|done|done].
  specialize (IH (past ++ [p]) f' Hf'). rewrite zlen_app in IH. specialize (IH ltac:(unfold zlen in *; cbn [length]; lia)).
  destruct (arrive points f') as [f2 fates]. cbn in *. by rewrite IH.
Qed.

Lemma entry_rules_fresh es p r : entry_rules es !! p = Some r -> with_seen 0 r = r.
Proof.
  unfold entry_rules. assert (forall m : gmap bytes Rule, (forall q s, m !! q = Some s -> with_seen 0 s = s) ->
    forall s, foldl (fun m e => <[en_point e := entry_rule e]> m) m es !! p = Some s -> with_seen 0 s = s) as Hg;
    [|by apply Hg].
  induction es as [|e es IH]; intros m Hm s; cbn [foldl]; [apply Hm|]. apply IH.
  intros q t. destruct (decide (en_point e = q)) as [<-|Hn].
  - rewrite lookup_insert_eq. by intros [= <-].
  - rewrite lookup_insert_ne by done. apply Hm.
Qed.

(** ** Properties *)

(** (roundtrip) A specification written in the documented grammar configures
    exactly the rules its entries stand for, the last one for each point; the
    empty one disables injection; a specification that is refused leaves the
    injector as it was. *)
Theorem specification_configures_its_entries (es : list Entry) (text : bytes) (f f' : FaultInjector) (e : Status) :
  (es <> [] -> Forall entry_ok es ->
     FaultInjector_configure (join x2c (map render es)) f =
       (mkInjector (entry_rules es) (join x2c (map render es)), Ok tt)) /\
  FaultInjector_enabled (FaultInjector_configure [] f).1 = false /\
  (FaultInjector_configure text f = (f', Err e) -> f' = f /\ st_code e = RC.INVALID_ARGUMENT).
Proof.
  split_and!.
  - intros Hne HF. unfold FaultInjector_configure. rewrite bool_decide_eq_false_2.
    2: { destruct es as [|e1 [|e2 es]]; [done| |]; cbn [map join]; unfold render, render_key;
         by destruct (en_ordinal e1), (en_point e1). }
    rewrite split_join.
    + by rewrite parse_rendered_entries.
    + by destruct es.
    + apply list.Forall_fmap. eapply list.Forall_impl; [exact HF|]. intros e1. apply render_no_comma.
  - done.
  - unfold FaultInjector_configure. destruct (if bool_decide (text = []) then _ else _) as [m|e1] eqn:E; [done|].
    intros [= <- <-]. split; [done|]. case_bool_decide; [done|]. revert E. generalize (∅ : gmap bytes Rule).
    generalize (split text x2c). intros entries. induction entries as [|en entries IH]; intros m; cbn [parse_entries]; [done|].
    destruct (parse_entry en) as [[p r]|e2] eqn:Ep; cbn [rbind]; [apply IH|]. intros [= <-].
    revert Ep. unfold parse_entry, parse_point, bad_entry, fail. repeat (case_match || case_bool_decide); cbn [rbind];
      repeat (case_match || case_bool_decide); try done; by intros [= <-].
Qed.

Definition demo_entries : list Entry :=
  [mkEntry (lit "destination.after_commit_marker") (Some 2) false; mkEntry (lit "source.before_end") None true].

Lemma demo_entries_ok : Forall entry_ok demo_entries.
Proof.
  constructor; [|constructor; [|constructor]]; unfold entry_ok; split_and!; try done;
    try (apply contains_false; reflexivity).
  intros n [= <-]. lia.
Qed.

Lemma specification_configures_its_entries_witness :
  FaultInjector_configure (lit "destination.after_commit_marker@2=exit,source.before_end=hold") FaultInjector_init =
    (mkInjector (entry_rules demo_entries) (lit "destination.after_commit_marker@2=exit,source.before_end=hold"), Ok tt).
Proof.
  refine (proj1 (specification_configures_its_entries demo_entries [] FaultInjector_init FaultInjector_init
    (mkStatus RC.OK [])) _ demo_entries_ok). discriminate.
Defined.

(** (equivalence) A configured process, whatever points it arrives at and in
    whatever order, is stopped exactly where the specification says: at the
    first arrival at a point with an unnumbered rule, at the [N]th arrival at
    one with rule [N], with the rule's action, and nowhere else.  [schedule]
    decides this from the arrivals alone. *)
Theorem faults_fire_on_schedule (es : list Entry) (specification : bytes) (points : list bytes) :
  zlen points < 2 ^ 64 ->
  (arrive points (mkInjector (entry_rules es) specification)).2 = schedule (entry_rules es) [] points.
Proof.
  intros Hb. apply arrive_schedule; [|unfold zlen in *; cbn [length]; lia]. intros p. cbn [fi_rules].
  destruct (entry_rules es !! p) as [r|] eqn:E; [|done]. change (Some r = Some (with_seen 0 r)). by rewrite (entry_rules_fresh es p r E).
Qed.

Lemma faults_fire_on_schedule_witness :
  (arrive [lit "destination.after_commit_marker"; lit "other"; lit "destination.after_commit_marker"; lit "other"]
     (mkInjector (entry_rules demo_entries) [])).2 = [Continues; Continues; Exited 86].
Proof.
  rewrite (faults_fire_on_schedule demo_entries [] [lit "destination.after_commit_marker"; lit "other";
    lit "destination.after_commit_marker"; lit "other"] eq_refl).
  vm_compute. reflexivity.
Defined.

(** (bounds) The ordinal is read modulo 2^64: a specification that asks for an
    occurrence beyond that range is not refused but armed for a small one. *)
Theorem huge_ordinal_fires_early (text entry : bytes) (n : Z) :
  numeral text -> text <> [] -> decimal text 0 = 2 ^ 64 + n -> 1 <= n < 2 ^ 64 ->
  parse_point (lit "point" ++ x40 :: text) entry = Ok (lit "point", n, false).
Proof.
  intros HF Hne Hd Hn. unfold parse_point.
  rewrite split_two; [|by apply contains_false|by apply numeral_excludes].
  cbv beta iota. rewrite parse_u64_decimal, Hd by done.
  assert (wrap 64 (2 ^ 64 + n) = n) as ->
    by (unfold wrap; rewrite Zplus_mod, Z_mod_same_full, Z.add_0_l, Z.mod_mod by lia; apply Z.mod_small; lia).
  by rewrite (proj2 (Z.eqb_neq _ _)) by lia.
Qed.

Lemma huge_ordinal_fires_early_witness :
  parse_point (lit "point@18446744073709551618") [] = Ok (lit "point", 2, false).
Proof.
  apply (huge_ordinal_fires_early (lit "18446744073709551618") [] 2); [|done|done|lia].
  apply (bool_decide_unpack (numeral (lit "18446744073709551618"))). vm_compute. exact I.
Defined.
