(* ===== verification/Diagnostics.v ===== *)
(** * Time and logging

    Models [src/time.cpp] with the clocks of [include/smf/time.hpp], and
    [src/logging.cpp].  The calendar is the C library's [gmtime_r], a parameter;
    what a log sink does is a parameter too. *)
From S2P Require Import Prelude Status Text.

(** ** Clocks *)

Record ManualClock := mkManualClock { mc_unix_millis : Z; mc_monotonic_millis : Z }.

Definition kEpoch2026 : Z := 1767225600000.
Definition ManualClock_init (start_unix_millis : Z) : ManualClock := mkManualClock start_unix_millis 0.
Definition ManualClock_advance (delta_millis : Z) (c : ManualClock) : ManualClock :=
  mkManualClock (mc_unix_millis c + delta_millis) (mc_monotonic_millis c + delta_millis).

(** ** Rendering of instants *)

(** [std::tm], the fields that are printed. *)
Record Tm := mkTm { tm_year : Z; tm_mon : Z; tm_mday : Z; tm_hour : Z; tm_min : Z; tm_sec : Z }.

(** [%0<width>d] *)
Definition printf_d (width : nat) (v : Z) : bytes :=
  if v <? 0 then x2d :: replicate (width - 1 - length (std_to_string (- v))) x30 ++ std_to_string (- v)
  else replicate (width - length (std_to_string v)) x30 ++ std_to_string v.

Section utc.
Context (gmtime_r : Z -> Tm).

(** Division on [std::int64_t] truncates towards zero. *)
Definition to_utc_tm (unix_millis : Z) : Tm := gmtime_r (Z.quot unix_millis 1000).

Definition render_utc (t : Tm) (millis : Z) : bytes :=
  printf_d 4 (tm_year t + 1900) ++ lit "-" ++ printf_d 2 (tm_mon t + 1) ++ lit "-" ++ printf_d 2 (tm_mday t) ++
  lit "T" ++ printf_d 2 (tm_hour t) ++ lit ":" ++ printf_d 2 (tm_min t) ++ lit ":" ++ printf_d 2 (tm_sec t) ++
  lit "." ++ printf_d 3 millis ++ lit "Z".

(** An [int] has at most eleven characters, so the text fits the forty of the
    buffer. *)
Definition format_utc (unix_millis : Z) : bytes :=
  let tm_value := to_utc_tm unix_millis in
  let remainder := Z.rem unix_millis 1000 in
  let remainder := if remainder <? 0 then remainder + 1000 else remainder in
  render_utc tm_value remainder.

(** The rendering of an instant: its second, and the milliseconds past it. *)
Definition utc_of (unix_millis : Z) : bytes :=
  render_utc (gmtime_r (unix_millis / 1000)) (unix_millis mod 1000).

(** (functional) [format_utc] renders the instant it is given from 1970 on and
    on whole seconds before, and one second later than it otherwise: the second
    is rounded towards zero while the milliseconds are counted from below. *)
Theorem format_utc_renders_instant (unix_millis : Z) :
  (0 <= unix_millis \/ unix_millis mod 1000 = 0 -> format_utc unix_millis = utc_of unix_millis) /\
  (unix_millis < 0 -> unix_millis mod 1000 <> 0 -> format_utc unix_millis = utc_of (unix_millis + 1000)).
Proof.
  unfold format_utc, utc_of, to_utc_tm.
  pose proof (Z.quot_rem' unix_millis 1000) as Hq. pose proof (Z.div_mod unix_millis 1000 ltac:(lia)) as Hd.
  pose proof (Z.mod_pos_bound unix_millis 1000 ltac:(lia)) as Hm.
  assert (Hplus : (unix_millis + 1000) / 1000 = unix_millis / 1000 + 1 /\
                  (unix_millis + 1000) mod 1000 = unix_millis mod 1000).
  { replace (unix_millis + 1000) with (unix_millis + 1 * 1000) by lia.
    split; [apply Z.div_add; lia|apply Z.mod_add; lia]. }
  destruct Hplus as [-> ->]. split.
  - intros H. assert (Z.quot unix_millis 1000 = unix_millis / 1000 /\ Z.rem unix_millis 1000 = unix_millis mod 1000) as [-> ->].
    { destruct (Z.le_gt_cases 0 unix_millis) as [Hp|Hn].
      - split; [apply Z.quot_div_nonneg; lia|apply Z.rem_mod_nonneg; lia].
      - pose proof (Z.rem_bound_pos_neg unix_millis 1000 ltac:(lia) ltac:(lia)). lia. }
    by rewrite (proj2 (Z.ltb_ge _ _)) by lia.
  - intros Hn Hne. pose proof (Z.rem_bound_pos_neg unix_millis 1000 ltac:(lia) ltac:(lia)) as Hr.
    assert (Z.rem unix_millis 1000 <> 0) as Hr0.
    { intros E. apply Hne. rewrite Hq, E, Z.add_0_r, Z.mul_comm. apply Z.mod_mul. lia. }
    rewrite (proj2 (Z.ltb_lt _ _)) by lia.
    replace (Z.quot unix_millis 1000) with (unix_millis / 1000 + 1) by lia.
    by replace (Z.rem unix_millis 1000 + 1000) with (unix_millis mod 1000) by lia.
Qed.
End utc.

(** A calendar good for the first hour of 1970. *)
Definition demo_gmtime (seconds : Z) : Tm := mkTm 70 0 1 0 (seconds / 60) (seconds mod 60).

Lemma format_utc_renders_instant_witness :
  format_utc demo_gmtime (-1) = lit "1970-01-01T00:00:00.999Z" /\
  utc_of demo_gmtime 999 = lit "1970-01-01T00:00:00.999Z".
Proof.
  split; [|vm_compute; reflexivity].
  rewrite (proj2 (format_utc_renders_instant demo_gmtime (-1)) ltac:(reflexivity) ltac:(vm_compute; discriminate)).
  vm_compute. reflexivity.
Defined.

(** ** Logging *)

Module LogLevel.
Inductive t : Type := TRACE | DEBUG | INFO | WARN | ERROR | OFF.
End LogLevel.

#[global] Instance log_level_eq_dec : EqDecision LogLevel.t.
Proof. solve_decision. Defined.

Definition log_level_value (l : LogLevel.t) : Z :=
  match l with
  | LogLevel.TRACE => 0 | LogLevel.DEBUG => 1 | LogLevel.INFO => 2
  | LogLevel.WARN => 3 | LogLevel.ERROR => 4 | LogLevel.OFF => 5
  end.

Definition log_level_to_string (l : LogLevel.t) : bytes :=
  match l with
  | LogLevel.TRACE => lit "TRACE" | LogLevel.DEBUG => lit "DEBUG" | LogLevel.INFO => lit "INFO"
  | LogLevel.WARN => lit "WARN" | LogLevel.ERROR => lit "ERROR" | LogLevel.OFF => lit "OFF"
  end.

Definition kAllLevels : list LogLevel.t :=
  [LogLevel.TRACE; LogLevel.DEBUG; LogLevel.INFO; LogLevel.WARN; LogLevel.ERROR; LogLevel.OFF].

Definition log_level_from_string (text : bytes) : option LogLevel.t :=
  find (fun l => bytes_eqb text (log_level_to_string l)) kAllLevels.

Record LogRecord := mkLogRecord {
  lr_level : LogLevel.t;
  lr_component : bytes;
  lr_message : bytes }.

Section logging.
Context {X : Type}.

(** The process-wide level and sink; a sink acts on the state [X]. *)
Record Logger := mkLogger { lg_level : LogLevel.t; lg_sink : option (LogRecord -> X -> X) }.

Definition Logger_init : Logger := mkLogger LogLevel.WARN None.
Definition set_log_sink (sink : option (LogRecord -> X -> X)) (g : Logger) : Logger := mkLogger (lg_level g) sink.
Definition set_log_level (level : LogLevel.t) (g : Logger) : Logger := mkLogger level (lg_sink g).

Definition log_enabled (level : LogLevel.t) (g : Logger) : bool :=
  if bool_decide (level = LogLevel.OFF) then false
  else if bool_decide (lg_level g = LogLevel.OFF) then false
  else log_level_value (lg_level g) <=? log_level_value level.

Definition log_message (level : LogLevel.t) (component message : bytes) (g : Logger) (x : X) : X :=
  if negb (log_enabled level g) then x
  else match lg_sink g with
       | Some sink => sink (mkLogRecord level component message) x
       | None => x
       end.
End logging.
Arguments Logger : clear implicits.

(** The line the standard error sink writes; the state is the lines written. *)
Definition make_stderr_sink (r : LogRecord) (lines : list bytes) : list bytes :=
  lines ++ [lit "[" ++ log_level_to_string (lr_level r) ++ lit "] " ++ lr_component r ++ lit ": " ++
            lr_message r ++ lit "
"].

(** (functional) A record reaches the sink exactly when its level is at least
    the threshold and neither is [OFF]; the names of the levels are read back,
    and nothing else is a level. *)
Theorem log_filter_is_threshold {X : Type} (level threshold : LogLevel.t) (component message text : bytes)
    (sink : LogRecord -> X -> X) (x : X) :
  log_message level component message (mkLogger threshold (Some sink)) x =
    (if bool_decide (level <> LogLevel.OFF /\ threshold <> LogLevel.OFF /\
                     log_level_value threshold <= log_level_value level)
     then sink (mkLogRecord level component message) x else x) /\
  (log_level_from_string text = Some level <-> text = log_level_to_string level).
Proof.
  split.
  - destruct level, threshold; reflexivity.
  - split.
    + intros H. apply find_some in H as [_ H]. by apply bytes_eqb_eq in H.
    + intros ->. destruct level; vm_compute; reflexivity.
Qed.
