(* ===== verification/Options.v ===== *)
(** * Command lines

    Models [apps/args.cpp] and what [apps/smf-coordinator.cpp] and
    [apps/smf-endpoint.cpp] do before they start their service: reading options,
    the shared secret, the fault specification, the log level and the service's
    configuration.  A program that goes no further leaves with an exit code, or
    is terminated by the exception that [Result::value()] throws on a failure. *)
From S2P Require Import Prelude Status Text Bytes Ids Session Policy Topology Coordinator Agent Transport Faults Diagnostics.

(** ** Arguments *)

Record Arguments := mkArguments {
  ar_positional : list bytes;
  ar_options : gmap bytes bytes }.

Definition no_arguments : Arguments := mkArguments [] ∅.

Definition has (name : bytes) (a : Arguments) : bool := bool_decide (is_Some (ar_options a !! name)).

Definition get (name fallback : bytes) (a : Arguments) : bytes := default fallback (ar_options a !! name).

(** The digits of a number option, with the overflow test of the source. *)
Fixpoint number_loop (name text : bytes) (value : Z) : Result Z :=
  match text with
  | [] => Ok value
  | c :: rest =>
    if (zb c <? 48) || (57 <? zb c) then
      Err (mkStatus RC.INVALID_ARGUMENT (lit "option --" ++ name ++ lit " must be a non-negative integer"))
    else if (u64_max - (zb c - 48)) / 10 <? value then
      Err (mkStatus RC.SIZE_OVERFLOW (lit "option --" ++ name ++ lit " is too large"))
    else number_loop name rest (wrap 64 (wrap 64 (value * 10) + (zb c - 48)))
  end.

Definition number (name : bytes) (fallback : Z) (a : Arguments) : Result Z :=
  match ar_options a !! name with
  | None => Ok fallback
  | Some text => if bool_decide (text = []) then Ok fallback else number_loop name text 0
  end.

(** [token.rfind("--", 0) == 0] *)
Definition is_option (token : bytes) : bool := bytes_eqb (take 2 token) (lit "--").

(** The loop over [argv] after the program's name. *)
Fixpoint parse_args_loop (tokens : list bytes) (parsed : Arguments) : Result Arguments :=
  match tokens with
  | [] => Ok parsed
  | token :: rest =>
    if negb (is_option token) then
      parse_args_loop rest (mkArguments (ar_positional parsed ++ [token]) (ar_options parsed))
    else
      let name := drop 2 token in
      let flag := mkArguments (ar_positional parsed) (<[name := []]> (ar_options parsed)) in
      if bool_decide (name = []) then fail RC.INVALID_ARGUMENT "empty option name"
      else
        match rest with
        | value :: rest' =>
            if negb (is_option value) then
              parse_args_loop rest' (mkArguments (ar_positional parsed) (<[name := value]> (ar_options parsed)))
            else parse_args_loop rest flag
        | [] => parse_args_loop rest flag
        end
  end.

Definition parse_args (argv : list bytes) : Result Arguments := parse_args_loop argv no_arguments.

(** [environment] is [getenv("SMF_SHARED_KEY")]. *)
Definition resolve_shared_secret (environment : option bytes) (a : Arguments) : Result bytes :=
  let text := get (lit "key") [] a in
  let text := if bool_decide (text = []) then default text environment else text in
  if bool_decide (text = []) then
    fail RC.INVALID_ARGUMENT "a shared secret is required: pass --key <64 hex characters> or set SMF_SHARED_KEY"
  else parse_shared_secret text.

(** ** Leaving before the service starts *)

(** [Leaves] with the exit code and the first line written to the standard
    error output; [Terminates] with the text of the uncaught exception. *)
Inductive Startup (A : Type) : Type :=
  | Proceeds (a : A)
  | Leaves (code : Z) (message : bytes)
  | Terminates (message : bytes).
Arguments Proceeds {A}.
Arguments Leaves {A}.
Arguments Terminates {A}.

Definition sbind {A B} (m : Startup A) (k : A -> Startup B) : Startup B :=
  match m with
  | Proceeds a => k a
  | Leaves code message => Leaves code message
  | Terminates message => Terminates message
  end.
Notation "'let~' x := m 'in' k" := (sbind m (fun x => k))
  (at level 10, x pattern, m at level 100, k at level 200) : smf_scope.

(** [if (!r.ok()) { fprintf(stderr, ...); return 2; }] *)
Definition or_exit {A} (r : Result A) : Startup A :=
  match r with Ok a => Proceeds a | Err e => Leaves 2 (Status_to_string e) end.

(** [r.value()] *)
Definition value {A} (r : Result A) : Startup A :=
  match r with
  | Ok a => Proceeds a
  | Err e => Terminates (lit "Result::value() on failure: " ++ Status_to_string e)
  end.

Definition exit_unless (ok : bool) (code : Z) (message : String.string) : Startup unit :=
  if ok then Proceeds tt else Leaves code (lit message).
Arguments exit_unless _ _ message%_string_scope.

(** An optional address. *)
Definition address_option (name : bytes) (fallback : SocketAddress) (a : Arguments) : Startup SocketAddress :=
  if has name a then or_exit (SocketAddress_parse (get name [] a)) else Proceeds fallback.

Definition log_level_option (a : Arguments) : Startup LogLevel.t :=
  if has (lit "log-level") a then
    match log_level_from_string (get (lit "log-level") [] a) with
    | Some level => Proceeds level
    | None => Leaves 2 (lit "unrecognized log level")
    end
  else Proceeds LogLevel.INFO.

Definition any_port : SocketAddress := mkAddress (lit "127.0.0.1") 0.

(** The fault injector that the specification leaves behind. *)
Definition fault_option (a : Arguments) : Startup FaultInjector :=
  let '(injector, r) := FaultInjector_configure (get (lit "fault-inject") [] a) FaultInjector_init in
  let~ _ := or_exit r in
  Proceeds injector.

(** [config.policy.max_attempts = ...; config.policy.max_chunk_bytes = ...;] *)
Definition with_limits (p : MovementPolicy) (max_attempts max_chunk_bytes : Z) : MovementPolicy :=
  let 'mkPolicy _ inflight min_chunk _ object movement endpoints sessions flight events history store staging
        resume evidence unknown sample samples io transfer := p in
  mkPolicy max_attempts inflight min_chunk max_chunk_bytes object movement endpoints sessions flight events history
    store staging resume evidence unknown sample samples io transfer.

(** ** The coordinator's process *)

Record CoordinatorStartup (P : Type) := mkCoordinatorStartup {
  cs_config : CoordinatorConfig P;
  cs_endpoint_listen : SocketAddress;
  cs_admin_listen : SocketAddress;
  cs_faults : FaultInjector;
  cs_level : LogLevel.t }.
Arguments mkCoordinatorStartup {P}.
Arguments cs_config {P}.
Arguments cs_endpoint_listen {P}.
Arguments cs_admin_listen {P}.
Arguments cs_faults {P}.
Arguments cs_level {P}.

Definition coordinator_startup {P} (environment : option bytes) (argv : list bytes) : Startup (CoordinatorStartup P) :=
  let~ args := or_exit (parse_args argv) in
  let~ _ := exit_unless (negb (has (lit "help") args)) 0 "smf-coordinator" in
  let state := get (lit "state") [] args in
  let~ _ := exit_unless (negb (bool_decide (state = []))) 2 "--state is required" in
  let~ secret := or_exit (resolve_shared_secret environment args) in
  let~ faults := fault_option args in
  let~ level := log_level_option args in
  let~ endpoint_id := value (EndpointId_parse (get (lit "id") (lit "coordinator") args)) in
  let~ workers := value (number (lit "workers") 4 args) in
  let~ samples := value (number (lit "verify-samples") 3 args) in
  let~ endpoint_listen := address_option (lit "listen") any_port args in
  let~ admin_listen := address_option (lit "admin") any_port args in
  let~ max_attempts := value (number (lit "max-attempts") 3 args) in
  let~ chunk_bytes := value (number (lit "chunk-bytes") (2 ^ 20) args) in
  Proceeds (mkCoordinatorStartup
    (mkCoordinatorConfig endpoint_id state secret
       (with_limits default_policy (wrap 32 max_attempts) chunk_bytes)
       30000 64 (wrap 32 workers) (negb (bytes_eqb (get (lit "sync") (lit "true") args) (lit "false"))) true
       (wrap 32 samples) None)
    endpoint_listen admin_listen faults level).

(** ** The endpoint's process *)

Record EndpointStartup := mkEndpointStartup {
  es_config : EndpointAgentConfig;
  es_coordinator : SocketAddress;
  es_data_listen : SocketAddress;
  es_faults : FaultInjector;
  es_level : LogLevel.t }.

Definition endpoint_startup (environment : option bytes) (argv : list bytes) : Startup EndpointStartup :=
  let~ args := or_exit (parse_args argv) in
  let~ _ := exit_unless (negb (has (lit "help") args)) 0 "smf-endpoint" in
  let id := get (lit "id") [] args in
  let coordinator := get (lit "coordinator") [] args in
  let store := get (lit "store") [] args in
  let~ _ := exit_unless (negb (bool_decide (id = []) || bool_decide (coordinator = []) || bool_decide (store = [])))
              2 "--id, --coordinator, and --store are required" in
  let~ endpoint_id := or_exit (EndpointId_parse id) in
  let~ coordinator_address := or_exit (SocketAddress_parse coordinator) in
  let~ secret := or_exit (resolve_shared_secret environment args) in
  let~ faults := fault_option args in
  let~ level := log_level_option args in
  let~ data_listen := address_option (lit "data") any_port args in
  let~ chunk_bytes := value (number (lit "chunk-bytes") (2 ^ 20) args) in
  Proceeds (mkEndpointStartup
    (mkAgentConfig endpoint_id store secret (lit "smf.endpoint.std")
       (with_limits default_policy (po_max_attempts default_policy) chunk_bytes) 8 4
       (negb (has (lit "no-resume") args)) true)
    coordinator_address data_listen faults level).

(** ** Numbers *)

Lemma number_loop_spec name text acc v : 0 <= acc <= u64_max ->
  number_loop name text acc = Ok v <-> numeral text /\ decimal text acc = v /\ v <= u64_max.
Proof.
  revert acc. induction text as [|c text IH]; intros acc Ha; cbn [number_loop].
  { split; [intros [= ->]; split_and!; [by constructor|done|lia]|by intros (_ & <- & _)]. }
  rewrite not_digit. destruct (is_digit c) eqn:Ec; cbn [negb].
  2: { split; [done|]. intros [HF _]. apply list.Forall_cons in HF as [HF _]. congruence. }
  pose proof (proj1 (is_digit_spec c) Ec) as Hd. fold (digit c).
  destruct (Z.ltb_spec ((u64_max - digit c) / 10) acc) as [Hgt|Hle].
  - split; [done|]. intros (HF & Hdec & Hv). apply list.Forall_cons in HF as [_ HF].
    change (decimal (c :: text) acc) with (decimal text (acc * 10 + digit c)) in Hdec.
    pose proof (decimal_grows text (acc * 10 + digit c) HF ltac:(lia)).
    assert (u64_max - digit c < acc * 10); [|lia].
    pose proof (Z.mul_succ_div_gt (u64_max - digit c) 10 ltac:(lia)). lia.
  - assert (acc * 10 <= u64_max - digit c)
      by (pose proof (Z.mul_div_le (u64_max - digit c) 10 ltac:(lia)); lia).
    rewrite (wrap_small 64 (acc * 10)) by (unfold in_u, u64_max in *; lia).
    rewrite wrap_small by (unfold in_u, u64_max in *; lia).
    rewrite IH by lia. unfold numeral. rewrite list.Forall_cons. tauto.
Qed.

Lemma number_loop_error name text acc e : number_loop name text acc = Err e ->
  st_code e = RC.INVALID_ARGUMENT \/ st_code e = RC.SIZE_OVERFLOW.
Proof.
  revert acc. induction text as [|c text IH]; intros acc; cbn [number_loop]; [done|].
  repeat case_match; try (intros [= <-]; auto). apply IH.
Qed.

(** ** Command lines as written *)

Inductive Item : Type :=
  | Bare (word : bytes)
  | Flag (name : bytes)
  | Valued (name value : bytes).

Definition words (i : Item) : list bytes :=
  match i with
  | Bare w => [w]
  | Flag n => [lit "--" ++ n]
  | Valued n v => [lit "--" ++ n; v]
  end.

Definition item_ok (i : Item) : Prop :=
  match i with
  | Bare w => is_option w = false
  | Flag n => n <> []
  | Valued n v => n <> [] /\ is_option v = false
  end.

(** A word after a flag would be taken for its value. *)
Fixpoint unambiguous (items : list Item) : Prop :=
  match items with
  | Flag _ :: ((Bare _ :: _) as rest) => False
  | _ :: rest => unambiguous rest
  | [] => True
  end.

Definition add_item (a : Arguments) (i : Item) : Arguments :=
  match i with
  | Bare w => mkArguments (ar_positional a ++ [w]) (ar_options a)
  | Flag n => mkArguments (ar_positional a) (<[n := []]> (ar_options a))
  | Valued n v => mkArguments (ar_positional a) (<[n := v]> (ar_options a))
  end.

Lemma is_option_dashes n : is_option (lit "--" ++ n) = true.
Proof. reflexivity. Qed.

Lemma drop_dashes n : drop 2 (lit "--" ++ n) = n.
Proof. reflexivity. Qed.

Lemma parse_words items a : Forall item_ok items -> unambiguous items ->
  parse_args_loop (flat_map words items) a = Ok (foldl add_item a items).
Proof.
  intros HF. revert a. induction HF as [|i items Hi HF IH]; intros a Hu; [done|].
  destruct i as [w|n|n v]; cbn [item_ok] in Hi; cbn [flat_map words app foldl add_item parse_args_loop].
  - rewrite Hi. cbn [negb]. apply IH. by destruct items as [|[]].
  - rewrite is_option_dashes, drop_dashes. cbn [negb]. rewrite bool_decide_eq_false_2 by done.
    destruct items as [|i items]; [done|]. destruct i as [w|m|m v]; [done| |];
      cbn [flat_map words app] in *; rewrite is_option_dashes; cbn [negb]; by apply IH.
  - rewrite is_option_dashes, drop_dashes. cbn [negb]. destruct Hi as [Hn Hv].
    rewrite bool_decide_eq_false_2, Hv by done. cbn [negb]. apply IH. by destruct items as [|[]].
Qed.

(** What follows an option or the end of the line does not change how the words
    before it are read. *)
Lemma parse_appended k : forall argv a tail, (length argv <= k)%nat ->
  match tail with [] => True | t :: _ => is_option t = true end ->
  parse_args_loop (argv ++ tail) a = (let! b := parse_args_loop argv a in parse_args_loop tail b).
Proof.
  induction k as [|k IH]; intros argv a tail Hk Ht; destruct argv as [|t rest]; cbn [length] in Hk; try done; [lia|].
  cbn [app parse_args_loop]. destruct (is_option t) eqn:Et; cbn [negb]; [|apply IH; [lia|done]].
  case_bool_decide; [done|]. destruct rest as [|v rest]; cbn [app].
  - destruct tail as [|u tail]; [done|]. rewrite Ht. done.
  - destruct (is_option v); cbn [negb]; [|apply IH; [cbn in Hk; lia|done]].
    rewrite app_comm_cons. apply IH; [lia|done].
Qed.

Lemma parse_error_is_empty_name k : forall argv a, (length argv <= k)%nat ->
  (exists e, parse_args_loop argv a = Err e) <-> lit "--" ∈ argv.
Proof.
  induction k as [|k IH]; intros argv a Hk; destruct argv as [|t rest]; cbn [length] in Hk; try lia;
    try (cbn; split; [intros [e E]; done|intros E; by apply elem_of_nil in E]).
  cbn [parse_args_loop]. rewrite elem_of_cons. destruct (is_option t) eqn:Et; cbn [negb].
  - assert (Hdash : lit "--" = t <-> drop 2 t = []).
    { unfold is_option in Et. apply bytes_eqb_eq in Et. split; [by intros <-|]. intros Hd.
      rewrite <- (take_drop 2 t), Et, Hd. by rewrite app_nil_r. }
    case_bool_decide as Hn; [split; [intros _; left; by apply Hdash|eauto]|].
    destruct rest as [|v rest].
    { split; [intros [e E]; done|intros [E|E]; [by apply Hdash in E|by apply elem_of_nil in E]]. }
    cbn in Hk. destruct (is_option v) eqn:Ev; cbn [negb].
    + rewrite IH by (cbn; lia). naive_solver.
    + rewrite IH by lia. rewrite elem_of_cons.
      assert (lit "--" <> v) by (intros <-; done). naive_solver.
  - rewrite IH by lia. assert (lit "--" <> t) by (intros <-; done). naive_solver.
Qed.

Lemma sbind_Proceeds {A B} (m : Startup A) (k : A -> Startup B) b :
  sbind m k = Proceeds b <-> exists a, m = Proceeds a /\ k a = Proceeds b.
Proof. destruct m; cbn; naive_solver. Qed.

Lemma value_Proceeds {A} (r : Result A) a : value r = Proceeds a <-> r = Ok a.
Proof. destruct r; cbn; naive_solver. Qed.

(** ** Properties *)

(** (bounds) A number option is read exactly: the value is the decimal number
    given, within 64 bits, or the fallback when the option is absent or empty;
    anything else is refused, and nothing wraps around. *)
Theorem number_option_is_exact (name : bytes) (fallback v : Z) (a : Arguments) (e : Status) :
  (number name fallback a = Ok v <->
     ((ar_options a !! name = None \/ ar_options a !! name = Some []) /\ v = fallback) \/
     (exists text, ar_options a !! name = Some text /\ text <> [] /\ numeral text /\
        decimal text 0 = v /\ v <= u64_max)) /\
  (number name fallback a = Err e -> st_code e = RC.INVALID_ARGUMENT \/ st_code e = RC.SIZE_OVERFLOW).
Proof.
  unfold number. destruct (ar_options a !! name) as [text|].
  - case_bool_decide as Ht.
    + subst text. split; [|done]. naive_solver.
    + rewrite number_loop_spec by (unfold u64_max; lia). split; [naive_solver|apply number_loop_error].
  - split; [naive_solver|done].
Qed.

Lemma number_option_is_exact_witness :
  number (lit "limit") 20 (mkArguments [] {[lit "limit" := lit "18446744073709551615"]}) = Ok u64_max.
Proof.
  apply (number_option_is_exact (lit "limit") 20 u64_max
    (mkArguments [] {[lit "limit" := lit "18446744073709551615"]}) (mkStatus RC.OK [])).
  right. exists (lit "18446744073709551615"). split_and!; [reflexivity|done| |reflexivity|done].
  apply (bool_decide_unpack (numeral (lit "18446744073709551615"))). vm_compute. exact I.
Defined.

(** (roundtrip) A command line of words, flags and valued options, none of whose
    flags is directly followed by a word, is read back as written, the last
    value of an option counting; a line is refused exactly when it contains a
    bare double dash. *)
Theorem command_line_is_read_back (items : list Item) (argv : list bytes) :
  (Forall item_ok items -> unambiguous items ->
     parse_args (flat_map words items) = Ok (foldl add_item no_arguments items)) /\
  ((exists e, parse_args argv = Err e) <-> lit "--" ∈ argv).
Proof.
  split; [apply parse_words|]. by apply (parse_error_is_empty_name (length argv)).
Qed.

Lemma command_line_is_read_back_witness :
  parse_args [lit "submit"; lit "--source"; lit "a"; lit "--dry"; lit "--limit"; lit "3"] =
    Ok (mkArguments [lit "submit"] (<[lit "limit" := lit "3"]> (<[lit "dry" := []]> {[lit "source" := lit "a"]}))).
Proof.
  apply (command_line_is_read_back
    [Bare (lit "submit"); Valued (lit "source") (lit "a"); Flag (lit "dry"); Valued (lit "limit") (lit "3")] []).
  - repeat (constructor; [done|]). constructor.
  - exact I.
Defined.

(** The options the coordinator asks for. *)
Definition coordinator_options : list bytes :=
  [lit "help"; lit "state"; lit "key"; lit "fault-inject"; lit "log-level";
   lit "id"; lit "workers"; lit "verify-samples"; lit "listen";
   lit "admin"; lit "sync"; lit "max-attempts"; lit "chunk-bytes"].

(** (error) An option that the coordinator does not know is ignored: a command
    line with one more option, of any other name, starts the same coordinator.
    (args.hpp says that an unknown flag is a startup failure.) *)
Theorem unknown_option_is_ignored {P : Type} (environment : option bytes) (argv : list bytes) (name v : bytes) :
  name <> [] -> name ∉ coordinator_options -> is_option v = false ->
  coordinator_startup (P:=P) environment (argv ++ [lit "--" ++ name; v]) = coordinator_startup environment argv.
Proof.
  intros Hn Hk Hv. unfold coordinator_startup, parse_args.
  rewrite (parse_appended (length argv)) by done.
  destruct (parse_args_loop argv no_arguments) as [a|e]; [|done].
  cbn [rbind parse_args_loop]. rewrite is_option_dashes, drop_dashes. cbn [negb].
  rewrite bool_decide_eq_false_2, Hv by done. cbn [negb or_exit sbind].
  set (b := mkArguments _ _).
  assert (Hl : forall n, n ∈ coordinator_options -> ar_options b !! n = ar_options a !! n).
  { intros n Hin. cbn. apply lookup_insert_ne. by intros ->. }
  unfold resolve_shared_secret, fault_option, log_level_option, address_option, has, get, number.
  unfold coordinator_options in Hl. cbn [map] in Hl.
  rewrite !Hl by (repeat (apply elem_of_cons; first [left; reflexivity|right]); fail). done.
Qed.

Lemma unknown_option_is_ignored_witness :
  coordinator_startup (P:=unit) None [lit "--state"; lit "s"; lit "--retain"; lit "7"] =
  coordinator_startup None [lit "--state"; lit "s"].
Proof.
  apply (unknown_option_is_ignored None [lit "--state"; lit "s"] (lit "retain") (lit "7")); [done| |reflexivity].
  apply (bool_decide_unpack (lit "retain" ∉ coordinator_options)). vm_compute. exact I.
Defined.

(** (functional) The coordinator that starts has the identity, directory and
    secret it was given and takes its limits from the options; the three that
    the source narrows to 32 bits are reduced modulo 2^32, so that a count of
    2^32 workers starts none. *)
Theorem coordinator_starts_as_configured {P : Type} (environment : option bytes) (argv : list bytes) (a : Arguments)
    (s : CoordinatorStartup P) :
  parse_args argv = Ok a -> coordinator_startup environment argv = Proceeds s ->
  ar_options a !! lit "help" = None /\ get (lit "state") [] a <> [] /\
  cc_state_directory (cs_config s) = get (lit "state") [] a /\
  resolve_shared_secret environment a = Ok (cc_shared_secret (cs_config s)) /\
  EndpointId_parse (get (lit "id") (lit "coordinator") a) = Ok (cc_endpoint_id (cs_config s)) /\
  exists workers samples attempts chunk,
    number (lit "workers") 4 a = Ok workers /\ cc_worker_threads (cs_config s) = wrap 32 workers /\
    number (lit "verify-samples") 3 a = Ok samples /\ cc_verify_sample_chunks (cs_config s) = wrap 32 samples /\
    number (lit "max-attempts") 3 a = Ok attempts /\ number (lit "chunk-bytes") (2 ^ 20) a = Ok chunk /\
    cc_policy (cs_config s) = with_limits default_policy (wrap 32 attempts) chunk.
Proof.
  intros Ha Hs. unfold coordinator_startup in Hs. rewrite Ha in Hs. cbn [or_exit sbind] in Hs.
  apply sbind_Proceeds in Hs as ([] & Hh & Hs). apply sbind_Proceeds in Hs as ([] & Hst & Hs).
  apply sbind_Proceeds in Hs as (secret & Hsec & Hs). apply sbind_Proceeds in Hs as (faults & _ & Hs).
  apply sbind_Proceeds in Hs as (level & _ & Hs). apply sbind_Proceeds in Hs as (id & Hid & Hs).
  apply sbind_Proceeds in Hs as (workers & Hw & Hs). apply sbind_Proceeds in Hs as (samples & Hv & Hs).
  apply sbind_Proceeds in Hs as (la & _ & Hs). apply sbind_Proceeds in Hs as (aa & _ & Hs).
  apply sbind_Proceeds in Hs as (attempts & Hat & Hs). apply sbind_Proceeds in Hs as (chunk & Hc & [= <-]).
  apply value_Proceeds in Hid, Hw, Hv, Hat, Hc. cbn [cs_config cc_state_directory cc_shared_secret cc_endpoint_id
    cc_worker_threads cc_verify_sample_chunks cc_policy].
  split_and!; [| |done| |done|by exists workers, samples, attempts, chunk].
  - unfold exit_unless, has in Hh. destruct (ar_options a !! lit "help") eqn:E; [|done].
    rewrite bool_decide_eq_true_2 in Hh by eauto. done.
  - unfold exit_unless in Hst. case_bool_decide; done.
  - destruct (resolve_shared_secret environment a) as [x|e]; [by injection Hsec as ->|done].
Qed.

Definition demo_key : bytes := concat (replicate 32 (lit "ab")).

Lemma coordinator_starts_as_configured_witness :
  exists workers, number (lit "workers") 4
    (foldl add_item no_arguments
       [Valued (lit "state") (lit "s"); Valued (lit "key") demo_key; Valued (lit "workers") (lit "4294967296")]) = Ok workers /\
    wrap 32 workers = 0.
Proof.
  set (argv := [lit "--state"; lit "s"; lit "--key"; demo_key; lit "--workers"; lit "4294967296"]).
  destruct (coordinator_startup (P:=unit) None argv) as [s|c m|m] eqn:E; [|vm_compute in E; done|vm_compute in E; done].
  destruct (coordinator_starts_as_configured None argv _ s eq_refl E) as (_ & _ & _ & _ & _ & w & _ & _ & _ & Hw & _).
  exists w. split; [exact Hw|]. assert (w = 4294967296) as ->; [|reflexivity].
  assert (number (lit "workers") 4 (foldl add_item no_arguments [Valued (lit "state") (lit "s");
    Valued (lit "key") demo_key; Valued (lit "workers") (lit "4294967296")]) = Ok 4294967296) as E2
    by (vm_compute; reflexivity).
  assert (Ok w = Ok 4294967296) as [= ->]; [|reflexivity]. rewrite <- E2. symmetry. exact Hw.
Defined.

(** (error) A malformed number is no usage error: the exception of
    [Result::value()] is not caught, and the coordinator is terminated by it. *)
Theorem malformed_number_terminates_coordinator {P : Type} (environment : option bytes) (argv : list bytes)
    (a : Arguments) (secret id : bytes) (e : Status) :
  parse_args argv = Ok a -> has (lit "help") a = false -> get (lit "state") [] a <> [] ->
  resolve_shared_secret environment a = Ok secret -> get (lit "fault-inject") [] a = [] ->
  has (lit "log-level") a = false -> EndpointId_parse (get (lit "id") (lit "coordinator") a) = Ok id ->
  number (lit "workers") 4 a = Err e ->
  coordinator_startup (P:=P) environment argv =
    Terminates (lit "Result::value() on failure: " ++ Status_to_string e).
Proof.
  intros Ha Hh Hst Hsec Hf Hl Hid Hw. unfold coordinator_startup. rewrite Ha. cbn [or_exit sbind].
  rewrite Hh. cbn [negb exit_unless sbind]. rewrite bool_decide_eq_false_2 by done. cbn [negb exit_unless sbind].
  rewrite Hsec. cbn [or_exit sbind]. unfold fault_option. rewrite Hf. cbn [FaultInjector_configure].
  unfold log_level_option. rewrite Hl, Hid. cbn. by rewrite Hw.
Qed.

Lemma malformed_number_terminates_coordinator_witness :
  exists m, coordinator_startup (P:=unit) None
    [lit "--state"; lit "s"; lit "--key"; demo_key; lit "--workers"; lit "four"] = Terminates m.
Proof.
  set (argv := [lit "--state"; lit "s"; lit "--key"; demo_key; lit "--workers"; lit "four"]).
  set (a := foldl add_item no_arguments
    [Valued (lit "state") (lit "s"); Valued (lit "key") demo_key; Valued (lit "workers") (lit "four")]).
  set (e := mkStatus RC.INVALID_ARGUMENT (lit "option --workers must be a non-negative integer")).
  exists (lit "Result::value() on failure: " ++ Status_to_string e).
  apply (malformed_number_terminates_coordinator None argv a (replicate 32 xab) (lit "coordinator") e);
    try reflexivity. discriminate.
Defined.
