(* ===== verification/Console.v ===== *)
(** * The operator's command line

    Models [apps/smf.cpp]: the authenticated operator session ([AdminClient])
    and the commands, each a request to the coordinator whose answer is printed.
    The connection is the framing layer's interface, the way to reach an address
    a parameter; output is a list of lines. *)
From S2P Require Import Prelude Status Text Bytes Digest Codec Ids StateObject Provenance Movement Framing Session.
From S2P Require Import Policy Topology WireFields Wire Transport Options.

(** ** Formatted output *)

(** [%s] of a [c_str()] stops at the first null byte. *)
Fixpoint c_str (s : bytes) : bytes :=
  match s with
  | [] => []
  | c :: r => if bool_decide (c = x00) then [] else c :: c_str r
  end.

(** [%-<width>s] and [%<width>llu] *)
Definition pad_right (width : nat) (s : bytes) : bytes := s ++ replicate (width - length s) x20.
Definition pad_left (width : nat) (s : bytes) : bytes := replicate (width - length s) x20 ++ s.

Definition yes_no (b : bool) : bytes := if b then lit "yes" else lit "no".

Definition print_record (r : MovementRecord) : list bytes :=
  [lit "movement " ++ to_hex (m_id r);
   lit "  state            " ++ movement_state_to_string (m_state r);
   lit "  object           " ++ c_str (describe (m_object r));
   lit "  source           " ++ m_source r ++ lit " epoch " ++ std_to_string (inc_epoch (m_source_incarnation r));
   lit "  destination      " ++ m_destination r ++ lit " epoch " ++
     std_to_string (inc_epoch (m_destination_incarnation r));
   lit "  movement gen     " ++ std_to_string (m_generation r);
   lit "  attempts         " ++ std_to_string (m_attempt_count r);
   lit "  bytes            " ++ std_to_string (m_bytes_transferred r);
   lit "  last reason      " ++ reason_to_string (m_last_reason r)] ++
  (if bool_decide (m_last_detail r = []) then [] else [lit "  detail           " ++ c_str (m_last_detail r)]) ++
  [lit "  marker digest    " ++
     (if array_is_zero (m_commit_marker_digest r) then lit "(none)" else to_hex (m_commit_marker_digest r));
   lit "  topology gen     " ++ std_to_string (m_topology_generation r);
   lit "  policy gen       " ++ std_to_string (m_policy_generation r);
   lit "  repeatable       " ++ yes_no (m_repeatable r)].

Definition print_summary (s : MovementSummary) : bytes :=
  take 12 (to_hex (ms_movement_id s)) ++ lit " " ++ pad_right 15 (movement_state_to_string (ms_state s)) ++
  lit " gen=" ++ std_to_string (ms_object_generation s) ++ lit " " ++ ms_source s ++ lit " -> " ++ ms_destination s ++
  lit " attempts=" ++ std_to_string (ms_attempt_count s) ++ lit " bytes=" ++ std_to_string (ms_bytes_transferred s) ++
  lit " reason=" ++ reason_to_string (ms_last_reason s).

Definition print_event (e : ProvenanceEvent) : bytes :=
  pad_left 4 (std_to_string (ev_sequence e)) ++ lit " " ++ pad_right 14 (provenance_kind_to_string (ev_kind e)) ++
  lit " " ++ pad_right 15 (movement_state_to_string (ev_state e)) ++ lit " gen=" ++
  pad_right 4 (std_to_string (ev_movement_generation e)) ++ lit " " ++ pad_right 32 (reason_to_string (ev_reason e)) ++
  lit " " ++ c_str (ev_detail e).

Definition print_topology (t : TopologyReport) : list bytes :=
  (lit "topology generation " ++ std_to_string (tr_topology_generation t) ++ lit ", coordinator " ++
   inc_endpoint (tr_coordinator t) ++ lit " epoch " ++ std_to_string (inc_epoch (tr_coordinator t))) ::
  map (fun e => lit "  " ++ pad_right 20 (er_endpoint e) ++ lit " " ++
        pad_right 8 (if er_live e then lit "live" else lit "dead") ++ lit " epoch=" ++
        pad_right 4 (std_to_string (inc_epoch (er_incarnation e))) ++ lit " data=" ++
        c_str (SocketAddress_to_string (er_data_address e)) ++ lit " contract=" ++ c_str (er_contract e))
    (tr_endpoints t).

Definition print_policy (p : PolicyReport) : list bytes :=
  let policy := ps_policy (yr_policy p) in
  [lit "policy generation " ++ std_to_string (ps_generation (yr_policy p)) ++ lit " digest " ++
     take 16 (to_hex (yr_policy_digest p));
   lit "  max_attempts            " ++ std_to_string (po_max_attempts policy);
   lit "  max_inflight_chunks     " ++ std_to_string (po_max_inflight_chunks policy);
   lit "  chunk bytes             " ++ std_to_string (po_min_chunk_bytes policy) ++ lit ".." ++
     std_to_string (po_max_chunk_bytes policy);
   lit "  max object bytes        " ++ std_to_string (po_max_object_bytes policy);
   lit "  allow_resume            " ++ yes_no (po_allow_resume policy);
   lit "  require compatibility   " ++ yes_no (po_require_compatibility_evidence policy)].

(** ** The operator session *)

(** A [Result] made from a [Status]: one that is OK is turned into an error. *)
Definition from_status {A} (s : Status) : Result A :=
  if bool_decide (st_code s = RC.OK) then fail RC.INTERNAL_ERROR "Result constructed from an OK status" else Err s.

Section client.
Context {C : Type} `{!Connection C} {S : Type} `{!EntropySource S}.

(** [AdminClient::handshake]; the issuer's entropy is drawn for the boot id and
    then for the nonce. *)
Definition AdminClient_handshake (operator secret : bytes) (issuer : S) (stream : FrameStream C) :
    FrameStream C * Result unit :=
  let '(boot, issuer) := new_boot_id issuer in
  let identity := mkPeer operator boot 1 SR.ADMIN kPeerContract (sha256 (lit "smf-cli")) in
  match make_hello_request secret identity issuer with
  | (_, Err e) => (stream, Err e)
  | (_, Ok request) =>
    match FrameStream_send stream MT.HELLO (HelloRequest_encode request) 0 with
    | (stream, Err e) => (stream, Err e)
    | (stream, Ok _) =>
      match FrameStream_receive stream with
      | (stream, Err e) => (stream, Err e)
      | (stream, Ok frame) =>
        if negb (bool_decide (fh_type (fr_header frame) = MT.HELLO_ACK)) then
          (stream, fail RC.PROTOCOL_HANDSHAKE_FAILED "the coordinator refused the operator session")
        else
          match (let! response := decode_all (message_limits (fr_payload frame)) HelloResponse_decode (fr_payload frame) in
                 verify_hello_response secret request response) with
          | Err e => (stream, Err e)
          | Ok key => (mkFrameStream (fs_connection stream) (set_session_key (fs_codec stream) key)
                         (fs_max_payload_bytes stream), Ok tt)
          end
      end
    end
  end.

(** What the client makes of the frame that answers a request. *)
Definition answer (Resp : Type) `{!WireMessage Resp} (frame : Frame) : Result Resp :=
  if bool_decide (fh_type (fr_header frame) = MT.ERROR) then
    match decode_message ErrorMessage frame with
    | Ok m => from_status (mkStatus (erm_code m) (erm_detail m))
    | Err _ => fail RC.PROTOCOL_MALFORMED "the coordinator sent a bad error"
    end
  else if negb (bool_decide (fh_type (fr_header frame) = wm_type Resp)) then
    Err (mkStatus RC.PROTOCOL_UNKNOWN_MESSAGE
      (lit "expected " ++ message_type_to_string (wm_type Resp) ++ lit ", received " ++
       message_type_to_string (fh_type (fr_header frame))))
  else decode_message Resp frame.

(** [AdminClient::call] *)
Definition AdminClient_call {Req} `{!WireMessage Req} (Resp : Type) `{!WireMessage Resp} (request : Req)
    (stream : FrameStream C) : FrameStream C * Result Resp :=
  match send_message stream request with
  | (stream, Err e) => (stream, Err e)
  | (stream, Ok _) =>
    match FrameStream_receive stream with
    | (stream, Err e) => (stream, Err e)
    | (stream, Ok frame) => (stream, answer Resp frame)
    end
  end.

(** ** Commands *)

(** The exit code and the lines written to the two outputs. *)
Record Outcome := mkOutcome { oc_exit : Z; oc_out : list bytes; oc_err : list bytes }.

Definition usage_error (line : bytes) : Outcome := mkOutcome 2 [] [line].

(** A call whose answer is printed by [print]; [label] precedes a refusal. *)
Definition report {Resp} (label : bytes) (print : Resp -> list bytes) (r : Result Resp) : Outcome :=
  match r with
  | Err e => mkOutcome 1 [label ++ Status_to_string e] []
  | Ok m => mkOutcome 0 (print m) []
  end.

Definition movement_option (a : Arguments) : Result bytes :=
  let text := get (lit "movement") [] a in
  if bool_decide (text = []) then fail RC.INVALID_ARGUMENT "--movement is required"
  else FixedId_from_hex kMovementIdBytes text.

(** The object a submission names, or the complaint that it names none. *)
Definition object_option (a : Arguments) : bytes + bytes :=
  let text := get (lit "object") [] a in
  if negb (bool_decide (text = [])) then
    match FixedId_from_hex kStateObjectIdBytes text with
    | Ok id => inl id
    | Err e => inr (Status_to_string e)
    end
  else
    match state_kind_from_string (get (lit "kind") [] a) with
    | None => inr (lit "--kind is required when --object is not given")
    | Some kind =>
      match derive_state_object_id kind (get (lit "name") [] a) with
      | Ok id => inl id
      | Err e => inr (Status_to_string e)
      end
    end.

Definition print_accepted (m : MovementAccepted) : list bytes :=
  (lit "accepted movement " ++ to_hex (ma_movement_id m) ++ lit " state=" ++ movement_state_to_string (ma_state m)) ::
  (if bool_decide (ma_detail m = []) then [] else [lit "note: " ++ c_str (ma_detail m)]).

(** The request of [smf submit]. *)
Definition submission (a : Arguments) : Startup (SubmitMovement + bytes) :=
  match object_option a with
  | inr line => Proceeds (inr line)
  | inl object =>
    let~ generation := value (number (lit "generation") 1 a) in
    match EndpointId_parse (get (lit "source") [] a), EndpointId_parse (get (lit "destination") [] a) with
    | Ok source, Ok destination => Proceeds (inl (mkSubmitMovement object generation source destination))
    | _, _ => Proceeds (inr (lit "--source and --destination are required"))
    end
  end.

(** A command that names a movement. *)
Definition on_movement {Req} `{!WireMessage Req} {Resp} `{!WireMessage Resp} (make : bytes -> Req)
    (print : Resp -> list bytes) (a : Arguments) (stream : FrameStream C) : Outcome :=
  match movement_option a with
  | Err e => usage_error (Status_to_string e)
  | Ok id => report (lit "ERROR ") print (AdminClient_call Resp (make id) stream).2
  end.

Definition run_command (command : bytes) (a : Arguments) (stream : FrameStream C) : Startup Outcome :=
  if bytes_eqb command (lit "submit") then
    let~ request := submission a in
    Proceeds (match request with
              | inr line => usage_error line
              | inl request =>
                  report (lit "REFUSED ") print_accepted (AdminClient_call MovementAccepted request stream).2
              end)
  else if bytes_eqb command (lit "status") then
    Proceeds (on_movement mkQueryMovement (fun m => print_record (mst_record m)) a stream)
  else if bytes_eqb command (lit "list") then
    let~ limit := value (number (lit "limit") 20 a) in
    let~ offset := value (number (lit "offset") 0 a) in
    Proceeds (report (lit "ERROR ") (fun m => map print_summary (ml_movements m))
      (AdminClient_call MovementList (mkListMovements (wrap 32 limit) (wrap 32 offset)) stream).2)
  else if bytes_eqb command (lit "cancel") then
    Proceeds (on_movement mkCancelMovement (fun m => print_record (mst_record m)) a stream)
  else if bytes_eqb command (lit "reconcile") then
    Proceeds (on_movement mkReconcileMovement (fun m => print_record (mst_record m)) a stream)
  else if bytes_eqb command (lit "provenance") then
    Proceeds (on_movement mkProvenanceRequest (fun m => map print_event (pr_events m)) a stream)
  else if bytes_eqb command (lit "topology") then
    Proceeds (report (lit "ERROR ") print_topology (AdminClient_call TopologyReport mkTopologyRequest stream).2)
  else if bytes_eqb command (lit "policy") then
    Proceeds (report (lit "ERROR ") print_policy (AdminClient_call PolicyReport mkPolicyRequest stream).2)
  else if bytes_eqb command (lit "shutdown") then
    Proceeds (report (lit "ERROR ")
      (fun m => [lit "coordinator acknowledged shutdown: " ++ reason_to_string (sk_code m)])
      (AdminClient_call ShutdownAck mkShutdownRequest stream).2)
  else Proceeds (usage_error (lit "unknown command '" ++ command ++ lit "'")).

(** [main]; [dial] is [TcpConnection::connect] with the budget of ten seconds. *)
Definition smf_main (environment : option bytes) (dial : SocketAddress -> Result C) (issuer : S) (argv : list bytes) :
    Startup Outcome :=
  match parse_args argv with
  | Err e => Proceeds (usage_error (Status_to_string e))
  | Ok a =>
    match ar_positional a with
    | [] => Proceeds (usage_error (lit "smf"))
    | command :: _ =>
      if has (lit "help") a then Proceeds (mkOutcome 0 [] [lit "smf"])
      else
      match SocketAddress_parse (get (lit "coordinator") (lit "127.0.0.1:9600") a) with
      | Err e => Proceeds (usage_error (Status_to_string e))
      | Ok address =>
        match resolve_shared_secret environment a with
        | Err e => Proceeds (usage_error (Status_to_string e))
        | Ok secret =>
          match dial address with
          | Err e => Proceeds (mkOutcome 1 [] [lit "cannot reach the coordinator: " ++ Status_to_string e])
          | Ok connection =>
            match EndpointId_parse (get (lit "as") (lit "smf-cli") a) with
            | Err e => Proceeds (usage_error (Status_to_string e))
            | Ok operator =>
              match AdminClient_handshake operator secret issuer
                      (mkFrameStream connection FrameCodec_init (2 ^ 20)) with
              | (_, Err e) => Proceeds (mkOutcome 1 [] [lit "operator session failed: " ++ Status_to_string e])
              | (stream, Ok _) => run_command command a stream
              end
            end
          end
        end
      end
    end
  end.
End client.

(** ** The answer to a request *)

Section delivery.
Context {C D : Type} `{!Connection C, !ConnectionLaws C, !Connection D, !ConnectionLaws D}.

(** A message that one side sends arrives at the other as a frame of its type
    with its encoding. *)
Lemma frame_arrives {T : Type} `{!WireMessage T} (m : T) (r r' : FrameStream D) (s : FrameStream C)
    (wire rest : bytes) :
  wm_type T <> MT.INVALID -> in_step r s -> fc_send_sequence (fs_codec r) + 1 < 2 ^ 64 -> responsive C ->
  send_message r m = (r', Ok tt) -> outgoing (fs_connection r') = outgoing (fs_connection r) ++ wire ->
  incoming (fs_connection s) = wire ++ rest ->
  exists s' f, FrameStream_receive s = (s', Ok f) /\ fh_type (fr_header f) = wm_type T /\
    fr_payload f = wm_encode m /\ incoming (fs_connection s') = rest.
Proof.
  intros Ht Hst Hb HR Hs Ho Hi. unfold send_message in Hs. destruct (wm_validate m) as [[]|]; [|done].
  set (msg := mkMessage (wm_type T) 0 (wm_encode m)).
  assert (send_messages r [msg] = (r', Ok tt)) as Hsend by (cbn [send_messages]; unfold msg; cbn; by rewrite Hs).
  destruct (deliver (C := D) (D := C) [msg] r r' s wire rest Hst) as [Hd Hl]; try done.
  { constructor; [|constructor]. by split_and!. }
  destruct (Hl HR) as (s' & fs & E). destruct (Hd s' fs E) as (Hc & Hin & _). cbn [length receive_messages] in E.
  destruct (FrameStream_receive s) as [s1 [f|e]]; [|done]. injection E as -> E.
  destruct fs as [|f1 [|]]; try done. injection E as ->. injection Hc as Htype _ Hp. by exists s', f1.
Qed.
End delivery.

Lemma from_status_Ok {A} (s : Status) (a : A) : from_status s <> Ok a.
Proof. unfold from_status. by case_bool_decide. Qed.

Lemma answer_Ok {Resp : Type} `{!WireMessage Resp} {ok} `{!WireLaws Resp ok} frame m :
  answer Resp frame = Ok m ->
  fh_type (fr_header frame) = wm_type Resp /\ fh_type (fr_header frame) <> MT.ERROR /\ ok m /\
  fr_payload frame = wm_encode m.
Proof.
  unfold answer. case_bool_decide as He.
  - destruct (decode_message ErrorMessage frame) as [x|e]; [|done]. intros H. by apply from_status_Ok in H.
  - case_bool_decide as Ht; cbn [negb]; [|done]. intros H. by apply decode_message_canonical in H.
Qed.

(** The message type that answers a command. *)
Definition reply_type (command : bytes) : MessageType :=
  if bytes_eqb command (lit "submit") then MT.MOVEMENT_ACCEPTED
  else if bytes_eqb command (lit "list") then MT.MOVEMENT_LIST
  else if bytes_eqb command (lit "provenance") then MT.PROVENANCE_REPORT
  else if bytes_eqb command (lit "topology") then MT.TOPOLOGY_REPORT
  else if bytes_eqb command (lit "policy") then MT.POLICY_REPORT
  else if bytes_eqb command (lit "shutdown") then MT.SHUTDOWN_ACK
  else MT.MOVEMENT_STATUS.

Section outcomes.
Context {C : Type} `{!Connection C}.

(** A request went out on the stream and a frame of this type came back. *)
Definition was_answered (type : MessageType) (stream : FrameStream C) : Prop :=
  exists sent received frame, FrameStream_receive sent = (received, Ok frame) /\
    fh_type (fr_header frame) = type /\ type <> MT.ERROR /\
    exists request payload, FrameStream_send stream request payload 0 = (sent, Ok tt).

Lemma call_answered {Req Resp : Type} `{!WireMessage Req, !WireMessage Resp} {ok} `{!WireLaws Resp ok}
    (request : Req) label (print : Resp -> list bytes) stream :
  oc_exit (report label print (AdminClient_call Resp request stream).2) = 0 -> was_answered (wm_type Resp) stream.
Proof.
  unfold AdminClient_call, send_message. destruct (wm_validate request) as [[]|]; [|done].
  destruct (FrameStream_send stream _ _ 0) as [sent [[]|e]] eqn:Es; [|done].
  destruct (FrameStream_receive sent) as [received [frame|e]] eqn:Er; [|done]. cbn [snd].
  destruct (answer Resp frame) as [m|e] eqn:Ea; [|done]. apply answer_Ok in Ea as (Ht & Hne & _). intros _.
  exists sent, received, frame. split_and!; [done|done|by rewrite <- Ht|eauto].
Qed.

Lemma on_movement_answered {Req Resp : Type} `{!WireMessage Req, !WireMessage Resp} {ok} `{!WireLaws Resp ok}
    (make : bytes -> Req) (print : Resp -> list bytes) a stream :
  oc_exit (on_movement make print a stream) = 0 -> was_answered (wm_type Resp) stream.
Proof. unfold on_movement. destruct (movement_option a); [apply call_answered|done]. Qed.
End outcomes.

(** ** Properties *)

(** (safety) The console reports success only on an answer: whatever the
    command and its options, an exit code of zero means that the request was
    sent on the operator session and the coordinator replied to it with the
    message the command expects, not with an error. *)
Theorem success_needs_the_coordinators_answer {C : Type} `{!Connection C} (command : bytes) (a : Arguments)
    (stream : FrameStream C) (o : Outcome) :
  run_command command a stream = Proceeds o -> oc_exit o = 0 -> was_answered (reply_type command) stream.
Proof.
  unfold run_command, reply_type. intros Ho Hz.
  destruct (bytes_eqb command (lit "submit")) eqn:E1.
  { apply sbind_Proceeds in Ho as ([request|line] & _ & [= <-]); [by apply call_answered in Hz|done]. }
  destruct (bytes_eqb command (lit "status")) eqn:E2.
  { apply bytes_eqb_eq in E2 as ->. injection Ho as <-. by apply on_movement_answered in Hz. }
  destruct (bytes_eqb command (lit "list")) eqn:E3.
  { apply sbind_Proceeds in Ho as (limit & _ & Ho). apply sbind_Proceeds in Ho as (offset & _ & [= <-]).
    by apply call_answered in Hz. }
  destruct (bytes_eqb command (lit "cancel")) eqn:E4.
  { apply bytes_eqb_eq in E4 as ->. injection Ho as <-. by apply on_movement_answered in Hz. }
  destruct (bytes_eqb command (lit "reconcile")) eqn:E5.
  { apply bytes_eqb_eq in E5 as ->. injection Ho as <-. by apply on_movement_answered in Hz. }
  destruct (bytes_eqb command (lit "provenance")) eqn:E6.
  { injection Ho as <-. by apply on_movement_answered in Hz. }
  destruct (bytes_eqb command (lit "topology")) eqn:E7.
  { injection Ho as <-. by apply call_answered in Hz. }
  destruct (bytes_eqb command (lit "policy")) eqn:E8.
  { injection Ho as <-. by apply call_answered in Hz. }
  destruct (bytes_eqb command (lit "shutdown")) eqn:E9.
  { injection Ho as <-. by apply call_answered in Hz. }
  by injection Ho as <-.
Qed.

(** A coordinator's answer to a query, on the operator's session. *)
Definition demo_answer : FrameStream Pipe :=
  Eval vm_compute in
  (send_message (mkFrameStream (mkPipe [] []) keyed_codec (2 ^ 20)) (mkShutdownAck RC.OK (lit "shutting down"))).1.
Definition demo_console : FrameStream Pipe :=
  mkFrameStream (mkPipe [pipe_sent (fs_connection demo_answer)] []) keyed_codec (2 ^ 20).

Lemma success_needs_the_coordinators_answer_witness : was_answered MT.SHUTDOWN_ACK demo_console.
Proof.
  apply (success_needs_the_coordinators_answer (lit "shutdown") no_arguments demo_console
    (mkOutcome 0 [lit "coordinator acknowledged shutdown: OK"] [])); [vm_compute|]; reflexivity.
Defined.

(** The coordinator's side of an answer: the message asked for, or an error. *)
Definition send_reply {D Resp : Type} `{!Connection D, !WireMessage Resp} (r : FrameStream D)
    (reply : Resp + ErrorMessage) : FrameStream D * Result unit :=
  match reply with inl m => send_message r m | inr e => send_message r e end.

Definition reply_ok {Resp : Type} (ok : Resp -> Prop) (reply : Resp + ErrorMessage) : Prop :=
  match reply with inl m => ok m | inr e => ErrorMessage_ok e /\ erm_code e <> RC.OK end.

(** (functional) The console relays what the coordinator said: when the
    coordinator, in step with the operator's session, answers a request with the
    message the request calls for, the call returns exactly that message; when
    it answers with an error, the call fails with the coordinator's own reason
    code and detail. *)
Theorem call_relays_the_answer {C D Req Resp : Type}
    `{!Connection C, !ConnectionLaws C, !Connection D, !ConnectionLaws D, !WireMessage Req, !WireMessage Resp}
    {ok} `{!WireLaws Resp ok} (request : Req) (reply : Resp + ErrorMessage)
    (stream sent : FrameStream C) (r r' : FrameStream D) (wire rest : bytes) :
  reply_ok ok reply -> wm_type Resp <> MT.INVALID -> wm_type Resp <> MT.ERROR ->
  send_message stream request = (sent, Ok tt) -> in_step r sent ->
  fc_send_sequence (fs_codec r) + 1 < 2 ^ 64 -> responsive C ->
  send_reply r reply = (r', Ok tt) -> outgoing (fs_connection r') = outgoing (fs_connection r) ++ wire ->
  incoming (fs_connection sent) = wire ++ rest ->
  exists received, incoming (fs_connection received) = rest /\
    AdminClient_call Resp request stream =
      (received, match reply with inl m => Ok m | inr e => Err (mkStatus (erm_code e) (erm_detail e)) end).
Proof.
  intros Hok Ht Hne Hq Hst Hb HR Hs Ho Hi. unfold AdminClient_call. rewrite Hq.
  destruct reply as [m|e]; cbn [send_reply reply_ok] in *.
  - destruct (frame_arrives m r r' sent wire rest Ht Hst Hb HR Hs Ho Hi) as (received & [h p] & -> & Hty & Hp & Hin).
    cbn [fr_header fr_payload] in Hty, Hp. subst p. exists received. split; [done|]. f_equal. unfold answer. cbn [fr_header].
    rewrite bool_decide_eq_false_2 by congruence. rewrite bool_decide_eq_true_2 by done.
    cbn [negb]. by apply decode_message_encode.
  - assert (wm_type ErrorMessage <> MT.INVALID) as Hv by done.
    destruct (frame_arrives e r r' sent wire rest Hv Hst Hb HR Hs Ho Hi)
      as (received & [h p] & -> & Hty & Hp & Hin).
    cbn [fr_header fr_payload] in Hty, Hp. subst p. exists received. split; [done|]. f_equal. destruct Hok as [He Hc].
    unfold answer. cbn [fr_header]. rewrite bool_decide_eq_true_2 by done.
    rewrite (decode_message_encode (ok := ErrorMessage_ok)) by done.
    unfold from_status. cbn [st_code]. by rewrite bool_decide_eq_false_2.
Qed.

Definition demo_refusal : ErrorMessage := mkErrorMessage RC.MOVEMENT_NOT_FOUND (lit "no such movement").
Definition demo_request : QueryMovement := mkQueryMovement (replicate kMovementIdBytes x07).
Definition demo_operator (input : bytes) : FrameStream Pipe :=
  mkFrameStream (mkPipe [input] []) keyed_codec (2 ^ 20).
Definition demo_coordinator_stream : FrameStream Pipe := mkFrameStream (mkPipe [] []) keyed_codec (2 ^ 20).
Definition demo_refused : FrameStream Pipe :=
  Eval vm_compute in (send_message demo_coordinator_stream demo_refusal).1.

Lemma call_relays_the_answer_witness :
  (AdminClient_call MovementStatus demo_request (demo_operator (pipe_sent (fs_connection demo_refused)))).2 =
    Err (mkStatus RC.MOVEMENT_NOT_FOUND (lit "no such movement")).
Proof.
  set (s := demo_operator (pipe_sent (fs_connection demo_refused))).
  destruct (call_relays_the_answer (Resp := MovementStatus) demo_request (inr demo_refusal) s (send_message s demo_request).1
    demo_coordinator_stream demo_refused (pipe_sent (fs_connection demo_refused)) []) as (received & _ & E).
  - split; [|done]. repeat split; vm_compute; congruence.
  - done.
  - done.
  - vm_compute. reflexivity.
  - repeat split; vm_compute; congruence.
  - vm_compute. reflexivity.
  - exact pipe_responsive.
  - vm_compute. reflexivity.
  - reflexivity.
  - vm_compute. reflexivity.
  - rewrite E. reflexivity.
Defined.
