(* ===== verification/Endpoint.v ===== *)
(** * The endpoint's process

    Models what [apps/smf-endpoint.cpp] and [apps/smf-endpoint-cuda.cpp] do once
    the agent runs: publishing what the command line names and announcing it.
    The device path is a parameter: [Device] has the one of a build with CUDA,
    [publish_from_cuda_device_stub] is the one of a build without it
    ([apps/cuda_publish_stub.cpp]). *)
From S2P Require Import Prelude Status Text Bytes Ids StateObject Effect CommitMarker ObjectStore Framing Agent Publication.
From S2P Require Import Faults.

(** ** Publication specifications *)

(** The generation of a specification, in unchecked 64-bit arithmetic. *)
Fixpoint parse_generation (text : bytes) (generation : Z) : Result Z :=
  match text with
  | [] => Ok generation
  | c :: rest =>
      if (zb c <? 48) || (57 <? zb c) then fail RC.INVALID_GENERATION "generation must be numeric"
      else parse_generation rest (wrap 64 (wrap 64 (generation * 10) + (zb c - 48)))
  end.

(** [kind:name:generation:path]; the path is the rest, colons included. *)
Definition cut_spec (spec : bytes) : option (bytes * bytes * bytes * bytes) :=
  first ← find_byte x3a spec;
  let tail1 := drop (first + 1) spec in
  second ← find_byte x3a tail1;
  let tail2 := drop (second + 1) tail1 in
  third ← find_byte x3a tail2;
  Some (take first spec, take second tail1, take third tail2, drop (third + 1) tail2).

Definition parse_publish_spec (spec : bytes) : Result (StateKind * bytes * Z * bytes) :=
  match cut_spec spec with
  | None => fail RC.INVALID_ARGUMENT "--publish expects kind:name:generation:path"
  | Some (kind_text, name, generation_text, path) =>
    match state_kind_from_string kind_text with
    | None => fail RC.INVALID_STATE_KIND "unrecognized state kind"
    | Some kind =>
      let! generation := parse_generation generation_text 0 in
      Ok (kind, name, generation, path)
    end
  end.

(** [KIND:NAME:GENERATION:BYTES:SEED] *)
Definition parse_cuda_spec (spec : bytes) : Result (StateKind * bytes * Z * Z * Z) :=
  match split spec x3a with
  | [kind_text; name; generation_text; bytes_text; seed_text] =>
    match state_kind_from_string kind_text with
    | None => fail RC.INVALID_STATE_KIND "unrecognized state kind"
    | Some kind =>
      match parse_u64 generation_text, parse_u64 bytes_text, parse_u64 seed_text with
      | Some generation, Some size, Some seed => Ok (kind, name, generation, size, seed)
      | _, _, _ => fail RC.INVALID_ARGUMENT "generation, bytes, and seed must be unsigned integers"
      end
    end
  | _ => fail RC.INVALID_ARGUMENT "--publish-cuda expects KIND:NAME:GENERATION:BYTES:SEED"
  end.

Section publishing.
Context {C : Type} `{!Connection C} {S : Type} `{!EntropySource S}.
Abbreviation Ag := (Eff (AWorld C S)).

(** What the endpoint announces is the descriptor of the marker on disk. *)
Definition announce_published (v : Version) : Ag StateObjectDescriptor :=
  let$ options := peek (fun a => agent_store (ag_config a)) in
  let$ marker := on_store (read_commit_marker options v) in
  agent_announce (cm_object marker) ;$
  eff_ret (cm_object marker).

Definition publish_spec_to_file (spec : bytes) (opened copied : option bytes) : Ag StateObjectDescriptor :=
  let$ (kind, name, generation, path) := eff_lift (parse_publish_spec spec) in
  publish_file kind name generation path opened copied (lit "smf-endpoint") true ;$
  let$ object_id := eff_lift (derive_state_object_id kind name) in
  let$ size := disk_peek (fun d => object_size d (object_id, generation)) in
  let$ _ := eff_lift size in
  let$ options := peek (fun a => agent_store (ag_config a)) in
  let$ _ := on_store (digest_object options (object_id, generation)) in
  announce_published (object_id, generation).

Definition publish_from_cuda_device_stub (kind : StateKind) (name : bytes) (generation size seed : Z)
    (repeatable : bool) : Ag unit :=
  eff_lift (fail RC.UNSUPPORTED "this build has no CUDA support; reconfigure with -DSMF_ENABLE_CUDA=ON").

Definition publish_cuda_spec
    (publish_from_cuda_device : StateKind -> bytes -> Z -> Z -> Z -> bool -> Ag unit)
    (spec : bytes) (repeatable : bool) : Ag unit :=
  let$ (kind, name, generation, size, seed) := eff_lift (parse_cuda_spec spec) in
  publish_from_cuda_device kind name generation size seed repeatable ;$
  let$ object_id := eff_lift (derive_state_object_id kind name) in
  announce_published (object_id, generation) ;$
  eff_ret tt.
End publishing.

(** ** Properties *)

Lemma parse_generation_decimal text acc : numeral text -> in_u 64 acc ->
  parse_generation text acc = Ok (wrap 64 (decimal text acc)).
Proof.
  revert acc. induction text as [|c text IH]; intros acc HF Ha; cbn [parse_generation].
  { cbn. by rewrite wrap_small. }
  apply list.Forall_cons in HF as [Hc HF]. rewrite not_digit, Hc. cbn [negb]. fold (digit c).
  rewrite IH; [|done|apply wrap_in_u; lia]. f_equal. unfold wrap. cbn. apply decimal_mod.
  rewrite Z.mod_mod by lia. by rewrite Zplus_mod_idemp_l.
Qed.

Lemma drop_past {A} (a : list A) x b : drop (length a + 1) (a ++ x :: b) = b.
Proof.
  replace (length a + 1)%nat with (length (a ++ [x])) by (rewrite length_app; done).
  replace (a ++ x :: b) with ((a ++ [x]) ++ b) by (by rewrite <- app_assoc). apply drop_app_exact.
Qed.

Lemma cut_spec_parts kind name generation path : x3a ∉ kind -> x3a ∉ name -> x3a ∉ generation ->
  cut_spec (kind ++ x3a :: name ++ x3a :: generation ++ x3a :: path) = Some (kind, name, generation, path).
Proof.
  intros Hk Hn Hg. unfold cut_spec. rewrite find_byte_app by done. cbn [mbind option_bind].
  rewrite drop_past, find_byte_app by done. cbn [mbind option_bind].
  rewrite drop_past, find_byte_app by done. cbn [mbind option_bind].
  by rewrite !drop_past, !take_app_exact.
Qed.

Lemma state_kind_no_colon kind : x3a ∉ state_kind_to_string kind.
Proof. destruct kind; apply contains_false; reflexivity. Qed.

(** (roundtrip) A publication specification in the documented form names what
    it says: a kind, a name without a colon, a 64-bit generation, and a path,
    colons included. *)
Theorem publish_spec_is_read_back (kind : StateKind) (name path : bytes) (generation : Z) :
  x3a ∉ name -> in_u 64 generation ->
  parse_publish_spec (state_kind_to_string kind ++ x3a :: name ++ x3a :: std_to_string generation ++ x3a :: path) =
    Ok (kind, name, generation, path).
Proof.
  intros Hn Hg. destruct (to_string_decimal generation Hg) as (H1 & H2 & _). unfold parse_publish_spec.
  rewrite cut_spec_parts; [|apply state_kind_no_colon|done|by apply numeral_excludes].
  rewrite state_kind_from_to_string, parse_generation_decimal by done. cbn [rbind]. by rewrite H2, wrap_small.
Qed.

Lemma publish_spec_is_read_back_witness :
  parse_publish_spec (lit "MODEL:net:7:C:\weights") = Ok (SK.MODEL, lit "net", 7, lit "C:\weights").
Proof.
  apply (publish_spec_is_read_back SK.MODEL (lit "net") (lit "C:\weights") 7);
    [by apply contains_false|done].
Defined.

(** (bounds) The generation of a specification is read modulo 2^64: asking for
    a generation beyond 64 bits publishes the object as a small one instead of
    being refused. *)
Theorem huge_generation_publishes_another (kind : StateKind) (name path text : bytes) (n : Z) :
  x3a ∉ name -> numeral text ->
  decimal text 0 = 2 ^ 64 + n -> 0 <= n < 2 ^ 64 ->
  parse_publish_spec (state_kind_to_string kind ++ x3a :: name ++ x3a :: text ++ x3a :: path) =
    Ok (kind, name, n, path).
Proof.
  intros Hn HF Hd Hr. unfold parse_publish_spec.
  rewrite cut_spec_parts; [|apply state_kind_no_colon|done|by apply numeral_excludes].
  rewrite state_kind_from_to_string, parse_generation_decimal, Hd by done. cbn [rbind].
  unfold wrap. rewrite Zplus_mod, Z_mod_same_full, Z.add_0_l, Z.mod_mod by lia. by rewrite Z.mod_small.
Qed.

Lemma huge_generation_publishes_another_witness :
  parse_publish_spec (lit "MODEL:net:18446744073709551617:w.bin") =
    Ok (SK.MODEL, lit "net", 1, lit "w.bin").
Proof.
  apply (huge_generation_publishes_another SK.MODEL (lit "net") (lit "w.bin") (lit "18446744073709551617") 1);
    [by apply contains_false| |reflexivity|lia].
  apply (bool_decide_unpack (numeral (lit "18446744073709551617"))). vm_compute. exact I.
Defined.

(** (error) A build without device support refuses: a well-formed device
    specification ends in [UNSUPPORTED] and nothing was published, announced or
    otherwise changed. *)
Theorem device_publication_is_refused {C S : Type} `{!Connection C, !EntropySource S} (spec : bytes)
    (repeatable : bool) (w : AWorld C S) x :
  parse_cuda_spec spec = Ok x ->
  publish_cuda_spec publish_from_cuda_device_stub spec repeatable w =
    (w, fail RC.UNSUPPORTED "this build has no CUDA support; reconfigure with -DSMF_ENABLE_CUDA=ON").
Proof.
  intros Hs. destruct x as [[[[kind name] generation] size] seed]. unfold publish_cuda_spec. rewrite Hs. reflexivity.
Qed.
