(* ===== verification/Files.v ===== *)
(** * Files (src/src/file_utils.cpp, src/src/file_utils.hpp)

    [FileHandle], [FileLock], [sync_existing_file] and [atomic_replace_file] over
    a POSIX file system with a page cache and a C library that buffers writes.
    A machine keeps the file system, the streams the handles own, the outcomes
    of the system calls to come and the states the file system went through, so
    every call can fail, a buffer can reach the file in parts, and a crash can
    happen between any two changes.

    What the platform guarantees, after fsync(2) and rename(2): the bytes of a
    file survive a crash when the file was synced since its last change, and are
    arbitrary otherwise; a directory entry is atomic, but without an fsync of
    the directory a crash may bring back any entry the name had. *)
From S2P Require Import Prelude Status Effect.

(** ** The file system *)

Record Inode := mkInode { in_data : bytes; in_synced : bool }.

(** [fs_names]: what a name referred to since the machine started, latest
    first. *)
Record Fs := mkFs { fs_inodes : gmap nat Inode; fs_names : gmap bytes (list (option nat)) }.

Definition history (fs : Fs) (path : bytes) : list (option nat) := default [None] (fs_names fs !! path).
Definition entry (fs : Fs) (path : bytes) : option nat := default None (head (history fs path)).
Definition data_of (fs : Fs) (i : nat) : bytes := from_option in_data [] (fs_inodes fs !! i).
Definition contents (fs : Fs) (path : bytes) : option bytes := data_of fs <$> entry fs path.

Definition bind (path : bytes) (b : option nat) (fs : Fs) : Fs :=
  mkFs (fs_inodes fs) (<[path := b :: history fs path]> (fs_names fs)).
Definition put_inode (i : nat) (n : Inode) (fs : Fs) : Fs := mkFs (<[i := n]> (fs_inodes fs)) (fs_names fs).

(** [pwrite]: a gap before the offset is filled with zeros. *)
Definition pwrite (file : bytes) (offset : nat) (data : bytes) : bytes :=
  take offset file ++ replicate (offset - length file) x00 ++ data ++ drop (offset + length data) file.

Definition ftruncate (file : bytes) (size : nat) : bytes :=
  take size file ++ replicate (size - length file) x00.

(** What a restart after a crash can find under [path]. *)
Definition crash_file (fs : Fs) (path : bytes) (c : option bytes) : Prop :=
  exists b, b ∈ history fs path /\
    match b with
    | None => c = None
    | Some i => exists n bs, fs_inodes fs !! i = Some n /\ c = Some bs /\
                             (in_synced n = true -> bs = in_data n)
    end.

(** ** The machine *)

(** [std::FILE]: the offset of the first byte of the write buffer, the buffer and
    the error indicator. *)
Record Stream := mkStream {
  sm_inode : nat;
  sm_offset : Z;
  sm_pending : bytes;
  sm_writable : bool;
  sm_error : bool }.

(** How a call ends.  [Works d]: done, and [d] bytes of the write buffer have
    reached the file where the call does not have to empty it.  [Fails a d]: an
    error after [a] bytes were taken or returned and [d] reached the file. *)
Inductive Outcome : Set := Works (d : nat) | Fails (a d : nat).

Record Machine := mkMachine {
  mc_fs : Fs;
  mc_streams : gmap nat Stream;
  mc_plan : list Outcome;
  mc_seen : list Fs }.

Definition set_fs (fs : Fs) (w : Machine) : Machine :=
  mkMachine fs (mc_streams w) (mc_plan w) (mc_fs w :: mc_seen w).
Definition set_streams (ss : gmap nat Stream) (w : Machine) : Machine :=
  mkMachine (mc_fs w) ss (mc_plan w) (mc_seen w).
Definition set_stream (h : nat) (s : Stream) (w : Machine) : Machine := set_streams (<[h := s]> (mc_streams w)) w.

(** The states in which a crash can have stopped the machine. *)
Definition visited (w : Machine) : list Fs := mc_fs w :: mc_seen w.

Definition next_outcome (w : Machine) : Machine * Outcome :=
  match mc_plan w with
  | [] => (w, Works 0)
  | o :: rest => (mkMachine (mc_fs w) (mc_streams w) rest (mc_seen w), o)
  end.

Definition store_error (m : String.string) : Status := mkStatus RC.STORE_IO_ERROR (lit m).
Arguments store_error _%_string_scope.

(** ** The C library *)

Definition with_pending (s : Stream) (bs : bytes) : Stream :=
  mkStream (sm_inode s) (sm_offset s) bs (sm_writable s) (sm_error s).
Definition with_offset (s : Stream) (offset : Z) : Stream :=
  mkStream (sm_inode s) offset (sm_pending s) (sm_writable s) (sm_error s).
Definition with_error (s : Stream) : Stream :=
  mkStream (sm_inode s) (sm_offset s) (sm_pending s) (sm_writable s) true.

(** The first [d] bytes of the write buffer reach the file. *)
Definition deliver (h : nat) (s : Stream) (d : nat) (w : Machine) : Machine :=
  match take d (sm_pending s) with
  | [] => set_stream h s w
  | bs =>
    set_stream h
      (mkStream (sm_inode s) (sm_offset s + zlen bs) (drop d (sm_pending s)) (sm_writable s) (sm_error s))
      (set_fs (put_inode (sm_inode s)
                 (mkInode (pwrite (data_of (mc_fs w) (sm_inode s)) (Z.to_nat (sm_offset s)) bs) false)
                 (mc_fs w)) w)
  end.

(** [fflush], and the flush other calls begin with. *)
Definition fflush (h : nat) (s : Stream) (w : Machine) : Machine * bool :=
  match next_outcome w with
  | (w, Works _) => (deliver h s (length (sm_pending s)) w, true)
  | (w, Fails _ d) => (deliver h (with_error s) d w, false)
  end.

Inductive Mode : Set := Read | Update | Create.

(** [fopen] with ["rb"], ["r+b"] and ["w+b"]. *)
Definition fopen (h : nat) (path : bytes) (mode : Mode) (w : Machine) : Machine * bool :=
  match next_outcome w with
  | (w, Fails _ _) => (w, false)
  | (w, Works _) =>
    let stream i writable := mkStream i 0 [] writable false in
    match mode, entry (mc_fs w) path with
    | Create, Some i => (set_stream h (stream i true) (set_fs (put_inode i (mkInode [] false) (mc_fs w)) w), true)
    | Create, None =>
      let i := fresh (dom (fs_inodes (mc_fs w))) in
      (set_stream h (stream i true) (set_fs (bind path (Some i) (put_inode i (mkInode [] false) (mc_fs w))) w), true)
    | Update, Some i => (set_stream h (stream i true) w, true)
    | Read, Some i => (set_stream h (stream i false) w, true)
    | _, None => (w, false)
    end
  end.

Definition fsync (i : nat) (w : Machine) : Machine * bool :=
  match next_outcome w with
  | (w, Works _) => (set_fs (put_inode i (mkInode (data_of (mc_fs w) i) true) (mc_fs w)) w, true)
  | (w, Fails _ _) => (w, false)
  end.

(** [fseek(file, offset, SEEK_SET)]: the buffer is emptied first. *)
Definition fseek (h : nat) (offset : Z) (s : Stream) (w : Machine) : Machine * bool :=
  match fflush h s w with
  | (w, true) =>
    match mc_streams w !! h with
    | Some s => if offset <? 0 then (w, false) else (set_stream h (with_offset s offset) w, true)
    | None => (w, false)
    end
  | (w, false) => (w, false)
  end.

Definition ftell (s : Stream) (w : Machine) : Machine * option Z :=
  match next_outcome w with
  | (w, Works _) => (w, Some (sm_offset s + zlen (sm_pending s)))
  | (w, Fails _ _) => (w, None)
  end.

(** ** FileHandle *)

(** The handle is named by [h]; its [file_] is the stream under that name. *)
Definition with_file {A} (h : nat) (none : Result A) (k : Stream -> Eff Machine A) : Eff Machine A :=
  fun w => match mc_streams w !! h with Some s => k s w | None => (w, none) end.

Definition not_open {A} : Result A := Err (store_error "file is not open").

(** The outcome of [fclose] is not looked at. *)
Definition close (h : nat) : Eff Machine unit :=
  with_file h (Ok tt) (fun s w =>
    let '(w, _) := fflush h s w in (set_streams (delete h (mc_streams w)) w, Ok tt)).

Definition open (h : nat) (path : bytes) (for_write : bool) : Eff Machine unit :=
  close h ;$
  (fun w =>
    let '(w, opened) := fopen h path (if for_write then Update else Read) w in
    let '(w, opened) := if negb opened && for_write then fopen h path Create w else (w, opened) in
    (w, if opened then Ok tt else Err (mkStatus RC.STORE_IO_ERROR (lit "could not open " ++ path)))).

Definition is_open (h : nat) (w : Machine) : bool := bool_decide (is_Some (mc_streams w !! h)).

Definition write (h : nat) (data : bytes) : Eff Machine unit :=
  with_file h not_open (fun s w =>
    match data with
    | [] => (w, Ok tt)
    | _ =>
      match next_outcome w with
      | (w, Works d) =>
        if sm_writable s then (deliver h (with_pending s (sm_pending s ++ data)) d w, Ok tt)
        else (set_stream h (with_error s) w, Err (store_error "short write"))
      | (w, Fails a d) =>
        let taken := if sm_writable s then take (Nat.min a (length data - 1)) data else [] in
        (deliver h (with_error (with_pending s (sm_pending s ++ taken))) d w, Err (store_error "short write"))
      end
    end).

Definition read (h : nat) (size : nat) : Eff Machine bytes :=
  with_file h not_open (fun s w =>
    let '(w, flushed) := fflush h s w in
    let s := default s (mc_streams w !! h) in
    let rest := drop (Z.to_nat (sm_offset s)) (data_of (mc_fs w) (sm_inode s)) in
    let '(w, (got, error)) :=
      if negb flushed then (w, ([], true))
      else match next_outcome w with
           | (w, Works _) => (w, (take size rest, sm_error s))
           | (w, Fails a _) => (w, (take (Nat.min a (size - 1)) rest, true))
           end in
    let s := with_offset s (sm_offset s + zlen got) in
    (set_stream h (if error then with_error s else s) w,
     if negb (Nat.eqb (length got) size) && error then Err (store_error "read error") else Ok got)).

(** A handle that is not open has nothing to sync. *)
Definition sync (h : nat) : Eff Machine unit :=
  with_file h (Ok tt) (fun s w =>
    match fflush h s w with
    | (w, false) => (w, Err (store_error "flush failed"))
    | (w, true) =>
      let '(w, synced) := fsync (sm_inode s) w in
      (w, if synced then Ok tt else Err (store_error "fsync failed"))
    end).

(** [static_cast<long>] *)
Definition as_long (x : Z) : Z := if x <? 2 ^ 63 then x else x - 2 ^ 64.

Definition seek (h : nat) (offset : Z) : Eff Machine unit :=
  with_file h not_open (fun s w =>
    let '(w, done) := fseek h (as_long offset) s w in
    (w, if done then Ok tt else Err (store_error "seek failed"))).

Definition truncate_at (h : nat) (offset : Z) : Eff Machine unit :=
  with_file h not_open (fun s w =>
    match fflush h s w with
    | (w, false) => (w, Err (store_error "flush before truncate failed"))
    | (w, true) =>
      match next_outcome w with
      | (w, Works _) =>
        if as_long offset <? 0 then (w, Err (store_error "truncate failed"))
        else
          let file := ftruncate (data_of (mc_fs w) (sm_inode s)) (Z.to_nat offset) in
          seek h offset (set_fs (put_inode (sm_inode s) (mkInode file false) (mc_fs w)) w)
      | (w, Fails _ _) => (w, Err (store_error "truncate failed"))
      end
    end).

(** [size]: tell, seek to the end, tell and seek back. *)
Definition size (h : nat) : Eff Machine Z :=
  with_file h not_open (fun s w =>
    match ftell s w with
    | (w, None) => (w, Err (store_error "tell failed"))
    | (w, Some current) =>
      match fflush h s w with
      | (w, false) => (w, Err (store_error "seek to end failed"))
      | (w, true) =>
        let s := with_offset (with_pending s []) (zlen (data_of (mc_fs w) (sm_inode s))) in
        match ftell s (set_stream h s w) with
        | (w, None) => (w, Err (store_error "tell failed"))
        | (w, Some last) =>
          let '(w, done) := fseek h current s w in
          (w, if done then Ok last else Err (store_error "seek back failed"))
        end
      end
    end).

(** A local handle: its destructor closes it on every way out. *)
Definition scoped {A} (h : nat) (m : Eff Machine A) : Eff Machine A :=
  fun w => let '(w, r) := m w in ((close h w).1, r).

(** ** Replacing and syncing files by name *)

(** [std::filesystem::remove] and [rename] with an error code. *)
Definition remove (path : bytes) (w : Machine) : Machine * bool :=
  match next_outcome w with
  | (w, Works _) =>
    (match entry (mc_fs w) path with Some _ => set_fs (bind path None (mc_fs w)) w | None => w end, true)
  | (w, Fails _ _) => (w, false)
  end.

Definition rename (from to : bytes) (w : Machine) : Machine * bool :=
  match next_outcome w with
  | (w, Works _) =>
    match entry (mc_fs w) from with
    | Some i => (set_fs (bind from None (bind to (Some i) (mc_fs w))) w, true)
    | None => (w, false)
    end
  | (w, Fails _ _) => (w, false)
  end.

Definition temporary_path (target : bytes) : bytes := target ++ lit ".tmp-replace".

Definition atomic_replace_file (h : nat) (target contents : bytes) (sync_to_disk : bool) : Eff Machine unit :=
  fun w =>
    let '(w, _) := remove (temporary_path target) w in
    (scoped h
       (open h (temporary_path target) true ;$
        write h contents ;$
        (if sync_to_disk then sync h else eff_ret tt) ;$
        close h) ;$
     (fun w =>
       match rename (temporary_path target) target w with
       | (w, true) => (w, Ok tt)
       | (w, false) =>
         let '(w, _) := remove (temporary_path target) w in
         (w, Err (store_error "atomic replacement failed"))
       end)) w.

(** The descriptor of [sync_existing_file] lives within the call. *)
Definition sync_existing_file (path : bytes) : Eff Machine unit := fun w =>
  match next_outcome w, entry (mc_fs w) path with
  | (w, Works _), Some i =>
    let '(w, synced) := fsync i w in
    (w, if synced then Ok tt else Err (store_error "fsync failed"))
  | (w, _), _ => (w, Err (store_error "could not open the file to sync it"))
  end.

(** ** FileLock *)

(** The advisory locks of the kernel.  [lk_open]: the file an open descriptor
    refers to, [lk_holder]: the descriptor that has a file locked,
    [lk_descriptor]: the [descriptor_] of each lock object of each process, absent
    when it is -1. *)
Record Locks := mkLocks {
  lk_open : gmap nat bytes;
  lk_holder : gmap bytes nat;
  lk_descriptor : gmap nat nat }.

Definition no_locks : Locks := mkLocks ∅ ∅ ∅.

(** [close] of a descriptor drops the lock it holds. *)
Definition close_descriptor (fd : nat) (k : Locks) : Locks :=
  mkLocks (delete fd (lk_open k)) (filter (fun e => e.2 <> fd) (lk_holder k)) (lk_descriptor k).

Definition lock_release (l : nat) (k : Locks) : Locks :=
  match lk_descriptor k !! l with
  | Some fd =>
    let k := close_descriptor fd k in
    mkLocks (lk_open k) (lk_holder k) (delete l (lk_descriptor k))
  | None => k
  end.

(** [opens], [locks]: whether the platform lets [open] and [flock] succeed;
    [flock] also needs the file not to be locked through another descriptor. *)
Definition lock_acquire (l : nat) (path : bytes) (opens locks : bool) (k : Locks) : Locks * Result unit :=
  let k := lock_release l k in
  if negb opens then (k, Err (store_error "could not open the lock file"))
  else
    let fd := fresh (dom (lk_open k)) in
    let k := mkLocks (<[fd := path]> (lk_open k)) (lk_holder k) (lk_descriptor k) in
    match lk_holder k !! path, locks with
    | None, true => (mkLocks (lk_open k) (<[path := fd]> (lk_holder k)) (<[l := fd]> (lk_descriptor k)), Ok tt)
    | _, _ => (close_descriptor fd k, fail RC.STORE_LOCKED "the directory is already in use by another process")
    end.

(** [l] has [path] locked. *)
Definition holds (k : Locks) (l : nat) (path : bytes) : Prop :=
  exists fd, lk_descriptor k !! l = Some fd /\ lk_holder k !! path = Some fd.

(** Lock objects of any number of processes, in any order; the end of a process
    closes its descriptors as [release] does. *)
Inductive lock_step : Locks -> Locks -> Prop :=
  | step_acquire l path opens locks k : lock_step k (lock_acquire l path opens locks k).1
  | step_release l k : lock_step k (lock_release l k).

Definition lock_reachable : Locks -> Prop := rtc lock_step no_locks.

Record locks_ok (k : Locks) : Prop := {
  lo_owned fd : fd ∈ dom (lk_open k) -> exists l, lk_descriptor k !! l = Some fd;
  lo_open l fd : lk_descriptor k !! l = Some fd -> exists p, lk_open k !! fd = Some p /\ lk_holder k !! p = Some fd;
  lo_unique l l' fd : lk_descriptor k !! l = Some fd -> lk_descriptor k !! l' = Some fd -> l = l';
  lo_held p fd : lk_holder k !! p = Some fd -> lk_open k !! fd = Some p }.

(** ** Lock objects exclude each other *)

Lemma no_locks_ok : locks_ok no_locks.
Proof. split; intros *; simpl; rewrite ?dom_empty_L, ?lookup_empty; set_solver. Qed.

Lemma lock_release_ok l k : locks_ok k -> locks_ok (lock_release l k).
Proof.
  intros Hk. unfold lock_release. destruct (lk_descriptor k !! l) as [fd|] eqn:E; [|done].
  destruct Hk as [H1 H2 H3 H4]. split; simpl.
  - intros fd' H. rewrite dom_delete_L in H. destruct (H1 fd') as [l' Hl']; [set_solver|].
    exists l'. rewrite lookup_delete_ne; [done|]. intros <-. rewrite E in Hl'. injection Hl' as ->. set_solver.
  - intros l' fd' H. rewrite lookup_delete_Some in H. destruct H as [Hne H].
    assert (fd' <> fd) by (intros ->; by apply Hne, (H3 _ _ fd)).
    destruct (H2 l' fd' H) as (p & Hp & Hh). exists p. rewrite lookup_delete_ne by done.
    by rewrite map_lookup_filter_Some.
  - intros l1 l2 fd' Ha Hb. rewrite lookup_delete_Some in Ha, Hb. destruct Ha, Hb. by apply (H3 _ _ fd').
  - intros p fd' H. rewrite map_lookup_filter_Some in H. destruct H as [H Hne].
    rewrite lookup_delete_ne by (simpl in Hne; congruence). auto.
Qed.

(** A refused acquisition closes the descriptor it opened. *)
Lemma close_fresh fd p k : fd = fresh (dom (lk_open k)) -> locks_ok k ->
  close_descriptor fd (mkLocks (<[fd := p]> (lk_open k)) (lk_holder k) (lk_descriptor k)) = k.
Proof.
  intros -> Hk. set (fd := fresh _).
  assert (lk_open k !! fd = None) as Hn by (apply not_elem_of_dom, is_fresh).
  unfold close_descriptor. simpl. rewrite delete_insert_id by done. rewrite map_filter_id.
  - by destruct k.
  - intros q fd' H Heq. simpl in Heq. subst fd'. apply (lo_held k Hk) in H. congruence.
Qed.

Lemma acquire_cases l p opens locks k : locks_ok k ->
  let k0 := lock_release l k in
  let fd := fresh (dom (lk_open k0)) in
  (exists e, lock_acquire l p opens locks k = (k0, Err e)) \/
  (lk_holder k0 !! p = None /\
   lock_acquire l p opens locks k =
     (mkLocks (<[fd := p]> (lk_open k0)) (<[p := fd]> (lk_holder k0)) (<[l := fd]> (lk_descriptor k0)), Ok tt)).
Proof.
  intros Hk k0 fd. assert (Hk0 : locks_ok k0) by by apply lock_release_ok.
  unfold lock_acquire. fold k0. fold fd. destruct opens; [|left; eexists; done]. simpl.
  destruct (lk_holder k0 !! p) as [x|] eqn:E; [|destruct locks; [by right|]].
  all: left; eexists; by rewrite (close_fresh fd p k0).
Qed.

Lemma release_forgets l k : lk_descriptor (lock_release l k) !! l = None.
Proof.
  unfold lock_release. destruct (lk_descriptor k !! l) eqn:E; simpl; [apply lookup_delete_eq|done].
Qed.

Lemma lock_acquire_ok l p opens locks k : locks_ok k -> locks_ok (lock_acquire l p opens locks k).1.
Proof.
  intros Hk. assert (Hk0 : locks_ok (lock_release l k)) by by apply lock_release_ok.
  destruct (acquire_cases l p opens locks k Hk) as [[e ->]|[Hf ->]]; [done|]. simpl.
  set (k0 := lock_release l k) in *. set (fd := fresh (dom (lk_open k0))).
  assert (Hn : lk_open k0 !! fd = None) by (apply not_elem_of_dom, is_fresh).
  assert (Hu : forall l', lk_descriptor k0 !! l' <> Some fd).
  { intros l' H. apply (lo_open k0 Hk0) in H as (q & Hq & _). congruence. }
  destruct Hk0 as [H1 H2 H3 H4]. split; simpl.
  - intros fd' H. rewrite dom_insert_L in H. destruct (decide (fd' = fd)) as [->|Hne].
    { exists l. by rewrite lookup_insert_eq. }
    destruct (H1 fd') as [l' Hl']; [set_solver|]. exists l'. rewrite lookup_insert_ne; [done|].
    intros <-. unfold k0 in Hl'. by rewrite release_forgets in Hl'.
  - intros l' fd' H. rewrite lookup_insert_Some in H. destruct H as [[-> <-]|[Hne H]].
    { exists p. by rewrite !lookup_insert_eq. }
    destruct (H2 l' fd' H) as (q & Hq & Hh). exists q. split.
    + rewrite lookup_insert_ne; [done|]. intros <-. congruence.
    + rewrite lookup_insert_ne; [done|]. intros <-. congruence.
  - intros l1 l2 fd' Ha Hb. rewrite lookup_insert_Some in Ha, Hb.
    destruct Ha as [[<- <-]|[_ Ha]], Hb as [[<- Hb]|[_ Hb]]; try done.
    + by apply Hu in Hb.
    + rewrite <- Hb in Ha. by apply Hu in Ha.
    + by apply (H3 _ _ fd').
  - intros q fd' H. rewrite lookup_insert_Some in H. destruct H as [[-> <-]|[Hne H]].
    + by rewrite lookup_insert_eq.
    + apply H4 in H. rewrite lookup_insert_ne; [done|]. intros <-. congruence.
Qed.

Lemma reachable_locks_ok k : lock_reachable k -> locks_ok k.
Proof.
  unfold lock_reachable. intros H. remember no_locks as k0 eqn:E.
  assert (Hk0 : locks_ok k0) by (subst; apply no_locks_ok). clear E.
  induction H as [|x y z Hs _ IH]; [done|]. apply IH. destruct Hs; [by apply lock_acquire_ok|by apply lock_release_ok].
Qed.

(** A file is free for [l] once [l] released its own lock. *)
Lemma free_after_release l p k : locks_ok k ->
  lk_holder (lock_release l k) !! p = None <-> forall l', holds k l' p -> l' = l.
Proof.
  intros [H1 H2 H3 H4]. unfold lock_release. split.
  - intros Hn l' (fd & Hd & Hh). destruct (lk_descriptor k !! l) as [fd0|] eqn:E; simpl in Hn; [|congruence].
    rewrite map_lookup_filter_None in Hn. destruct Hn as [Hn|Hn]; [congruence|].
    specialize (Hn fd Hh). simpl in Hn. assert (fd = fd0) as -> by lia. by apply (H3 _ _ fd0).
  - intros H. destruct (lk_holder k !! p) as [fd|] eqn:Ep.
    + destruct (H1 fd) as [l' Hl']; [by eapply elem_of_dom_2, H4|].
      assert (l' = l) as -> by (apply H; by exists fd). rewrite Hl'. simpl.
      rewrite map_lookup_filter_None. right. intros fd' Hf. simpl. intros Hne. congruence.
    + destruct (lk_descriptor k !! l); simpl; [|done]. rewrite map_lookup_filter_None. by left.
Qed.

Lemma acquire_spec l p opens locks k k' r : locks_ok k -> lock_acquire l p opens locks k = (k', r) ->
  (r = Ok tt <-> opens = true /\ locks = true /\ forall l', holds k l' p -> l' = l) /\
  (r = Ok tt -> holds k' l p) /\
  (r <> Ok tt -> k' = lock_release l k).
Proof.
  intros Hk E. rewrite <- (free_after_release l p k Hk).
  destruct (acquire_cases l p opens locks k Hk) as [[e E1]|[Hf E1]]; rewrite E1 in E; injection E as <- <-.
  - split_and!; [|done..]. split; [done|]. intros (-> & -> & Hn). unfold lock_acquire in E1. simpl in E1.
    by rewrite Hn in E1.
  - split_and!; [|intros _; eexists; split; apply lookup_insert_eq|done]. split; [intros _|done].
    unfold lock_acquire in E1. destruct opens; [|done]. simpl in E1. rewrite Hf in E1. by destruct locks.
Qed.

(** (invariant) At most one lock object has a file locked, no descriptor is left open that no
    object owns, and acquiring a file succeeds exactly when the platform opens
    and locks it and no other object has it: a refused acquisition changes
    nothing but the acquirer's own earlier lock, and a released file, or one
    whose holder ended, can be locked again. *)
Theorem file_lock_is_exclusive k : lock_reachable k ->
  (forall l l' p, holds k l p -> holds k l' p -> l = l') /\
  (forall fd, fd ∈ dom (lk_open k) -> exists l p, lk_descriptor k !! l = Some fd /\ holds k l p) /\
  (forall l p opens locks k' r, lock_acquire l p opens locks k = (k', r) ->
     (r = Ok tt <-> opens = true /\ locks = true /\ forall l', holds k l' p -> l' = l) /\
     (r = Ok tt -> holds k' l p) /\
     (r <> Ok tt -> k' = lock_release l k)) /\
  (forall l p, ~ holds (lock_release l k) l p).
Proof.
  intros Hr. apply reachable_locks_ok in Hr as Hk. destruct Hk as [H1 H2 H3 H4]. split_and!.
  - intros l l' p (fd & Ha & Hb) (fd' & Hc & Hd). assert (fd = fd') as <- by congruence. by apply (H3 _ _ fd).
  - intros fd H. destruct (H1 fd H) as [l Hl]. destruct (H2 l fd Hl) as (p & _ & Hh).
    exists l, p. split; [done|]. by exists fd.
  - intros l p opens locks k' r. apply acquire_spec. by apply reachable_locks_ok.
  - intros l p (fd & H & _). by rewrite release_forgets in H.
Qed.

(** ** What a handle sees *)

(** The file with the bytes still in the write buffer. *)
Definition view (fs : Fs) (s : Stream) : bytes :=
  match sm_pending s with
  | [] => data_of fs (sm_inode s)
  | bs => pwrite (data_of fs (sm_inode s)) (Z.to_nat (sm_offset s)) bs
  end.

(** The abstract file: its bytes and a position. *)
Record AFile := mkAFile { af_bytes : bytes; af_position : Z }.

Definition abs (fs : Fs) (s : Stream) : AFile := mkAFile (view fs s) (sm_offset s + zlen (sm_pending s)).

Inductive FileOp : Set :=
  | OpWrite (data : bytes) | OpRead (n : nat) | OpSync | OpSeek (offset : Z) | OpTruncate (offset : Z) | OpSize.

Inductive FileValue : Set := VUnit | VBytes (bs : bytes) | VSize (n : Z).

Definition spec_op (op : FileOp) (f : AFile) : AFile * FileValue :=
  let at_ := Z.to_nat (af_position f) in
  match op with
  | OpWrite [] | OpSync => (f, VUnit)
  | OpWrite data => (mkAFile (pwrite (af_bytes f) at_ data) (af_position f + zlen data), VUnit)
  | OpRead n =>
    let got := take n (drop at_ (af_bytes f)) in (mkAFile (af_bytes f) (af_position f + zlen got), VBytes got)
  | OpSeek offset => (mkAFile (af_bytes f) offset, VUnit)
  | OpTruncate offset => (mkAFile (ftruncate (af_bytes f) (Z.to_nat offset)) offset, VUnit)
  | OpSize => (f, VSize (zlen (af_bytes f)))
  end.

Definition run_op (h : nat) (op : FileOp) : Eff Machine FileValue :=
  match op with
  | OpWrite data => write h data ;$ eff_ret VUnit
  | OpRead n => let$ got := read h n in eff_ret (VBytes got)
  | OpSync => sync h ;$ eff_ret VUnit
  | OpSeek offset => seek h offset ;$ eff_ret VUnit
  | OpTruncate offset => truncate_at h offset ;$ eff_ret VUnit
  | OpSize => let$ n := size h in eff_ret (VSize n)
  end.

Fixpoint run_ops (h : nat) (ops : list FileOp) : Eff Machine (list FileValue) :=
  match ops with
  | [] => eff_ret []
  | op :: rest => let$ v := run_op h op in let$ vs := run_ops h rest in eff_ret (v :: vs)
  end.

Fixpoint spec_ops (ops : list FileOp) (f : AFile) : AFile * list FileValue :=
  match ops with
  | [] => (f, [])
  | op :: rest => let '(f, v) := spec_op op f in let '(f, vs) := spec_ops rest f in (f, v :: vs)
  end.

(** An offset of the source is an unsigned 64-bit integer. *)
Definition op_ok (op : FileOp) : Prop :=
  match op with OpSeek o | OpTruncate o => 0 <= o < 2 ^ 64 | _ => True end.

Lemma pwrite_eq f o d : pwrite f o d = ftruncate f o ++ d ++ drop (o + length d) f.
Proof. unfold pwrite, ftruncate. by rewrite <- app_assoc. Qed.

Lemma ftruncate_length f n : length (ftruncate f n) = n.
Proof. unfold ftruncate. rewrite length_app, length_take, length_replicate. lia. Qed.

Lemma ftruncate_within f n : (n <= length f)%nat -> ftruncate f n = take n f.
Proof. intros H. unfold ftruncate. replace (n - length f)%nat with 0%nat by lia. apply app_nil_r. Qed.

Lemma pwrite_length f o d : (o + length d <= length (pwrite f o d))%nat.
Proof. rewrite pwrite_eq, !length_app, ftruncate_length. lia. Qed.

(** Writing in two parts. *)
Lemma pwrite_app f o a b : pwrite (pwrite f o a) (o + length a) b = pwrite f o (a ++ b).
Proof.
  rewrite (pwrite_eq (pwrite f o a)), (ftruncate_within (pwrite f o a)) by apply pwrite_length.
  rewrite !pwrite_eq. set (p := ftruncate f o). assert (Hp : length p = o) by apply ftruncate_length.
  assert (Hpa : length (p ++ a) = (o + length a)%nat) by (rewrite length_app; lia).
  rewrite (app_assoc p a), <- Hpa, take_app_length, drop_app, (drop_ge (p ++ a)), app_nil_l, drop_drop by lia.
  rewrite <- !app_assoc, !length_app. do 4 f_equal. lia.
Qed.

Lemma pwrite_within f o d : (o <= length f)%nat -> pwrite f o d = take o f ++ d ++ drop (o + length d) f.
Proof. intros H. by rewrite pwrite_eq, ftruncate_within. Qed.

(** Only the file [i] changed, and no name. *)
Definition same_but (i : nat) (fs fs' : Fs) : Prop :=
  fs_names fs' = fs_names fs /\ forall j, j <> i -> fs_inodes fs' !! j = fs_inodes fs !! j.

(** The states a machine went through from [w] to [w']. *)
Definition evolves (R : Fs -> Fs -> Prop) (w w' : Machine) : Prop :=
  R (mc_fs w) (mc_fs w') /\ exists l, visited w' = l ++ visited w /\ Forall (R (mc_fs w)) l.

Lemma same_but_refl i fs : same_but i fs fs.
Proof. by split. Qed.

Lemma same_but_trans i a b c : same_but i a b -> same_but i b c -> same_but i a c.
Proof. intros [H1 H2] [H3 H4]. split; [congruence|]. intros j Hj. rewrite H4 by done. auto. Qed.

Lemma same_but_put i n fs : same_but i fs (put_inode i n fs).
Proof. split; [done|]. intros j Hj. simpl. by apply lookup_insert_ne. Qed.

Lemma evolution_refl i w : evolves (same_but i) w w.
Proof. split; [apply same_but_refl|]. by exists []. Qed.

Lemma evolution_same i w w' : mc_fs w' = mc_fs w -> mc_seen w' = mc_seen w -> evolves (same_but i) w w'.
Proof. intros H1 H2. split; [rewrite H1; apply same_but_refl|]. exists []. unfold visited. by rewrite H1, H2. Qed.

Lemma evolution_put i n w : evolves (same_but i) w (set_fs (put_inode i n (mc_fs w)) w).
Proof.
  split; [apply same_but_put|]. exists [put_inode i n (mc_fs w)]. split; [done|].
  apply Forall_singleton, same_but_put.
Qed.

Lemma evolution_trans i a b c : evolves (same_but i) a b -> evolves (same_but i) b c -> evolves (same_but i) a c.
Proof.
  intros [H1 (l & El & Hl)] [H2 (m & Em & Hm)]. split; [by eapply same_but_trans|].
  exists (m ++ l). split; [by rewrite Em, El, app_assoc|]. apply Forall_app. split; [|done].
  revert Hm. apply Forall_impl. intros fs Hfs. by eapply same_but_trans.
Qed.

Lemma next_outcome_same w : 
  mc_fs (next_outcome w).1 = mc_fs w /\ mc_streams (next_outcome w).1 = mc_streams w /\
  mc_seen (next_outcome w).1 = mc_seen w.
Proof. unfold next_outcome. by destruct (mc_plan w). Qed.

(** [h] is served by the stream [s'] after steps that changed nothing but the
    file of [s]. *)
Record serves (h : nat) (s : Stream) (w w' : Machine) (s' : Stream) : Prop := {
  sv_streams : mc_streams w' = <[h := s']> (mc_streams w);
  sv_inode : sm_inode s' = sm_inode s;
  sv_writable : sm_writable s' = sm_writable s;
  sv_offset : 0 <= sm_offset s';
  sv_evolves : evolves (same_but (sm_inode s)) w w' }.

Lemma serves_trans h s w w1 s1 w2 s2 : serves h s w w1 s1 -> serves h s1 w1 w2 s2 -> serves h s w w2 s2.
Proof.
  intros [A1 A2 A3 A4 A5] [B1 B2 B3 B4 B5]. split; [|congruence..|done|].
  - by rewrite B1, A1, insert_insert_eq.
  - eapply evolution_trans; [done|]. by rewrite <- A2.
Qed.

Lemma serves_next h s w w1 s1 : serves h s (next_outcome w).1 w1 s1 -> serves h s w w1 s1.
Proof.
  destruct (next_outcome_same w) as (H1 & H2 & H3). intros [A1 A2 A3 A4 A5]. split; [congruence|done..|].
  eapply evolution_trans; [|done]. by apply evolution_same.
Qed.

Lemma serves_set h s w s' : sm_inode s' = sm_inode s -> sm_writable s' = sm_writable s -> 0 <= sm_offset s' ->
  serves h s w (set_stream h s' w) s'.
Proof. intros. split; [done..|]. by apply evolution_same. Qed.

Lemma data_of_put i n fs : data_of (put_inode i n fs) i = in_data n.
Proof. unfold data_of. simpl. by rewrite lookup_insert_eq. Qed.

Lemma view_error fs s : view fs (with_error s) = view fs s.
Proof. done. Qed.

(** The bytes that reach the file leave what the handle sees unchanged. *)
Lemma deliver_serves h s d w : 0 <= sm_offset s ->
  exists s', serves h s w (deliver h s d w) s' /\ sm_pending s' = drop d (sm_pending s) /\
    abs (mc_fs (deliver h s d w)) s' = abs (mc_fs w) s.
Proof.
  intros Ho. unfold deliver. destruct (take d (sm_pending s)) as [|b bs] eqn:E.
  { exists s. split_and!; [by apply serves_set| |done].
    rewrite <- (take_drop d (sm_pending s)) at 1. by rewrite E. }
  set (front := b :: bs) in *. set (s' := mkStream _ _ _ _ _). set (n := mkInode _ _).
  exists s'. pose proof (take_drop d (sm_pending s)) as Hp. rewrite E in Hp. split_and!; [|done|].
  - split; [done..| |].
    + simpl. pose proof (zlen_nonneg front). lia.
    + eapply evolution_trans; [apply (evolution_put _ n)|]. by apply evolution_same.
  - unfold abs. f_equal.
    + unfold view at 2. rewrite <- Hp. simpl. fold front. unfold view, s'. simpl. rewrite data_of_put. simpl.
      rewrite Z2Nat.inj_add by (try apply zlen_nonneg; done). unfold zlen. rewrite Nat2Z.id.
      destruct (drop d (sm_pending s)) as [|c cs]; [by rewrite app_nil_r|]. apply pwrite_app.
    + simpl. rewrite <- Hp at 2. rewrite zlen_app. lia.
Qed.

Lemma serves_refl h s w : mc_streams w !! h = Some s -> 0 <= sm_offset s -> serves h s w w s.
Proof. intros Hs Ho. split; [by rewrite insert_id|done..|]. apply evolution_refl. Qed.

Lemma serves_lookup h s w w' s' : serves h s w w' s' -> mc_streams w' !! h = Some s'.
Proof. intros [-> _ _ _ _]. apply lookup_insert_eq. Qed.

Lemma fflush_serves h s w w' b : 0 <= sm_offset s -> fflush h s w = (w', b) ->
  exists s', serves h s w w' s' /\ abs (mc_fs w') s' = abs (mc_fs w) s /\ (b = true -> sm_pending s' = []).
Proof.
  intros Ho E. unfold fflush in E. destruct (next_outcome_same w) as (H1 & _ & _).
  destruct (next_outcome w) as [w1 [d|a d]] eqn:En; injection E as <- <-; simpl in H1.
  - destruct (deliver_serves h s (length (sm_pending s)) w1 Ho) as (s' & Hs & Hp & Ha). exists s'.
    split_and!; [apply serves_next; by rewrite En|by rewrite Ha, H1|]. intros _. by rewrite Hp, drop_all.
  - destruct (deliver_serves h (with_error s) d w1 Ho) as (s' & Hs & Hp & Ha). exists s'.
    split_and!; [|by rewrite Ha, H1|done]. apply serves_next. rewrite En. by destruct Hs.
Qed.

(** With nothing in the buffer the handle sees the file itself. *)
Lemma abs_flushed fs s : sm_pending s = [] -> abs fs s = mkAFile (data_of fs (sm_inode s)) (sm_offset s).
Proof. intros E. unfold abs, view. rewrite E. f_equal. unfold zlen. simpl. lia. Qed.

Lemma fseek_serves h o s w w' b : 0 <= sm_offset s -> fseek h o s w = (w', b) ->
  exists s', serves h s w w' s' /\ view (mc_fs w') s' = view (mc_fs w) s /\
    (b = true -> 0 <= o /\ sm_pending s' = [] /\ sm_offset s' = o).
Proof.
  intros Ho E. unfold fseek in E. destruct (fflush h s w) as [w1 f] eqn:Ef.
  destruct (fflush_serves h s w w1 f Ho Ef) as (s1 & Hs & Ha & Hp). apply (f_equal af_bytes) in Ha. simpl in Ha.
  destruct f; [|injection E as <- <-; by exists s1]. rewrite (serves_lookup _ _ _ _ _ Hs) in E.
  destruct (o <? 0) eqn:Eo; injection E as <- <-; [by exists s1|]. b2p. specialize (Hp eq_refl).
  exists (with_offset s1 o). split_and!; [|by unfold view in *; simpl in *; rewrite Hp in *|done].
  eapply serves_trans; [done|]. by apply serves_set.
Qed.

(** Bytes added to the write buffer are written as far as the handle sees. *)
Lemma abs_extend fs s data : 0 <= sm_offset s ->
  abs fs (with_pending s (sm_pending s ++ data)) = (spec_op (OpWrite data) (abs fs s)).1.
Proof.
  intros Ho. destruct data as [|x xs]; [rewrite app_nil_r; by destruct s|]. set (data := x :: xs).
  unfold abs. simpl. f_equal; [|rewrite zlen_app; lia]. unfold view. simpl.
  destruct (sm_pending s) as [|y ys] eqn:Ep; simpl.
  - unfold zlen at 1. simpl. by rewrite Z.add_0_r.
  - rewrite Z2Nat.inj_add by (try apply zlen_nonneg; done). unfold zlen. rewrite Nat2Z.id.
    by rewrite (pwrite_app _ _ (y :: ys)).
Qed.

Lemma write_refines h data s w w' r : mc_streams w !! h = Some s -> 0 <= sm_offset s -> write h data w = (w', r) ->
  exists s', serves h s w w' s' /\ (r = Ok tt -> spec_op (OpWrite data) (abs (mc_fs w) s) = (abs (mc_fs w') s', VUnit)) /\
    (r <> Ok tt -> r = Err (store_error "short write") /\
       exists n, abs (mc_fs w') s' = (spec_op (OpWrite (take n data)) (abs (mc_fs w) s)).1).
Proof.
  intros Hs Ho E. unfold write, with_file in E. rewrite Hs in E.
  destruct data as [|x xs]; [injection E as <- <-; exists s; split_and!; [by apply serves_refl|done|done]|].
  set (data := x :: xs) in *. destruct (next_outcome_same w) as (H1 & _ & _).
  destruct (next_outcome w) as [w1 o] eqn:En. simpl in H1.
  assert (Hnext : forall t w2 s2, sm_inode t = sm_inode s -> sm_writable t = sm_writable s ->
            serves h t w1 w2 s2 -> serves h s w w2 s2).
  { intros t w2 s2 Hi Hw [A1 A2 A3 A4 A5]. apply serves_next. rewrite En. split; [done|congruence|congruence|done|].
    simpl. by rewrite <- Hi. }
  destruct o as [d|a d]; [destruct (sm_writable s) eqn:Ew|]; injection E as <- <-.
  - set (t := with_pending s (sm_pending s ++ data)).
    destruct (deliver_serves h t d w1 Ho) as (s' & Hs' & _ & Ha). exists s'. split_and!; [by apply (Hnext t)| |done].
    intros _. rewrite Ha, H1. unfold t. by rewrite (abs_extend (mc_fs w) s data Ho).
  - exists (with_error s). split_and!; [apply (Hnext s); [done..|]; by apply serves_set|done|].
    intros _. split; [done|]. exists 0%nat. simpl. by rewrite <- H1.
  - set (taken := if sm_writable s then _ else _). set (t := with_error (with_pending s (sm_pending s ++ taken))).
    destruct (deliver_serves h t d w1 Ho) as (s' & Hs' & _ & Ha).
    exists s'. split_and!; [by apply (Hnext t)|done|]. intros _. split; [done|].
    assert (exists n, taken = take n data) as [n ->] by (unfold taken; destruct (sm_writable s); [by eexists|by exists 0%nat]).
    exists n. rewrite Ha, H1. apply (abs_extend (mc_fs w) s _ Ho).
Qed.

Lemma as_long_nonneg o : 0 <= o < 2 ^ 64 -> 0 <= as_long o -> as_long o = o.
Proof. unfold as_long. intros H1 H2. destruct (o <? 2 ^ 63) eqn:E; b2p; lia. Qed.

Lemma seek_refines h o s w w' r : 0 <= o < 2 ^ 64 -> mc_streams w !! h = Some s -> 0 <= sm_offset s ->
  seek h o w = (w', r) ->
  exists s', serves h s w w' s' /\ view (mc_fs w') s' = view (mc_fs w) s /\
    (r = Ok tt -> o < 2 ^ 63 /\ sm_pending s' = [] /\ sm_offset s' = o).
Proof.
  intros Hr Hs Ho E. unfold seek, with_file in E. rewrite Hs in E.
  destruct (fseek h (as_long o) s w) as [w1 b] eqn:Ef. destruct (fseek_serves _ _ _ _ _ _ Ho Ef) as (s' & H1 & H2 & H3).
  injection E as <- <-. exists s'. split_and!; [done..|]. intros Hok. destruct b; [|done].
  destruct (H3 eq_refl) as (Hn & Hp & Hof). apply (as_long_nonneg o) in Hn as Hl; [|done].
  unfold as_long in *. destruct (o <? 2 ^ 63) eqn:E; b2p; [|lia]. split_and!; [done|done|lia].
Qed.

Lemma read_refines h n s w w' r : mc_streams w !! h = Some s -> 0 <= sm_offset s -> read h n w = (w', r) ->
  exists s', serves h s w w' s' /\
    (forall got, r = Ok got -> spec_op (OpRead n) (abs (mc_fs w) s) = (abs (mc_fs w') s', VBytes got)).
Proof.
  intros Hs Ho E. unfold read, with_file in E. rewrite Hs in E.
  destruct (fflush h s w) as [w1 f] eqn:Ef. destruct (fflush_serves h s w w1 f Ho Ef) as (s1 & Hs1 & Ha & Hp).
  rewrite (serves_lookup _ _ _ _ _ Hs1) in E. simpl in E.
  set (rest := drop _ _) in E.
  destruct (if negb f then _ else _) as [w2 [got error]] eqn:Er.
  injection E as <- <-. set (s2 := with_offset s1 (sm_offset s1 + zlen got)).
  exists (if error then with_error s2 else s2). destruct Hs1 as [A1 A2 A3 A4 A5].
  assert (Hw2 : mc_fs w2 = mc_fs w1 /\ mc_streams w2 = mc_streams w1 /\ mc_seen w2 = mc_seen w1).
  { destruct f; simpl in Er; [|by injection Er as <- _ _]. destruct (next_outcome_same w1) as (B1 & B2 & B3).
    destruct (next_outcome w1) as [w3 [d|a d]]; by injection Er as <- _ _. }
  destruct Hw2 as (B1 & B2 & B3). split.
  - pose proof (zlen_nonneg got). split.
    + simpl. by rewrite B2, A1, insert_insert_eq.
    + by destruct error.
    + by destruct error.
    + destruct error; simpl; lia.
    + eapply evolution_trans; [done|]. by apply evolution_same.
  - intros got' Hok. assert (Hgot : got' = got /\ (length got = n \/ error = false)).
    { destruct (Nat.eqb_spec (length got) n), error; simpl in Hok; try discriminate Hok; injection Hok as <-; auto. }
    destruct Hgot as [-> Hgot].
    assert (Habs : abs (mc_fs w2) (if error then with_error s2 else s2) =
                   mkAFile (af_bytes (abs (mc_fs w) s)) (af_position (abs (mc_fs w) s) + zlen got)).
    { rewrite B1, <- Ha. unfold abs, s2, view. simpl. f_equal.
      - assert (sm_pending s1 = [] \/ got = []) as [Hq| ->].
        { destruct f; [left; auto|right]. by injection Er as _ <- _. }
        + rewrite Hq. by destruct error; simpl; rewrite Hq.
        + rewrite Z.add_0_r. by destruct error.
      - destruct error; simpl; lia. }
    change (mc_fs (set_stream _ _ w2)) with (mc_fs w2). rewrite Habs. unfold spec_op. cbv zeta. set (want := take n _). enough (want = got) as -> by done.
    destruct f; simpl in Er.
    + specialize (Hp eq_refl). unfold want. rewrite <- Ha, (abs_flushed _ _ Hp). simpl. fold rest.
      destruct (next_outcome w1) as [w3 [d|a d]]; injection Er as _ <- Herr; [done|].
      destruct Hgot as [Hl| ->]; [|done]. rewrite length_take in Hl.
      assert (n = 0%nat) as -> by lia. by replace (Nat.min a (0 - 1)) with 0%nat by lia.
    + injection Er as _ <- <-. destruct Hgot as [Hl|]; [|done]. simpl in Hl. by subst n.
Qed.

Lemma sync_refines h s w w' r : mc_streams w !! h = Some s -> 0 <= sm_offset s -> sync h w = (w', r) ->
  exists s', serves h s w w' s' /\ abs (mc_fs w') s' = abs (mc_fs w) s /\
    (r = Ok tt -> sm_pending s' = [] /\
       fs_inodes (mc_fs w') !! sm_inode s = Some (mkInode (view (mc_fs w) s) true)).
Proof.
  intros Hs Ho E. unfold sync, with_file in E. rewrite Hs in E.
  destruct (fflush h s w) as [w1 f] eqn:Ef. destruct (fflush_serves h s w w1 f Ho Ef) as (s1 & Hs1 & Ha & Hp).
  destruct f; [|injection E as <- <-; by exists s1]. specialize (Hp eq_refl).
  unfold fsync in E. destruct (next_outcome_same w1) as (B1 & B2 & B3).
  destruct (next_outcome w1) as [w2 [d|a d]]; simpl in B1, B2, B3; injection E as <- <-; exists s1.
  2: { split_and!; [|by rewrite B1|done]. destruct Hs1 as [A1 A2 A3 A4 A5]. split; [congruence|done..|].
       eapply evolution_trans; [done|]. by apply evolution_same. }
  set (n := mkInode _ true).
  assert (Hd : data_of (mc_fs w2) (sm_inode s) = view (mc_fs w) s).
  { apply (f_equal af_bytes) in Ha. rewrite (abs_flushed _ _ Hp) in Ha. simpl in Ha.
    rewrite B1, <- (sv_inode _ _ _ _ _ Hs1). done. }
  destruct Hs1 as [A1 A2 A3 A4 A5]. split_and!.
  - split; [simpl; congruence|done..|]. eapply evolution_trans; [done|].
    eapply evolution_trans; [by apply (evolution_same _ w1 w2)|]. apply evolution_put.
  - rewrite <- Ha, !(abs_flushed _ _ Hp). simpl. f_equal. rewrite A2, data_of_put. simpl. by rewrite B1.
  - intros _. split; [done|]. simpl. rewrite lookup_insert_eq. unfold n. by rewrite Hd.
Qed.

Lemma truncate_refines h o s w w' r : 0 <= o < 2 ^ 64 -> mc_streams w !! h = Some s -> 0 <= sm_offset s ->
  truncate_at h o w = (w', r) ->
  exists s', serves h s w w' s' /\
    (r = Ok tt -> spec_op (OpTruncate o) (abs (mc_fs w) s) = (abs (mc_fs w') s', VUnit)).
Proof.
  intros Hr Hs Ho E. unfold truncate_at, with_file in E. rewrite Hs in E.
  destruct (fflush h s w) as [w1 f] eqn:Ef. destruct (fflush_serves h s w w1 f Ho Ef) as (s1 & Hs1 & Ha & Hp).
  destruct f; [|injection E as <- <-; by exists s1]. specialize (Hp eq_refl).
  destruct (next_outcome_same w1) as (B1 & B2 & B3). destruct (next_outcome w1) as [w2 out]; simpl in B1, B2, B3.
  assert (Hs2 : serves h s w w2 s1).
  { destruct Hs1 as [A1 A2 A3 A4 A5]. split; [congruence|done..|].
    eapply evolution_trans; [done|]. by apply evolution_same. }
  destruct out as [d|a d]; [|injection E as <- <-; by exists s1].
  destruct (as_long o <? 0); [injection E as <- <-; by exists s1|].
  set (n := mkInode _ false) in E. set (w3 := set_fs _ w2) in E.
  assert (Hs3 : serves h s w w3 s1).
  { destruct Hs2 as [A1 A2 A3 A4 A5]. split; [done..|]. eapply evolution_trans; [done|]. apply evolution_put. }
  destruct (seek_refines h o s1 w3 w' r Hr (serves_lookup _ _ _ _ _ Hs3) (sv_offset _ _ _ _ _ Hs3) E)
    as (s' & Hs' & Hv & Hok).
  exists s'. split; [by eapply serves_trans|]. intros Hr'. destruct (Hok Hr') as (_ & Hp' & Hof).
  unfold spec_op. f_equal. rewrite (abs_flushed _ s') by done. f_equal; [|done].
  unfold view in Hv. rewrite Hp, Hp' in Hv. rewrite Hv, <- Ha, (abs_flushed _ s1) by done.
  rewrite (sv_inode _ _ _ _ _ Hs1). simpl. rewrite data_of_put. unfold n. simpl. by rewrite B1.
Qed.

Lemma ftell_same s w w' p : ftell s w = (w', p) ->
  mc_fs w' = mc_fs w /\ mc_streams w' = mc_streams w /\ mc_seen w' = mc_seen w /\
  (forall x, p = Some x -> x = sm_offset s + zlen (sm_pending s)).
Proof.
  unfold ftell. destruct (next_outcome_same w) as (B1 & B2 & B3).
  destruct (next_outcome w) as [w1 [d|a d]]; intros [= <- <-]; split_and!; try done; congruence.
Qed.

Lemma serves_quiet h s w w1 w2 s1 : serves h s w w1 s1 ->
  mc_fs w2 = mc_fs w1 -> mc_streams w2 = mc_streams w1 -> mc_seen w2 = mc_seen w1 -> serves h s w w2 s1.
Proof.
  intros [A1 A2 A3 A4 A5] B1 B2 B3. split; [congruence|done..|]. eapply evolution_trans; [done|]. by apply evolution_same.
Qed.

Lemma size_refines h s w w' r : mc_streams w !! h = Some s -> 0 <= sm_offset s -> size h w = (w', r) ->
  exists s', serves h s w w' s' /\
    (forall n, r = Ok n -> abs (mc_fs w') s' = abs (mc_fs w) s /\ n = zlen (view (mc_fs w) s)).
Proof.
  intros Hs Ho E. unfold size, with_file in E. rewrite Hs in E.
  destruct (ftell s w) as [w1 cur] eqn:E1. destruct (ftell_same _ _ _ _ E1) as (B1 & B2 & B3 & Hcur).
  assert (Hs1 : serves h s w w1 s) by (eapply serves_quiet; [by apply serves_refl|done..]).
  destruct cur as [cur|]; [|injection E as <- <-; by exists s]. specialize (Hcur cur eq_refl).
  destruct (fflush h s w1) as [w2 f] eqn:Ef. destruct (fflush_serves h s w1 w2 f Ho Ef) as (s2 & Hs2 & Ha & Hp).
  pose proof (serves_trans _ _ _ _ _ _ _ Hs1 Hs2) as Hs2'.
  destruct f; [|injection E as <- <-; by exists s2]. specialize (Hp eq_refl).
  assert (Hd : data_of (mc_fs w2) (sm_inode s) = view (mc_fs w) s).
  { apply (f_equal af_bytes) in Ha. rewrite (abs_flushed _ _ Hp), B1 in Ha. simpl in Ha.
    by rewrite <- (sv_inode _ _ _ _ _ Hs2). }
  set (s3 := with_offset _ _) in E. set (w3 := set_stream h s3 w2) in E.
  assert (Hs3 : serves h s w w3 s3).
  { eapply serves_trans; [exact Hs2'|]. destruct Hs2 as [A1 A2 A3 A4 A5].
    apply serves_set; [done..|]. apply zlen_nonneg. }
  destruct (ftell s3 w3) as [w4 last] eqn:E4. destruct (ftell_same _ _ _ _ E4) as (C1 & C2 & C3 & Hlast).
  assert (Hs4 : serves h s w w4 s3) by (eapply serves_quiet; [exact Hs3|done..]).
  destruct last as [last|]; [|injection E as <- <-; by exists s3]. specialize (Hlast last eq_refl).
  destruct (fseek h cur s3 w4) as [w5 b] eqn:E5.
  destruct (fseek_serves h cur s3 w4 w5 b (sv_offset _ _ _ _ _ Hs4) E5) as (s5 & Hs5 & Hv & Hok).
  injection E as <- <-. exists s5. split; [by eapply serves_trans|]. intros n Hn.
  destruct b; [|done]. injection Hn as <-. destruct (Hok eq_refl) as (_ & Hp5 & Ho5).
  assert (Hv3 : view (mc_fs w4) s3 = view (mc_fs w) s).
  { rewrite C1. unfold view at 1. simpl. done. }
  split.
  - rewrite (abs_flushed _ _ Hp5). unfold abs. f_equal; [|lia].
    rewrite <- Hv3, <- Hv. unfold view. by rewrite Hp5.
  - rewrite Hlast. unfold s3. simpl. rewrite Hd. unfold zlen at 2. simpl. lia.
Qed.

Lemma run_op_refines h op s w w' r : op_ok op -> mc_streams w !! h = Some s -> 0 <= sm_offset s ->
  run_op h op w = (w', r) ->
  exists s', serves h s w w' s' /\ (forall v, r = Ok v -> spec_op op (abs (mc_fs w) s) = (abs (mc_fs w') s', v)).
Proof.
  intros Hop Hs Ho E. destruct op as [data|n| |o|o|]; simpl in E; unfold eff_bind in E.
  - destruct (write h data w) as [w1 q] eqn:E1. destruct (write_refines _ _ _ _ _ _ Hs Ho E1) as (s' & H1 & H2 & _).
    exists s'. destruct q as [[]|e]; injection E as <- <-; (split; [done|]); intros v [= <-]; auto.
  - destruct (read h n w) as [w1 q] eqn:E1. destruct (read_refines _ _ _ _ _ _ Hs Ho E1) as (s' & H1 & H2).
    exists s'. destruct q as [got|e]; injection E as <- <-; (split; [done|]); intros v [= <-]; auto.
  - destruct (sync h w) as [w1 q] eqn:E1. destruct (sync_refines _ _ _ _ _ Hs Ho E1) as (s' & H1 & H2 & _).
    exists s'. destruct q as [[]|e]; injection E as <- <-; (split; [done|]); intros v [= <-]. simpl. by rewrite H2.
  - destruct (seek h o w) as [w1 q] eqn:E1. destruct (seek_refines _ _ _ _ _ _ Hop Hs Ho E1) as (s' & H1 & H2 & H3).
    exists s'. destruct q as [[]|e]; injection E as <- <-; (split; [done|]); intros v [= <-].
    destruct (H3 eq_refl) as (_ & Hp & Hof). unfold spec_op, abs. by rewrite H2, Hp, Hof, Z.add_0_r.
  - destruct (truncate_at h o w) as [w1 q] eqn:E1.
    destruct (truncate_refines _ _ _ _ _ _ Hop Hs Ho E1) as (s' & H1 & H2).
    exists s'. destruct q as [[]|e]; injection E as <- <-; (split; [done|]); intros v [= <-]; auto.
  - destruct (size h w) as [w1 q] eqn:E1. destruct (size_refines _ _ _ _ _ Hs Ho E1) as (s' & H1 & H2).
    exists s'. destruct q as [n|e]; injection E as <- <-; (split; [done|]); intros v [= <-].
    destruct (H2 n eq_refl) as [-> ->]. done.
Qed.

Lemma run_ops_refines h ops s w w' vs : Forall op_ok ops -> mc_streams w !! h = Some s -> 0 <= sm_offset s ->
  run_ops h ops w = (w', Ok vs) ->
  exists s', serves h s w w' s' /\ spec_ops ops (abs (mc_fs w) s) = (abs (mc_fs w') s', vs).
Proof.
  intros Hops. revert s w w' vs. induction Hops as [|op ops Hop _ IH]; intros s w w' vs Hs Ho E.
  - injection E as <- <-. exists s. split; [by apply serves_refl|done].
  - simpl in E. unfold eff_bind in E. destruct (run_op h op w) as [w1 [v|e]] eqn:E1; [|discriminate E].
    destruct (run_op_refines _ _ _ _ _ _ Hop Hs Ho E1) as (s1 & H1 & H2). specialize (H2 v eq_refl).
    destruct (run_ops h ops w1) as [w2 [us|e]] eqn:E2; [|discriminate E]. injection E as <- <-.
    destruct (IH s1 w1 w2 us (serves_lookup _ _ _ _ _ H1) (sv_offset _ _ _ _ _ H1) E2) as (s2 & H3 & H4).
    exists s2. split; [by eapply serves_trans|]. simpl. by rewrite H2, H4.
Qed.

(** (refinement) While every call succeeds a handle is a file with a position: what it
    returns and what it leaves are what the abstract file says, however the C
    library moves its buffer, and no other file or name is touched. *)
Theorem handle_refines_file h ops s w w' vs : Forall op_ok ops -> mc_streams w !! h = Some s -> 0 <= sm_offset s ->
  run_ops h ops w = (w', Ok vs) ->
  exists s', serves h s w w' s' /\ spec_ops ops (abs (mc_fs w) s) = (abs (mc_fs w') s', vs).
Proof. apply run_ops_refines. Qed.

(** ** Replacing a file *)

(** Every name refers to a file that exists. *)
Definition wf (fs : Fs) : Prop := forall p i, Some i ∈ history fs p -> is_Some (fs_inodes fs !! i).

(** Nothing that [target] can refer to after a crash changed since [fs0]. *)
Definition safe (fs0 : Fs) (target : bytes) (fs : Fs) : Prop :=
  history fs target = history fs0 target /\
  forall i, is_Some (fs_inodes fs0 !! i) -> fs_inodes fs !! i = fs_inodes fs0 !! i.

Lemma temporary_differs target : temporary_path target <> target.
Proof.
  intros H. apply (f_equal length) in H. unfold temporary_path in H. rewrite length_app in H. simpl in H. lia.
Qed.

Lemma history_bind_eq p b fs : history (bind p b fs) p = b :: history fs p.
Proof. unfold history at 1. simpl. by rewrite lookup_insert_eq. Qed.

Lemma history_bind_ne p q b fs : p <> q -> history (bind p b fs) q = history fs q.
Proof. intros H. unfold history. simpl. by rewrite lookup_insert_ne. Qed.

Lemma entry_bind_eq p b fs : entry (bind p b fs) p = b.
Proof. unfold entry. by rewrite history_bind_eq. Qed.

Section replace.
Context (fs0 : Fs) (target temporary : bytes) (Hwf : wf fs0) (Hne : temporary <> target).

Lemma safe_refl : safe fs0 target fs0.
Proof. by split. Qed.

Lemma safe_crash fs c : safe fs0 target fs -> crash_file fs target c -> crash_file fs0 target c.
Proof.
  intros [H1 H2] (b & Hb & Hc). rewrite H1 in Hb. exists b. split; [done|].
  destruct b as [i|]; [|done]. by rewrite <- H2 by by apply (Hwf target).
Qed.

Lemma safe_contents fs : safe fs0 target fs -> contents fs target = contents fs0 target.
Proof.
  intros [H1 H2]. unfold contents, entry. rewrite H1.
  destruct (history fs0 target) as [|[i|] l] eqn:E; try done. simpl. unfold data_of.
  rewrite H2; [done|]. apply (Hwf target). rewrite E. left.
Qed.

Lemma safe_same_but i fs fs' : fs_inodes fs0 !! i = None -> same_but i fs fs' -> safe fs0 target fs -> safe fs0 target fs'.
Proof.
  intros Hi [H1 H2] [H3 H4]. split; [unfold history in *; by rewrite H1|].
  intros j Hj. rewrite H2; [by apply H4|]. intros ->. rewrite Hi in Hj. by destruct Hj.
Qed.

Definition all_safe (w : Machine) : Prop := Forall (safe fs0 target) (visited w).

Lemma all_safe_now w : all_safe w -> safe fs0 target (mc_fs w).
Proof. intros H. by apply Forall_inv in H. Qed.

Lemma all_safe_quiet w w' : mc_fs w' = mc_fs w -> mc_seen w' = mc_seen w -> all_safe w -> all_safe w'.
Proof. unfold all_safe, visited. by intros -> ->. Qed.

Lemma all_safe_set fs w : safe fs0 target fs -> all_safe w -> all_safe (set_fs fs w).
Proof. intros H1 H2. by constructor. Qed.

Lemma all_safe_next w : all_safe w -> all_safe (next_outcome w).1.
Proof. destruct (next_outcome_same w) as (H1 & _ & H3). by apply all_safe_quiet. Qed.

Lemma all_safe_evolves i w w' : fs_inodes fs0 !! i = None -> evolves (same_but i) w w' -> all_safe w -> all_safe w'.
Proof.
  intros Hi [_ (l & El & Hl)] H. unfold all_safe. rewrite El. apply Forall_app. split; [|done].
  revert Hl. apply Forall_impl. intros fs Hfs. eapply safe_same_but; [done..|]. by apply all_safe_now.
Qed.

Lemma safe_bind_temporary b fs : safe fs0 target fs -> safe fs0 target (bind temporary b fs).
Proof. intros [H1 H2]. split; [|done]. by rewrite history_bind_ne. Qed.

(** A new file is none of those that existed at the start. *)
Lemma fresh_is_new fs : safe fs0 target fs -> fs_inodes fs0 !! fresh (dom (fs_inodes fs)) = None.
Proof.
  intros [_ H]. set (i := fresh _). destruct (fs_inodes fs0 !! i) as [n|] eqn:E; [|done].
  assert (fs_inodes fs !! i = None) as Hn by (apply not_elem_of_dom, is_fresh).
  rewrite H in Hn by by rewrite E. congruence.
Qed.

Lemma safe_create fs i n : safe fs0 target fs -> fs_inodes fs0 !! i = None ->
  safe fs0 target (bind temporary (Some i) (put_inode i n fs)).
Proof. intros H Hi. apply safe_bind_temporary. eapply safe_same_but; [done| |done]. apply same_but_put. Qed.

(** The handle, if open, is open on a file that is new. *)
Definition on_new_file (h : nat) (w : Machine) : Prop :=
  forall s, mc_streams w !! h = Some s -> fs_inodes fs0 !! sm_inode s = None /\ 0 <= sm_offset s.

Lemma close_evolves h s w w' r : mc_streams w !! h = Some s -> 0 <= sm_offset s -> close h w = (w', r) ->
  evolves (same_but (sm_inode s)) w w' /\ mc_streams w' !! h = None /\ r = Ok tt /\
  (sm_pending s = [] -> mc_fs w' = mc_fs w).
Proof.
  intros Hs Ho E. unfold close, with_file in E. rewrite Hs in E.
  destruct (fflush h s w) as [w1 f] eqn:Ef. injection E as <- <-.
  destruct (fflush_serves _ _ _ _ _ Ho Ef) as (s' & [A1 A2 A3 A4 A5] & _ & _). split_and!; [|apply lookup_delete_eq|done|].
  - eapply evolution_trans; [done|]. by apply evolution_same.
  - intros Hp. simpl. unfold fflush in Ef. destruct (next_outcome_same w) as (B1 & _ & _).
    destruct (next_outcome w) as [w2 [d|a d]]; injection Ef as <- _; unfold deliver; simpl; by rewrite Hp, take_nil.
Qed.

Lemma close_safe h w : all_safe w -> on_new_file h w -> all_safe (close h w).1.
Proof.
  intros H Hn. destruct (mc_streams w !! h) as [s|] eqn:E.
  - destruct (Hn s E) as [Hi Ho]. destruct (close h w) as [w' r] eqn:Ec.
    destruct (close_evolves _ _ _ _ _ E Ho Ec) as (He & _). by eapply all_safe_evolves.
  - unfold close, with_file. by rewrite E.
Qed.

Lemma open_temporary h w w' r : mc_streams w !! h = None -> entry (mc_fs w) temporary = None -> all_safe w ->
  open h temporary true w = (w', r) ->
  all_safe w' /\ on_new_file h w' /\
  (r = Ok tt -> exists i, entry (mc_fs w') temporary = Some i /\ data_of (mc_fs w') i = [] /\
     mc_streams w' !! h = Some (mkStream i 0 [] true false)).
Proof.
  intros Hs He H E. unfold open, eff_bind, close, with_file in E. rewrite Hs in E.
  unfold fopen in E. destruct (next_outcome_same w) as (A1 & A2 & A3). apply all_safe_next in H.
  destruct (next_outcome w) as [w1 out1]; simpl in *.
  assert (E' : (match next_outcome w1 with
                | (w, Fails _ _) => (w, false)
                | (w, Works _) =>
                  let i := fresh (dom (fs_inodes (mc_fs w))) in
                  (set_stream h (mkStream i 0 [] true false)
                     (set_fs (bind temporary (Some i) (put_inode i (mkInode [] false) (mc_fs w))) w), true)
                end) = (w', match r with Ok _ => true | Err _ => false end)).
  { destruct (next_outcome_same w1) as (B1 & B2 & B3).
    rewrite <- A1 in He. assert (He2 := He). rewrite <- B1 in He2.
    destruct out1; rewrite ?He in E; simpl in E; destruct (next_outcome w1) as [w2 [x|x y]];
      simpl in He2; rewrite ?He2 in E; by injection E as <- <-. }
  clear E. destruct (next_outcome_same w1) as (B1 & B2 & B3). apply all_safe_next in H.
  destruct (next_outcome w1) as [w2 [d|a d]]; simpl in *; injection E' as <- Hr.
  - set (i := fresh _). assert (Hi : fs_inodes fs0 !! i = None) by by apply fresh_is_new, all_safe_now.
    split_and!.
    + eapply all_safe_quiet; [done..|]. apply all_safe_set; [|done]. apply safe_create; [by apply all_safe_now|done].
    + intros s. simpl. rewrite lookup_insert_eq. intros [= <-]. done.
    + intros _. exists i. simpl. rewrite entry_bind_eq, lookup_insert_eq. split_and!; [done| |done].
      unfold data_of. simpl. by rewrite lookup_insert_eq.
  - split_and!; [done| |intros ->; discriminate Hr]. intros s. rewrite B2, A2, Hs. done.
Qed.
Lemma entry_same_but i fs fs' p : same_but i fs fs' -> entry fs' p = entry fs p.
Proof. intros [H _]. unfold entry, history. by rewrite H. Qed.

(** A call on the open temporary file. *)
Lemma served_safe h s w w' s' : serves h s w w' s' -> fs_inodes fs0 !! sm_inode s = None -> all_safe w ->
  all_safe w' /\ on_new_file h w' /\ entry (mc_fs w') temporary = entry (mc_fs w) temporary.
Proof.
  intros Hs Hi H. split_and!.
  - eapply all_safe_evolves; [done| |done]. by destruct Hs.
  - intros t. rewrite (serves_lookup _ _ _ _ _ Hs). intros [= <-]. rewrite (sv_inode _ _ _ _ _ Hs).
    split; [done|]. by destruct Hs.
  - apply (entry_same_but (sm_inode s)). by destruct Hs as [_ _ _ _ [? _]].
Qed.

(** A computation that writes [bs] to an empty file open on [h]. *)
Definition fills (h : nat) (fill : Eff Machine unit) (bs : bytes) : Prop :=
  forall w w' r s, mc_streams w !! h = Some s -> 0 <= sm_offset s -> abs (mc_fs w) s = mkAFile [] 0 ->
    fill w = (w', r) ->
    exists s', serves h s w w' s' /\ (r = Ok tt -> view (mc_fs w') s' = bs).

(** Writing, flushing and closing the temporary file: nothing of [target]
    changes, and on success the temporary file has the contents, on disk. *)
Definition staging (h : nat) (fill : Eff Machine unit) : Eff Machine unit :=
  open h temporary true ;$ fill ;$ sync h ;$ close h.

Lemma staging_ends h fill bs w w' r : fills h fill bs ->
  mc_streams w !! h = None -> entry (mc_fs w) temporary = None -> all_safe w ->
  staging h fill w = (w', r) ->
  all_safe w' /\ on_new_file h w' /\
  (r = Ok tt -> mc_streams w' !! h = None /\ exists i, entry (mc_fs w') temporary = Some i /\
     fs_inodes (mc_fs w') !! i = Some (mkInode bs true)).
Proof.
  intros Hfill Hs He H E. unfold staging, eff_bind in E.
  destruct (open h temporary true w) as [w1 r1] eqn:E1.
  destruct (open_temporary h w w1 r1 Hs He H E1) as (H1 & N1 & O1).
  destruct r1 as [[]|e]; [|injection E as <- <-; by split_and!].
  destruct (O1 eq_refl) as (i & He1 & Hd1 & Hs1). set (s1 := mkStream i 0 [] true false) in *.
  assert (Hi : fs_inodes fs0 !! i = None) by by destruct (N1 s1 Hs1).
  destruct (fill w1) as [w2 r2] eqn:E2.
  destruct (Hfill w1 w2 r2 s1 Hs1 ltac:(done)) as (s2 & S2 & Hv2); [|done|].
  { rewrite (abs_flushed _ s1) by done. simpl. by rewrite Hd1. }
  destruct (served_safe h s1 w1 w2 s2 S2 Hi H1) as (H2 & N2 & He2).
  destruct r2 as [[]|e]; [|injection E as <- <-; by split_and!]. specialize (Hv2 eq_refl).
  pose proof (serves_lookup _ _ _ _ _ S2) as Hs2. destruct (N2 s2 Hs2) as [Hi2 Ho2].
  destruct (sync h w2) as [w3 r3] eqn:E3.
  destruct (sync_refines h s2 w2 w3 r3 Hs2 Ho2 E3) as (s3 & S3 & _ & W3).
  destruct (served_safe h s2 w2 w3 s3 S3 Hi2 H2) as (H3 & N3 & He3).
  destruct r3 as [[]|e]; [|injection E as <- <-; by split_and!].
  destruct (W3 eq_refl) as [Hp3 Hn3]. pose proof (serves_lookup _ _ _ _ _ S3) as Hs3.
  destruct (N3 s3 Hs3) as [Hi3 Ho3].
  destruct (close_evolves h s3 w3 w' r Hs3 Ho3 E) as (He4 & Hs4 & -> & Hf4).
  split_and!; [by eapply all_safe_evolves|intros s; by rewrite Hs4|]. intros _. split; [done|].
  exists i. rewrite (Hf4 Hp3), He3, He2. split; [done|].
  rewrite <- (sv_inode _ _ _ _ _ S2 : _ = i), Hn3, Hv2. done.
Qed.

Lemma remove_safe w : all_safe w -> all_safe (remove temporary w).1.
Proof.
  intros H. unfold remove. apply all_safe_next in H. destruct (next_outcome w) as [w1 [d|a d]]; [|done]. simpl in *.
  destruct (entry _ _); [|done]. apply all_safe_set; [|done]. by apply safe_bind_temporary, all_safe_now.
Qed.

Lemma remove_streams p w : mc_streams (remove p w).1 = mc_streams w.
Proof.
  unfold remove. destruct (next_outcome_same w) as (_ & H & _). destruct (next_outcome w) as [w1 [d|a d]]; [|done].
  simpl in *. by destruct (entry _ _).
Qed.

(** The temporary name is free before the call or the removal frees it. *)
Lemma remove_frees p w : entry (mc_fs w) p = None \/ (exists d rest, mc_plan w = Works d :: rest) \/ mc_plan w = [] ->
  entry (mc_fs (remove p w).1) p = None.
Proof.
  intros H. unfold remove. destruct (next_outcome_same w) as (H1 & _ & _).
  destruct (next_outcome w) as [w1 [d|a d]] eqn:E; simpl in *.
  - destruct (entry (mc_fs w1) p) eqn:Ee; [|done]. apply entry_bind_eq.
  - unfold next_outcome in E. destruct H as [H|[(d' & rest & H)|H]]; [congruence|rewrite H in E; congruence..].
Qed.
End replace.

(** A name is free, or a removal would free it. *)
Definition cleared (path : bytes) (w : Machine) : Prop :=
  entry (mc_fs w) path = None \/ (exists d rest, mc_plan w = Works d :: rest) \/ mc_plan w = [].

Definition temporary_is_cleared (target : bytes) (w : Machine) : Prop := cleared (temporary_path target) w.

(** One write fills a file. *)
Lemma write_fills h bs : fills h (write h bs) bs.
Proof.
  intros w w' r s Hs Ho Ha E. destruct (write_refines h bs s w w' r Hs Ho E) as (s' & S & W & _).
  exists s'. split; [done|]. intros Hr. specialize (W Hr). rewrite Ha in W.
  destruct bs as [|b bs]; injection W as W _; [done|]. rewrite <- W, pwrite_within by (simpl; lia).
  simpl. by rewrite app_nil_r.
Qed.

Lemma crash_cons p i n fs fs' c :
  history fs' p = Some i :: history fs p -> fs_inodes fs' = fs_inodes fs -> fs_inodes fs !! i = Some n ->
  in_synced n = true -> crash_file fs' p c -> crash_file fs p c \/ c = Some (in_data n).
Proof.
  intros Hh Hn Hi Hs (b & Hb & Hc). rewrite Hh in Hb. apply list_elem_of_In in Hb. destruct Hb as [<-|Hb].
  - destruct Hc as (n' & bs & Hn' & -> & Hbs). rewrite Hn in Hn'. right. f_equal.
    assert (n' = n) as -> by congruence. auto.
  - left. exists b. rewrite <- Hn. split; [by apply list_elem_of_In|done].
Qed.

(** What a call that leaves [target] alone shows. *)
Lemma all_safe_replaced fs0 target bs w e : wf fs0 -> all_safe fs0 target w ->
  (forall fs c, fs ∈ visited w -> crash_file fs target c -> crash_file fs0 target c \/ c = Some bs) /\
  (@Err unit e = Ok tt -> contents (mc_fs w) target = Some bs) /\
  (@Err unit e <> Ok tt -> contents (mc_fs w) target = contents fs0 target).
Proof.
  intros Hwf H. split_and!; [|done|].
  - intros fs c Hfs Hc. left. unfold all_safe in H. rewrite Forall_forall in H. eapply safe_crash; [done| |done]. by apply H, list_elem_of_In.
  - intros _. by apply safe_contents, all_safe_now.
Qed.

Lemma rename_replaced fs0 target temporary bs i w w' b : wf fs0 -> temporary <> target -> all_safe fs0 target w ->
  entry (mc_fs w) temporary = Some i -> fs_inodes (mc_fs w) !! i = Some (mkInode bs true) ->
  rename temporary target w = (w', b) ->
  (b = false /\ all_safe fs0 target w') \/
  (b = true /\ contents (mc_fs w') target = Some bs /\
   forall fs c, fs ∈ visited w' -> crash_file fs target c -> crash_file fs0 target c \/ c = Some bs).
Proof.
  intros Hwf Hne H He Hi E. unfold rename in E. destruct (next_outcome_same w) as (A1 & _ & A3). apply all_safe_next in H.
  destruct (next_outcome w) as [w1 [d|a d]]; simpl in *; [|injection E as <- <-; by left].
  rewrite A1, He in E. injection E as <- <-. right.
  set (fs1 := bind _ None _).
  assert (Hh : history fs1 target = Some i :: history (mc_fs w) target).
  { unfold fs1. by rewrite history_bind_ne, history_bind_eq. }
  split_and!; [done| |].
  - unfold contents, entry. simpl. rewrite Hh. simpl. f_equal. unfold data_of. simpl. by rewrite Hi.
  - intros fs c Hfs Hc. unfold visited in Hfs. simpl in Hfs. apply list_elem_of_In in Hfs. destruct Hfs as [<-|Hfs].
    + destruct (crash_cons target i (mkInode bs true) (mc_fs w) fs1 c Hh eq_refl Hi eq_refl Hc) as [Hc'| ->]; [left|by right].
      eapply safe_crash; [done| |done]. rewrite <- A1. by apply all_safe_now.
    + left. unfold all_safe in H. rewrite Forall_forall in H.
      eapply safe_crash; [done| |done]. by apply H.
Qed.

Lemma atomic_replace_ends h target bs w w' r :
  wf (mc_fs w) -> mc_seen w = [] -> mc_streams w !! h = None -> temporary_is_cleared target w ->
  atomic_replace_file h target bs true w = (w', r) ->
  (forall fs c, fs ∈ visited w' -> crash_file fs target c -> crash_file (mc_fs w) target c \/ c = Some bs) /\
  (r = Ok tt -> contents (mc_fs w') target = Some bs) /\
  (r <> Ok tt -> contents (mc_fs w') target = contents (mc_fs w) target).
Proof.
  intros Hwf Hseen Hs Hclear E. set (fs0 := mc_fs w) in *.
  assert (H0 : all_safe fs0 target w).
  { unfold all_safe, visited. rewrite Hseen. by apply Forall_singleton, safe_refl. }
  pose proof (temporary_differs target) as Hne. set (temporary := temporary_path target) in *.
  unfold atomic_replace_file in E. fold temporary in E. pose proof (remove_safe fs0 target temporary Hne w H0) as H1.
  pose proof (remove_streams temporary w) as Hs1. pose proof (remove_frees temporary w Hclear) as He1.
  destruct (remove temporary w) as [w1 f1]. simpl in H1, Hs1, He1. rewrite <- Hs1 in Hs.
  unfold eff_bind at 1, scoped in E. fold (staging temporary h (write h bs)) in E.
  destruct (staging temporary h (write h bs) w1) as [w2 r2] eqn:E2.
  destruct (staging_ends fs0 target temporary Hne h _ bs w1 w2 r2 (write_fills h bs) Hs He1 H1 E2) as (H2 & N2 & O2).
  destruct r2 as [[]|e]; [|injection E as <- <-; apply all_safe_replaced; [done|by apply close_safe]].
  destruct (O2 eq_refl) as (Hs2 & i & He2 & Hi2).
  unfold close, with_file in E. rewrite Hs2 in E. simpl in E.
  destruct (rename temporary target w2) as [w3 b] eqn:E3.
  destruct (rename_replaced fs0 target temporary bs i w2 w3 b Hwf Hne H2 He2 Hi2 E3) as [[-> H3]|(-> & Hc3 & H3)].
  - pose proof (remove_safe fs0 target temporary Hne w3 H3) as H4. destruct (remove _ w3) as [w4 f4].
    injection E as <- <-. by apply all_safe_replaced.
  - injection E as <- <-. by split_and!.
Qed.


(** (safety) A sync that reports success is a durability point: after a crash the file
    has exactly what the operations before it wrote, provided its directory
    entry was on disk. *)
Theorem synced_writes_survive_a_crash h ops s w w1 w' vs path c :
  Forall op_ok ops -> mc_streams w !! h = Some s -> 0 <= sm_offset s ->
  history (mc_fs w) path = [Some (sm_inode s)] ->
  run_ops h ops w = (w1, Ok vs) -> sync h w1 = (w', Ok tt) ->
  crash_file (mc_fs w') path c -> c = Some (af_bytes (spec_ops ops (abs (mc_fs w) s)).1).
Proof.
  intros Hops Hs Ho Hh E1 E2 (b & Hb & Hc).
  destruct (run_ops_refines h ops s w w1 vs Hops Hs Ho E1) as (s1 & S1 & ->). simpl.
  pose proof (serves_lookup _ _ _ _ _ S1) as Hs1.
  destruct (sync_refines h s1 w1 w' (Ok tt) Hs1 (sv_offset _ _ _ _ _ S1) E2) as (s2 & S2 & _ & Hok).
  destruct (Hok eq_refl) as [_ Hn]. pose proof (serves_trans _ _ _ _ _ _ _ S1 S2) as S.
  assert (Hh' : history (mc_fs w') path = [Some (sm_inode s)]).
  { destruct S as [_ _ _ _ [[Hnames _] _]]. unfold history in *. by rewrite Hnames. }
  rewrite Hh' in Hb. apply list_elem_of_singleton in Hb as ->. destruct Hc as (n & bs & Hl & -> & Hbs).
  rewrite (sv_inode _ _ _ _ _ S1), Hl in Hn. injection Hn as ->. f_equal. by apply Hbs.
Qed.

(** ** Behaviours the interface does not promise *)

Definition demo_target : bytes := lit "journal".
Definition demo_old : bytes := lit "previous".
Definition demo_new : bytes := lit "new".
Definition demo_fs : Fs := mkFs {[0%nat := mkInode demo_old true]} {[demo_target := [Some 0%nat]]}.
Definition demo_machine (plan : list Outcome) : Machine := mkMachine demo_fs ∅ plan [].

(** (error) Without the flush to disk the replacement is not atomic: a close whose write
    fails is not noticed and an empty file replaces the old one, and even when
    no call fails a crash can leave contents that are neither the old nor the
    new ones. *)
Theorem unsynced_replacement_is_not_atomic :
  (exists w, atomic_replace_file 0 demo_target demo_new false (demo_machine [Works 0; Works 0; Works 0; Works 0; Fails 0 0])
             = (w, Ok tt) /\ contents (mc_fs w) demo_target = Some []) /\
  (exists w, atomic_replace_file 0 demo_target demo_new false (demo_machine []) = (w, Ok tt) /\
             crash_file (mc_fs w) demo_target (Some (lit "neither"))).
Proof.
  split; eexists; (split; [reflexivity|]); [reflexivity|].
  exists (Some 1%nat). split; [left|]. eexists _, _. split_and!; [reflexivity..|]. discriminate.
Qed.

(** (error) A replacement reported as done can be lost: the directory entry is never
    flushed, so a crash can bring the old contents back. *)
Theorem acknowledged_replacement_can_be_lost :
  exists w, atomic_replace_file 0 demo_target demo_new true (demo_machine []) = (w, Ok tt) /\
    contents (mc_fs w) demo_target = Some demo_new /\ crash_file (mc_fs w) demo_target (Some demo_old).
Proof.
  eexists. split_and!; [reflexivity..|]. exists (Some 0%nat). split; [right; left|].
  eexists _, _. by split_and!.
Qed.

(** (error) A leftover temporary file that cannot be removed is written over and not
    truncated, and its tail ends up in the target. *)
Theorem stale_temporary_reaches_target :
  let fs := bind (temporary_path demo_target) (Some 1%nat) (put_inode 1 (mkInode (lit "leftover") true) demo_fs) in
  exists w, atomic_replace_file 0 demo_target demo_new true (mkMachine fs ∅ [Fails 0 0] []) = (w, Ok tt) /\
    contents (mc_fs w) demo_target = Some (lit "newtover").
Proof. eexists. by split; reflexivity. Qed.

(** (error) Opening for update destroys an existing file when the first attempt fails
    for another reason than that the file is missing. *)
Theorem open_for_update_can_destroy :
  exists w, open 0 demo_target true (demo_machine [Fails 0 0]) = (w, Ok tt) /\
    contents demo_fs demo_target = Some demo_old /\ contents (mc_fs w) demo_target = Some [].
Proof. eexists. by split_and!. Qed.

(** ** Witnesses *)

Lemma file_lock_is_exclusive_witness :
  let k := (lock_acquire 0 (lit "movements.lock") true true no_locks).1 in
  holds k 0 (lit "movements.lock") /\ (lock_acquire 1 (lit "movements.lock") true true k).2 <> Ok tt.
Proof.
  intros k. assert (Hk : lock_reachable k) by (eapply rtc_l; [apply step_acquire|apply rtc_refl]).
  assert (H0 : holds k 0 (lit "movements.lock")) by (exists 0%nat; split; vm_compute; reflexivity).
  split; [exact H0|]. intros Hok.
  destruct (file_lock_is_exclusive k Hk) as (_ & _ & Hacq & _).
  destruct (lock_acquire 1 (lit "movements.lock") true true k) as [k' r] eqn:E. simpl in Hok.
  destruct (Hacq _ _ _ _ _ _ E) as [[H1 _] _]. destruct (H1 Hok) as (_ & _ & Hl).
  specialize (Hl 0%nat H0). discriminate Hl.
Defined.

Definition demo_stream : Stream := mkStream 0 0 [] true false.
Definition demo_open : Machine := mkMachine demo_fs {[7%nat := demo_stream]} [Works 0; Works 1; Works 0; Works 0] [].
Definition demo_ops : list FileOp := [OpSeek 3; OpWrite (lit "XY"); OpSize; OpSeek 0; OpRead 6].

Lemma handle_refines_file_witness :
  exists w s, run_ops 7 demo_ops demo_open = (w, Ok [VUnit; VUnit; VSize 8; VUnit; VBytes (lit "preXYo")]) /\
    serves 7 demo_stream demo_open w s.
Proof.
  assert (Hops : Forall op_ok demo_ops) by (repeat constructor; simpl; lia).
  destruct (run_ops 7 demo_ops demo_open) as [w r] eqn:E.
  assert (Hr : r = Ok [VUnit; VUnit; VSize 8; VUnit; VBytes (lit "preXYo")])
    by (change r with (snd (w, r)); rewrite <- E; vm_compute; reflexivity).
  subst r. destruct (handle_refines_file 7 demo_ops demo_stream demo_open w _ Hops eq_refl ltac:(done) E) as (s & Hs & _).
  exists w, s. split; [reflexivity|exact Hs].
Defined.

Lemma synced_writes_survive_a_crash_witness :
  let w1 := (run_ops 7 demo_ops demo_open).1 in
  forall c, crash_file (mc_fs (sync 7 w1).1) demo_target c -> c = Some (lit "preXYous").
Proof.
  intros w1 c Hc. assert (Hops : Forall op_ok demo_ops) by (repeat constructor; simpl; lia).
  exact (synced_writes_survive_a_crash 7 demo_ops demo_stream demo_open w1 (sync 7 w1).1 _ demo_target c Hops eq_refl
           ltac:(done) eq_refl eq_refl eq_refl Hc).
Defined.

Lemma demo_wf : wf demo_fs.
Proof.
  intros p i H. unfold history in H. destruct (decide (p = demo_target)) as [->|Hp].
  - simpl in H. apply list_elem_of_singleton in H as [= ->]. eexists. reflexivity.
  - simpl in H. rewrite lookup_singleton_ne in H by done. by apply list_elem_of_singleton in H.
Qed.

