(* ===== verification/Durable.v ===== *)
(** * Durability of the stores (src/src/file_utils.cpp under
      src/src/object_store.cpp and src/src/movement_store.cpp)

    The stores are modelled over files that are replaced and appended to as a
    whole; here the file layer beneath them is shown to do that.  The atomic
    replacement the object store assumes is the one [atomic_replace_file]
    performs, and the append the movement store assumes is what its sequence of
    [seek], [write] and [sync] on the log's handle does.  The movement store's
    [open] is composed with the lock file. *)
From S2P Require Import Prelude Status Bytes Digest Codec Ids StateObject Provenance Movement.
From S2P Require Import ObjectStore MovementStore Effect Files.

(** ** The object store's replacement *)

(** What [FileHandle::open] and the calls after it report. *)
Lemma open_result h p b w w' r : open h p b w = (w', r) ->
  (r = Ok tt /\ exists s, mc_streams w' !! h = Some s /\ 0 <= sm_offset s) \/ r = Err (ObjectStore.open_error p).
Proof.
  unfold open, eff_bind. destruct (close h w) as [w1 [u|e]] eqn:Ec.
  2: { unfold close, with_file in Ec. destruct (mc_streams w !! h) as [s|]; [|done].
       by destruct (fflush h s w). }
  assert (Hf : forall m x y, fopen h p m x = (y, true) -> exists s, mc_streams y !! h = Some s /\ 0 <= sm_offset s).
  { intros m x y. unfold fopen. destruct (next_outcome x) as [x1 [d|a d]]; [|done].
    destruct m, (entry (mc_fs x1) p); intros [= <-]; eexists; simpl; rewrite lookup_insert_eq; done. }
  destruct (fopen h p _ w1) as [w2 o] eqn:E1. destruct o, b; simpl.
  - intros [= <- <-]. left. split; [done|]. by eapply Hf.
  - intros [= <- <-]. left. split; [done|]. by eapply Hf.
  - destruct (fopen h p Create w2) as [w3 o2] eqn:E2. intros [= <- <-].
    destruct o2; [left; split; [done|by eapply Hf]|by right].
  - intros [= <- <-]. by right.
Qed.

Lemma sync_result h w w' r : sync h w = (w', r) ->
  r = Ok tt \/ r = Err (store_error "flush failed") \/ r = Err (store_error "fsync failed").
Proof.
  unfold sync, with_file. destruct (mc_streams w !! h) as [s|]; [|intros [= _ <-]; by left].
  destruct (fflush h s w) as [w1 [|]]; [|intros [= _ <-]; auto].
  destruct (fsync (sm_inode s) w1) as [w2 [|]]; intros [= _ <-]; auto.
Qed.

Lemma close_result h w w' r : close h w = (w', r) -> r = Ok tt.
Proof.
  unfold close, with_file. destruct (mc_streams w !! h) as [s|]; [|by intros [= _ <-]].
  destruct (fflush h s w) as [w1 f]. by intros [= _ <-].
Qed.

(** The outcomes of the object store's model that report what the file layer
    reported. *)
Lemma replace_result h target bs w w' r : atomic_replace_file h target bs true w = (w', r) ->
  exists io, forall d replace,
    ObjectStore.atomic_replace target replace true (ObjectStore.mkWorld d io) =
      (ObjectStore.mkWorld (match r with Ok _ => replace d | Err _ => d end) [], r).
Proof.
  intros E. unfold atomic_replace_file in E. destruct (remove _ w) as [w1 f1].
  unfold eff_bind at 1, scoped in E. destruct ((open h (temporary_path target) true ;$ _) w1) as [w2 r2] eqn:Es.
  unfold eff_bind in Es. destruct (open h (temporary_path target) true w1) as [w3 r3] eqn:E1.
  apply open_result in E1 as [(-> & s & Hs & Ho)| ->].
  2: { injection Es as <- <-. injection E as <- <-. by exists [ObjectStore.Failed]. }
  destruct (write h bs w3) as [w4 r4] eqn:E2.
  destruct (write_refines h bs s w3 w4 r4 Hs Ho E2) as (s4 & _ & _ & He).
  destruct r4 as [[]|e4].
  2: { injection Es as <- <-. injection E as <- <-. destruct He as [[= ->] _]; [done|].
       by exists [ObjectStore.Done; ObjectStore.Failed]. }
  destruct (sync h w4) as [w5 r5] eqn:E3. apply sync_result in E3 as [->|[->| ->]].
  2: { injection Es as <- <-. injection E as <- <-. by exists [ObjectStore.Done; ObjectStore.Done; ObjectStore.Torn 0]. }
  2: { injection Es as <- <-. injection E as <- <-. by exists [ObjectStore.Done; ObjectStore.Done; ObjectStore.Failed]. }
  pose proof (close_result _ _ _ _ Es) as ->.
  destruct (rename _ _ _) as [w6 [|]].
  - injection E as <- <-. by exists [].
  - destruct (remove _ w6) as [w7 f7]. injection E as <- <-.
    by exists [ObjectStore.Done; ObjectStore.Done; ObjectStore.Done; ObjectStore.Failed].
Qed.

(** (refinement) The replacement the object store is modelled with is the one the file layer
    performs: for every run of [atomic_replace_file] with a flush to disk there
    are outcomes for which the model returns the same result, and the file
    changes exactly when the model's disk does. *)
Theorem store_replacement_is_implemented h target bs w w' r :
  wf (mc_fs w) -> mc_seen w = [] -> mc_streams w !! h = None -> temporary_is_cleared target w ->
  atomic_replace_file h target bs true w = (w', r) ->
  contents (mc_fs w') target = match r with Ok _ => Some bs | Err _ => contents (mc_fs w) target end /\
  exists io, forall d replace,
    ObjectStore.atomic_replace target replace true (mkWorld d io) =
      (mkWorld (match r with Ok _ => replace d | Err _ => d end) [], r).
Proof.
  intros H1 H2 H3 H4 E. destruct (atomic_replace_ends h target bs w w' r H1 H2 H3 H4 E) as (_ & Hok & Herr).
  split; [|by eapply replace_result]. destruct r as [[]|e]; [by apply Hok|by apply Herr].
Qed.

(** ** The movement store's append *)

(** The calls of [MovementStore::append_record] on the log's handle. *)
Definition append_io (h : nat) (offset : Z) (header payload : bytes) (sync_on_write : bool) : Eff Machine unit :=
  seek h offset ;$ write h header ;$ write h payload ;$
  (if sync_on_write then sync h else eff_ret tt).

Lemma write_at_pwrite f o d : (o <= length f)%nat -> MovementStore.write_at f o d = pwrite f o d.
Proof. intros H. by rewrite pwrite_within. Qed.

Lemma spec_write f o d : 0 <= o <= zlen f ->
  (spec_op (OpWrite d) (mkAFile f o)).1 = mkAFile (MovementStore.write_at f (Z.to_nat o) d) (o + zlen d).
Proof.
  intros Hr. rewrite write_at_pwrite by (unfold zlen in Hr; lia). destruct d as [|x xs]; [|done].
  rewrite pwrite_within by (unfold zlen in Hr; lia). simpl.
  rewrite Nat.add_0_r, take_drop. unfold zlen. simpl. by rewrite Z.add_0_r.
Qed.

Lemma write_at_app f o a b : 0 <= o <= zlen f ->
  MovementStore.write_at (MovementStore.write_at f (Z.to_nat o) a) (Z.to_nat (o + zlen a)) b =
    MovementStore.write_at f (Z.to_nat o) (a ++ b) /\
  0 <= o + zlen a <= zlen (MovementStore.write_at f (Z.to_nat o) a).
Proof.
  intros Hr. pose proof (zlen_nonneg a). pose proof (pwrite_length f (Z.to_nat o) a) as Hl.
  rewrite !(write_at_pwrite f) by (unfold zlen in Hr; lia).
  assert (Hn : Z.to_nat (o + zlen a) = (Z.to_nat o + length a)%nat) by (unfold zlen; lia).
  rewrite Hn, write_at_pwrite by done. split; [apply pwrite_app|]. unfold zlen in *. lia.
Qed.

(** The log after an append: the whole record, or a prefix of it when a call
    failed; a flushed record is on disk. *)
Lemma append_io_ends h o header payload sync_on_write s w w' r :
  0 <= o < 2 ^ 63 -> o <= zlen (view (mc_fs w) s) -> mc_streams w !! h = Some s -> 0 <= sm_offset s ->
  append_io h o header payload sync_on_write w = (w', r) ->
  let at_ data := MovementStore.write_at (view (mc_fs w) s) (Z.to_nat o) data in
  exists s', serves h s w w' s' /\
    match r with
    | Ok _ => view (mc_fs w') s' = at_ (header ++ payload) /\
              (sync_on_write = true -> fs_inodes (mc_fs w') !! sm_inode s = Some (mkInode (at_ (header ++ payload)) true))
    | Err _ => exists n, view (mc_fs w') s' = at_ (take n (header ++ payload))
    end.
Proof.
  intros Ho Hl Hs Hof E at_. set (f := view (mc_fs w) s) in *. unfold append_io, eff_bind in E.
  destruct (seek h o w) as [w1 r1] eqn:E1.
  destruct (seek_refines h o s w w1 r1 ltac:(lia) Hs Hof E1) as (s1 & S1 & V1 & O1). fold f in V1.
  destruct r1 as [[]|e1].
  2: { injection E as <- <-. exists s1. split; [done|]. exists 0%nat. rewrite V1. unfold at_, MovementStore.write_at.
       simpl. by rewrite Nat.add_0_r, take_drop. }
  destruct (O1 eq_refl) as (_ & Hp1 & Ho1).
  assert (A1 : abs (mc_fs w1) s1 = mkAFile f o).
  { unfold abs. rewrite V1, Hp1, Ho1. unfold zlen at 1. simpl. by rewrite Z.add_0_r. }
  destruct (write h header w1) as [w2 r2] eqn:E2.
  destruct (write_refines h header s1 w1 w2 r2 (serves_lookup _ _ _ _ _ S1) (sv_offset _ _ _ _ _ S1) E2)
    as (s2 & S2 & O2 & F2). pose proof (serves_trans _ _ _ _ _ _ _ S1 S2) as S12. rewrite A1 in O2, F2.
  destruct r2 as [[]|e2].
  2: { injection E as <- <-. exists s2. split; [done|]. destruct F2 as (_ & n & Hn); [done|].
       rewrite spec_write in Hn by lia. exists (n `min` length header)%nat.
       rewrite take_app_le, <- take_take, firstn_all by lia. by injection Hn. }
  specialize (O2 eq_refl). apply (f_equal fst) in O2. rewrite spec_write in O2 by lia. simpl in O2. symmetry in O2.
  destruct (write h payload w2) as [w3 r3] eqn:E3.
  destruct (write_refines h payload s2 w2 w3 r3 (serves_lookup _ _ _ _ _ S2) (sv_offset _ _ _ _ _ S2) E3)
    as (s3 & S3 & O3 & F3). pose proof (serves_trans _ _ _ _ _ _ _ S12 S3) as S13. rewrite O2 in O3, F3.
  assert (Hr : 0 <= o <= zlen f) by lia.
  destruct r3 as [[]|e3].
  2: { injection E as <- <-. exists s3. split; [done|]. destruct F3 as (_ & n & Hn); [done|].
       destruct (write_at_app f o header (take n payload) Hr) as [Happ Hle].
       rewrite spec_write, Happ in Hn by done. exists (length header + n)%nat.
       rewrite take_app_add. by injection Hn. }
  specialize (O3 eq_refl). apply (f_equal fst) in O3.
  destruct (write_at_app f o header payload Hr) as [Happ Hle]. rewrite spec_write, Happ in O3 by done.
  apply (f_equal af_bytes) in O3. simpl in O3. symmetry in O3.
  destruct sync_on_write; [|injection E as <- <-; exists s3; by split_and!].
  destruct (sync_refines h s3 w3 w' r (serves_lookup _ _ _ _ _ S3) (sv_offset _ _ _ _ _ S3) E) as (s4 & S4 & A4 & O4).
  exists s4. split; [by eapply serves_trans|]. apply (f_equal af_bytes) in A4. simpl in A4. rewrite O3 in A4, O4.
  destruct r as [[]|e].
  - split; [done|]. intros _. rewrite <- (sv_inode _ _ _ _ _ S13). by apply O4.
  - exists (length (header ++ payload)). by rewrite firstn_all.
Qed.

(** The header and the payload make up the record. *)
Lemma frame_split type sequence payload :
  let frame := record_frame type sequence payload in take (length frame - length payload) frame ++ payload = frame.
Proof.
  unfold record_frame. cbv zeta. rewrite !app_assoc. set (p := _ ++ record_checksum _ _).
  by rewrite length_app, Nat.add_sub, take_app_length.
Qed.


(** A put within the history bound appends one record and nothing else. *)
Lemma put_without_retention store record store' :
  ms_open store = true -> zlen (MovementRecord_encode record) <= so_max_record_bytes (ms_options store) ->
  map_size (<[m_id record := record]> (ms_records store)) <= so_max_history_records (ms_options store) ->
  store_put no_faults store record = (store', Ok tt) ->
  ms_file store' = MovementStore.write_at (ms_file store) (Z.to_nat (ms_append_offset store))
    (record_frame kRecordMovement (ms_next_sequence store) (MovementRecord_encode record)).
Proof.
  intros Hopen Hfit Hhist E. unfold store_put in E. destruct (MovementRecord_validate record); [|done].
  unfold append_record in E. rewrite Hopen in E. simpl in E. destruct (_ <? _) eqn:Em; [b2p; lia|].
  match type of E with context [enforce_retention no_faults ?x] => set (s1 := x) in E end.
  assert (Hr : enforce_retention no_faults s1 = (s1, Ok tt)).
  { unfold enforce_retention. destruct (_ =? 0); [done|]. destruct (_ <=? so_retention_completed _); [done|].
    destruct (_ <=? _) eqn:El; [done|]. b2p. exfalso. change (ms_options s1) with (ms_options store) in El.
    change (ms_records s1) with (<[m_id record := record]> (ms_records store)) in El. lia. }
  rewrite Hr in E. injection E as <-. done.
Qed.

Lemma history_same_but i fs fs' p : same_but i fs fs' -> history fs' p = history fs p.
Proof. intros [H _]. unfold history. by rewrite H. Qed.

Lemma synced_file_survives fs path i bs c : fs_inodes fs !! i = Some (mkInode bs true) ->
  history fs path = [Some i] -> crash_file fs path c -> c = Some bs.
Proof.
  intros Hi Hh (b & Hb & Hc). rewrite Hh in Hb. apply list_elem_of_singleton in Hb as ->.
  destruct Hc as (n & bs' & Hn & -> & Hbs). rewrite Hi in Hn. injection Hn as <-. f_equal. by apply Hbs.
Qed.


(** ** Opening the store under its lock *)

(** The checks [MovementStore::open] makes before it touches the directory. *)
Definition options_accepted (options : MovementStoreOptions) : bool :=
  negb (bytes_eqb (so_directory options) [] ||
        ((so_max_record_bytes options =? 0) || (64 * 2 ^ 20 <? so_max_record_bytes options)) ||
        (so_max_history_records options =? 0)).

Definition lock_path (options : MovementStoreOptions) : bytes := so_directory options ++ lit "/movements.lock".

(** [open] with a new [FileLock] named [l]: [created], [opens] and [locks] are the
    outcomes of [create_directories] and of the calls of [acquire].  Every early
    return destroys the store and with it the lock. *)
Definition open_store (l : nat) (created opens locks : bool) (options : MovementStoreOptions) (existing : bytes)
    (k : Locks) : Locks * Result (MovementStore * StoreRecoveryReport) :=
  if negb (options_accepted options) then (k, MovementStore_open options existing)
  else if negb created then (k, Err (store_error "could not create the store directory"))
  else if negb (so_exclusive_lock options) then (k, MovementStore_open options existing)
  else
    match lock_acquire l (lock_path options) opens locks k with
    | (k, Err e) => (lock_release l k, Err e)
    | (k, Ok _) =>
      match MovementStore_open options existing with
      | Err e => (lock_release l k, Err e)
      | Ok opened => (k, Ok opened)
      end
    end.

Lemma release_absent l k : lk_descriptor k !! l = None -> lock_release l k = k.
Proof. intros H. unfold lock_release. by rewrite H. Qed.

(** Releasing a lock just taken restores the table. *)
Lemma release_acquired l p opens locks k k' : locks_ok k -> lk_descriptor k !! l = None ->
  lock_acquire l p opens locks k = (k', Ok tt) -> lock_release l k' = k.
Proof.
  intros Hk Hl E. destruct (acquire_cases l p opens locks k Hk) as [[e E1]|[Hf E1]]; rewrite E1 in E; [done|].
  rewrite (release_absent l k Hl) in E, Hf. injection E as <-. set (fd := fresh _).
  assert (Hn : lk_open k !! fd = None) by (apply not_elem_of_dom, is_fresh).
  unfold lock_release. simpl. rewrite lookup_insert_eq. unfold close_descriptor. simpl.
  rewrite !delete_insert_id by done. rewrite map_filter_insert_False by (simpl; intros Hx; by apply Hx).
  rewrite delete_id by done. rewrite map_filter_id; [by destruct k|].
  intros q fd' H Heq. simpl in Heq. subst fd'. apply (lo_held k Hk) in H. congruence.
Qed.

Lemma rejected_options options existing : options_accepted options = false ->
  exists e, MovementStore_open options existing = Err e.
Proof.
  unfold options_accepted, MovementStore_open. intros H. apply negb_false_iff in H.
  destruct (bytes_eqb _ _); [by eexists|]. rewrite orb_false_l in H.
  destruct ((so_max_record_bytes options =? 0) || _); [by eexists|]. rewrite orb_false_l in H.
  rewrite H. by eexists.
Qed.

Lemma open_store_cases l created opens locks options existing k k' r :
  locks_ok k -> lk_descriptor k !! l = None -> so_exclusive_lock options = true ->
  open_store l created opens locks options existing k = (k', r) ->
  (exists opened, r = Ok opened /\ lock_acquire l (lock_path options) opens locks k = (k', Ok tt)) \/
  (exists e, r = Err e /\ k' = k).
Proof.
  intros Hk Hl Hx E. unfold open_store in E. rewrite Hx in E. simpl in E.
  destruct (options_accepted options) eqn:Ea; simpl in E.
  2: { destruct (rejected_options options existing Ea) as [e He]. rewrite He in E. injection E as <- <-. eauto. }
  destruct created; simpl in E; [|injection E as <- <-; eauto].
  destruct (lock_acquire l (lock_path options) opens locks k) as [k1 [[]|e]] eqn:Eq.
  - destruct (MovementStore_open options existing) as [opened|e]; injection E as <- <-; [eauto|].
    right. exists e. split; [done|]. by eapply release_acquired.
  - injection E as <- <-. right. exists e. split; [done|].
    destruct (acquire_spec _ _ _ _ _ _ _ Hk Eq) as (_ & _ & ->); [|done].
    by rewrite !(release_absent l k Hl).
Qed.

(** (invariant) A store opened with [exclusive_lock] is the only one on its directory: the
    open succeeds only when no other object has the lock, a store that is open
    makes every other open fail, and a refused open leaves the lock as it was. *)
Theorem exclusive_open_excludes l created opens locks options existing k k' r :
  lock_reachable k -> lk_descriptor k !! l = None -> so_exclusive_lock options = true ->
  open_store l created opens locks options existing k = (k', r) ->
  (forall opened, r = Ok opened -> holds k' l (lock_path options) /\
     (forall l', holds k' l' (lock_path options) -> l' = l) /\
     forall l2 c2 o2 f2 options2 existing2, lk_descriptor k' !! l2 = None -> so_exclusive_lock options2 = true ->
       lock_path options2 = lock_path options ->
       exists e, open_store l2 c2 o2 f2 options2 existing2 k' = (k', Err e)) /\
  (forall e, r = Err e -> k' = k).
Proof.
  intros Hr Hl Hx E. apply reachable_locks_ok in Hr as Hk.
  destruct (open_store_cases _ _ _ _ _ _ _ _ _ Hk Hl Hx E) as [(opened & -> & Ea)|(e & -> & ->)]; [|done].
  destruct (acquire_spec _ _ _ _ _ _ _ Hk Ea) as (_ & Hh & _). specialize (Hh eq_refl).
  assert (Hk' : locks_ok k') by (change k' with (k', @Ok unit tt).1; rewrite <- Ea; by apply lock_acquire_ok).
  assert (Hu : forall l', holds k' l' (lock_path options) -> l' = l).
  { intros l' (fd & H1 & H2). destruct Hh as (fd' & H3 & H4). assert (fd = fd') as <- by congruence.
    by apply (lo_unique k' Hk' _ _ fd). }
  split; [|done]. intros _ _. split_and!; [done..|]. intros l2 c2 o2 f2 options2 existing2 Hl2 Hx2 Hp.
  destruct (open_store l2 c2 o2 f2 options2 existing2 k') as [k2 r2] eqn:E2.
  destruct (open_store_cases _ _ _ _ _ _ _ _ _ Hk' Hl2 Hx2 E2) as [(o' & -> & Ea2)|(e & -> & ->)]; [|eauto].
  destruct (acquire_spec _ _ _ _ _ _ _ Hk' Ea2) as ([Hok _] & _ & _). destruct (Hok eq_refl) as (_ & _ & Hall).
  rewrite Hp in Hall. rewrite <- (Hall l Hh) in Hl2. destruct Hh as (fd & Hd & _). congruence.
Qed.

(** ** The file header *)

(** [std::filesystem::exists], false when it fails, and [file_size]. *)
Definition exists_file (path : bytes) (w : Machine) : Machine * bool :=
  match next_outcome w with
  | (w, Works _) => (w, match entry (mc_fs w) path with Some _ => true | None => false end)
  | (w, Fails _ _) => (w, false)
  end.

Definition file_size (path : bytes) : Eff Machine Z := fun w =>
  match next_outcome w with
  | (w, Works _) => (w, Ok (from_option zlen 0 (contents (mc_fs w) path)))
  | (w, Fails _ _) => (w, Err (store_error "could not determine the store file size"))
  end.

(** [MovementStore::open] up to the recovery: a log that is missing or empty gets
    a header, any other has its header checked. *)
Definition open_header (h : nat) (log : bytes) : Eff Machine unit := fun w =>
  let '(w, found) := exists_file log w in
  (let$ existing_size := (if found then file_size log else eff_ret 0) in
   open h log true ;$
   if existing_size =? 0 then write h file_header ;$ sync h
   else let$ header := read h (Z.to_nat kFileHeaderBytes) in eff_lift (check_file_header header)) w.

(** Reading through a handle with an empty buffer changes no file. *)
Lemma read_keeps_files h n s w w' r : mc_streams w !! h = Some s -> sm_pending s = [] -> read h n w = (w', r) ->
  mc_fs w' = mc_fs w /\ (forall e, r = Err e -> e = store_error "read error").
Proof.
  intros Hs Hp E. unfold read, with_file in E. rewrite Hs in E.
  assert (Hf : mc_fs (fflush h s w).1 = mc_fs w).
  { unfold fflush. destruct (next_outcome_same w) as (B1 & _ & _).
    destruct (next_outcome w) as [w1 [d|a d]]; unfold deliver; simpl; rewrite Hp, take_nil; done. }
  destruct (fflush h s w) as [w1 f]. simpl in Hf. destruct (next_outcome_same w1) as (B1 & _ & _).
  destruct f; simpl in E; [destruct (next_outcome w1) as [w2 [d|a d]]|]; simpl in B1;
    injection E as <- <-; simpl; (split; [congruence|]); intros e He; destruct (_ && _); congruence.
Qed.

Lemma check_file_header_take file : check_file_header (take (Z.to_nat kFileHeaderBytes) file) = check_file_header file.
Proof. unfold check_file_header. by rewrite take_take, Nat.min_id. Qed.

(** The next [n] calls do not fail. *)
Definition works (n : nat) (w : Machine) : Prop := Forall (fun o => exists d, o = Works d) (take n (mc_plan w)).

Lemma works_next n w : works (S n) w ->
  exists w1 d, next_outcome w = (w1, Works d) /\ works n w1 /\ mc_fs w1 = mc_fs w /\ mc_streams w1 = mc_streams w.
Proof.
  unfold works, next_outcome. destruct (mc_plan w) as [|o rest] eqn:E; intros H.
  - exists w, 0%nat. rewrite E, take_nil. by split_and!.
  - simpl in H. inversion H as [|? ? [d ->] H']; subst. eexists _, d. by split_and!.
Qed.

(** (safety) An existing log that can be found, measured and opened keeps its bytes, and
    its header decides: the open goes on exactly when that checks. *)
Theorem open_header_keeps_log h log file i w w' r :
  mc_streams w !! h = None -> entry (mc_fs w) log = Some i -> contents (mc_fs w) log = Some file -> file <> [] ->
  works 3 w -> open_header h log w = (w', r) ->
  contents (mc_fs w') log = Some file /\
  (r = check_file_header file \/ r = Err (store_error "read error")).
Proof.
  intros Hs He Hc Hne Hw E. unfold open_header, exists_file in E.
  destruct (works_next 2 w Hw) as (w1 & d1 & E1 & Hw1 & F1 & S1). rewrite E1, F1, He in E.
  unfold eff_bind at 1, file_size in E.
  destruct (works_next 1 w1 Hw1) as (w2 & d2 & E2 & Hw2 & F2 & S2). rewrite E2, F2, F1, Hc in E. simpl in E.
  assert ((zlen file =? 0) = false) as Hz by (destruct file; [done|apply Z.eqb_neq; unfold zlen; simpl; lia]).
  rewrite Hz in E. unfold eff_bind at 1 in E. set (s := mkStream i 0 [] true false).
  assert (exists w3, open h log true w2 = (w3, Ok tt) /\ mc_fs w3 = mc_fs w /\ mc_streams w3 !! h = Some s)
    as (w3 & Eo & F3 & S3).
  { destruct (works_next 0 w2 Hw2) as (x & d & Ex & _ & Fx & _).
    unfold open, eff_bind, close, with_file, fopen. rewrite S2, S1, Hs, Ex, Fx, F2, F1, He. eexists.
    split_and!; [reflexivity|simpl; congruence|apply lookup_insert_eq]. }
  rewrite Eo in E. unfold eff_bind in E. destruct (read h _ w3) as [w4 r4] eqn:Er.
  destruct (read_keeps_files _ _ s _ _ _ S3 eq_refl Er) as [F4 He4].
  destruct (read_refines _ _ s _ _ _ S3 ltac:(done) Er) as (s4 & _ & Hok).
  destruct r4 as [got|e]; injection E as <- <-; rewrite F4, F3; (split; [done|]); [left|right; by rewrite (He4 e eq_refl)].
  specialize (Hok got eq_refl). rewrite (abs_flushed _ s) in Hok by done. apply (f_equal snd) in Hok. simpl in Hok.
  injection Hok as <-. unfold contents in Hc. rewrite He in Hc. injection Hc as Hc.
  rewrite F3, Hc, drop_0. apply check_file_header_take.
Qed.

(** The file system of a coordinator with [file] as its log. *)
Definition log_fs (log file : bytes) : Fs := mkFs {[0%nat := mkInode file true]} {[log := [Some 0%nat]]}.

Lemma refused_open_truncates (b : byte) (file : bytes) :
  exists w w2, let log := lit "movements.smf" in
    open_header 0 log (mkMachine (log_fs log (b :: file)) ∅ [Works 0; Works 0; Fails 0 0] []) =
      (w, fail RC.STORE_TRUNCATED "store file header is incomplete") /\
    contents (mc_fs w) log = Some [] /\
    open_header 0 log (mkMachine (mc_fs w) ∅ [] []) = (w2, Ok tt) /\ contents (mc_fs w2) log = Some file_header.
Proof.
  cbv zeta. set (log := lit "movements.smf").
  set (first := open_header 0 log (mkMachine (log_fs log (b :: file)) ∅ [Works 0; Works 0; Fails 0 0] [])).
  set (second := open_header 0 log (mkMachine (mc_fs first.1) ∅ [] [])).
  exists first.1, second.1. split_and!; [|vm_compute; reflexivity| |vm_compute; reflexivity].
  - apply injective_projections; [reflexivity|vm_compute; reflexivity].
  - apply injective_projections; [reflexivity|vm_compute; reflexivity].
Qed.


(** (error) A log whose existence cannot be determined for a passing reason is taken for a
    new one: the open succeeds on the existing file with nothing to recover, and
    the next record goes over the first one. *)
Theorem passing_stat_failure_hides_log (b : byte) (file : bytes) :
  let log := lit "movements.smf" in
  let existing := file_header ++ b :: file in
  let w := mkMachine (log_fs log existing) ∅ [Fails 0 0] [] in
  (open_header 0 log w).2 = Ok tt /\
  contents (mc_fs (open_header 0 log w).1) log = Some existing /\ zlen existing <> zlen file_header.
Proof.
  intros log existing w. split_and!; [vm_compute; reflexivity..|].
  unfold existing. rewrite zlen_app. unfold zlen at 2. simpl. lia.
Qed.

(** ** Witnesses *)

Lemma store_replacement_is_implemented_witness :
  let w := demo_machine [Works 0; Works 0; Works 0; Works 2; Works 0; Works 0; Works 0; Fails 0 0] in
  let w' := (atomic_replace_file 0 demo_target demo_new true w).1 in
  contents (mc_fs w') demo_target = Some demo_old /\
  exists io, forall d replace,
    ObjectStore.atomic_replace demo_target replace true (mkWorld d io) =
      (mkWorld d [], Err (store_error "atomic replacement failed")).
Proof.
  intros w w'. unfold w'. clear w'. destruct (atomic_replace_file 0 demo_target demo_new true w) as [w' r] eqn:E.
  assert (r = Err (store_error "atomic replacement failed")) as ->
    by (change r with (w', r).2; rewrite <- E; vm_compute; reflexivity).
  destruct (store_replacement_is_implemented 0 demo_target demo_new w w' _ demo_wf eq_refl eq_refl (or_introl eq_refl) E)
    as [H1 H2].
  split; [exact H1|exact H2].
Defined.

(** The log of a new store, open on the handle 7 and read to its end. *)
Definition demo_log : bytes := lit "movements.smf".
Definition log_stream : Stream := mkStream 0 96 [] true false.
Definition log_machine (plan : list Outcome) : Machine :=
  mkMachine (mkFs {[0%nat := mkInode (ms_file demo_store) true]} {[demo_log := [Some 0%nat]]})
    {[7%nat := log_stream]} plan [].

Lemma log_stream_open plan : mc_streams (log_machine plan) !! 7%nat = Some log_stream.
Proof. apply lookup_singleton_eq. Qed.

Lemma log_stream_view plan : view (mc_fs (log_machine plan)) log_stream = ms_file demo_store.
Proof. unfold view, data_of. cbn [sm_pending log_stream mc_fs log_machine fs_inodes sm_inode]. by rewrite lookup_singleton_eq. Qed.

Lemma demo_log_history plan : history (mc_fs (log_machine plan)) demo_log = [Some (sm_inode log_stream)].
Proof. unfold history. cbn [mc_fs log_machine fs_names]. by rewrite lookup_singleton_eq. Qed.

Definition demo_payload : bytes := MovementRecord_encode demo_planned.
Definition demo_header : bytes :=
  let frame := record_frame kRecordMovement (ms_next_sequence demo_store) demo_payload in
  take (length frame - length demo_payload) frame.
Definition demo_append (plan : list Outcome) : Machine * Result unit :=
  append_io 7 (ms_append_offset demo_store) demo_header demo_payload true (log_machine plan).



Lemma exclusive_open_excludes_witness :
  exists k opened e, open_store 0 true true true demo_options [] no_locks = (k, Ok opened) /\
    open_store 1 true true true demo_options [] k = (k, Err e).
Proof.
  destruct (open_store 0 true true true demo_options [] no_locks) as [k r] eqn:E.
  destruct (exclusive_open_excludes 0 true true true demo_options [] no_locks k r (rtc_refl _ _) eq_refl eq_refl E)
    as [Hok _].
  assert (Hr : match r with Ok _ => true | Err _ => false end = true)
    by (change r with (k, r).2; rewrite <- E; vm_compute; reflexivity).
  destruct r as [opened|e]; [|discriminate Hr]. destruct (Hok opened eq_refl) as (_ & _ & Hsecond).
  assert (Hd : lk_descriptor k !! 1%nat = None)
    by (change k with (k, @Ok (MovementStore * StoreRecoveryReport) opened).1; rewrite <- E; vm_compute; reflexivity).
  destruct (Hsecond 1%nat true true true demo_options [] Hd eq_refl eq_refl) as [e He].
  exists k, opened, e. split; [reflexivity|exact He].
Defined.

Lemma open_header_keeps_log_witness :
  let file := lit "not a movement store" in
  exists w', open_header 0 demo_log (mkMachine (log_fs demo_log file) ∅ [] []) =
      (w', fail RC.STORE_TRUNCATED "store file header is incomplete") /\
    contents (mc_fs w') demo_log = Some file.
Proof.
  intros file. destruct (open_header 0 demo_log (mkMachine (log_fs demo_log file) ∅ [] [])) as [w' r] eqn:E.
  assert (r = fail RC.STORE_TRUNCATED "store file header is incomplete") as ->
    by (change r with (w', r).2; rewrite <- E; vm_compute; reflexivity).
  exists w'. split; [reflexivity|].
  exact (proj1 (open_header_keeps_log 0 demo_log file 0 (mkMachine (log_fs demo_log file) ∅ [] []) w' _
    eq_refl eq_refl eq_refl ltac:(discriminate) (Forall_nil_2 _) E)).
Defined.
