(* ===== verification/Device.v ===== *)
(** * Publishing device memory (apps/cuda_publish.cu)

    The kernel that fills a device buffer, the host code that allocates, launches,
    copies and frees, and the publication of what was copied.  The CUDA runtime is
    an interface: a kernel is given to it as the stores each of its threads makes,
    in order, and its law says that a launch that is synchronised without an error
    has performed the stores of all threads in some interleaving. *)
From S2P Require Import Prelude Status Text Bytes Digest Ids StateObject Effect CommitMarker ObjectStore Framing Agent.
From S2P Require Import Publication Endpoint.

(** ** The kernel *)

(** [data[index] = value] *)
Definition Store : Type := nat * byte.

Definition kGolden : Z := 0x9E3779B97F4A7C15.

(** The 64-bit word of the pattern, with the wrap-around of the device's
    arithmetic. *)
Definition pattern_word (seed word : Z) : Z :=
  let z := Z.lxor seed (wrap 64 (word * kGolden)) in
  let z := wrap 64 (z + kGolden) in
  let z := wrap 64 (Z.lxor z (Z.shiftr z 30) * 0xBF58476D1CE4E5B9) in
  let z := wrap 64 (Z.lxor z (Z.shiftr z 27) * 0x94D049BB133111EB) in
  Z.lxor z (Z.shiftr z 31).

(** The inner loop: at most eight bytes, fewer at the end of the buffer. *)
Fixpoint fill_bytes (n : nat) (size z offset index : Z) : list Store :=
  match n with
  | O => []
  | S n =>
    if wrap 64 (offset + index) <? size then
      (Z.to_nat (wrap 64 (offset + index)), bz (Z.land (Z.shiftr z (8 * index)) 255)) ::
      fill_bytes n size z offset (index + 1)
    else []
  end.

Definition fill_word (size seed word : Z) : list Store :=
  fill_bytes 8 size (pattern_word seed word) (wrap 64 (word * 8)) 0.

(** The grid-stride loop of one thread; a turn advances [word], so the number of
    words is fuel enough. *)
Fixpoint fill_loop (fuel : nat) (threads words size seed word : Z) : list Store :=
  match fuel with
  | O => []
  | S fuel =>
    if word <? words then
      fill_word size seed word ++ fill_loop fuel threads words size seed (wrap 64 (word + threads))
    else []
  end.

Definition word_count (size : Z) : Z := wrap 64 (size + 7) / 8.

Definition fill_pattern (size seed gridDim blockDim blockIdx threadIdx : Z) : list Store :=
  fill_loop (Z.to_nat (word_count size)) (wrap 64 (gridDim * blockDim)) (word_count size) size seed
    (wrap 64 (wrap 64 (blockIdx * blockDim) + threadIdx)).

(** ** The CUDA runtime *)

(** [cudaError_t]; an operation that fails says with which. *)
Definition CudaError : Type := Z.

Class Cuda (G : Type) := {
  cudaGetDeviceCount : G -> G * (CudaError + Z);
  cudaRuntimeGetVersion : G -> G * (CudaError + Z);
  cudaGetDeviceProperties : G -> G * (CudaError + bytes);
  cudaMemGetInfo : G -> G * (CudaError + Z * Z);
  cudaMalloc : Z -> G -> G * (CudaError + nat);
  cudaFree : nat -> G -> G * (CudaError + unit);
  (** [kernel<<<grid, block>>>(buffer, ...)]: the stores of a thread by its block
      and its index. *)
  cudaLaunch : nat -> Z -> Z -> (Z -> Z -> list Store) -> G -> G;
  cudaGetLastError : G -> G * option CudaError;
  cudaDeviceSynchronize : G -> G * (CudaError + unit);
  cudaMemcpyDeviceToHost : nat -> Z -> G -> G * (CudaError + bytes);
  cudaGetErrorString : CudaError -> bytes }.

(** Threads run in any interleaving of their stores. *)
Inductive interleaves : list (list Store) -> list Store -> Prop :=
  | interleaves_done ts : Forall (fun t => t = []) ts -> interleaves ts []
  | interleaves_step ts i x rest trace :
      ts !! i = Some (x :: rest) -> interleaves (<[i := rest]> ts) trace -> interleaves ts (x :: trace).

Definition apply_stores (trace : list Store) (buffer : bytes) : bytes :=
  fold_left (fun buf st => <[st.1 := st.2]> buf) trace buffer.

Definition launched_threads (grid block : Z) (kernel : Z -> Z -> list Store) : list (list Store) :=
  b ← seqZ 0 grid; t ← seqZ 0 block; [kernel b t].

(** Every store of every thread is inside the buffer. *)
Definition stores_within (grid block : Z) (kernel : Z -> Z -> list Store) (buffer : bytes) : Prop :=
  forall t st, t ∈ launched_threads grid block kernel -> st ∈ t -> (st.1 < length buffer)%nat.

Class CudaLaws (G : Type) `{!Cuda G} := {
  device_memory : G -> gmap nat bytes;
  count_keeps g : device_memory (cudaGetDeviceCount g).1 = device_memory g;
  version_keeps g : device_memory (cudaRuntimeGetVersion g).1 = device_memory g;
  properties_keep g : device_memory (cudaGetDeviceProperties g).1 = device_memory g;
  meminfo_keeps g : device_memory (cudaMemGetInfo g).1 = device_memory g;
  last_error_keeps g : device_memory (cudaGetLastError g).1 = device_memory g;
  malloc_allocates n g g' p : cudaMalloc n g = (g', inr p) -> 0 <= n ->
    device_memory g !! p = None /\
    exists buffer, zlen buffer = n /\ device_memory g' = <[p := buffer]> (device_memory g);
  malloc_fails n g g' e : cudaMalloc n g = (g', inl e) -> device_memory g' = device_memory g;
  free_frees p g g' : cudaFree p g = (g', inr tt) -> device_memory g' = delete p (device_memory g);
  free_fails p g g' e : cudaFree p g = (g', inl e) -> device_memory g' = device_memory g;
  memcpy_keeps p n g : device_memory (cudaMemcpyDeviceToHost p n g).1 = device_memory g;
  memcpy_copies p n g g' bs buffer : cudaMemcpyDeviceToHost p n g = (g', inr bs) ->
    device_memory g !! p = Some buffer -> n = zlen buffer -> bs = buffer;
  (** A kernel changes only the buffer it stores to, and keeps its size. *)
  launch_confined p grid block kernel g buffer : device_memory g !! p = Some buffer ->
    stores_within grid block kernel buffer ->
    exists buffer', length buffer' = length buffer /\
      device_memory (cudaLaunch p grid block kernel g) = <[p := buffer']> (device_memory g);
  sync_confined p g buffer : device_memory g !! p = Some buffer ->
    exists buffer', length buffer' = length buffer /\
      device_memory (cudaDeviceSynchronize g).1 = <[p := buffer']> (device_memory g);
  (** An empty grid is refused. *)
  launch_needs_grid p block kernel g : (cudaGetLastError (cudaLaunch p 0 block kernel g)).2 <> None;
  (** Launched, without an error, and synchronised: the threads have run. *)
  threads_run p grid block kernel g buffer g1 g2 :
    device_memory g !! p = Some buffer -> stores_within grid block kernel buffer ->
    cudaGetLastError (cudaLaunch p grid block kernel g) = (g1, None) ->
    cudaDeviceSynchronize g1 = (g2, inr tt) ->
    exists trace, interleaves (launched_threads grid block kernel) trace /\
      device_memory g2 = <[p := apply_stores trace buffer]> (device_memory g) }.

(** ** The host *)

Record CudaPublishReport := mkCudaReport {
  cr_available : bool;
  cr_device_name : bytes;
  cr_runtime_version : bytes;
  cr_device_bytes : Z;
  cr_device_free_before : Z;
  cr_device_free_after : Z;
  cr_device_total : Z;
  cr_content_digest : Digest;
  cr_object : bytes }.

Section host.
Context {G : Type} `{!Cuda G}.

Definition cuda_failure (what : String.string) (error : CudaError) : Status :=
  mkStatus RC.INTERNAL_ERROR (lit what ++ lit " failed: " ++ cudaGetErrorString error).
Arguments cuda_failure _%_string_scope _.

(** A call of the runtime, its error kept. *)
Definition cuda {A} (call : G -> G * (CudaError + A)) : Eff G (CudaError + A) :=
  fun g => let '(g, r) := call g in (g, Ok r).

(** [cudaGetLastError()] for its effect: the error is cleared. *)
Definition clear_error : Eff G unit := fun g => ((cudaGetLastError g).1, Ok tt).

(** A call whose error, once cleared, is reported as [status]. *)
Definition cuda_or {A} (call : G -> G * (CudaError + A)) (status : CudaError -> Status) : Eff G A :=
  let$ r := cuda call in
  match r with
  | inl e => clear_error ;$ eff_lift (Err (status e))
  | inr x => eff_ret x
  end.

Definition cuda_available : Eff G bool :=
  let$ r := cuda cudaGetDeviceCount in
  match r with
  | inl _ => clear_error ;$ eff_ret false
  | inr devices => eff_ret (0 <? devices)
  end.

Definition cuda_runtime_version : Eff G bytes :=
  let$ r := cuda cudaRuntimeGetVersion in
  match r with
  | inl _ => clear_error ;$ eff_ret (lit "unknown")
  | inr version => eff_ret (std_to_string (version / 1000) ++ lit "." ++ std_to_string (version mod 1000 / 10))
  end.

(** The lambda [release]. *)
Definition release_buffer (p : nat) : Eff G unit :=
  let$ freed := cuda (cudaFree p) in
  match freed with inl _ => clear_error | inr _ => eff_ret tt end.

(** [grid] is computed in 64 bits, cut to 32 and then bounded. *)
Definition kBlock : Z := 256.
Definition grid_size (size : Z) : Z :=
  let grid := wrap 32 ((word_count size + kBlock - 1) / kBlock) in
  if 65535 <? grid then 65535 else grid.

(** A step after the allocation: an error frees the buffer first. *)
Definition with_buffer {A} (p : nat) (what : String.string) (call : G -> G * (CudaError + A)) : Eff G A :=
  let$ r := cuda call in
  match r with
  | inl e => release_buffer p ;$ eff_lift (Err (cuda_failure what e))
  | inr x => eff_ret x
  end.
Arguments with_buffer {A} _ _%_string_scope _.

(** The launch, and the error it left. *)
Definition launch (p : nat) (size seed : Z) (g : G) : G * (CudaError + unit) :=
  let grid := grid_size size in
  match cudaGetLastError (cudaLaunch p grid kBlock (fill_pattern size seed grid kBlock) g) with
  | (g, Some e) => (g, inl e)
  | (g, None) => (g, inr tt)
  end.

Definition device_properties : Eff G bytes :=
  cuda_or cudaGetDeviceProperties
    (fun _ => mkStatus RC.UNSUPPORTED (lit "the CUDA device properties could not be read")).

Definition memory_info (when : bytes) : Eff G (Z * Z) :=
  cuda_or cudaMemGetInfo (fun _ => mkStatus RC.INTERNAL_ERROR (lit "cudaMemGetInfo failed " ++ when)).

(** [publish_from_cuda_device] up to the publication: the report so far and the
    bytes copied to the host. *)
Definition stage_device (size seed : Z) : Eff G (CudaPublishReport * bytes) :=
  eff_reject (size =? 0) RC.INVALID_SIZE "a device payload must not be empty" ;$
  let$ available := cuda_available in
  eff_reject (negb available) RC.UNSUPPORTED "no usable CUDA device is present on this host" ;$
  let$ version := cuda_runtime_version in
  let$ device := device_properties in
  let$ (free_before, total) := memory_info (lit "before the allocation") in
  let$ p := cuda_or (cudaMalloc size) (cuda_failure "cudaMalloc") in
  with_buffer p "the fill kernel" (launch p size seed) ;$
  with_buffer p "cudaDeviceSynchronize" cudaDeviceSynchronize ;$
  let$ host := with_buffer p "cudaMemcpy" (cudaMemcpyDeviceToHost p size) in
  release_buffer p ;$
  let$ (free_after, _) := memory_info (lit "after the free") in
  eff_ret (mkCudaReport true device version size free_before free_after total zero_digest [], host).

Section publish.
Context {C : Type} `{!Connection C} {S : Type} `{!EntropySource S}.

(** The device in state [g]; the publication itself does not touch it. *)
Definition publish_from_cuda_device (g : G) (kind : StateKind) (name : bytes) (generation size seed : Z)
    (repeatable : bool) : Eff (AWorld C S) CudaPublishReport :=
  let$ (report, host) := eff_lift (stage_device size seed g).2 in
  let$ descriptor := publish_bytes kind name generation host (lit "smf-cuda") repeatable in
  eff_ret (mkCudaReport (cr_available report) (cr_device_name report) (cr_runtime_version report)
             (cr_device_bytes report) (cr_device_free_before report) (cr_device_free_after report)
             (cr_device_total report) (d_content_digest descriptor) (describe descriptor)).
End publish.
End host.

(** The line [publish_cuda_spec] prints. *)
Definition quoted (s : bytes) : bytes := x22 :: s ++ [x22].

Definition report_line (r : CudaPublishReport) : bytes :=
  lit "CUDA-PUBLISH device=" ++ quoted (cr_device_name r) ++ lit " runtime=" ++ cr_runtime_version r ++
  lit " bytes=" ++ std_to_string (cr_device_bytes r) ++ lit " free_before=" ++ std_to_string (cr_device_free_before r) ++
  lit " free_after=" ++ std_to_string (cr_device_free_after r) ++ lit " total=" ++ std_to_string (cr_device_total r) ++
  lit " digest=" ++ to_hex (cr_content_digest r) ++ lit " object=" ++ quoted (cr_object r).

(** ** What the kernel computes *)

Definition pattern_byte (seed i : Z) : byte :=
  bz (Z.land (Z.shiftr (pattern_word seed (i / 8)) (8 * (i mod 8))) 255).

(** The contents a device object is specified to have. *)
Definition pattern (size seed : Z) : bytes := pattern_byte seed <$> seqZ 0 size.

(** Sizes for which the kernel's arithmetic does not wrap. *)
Definition size_ok (size : Z) : Prop := 0 <= size <= 2 ^ 64 - 16.

Lemma fill_bytes_in n size z offset : forall index st, 0 <= offset -> 0 <= index ->
  offset + index + Z.of_nat n <= 2 ^ 64 ->
  st ∈ fill_bytes n size z offset index <->
  exists k, index <= k < index + Z.of_nat n /\ offset + k < size /\
    st = (Z.to_nat (offset + k), bz (Z.land (Z.shiftr z (8 * k)) 255)).
Proof.
  induction n as [|n IH]; intros index st Ho Hi Hw; cbn [fill_bytes].
  { split; [intros H; by apply not_elem_of_nil in H|]. intros (k & Hk & _). lia. }
  rewrite wrap_small by (unfold in_u; lia). destruct (offset + index <? size) eqn:E; b2p.
  - rewrite elem_of_cons, IH by lia. split.
    + intros [->|(k & Hk & Hs & ->)]; [exists index|exists k]; (split; [lia|]); by (split; [lia|]).
    + intros (k & Hk & Hs & ->). destruct (decide (k = index)) as [->|]; [by left|right].
      exists k. split; [lia|]. by split.
  - split; [intros H; by apply not_elem_of_nil in H|]. intros (k & Hk & Hs & _). lia.
Qed.

Lemma word_count_spec size : size_ok size -> size <= 8 * word_count size < size + 8 /\ 0 <= word_count size.
Proof. intros H. unfold size_ok in H. unfold word_count. rewrite wrap_small by (unfold in_u; lia). zdiv. Qed.

Lemma fill_word_in size seed word st : size_ok size -> 0 <= word < word_count size ->
  st ∈ fill_word size seed word <->
  exists i, i / 8 = word /\ 0 <= i < size /\ st = (Z.to_nat i, pattern_byte seed i).
Proof.
  intros Hs Hw. pose proof (word_count_spec size Hs). unfold size_ok in Hs. unfold fill_word.
  rewrite (wrap_small 64 (word * 8)) by (unfold in_u; lia). rewrite fill_bytes_in by lia. split.
  - intros (k & Hk & Hlt & ->). exists (word * 8 + k). assert ((word * 8 + k) / 8 = word) as Hd by zdiv.
    assert ((word * 8 + k) mod 8 = k) as Hm by zdiv. unfold pattern_byte. rewrite Hd, Hm. split_and!; [done|lia..|done].
  - intros (i & Hi & Hlt & ->). exists (i mod 8). assert (word * 8 + i mod 8 = i) as Hsum by zdiv.
    rewrite Hsum. unfold pattern_byte. rewrite Hi. split_and!; [zdiv..|lia|done].
Qed.

(** A thread handles the words that are its number modulo the number of
    threads. *)
Lemma fill_loop_in threads words size seed : 0 < threads < 2 ^ 62 -> words <= 2 ^ 62 ->
  forall fuel word st, 0 <= word -> words - word <= Z.of_nat fuel ->
  st ∈ fill_loop fuel threads words size seed word <->
  exists k, 0 <= k /\ word + k * threads < words /\ st ∈ fill_word size seed (word + k * threads).
Proof.
  intros Ht Hws. induction fuel as [|fuel IH]; intros word st Hw Hf; cbn [fill_loop].
  { split; [intros H; by apply not_elem_of_nil in H|]. intros (k & Hk & Hlt & _). nia. }
  destruct (word <? words) eqn:E; b2p.
  - rewrite wrap_small by (unfold in_u; lia). rewrite elem_of_app, IH by lia. split.
    + intros [H|(k & Hk & Hlt & H)].
      * exists 0. by rewrite Z.mul_0_l, Z.add_0_r.
      * exists (k + 1). replace (word + (k + 1) * threads) with (word + threads + k * threads) by lia.
        by split; [lia|].
    + intros (k & Hk & Hlt & H). destruct (decide (k = 0)) as [->|].
      * left. by rewrite Z.mul_0_l, Z.add_0_r in H.
      * right. exists (k - 1). replace (word + threads + (k - 1) * threads) with (word + k * threads) by lia.
        by split; [lia|].
  - split; [intros H; by apply not_elem_of_nil in H|]. intros (k & Hk & Hlt & _). nia.
Qed.

Lemma launched_threads_in grid block kernel t :
  t ∈ launched_threads grid block kernel <-> exists b i, 0 <= b < grid /\ 0 <= i < block /\ t = kernel b i.
Proof.
  unfold launched_threads. rewrite list_elem_of_bind. split.
  - intros (b & H & Hb). apply list_elem_of_bind in H as (i & H & Hi). apply list_elem_of_singleton in H as ->.
    apply elem_of_seqZ in Hb, Hi. exists b, i. by split_and!; [lia..|].
  - intros (b & i & Hb & Hi & ->). exists b. rewrite list_elem_of_bind, elem_of_seqZ. split; [|lia].
    exists i. by rewrite list_elem_of_singleton, elem_of_seqZ; split; [|lia].
Qed.

(** Every byte of the buffer is stored by some thread, with its value, and
    nothing else is. *)
Lemma fill_pattern_stores size seed grid block st : size_ok size -> 0 < grid -> 0 < block -> grid * block < 2 ^ 62 ->
  (exists t, t ∈ launched_threads grid block (fill_pattern size seed grid block) /\ st ∈ t) <->
  exists i, 0 <= i < size /\ st = (Z.to_nat i, pattern_byte seed i).
Proof.
  intros Hs Hg Hb Hgb. pose proof (word_count_spec size Hs) as [Hc Hc0].
  assert (Hws : word_count size <= 2 ^ 62) by (unfold size_ok in Hs; lia).
  assert (Hth : wrap 64 (grid * block) = grid * block) by (apply wrap_small; unfold in_u; nia).
  assert (Hstart : forall b i, 0 <= b < grid -> 0 <= i < block ->
            wrap 64 (wrap 64 (b * block) + i) = b * block + i /\ 0 <= b * block + i < grid * block).
  { intros b i H1 H2. assert (0 <= b * block + i < grid * block) by nia.
    rewrite (wrap_small 64 (b * block)), wrap_small by (unfold in_u; nia). done. }
  split.
  - intros (t & Ht & Hst). apply launched_threads_in in Ht as (b & i & Hb' & Hi & ->). unfold fill_pattern in Hst.
    destruct (Hstart b i Hb' Hi) as [Es Hr]. rewrite Es, Hth, fill_loop_in in Hst by (try nia; lia).
    destruct Hst as (k & Hk & Hlt & H). rewrite fill_word_in in H by (try done; nia).
    destruct H as (j & _ & Hj & ->). by exists j.
  - intros (i & Hi & ->). set (w := i / 8). set (n := w mod (grid * block)).
    assert (Hw : 0 <= w < word_count size) by (unfold w; zdiv).
    assert (Hn : 0 <= n < grid * block) by (apply Z.mod_pos_bound; nia).
    assert (Hbi : 0 <= n / block < grid /\ 0 <= n mod block < block).
    { split; [split; [apply Z.div_pos; lia|apply Z.div_lt_upper_bound; lia]|apply Z.mod_pos_bound; lia]. }
    exists (fill_pattern size seed grid block (n / block) (n mod block)). split.
    { apply launched_threads_in. exists (n / block), (n mod block). by destruct Hbi. }
    unfold fill_pattern. destruct (Hstart _ _ (proj1 Hbi) (proj2 Hbi)) as [-> Hr].
    assert (n / block * block + n mod block = n) as -> by (rewrite (Z.div_mod n block) at 3 by lia; lia).
    rewrite Hth, fill_loop_in by (try nia; lia). exists (w / (grid * block)).
    assert (n + w / (grid * block) * (grid * block) = w) as ->
      by (unfold n; rewrite (Z.div_mod w (grid * block)) at 3 by nia; lia).
    split; [apply Z.div_pos; nia|]. split; [lia|]. rewrite fill_word_in by done. by exists i.
Qed.

Lemma interleaves_in ts trace : interleaves ts trace -> forall x, x ∈ trace <-> exists t, t ∈ ts /\ x ∈ t.
Proof.
  induction 1 as [ts Hnil|ts i y rest trace Hi _ IH]; intros x.
  - split; [intros H; by apply not_elem_of_nil in H|]. intros (t & Ht & Hx).
    rewrite Forall_forall in Hnil. rewrite (Hnil t) in Hx by by apply list_elem_of_In. by apply not_elem_of_nil in Hx.
  - rewrite elem_of_cons, IH. pose proof (lookup_lt_Some _ _ _ Hi) as Hlt. split.
    + intros [->|(t & Ht & Hx)].
      * exists (y :: rest). split; [by eapply list_elem_of_lookup_2|left].
      * apply list_elem_of_lookup in Ht as [j Hj]. destruct (decide (i = j)) as [<-|Hne].
        -- rewrite list_lookup_insert_eq in Hj by done. injection Hj as <-. exists (y :: rest).
           split; [by eapply list_elem_of_lookup_2|by right].
        -- rewrite list_lookup_insert_ne in Hj by done. exists t. split; [by eapply list_elem_of_lookup_2|done].
    + intros (t & Ht & Hx). apply list_elem_of_lookup in Ht as [j Hj]. destruct (decide (i = j)) as [<-|Hne].
      * rewrite Hi in Hj. injection Hj as <-. apply elem_of_cons in Hx as [->|Hx]; [by left|right].
        exists rest. split; [|done]. eapply list_elem_of_lookup_2. by apply list_lookup_insert_eq.
      * right. exists t. split; [|done]. eapply list_elem_of_lookup_2. by rewrite list_lookup_insert_ne.
Qed.

Lemma apply_stores_length trace : forall buffer, length (apply_stores trace buffer) = length buffer.
Proof. induction trace as [|st trace IH]; intros buffer; [done|]. cbn. rewrite IH. apply length_insert. Qed.

(** Stores that all agree with [target] and together cover it produce it, in any
    order. *)
Lemma apply_stores_covering (target : bytes) trace : forall buffer, length buffer = length target ->
  (forall st, st ∈ trace -> target !! st.1 = Some st.2) ->
  (forall i b, target !! i = Some b -> buffer !! i = Some b \/ (i, b) ∈ trace) ->
  apply_stores trace buffer = target.
Proof.
  induction trace as [|[i b] trace IH]; intros buffer Hl Hok Hcov; cbn.
  - apply list_eq_same_length with (n := length target); [done|done|]. intros i x y Hi Hx Hy.
    destruct (Hcov i y Hy) as [H|H]; [congruence|]. by apply not_elem_of_nil in H.
  - apply IH.
    + by rewrite length_insert.
    + intros st Hst. apply Hok. by right.
    + intros j c Hj. destruct (decide (i = j)) as [<-|Hne].
      * left. rewrite list_lookup_insert_eq by (rewrite Hl; by eapply lookup_lt_Some).
        specialize (Hok (i, b) ltac:(left)). simpl in Hok. congruence.
      * rewrite list_lookup_insert_ne by done. destruct (Hcov j c Hj) as [H|H]; [by left|right].
        apply elem_of_cons in H as [[= <- _]|H]; done.
Qed.

Lemma pattern_length size seed : 0 <= size -> zlen (pattern size seed) = size.
Proof. intros H. unfold zlen, pattern. rewrite length_fmap, length_seqZ. lia. Qed.

Lemma pattern_lookup size seed i b :
  pattern size seed !! i = Some b <-> Z.of_nat i < size /\ b = pattern_byte seed (Z.of_nat i).
Proof.
  unfold pattern. rewrite list_lookup_fmap. split.
  - destruct (seqZ 0 size !! i) as [x|] eqn:E; [|done]. apply lookup_seqZ in E as [-> Hi]. intros [= <-]. by rewrite Z.add_0_l.
  - intros [Hi ->]. rewrite lookup_seqZ_lt by done. cbn. by rewrite Z.add_0_l.
Qed.

(** Whatever interleaving of its threads the device runs, the kernel leaves the
    same buffer. *)
Lemma fill_any_schedule size seed grid block trace buffer :
  size_ok size -> 0 < grid -> 0 < block -> grid * block < 2 ^ 62 -> zlen buffer = size ->
  interleaves (launched_threads grid block (fill_pattern size seed grid block)) trace ->
  apply_stores trace buffer = pattern size seed.
Proof.
  intros Hs Hg Hb Hgb Hl Ht. pose proof (proj1 Hs) as Hs0.
  assert (Hin : forall st, st ∈ trace <-> exists i, 0 <= i < size /\ st = (Z.to_nat i, pattern_byte seed i)).
  { intros st. rewrite (interleaves_in _ _ Ht). by apply fill_pattern_stores. }
  apply apply_stores_covering.
  - pose proof (pattern_length size seed Hs0). unfold zlen in *. lia.
  - intros st (i & Hi & ->)%Hin. apply pattern_lookup. simpl. rewrite Z2Nat.id by lia. split; [lia|done].
  - intros i b [Hi ->]%pattern_lookup. right. apply Hin. exists (Z.of_nat i). rewrite Nat2Z.id. split; [lia|done].
Qed.

Lemma fill_within size seed grid block buffer :
  size_ok size -> 0 <= grid -> 0 < block -> grid * block < 2 ^ 62 -> zlen buffer = size ->
  stores_within grid block (fill_pattern size seed grid block) buffer.
Proof.
  intros Hs Hg Hb Hgb Hl t st Ht Hst. destruct (decide (grid = 0)) as [->|Hne].
  { apply launched_threads_in in Ht as (b & i & Hbad & _). lia. }
  destruct (proj1 (fill_pattern_stores size seed grid block st Hs ltac:(lia) Hb Hgb)) as (i & Hi & ->); [by exists t|].
  simpl. unfold zlen in Hl. lia.
Qed.

Lemma grid_size_bounds size : 0 <= grid_size size <= 65535.
Proof.
  unfold grid_size. set (x := wrap 32 _). assert (0 <= x) by (unfold x, wrap; apply Z.mod_pos_bound; lia).
  destruct (65535 <? x) eqn:E; b2p; lia.
Qed.

(** ** The host's use of the device *)

(** The runtime frees what it is asked to free. *)
Definition frees (G : Type) `{!Cuda G, !CudaLaws G} : Prop :=
  forall p (g : G), is_Some (device_memory g !! p) -> exists g', cudaFree p g = (g', inr tt).

Section host_proofs.
Context {G : Type} `{!Cuda G, !CudaLaws G}.
Implicit Types g : G.

(** What a path through the host code keeps: [m] is the device memory. *)
Definition holding (m : gmap nat bytes) g : Prop := device_memory g = m.

Lemma clear_error_ends g (Q : G -> Result unit -> Prop) m :
  holding m g -> (forall g', holding m g' -> Q g' (Ok tt)) -> ends clear_error g Q.
Proof. intros H HQ. apply HQ. unfold holding in *. by rewrite last_error_keeps. Qed.

Lemma cuda_or_ends {A} (call : G -> G * (CudaError + A)) st g Q :
  (forall g' x, call g = (g', inr x) -> Q g' (Ok x)) ->
  (forall g' e, call g = (g', inl e) -> forall g2, holding (device_memory g') g2 -> Q g2 (Err (st e))) ->
  ends (cuda_or call st) g Q.
Proof.
  intros Hok Herr. unfold cuda_or. apply ends_bind. unfold ends, cuda. destruct (call g) as [g' [e|x]] eqn:E.
  - apply ends_bind. eapply clear_error_ends; [done|]. intros g2 H2. by eapply Herr.
  - by apply Hok.
Qed.

(** Nothing is left of the buffer if the runtime frees it. *)
Lemma release_ends p g m buffer (Q : G -> Result unit -> Prop) : m !! p = None -> holding (<[p := buffer]> m) g ->
  (forall g', (frees G -> holding m g') -> Q g' (Ok tt)) -> ends (release_buffer p) g Q.
Proof.
  intros Hp H HQ. unfold release_buffer. apply ends_bind. unfold ends, cuda. destruct (cudaFree p g) as [g1 [e|[]]] eqn:E.
  - apply HQ. intros Hf. destruct (Hf p g) as [g2 E2]; [|congruence]. rewrite H. rewrite lookup_insert_eq. eauto.
  - apply HQ. intros _. unfold holding in *. by rewrite (free_frees _ _ _ E), H, delete_insert_id.
Qed.

(** A step on the buffer: on an error it is released. *)
Lemma with_buffer_ends {A} p what (call : G -> G * (CudaError + A)) g m (Q : G -> Result A -> Prop) : m !! p = None ->
  (exists buffer, holding (<[p := buffer]> m) (call g).1) ->
  (forall g' x, call g = (g', inr x) -> Q g' (Ok x)) ->
  (forall g' e, (frees G -> holding m g') -> Q g' (Err e)) ->
  ends (with_buffer p what call) g Q.
Proof.
  intros Hp [buffer H] Hok Herr. unfold with_buffer. apply ends_bind. unfold ends, cuda.
  destruct (call g) as [g1 [e|x]] eqn:E; [|by apply Hok]. simpl in H.
  apply ends_bind. eapply release_ends; [done..|]. intros g2 H2. apply ends_lift. by apply Herr.
Qed.

Lemma cuda_available_ends g (Q : G -> Result bool -> Prop) :
  (forall g' b, holding (device_memory g) g' -> Q g' (Ok b)) -> ends cuda_available g Q.
Proof.
  intros HQ. unfold cuda_available. apply ends_bind. unfold ends, cuda. pose proof (count_keeps g) as Hk.
  destruct (cudaGetDeviceCount g) as [g1 [e|n]]; simpl in Hk.
  - apply ends_bind. eapply clear_error_ends; [exact Hk|]. intros g2 H2. by apply HQ.
  - by apply HQ.
Qed.

Lemma cuda_runtime_version_ends g (Q : G -> Result bytes -> Prop) :
  (forall g' v, holding (device_memory g) g' -> Q g' (Ok v)) -> ends cuda_runtime_version g Q.
Proof.
  intros HQ. unfold cuda_runtime_version. apply ends_bind. unfold ends, cuda. pose proof (version_keeps g) as Hk.
  destruct (cudaRuntimeGetVersion g) as [g1 [e|n]]; simpl in Hk.
  - apply ends_bind. eapply clear_error_ends; [exact Hk|]. intros g2 H2. by apply HQ.
  - by apply HQ.
Qed.

Lemma memory_info_ends when g (Q : G -> Result (Z * Z) -> Prop) :
  (forall g' r, holding (device_memory g) g' -> Q g' r) -> ends (memory_info when) g Q.
Proof.
  intros HQ. pose proof (meminfo_keeps g) as Hk. unfold memory_info. apply cuda_or_ends.
  - intros g' x E. apply HQ. by rewrite E in Hk.
  - intros g' e E g2 H2. apply HQ. rewrite E in Hk. simpl in Hk. unfold holding in *. congruence.
Qed.

(** Staging returns the pattern, and whatever happened the device memory is as it
    was, if the runtime frees what it is asked to free. *)
Lemma stage_device_ends size seed g : size_ok size ->
  ends (stage_device size seed) g (fun g' r =>
    (frees G -> holding (device_memory g) g') /\
    forall report host, r = Ok (report, host) ->
      host = pattern size seed /\ cr_device_bytes report = size /\ 0 < grid_size size).
Proof.
  intros Hs. pose proof (proj1 Hs) as Hs0. set (m := device_memory g). unfold stage_device.
  apply ends_bind, ends_reject; intros _; [done|].
  apply ends_bind, cuda_available_ends. intros g1 available H1.
  apply ends_bind, ends_reject; intros _; [done|].
  apply ends_bind, cuda_runtime_version_ends. intros g2 version H2. rewrite H1 in H2.
  apply ends_bind. pose proof (properties_keep g2) as Hk. apply cuda_or_ends.
  2: { intros g' e E g3 H3. rewrite E in Hk. simpl in Hk. split; [intros _|done]. unfold holding, m in *. congruence. }
  intros g3 device E3. rewrite E3, H2 in Hk. simpl in Hk. fold m in Hk.
  apply ends_bind, memory_info_ends. intros g4 [[free_before total]|e] H4; rewrite Hk in H4; [|done].
  apply ends_bind, cuda_or_ends.
  2: { intros g' e E g5 H5. rewrite (malloc_fails _ _ _ _ E), H4 in H5. done. }
  intros g5 p E5. destruct (malloc_allocates _ _ _ _ E5 Hs0) as (Hp & buffer & Hlen & H5). rewrite H4 in Hp, H5.
  set (grid := grid_size size). set (kernel := fill_pattern size seed grid kBlock).
  pose proof (grid_size_bounds size) as Hgrid. fold grid in Hgrid.
  assert (Hsmall : grid * kBlock < 2 ^ 62) by (unfold kBlock; lia).
  assert (Hin : stores_within grid kBlock kernel buffer) by (apply fill_within; unfold kBlock; (done || lia)).
  assert (Hb5 : device_memory g5 !! p = Some buffer) by (rewrite H5; apply lookup_insert_eq).
  destruct (launch_confined p grid kBlock kernel g5 buffer Hb5 Hin) as (buffer6 & _ & H6).
  rewrite H5, insert_insert_eq in H6.
  assert (Hout : forall g' (e : Status), (frees G -> holding m g') -> (frees G -> holding m g') /\
    forall report host, @Err (CudaPublishReport * bytes) e = Ok (report, host) ->
      host = pattern size seed /\ cr_device_bytes report = size /\ 0 < grid_size size) by done.
  apply ends_bind. apply (with_buffer_ends p _ _ _ m); [done| | |intros g' e; apply Hout].
  { exists buffer6. unfold launch. fold grid kernel. pose proof (last_error_keeps (cudaLaunch p grid kBlock kernel g5)) as Hl.
    destruct (cudaGetLastError _) as [g' [e|]]; simpl in *; unfold holding; congruence. }
  intros g6 [] E6. unfold launch in E6. fold grid kernel in E6.
  pose proof (last_error_keeps (cudaLaunch p grid kBlock kernel g5)) as Hl.
  destruct (cudaGetLastError (cudaLaunch p grid kBlock kernel g5)) as [g' [e|]] eqn:El; [done|]. injection E6 as ->.
  simpl in Hl. rewrite H6 in Hl.
  destruct (sync_confined p g6 buffer6) as (buffer7 & _ & H7); [rewrite Hl; apply lookup_insert_eq|].
  rewrite Hl, insert_insert_eq in H7.
  apply ends_bind. apply (with_buffer_ends p _ _ _ m); [done|by exists buffer7| |intros g' e; apply Hout].
  intros g7 [] E7. destruct (threads_run p grid kBlock kernel g5 buffer g6 g7 Hb5 Hin El E7) as (trace & Htr & Hm7).
  assert (0 < grid).
  { destruct (decide (grid = 0)) as [E0|]; [|lia]. exfalso. apply (launch_needs_grid p kBlock kernel g5).
    rewrite E0 in El. by rewrite El. }
  rewrite (fill_any_schedule size seed grid kBlock trace buffer) in Hm7 by (done || unfold kBlock; lia).
  rewrite H5, insert_insert_eq in Hm7.
  apply ends_bind. apply (with_buffer_ends p _ _ _ m); [done| | |intros g' e; apply Hout].
  { exists (pattern size seed). unfold holding. by rewrite memcpy_keeps. }
  intros g8 host E8. pose proof (memcpy_keeps p size g7) as H8. rewrite E8, Hm7 in H8. simpl in H8.
  assert (host = pattern size seed) as ->.
  { eapply memcpy_copies; [exact E8|rewrite Hm7; apply lookup_insert_eq|]. by rewrite pattern_length. }
  apply ends_bind. eapply (release_ends p _ m); [done|exact H8|]. intros g9 H9.
  apply ends_bind, memory_info_ends. intros g10 [[free_after total']|e] H10; [|split; [|done]].
  - apply ends_ret. split; [|by intros report host [= <- <-]]. intros Hf. unfold holding in *. rewrite H10. auto.
  - intros Hf. unfold holding in *. rewrite H10. auto.
Qed.
End host_proofs.

(** ** Properties *)

(** C35: (equivalence) The kernel computes the same buffer under every schedule: any
    interleaving of the stores of any number of threads, over any buffer of the
    size, leaves the sequence of bytes the pattern specifies. *)
Theorem device_fill_is_schedule_independent (size seed grid block : Z) (trace : list Store) (buffer : bytes) :
  size_ok size -> 0 < grid -> 0 < block -> grid * block < 2 ^ 62 -> zlen buffer = size ->
  interleaves (launched_threads grid block (fill_pattern size seed grid block)) trace ->
  stores_within grid block (fill_pattern size seed grid block) buffer /\
  apply_stores trace buffer = pattern size seed.
Proof. intros. split; [apply fill_within; (done || lia)|eapply fill_any_schedule; [..|eassumption]; done]. Qed.


(** (functional) What a device publication publishes is what the device computed:
    when it reports success, the placed object is the pattern of the size and the
    seed, marked, and the report has its digest. *)
Theorem device_publication_is_exact {G C S : Type} `{!Cuda G, !CudaLaws G, !Connection C, !EntropySource S} (g : G)
    (kind : StateKind) (name : bytes) (generation size seed : Z) (repeatable : bool) (w w' : AWorld C S)
    (report : CudaPublishReport) :
  alone w -> size_ok size ->
  publish_from_cuda_device g kind name generation size seed repeatable w = (w', Ok report) ->
  exists value, published value (pattern size seed) (w_disk (aw_store w)) (w_disk (aw_store w')) /\
    d_content_digest value = sha256 (pattern size seed) /\ d_total_bytes value = size /\
    cr_content_digest report = d_content_digest value /\ cr_object report = describe value /\
    cr_device_bytes report = size.
Proof.
  intros Hal Hs E. unfold publish_from_cuda_device, eff_bind, eff_lift in E.
  pose proof (stage_device_ends size seed g Hs) as Hst. unfold ends in Hst.
  destruct (stage_device size seed g) as [g' [[rep host]|e]]; [|done]. simpl in E.
  destruct (proj2 Hst rep host eq_refl) as (-> & Hsize & _).
  pose proof (publish_bytes_ends kind name generation (pattern size seed) (lit "smf-cuda") repeatable w Hal) as Hp.
  unfold ends in Hp. destruct (publish_bytes _ _ _ _ _ _ w) as [w1 [value|e]]; [|done]. injection E as <- <-.
  destruct Hp as [_ Hpub]. destruct (Hpub value eq_refl) as (Hp & Hd & Ht). exists value. simpl.
  rewrite pattern_length in Ht by apply Hs. by split_and!.
Qed.

(** (bounds) The number of blocks is cut to 32 bits before it is bounded: an
    object of 8 TiB gives an empty grid, which the runtime refuses. *)
Theorem empty_grid_refuses_object {G : Type} `{!Cuda G, !CudaLaws G} (seed : Z) (g : G) :
  grid_size (2 ^ 43) = 0 /\ forall x, (stage_device (2 ^ 43) seed g).2 <> Ok x.
Proof.
  split; [reflexivity|]. intros [report host] E.
  pose proof (stage_device_ends (2 ^ 43) seed g ltac:(done)) as H. unfold ends in H.
  destruct (stage_device (2 ^ 43) seed g) as [g' r]. simpl in E. destruct (proj2 H report host E) as (_ & _ & Hg). done.
Qed.

(** ** A simulated device *)

(** It runs the threads one after the other; [sim_fails] says which calls to come
    fail. *)
Record SimDevice := mkSimDevice {
  sim_memory : gmap nat bytes;
  sim_error : option CudaError;
  sim_fails : list bool }.

Definition sim_next (g : SimDevice) : SimDevice * bool :=
  match sim_fails g with
  | [] => (g, false)
  | f :: rest => (mkSimDevice (sim_memory g) (sim_error g) rest, f)
  end.

(** A call that changes nothing. *)
Definition sim_query {A} (x : A) (g : SimDevice) : SimDevice * (CudaError + A) :=
  let '(g, f) := sim_next g in (g, if f then inl 2 else inr x).

Definition sim_malloc (n : Z) (g : SimDevice) : SimDevice * (CudaError + nat) :=
  let '(g, f) := sim_next g in
  if f then (g, inl 2)
  else
    let p := fresh (dom (sim_memory g)) in
    (mkSimDevice (<[p := replicate (Z.to_nat n) x00]> (sim_memory g)) (sim_error g) (sim_fails g), inr p).

Definition sim_free (p : nat) (g : SimDevice) : SimDevice * (CudaError + unit) :=
  match sim_memory g !! p with
  | Some _ => (mkSimDevice (delete p (sim_memory g)) (sim_error g) (sim_fails g), inr tt)
  | None => (g, inl 1)
  end.

Definition sim_launch (p : nat) (grid block : Z) (kernel : Z -> Z -> list Store) (g : SimDevice) : SimDevice :=
  let '(g, f) := sim_next g in
  if f || (grid =? 0) then mkSimDevice (sim_memory g) (Some 9) (sim_fails g)
  else
    mkSimDevice (alter (apply_stores (concat (launched_threads grid block kernel))) p (sim_memory g))
      (sim_error g) (sim_fails g).

Definition sim_memcpy (p : nat) (n : Z) (g : SimDevice) : SimDevice * (CudaError + bytes) :=
  match sim_memory g !! p with
  | Some buffer => sim_query (take (Z.to_nat n) buffer) g
  | None => (g, inl 1)
  end.

#[export] Instance sim_cuda : Cuda SimDevice := {
  cudaGetDeviceCount := sim_query 1;
  cudaRuntimeGetVersion := sim_query 12040;
  cudaGetDeviceProperties := sim_query (lit "simulated");
  cudaMemGetInfo := sim_query (2 ^ 30, 2 ^ 31);
  cudaMalloc := sim_malloc;
  cudaFree := sim_free;
  cudaLaunch := sim_launch;
  cudaGetLastError g := (mkSimDevice (sim_memory g) None (sim_fails g), sim_error g);
  cudaDeviceSynchronize := sim_query tt;
  cudaMemcpyDeviceToHost := sim_memcpy;
  cudaGetErrorString e := lit "error " ++ std_to_string e }.

Lemma sim_next_keeps g : sim_memory (sim_next g).1 = sim_memory g.
Proof. unfold sim_next. by destruct (sim_fails g). Qed.

Lemma sim_query_keeps {A} (x : A) g : sim_memory (sim_query x g).1 = sim_memory g.
Proof. unfold sim_query. pose proof (sim_next_keeps g). by destruct (sim_next g). Qed.

(** One thread after the other is an interleaving. *)
Lemma interleaves_thread a t b trace : interleaves (a ++ [] :: b) trace -> interleaves (a ++ t :: b) (t ++ trace).
Proof.
  induction t as [|x t IH]; intros H; [done|]. cbn. apply (interleaves_step _ (length a) x t).
  - by rewrite lookup_app_r, Nat.sub_diag by lia.
  - rewrite insert_app_r_alt, Nat.sub_diag by lia. by apply IH.
Qed.

Lemma interleaves_concat a b : Forall (fun t => t = []) a -> interleaves (a ++ b) (concat b).
Proof.
  revert a. induction b as [|t b IH]; intros a Ha; cbn; [rewrite app_nil_r; by constructor|].
  apply interleaves_thread. replace (a ++ [] :: b) with ((a ++ [[]]) ++ b) by by rewrite <- app_assoc.
  apply IH. apply Forall_app. split; [done|]. by constructor.
Qed.

Lemma sim_launch_runs p grid block kernel g buffer : sim_memory g !! p = Some buffer ->
  (sim_memory (sim_launch p grid block kernel g) = sim_memory g /\ sim_error (sim_launch p grid block kernel g) <> None) \/
  sim_memory (sim_launch p grid block kernel g) =
    <[p := apply_stores (concat (launched_threads grid block kernel)) buffer]> (sim_memory g).
Proof.
  intros H. unfold sim_launch. pose proof (sim_next_keeps g) as Hk. destruct (sim_next g) as [g' f]. simpl in Hk.
  destruct (f || (grid =? 0)); [by left|right]. simpl. rewrite Hk. apply map_eq. intros q.
  destruct (decide (p = q)) as [<-|Hne].
  - by rewrite lookup_alter_eq, lookup_insert_eq, H.
  - by rewrite lookup_alter_ne, lookup_insert_ne.
Qed.

#[export, refine] Instance sim_laws : CudaLaws SimDevice := { device_memory := sim_memory }.
Proof.
  - intros g. apply sim_query_keeps.
  - intros g. apply sim_query_keeps.
  - intros g. apply sim_query_keeps.
  - intros g. apply sim_query_keeps.
  - done.
  - intros n g g' p E Hn. cbn in E. unfold sim_malloc in E. pose proof (sim_next_keeps g) as Hk.
    destruct (sim_next g) as [g1 f]. simpl in Hk. destruct f; [done|]. injection E as <- <-. simpl. rewrite Hk.
    split; [apply not_elem_of_dom, is_fresh|]. eexists. split; [|done]. unfold zlen. rewrite length_replicate. lia.
  - intros n g g' e E. cbn in E. unfold sim_malloc in E. pose proof (sim_next_keeps g) as Hk.
    destruct (sim_next g) as [g1 f]. simpl in Hk. destruct f; [|done]. by injection E as <- _.
  - intros p g g' E. cbn in E. unfold sim_free in E. destruct (sim_memory g !! p); [|done]. by injection E as <-.
  - intros p g g' e E. cbn in E. unfold sim_free in E. destruct (sim_memory g !! p); [done|]. by injection E as <-.
  - intros p n g. cbn. unfold sim_memcpy. destruct (sim_memory g !! p); [apply sim_query_keeps|done].
  - intros p n g g' bs buffer E H ->. cbn in E. unfold sim_memcpy in E. rewrite H in E. unfold sim_query in E.
    destruct (sim_next g) as [g1 []]; [done|]. injection E as _ <-. apply take_ge. unfold zlen. lia.
  - intros p grid block kernel g buffer H _. cbn. destruct (sim_launch_runs p grid block kernel g buffer H) as [[-> _]| ->].
    + exists buffer. split; [done|]. by rewrite insert_id.
    + eexists. split; [|done]. apply apply_stores_length.
  - intros p g buffer H. cbn. rewrite sim_query_keeps. exists buffer. split; [done|]. by rewrite insert_id.
  - intros p block kernel g. cbn. unfold sim_launch. destruct (sim_next g) as [g' f]. by rewrite orb_true_r.
  - intros p grid block kernel g buffer g1 g2 H _ E1 E2. cbn in E1, E2. injection E1 as <- He.
    destruct (sim_launch_runs p grid block kernel g buffer H) as [[_ Hbad]|Hm]; [done|].
    exists (concat (launched_threads grid block kernel)). split; [apply (interleaves_concat []); constructor|].
    etrans; [|exact Hm].
    pose proof (sim_query_keeps tt (mkSimDevice (sim_memory (sim_launch p grid block kernel g)) None
      (sim_fails (sim_launch p grid block kernel g)))) as Hk. by rewrite E2 in Hk.
Defined.

Lemma sim_frees : frees SimDevice.
Proof. intros p g [buffer H]. cbn in *. unfold sim_free. rewrite H. eauto. Qed.

(** *** Witnesses *)

Definition idle_device : SimDevice := mkSimDevice ∅ None [].

Lemma device_fill_is_schedule_independent_witness :
  let threads := launched_threads 2 3 (fill_pattern 20 7 2 3) in
  interleaves threads (concat threads) /\
  apply_stores (concat threads) (replicate 20 x00) = pattern 20 7.
Proof.
  intros threads. assert (H : interleaves threads (concat threads)) by (apply (interleaves_concat []); constructor).
  split; [exact H|].
  apply (device_fill_is_schedule_independent 20 7 2 3 (concat threads) (replicate 20 x00));
    [split; lia|lia|lia|lia|reflexivity|exact H].
Defined.


Lemma device_publication_is_exact_witness : exists w' report value,
  publish_from_cuda_device idle_device SK.TENSOR (lit "demo") 1 20 7 true demo_publisher = (w', Ok report) /\
  object_file (w_disk (aw_store w')) (version_of value) = Some (pattern 20 7).
Proof.
  destruct (publish_from_cuda_device idle_device SK.TENSOR (lit "demo") 1 20 7 true demo_publisher) as [w' x] eqn:E.
  assert (is_ok (publish_from_cuda_device idle_device SK.TENSOR (lit "demo") 1 20 7 true demo_publisher).2 = true) as Hok
    by (vm_compute; reflexivity).
  rewrite E in Hok. destruct x as [report|e]; [|discriminate Hok].
  destruct (device_publication_is_exact idle_device SK.TENSOR (lit "demo") 1 20 7 true demo_publisher w' report
    (fun _ _ _ => eq_refl) ltac:(split; lia) E) as (value & Hp & _).
  exists w', report, value. split; [reflexivity|exact (proj1 Hp)].
Defined.
