(* ===== verification/LogFile.v ===== *)
(** * The movement log as a file (src/src/movement_store.cpp over src/src/file_utils.cpp)

    [MovementStore::open] and [MovementStore::compact] call by call on file
    handles.  Recovery reads the log record by record through a handle; without
    failing calls it is the open that [MovementStore] models on the bytes of the
    log.  Compaction writes a new log beside the old one and renames it; whatever
    call fails and wherever a crash stops it, what is found under the log's name
    opens to the same index. *)
From S2P Require Import Prelude Status Bytes Digest Codec Ids StateObject Provenance Movement.
From S2P Require Import MovementStore Effect Files Durable.

(** ** Opening *)

(** The bytes of a record before its payload. *)
Definition record_header (type sequence : Z) (payload : bytes) : bytes :=
  let prefix := record_prefix type sequence (zlen payload) in prefix ++ record_checksum prefix payload.

(** The recovery loop on the handle [h]. *)
Fixpoint recover_io (h fuel : nat) (s : MovementStore) (file_size offset sequence : Z) (rp : StoreRecoveryReport)
    : Eff Machine (MovementStore * Z * Z * StoreRecoveryReport) :=
  match fuel with
  | O => eff_ret (s, offset, sequence, rp)
  | S f =>
      if file_size <=? offset then eff_ret (s, offset, sequence, rp)
      else
        let$ header := read h (Z.to_nat kRecordHeaderBytes) in
        if negb (zlen header =? kRecordHeaderBytes)
        then eff_ret (s, offset, sequence, report_torn rp (file_size - offset))
        else if negb (bytes_eqb (take 4 header) kRecordMagic)
        then eff_lift (fail RC.STORE_CORRUPT "store record magic does not match")
        else if negb (field_le header 4 1 =? kMovementStoreFormatVersion)
        then eff_lift (fail RC.STORE_VERSION_UNSUPPORTED "store record version is not supported")
        else if negb (field_le header 6 2 =? 0) || negb (field_le header 20 4 =? 0)
        then eff_lift (fail RC.STORE_RECORD_INVALID "store record reserved fields are non-zero")
        else
          let payload_length := field_le header 16 4 in
          if so_max_record_bytes (ms_options s) <? payload_length
          then eff_lift (fail RC.STORE_OVERSIZED "store record declares an oversized payload")
          else if file_size - offset - kRecordHeaderBytes <? payload_length
          then eff_ret (s, offset, sequence, report_torn rp (file_size - offset))
          else
            let$ payload := (if payload_length =? 0 then eff_ret [] else read h (Z.to_nat payload_length)) in
            if negb (zlen payload =? payload_length)
            then eff_ret (s, offset, sequence, report_torn rp (file_size - offset))
            else
              let expected := record_checksum (take 24 header) payload in
              let next_offset := offset + kRecordHeaderBytes + payload_length in
              if negb (constant_time_equal expected (drop 24 header))
              then if file_size <=? next_offset
                   then eff_ret (s, offset, sequence, report_torn rp (file_size - offset))
                   else eff_lift (fail RC.STORE_CHECKSUM_MISMATCH "store record checksum mismatch")
              else
                let record_sequence := field_le header 8 8 in
                if record_sequence <=? sequence
                then eff_lift (fail RC.STORE_RECORD_INVALID "store record sequence is not strictly increasing")
                else
                  let$ s' := eff_lift (apply_record s (field_le header 5 1) payload) in
                  recover_io h f s' file_size next_offset record_sequence (report_applied rp)
  end.

(** A new handle on the log, at the append offset. *)
Definition reopen (h : nat) (log : bytes) (offset : Z) : Eff Machine unit :=
  fun w => match (open h log true ;$ seek h offset) w with
           | (w, Ok _) => (w, Ok tt)
           | (w, Err e) => ((close h w).1, Err e)
           end.

(** The file [log] as it is. *)
Definition log_bytes (log : bytes) : Eff Machine bytes :=
  fun w => (w, Ok (default [] (contents (mc_fs w) log))).

(** The local handle of [open]: the header is written or checked, the records are
    read, and a torn one is cut off.  The length of the file bounds the number of
    turns. *)
Definition recover_log (h : nat) (log : bytes) (options : MovementStoreOptions) (existing_size : Z)
    : Eff Machine (MovementStore * Z * Z * StoreRecoveryReport) :=
  let created := existing_size =? 0 in
  let size := if created then kFileHeaderBytes else existing_size in
  scoped h
    (open h log true ;$
     (if created then write h file_header ;$ sync h
      else let$ header := read h (Z.to_nat kFileHeaderBytes) in eff_lift (check_file_header header)) ;$
     let$ file := log_bytes log in
     let s0 := mkStore options file true 0 1 ∅ [] None zero_stats in
     let$ (s, offset, sequence, rp) :=
       recover_io h (Z.to_nat size) s0 size kFileHeaderBytes 0 (mkReport created false 0 0 0 0 0) in
     (if rp_partial_tail_truncated rp then truncate_at h offset ;$ sync h else eff_ret tt) ;$
     close h ;$
     eff_ret (s, offset, sequence, rp)).

(** [open] from the log's existence on: [h] is the local handle, [h'] the one the
    store keeps.  The bytes in the store's record are those of the file. *)
Definition open_log (h h' : nat) (log : bytes) (options : MovementStoreOptions)
    : Eff Machine (MovementStore * StoreRecoveryReport) := fun w =>
  let '(w, found) := exists_file log w in
  (let$ existing_size := (if found then file_size log else eff_ret 0) in
   let$ (s, offset, sequence, rp) := recover_log h log options existing_size in
   reopen h' log offset ;$
   let$ file := log_bytes log in
   let rp := report_loaded rp (map_size (ms_records s)) (ss_retired_total (ms_stats s)) in
   let st := ms_stats s in
   let stats := mkStats (ss_records_appended st) (rp_records_read rp) (ss_index_lookup_steps st)
                  (ss_compactions st) (ss_retired_total st) (ss_bytes_written st) offset
                  (map_size (ms_records s)) in
   eff_ret (with_log s file true offset (wrap 64 (sequence + 1)) stats, rp)) w.

(** ** Compaction *)

Fixpoint write_all (h : nat) (chunks : list bytes) : Eff Machine unit :=
  match chunks with
  | [] => eff_ret tt
  | c :: rest => write h c ;$ write_all h rest
  end.

(** What [compact] writes: the file header, then header and payload of each
    record, numbered anew. *)
Fixpoint record_chunks (sequence : Z) (records : list (Z * bytes)) : list bytes :=
  match records with
  | [] => []
  | r :: rest => record_header r.1 (sequence + 1) r.2 :: r.2 :: record_chunks (sequence + 1) rest
  end.

Definition compact_chunks (s : MovementStore) : list bytes := file_header :: record_chunks 0 (compact_records s).

Definition compact_path (log : bytes) : bytes := log ++ lit ".compact".

(** [compact] up to the rename: [fresh] is the local handle, [current] the
    store's. *)
Definition replace_log (fresh current : nat) (log : bytes) (s : MovementStore) : Eff Machine unit := fun w =>
  let '(w, _) := remove (compact_path log) w in
  (scoped fresh
     (open fresh (compact_path log) true ;$
      write_all fresh (compact_chunks s) ;$
      sync fresh ;$
      close fresh) ;$
   close current ;$
   (fun w =>
     match rename (compact_path log) log w with
     | (w, true) => (w, Ok tt)
     | (w, false) =>
       let '(w, _) := remove (compact_path log) w in
       (w, Err (store_error "atomic store replacement failed"))
     end)) w.

Definition compact_log (fresh current : nat) (log : bytes) (s : MovementStore) : Eff Machine unit :=
  replace_log fresh current log s ;$ reopen current log (zlen (concat (compact_chunks s))).

(** ** Other operations *)

(** [sync] on the store's handle. *)
Definition store_sync (h : nat) : Eff Machine unit := fun w =>
  if is_open h w then sync h w else (w, Err (store_error "store file is not open")).

(** [stats] and [history_records] *)
Definition stats_snapshot (s : MovementStore) : MovementStoreStats :=
  let st := ms_stats s in
  mkStats (ss_records_appended st) (ss_records_read st) (ss_index_lookup_steps st) (ss_compactions st)
    (ss_retired_total st) (ss_bytes_written st) (ms_append_offset s) (map_size (ms_records s)).
Definition history_records (s : MovementStore) : Z := ss_records_appended (ms_stats s).

(** [close_file] and the destructor, which closes the log and drops the lock. *)
Definition close_file (h : nat) (w : Machine) : Machine := (close h w).1.
Definition destroy_store (h lock : nat) (w : Machine) (k : Locks) : Machine * Locks :=
  (close_file h w, lock_release lock k).

(** ** The new log *)

Lemma write_at_end f d : MovementStore.write_at f (length f) d = f ++ d.
Proof. unfold MovementStore.write_at. rewrite firstn_all, drop_ge by lia. by rewrite app_nil_r. Qed.

Lemma write_all_appends h chunks : forall f w w' r s, mc_streams w !! h = Some s -> 0 <= sm_offset s ->
  abs (mc_fs w) s = mkAFile f (zlen f) -> write_all h chunks w = (w', r) ->
  exists s', serves h s w w' s' /\ (r = Ok tt -> view (mc_fs w') s' = f ++ concat chunks).
Proof.
  induction chunks as [|c chunks IH]; intros f w w' r s Hs Ho Ha E; cbn in E.
  - injection E as <- <-. exists s. split; [by apply serves_refl|]. intros _. rewrite app_nil_r.
    by apply (f_equal af_bytes) in Ha.
  - unfold eff_bind in E. destruct (write h c w) as [w1 r1] eqn:E1.
    destruct (write_refines h c s w w1 r1 Hs Ho E1) as (s1 & S1 & W1 & _).
    destruct r1 as [[]|e]; [|injection E as <- <-; by exists s1]. specialize (W1 eq_refl). rewrite Ha in W1.
    apply (f_equal fst) in W1. pose proof (zlen_nonneg f). rewrite spec_write in W1 by lia. unfold zlen in W1 at 1.
    rewrite Nat2Z.id, write_at_end in W1. symmetry in W1. simpl in W1.
    destruct (IH (f ++ c) w1 w' r s1 (serves_lookup _ _ _ _ _ S1) (sv_offset _ _ _ _ _ S1)) as (s' & S' & H'); [|done|].
    { rewrite W1, zlen_app. done. }
    exists s'. split; [by eapply serves_trans|]. intros Hr. by rewrite (H' Hr), <- app_assoc.
Qed.

Lemma write_all_fills h chunks : fills h (write_all h chunks) (concat chunks).
Proof. intros w w' r s Hs Ho Ha E. by apply (write_all_appends h chunks [] w w' r s). Qed.

Lemma record_header_frame type sequence payload :
  record_header type sequence payload ++ payload = record_frame type sequence payload.
Proof. unfold record_header, record_frame. by rewrite <- app_assoc. Qed.

(** The chunks make up the log the model writes. *)
Lemma compact_chunks_log s : concat (compact_chunks s) = ms_file (compact CompactDone s).1.
Proof.
  unfold compact_chunks, compact. cbn [concat fst ms_file with_log]. f_equal. generalize 0 as sequence.
  induction (compact_records s) as [|[t p] rest IH]; intros sequence; [done|]. cbn [record_chunks concat compact_frames].
  by rewrite IH, app_assoc, record_header_frame.
Qed.

Lemma compact_path_differs log : compact_path log <> log.
Proof. intros H. apply (f_equal length) in H. unfold compact_path in H. rewrite length_app in H. simpl in H. lia. Qed.

(** Closing a handle whose buffer is empty changes no file. *)
Lemma close_quiet h s w w' r : mc_streams w !! h = Some s -> sm_pending s = [] -> close h w = (w', r) ->
  mc_fs w' = mc_fs w /\ mc_seen w' = mc_seen w /\ mc_streams w' = delete h (mc_streams w) /\ r = Ok tt.
Proof.
  intros Hs Hp E. unfold close, with_file in E. rewrite Hs in E. unfold fflush in E.
  destruct (next_outcome_same w) as (A1 & A2 & A3). destruct (next_outcome w) as [w1 [d|a d]];
    injection E as <- <-; unfold deliver; simpl in *; rewrite Hp, take_nil; simpl; split_and!; try done;
    by rewrite A2, delete_insert_eq.
Qed.

(** *** Other handles *)

(** [m] leaves every other handle as it is. *)
Definition touches_only {A} (h : nat) (m : Eff Machine A) : Prop :=
  forall w w' r k, m w = (w', r) -> k <> h -> mc_streams w' !! k = mc_streams w !! k.

Lemma touches_bind {A B} h (m : Eff Machine A) (f : A -> Eff Machine B) :
  touches_only h m -> (forall a, touches_only h (f a)) -> touches_only h (eff_bind m f).
Proof.
  intros Hm Hf w w' r k E Hk. unfold eff_bind in E. destruct (m w) as [w1 [a|e]] eqn:E1.
  - rewrite (Hf a w1 w' r k E Hk). by eapply Hm.
  - injection E as <- _. by eapply Hm.
Qed.

Lemma touches_ret {A} h (a : A) : touches_only h (eff_ret a).
Proof. intros w w' r k [= <- _] _. done. Qed.

Lemma deliver_others h k s d w : k <> h -> mc_streams (deliver h s d w) !! k = mc_streams w !! k.
Proof. intros Hk. unfold deliver. destruct (take d _); simpl; by rewrite lookup_insert_ne by done. Qed.

Lemma fflush_others h k s w : k <> h -> mc_streams (fflush h s w).1 !! k = mc_streams w !! k.
Proof.
  intros Hk. unfold fflush. destruct (next_outcome_same w) as (_ & A & _).
  destruct (next_outcome w) as [w1 [d|a d]]; simpl in *; rewrite deliver_others by done; by rewrite A.
Qed.

Lemma touches_close h : touches_only h (close h).
Proof.
  intros w w' r k E Hk. unfold close, with_file in E. destruct (mc_streams w !! h) as [s|]; [|by injection E as <- _].
  pose proof (fflush_others h k s w Hk) as F. destruct (fflush h s w) as [w1 f]. injection E as <- _. simpl in *.
  by rewrite lookup_delete_ne by done.
Qed.

Lemma fopen_others h k p m w : k <> h -> mc_streams (fopen h p m w).1 !! k = mc_streams w !! k.
Proof.
  intros Hk. unfold fopen. destruct (next_outcome_same w) as (_ & A & _).
  destruct (next_outcome w) as [w1 [d|a d]]; [|simpl in *; by rewrite A].
  destruct m, (entry (mc_fs w1) p); simpl in *; rewrite ?lookup_insert_ne by done; by rewrite A.
Qed.

Lemma touches_open h p b : touches_only h (open h p b).
Proof.
  unfold open. apply touches_bind; [apply touches_close|]. intros _ w w' r k E Hk.
  pose proof (fopen_others h k p (if b then Update else Read) w Hk) as F. destruct (fopen h p _ w) as [w1 o].
  simpl in F. rewrite <- F. destruct (negb o && b).
  - pose proof (fopen_others h k p Create w1 Hk) as G. destruct (fopen h p Create w1) as [w2 o2]. by injection E as <- _.
  - by injection E as <- _.
Qed.

Lemma touches_write h d : touches_only h (write h d).
Proof.
  intros w w' r k E Hk. unfold write, with_file in E. destruct (mc_streams w !! h) as [s|]; [|by injection E as <- _].
  destruct d as [|x xs]; [by injection E as <- _|]. destruct (next_outcome_same w) as (_ & A & _).
  destruct (next_outcome w) as [w1 [n|a n]]; simpl in A; [destruct (sm_writable s)|]; injection E as <- _;
    rewrite ?deliver_others by done; simpl; rewrite ?lookup_insert_ne by done; by rewrite A.
Qed.

Lemma touches_sync h : touches_only h (sync h).
Proof.
  intros w w' r k E Hk. unfold sync, with_file in E. destruct (mc_streams w !! h) as [s|]; [|by injection E as <- _].
  pose proof (fflush_others h k s w Hk) as F. destruct (fflush h s w) as [w1 [|]]; [|by injection E as <- _].
  unfold fsync in E. destruct (next_outcome_same w1) as (_ & A & _).
  destruct (next_outcome w1) as [w2 [d|a d]]; injection E as <- _; simpl in *; by rewrite A.
Qed.

Lemma touches_write_all h chunks : touches_only h (write_all h chunks).
Proof.
  induction chunks as [|c rest IH]; [apply touches_ret|]. apply touches_bind; [apply touches_write|]. by intros _.
Qed.

Create HintDb handles.
#[export] Hint Resolve touches_bind touches_ret touches_close touches_open touches_write touches_sync touches_write_all
  : handles.

(** *** Crashes *)

(** The store's handle has nothing buffered, as after every record with
    [sync_on_write]. *)
Definition flushed (h : nat) (w : Machine) : Prop := forall s, mc_streams w !! h = Some s -> sm_pending s = [].

Lemma close_flushed h w w' r : flushed h w -> close h w = (w', r) ->
  mc_fs w' = mc_fs w /\ mc_seen w' = mc_seen w /\ r = Ok tt.
Proof.
  intros H E. destruct (mc_streams w !! h) as [s|] eqn:Es.
  - destruct (close_quiet h s w w' r Es (H s Es) E) as (A & B & _ & C). done.
  - unfold close, with_file in E. rewrite Es in E. by injection E as <- <-.
Qed.

Lemma replace_log_ends fresh current log store w w' r :
  let bs := concat (compact_chunks store) in
  wf (mc_fs w) -> mc_seen w = [] -> mc_streams w !! fresh = None -> current <> fresh -> flushed current w ->
  cleared (compact_path log) w ->
  replace_log fresh current log store w = (w', r) ->
  (forall fs c, fs ∈ visited w' -> crash_file fs log c -> crash_file (mc_fs w) log c \/ c = Some bs) /\
  (r = Ok tt -> contents (mc_fs w') log = Some bs) /\
  (r <> Ok tt -> contents (mc_fs w') log = contents (mc_fs w) log).
Proof.
  intros bs Hwf Hseen Hs Hcf Hcur Hclear E. set (fs0 := mc_fs w) in *.
  assert (H0 : all_safe fs0 log w).
  { unfold all_safe, visited. rewrite Hseen. by apply Forall_singleton, safe_refl. }
  pose proof (compact_path_differs log) as Hne. unfold replace_log in E. set (temporary := compact_path log) in *.
  pose proof (remove_safe fs0 log temporary Hne w H0) as H1.
  pose proof (remove_streams temporary w) as Hs1. pose proof (remove_frees temporary w Hclear) as He1.
  destruct (remove temporary w) as [w1 f1]. simpl in H1, Hs1, He1. unfold flushed in Hcur. rewrite <- Hs1 in Hs, Hcur.
  unfold eff_bind at 1, scoped in E. fold (staging temporary fresh (write_all fresh (compact_chunks store))) in E.
  destruct (staging temporary fresh _ w1) as [w2 r2] eqn:E2.
  destruct (staging_ends fs0 log temporary Hne fresh _ bs w1 w2 r2 (write_all_fills fresh _) Hs He1 H1 E2) as (H2 & N2 & O2).
  destruct r2 as [[]|e]; [|injection E as <- <-; apply all_safe_replaced; [done|by apply close_safe]].
  destruct (O2 eq_refl) as (Hs2 & i & He2 & Hi2).
  assert (Hcur2 : flushed current w2).
  { assert (T : touches_only fresh (staging temporary fresh (write_all fresh (compact_chunks store)))).
    { unfold staging. auto 8 with handles. }
    intros s. rewrite (T _ _ _ current E2 Hcf). apply Hcur. }
  assert (close fresh w2 = (w2, Ok tt)) as Ec by (unfold close, with_file; by rewrite Hs2).
  rewrite Ec in E. clear Ec. unfold eff_bind in E. cbn [fst] in E.
  destruct (close current w2) as [w3 r3] eqn:E3. destruct (close_flushed current w2 w3 r3 Hcur2 E3) as (F3 & G3 & ->).
  apply (all_safe_quiet fs0 log w2 w3 F3 G3) in H2. rewrite <- F3 in He2, Hi2.
  destruct (rename temporary log w3) as [w4 b] eqn:E4.
  destruct (rename_replaced fs0 log temporary bs i w3 w4 b Hwf Hne H2 He2 Hi2 E4) as [[-> H4]|(-> & Hc4 & H4)].
  - pose proof (remove_safe fs0 log temporary Hne w4 H4) as H5. destruct (remove _ w4) as [w5 f5].
    injection E as <- <-. by apply all_safe_replaced.
  - injection E as <- <-. by split_and!.
Qed.

(** ** Calls that work *)

(** No call fails. *)
Definition faultless (w : Machine) : Prop := Forall (fun o => exists d, o = Works d) (mc_plan w).

(** [h] is open on the file [i] with nothing buffered, beside the handles [ss]. *)
Record idle (ss : gmap nat Stream) (h i : nat) (offset : Z) (w : Machine) : Prop := {
  id_streams : mc_streams w = <[h := mkStream i offset [] true false]> ss;
  id_faultless : faultless w }.

Lemma faultless_next w : faultless w ->
  exists w1 d, next_outcome w = (w1, Works d) /\ faultless w1 /\ mc_fs w1 = mc_fs w /\ mc_streams w1 = mc_streams w.
Proof.
  unfold faultless, next_outcome. destruct (mc_plan w) as [|o rest] eqn:E; intros H.
  - exists w, 0%nat. rewrite E. by split_and!.
  - inversion H as [|? ? [d ->] H']; subst. eexists _, d. by split_and!.
Qed.

Ltac next_works :=
  match goal with
  | H : faultless ?w |- context [next_outcome ?w] =>
    let w1 := fresh "w" in let d := fresh "d" in let E := fresh "E" in let F := fresh "F" in let S := fresh "S" in
    let Hw := fresh "Hw" in
    destruct (faultless_next w H) as (w1 & d & E & Hw & F & S); rewrite E
  end.

Lemma fflush_works h s w : faultless w -> sm_pending s = [] ->
  exists w1, fflush h s w = (set_stream h s w1, true) /\ faultless w1 /\ mc_fs w1 = mc_fs w /\
             mc_streams w1 = mc_streams w.
Proof.
  intros H Hp. unfold fflush. next_works. exists w0. unfold deliver. rewrite Hp. by split_and!.
Qed.

Ltac flush_works h s w :=
  let w1 := fresh "w" in let E := fresh "E" in let F := fresh "F" in let S := fresh "S" in let Hw := fresh "Hw" in
  destruct (fflush_works h s w) as (w1 & E & Hw & F & S); [done|done|]; rewrite E.

Lemma faultless_set_stream h s w : faultless w -> faultless (set_stream h s w).
Proof. done. Qed.

Lemma faultless_set_fs fs w : faultless w -> faultless (set_fs fs w).
Proof. done. Qed.
#[local] Hint Resolve faultless_set_stream faultless_set_fs : core.

Lemma read_works ss h i offset n w : idle ss h i offset w ->
  exists w', read h n w = (w', Ok (take n (drop (Z.to_nat offset) (data_of (mc_fs w) i)))) /\ mc_fs w' = mc_fs w /\
    idle ss h i (offset + zlen (take n (drop (Z.to_nat offset) (data_of (mc_fs w) i)))) w'.
Proof.
  intros [Hs Hw]. unfold read, with_file. rewrite Hs, lookup_insert_eq. set (s := mkStream i offset [] true false).
  flush_works h s w. cbn [mc_streams set_stream set_streams]. rewrite lookup_insert_eq. cbn [default negb].
  assert (Hw1 : faultless (set_stream h s w0)) by done. next_works. cbn [sm_error s sm_inode sm_offset].
  rewrite andb_false_r. simpl. rewrite F. eexists. split; [reflexivity|]. split; [simpl; rewrite F0; exact F|]. split; [|done].
  simpl. rewrite S0. simpl. by rewrite S, Hs, !insert_insert_eq.
Qed.

Lemma sync_works ss h i offset w : idle ss h i offset w ->
  exists w', sync h w = (w', Ok tt) /\ mc_fs w' = put_inode i (mkInode (data_of (mc_fs w) i) true) (mc_fs w) /\
    idle ss h i offset w'.
Proof.
  intros [Hs Hw]. unfold sync, with_file, fsync. rewrite Hs, lookup_insert_eq. set (s := mkStream i offset [] true false).
  flush_works h s w. assert (Hw1 : faultless (set_stream h s w0)) by done. next_works. eexists. split; [reflexivity|].
  cbn [mc_fs set_fs]. rewrite F0. simpl. rewrite F. split; [done|]. split; [|done]. simpl. rewrite S0. simpl. by rewrite S, Hs, insert_insert_eq.
Qed.

Lemma seek_works ss h i offset o w : 0 <= o < 2 ^ 63 -> idle ss h i offset w ->
  exists w', seek h o w = (w', Ok tt) /\ mc_fs w' = mc_fs w /\ idle ss h i o w'.
Proof.
  intros Ho [Hs Hw]. unfold seek, with_file, fseek. rewrite Hs, lookup_insert_eq. set (s := mkStream i offset [] true false).
  flush_works h s w. cbn [mc_streams set_stream set_streams]. rewrite lookup_insert_eq. unfold as_long.
  destruct (o <? 2 ^ 63) eqn:E1; [|b2p; lia]. destruct (o <? 0) eqn:E2; [b2p; lia|]. eexists. split; [reflexivity|].
  split; [done|]. split; [|done]. simpl. by rewrite S, Hs, !insert_insert_eq.
Qed.

Lemma truncate_works ss h i offset o w : 0 <= o < 2 ^ 63 -> idle ss h i offset w ->
  exists w', truncate_at h o w = (w', Ok tt) /\ idle ss h i o w' /\
    mc_fs w' = put_inode i (mkInode (ftruncate (data_of (mc_fs w) i) (Z.to_nat o)) false) (mc_fs w).
Proof.
  intros Ho [Hs Hw]. unfold truncate_at, with_file. rewrite Hs, lookup_insert_eq. set (s := mkStream i offset [] true false).
  flush_works h s w. assert (Hw1 : faultless (set_stream h s w0)) by done. next_works. unfold as_long at 1.
  destruct (o <? 2 ^ 63) eqn:E1; [|b2p; lia]. destruct (o <? 0) eqn:E2; [b2p; lia|]. cbn [sm_inode s].
  set (w2 := set_fs _ w1). assert (I2 : idle ss h i offset w2).
  { split; [|done]. simpl. rewrite S0. simpl. by rewrite S, Hs, insert_insert_eq. }
  destruct (seek_works ss h i offset o w2 Ho I2) as (w3 & E3 & F3 & I3). exists w3. split; [done|]. split; [done|].
  rewrite F3. simpl. rewrite F0. simpl. by rewrite F.
Qed.

Lemma close_works ss h i offset w : idle ss h i offset w ->
  exists w', close h w = (w', Ok tt) /\ mc_fs w' = mc_fs w /\ faultless w' /\ mc_streams w' = delete h ss.
Proof.
  intros [Hs Hw]. unfold close, with_file. rewrite Hs, lookup_insert_eq. set (s := mkStream i offset [] true false).
  flush_works h s w. eexists. split; [reflexivity|]. split; [done|]. split; [done|].
  simpl. by rewrite S, Hs, !delete_insert_eq.
Qed.

Lemma close_closed h w : mc_streams w !! h = None -> close h w = (w, Ok tt).
Proof. intros H. unfold close, with_file. by rewrite H. Qed.

Lemma open_works h path i w : faultless w -> mc_streams w !! h = None -> entry (mc_fs w) path = Some i ->
  exists w', open h path true w = (w', Ok tt) /\ mc_fs w' = mc_fs w /\ idle (mc_streams w) h i 0 w'.
Proof.
  intros Hw Hs He. unfold open, eff_bind. rewrite close_closed by done. unfold fopen. next_works. rewrite F, He. simpl.
  eexists. split; [reflexivity|]. split; [done|]. split; [|done]. simpl. by rewrite S.
Qed.

(** *** Recovery *)

Lemma payload_works ss h i offset n w : idle ss h i offset w -> 0 <= n ->
  exists w', (if n =? 0 then eff_ret [] else read h (Z.to_nat n)) w =
      (w', Ok (take (Z.to_nat n) (drop (Z.to_nat offset) (data_of (mc_fs w) i)))) /\ mc_fs w' = mc_fs w /\
    idle ss h i (offset + zlen (take (Z.to_nat n) (drop (Z.to_nat offset) (data_of (mc_fs w) i)))) w'.
Proof.
  intros I Hn. destruct (n =? 0) eqn:E; [|by apply read_works]. b2p. subst n. exists w. simpl. unfold zlen. simpl.
  rewrite Z.add_0_r. by split_and!.
Qed.

Lemma field_nonneg header a n : 0 <= field_le header a n.
Proof. apply load_le_nonneg. Qed.

Lemma recover_io_works ss h i fuel : forall s size offset sequence rp w, 0 <= offset -> idle ss h i offset w ->
  exists w' o, recover_io h fuel s size offset sequence rp w =
      (w', recover_loop fuel s size offset sequence (drop (Z.to_nat offset) (data_of (mc_fs w) i)) rp) /\
    mc_fs w' = mc_fs w /\ idle ss h i o w'.
Proof.
  induction fuel as [|fuel IH]; intros s size offset sequence rp w Ho I; [by exists w, offset|].
  cbn [recover_io recover_loop]. destruct (size <=? offset); [by exists w, offset|].
  set (rest := drop _ _). unfold eff_bind at 1.
  destruct (read_works ss h i offset (Z.to_nat kRecordHeaderBytes) w I) as (w1 & -> & F1 & I1). fold rest in I1 |- *.
  set (header := take _ rest) in *. cbv zeta.
  destruct (zlen header =? kRecordHeaderBytes) eqn:El; cbn [negb]; cbv beta iota; [|by eexists _, _].
  apply Z.eqb_eq in El. rewrite El in I1.
  destruct (negb (bytes_eqb _ _)); [by eexists _, _|]. destruct (negb (_ =? kMovementStoreFormatVersion)); [by eexists _, _|].
  destruct (_ || _); [by eexists _, _|]. pose proof (field_nonneg header 16 4) as Hn.
  set (n := field_le header 16 4) in *. destruct (_ <? n); [by eexists _, _|]. destruct (_ <? n); [by eexists _, _|].
  unfold eff_bind at 1. destruct (payload_works ss h i _ n w1 I1 Hn) as (w2 & -> & F2 & I2). rewrite F1 in F2, I2 |- *.
  assert (Hrest : drop (Z.to_nat (offset + kRecordHeaderBytes)) (data_of (mc_fs w) i) = drop (Z.to_nat kRecordHeaderBytes) rest).
  { unfold rest. rewrite drop_drop. f_equal. unfold kRecordHeaderBytes. lia. }
  rewrite Hrest in I2 |- *. set (payload := take (Z.to_nat n) _) in *.
  destruct (zlen payload =? n) eqn:Ep; cbn [negb]; cbv beta iota; [|by eexists _, _]. apply Z.eqb_eq in Ep. rewrite Ep in I2.
  destruct (negb (constant_time_equal _ _)); [destruct (_ <=? _); by eexists _, _|].
  destruct (_ <=? sequence); [by eexists _, _|]. unfold eff_bind, eff_lift.
  destruct (apply_record s _ payload) as [s'|e]; [|by eexists _, _]. cbn [rbind].
  destruct (IH s' size (offset + kRecordHeaderBytes + n) (field_le header 8 8) (report_applied rp) w2) as (w3 & o & E3 & F3 & I3);
    [unfold kRecordHeaderBytes; lia|done|].
  exists w3, o. rewrite E3, F3, F2. split; [|done]. f_equal. f_equal. unfold rest. rewrite drop_drop. f_equal.
  unfold kRecordHeaderBytes. lia.
Qed.

(** The end of the recovered part is in the file. *)
Lemma recover_loop_offset fuel : forall s size offset sequence rest rp s' offset' sequence' rp',
  0 <= offset <= size -> recover_loop fuel s size offset sequence rest rp = Ok (s', offset', sequence', rp') ->
  offset <= offset' <= size.
Proof.
  induction fuel as [|fuel IH]; intros s size offset sequence rest rp s' offset' sequence' rp' Ho E; [by injection E as _ <-; lia|].
  cbn [recover_loop] in E. destruct (size <=? offset) eqn:Es; [injection E as _ <-; lia|]. cbv zeta in E. b2p.
  set (header := take _ rest) in *. pose proof (field_nonneg header 16 4) as Hn.
  repeat (match type of E with (if ?b then _ else _) = _ => destruct b eqn:?; try (injection E as _ <-; lia); try discriminate E end).
  destruct (apply_record _ _ _) as [s1|]; [|discriminate E]. cbn [rbind] in E. apply IH in E; b2p; unfold kRecordHeaderBytes in *; lia.
Qed.

(** *** A new log *)

Lemma deliver_stream h s d w : exists s', mc_streams (deliver h s d w) = <[h := s']> (mc_streams w) /\
  sm_error s' = sm_error s /\ mc_plan (deliver h s d w) = mc_plan w.
Proof. unfold deliver. destruct (take d _); by eexists. Qed.

(** A stream without an error, on a machine whose calls work. *)
Definition healthy (h : nat) (w : Machine) : Prop :=
  faultless w /\ exists s, mc_streams w !! h = Some s /\ sm_writable s = true /\ sm_error s = false.

Lemma deliver_healthy h s d w : faultless w -> sm_writable s = true -> sm_error s = false -> healthy h (deliver h s d w).
Proof.
  intros Hw Hwr He. unfold deliver. destruct (take d _); (split; [done|]); eexists; simpl; by rewrite lookup_insert_eq.
Qed.

Lemma write_progress h bs w : healthy h w -> exists w', write h bs w = (w', Ok tt) /\ healthy h w'.
Proof.
  intros [Hw (s & Hs & Hwr & He)]. unfold write, with_file. rewrite Hs.
  destruct bs as [|b bs]; [exists w; split; [done|]; split; [done|by eexists]|].
  next_works. rewrite Hwr. eexists. split; [reflexivity|]. by apply deliver_healthy.
Qed.

Lemma sync_progress h w : healthy h w -> exists w', sync h w = (w', Ok tt) /\ healthy h w'.
Proof.
  intros [Hw (s & Hs & Hwr & He)]. unfold sync, with_file, fflush, fsync. rewrite Hs. next_works.
  destruct (deliver_healthy h s (length (sm_pending s)) w0 Hw0 Hwr He) as [Hw1 (s1 & Hs1 & Hwr1 & He1)].
  set (w1 := deliver _ _ _ _) in *. next_works. eexists. split; [reflexivity|]. split; [done|]. exists s1. simpl. by rewrite S0.
Qed.

Lemma fill_works ss h i bs w : idle ss h i 0 w -> data_of (mc_fs w) i = [] ->
  exists w', (write h bs ;$ sync h) w = (w', Ok tt) /\ same_but i (mc_fs w) (mc_fs w') /\
    data_of (mc_fs w') i = bs /\ idle ss h i (zlen bs) w'.
Proof.
  intros [Hs Hw] Hd. set (s := mkStream i 0 [] true false) in *.
  assert (Hl : mc_streams w !! h = Some s) by (rewrite Hs; apply lookup_insert_eq).
  destruct (write_progress h bs w) as (w1 & E1 & H1); [split; [done|]; by exists s|].
  destruct (sync_progress h w1 H1) as (w2 & E2 & Hw2 & s2' & Hs2 & _ & He2).
  destruct (write_refines h bs s w w1 _ Hl ltac:(done) E1) as (s1 & S1 & O1 & _). specialize (O1 eq_refl).
  destruct (sync_refines h s1 w1 w2 _ (serves_lookup _ _ _ _ _ S1) (sv_offset _ _ _ _ _ S1) E2) as (s2 & S2 & A2 & O2).
  destruct (O2 eq_refl) as [Hp _]. rewrite (serves_lookup _ _ _ _ _ S2) in Hs2. injection Hs2 as <-.
  exists w2. unfold eff_bind. rewrite E1. split; [done|].
  destruct (serves_trans _ _ _ _ _ _ _ S1 S2) as [T1 T2 T3 _ [T5 _]]. split; [exact T5|].
  assert (V : abs (mc_fs w2) s2 = mkAFile bs (zlen bs)).
  { rewrite A2. apply (f_equal fst) in O1. rewrite abs_flushed in O1 by done. cbn [sm_inode sm_offset s] in O1. rewrite Hd in O1.
    rewrite spec_write in O1 by (unfold zlen; simpl; lia). simpl in O1. rewrite <- O1. by rewrite (write_at_end []). }
  rewrite abs_flushed, T2 in V by done. injection V as V1 V2. split; [done|]. split; [|done].
  rewrite T1, Hs, insert_insert_eq. f_equal. destruct s2. simpl in *. by subst.
Qed.

(** *** The open *)

Lemma eff_bind_assoc {W A B C} (m : Eff W A) (k : A -> Eff W B) (l : B -> Eff W C) w :
  eff_bind m (fun a => eff_bind (k a) l) w = eff_bind (eff_bind m k) l w.
Proof. unfold eff_bind. by destruct (m w) as [w' [a|e]]. Qed.

Lemma contents_entry fs path i : entry fs path = Some i -> contents fs path = Some (data_of fs i).
Proof. intros H. unfold contents. by rewrite H. Qed.

Lemma open_any_works h log w : faultless w -> mc_streams w !! h = None ->
  exists w' i, open h log true w = (w', Ok tt) /\ entry (mc_fs w') log = Some i /\
    data_of (mc_fs w') i = default [] (contents (mc_fs w) log) /\ idle (mc_streams w) h i 0 w'.
Proof.
  intros Hw Hs. destruct (entry (mc_fs w) log) as [i|] eqn:He.
  - destruct (open_works h log i w Hw Hs He) as (w' & E & F & I). exists w', i. rewrite F, (contents_entry _ _ _ He). done.
  - unfold open, eff_bind. rewrite close_closed by done. unfold fopen. next_works. rewrite F, He. cbn [negb andb].
    next_works. rewrite F0, F, He. eexists _, _. split; [reflexivity|]. simpl. rewrite entry_bind_eq. split; [done|].
    unfold contents. rewrite He. split; [apply data_of_put|]. split; [|done]. simpl. by rewrite S0, S.
Qed.

(** The file and the handle after the header was written or checked. *)
Lemma header_works h log w : let existing := default [] (contents (mc_fs w) log) in
  let created := zlen existing =? 0 in let file := if created then file_header else existing in
  let checked := if created then Ok tt else check_file_header file in
  faultless w -> mc_streams w !! h = None ->
  exists w1 i o, (open h log true ;$
      (if created then write h file_header ;$ sync h
       else let$ header := read h (Z.to_nat kFileHeaderBytes) in eff_lift (check_file_header header))) w = (w1, checked) /\
    entry (mc_fs w1) log = Some i /\ data_of (mc_fs w1) i = file /\ idle (mc_streams w) h i o w1 /\
    (checked = Ok tt -> o = kFileHeaderBytes /\ kFileHeaderBytes <= zlen file).
Proof.
  intros existing created file checked Hw Hs. unfold eff_bind at 1.
  destruct (open_any_works h log w Hw Hs) as (w1 & i & -> & He & Hd & I). fold existing in Hd.
  unfold checked, file. destruct created eqn:Ec; unfold created in Ec; b2p.
  - assert (existing = []) as Hn by (destruct existing; [done|unfold zlen in Ec; simpl in Ec; lia]). rewrite Hn in Hd.
    destruct (fill_works _ h i file_header w1 I Hd) as (w2 & E2 & S2 & D2 & I2). exists w2, i, (zlen file_header).
    split; [done|]. rewrite (entry_same_but i _ _ _ S2). split_and!; [done..|]. intros _. unfold zlen. by rewrite length_file_header.
  - unfold eff_bind, eff_lift. destruct (read_works _ h i 0 (Z.to_nat kFileHeaderBytes) w1 I) as (w2 & -> & F2 & I2).
    rewrite Hd in I2 |- *. rewrite drop_0 in I2 |- *. rewrite check_file_header_take. eexists _, i, _. split; [reflexivity|].
    rewrite F2. split_and!; [done..|]. intros Hc. unfold check_file_header in Hc.
    destruct (negb (zlen _ =? kFileHeaderBytes)) eqn:El; [discriminate Hc|]. b2p. split; [lia|].
    unfold zlen in *. rewrite length_take in El. unfold kFileHeaderBytes in *. lia.
Qed.

(** Cutting a torn record off, and the end of the local handle. *)
Lemma tail_works ss h i o offset (torn : bool) log w : idle ss h i o w -> 0 <= offset < 2 ^ 63 ->
  offset <= zlen (data_of (mc_fs w) i) -> entry (mc_fs w) log = Some i ->
  exists w', ((if torn then truncate_at h offset ;$ sync h else eff_ret tt) ;$ close h) w = (w', Ok tt) /\
    entry (mc_fs w') log = Some i /\ faultless w' /\ mc_streams w' = delete h ss /\
    data_of (mc_fs w') i = if torn then take (Z.to_nat offset) (data_of (mc_fs w) i) else data_of (mc_fs w) i.
Proof.
  intros I Ho Hl He. unfold eff_bind. destruct torn.
  - destruct (truncate_works ss h i o offset w Ho I) as (w1 & -> & I1 & F1).
    destruct (sync_works ss h i offset w1 I1) as (w2 & -> & F2 & I2).
    destruct (close_works ss h i offset w2 I2) as (w3 & -> & F3 & Hw3 & S3). exists w3. split; [done|].
    rewrite F3, F2, F1. split_and!; [done..|]. rewrite data_of_put. simpl. rewrite data_of_put. simpl.
    apply ftruncate_within. unfold zlen in Hl. lia.
  - destruct (close_works ss h i o w I) as (w3 & E3 & F3 & Hw3 & S3). exists w3. cbn. rewrite E3, F3. by split_and!.
Qed.

Lemma reopen_works h log i offset w : faultless w -> mc_streams w !! h = None -> entry (mc_fs w) log = Some i ->
  0 <= offset < 2 ^ 63 ->
  exists w', reopen h log offset w = (w', Ok tt) /\ mc_fs w' = mc_fs w /\
    mc_streams w' !! h = Some (mkStream i offset [] true false).
Proof.
  intros Hw Hs He Ho. unfold reopen, eff_bind. destruct (open_works h log i w Hw Hs He) as (w1 & -> & F1 & I1).
  destruct (seek_works _ h i 0 offset w1 Ho I1) as (w2 & -> & F2 & I2). exists w2. split; [done|]. split; [congruence|].
  rewrite (id_streams _ _ _ _ _ I2). apply lookup_insert_eq.
Qed.

Lemma size_works log w : faultless w ->
  exists w', (let '(w, found) := exists_file log w in (if found then file_size log else eff_ret 0) w) =
      (w', Ok (zlen (default [] (contents (mc_fs w) log)))) /\
    faultless w' /\ mc_fs w' = mc_fs w /\ mc_streams w' = mc_streams w.
Proof.
  intros Hw. unfold exists_file. next_works. rewrite F. unfold contents. destruct (entry (mc_fs w) log) as [i|] eqn:He.
  - unfold file_size. next_works. rewrite F0, F. unfold contents. rewrite He. eexists. split; [reflexivity|].
    split_and!; [done|congruence..].
  - eexists. split; [reflexivity|]. by split_and!.
Qed.

(** What the model's open computes before the log is reopened. *)
Definition recovered (options : MovementStoreOptions) (existing : bytes)
    : Result (MovementStore * Z * Z * StoreRecoveryReport) :=
  let created := zlen existing =? 0 in
  let file := if created then file_header else existing in
  (if created then Ok tt else check_file_header file) ;!
  recover_loop (length file) (mkStore options file true 0 1 ∅ [] None zero_stats) (zlen file) kFileHeaderBytes 0
    (drop (Z.to_nat kFileHeaderBytes) file) (mkReport created false 0 0 0 0 0).

Lemma recover_log_works h log options w : let existing := default [] (contents (mc_fs w) log) in
  faultless w -> mc_streams w !! h = None -> zlen existing < 2 ^ 63 ->
  exists w' i, recover_log h log options (zlen existing) w = (w', recovered options existing) /\
    entry (mc_fs w') log = Some i /\
    let file := if zlen existing =? 0 then file_header else existing in
    match recovered options existing with
    | Ok (_, offset, _, rp) => 0 <= offset < 2 ^ 63 /\ faultless w' /\ mc_streams w' = mc_streams w /\
        data_of (mc_fs w') i = if rp_partial_tail_truncated rp then take (Z.to_nat offset) file else file
    | Err _ => data_of (mc_fs w') i = existing
    end.
Proof.
  intros existing Hw Hs Hlen. destruct (header_works h log w Hw Hs) as (w1 & i & o & E1 & He1 & Hd1 & I1 & Ho).
  unfold recover_log, recovered, scoped. cbv zeta. fold existing in E1, Hd1, Ho |- *.
  set (created := zlen existing =? 0) in *. set (file := if created then file_header else existing) in *.
  assert (Hsize : (if created then kFileHeaderBytes else zlen existing) = zlen file).
  { unfold file. destruct created; [|done]. unfold zlen. by rewrite length_file_header. }
  rewrite Hsize, eff_bind_assoc. unfold eff_bind at 1. rewrite E1. clear E1.
  destruct (if created then Ok tt else check_file_header file) as [[]|e] eqn:Ec; cbn [rbind].
  2: { destruct (close_works _ h i o w1 I1) as (w2 & -> & F2 & _). exists w2, i. cbn [fst]. rewrite F2. split_and!; [done..|].
       rewrite Hd1. unfold file. by destruct created. }
  destruct (Ho eq_refl) as [-> Hk]. unfold log_bytes. unfold eff_bind at 1. rewrite (contents_entry _ _ _ He1), Hd1. cbn [default].
  assert (Hk0 : 0 <= kFileHeaderBytes) by (unfold kFileHeaderBytes; lia).
  unfold zlen at 1. rewrite Nat2Z.id.
  match goal with |- context [recover_io h _ ?s0 _ _ _ ?rp] =>
    destruct (recover_io_works _ h i (length file) s0 (zlen file) kFileHeaderBytes 0 rp w1 Hk0 I1) as (w2 & o2 & E2 & F2 & I2) end.
  unfold eff_bind at 1. rewrite E2, Hd1. clear E2. rewrite <- F2 in He1, Hd1.
  destruct (recover_loop _ _ _ _ _ _ _) as [[[[s offset] sequence] rp]|e] eqn:El.
  2: { destruct (close_works _ h i o2 w2 I2) as (w3 & -> & F3 & _). exists w3, i. cbn [fst]. rewrite F3. split_and!; [done..|].
       rewrite Hd1. unfold file in El |- *. destruct created; [|done]. rewrite recover_end in El by (unfold zlen; by rewrite length_file_header). done. }
  apply recover_loop_offset in El; [|lia].
  assert (Hf : zlen file < 2 ^ 63) by (rewrite <- Hsize; destruct created; [done|lia]).
  destruct (tail_works _ h i o2 offset (rp_partial_tail_truncated rp) log w2 I2) as (w3 & E3 & He3 & Hw3 & S3 & D3); [lia|rewrite Hd1; lia|done|].
  rewrite eff_bind_assoc. unfold eff_bind at 1. rewrite E3. exists w3, i. cbn [eff_ret].
  rewrite delete_id in S3 by done. rewrite close_closed by (by rewrite S3). cbn [fst]. rewrite D3, Hd1. split_and!; (done || lia).
Qed.

Lemma open_log_ends h h' log options w :
  let existing := default [] (contents (mc_fs w) log) in
  options_ok options -> faultless w -> mc_streams w !! h = None -> mc_streams w !! h' = None -> zlen existing < 2 ^ 63 ->
  exists w', open_log h h' log options w = (w', MovementStore_open options existing) /\
    match MovementStore_open options existing with
    | Ok (s, _) => contents (mc_fs w') log = Some (ms_file s) /\
                   exists i, entry (mc_fs w') log = Some i /\
                             mc_streams w' !! h' = Some (mkStream i (ms_append_offset s) [] true false)
    | Err _ => contents (mc_fs w') log = Some existing
    end.
Proof.
  intros existing (Hdir & Hmax & Hhist) Hw Hs Hs' Hlen. unfold open_log.
  destruct (size_works log w Hw) as (w0 & E0 & Hw0 & F0 & S0). fold existing in E0.
  destruct (exists_file log w) as [wx found]. unfold eff_bind at 1. rewrite E0. clear wx found E0 Hw.
  rewrite <- S0 in Hs, Hs'. unfold existing in *. rewrite <- F0 in *. clear existing. set (existing := default _ _) in *.
  destruct (recover_log_works h log options w0 Hw0 Hs Hlen) as (w1 & i & E1 & He1 & H1). fold existing in E1, H1.
  unfold eff_bind at 1. rewrite E1. clear E1. unfold MovementStore_open. rewrite (proj2 (bytes_eqb_neq _ _) Hdir).
  destruct ((_ =? 0) || _) eqn:Eb; [b2p; lia|]. destruct (so_max_history_records options =? 0) eqn:Eh; [b2p; lia|].
  cbv zeta in H1 |- *. unfold recovered in H1 |- *. set (file := if zlen existing =? 0 then file_header else existing) in *.
  destruct (if zlen existing =? 0 then Ok tt else check_file_header file) as [[]|e]; cbn [rbind] in H1 |- *.
  2: { exists w1. rewrite (contents_entry _ _ _ He1), H1. done. }
  destruct (recover_loop _ _ _ _ _ _ _) as [[[[s offset] sequence] rp]|e]; cbn [rbind] in H1 |- *.
  2: { exists w1. rewrite (contents_entry _ _ _ He1), H1. done. }
  destruct H1 as (Ho & Hw1 & S1 & D1). rewrite <- S1 in Hs'.
  destruct (reopen_works h' log i offset w1 Hw1 Hs' He1 Ho) as (w2 & E2 & F2 & S2).
  exists w2. unfold eff_bind. rewrite E2. unfold log_bytes, eff_ret. rewrite F2, (contents_entry _ _ _ He1), D1.
  cbn [default]. split; [done|]. split; [done|]. by exists i.
Qed.

(** C23: (refinement) The open of the log, read record by record through a file
    handle, is the open modelled on the bytes of the log: with calls that work it
    returns the same store and report or the same error; afterwards the file has
    the bytes of that store and the store's handle is at the append offset, and a
    log that is refused keeps its bytes. *)
Theorem open_reads_log h h' log options w :
  let existing := default [] (contents (mc_fs w) log) in
  options_ok options -> faultless w -> mc_streams w !! h = None -> mc_streams w !! h' = None -> zlen existing < 2 ^ 63 ->
  exists w', open_log h h' log options w = (w', MovementStore_open options existing) /\
    match MovementStore_open options existing with
    | Ok (s, _) => contents (mc_fs w') log = Some (ms_file s) /\
                   exists i, entry (mc_fs w') log = Some i /\
                             mc_streams w' !! h' = Some (mkStream i (ms_append_offset s) [] true false)
    | Err _ => contents (mc_fs w') log = Some existing
    end.
Proof. apply open_log_ends. Qed.

(** ** Compaction keeps the index *)

(** A log found after a crash opens to the index of [store]. *)
Definition opens_to (store : MovementStore) (c : option bytes) : Prop :=
  exists log s rp, c = Some log /\ MovementStore_open (ms_options store) log = Ok (s, rp) /\ store_inv s /\
    ms_records s = reloaded <$> ms_records store /\ ms_order s = ms_order store /\
    ms_coordinator_state s = ms_coordinator_state store.

Lemma opens_to_file store : store_inv store -> sequence_room store -> opens_to store (Some (ms_file store)).
Proof.
  intros Hs Hr. destruct (restart_step store Hs Hr) as (s & rp & E & Hs' & (_ & M2 & M3 & M4) & _). by exists (ms_file store), s, rp.
Qed.

Lemma opens_to_compacted store : store_inv store -> sequence_room store ->
  opens_to store (Some (concat (compact_chunks store))).
Proof.
  intros Hs Hr. destruct (compact_step store Hs Hr) as (s & E & Hs' & E1 & E2 & E3 & E4 & E5).
  rewrite compact_chunks_log, E. cbn [fst]. unfold opens_to. rewrite <- E1, <- E2, <- E3, <- E5. apply opens_to_file; [done|].
  unfold sequence_room in *. by rewrite E4, E2.
Qed.


(** ** What reopening does *)

(** (error) The log is reopened with a call that creates the file when it cannot open it:
    when the first attempt fails for a passing reason the log that was just
    recovered or compacted is emptied, and the call reports success. *)
Theorem reopen_can_empty_log (b : byte) (file : bytes) (offset : Z) :
  let log := lit "movements.smf" in
  let w := mkMachine (log_fs log (b :: file)) ∅ [Fails 0 0] [] in
  0 <= offset < 2 ^ 63 ->
  (reopen 0 log offset w).2 = Ok tt /\ contents (mc_fs (reopen 0 log offset w).1) log = Some [].
Proof.
  intros log w Ho. set (w1 := (open 0 log true w).1).
  assert (I : idle ∅ 0 0 0 w1) by (split; [vm_compute; reflexivity|constructor]).
  assert (E : open 0 log true w = (w1, Ok tt)) by (apply injective_projections; [reflexivity|vm_compute; reflexivity]).
  assert (Hc : contents (mc_fs w1) log = Some []) by (vm_compute; reflexivity).
  unfold reopen, eff_bind. rewrite E. destruct (seek_works ∅ 0 0 0 offset w1 Ho I) as (w2 & -> & F2 & _).
  split; [done|]. cbn [fst]. by rewrite F2.
Qed.

(** ** Witnesses *)

Definition kept_log : bytes := ms_file demo_store_put.
Definition kept_machine (plan : list Outcome) : Machine :=
  mkMachine (log_fs demo_log kept_log) {[7%nat := log_stream]} plan [].

Lemma kept_contents ss plan : contents (mc_fs (mkMachine (log_fs demo_log kept_log) ss plan [])) demo_log = Some kept_log.
Proof.
  rewrite (contents_entry _ _ 0%nat).
  - unfold data_of. cbn [mc_fs log_fs fs_inodes]. by rewrite lookup_singleton_eq.
  - unfold entry, history. cbn [mc_fs log_fs fs_names]. by rewrite lookup_singleton_eq.
Qed.

Lemma kept_log_bound : zlen kept_log < 2 ^ 63.
Proof. vm_compute. reflexivity. Qed.

Lemma open_reads_log_witness :
  exists w' s rp, open_log 0 1 demo_log demo_options (mkMachine (log_fs demo_log kept_log) ∅ [Works 3; Works 0] []) = (w', Ok (s, rp)) /\
    is_Some (ms_records s !! m_id demo_planned) /\ contents (mc_fs w') demo_log = Some (ms_file s).
Proof.
  set (w := mkMachine _ _ _ _). pose proof (kept_contents ∅ [Works 3; Works 0] : contents (mc_fs w) demo_log = _) as Hc.
  assert (Hw : faultless w) by (repeat constructor; by eexists).
  assert (Hb : zlen (default [] (contents (mc_fs w) demo_log)) < 2 ^ 63) by (rewrite Hc; exact kept_log_bound).
  destruct (open_reads_log 0 1 demo_log demo_options w demo_options_ok Hw eq_refl eq_refl Hb) as (w' & E & H).
  rewrite Hc in E, H. change (default [] (Some kept_log)) with kept_log in E, H.
  destruct (restart_step demo_store_put demo_store_put_inv demo_store_put_room) as (s & rp & Eo & _ & (_ & Hr & _) & _).
  change (ms_options demo_store_put) with demo_options in Eo. fold kept_log in Eo. rewrite Eo in E, H.
  exists w', s, rp. split; [exact E|]. split; [|exact (proj1 H)].
  rewrite Hr, lookup_fmap. assert (ms_records demo_store_put !! m_id demo_planned = Some demo_planned) as -> by (vm_compute; reflexivity).
  eexists. reflexivity.
Defined.

Lemma kept_wf plan : wf (mc_fs (kept_machine plan)).
Proof.
  intros p i H. unfold history in H. cbn [mc_fs kept_machine log_fs fs_names fs_inodes] in *. destruct (decide (p = demo_log)) as [->|Hp].
  - rewrite lookup_singleton_eq in H. apply list_elem_of_singleton in H as [= ->]. rewrite lookup_singleton_eq. eauto.
  - rewrite lookup_singleton_ne in H by done. by apply list_elem_of_singleton in H.
Qed.


Lemma reopen_can_empty_log_witness :
  let w := mkMachine (log_fs (lit "movements.smf") (lit "log")) ∅ [Fails 0 0] [] in
  (reopen 0 (lit "movements.smf") 3 w).2 = Ok tt /\
  contents (mc_fs (reopen 0 (lit "movements.smf") 3 w).1) (lit "movements.smf") = Some [].
Proof. exact (reopen_can_empty_log "l"%byte (lit "og") 3 ltac:(lia)). Defined.
