(* ===== verification/Threads.v ===== *)
(** * Threads (the loops of src/src/coordinator.cpp and src/src/endpoint_agent.cpp)

    The worker and listener threads of both services, the thread that waits in
    [run] and then stops the service, callers of [enqueue] and [wait_for_idle],
    and whoever asks for the shutdown, interleaved at their accesses to the
    mutexes, the condition variables and the shared variables.  The atomics are
    read and written with acquire and release order and the rest under a mutex,
    so the threads take turns on one memory.

    A wait on a condition variable tests its predicate and then blocks; the
    mutex is held over both and given up as the thread blocks. *)
From S2P Require Import Prelude Status.

(** ** Program points *)

Module Pc.
Section pc.
Context {A : Type}.

(** The point a thread has reached.  Points named [Lock] are before taking the
    mutex, [Test] before evaluating the predicate of a wait, [Block] between a
    predicate that was false and the wait, [Sleep] in the wait. *)
Inductive t : Type :=
  (* worker_loop, session_worker_loop *)
  | WLock | WTest | WBlock | WSleep
  | WTaken (a : A)                       (* taken off the queue, not yet counted as active *)
  | WRunning (a : A)
  | WFinished                            (* before idle_cv_.notify_all *)
  | WExited
  (* enqueue *)
  | ELock (a : A) | EPush (a : A) | ENotify | EDone
  (* EndpointAgent::accept_loop *)
  | ATop | AAccept | ALock (a : A) | APush (a : A) | ANotify | AReturned
  (* wait_for_idle *)
  | ILock | ITest | IBlock | ISleep | IReturned
  (* run *)
  | RLock | RTest | RBlock | RSleep
  (* request_shutdown, followed by the rest of stop when [stop] *)
  | SExchange (stop : bool) | SQueue (stop : bool) | SIdle (stop : bool) | SWake (stop : bool)
  | SDone (stop : bool)
  | SStopped.
End pc.
Arguments t : clear implicits.
End Pc.
Import Pc.

Inductive Cv : Set := QueueCv | IdleCv | WakeCv.

Definition waits_on {A} (pc : Pc.t A) : option Cv :=
  match pc with WSleep => Some QueueCv | ISleep => Some IdleCv | RSleep => Some WakeCv | _ => None end.

(** A thread that is woken takes the mutex again. *)
Definition woken {A} (pc : Pc.t A) : Pc.t A :=
  match pc with WSleep => WLock | ISleep => ILock | RSleep => RLock | _ => pc end.

#[global] Instance Cv_eq_dec : EqDecision Cv.
Proof. solve_decision. Defined.

Section threads.
Context {A : Type}.
Implicit Types (i j : nat) (a : A) (q : list A) (pc : Pc.t A) (pcs : list (Pc.t A)).

(** ** State *)

(** [th_pushed] and [th_popped]: everything that was put on the queue and taken
    off it, in order. *)
Record Threads := mkThreads {
  th_stopping : bool;
  th_queue : list A;
  th_active : Z;
  th_refused : Z;
  th_queue_mutex : option nat;
  th_wake_mutex : option nat;
  th_pcs : list (Pc.t A);
  th_pushed : list A;
  th_popped : list A }.

Definition goto i pc (s : Threads) : Threads :=
  mkThreads (th_stopping s) (th_queue s) (th_active s) (th_refused s) (th_queue_mutex s) (th_wake_mutex s)
    (<[i := pc]> (th_pcs s)) (th_pushed s) (th_popped s).
Definition set_pcs pcs (s : Threads) : Threads :=
  mkThreads (th_stopping s) (th_queue s) (th_active s) (th_refused s) (th_queue_mutex s) (th_wake_mutex s)
    pcs (th_pushed s) (th_popped s).
Definition set_queue_mutex (m : option nat) (s : Threads) : Threads :=
  mkThreads (th_stopping s) (th_queue s) (th_active s) (th_refused s) m (th_wake_mutex s) (th_pcs s)
    (th_pushed s) (th_popped s).
Definition set_wake_mutex (m : option nat) (s : Threads) : Threads :=
  mkThreads (th_stopping s) (th_queue s) (th_active s) (th_refused s) (th_queue_mutex s) m (th_pcs s)
    (th_pushed s) (th_popped s).
Definition set_active (n : Z) (s : Threads) : Threads :=
  mkThreads (th_stopping s) (th_queue s) n (th_refused s) (th_queue_mutex s) (th_wake_mutex s) (th_pcs s)
    (th_pushed s) (th_popped s).
Definition set_stop (s : Threads) : Threads :=
  mkThreads true (th_queue s) (th_active s) (th_refused s) (th_queue_mutex s) (th_wake_mutex s) (th_pcs s)
    (th_pushed s) (th_popped s).
Definition refuse (s : Threads) : Threads :=
  mkThreads (th_stopping s) (th_queue s) (th_active s) (wrap 64 (th_refused s + 1)) (th_queue_mutex s)
    (th_wake_mutex s) (th_pcs s) (th_pushed s) (th_popped s).
Definition push_back a (s : Threads) : Threads :=
  mkThreads (th_stopping s) (th_queue s ++ [a]) (th_active s) (th_refused s) (th_queue_mutex s) (th_wake_mutex s)
    (th_pcs s) (th_pushed s ++ [a]) (th_popped s).
Definition pop_front a q (s : Threads) : Threads :=
  mkThreads (th_stopping s) q (th_active s) (th_refused s) (th_queue_mutex s) (th_wake_mutex s) (th_pcs s)
    (th_pushed s) (th_popped s ++ [a]).

(** ** Mutexes and condition variables *)

Definition lock_queue i pc (s : Threads) : option Threads :=
  match th_queue_mutex s with None => Some (goto i pc (set_queue_mutex (Some i) s)) | Some _ => None end.
Definition unlock_queue i pc (s : Threads) : Threads := goto i pc (set_queue_mutex None s).
Definition lock_wake i pc (s : Threads) : option Threads :=
  match th_wake_mutex s with None => Some (goto i pc (set_wake_mutex (Some i) s)) | Some _ => None end.
Definition unlock_wake i pc (s : Threads) : Threads := goto i pc (set_wake_mutex None s).

Definition sleeps cv pc : bool := bool_decide (waits_on pc = Some cv).

Definition notify_all cv (s : Threads) : Threads :=
  set_pcs (map (fun pc => if sleeps cv pc then woken pc else pc) (th_pcs s)) s.

(** [pick] is the thread the platform wakes, any one that waits. *)
Definition notify_one cv (pick : nat) (s : Threads) : option Threads :=
  match th_pcs s !! pick with
  | Some pc =>
    if sleeps cv pc then Some (goto pick (woken pc) s)
    else if existsb (sleeps cv) (th_pcs s) then None else Some s
  | None => if existsb (sleeps cv) (th_pcs s) then None else Some s
  end.

(** ** Steps *)

(** What the platform decides in a step: whom [notify_one] wakes and what the
    listener's [accept] returns. *)
Record Env := mkEnv { ev_pick : nat; ev_accepted : Result A }.

Definition exited pc : bool :=
  match pc with
  | WExited | AReturned => true
  | WLock | WTest | WBlock | WSleep | WTaken _ | WRunning _ | WFinished
  | ATop | AAccept | ALock _ | APush _ | ANotify => false
  | _ => true
  end.

(** A worker.  The predicate of its wait and what it does when that holds. *)
Definition step_worker i pc (s : Threads) : option Threads :=
  match pc with
  | WLock => lock_queue i WTest s
  | WTest =>
    match th_queue s with
    | a :: q => Some (unlock_queue i (WTaken a) (pop_front a q s))
    | [] => Some (if th_stopping s then unlock_queue i WExited s else goto i WBlock s)
    end
  | WBlock => Some (unlock_queue i WSleep s)
  | WTaken a => Some (goto i (WRunning a) (set_active (wrap 32 (th_active s + 1)) s))
  | WRunning _ => Some (goto i WFinished (set_active (wrap 32 (th_active s - 1)) s))
  | WFinished => Some (goto i WLock (notify_all IdleCv s))
  | _ => None
  end.

Definition step_enqueue i pc (e : Env) (s : Threads) : option Threads :=
  match pc with
  | ELock a => lock_queue i (EPush a) s
  | EPush a => Some (unlock_queue i ENotify (push_back a s))
  | ENotify => notify_one QueueCv (ev_pick e) (goto i EDone s)
  | _ => None
  end.

(** The data listener's thread; [bound] is [max_data_sessions]. *)
Definition step_accept (bound : Z) i pc (e : Env) (s : Threads) : option Threads :=
  match pc with
  | ATop => Some (goto i (if th_stopping s then AReturned else AAccept) s)
  | AAccept =>
    match ev_accepted e with
    | Ok a => Some (goto i (ALock a) s)
    | Err _ => Some (goto i (if th_stopping s then AReturned else ATop) s)
    end
  | ALock a => lock_queue i (APush a) s
  | APush a =>
    Some (if bound <=? zlen (th_queue s) then unlock_queue i ATop (refuse s)
          else unlock_queue i ANotify (push_back a s))
  | ANotify => notify_one QueueCv (ev_pick e) (goto i ATop s)
  | _ => None
  end.

Definition step_idle i pc (s : Threads) : option Threads :=
  match pc with
  | ILock => lock_queue i ITest s
  | ITest =>
    Some (if bool_decide (th_queue s = []) && (th_active s =? 0) then unlock_queue i IReturned s
          else goto i IBlock s)
  | IBlock => Some (unlock_queue i ISleep s)
  | _ => None
  end.

(** [run], after which the process stops the service. *)
Definition step_run i pc (s : Threads) : option Threads :=
  match pc with
  | RLock => lock_wake i RTest s
  | RTest => Some (if th_stopping s then unlock_wake i (SExchange true) s else goto i RBlock s)
  | RBlock => Some (unlock_wake i RSleep s)
  | _ => None
  end.

(** [request_shutdown] and, with [stop], the joins. *)
Definition step_stop i pc (s : Threads) : option Threads :=
  match pc with
  | SExchange stop => Some (if th_stopping s then goto i (SDone stop) s else goto i (SQueue stop) (set_stop s))
  | SQueue stop => Some (goto i (SIdle stop) (notify_all QueueCv s))
  | SIdle stop => Some (goto i (SWake stop) (notify_all IdleCv s))
  | SWake stop => Some (goto i (SDone stop) (notify_all WakeCv s))
  | SDone true => if forallb exited (th_pcs s) then Some (goto i SStopped s) else None
  | _ => None
  end.

Definition step (bound : Z) i (e : Env) (s : Threads) : option Threads :=
  match th_pcs s !! i with
  | None => None
  | Some pc =>
    match pc with
    | WLock | WTest | WBlock | WSleep | WTaken _ | WRunning _ | WFinished | WExited => step_worker i pc s
    | ELock _ | EPush _ | ENotify | EDone => step_enqueue i pc e s
    | ATop | AAccept | ALock _ | APush _ | ANotify | AReturned => step_accept bound i pc e s
    | ILock | ITest | IBlock | ISleep | IReturned => step_idle i pc s
    | RLock | RTest | RBlock | RSleep => step_run i pc s
    | SExchange _ | SQueue _ | SIdle _ | SWake _ | SDone _ | SStopped => step_stop i pc s
    end
  end.

(** One step of a thread, or a wait that returns for no reason. *)
Inductive turn (bound : Z) : Threads -> Threads -> Prop :=
  | turn_step i e s s' : step bound i e s = Some s' -> turn bound s s'
  | turn_spurious i pc s : th_pcs s !! i = Some pc -> is_Some (waits_on pc) -> turn bound s (goto i (woken pc) s).

(** A schedule, run. *)
Fixpoint run_schedule (bound : Z) (l : list (nat * Env)) (s : Threads) : option Threads :=
  match l with
  | [] => Some s
  | (i, e) :: rest => match step bound i e s with Some s' => run_schedule bound rest s' | None => None end
  end.

(** ** Starting *)

(** Where a thread can begin. *)
Definition begins pc : Prop :=
  match pc with WLock | ELock _ | ATop | ILock | RLock | SExchange _ => True | _ => False end.

Definition started pcs : Threads := mkThreads false [] 0 0 None None pcs [] [].

(** [start] and [start_data_listener]: a count of 0 starts one worker. *)
Definition worker_threads (configured : Z) : list (Pc.t A) :=
  replicate (Z.to_nat (if configured =? 0 then 1 else configured)) WLock.

Definition reachable (bound : Z) (s : Threads) : Prop :=
  exists pcs, Forall begins pcs /\ rtc (turn bound) (started pcs) s.

(** ** The invariant *)

Definition holds_queue pc : bool := match pc with WTest | WBlock | EPush _ | APush _ | ITest | IBlock => true | _ => false end.
Definition holds_wake pc : bool := match pc with RTest | RBlock => true | _ => false end.
Definition running pc : bool := match pc with WRunning _ => true | _ => false end.
Definition worker pc : bool :=
  match pc with WLock | WTest | WBlock | WSleep | WTaken _ | WRunning _ | WFinished | WExited => true | _ => false end.
(** A worker that is on its way to the queue, and a thread about to wake one. *)
Definition working pc : bool :=
  match pc with WLock | WTest | WBlock | WTaken _ | WRunning _ | WFinished => true | _ => false end.
Definition notifying pc : bool := match pc with ENotify | ANotify => true | _ => false end.

Definition count_of (P : Pc.t A -> bool) pcs : Z := zlen (filter (fun pc => P pc = true) pcs).
Definition some (P : Pc.t A -> bool) pcs : Prop := exists i pc, pcs !! i = Some pc /\ P pc = true.

(** The thread that has a mutex is the one whose point is in its critical
    section. *)
Record owned (P : Pc.t A -> bool) (m : option nat) pcs : Prop := {
  ow_point : forall i pc, pcs !! i = Some pc -> P pc = true <-> m = Some i;
  ow_thread : forall i, m = Some i -> is_Some (pcs !! i) }.

Record threads_inv (s : Threads) : Prop := {
  ti_queue_mutex : owned holds_queue (th_queue_mutex s) (th_pcs s);
  ti_wake_mutex : owned holds_wake (th_wake_mutex s) (th_pcs s);
  ti_fifo : th_pushed s = th_popped s ++ th_queue s;
  ti_active : th_active s = wrap 32 (count_of running (th_pcs s));
  ti_block : forall i, th_pcs s !! i = Some WBlock -> th_queue s = [];
  ti_exit : forall i, th_pcs s !! i = Some WExited -> th_stopping s = true;
  ti_wake : some worker (th_pcs s) -> th_stopping s = false -> th_queue s <> [] ->
            some (fun pc => working pc || notifying pc) (th_pcs s) }.

Lemma lookup_insert_cases i j pc pc' pcs : <[i := pc']> pcs !! j = Some pc ->
  (j = i /\ pc = pc') \/ (j <> i /\ pcs !! j = Some pc).
Proof.
  intros H. destruct (decide (j = i)) as [->|Hj].
  - left. assert (Hi : (i < length pcs)%nat) by (apply lookup_lt_Some in H; by rewrite length_insert in H).
    rewrite list_lookup_insert_eq in H by done. split; congruence.
  - right. by rewrite list_lookup_insert_ne in H.
Qed.

Lemma lookup_insert_here i pc pc' pcs : pcs !! i = Some pc -> <[i := pc']> pcs !! i = Some pc'.
Proof. intros H. apply list_lookup_insert_eq. by eapply lookup_lt_Some. Qed.

Lemma count_insert P i pc pc' pcs : pcs !! i = Some pc ->
  count_of P (<[i := pc']> pcs) = count_of P pcs - Z.b2z (P pc) + Z.b2z (P pc').
Proof.
  unfold count_of, zlen. revert i. induction pcs as [|x pcs IH]; intros [|i] H; [done..| |].
  - injection H as ->. simpl. rewrite !filter_cons. destruct (P pc), (P pc'); simpl; lia.
  - simpl in *. specialize (IH i H). rewrite !filter_cons. destruct (decide (P x = true)); simpl; lia.
Qed.

Lemma count_map P f pcs : (forall pc, P (f pc) = P pc) -> count_of P (map f pcs) = count_of P pcs.
Proof.
  intros H. unfold count_of, zlen. induction pcs as [|x pcs IH]; [done|]. simpl. rewrite !filter_cons, H.
  destruct (decide (P x = true)); simpl; lia.
Qed.

Lemma some_new (P : Pc.t A -> bool) i pc pc' pcs : pcs !! i = Some pc -> P pc' = true -> some P (<[i := pc']> pcs).
Proof. intros H HP. exists i, pc'. split; [by eapply lookup_insert_here|done]. Qed.

Lemma some_keep (P : Pc.t A -> bool) i pc pc' pcs : pcs !! i = Some pc -> (P pc = true -> P pc' = true) -> some P pcs ->
  some P (<[i := pc']> pcs).
Proof.
  intros H HP (j & x & Hj & Hx). destruct (decide (j = i)) as [->|Hne].
  - apply (some_new _ _ pc); [done|]. apply HP. congruence.
  - exists j, x. by rewrite list_lookup_insert_ne.
Qed.

Lemma some_back (P : Pc.t A -> bool) i pc pc' pcs : pcs !! i = Some pc -> P pc' = P pc -> some P (<[i := pc']> pcs) -> some P pcs.
Proof.
  intros H HP (j & x & Hj & Hx). apply lookup_insert_cases in Hj as [[-> ->]|[_ Hj]]; [|by exists j, x].
  exists i, pc. split; [done|congruence].
Qed.

Lemma owned_keep P m i pc pc' pcs : pcs !! i = Some pc -> P pc' = P pc -> owned P m pcs -> owned P m (<[i := pc']> pcs).
Proof.
  intros H HP [O1 O2]. split.
  - intros j x Hj. apply lookup_insert_cases in Hj as [[-> ->]|[_ Hj]]; [rewrite HP|]; by apply O1.
  - intros j Hj. apply O2 in Hj as [x Hx]. destruct (decide (j = i)) as [->|]; [rewrite (lookup_insert_here i pc) by done|rewrite list_lookup_insert_ne by done]; eauto.
Qed.

Lemma owned_lock P i pc pc' pcs : pcs !! i = Some pc -> P pc' = true -> owned P None pcs -> owned P (Some i) (<[i := pc']> pcs).
Proof.
  intros H HP [O1 O2]. split.
  - intros j x Hj. apply lookup_insert_cases in Hj as [[-> ->]|[Hne Hj]]; [done|]. rewrite (O1 j x Hj). split; congruence.
  - intros j [= <-]. rewrite (lookup_insert_here i pc) by done. eauto.
Qed.

Lemma owned_unlock P m i pc pc' pcs : pcs !! i = Some pc -> P pc = true -> P pc' = false -> owned P m pcs ->
  owned P None (<[i := pc']> pcs).
Proof.
  intros H HP HP' [O1 O2]. apply (O1 i pc H) in HP as ->. split; [|done].
  intros j x Hj. apply lookup_insert_cases in Hj as [[-> ->]|[Hne Hj]]; [by rewrite HP'|]. rewrite (O1 j x Hj). split; congruence.
Qed.

Lemma owned_map P m f pcs : (forall pc, P (f pc) = P pc) -> owned P m pcs -> owned P m (map f pcs).
Proof.
  intros Hf [O1 O2]. split.
  - intros j x Hj. rewrite list_lookup_fmap in Hj. destruct (pcs !! j) as [y|] eqn:E; [|done]. injection Hj as <-. rewrite Hf. by apply O1.
  - intros j Hj. rewrite list_lookup_fmap. apply O2 in Hj as [y ->]. eauto.
Qed.

Lemma wrap_step n d : wrap 32 (wrap 32 n + d) = wrap 32 (n + d).
Proof. unfold wrap. apply Zplus_mod_idemp_l. Qed.

(** A step that moves the thread [i] from [pc] to [pc'] and leaves the other
    threads where they are. *)
Lemma inv_move s s' i pc pc' : threads_inv s -> th_pcs s !! i = Some pc -> th_pcs s' = <[i := pc']> (th_pcs s) ->
  owned holds_queue (th_queue_mutex s') (th_pcs s') -> owned holds_wake (th_wake_mutex s') (th_pcs s') ->
  th_pushed s' = th_popped s' ++ th_queue s' ->
  th_active s' = wrap 32 (th_active s + (Z.b2z (running pc') - Z.b2z (running pc))) ->
  (th_queue s' = [] \/ (pc' <> WBlock /\ forall j, j <> i -> th_pcs s !! j <> Some WBlock)) ->
  (pc' = WExited -> th_stopping s' = true) -> (th_stopping s = true -> th_stopping s' = true) ->
  worker pc' = worker pc ->
  (some worker (th_pcs s) -> th_stopping s' = false -> th_queue s' <> [] ->
     working pc' || notifying pc' = true \/ (th_queue s <> [] /\ (working pc || notifying pc = true -> working pc' || notifying pc' = true)) \/
     exists k, k <> i /\ exists x, th_pcs s !! k = Some x /\ working x = true) ->
  threads_inv s'.
Proof.
  intros [I1 I2 I3 I4 I5 I6 I7] Hi Hp O1 O2 Hfifo Hact Hblock Hexit Hstop Hwk Hwake. split; [done..| | | |].
  - rewrite Hact, Hp, I4, wrap_step, (count_insert running i pc) by done. f_equal. lia.
  - intros j Hj. rewrite Hp in Hj. destruct Hblock as [?|[Hb1 Hb2]]; [done|].
    apply lookup_insert_cases in Hj as [[-> Hj]|[Hne Hj]]; [by symmetry in Hj|by apply Hb2 in Hj].
  - intros j Hj. rewrite Hp in Hj. apply lookup_insert_cases in Hj as [[-> Hj]|[Hne Hj]]; [by apply Hexit|]. eauto.
  - intros Hw Hs Hq. rewrite Hp in Hw |- *. apply (some_back _ _ _ _ _ Hi Hwk) in Hw. destruct (Hwake Hw Hs Hq) as [H|[[Hq0 H]|(k & Hk & x & Hx & H)]]; [by eapply some_new| |].
    2: { exists k, x. rewrite list_lookup_insert_ne by done. split; [done|]. by rewrite H. }
    eapply some_keep; [done|exact H|]. apply I7; [done| |done].
    destruct (th_stopping s); [|done]. rewrite Hstop in Hs; done.
Qed.

(** No other thread is about to block while [i] has the mutex. *)
Lemma owner_alone s i pc : threads_inv s -> th_pcs s !! i = Some pc -> holds_queue pc = true ->
  forall j, j <> i -> th_pcs s !! j <> Some WBlock.
Proof.
  intros I Hi Hh j Hj Hb. apply (ow_point _ _ _ (ti_queue_mutex s I) i pc Hi) in Hh.
  assert (th_queue_mutex s = Some j) by by apply (ow_point _ _ _ (ti_queue_mutex s I) j WBlock Hb). congruence.
Qed.

(** Waking threads changes no critical section. *)
Lemma inv_wake s f : (forall pc, f pc = pc \/ (is_Some (waits_on pc) /\ f pc = woken pc)) -> threads_inv s ->
  threads_inv (set_pcs (map f (th_pcs s)) s).
Proof.
  intros Hf [I1 I2 I3 I4 I5 I6 I7].
  assert (Hsame : forall P, (forall pc, is_Some (waits_on pc) -> P (woken pc) = P pc) -> forall pc, P (f pc) = P pc :> bool).
  { intros P HP pc. destruct (Hf pc) as [->|[Hw ->]]; [done|by apply HP]. }
  assert (Hback : forall j pc, waits_on pc = None -> map f (th_pcs s) !! j = Some pc -> (forall x, is_Some (waits_on x) -> woken x <> pc) ->
            th_pcs s !! j = Some pc).
  { intros j pc _ Hj Hx. rewrite list_lookup_fmap in Hj. destruct (th_pcs s !! j) as [y|]; [|done]. injection Hj as Hj.
    destruct (Hf y) as [E|[Hw E]]; [congruence|]. rewrite E in Hj. by apply Hx in Hj. }
  split; cbn [th_queue_mutex th_wake_mutex th_pcs th_pushed th_popped th_queue th_active th_stopping set_pcs].
  - apply owned_map; [|done]. apply Hsame. by intros [] [x [=]].
  - apply owned_map; [|done]. apply Hsame. by intros [] [x [=]].
  - done.
  - rewrite I4. f_equal. symmetry. apply count_map, Hsame. by intros [] [x [=]].
  - intros j Hj. apply (I5 j), Hback; [done..|]. by intros [] [x [=]].
  - intros j Hj. apply (I6 j), Hback; [done..|]. by intros [] [x [=]].
  - intros (j & pc & Hj & Hpc) Hs Hq. rewrite list_lookup_fmap in Hj. destruct (th_pcs s !! j) as [y|] eqn:Ey; [|done]. injection Hj as Hj.
    destruct I7 as (k & z & Hk & Hz); [|done..|].
    { exists j, y. split; [done|]. rewrite <- Hpc, <- Hj. symmetry. apply Hsame. by intros [] [x [=]]. }
    exists k, (f z). rewrite list_lookup_fmap, Hk. split; [done|]. destruct (Hf z) as [->|[[x Hx] ->]]; [done|]. by destruct z.
Qed.

Lemma inv_notify_all cv s : threads_inv s -> threads_inv (notify_all cv s).
Proof.
  apply inv_wake. intros pc. unfold sleeps. case_bool_decide as H; [right; rewrite H; eauto|by left].
Qed.

Lemma sleeps_spec cv pc : sleeps cv pc = true <-> waits_on pc = Some cv.
Proof. unfold sleeps. apply bool_decide_eq_true. Qed.

(** A thread that is woken. *)
Lemma inv_wake_one s k pc : th_pcs s !! k = Some pc -> is_Some (waits_on pc) -> threads_inv s -> threads_inv (goto k (woken pc) s).
Proof.
  intros Hk [cv Hw] I. pose proof I as [I1 I2 I3 I4 I5 I6 I7].
  apply (inv_move s _ k pc (woken pc)); cbn [goto th_queue_mutex th_wake_mutex th_pcs th_pushed th_popped th_queue th_active th_stopping];
    try done.
  - eapply owned_keep; [done| |done]. by destruct pc.
  - eapply owned_keep; [done| |done]. by destruct pc.
  - destruct pc; try done; simpl; rewrite I4, wrap_step, Z.add_0_r; done.
  - destruct (th_queue s) as [|a q] eqn:Eq; [by left|right]. split; [by destruct pc|]. intros j _ Hj. apply I5 in Hj. congruence.
  - by destruct pc.
  - by destruct pc.
  - intros _ _ Hq. right. left. split; [done|]. by destruct pc.
Qed.

(** The notifier goes on once a worker is on its way. *)
Lemma inv_notified s i pc pc' : threads_inv s -> th_pcs s !! i = Some pc -> notifying pc = true -> pc' = EDone \/ pc' = ATop ->
  (some worker (th_pcs s) -> th_stopping s = false -> th_queue s <> [] -> some working (th_pcs s)) ->
  threads_inv (goto i pc' s).
Proof.
  intros I Hi Hn Hp Hw. pose proof I as [I1 I2 I3 I4 I5 I6 I7].
  apply (inv_move s _ i pc pc'); cbn [goto th_queue_mutex th_wake_mutex th_pcs th_pushed th_popped th_queue th_active th_stopping];
    try done.
  - eapply owned_keep; [done| |done]. by destruct pc, Hp as [->| ->].
  - eapply owned_keep; [done| |done]. by destruct pc, Hp as [->| ->].
  - rewrite I4, wrap_step. f_equal. destruct pc, Hp as [->| ->]; try done; simpl; lia.
  - destruct (th_queue s) as [|a q] eqn:Eq; [by left|right]. split; [by destruct Hp as [->| ->]|].
    intros j _ Hj. apply I5 in Hj. congruence.
  - by destruct Hp as [->| ->].
  - by destruct pc, Hp as [->| ->].
  - intros W Hs Hq. right. right. destruct (Hw W Hs Hq) as (k & x & Hk & Hx). exists k. split; [|by exists x].
    intros ->. rewrite Hi in Hk. injection Hk as <-. by destruct pc.
Qed.

Lemma nobody_sleeps cv pcs : existsb (sleeps cv) pcs = false -> forall j pc, pcs !! j = Some pc -> waits_on pc <> Some cv.
Proof.
  intros H j pc Hj Hw. apply not_true_iff_false in H. apply H, existsb_exists. exists pc. split; [|by apply sleeps_spec].
  apply list_elem_of_In. by eapply list_elem_of_lookup_2.
Qed.

(** The end of [enqueue] and of a turn of [accept_loop]. *)
Lemma inv_notify_one s s' i pc pc' k : threads_inv s -> th_pcs s !! i = Some pc -> notifying pc = true ->
  pc' = EDone \/ pc' = ATop -> notify_one QueueCv k (goto i pc' s) = Some s' -> threads_inv s'.
Proof.
  intros I Hi Hn Hp E. unfold notify_one in E. cbn [th_pcs goto] in E.
  assert (Hnone : existsb (sleeps QueueCv) (<[i := pc']> (th_pcs s)) = false -> threads_inv (goto i pc' s)).
  { intros Hno. apply (inv_notified s i pc); [done..|]. intros (j & x & Hj & Hx) Hs Hq.
    exists j, x. split; [done|]. assert (Hji : j <> i) by (intros ->; rewrite Hi in Hj; injection Hj as <-; by destruct pc).
    assert (Hw : waits_on x <> Some QueueCv).
    { apply (nobody_sleeps QueueCv _ Hno j). by rewrite list_lookup_insert_ne. }
    destruct x; try done. apply (ti_exit s I) in Hj. congruence. }
  destruct (<[i := pc']> (th_pcs s) !! k) as [x|] eqn:Ek.
  - destruct (sleeps QueueCv x) eqn:Ex.
    + injection E as <-. apply sleeps_spec in Ex. apply lookup_insert_cases in Ek as [[-> ->]|[Hki Ek]]; [by destruct Hp as [->| ->]|].
      destruct x; try done. change (woken WSleep) with (@WLock A).
      assert (I' : threads_inv (goto k WLock s)) by (apply (inv_wake_one s k WSleep); eauto).
      assert (goto k WLock (goto i pc' s) = goto i pc' (goto k WLock s)) as ->.
      { unfold goto. cbn. f_equal. by apply list_insert_insert_ne. }
      apply (inv_notified _ i pc); [done| |done..|].
      * cbn. by rewrite list_lookup_insert_ne.
      * intros _ _ _. eapply some_new; [exact Ek|done].
    + destruct (existsb _ _) eqn:En; [done|]. injection E as <-. by apply Hnone.
  - destruct (existsb _ _) eqn:En; [done|]. injection E as <-. by apply Hnone.
Qed.

(** A thread that moves on without touching a mutex or the queue. *)
Lemma inv_goto s i pc pc' : threads_inv s -> th_pcs s !! i = Some pc ->
  (holds_queue pc', holds_wake pc', running pc', worker pc') = (holds_queue pc, holds_wake pc, running pc, worker pc) ->
  (pc' = WBlock -> th_queue s = []) -> pc' <> WExited ->
  (working pc || notifying pc = true -> working pc' || notifying pc' = true) -> threads_inv (goto i pc' s).
Proof.
  intros I Hi [= H1 H2 H3 H4] Hb He Hw. pose proof I as [I1 I2 I3 I4 I5 I6 I7].
  apply (inv_move s _ i pc pc'); cbn [goto th_queue_mutex th_wake_mutex th_pcs th_pushed th_popped th_queue th_active th_stopping];
    try done.
  - by eapply owned_keep.
  - by eapply owned_keep.
  - rewrite I4, wrap_step, H3. f_equal. lia.
  - destruct (th_queue s) as [|a q] eqn:Eq; [by left|right]. split; [intros ->; by specialize (Hb eq_refl)|].
    intros j _ Hj. apply I5 in Hj. congruence.
  - intros _ _ Hq. right. by left.
Qed.

(** A thread that takes a mutex. *)
Lemma inv_lock_queue s s' i pc pc' : threads_inv s -> th_pcs s !! i = Some pc -> lock_queue i pc' s = Some s' ->
  holds_queue pc' = true -> (holds_wake pc', running pc', worker pc') = (holds_wake pc, running pc, worker pc) ->
  pc' <> WBlock -> pc' <> WExited ->
  (working pc || notifying pc = true -> working pc' || notifying pc' = true) -> threads_inv s'.
Proof.
  intros I Hi E H0 [= H1 H2 H3] Hb He Hw. pose proof I as [I1 I2 I3 I4 I5 I6 I7]. unfold lock_queue in E.
  destruct (th_queue_mutex s) eqn:Em; [done|]. injection E as <-.
  apply (inv_move s _ i pc pc'); cbn [goto set_queue_mutex th_queue_mutex th_wake_mutex th_pcs th_pushed th_popped th_queue th_active th_stopping];
    try done.
  - by eapply owned_lock.
  - by eapply owned_keep.
  - rewrite I4, wrap_step, H2. f_equal. lia.
  - destruct (th_queue s) as [|a q] eqn:Eq; [by left|right]. split; [done|]. intros j _ Hj. apply I5 in Hj. congruence.
  - intros _ _ Hq. right. by left.
Qed.

Lemma inv_lock_wake s s' i pc pc' : threads_inv s -> th_pcs s !! i = Some pc -> lock_wake i pc' s = Some s' ->
  holds_wake pc' = true -> (holds_queue pc', running pc', worker pc', working pc' || notifying pc') =
    (holds_queue pc, running pc, worker pc, working pc || notifying pc) ->
  pc' <> WBlock -> pc' <> WExited -> threads_inv s'.
Proof.
  intros I Hi E H0 [= H1 H2 H3 H4] Hb He. pose proof I as [I1 I2 I3 I4 I5 I6 I7]. unfold lock_wake in E.
  destruct (th_wake_mutex s) eqn:Em; [done|]. injection E as <-.
  apply (inv_move s _ i pc pc'); cbn [goto set_wake_mutex th_queue_mutex th_wake_mutex th_pcs th_pushed th_popped th_queue th_active th_stopping];
    try done.
  - by eapply owned_keep.
  - by eapply owned_lock.
  - rewrite I4, wrap_step, H2. f_equal. lia.
  - destruct (th_queue s) as [|a q] eqn:Eq; [by left|right]. split; [done|]. intros j _ Hj. apply I5 in Hj. congruence.
  - intros _ _ Hq. right. left. split; [done|]. by rewrite H4.
Qed.

(** A thread that gives the queue's mutex up, having changed the queue to [q]. *)
Lemma inv_unlock_queue s s1 i pc pc' : threads_inv s -> th_pcs s !! i = Some pc -> holds_queue pc = true ->
  (holds_queue pc', holds_wake pc', running pc', worker pc') = (false, holds_wake pc, running pc, worker pc) ->
  th_pcs s1 = th_pcs s -> th_wake_mutex s1 = th_wake_mutex s -> th_active s1 = th_active s -> th_stopping s1 = th_stopping s ->
  th_pushed s1 = th_popped s1 ++ th_queue s1 -> (pc' = WExited -> th_stopping s = true) ->
  (some worker (th_pcs s) -> th_stopping s = false -> th_queue s1 <> [] ->
    working pc' || notifying pc' = true \/ (th_queue s <> [] /\ (working pc || notifying pc = true -> working pc' || notifying pc' = true))) ->
  threads_inv (unlock_queue i pc' s1).
Proof.
  intros I Hi H0 [= H1 H2 H3 H4] E1 E2 E3 E4 Hf He Hw. pose proof I as [I1 I2 I3 I4 I5 I6 I7].
  apply (inv_move s _ i pc pc'); unfold unlock_queue, set_queue_mutex, goto;
    cbn [th_queue_mutex th_wake_mutex th_pcs th_pushed th_popped th_queue th_active th_stopping]; rewrite ?E1, ?E2, ?E3, ?E4; try done.
  - by eapply owned_unlock.
  - by eapply owned_keep.
  - rewrite I4, wrap_step, H3. f_equal. lia.
  - right. split; [intros ->; done|]. by apply (owner_alone s i pc).
  - intros W Hs Hq. destruct (Hw W Hs Hq); auto.
Qed.

Lemma inv_unlock_wake s i pc pc' : threads_inv s -> th_pcs s !! i = Some pc -> holds_wake pc = true ->
  (holds_queue pc', holds_wake pc', running pc', worker pc', working pc' || notifying pc') =
    (holds_queue pc, false, running pc, worker pc, working pc || notifying pc) -> pc' <> WBlock -> pc' <> WExited ->
  threads_inv (unlock_wake i pc' s).
Proof.
  intros I Hi H0 [= H1 H2 H3 H4 H5] Hb He. pose proof I as [I1 I2 I3 I4 I5 I6 I7].
  apply (inv_move s _ i pc pc'); unfold unlock_wake, set_wake_mutex, goto;
    cbn [th_queue_mutex th_wake_mutex th_pcs th_pushed th_popped th_queue th_active th_stopping]; try done.
  - by eapply owned_keep.
  - by eapply owned_unlock.
  - rewrite I4, wrap_step, H3. f_equal. lia.
  - destruct (th_queue s) as [|a q] eqn:Eq; [by left|right]. split; [done|]. intros j _ Hj. apply I5 in Hj. congruence.
  - intros _ _ Hq. right. left. split; [done|]. by rewrite H5.
Qed.

(** A worker that counts itself in or out. *)
Lemma inv_active s i pc pc' : threads_inv s -> th_pcs s !! i = Some pc ->
  (holds_queue pc', holds_wake pc', worker pc', working pc') = (holds_queue pc, holds_wake pc, worker pc, true) ->
  pc' <> WBlock -> pc' <> WExited ->
  threads_inv (goto i pc' (set_active (wrap 32 (th_active s + (Z.b2z (running pc') - Z.b2z (running pc)))) s)).
Proof.
  intros I Hi [= H1 H2 H3 H4] Hb He. pose proof I as [I1 I2 I3 I4 I5 I6 I7].
  apply (inv_move s _ i pc pc'); unfold set_active, goto;
    cbn [th_queue_mutex th_wake_mutex th_pcs th_pushed th_popped th_queue th_active th_stopping]; try done.
  - by eapply owned_keep.
  - by eapply owned_keep.
  - destruct (th_queue s) as [|a q] eqn:Eq; [by left|right]. split; [done|]. intros j _ Hj. apply I5 in Hj. congruence.
  - intros _ _ _. left. by rewrite H4.
Qed.

(** The invariant without the thread that stops. *)
Lemma inv_set_stop s : threads_inv s -> threads_inv (set_stop s).
Proof. intros [I1 I2 I3 I4 I5 I6 I7]. by split. Qed.

Lemma notify_all_lookup cv s i pc : th_pcs s !! i = Some pc -> waits_on pc = None -> th_pcs (notify_all cv s) !! i = Some pc.
Proof.
  intros Hi Hw. unfold notify_all, set_pcs. cbn [th_pcs]. rewrite list_lookup_fmap, Hi. simpl. unfold sleeps. rewrite Hw.
  by rewrite bool_decide_eq_false_2.
Qed.

Lemma step_worker_inv s s' i pc : threads_inv s -> th_pcs s !! i = Some pc -> step_worker i pc s = Some s' -> threads_inv s'.
Proof.
  intros I Hi E. destruct pc; cbn [step_worker] in E; try done.
  - by eapply inv_lock_queue.
  - destruct (th_queue s) as [|a q] eqn:Eq; [destruct (th_stopping s) eqn:Es|]; injection E as <-.
    + eapply (inv_unlock_queue s s); try done; apply (ti_fifo s I).
    + by apply (inv_goto s i WTest).
    + apply (inv_unlock_queue s (pop_front a q s) i WTest); try done; cbn; [by rewrite (ti_fifo s I), Eq, <- app_assoc|by auto].
  - injection E as <-. pose proof (ti_block s I i Hi) as Hq. apply (inv_unlock_queue s s i WBlock); try done; apply (ti_fifo s I).
  - injection E as <-. by apply (inv_active s i (WTaken a) (WRunning a)).
  - injection E as <-. by apply (inv_active s i (WRunning a) WFinished).
  - injection E as <-. apply (inv_goto _ i WFinished); try done; [by apply inv_notify_all|by apply notify_all_lookup].
Qed.

Lemma step_enqueue_inv s s' i pc e : threads_inv s -> th_pcs s !! i = Some pc -> step_enqueue i pc e s = Some s' -> threads_inv s'.
Proof.
  intros I Hi E. destruct pc; cbn [step_enqueue] in E; try done.
  - by eapply inv_lock_queue.
  - injection E as <-. apply (inv_unlock_queue s (push_back a s) i (EPush a)); try done; cbn; [by rewrite (ti_fifo s I), <- app_assoc|by auto].
  - eapply (inv_notify_one s s' i ENotify EDone); eauto.
Qed.

Lemma step_accept_inv bound s s' i pc e : threads_inv s -> th_pcs s !! i = Some pc -> step_accept bound i pc e s = Some s' -> threads_inv s'.
Proof.
  intros I Hi E. destruct pc; cbn [step_accept] in E; try done.
  - injection E as <-. destruct (th_stopping s); by apply (inv_goto s i ATop).
  - destruct (ev_accepted e); injection E as <-; [by apply (inv_goto s i AAccept)|].
    destruct (th_stopping s); by apply (inv_goto s i AAccept).
  - by eapply inv_lock_queue.
  - injection E as <-. destruct (bound <=? zlen (th_queue s)).
    + apply (inv_unlock_queue s (refuse s) i (APush a)); try done; cbn; [apply (ti_fifo s I)|by auto].
    + apply (inv_unlock_queue s (push_back a s) i (APush a)); try done; cbn; [by rewrite (ti_fifo s I), <- app_assoc|by auto].
  - eapply (inv_notify_one s s' i ANotify ATop); eauto.
Qed.

Lemma step_idle_inv s s' i pc : threads_inv s -> th_pcs s !! i = Some pc -> step_idle i pc s = Some s' -> threads_inv s'.
Proof.
  intros I Hi E. destruct pc; cbn [step_idle] in E; try done.
  - by eapply inv_lock_queue.
  - injection E as <-. destruct (bool_decide _ && _); [|by apply (inv_goto s i ITest)].
    apply (inv_unlock_queue s s i ITest); try done; [apply (ti_fifo s I)|by auto].
  - injection E as <-. apply (inv_unlock_queue s s i IBlock); try done; [apply (ti_fifo s I)|by auto].
Qed.

Lemma step_run_inv s s' i pc : threads_inv s -> th_pcs s !! i = Some pc -> step_run i pc s = Some s' -> threads_inv s'.
Proof.
  intros I Hi E. destruct pc; cbn [step_run] in E; try done.
  - by eapply inv_lock_wake.
  - injection E as <-. destruct (th_stopping s); [by apply (inv_unlock_wake s i RTest)|by apply (inv_goto s i RTest)].
  - injection E as <-. by apply (inv_unlock_wake s i RBlock).
Qed.

Lemma step_stop_inv s s' i pc : threads_inv s -> th_pcs s !! i = Some pc -> step_stop i pc s = Some s' -> threads_inv s'.
Proof.
  intros I Hi E. destruct pc; cbn [step_stop] in E; try done.
  - injection E as <-. destruct (th_stopping s).
    + by apply (inv_goto s i (SExchange stop)).
    + apply (inv_goto _ i (SExchange stop)); try done. by apply inv_set_stop.
  - injection E as <-. apply (inv_goto _ i (SQueue stop)); try done; [by apply inv_notify_all|by apply notify_all_lookup].
  - injection E as <-. apply (inv_goto _ i (SIdle stop)); try done; [by apply inv_notify_all|by apply notify_all_lookup].
  - injection E as <-. apply (inv_goto _ i (SWake stop)); try done; [by apply inv_notify_all|by apply notify_all_lookup].
  - destruct stop; [|done]. destruct (forallb _ _); [|done]. injection E as <-. by apply (inv_goto s i (SDone true)).
Qed.

Lemma step_inv bound i e s s' : threads_inv s -> step bound i e s = Some s' -> threads_inv s'.
Proof.
  intros I E. unfold step in E. destruct (th_pcs s !! i) as [pc|] eqn:Hi; [|done].
  destruct pc; eauto using step_worker_inv, step_enqueue_inv, step_accept_inv, step_idle_inv, step_run_inv, step_stop_inv.
Qed.

Lemma turn_inv bound s s' : threads_inv s -> turn bound s s' -> threads_inv s'.
Proof. intros I T. revert I. destruct T as [i e s s' E|i pc s Hi Hw]; intros I; [by eapply step_inv|by apply inv_wake_one]. Qed.

Lemma started_inv pcs : Forall begins pcs -> threads_inv (started pcs).
Proof.
  intros H. assert (Hb : forall i pc, pcs !! i = Some pc -> begins pc).
  { intros i pc Hi. by eapply Forall_lookup_1. }
  split; cbn [started th_queue_mutex th_wake_mutex th_pcs th_pushed th_popped th_queue th_active th_stopping]; try done.
  - split; [|done]. intros i pc Hi. apply Hb in Hi. by destruct pc.
  - split; [|done]. intros i pc Hi. apply Hb in Hi. by destruct pc.
  - assert (count_of running pcs = 0) as ->; [|done]. unfold count_of. clear Hb.
    induction H as [|pc pcs Hp _ IH]; [done|]. rewrite filter_cons. by destruct pc.
  - intros i Hi. by apply Hb in Hi.
Qed.

Lemma turns_inv bound s s' : rtc (turn bound) s s' -> threads_inv s -> threads_inv s'.
Proof. induction 1; eauto using turn_inv. Qed.

Lemma reachable_inv bound s : reachable bound s -> threads_inv s.
Proof. intros (pcs & Hp & H). eapply turns_inv; [done|]. by apply started_inv. Qed.

(** ** Taking from the queue *)

(** Some schedule takes [a] off the queue next. *)
Definition takes (bound : Z) (s : Threads) a : Prop :=
  exists l s', run_schedule bound l s = Some s' /\ th_popped s' = th_popped s ++ [a].

Lemma takes_step bound i e s s1 a : step bound i e s = Some s1 -> th_popped s1 = th_popped s -> takes bound s1 a -> takes bound s a.
Proof. intros E Hp (l & s' & El & Hl). exists ((i, e) :: l), s'. cbn. rewrite E. split; [done|congruence]. Qed.

Lemma takes_now bound i e s s1 a : step bound i e s = Some s1 -> th_popped s1 = th_popped s ++ [a] -> takes bound s a.
Proof. intros E Hp. exists [(i, e)], s1. cbn. by rewrite E. Qed.

Definition quiet_env (pick : nat) : Env := mkEnv pick (Err (mkStatus RC.IO_TIMEOUT [])).

Lemma lock_takes bound i s a q : th_queue_mutex s = None -> th_queue s = a :: q -> th_pcs s !! i = Some WLock -> takes bound s a.
Proof.
  intros Hm Hq Hi. eapply (takes_step bound i (quiet_env 0)).
  { unfold step. rewrite Hi. cbn. unfold lock_queue. by rewrite Hm. }
  { done. }
  eapply (takes_now bound i (quiet_env 0)).
  - unfold step. cbn [th_pcs goto set_queue_mutex]. rewrite (lookup_insert_here i WLock) by done.
    cbn [step_worker th_queue goto set_queue_mutex]. rewrite Hq. reflexivity.
  - done.
Qed.

Lemma worker_takes bound i pc s a q : threads_inv s -> th_queue_mutex s = None -> th_queue s = a :: q ->
  th_pcs s !! i = Some pc -> working pc = true -> takes bound s a.
Proof.
  intros I Hm Hq Hi Hw.
  assert (Hh : holds_queue pc = false).
  { destruct (holds_queue pc) eqn:E; [|done]. apply (ow_point _ _ _ (ti_queue_mutex s I) i pc Hi) in E. congruence. }
  assert (HF : forall s1, th_queue_mutex s1 = None -> th_queue s1 = a :: q -> th_pcs s1 !! i = Some WFinished -> takes bound s1 a).
  { intros s1 Hm1 Hq1 Hi1. eapply (takes_step bound i (quiet_env 0)).
    - unfold step. rewrite Hi1. reflexivity.
    - done.
    - eapply (lock_takes bound i); [done..|]. cbn [goto th_pcs]. by apply (lookup_insert_here i WFinished), notify_all_lookup. }
  assert (HR : forall s1 x, th_queue_mutex s1 = None -> th_queue s1 = a :: q -> th_pcs s1 !! i = Some (WRunning x) -> takes bound s1 a).
  { intros s1 x Hm1 Hq1 Hi1. eapply (takes_step bound i (quiet_env 0)).
    - unfold step. rewrite Hi1. reflexivity.
    - done.
    - apply HF; [done..|]. by apply (lookup_insert_here i (WRunning x)). }
  destruct pc; try done.
  - by eapply lock_takes.
  - eapply (takes_step bound i (quiet_env 0)); [unfold step; rewrite Hi; reflexivity|done|].
    apply (HR _ a0); [done..|]. by apply (lookup_insert_here i (WTaken a0)).
  - by eapply HR.
  - by apply HF.
Qed.

Lemma notifying_step bound i pc k s : th_pcs s !! i = Some pc -> notifying pc = true ->
  exists pc', (pc' = EDone \/ pc' = ATop) /\ step bound i (quiet_env k) s = notify_one QueueCv k (goto i pc' s).
Proof. intros Hi Hn. unfold step. rewrite Hi. destruct pc; try done; eexists; split; try reflexivity; auto. Qed.

Lemma free_takes bound s a q : threads_inv s -> some worker (th_pcs s) -> th_stopping s = false ->
  th_queue_mutex s = None -> th_queue s = a :: q -> takes bound s a.
Proof.
  intros I Hw Hs Hm Hq. destruct (ti_wake s I Hw Hs) as (i & pc & Hi & Hpc); [congruence|].
  apply orb_prop in Hpc as [Hpc|Hpc]; [by eapply worker_takes|].
  destruct Hw as (j & x & Hj & Hx). assert (Hji : j <> i) by (intros ->; rewrite Hi in Hj; injection Hj as <-; by destruct pc).
  destruct (sleeps QueueCv x) eqn:Ex.
  - apply sleeps_spec in Ex. destruct x; try done. destruct (notifying_step bound i pc j s Hi Hpc) as (pc' & Hpc' & E).
    assert (Hj' : <[i := pc']> (th_pcs s) !! j = Some WSleep) by by rewrite list_lookup_insert_ne.
    eapply (takes_step bound i (quiet_env j)).
    + rewrite E. unfold notify_one. cbn [th_pcs goto]. rewrite Hj'. cbn. reflexivity.
    + done.
    + apply (lock_takes bound j _ a q); [done..|]. cbn [goto th_pcs]. by apply (lookup_insert_here j WSleep).
  - eapply (worker_takes bound j x); try done. destruct x; try done. apply (ti_exit s I) in Hj. congruence.
Qed.

(** A thread in the queue's critical section leaves it. *)
Lemma owner_takes bound s i pc a q : threads_inv s -> some worker (th_pcs s) -> th_stopping s = false ->
  th_pcs s !! i = Some pc -> holds_queue pc = true -> th_queue s = a :: q -> takes bound s a.
Proof.
  intros I Hw Hs Hi Hh Hq.
  assert (Hgo : forall s1 pc0 pc', threads_inv s1 -> th_pcs s1 !! i = Some pc0 -> worker pc0 = false -> forall q' s2,
            threads_inv s2 -> th_pcs s2 = <[i := pc']> (th_pcs s1) -> some worker (th_pcs s1) -> th_stopping s2 = false ->
            th_queue_mutex s2 = None -> th_queue s2 = a :: q' -> takes bound s2 a).
  { intros s1 pc0 pc' _ Hi1 Hp0 q' s2 I2 Hp2 Hw1 Hs2 Hm2 Hq2. eapply free_takes; try done. rewrite Hp2.
    eapply some_keep; [done| |done]. by rewrite Hp0. }
  assert (HB : forall s1, threads_inv s1 -> th_pcs s1 !! i = Some IBlock -> some worker (th_pcs s1) -> th_stopping s1 = false ->
            th_queue s1 = a :: q -> takes bound s1 a).
  { intros s1 I1 Hi1 Hw1 Hs1 Hq1. assert (E : step bound i (quiet_env 0) s1 = Some (unlock_queue i ISleep s1)) by (unfold step; by rewrite Hi1).
    eapply takes_step; [exact E|done|]. eapply (Hgo s1 IBlock ISleep); try done; by eapply step_inv. }
  destruct pc; try done.
  - eapply (takes_now bound i (quiet_env 0)); [unfold step; rewrite Hi; cbn; rewrite Hq; reflexivity|done].
  - apply (ti_block s I) in Hi. congruence.
  - assert (E : step bound i (quiet_env 0) s = Some (unlock_queue i ENotify (push_back a0 s))) by (unfold step; by rewrite Hi).
    eapply takes_step; [exact E|done|]. eapply (Hgo s (EPush a0) ENotify); try done; [by eapply step_inv|]. cbn. by rewrite Hq.
  - assert (E : step bound i (quiet_env 0) s = step_accept bound i (APush a0) (quiet_env 0) s) by (unfold step; by rewrite Hi).
    cbn [step_accept] in E. destruct (bound <=? zlen (th_queue s)).
    + eapply takes_step; [exact E|done|]. eapply (Hgo s (APush a0) ATop); try done. by eapply step_inv.
    + eapply takes_step; [exact E|done|]. eapply (Hgo s (APush a0) ANotify); try done; [by eapply step_inv|]. cbn. by rewrite Hq.
  - assert (E : step bound i (quiet_env 0) s = Some (goto i IBlock s)) by (unfold step; rewrite Hi; cbn; by rewrite Hq).
    eapply takes_step; [exact E|done|]. apply HB; try done; [by eapply step_inv|by apply (lookup_insert_here i ITest)|].
    cbn [goto th_pcs]. by eapply some_keep.
  - by apply HB.
Qed.

(** C10: (liveness) Nothing on the queue is stranded: in every reachable state of a
    service that has a worker and is not stopping, however calls of [enqueue],
    accepted connections and waits were interleaved, the threads can go on so that
    a worker takes the first item, without any wait returning by chance. *)
Theorem queued_work_can_be_taken bound s a q : reachable bound s -> some worker (th_pcs s) -> th_stopping s = false ->
  th_queue s = a :: q ->
  exists l s', run_schedule bound l s = Some s' /\ th_popped s' = th_popped s ++ [a].
Proof.
  intros Hr Hw Hs Hq. apply reachable_inv in Hr as I. change (takes bound s a).
  destruct (th_queue_mutex s) as [i|] eqn:Em; [|by eapply free_takes].
  destruct (ow_thread _ _ _ (ti_queue_mutex s I) i Em) as [pc Hi]. eapply owner_takes; try done.
  by apply (ow_point _ _ _ (ti_queue_mutex s I) i pc Hi).
Qed.

(** (invariant) The queue is used by one thread at a time and loses or repeats
    nothing: what was taken off it followed by what is on it is what was put on
    it, in that order; and [active] counts the workers that have started and not
    finished an item. *)
Theorem queue_is_exclusive_and_fifo bound s : reachable bound s ->
  (forall i j pc pc', th_pcs s !! i = Some pc -> th_pcs s !! j = Some pc' ->
     holds_queue pc = true -> holds_queue pc' = true -> i = j) /\
  th_pushed s = th_popped s ++ th_queue s /\
  th_active s = wrap 32 (count_of running (th_pcs s)).
Proof.
  intros Hr. apply reachable_inv in Hr as I. split_and!; [|apply (ti_fifo s I)|apply (ti_active s I)].
  intros i j pc pc' Hi Hj H1 H2. apply (ow_point _ _ _ (ti_queue_mutex s I) i pc Hi) in H1.
  apply (ow_point _ _ _ (ti_queue_mutex s I) j pc' Hj) in H2. congruence.
Qed.

(** ** The bound of the data listener *)

Definition enqueuer pc : bool := match pc with ELock _ | EPush _ | ENotify | EDone => true | _ => false end.

(** A step keeps every thread to its loop. *)
Lemma map_wake_none (P : Pc.t A -> bool) cv pcs : (forall pc, P (woken pc) = P pc) -> ~ some P pcs ->
  ~ some P (map (fun pc => if sleeps cv pc then woken pc else pc) pcs).
Proof.
  intros HP Hn (j & x & Hj & Hx). rewrite list_lookup_fmap in Hj. destruct (pcs !! j) as [y|] eqn:Ey; [|done]. injection Hj as <-.
  apply Hn. exists j, y. split; [done|]. destruct (sleeps cv y); [by rewrite <- HP|done].
Qed.

Lemma insert_none (P : Pc.t A -> bool) i pc' pcs : P pc' = false -> ~ some P pcs -> ~ some P (<[i := pc']> pcs).
Proof.
  intros HP Hn (j & x & Hj & Hx). apply lookup_insert_cases in Hj as [[-> ->]|[_ Hj]]; [congruence|]. apply Hn. by exists j, x.
Qed.

Lemma notify_one_cases cv k s s' : notify_one cv k s = Some s' ->
  s' = s \/ exists pc, th_pcs s !! k = Some pc /\ waits_on pc = Some cv /\ s' = goto k (woken pc) s.
Proof.
  unfold notify_one. destruct (th_pcs s !! k) as [pc|]; [destruct (sleeps cv pc) eqn:E|]; try destruct (existsb _ _); intros [= <-]; auto.
  right. exists pc. apply sleeps_spec in E. done.
Qed.

Definition small (bound : Z) (s : Threads) : Prop := ~ some enqueuer (th_pcs s) /\ zlen (th_queue s) <= Z.max 0 bound.

Lemma small_step bound i e s s' : small bound s -> step bound i e s = Some s' -> small bound s'.
Proof.
  intros [Hn Hb] E. unfold step in E. destruct (th_pcs s !! i) as [pc|] eqn:Hi; [|done].
  assert (Hpc : enqueuer pc = false).
  { destruct (enqueuer pc) eqn:Ee; [|done]. destruct Hn. by exists i, pc. }
  destruct pc; try done; cbn [step_worker step_accept step_idle step_run step_stop] in E;
    unfold lock_queue, lock_wake, unlock_queue, unlock_wake, notify_all in E;
    repeat match type of E with
           | match ?x with _ => _ end = Some _ => destruct x eqn:?; try done
           | Some (if ?b then _ else _) = _ => destruct b eqn:?
           | Some (match ?x with _ => _ end) = _ => destruct x eqn:?
           end; try (injection E as <-);
    try (split; cbn [th_pcs th_queue goto set_pcs set_queue_mutex set_wake_mutex set_active set_stop refuse push_back pop_front];
         [repeat (apply insert_none; [by repeat case_match|]); try (apply map_wake_none; [by intros []|]); done
         |try match goal with H : th_queue s = _ |- _ => rewrite H end; rewrite ?zlen_app; unfold zlen in *; simpl in *; b2p; lia]).
  apply notify_one_cases in E as [->|(x & Hx & Hw & ->)]; split; cbn [th_pcs th_queue goto]; try done;
    repeat (apply insert_none; [by destruct x|]); by try (apply insert_none).
Qed.

Lemma small_turn bound s s' : small bound s -> turn bound s s' -> small bound s'.
Proof.
  intros H T. revert H. destruct T as [i e s s' E|i pc s Hi Hw]; intros H; [by eapply small_step|]. destruct H as [Hn Hb]. split; [|done].
  cbn. apply insert_none; [|done]. destruct (enqueuer (woken pc)) eqn:E; [|done]. destruct Hn. exists i, pc. split; [done|]. by destruct pc.
Qed.

(** The number of workers never changes. *)
Lemma count_goto P i pc pc' pcs : pcs !! i = Some pc -> P pc' = P pc -> count_of P (<[i := pc']> pcs) = count_of P pcs.
Proof. intros Hi HP. rewrite (count_insert P i pc) by done. rewrite HP. lia. Qed.

Lemma count_notify P cv pcs : (forall pc, P (woken pc) = P pc) ->
  count_of P (map (fun pc => if sleeps cv pc then woken pc else pc) pcs) = count_of P pcs.
Proof. intros HP. apply count_map. intros pc. destruct (sleeps cv pc); [apply HP|done]. Qed.

Lemma workers_step bound i e s s' : step bound i e s = Some s' -> count_of worker (th_pcs s') = count_of worker (th_pcs s).
Proof.
  intros E. unfold step in E. destruct (th_pcs s !! i) as [pc|] eqn:Hi; [|done].
  assert (Hw : forall x : Pc.t A, worker (woken x) = worker x) by by intros [].
  assert (Hone : forall pc' k, worker pc' = worker pc -> notify_one QueueCv k (goto i pc' s) = Some s' ->
            count_of worker (th_pcs s') = count_of worker (th_pcs s)).
  { intros pc' k Hp E1. apply notify_one_cases in E1 as [->|(x & Hx & _ & ->)]; cbn [th_pcs goto] in *.
    - by apply (count_goto worker i pc).
    - rewrite (count_goto worker k x) by done. by apply (count_goto worker i pc). }
  assert (Hall : forall pc' cv, waits_on pc = None -> worker pc' = worker pc ->
            count_of worker (<[i := pc']> (map (fun pc => if sleeps cv pc then woken pc else pc) (th_pcs s))) = count_of worker (th_pcs s)).
  { intros pc' cv Hn Hp. rewrite (count_goto worker i pc) by (try done; by apply (notify_all_lookup cv s)). by apply count_notify. }
  destruct pc; cbn [step_worker step_enqueue step_accept step_idle step_run step_stop] in E; try discriminate E;
    try (by eapply Hone; [|exact E]);
    unfold lock_queue, lock_wake, unlock_queue, unlock_wake, notify_all in E;
    repeat match type of E with
           | match ?x with _ => _ end = Some _ => destruct x eqn:?; try discriminate E
           | Some (if ?b then _ else _) = _ => destruct b eqn:?
           | Some (match ?x with _ => _ end) = _ => destruct x eqn:?
           end; injection E as <-; cbn [th_pcs goto set_pcs set_queue_mutex set_wake_mutex set_active set_stop refuse push_back pop_front];
    first [by apply Hall | eapply count_goto; [exact Hi|by repeat case_match]].
Qed.

Lemma workers_turn bound s s' : turn bound s s' -> count_of worker (th_pcs s') = count_of worker (th_pcs s).
Proof. intros [i e s0 s1 E|i pc s0 Hi _]; [by eapply workers_step|]. cbn. eapply count_goto; [done|]. by destruct pc. Qed.

Lemma running_workers pcs : count_of running pcs <= count_of worker pcs.
Proof.
  unfold count_of, zlen. induction pcs as [|x pcs IH]; [done|]. rewrite !filter_cons.
  destruct x; simpl; repeat destruct (decide _); simpl; lia.
Qed.

Lemma count_app P l l' : count_of P (l ++ l') = count_of P l + count_of P l'.
Proof.
  unfold count_of, zlen. induction l as [|x l IH]; [done|]. cbn [app]. rewrite !filter_cons. destruct (decide _); simpl; lia.
Qed.

Lemma count_replicate P n pc : count_of P (replicate n pc) = if P pc then Z.of_nat n else 0.
Proof.
  unfold count_of, zlen. induction n as [|n IH]; [by destruct (P pc)|]. cbn [replicate]. rewrite filter_cons.
  destruct (P pc); simpl in *; lia.
Qed.

(** (bounds) The data listener keeps its bounds under every interleaving: never
    more connections wait than [max_data_sessions], and never more are served at a
    time than there are workers. *)
Theorem data_sessions_are_bounded bound listeners s : 0 <= bound ->
  rtc (turn bound) (started (replicate listeners ATop ++ worker_threads bound)) s ->
  zlen (th_queue s) <= bound /\ count_of running (th_pcs s) <= Z.max 1 bound.
Proof.
  intros Hb H. set (pcs := replicate listeners ATop ++ worker_threads bound) in *.
  assert (H0 : small bound (started pcs)).
  { split; [|unfold zlen; simpl; lia]. intros (j & x & Hj & Hx). unfold pcs, worker_threads in Hj. cbn in Hj.
    apply lookup_app_Some in Hj as [Hj|[_ Hj]]; apply lookup_replicate in Hj as [-> _]; done. }
  assert (Hc : small bound s /\ count_of worker (th_pcs s) = count_of worker pcs).
  { change pcs with (th_pcs (started pcs)) at 1. revert H0. induction H as [s|s s1 s2 T _ IH]; intros Hs; [done|].
    destruct (IH (small_turn bound _ _ Hs T)) as [A1 A2]. split; [done|]. by rewrite A2, (workers_turn bound _ _ T). }
  destruct Hc as [[_ Hq] Hw]. split; [lia|]. pose proof (running_workers (th_pcs s)) as Hr. rewrite Hw in Hr.
  unfold pcs, worker_threads in Hr. rewrite count_app, !count_replicate in Hr. cbn [worker] in Hr.
  destruct (bound =? 0) eqn:E; b2p; lia.
Qed.

(** ** Shutdown *)

(** No thread can go on. *)
Definition stuck (bound : Z) (s : Threads) : Prop := forall i e, step bound i e s = None.

(** Where a thread of a stopped service ends; a [wait_for_idle] may wait on. *)
Definition ended pc : Prop :=
  match pc with WExited | EDone | AReturned | IReturned | ISleep | SDone false | SStopped => True | _ => False end.

Definition signalling cv pc : bool :=
  match cv, pc with
  | QueueCv, SQueue _ => true
  | WakeCv, (SQueue _ | SIdle _ | SWake _) => true
  | _, _ => false
  end.
Definition about_to_block pc : bool := match pc with WBlock | RBlock => true | _ => false end.

(** The service stops and everybody asleep will be told. *)
Record told (s : Threads) : Prop := {
  to_stopping : th_stopping s = true;
  to_window : ~ some about_to_block (th_pcs s);
  to_queue : some (sleeps QueueCv) (th_pcs s) -> some (signalling QueueCv) (th_pcs s);
  to_wake : some (sleeps WakeCv) (th_pcs s) -> some (signalling WakeCv) (th_pcs s) }.

(** A thread that moves on. *)
Lemma told_goto s s' i pc pc' : told s -> th_pcs s !! i = Some pc -> th_pcs s' = <[i := pc']> (th_pcs s) ->
  th_stopping s' = true -> about_to_block pc' = false -> waits_on pc' = None \/ waits_on pc' = Some IdleCv ->
  (forall cv, signalling cv pc = true -> signalling cv pc' = true \/ ~ some (sleeps cv) (th_pcs s')) -> told s'.
Proof.
  intros [T1 T2 T3 T4] Hi Hp Hs Hb Hw Hsig. rewrite Hp in Hsig.
  assert (Hk : forall cv, cv <> IdleCv -> (some (sleeps cv) (th_pcs s) -> some (signalling cv) (th_pcs s)) ->
            some (sleeps cv) (<[i := pc']> (th_pcs s)) -> some (signalling cv) (<[i := pc']> (th_pcs s))).
  { intros cv H1 Hc Hsl. pose proof Hsl as (j & x & Hj & Hx). apply lookup_insert_cases in Hj as [[-> ->]|[_ Hj]].
    { apply sleeps_spec in Hx. destruct Hw; congruence. }
    eapply some_keep; [done| |apply Hc; by exists j, x]. intros Hg. by destruct (Hsig cv Hg). }
  split; rewrite ?Hp; [done|by apply insert_none|by apply Hk..].
Qed.

(** Waking a thread. *)
Lemma told_wake s f : (forall pc, f pc = pc \/ (is_Some (waits_on pc) /\ f pc = woken pc)) -> told s -> told (set_pcs (map f (th_pcs s)) s).
Proof.
  intros Hf [T1 T2 T3 T4].
  assert (Hb : forall (P : Pc.t A -> bool), (forall pc, is_Some (waits_on pc) -> P (woken pc) = false) -> some P (map f (th_pcs s)) -> some P (th_pcs s)).
  { intros P HP (j & x & Hj & Hx). rewrite list_lookup_fmap in Hj. destruct (th_pcs s !! j) as [y|] eqn:Ey; [|done]. injection Hj as <-.
    exists j, y. split; [done|]. destruct (Hf y) as [<-|[Hw E]]; [done|]. rewrite E, HP in Hx by done. done. }
  assert (Hk : forall cv, some (signalling cv) (th_pcs s) -> some (signalling cv) (map f (th_pcs s))).
  { intros cv (j & x & Hj & Hx). exists j, (f x). rewrite list_lookup_fmap, Hj. split; [done|].
    destruct (Hf x) as [->|[[c Hw] _]]; [done|]. by destruct cv, x. }
  split; cbn [set_pcs th_stopping th_pcs]; [done| | |].
  - intros H. apply T2, Hb; [|done]. by intros [] [c [=]].
  - intros H. apply Hk, T3, Hb; [|done]. by intros [] [c [=]].
  - intros H. apply Hk, T4, Hb; [|done]. by intros [] [c [=]].
Qed.

Lemma told_notify_all cv s : told s -> told (notify_all cv s).
Proof. apply told_wake. intros pc. unfold sleeps. case_bool_decide as H; [right; rewrite H; eauto|by left]. Qed.

(** After [notify_all] nobody waits. *)
Lemma nobody_left cv s pcs' i pc' : sleeps cv pc' = false -> pcs' = <[i := pc']> (th_pcs (notify_all cv s)) -> ~ some (sleeps cv) pcs'.
Proof.
  intros Hp ->. apply insert_none; [done|]. intros (j & x & Hj & Hx). unfold notify_all, set_pcs in Hj. cbn [th_pcs] in Hj.
  rewrite list_lookup_fmap in Hj. destruct (th_pcs s !! j) as [y|]; [|done]. injection Hj as <-.
  destruct (sleeps cv y) eqn:E; [|congruence]. apply sleeps_spec in Hx. by destruct y.
Qed.

Ltac told_move Hi := eapply told_goto; [eassumption|exact Hi|reflexivity|try done|done|by auto|by intros [] [=]].

Lemma told_notify_one s s' i pc pc' k : told s -> th_pcs s !! i = Some pc -> notifying pc = true ->
  pc' = EDone \/ pc' = ATop -> notify_one QueueCv k (goto i pc' s) = Some s' -> told s'.
Proof.
  intros T Hi Hn Hp E. assert (T' : told (goto i pc' s)).
  { eapply told_goto; [done|exact Hi|reflexivity|apply (to_stopping s T)|by destruct Hp as [->| ->]|left; by destruct Hp as [->| ->]|].
    intros cv Hs. by destruct cv, pc. }
  apply notify_one_cases in E as [->|(x & Hx & Hw & ->)]; [done|].
  eapply told_goto; [exact T'|exact Hx|reflexivity|apply (to_stopping _ T')|by destruct x|by left; destruct x|]. intros cv Hs. by destruct cv, x.
Qed.

Lemma told_step bound i e s s' : told s -> step bound i e s = Some s' -> told s'.
Proof.
  intros T E. unfold step in E. destruct (th_pcs s !! i) as [pc|] eqn:Hi; [|done]. pose proof T as [T1 T2 T3 T4].
  assert (Hblock : about_to_block pc = true -> False) by (intros H; apply T2; by exists i, pc).
  destruct pc; cbn [step_worker step_enqueue step_accept step_idle step_run step_stop] in E; try discriminate E; try (by destruct Hblock);
    try (eapply told_notify_one; [exact T|exact Hi|done| |exact E]; by auto); rewrite ?T1 in E; unfold lock_queue, lock_wake in E; cbv iota in E;
    repeat match type of E with
           | match ?x with _ => _ end = Some _ => destruct x eqn:?; try discriminate E
           | Some (if ?b then _ else _) = _ => destruct b eqn:?
           end; injection E as <-; try (by told_move Hi).
  - eapply (told_goto (notify_all IdleCv s) _ i WFinished);
      [by apply told_notify_all|by apply notify_all_lookup|reflexivity|done|done|by left|by intros [] [=]].
  - eapply (told_goto (notify_all QueueCv s) _ i (SQueue stop));
      [by apply told_notify_all|by apply notify_all_lookup|reflexivity|done|done|by left|].
    intros [] [=]; [right; by apply (nobody_left QueueCv s _ i (SIdle stop))|by left].
  - eapply (told_goto (notify_all IdleCv s) _ i (SIdle stop));
      [by apply told_notify_all|by apply notify_all_lookup|reflexivity|done|done|by left|]. intros [] [=]. by left.
  - eapply (told_goto (notify_all WakeCv s) _ i (SWake stop));
      [by apply told_notify_all|by apply notify_all_lookup|reflexivity|done|done|by left|].
    intros [] [=]. right. by apply (nobody_left WakeCv s _ i (SDone stop)).
Qed.

Lemma told_turn bound s s' : told s -> turn bound s s' -> told s'.
Proof.
  intros T Ht. revert T. destruct Ht as [i e s s' E|i pc s Hi [cv Hw]]; intros T; [by eapply told_step|].
  eapply told_goto; [exact T|exact Hi|reflexivity|apply (to_stopping s T)|by destruct pc|by left; destruct pc|].
  intros c Hs. by destruct c, pc.
Qed.

Lemma notify_nobody cv k s : ~ some (sleeps cv) (th_pcs s) -> notify_one cv k s = Some s.
Proof.
  intros Hn. unfold notify_one. assert (existsb (sleeps cv) (th_pcs s) = false) as ->.
  { apply not_true_is_false. intros (x & Hx & Hs)%existsb_exists. apply list_elem_of_In, list_elem_of_lookup in Hx as [k' Hk'].
    apply Hn. by exists k', x. }
  destruct (th_pcs s !! k) as [x|] eqn:E; [|done]. destruct (sleeps cv x) eqn:Ex; [|done]. destruct Hn. by exists k, x.
Qed.

(** A service that is stopping, whose sleepers were told and where no thread can
    go on has ended. *)
Lemma stuck_ended bound s : threads_inv s -> told s -> stuck bound s -> forall j pc, th_pcs s !! j = Some pc -> ended pc.
Proof.
  intros I [T1 T2 T3 T4] Hst.
  assert (Hm : th_queue_mutex s = None).
  { destruct (th_queue_mutex s) as [i|] eqn:Em; [|done]. destruct (ow_thread _ _ _ (ti_queue_mutex s I) i Em) as [pc Hi].
    assert (Hh : holds_queue pc = true) by by apply (ow_point _ _ _ (ti_queue_mutex s I) i pc Hi).
    specialize (Hst i (quiet_env 0)). unfold step in Hst. rewrite Hi in Hst. destruct pc; try done; cbn in Hst.
    by destruct (th_queue s). }
  assert (Hw : th_wake_mutex s = None).
  { destruct (th_wake_mutex s) as [i|] eqn:Em; [|done]. destruct (ow_thread _ _ _ (ti_wake_mutex s I) i Em) as [pc Hi].
    assert (Hh : holds_wake pc = true) by by apply (ow_point _ _ _ (ti_wake_mutex s I) i pc Hi).
    specialize (Hst i (quiet_env 0)). unfold step in Hst. rewrite Hi in Hst. by destruct pc. }
  assert (Hsig : forall cv, ~ some (signalling cv) (th_pcs s)).
  { intros cv (i & pc & Hi & Hs). specialize (Hst i (quiet_env 0)). unfold step in Hst. rewrite Hi in Hst. by destruct cv, pc. }
  assert (Hfirst : forall j pc, th_pcs s !! j = Some pc -> ended pc \/ pc = SDone true).
  { intros j pc Hj. pose proof (Hst j (quiet_env j)) as Hn. unfold step in Hn. rewrite Hj in Hn.
    destruct pc; cbn in Hn; unfold lock_queue, lock_wake in Hn; rewrite ?Hm, ?Hw in Hn; try done; try (by left).
    - by destruct (th_queue s).
    - destruct (Hsig QueueCv). apply T3. exists j, WSleep. done.
    - rewrite notify_nobody in Hn; [done|]. apply insert_none; [done|]. intros H. by apply (Hsig QueueCv), T3.
    - rewrite notify_nobody in Hn; [done|]. apply insert_none; [done|]. intros H. by apply (Hsig QueueCv), T3.
    - destruct (Hsig WakeCv). apply T4. by exists j, RSleep.
    - destruct stop; [by right|by left]. }
  intros j pc Hj. destruct (Hfirst j pc Hj) as [?| ->]; [done|]. exfalso.
  specialize (Hst j (quiet_env 0)). unfold step in Hst. rewrite Hj in Hst. cbn in Hst.
  assert (Hall : forallb exited (th_pcs s) = true); [|by rewrite Hall in Hst].
  apply forallb_forall. intros x Hx. apply list_elem_of_In, list_elem_of_lookup in Hx as [k Hk].
  destruct (Hfirst k x Hk) as [He| ->]; [by destruct x|done].
Qed.

(** C11: (liveness) A shutdown asked for while no thread is between the test of its
    predicate and the wait reaches everyone: whatever happens afterwards, the
    threads come to a rest only when the workers and listeners have ended and
    [stop] has joined them. *)
Theorem shutdown_outside_window_completes bound i stop e s s1 s2 :
  reachable bound s -> th_pcs s !! i = Some (SExchange stop) -> th_stopping s = false ->
  ~ some about_to_block (th_pcs s) -> step bound i e s = Some s1 -> rtc (turn bound) s1 s2 -> stuck bound s2 ->
  forall j pc, th_pcs s2 !! j = Some pc -> ended pc.
Proof.
  intros Hr Hi Hs Hb E Hrun Hst. apply reachable_inv in Hr as I. pose proof (step_inv bound i e s s1 I E) as I1.
  unfold step in E. rewrite Hi in E. cbn [step_stop] in E. rewrite Hs in E. injection E as <-.
  assert (T1 : told (goto i (SQueue stop) (set_stop s))).
  { split; cbn [th_stopping goto set_stop th_pcs]; [done|by apply insert_none| |];
      intros _; by eapply some_new. }
  eapply stuck_ended; [by eapply turns_inv| |exact Hst]. clear -Hrun T1. induction Hrun; eauto using told_turn.
Qed.

(** (safety) When [wait_for_idle] returns, nothing was queued and no worker had
    counted an item as started and not finished. *)
Theorem idle_wait_sees_no_counted_work bound i e s s' : reachable bound s -> zlen (th_pcs s) < 2 ^ 32 ->
  th_pcs s !! i = Some ITest -> step bound i e s = Some s' -> th_pcs s' !! i = Some IReturned ->
  th_queue s = [] /\ forall j a, th_pcs s !! j <> Some (WRunning a).
Proof.
  intros Hr Hl Hi E Hret. apply reachable_inv in Hr as I. unfold step in E. rewrite Hi in E. cbn [step_idle] in E.
  injection E as <-. destruct (bool_decide _ && _) eqn:Eb.
  2: { cbn [goto th_pcs] in Hret. rewrite (lookup_insert_here i ITest) in Hret by done. discriminate. }
  apply andb_prop in Eb as [Eq Ea]. apply bool_decide_eq_true in Eq. split; [done|]. intros j a Hj. b2p.
  rewrite (ti_active s I) in Ea. assert (Hc : 0 < count_of running (th_pcs s) <= zlen (th_pcs s)).
  { clear -Hj. unfold count_of, zlen. split; [|apply inj_le, length_filter].
    assert (WRunning a ∈ filter (fun pc => running pc = true) (th_pcs s)) as Hin; [|destruct (filter _ _); [by apply elem_of_nil in Hin|simpl; lia]].
    apply list_elem_of_filter. split; [done|]. by eapply list_elem_of_lookup_2. }
  rewrite wrap_small in Ea by (unfold in_u; lia). lia.
Qed.

(** ** What the loops do not promise *)


(** (error) [wait_for_idle] can return while a movement is on its way: the worker takes
    it off the queue before it counts itself as active.  (coordinator.hpp says that
    it blocks until no movement is actively being worked on.) *)
Theorem idle_wait_can_return_early (bound : Z) (a : A) :
  let go i := (i, quiet_env 0) in
  exists s s', run_schedule bound (map go [1; 1; 1; 0; 0; 2; 2]%nat) (started [WLock; ELock a; ILock]) = Some s /\
    th_pcs s = [WTaken a; EDone; IReturned] /\
    step bound 0 (quiet_env 0) s = Some s' /\ th_pcs s' = [WRunning a; EDone; IReturned] /\ th_active s' = 1.
Proof.
  intros go. exists (mkThreads false [] 0 0 None None [WTaken a; EDone; IReturned] [a] [a]).
  exists (mkThreads false [] 1 0 None None [WRunning a; EDone; IReturned] [a] [a]). split; [vm_compute; reflexivity|].
  split; [done|]. split; [vm_compute; reflexivity|]. done.
Qed.
End threads.
Arguments Threads : clear implicits.
Arguments Env : clear implicits.

(** ** The coordinator's listeners *)

Module Admission.

(** [accept_loop]; the endpoint listener and the admin listener each have one. *)
Inductive Point : Set := CTop | CAccept | CCheck | CRefuse | CAdd | CSpawn | CReturned.

(** [ad_sessions]: [session_threads_], true while the session lasts. *)
Record Admission := mkAdmission {
  ad_stopping : bool;
  ad_active : Z;
  ad_refused : Z;
  ad_listeners : list Point;
  ad_sessions : list bool }.

Definition at_point (i : nat) (p : Point) (s : Admission) : Admission :=
  mkAdmission (ad_stopping s) (ad_active s) (ad_refused s) (<[i := p]> (ad_listeners s)) (ad_sessions s).
Definition add_active (d : Z) (s : Admission) : Admission :=
  mkAdmission (ad_stopping s) (wrap 32 (ad_active s + d)) (ad_refused s) (ad_listeners s) (ad_sessions s).
Definition count_refused (s : Admission) : Admission :=
  mkAdmission (ad_stopping s) (ad_active s) (wrap 64 (ad_refused s + 1)) (ad_listeners s) (ad_sessions s).
Definition with_sessions (l : list bool) (s : Admission) : Admission :=
  mkAdmission (ad_stopping s) (ad_active s) (ad_refused s) (ad_listeners s) l.

(** A step of the listener [i]; [accepted] is what its [accept] returns. *)
Definition listener_step (max_sessions : Z) (i : nat) (accepted : Result unit) (s : Admission) : option Admission :=
  match ad_listeners s !! i with
  | None | Some CReturned => None
  | Some CTop => Some (at_point i (if ad_stopping s then CReturned else CAccept) s)
  | Some CAccept =>
    Some (at_point i (match accepted with Ok _ => CCheck | Err _ => if ad_stopping s then CReturned else CTop end) s)
  | Some CCheck => Some (at_point i (if max_sessions <=? ad_active s then CRefuse else CAdd) s)
  | Some CRefuse => Some (at_point i CTop (count_refused s))
  | Some CAdd => Some (at_point i CSpawn (add_active 1 s))
  | Some CSpawn => Some (at_point i CTop (with_sessions (ad_sessions s ++ [true]) s))
  end.

(** The thread of the session [j] ends. *)
Definition session_end (j : nat) (s : Admission) : option Admission :=
  match ad_sessions s !! j with
  | Some true => Some (with_sessions (<[j := false]> (ad_sessions s)) (add_active (-1) s))
  | _ => None
  end.

Definition shut (s : Admission) : Admission :=
  mkAdmission true (ad_active s) (ad_refused s) (ad_listeners s) (ad_sessions s).

Inductive move (max_sessions : Z) : Admission -> Admission -> Prop :=
  | move_listener i accepted s s' : listener_step max_sessions i accepted s = Some s' -> move max_sessions s s'
  | move_session j s s' : session_end j s = Some s' -> move max_sessions s s'
  | move_shutdown s : move max_sessions s (shut s).

Definition listening (n : nat) : Admission := mkAdmission false 0 0 (replicate n CTop) [].

Definition number_at {X} (P : X -> bool) (l : list X) : Z := zlen (filter (fun x => P x = true) l).
Definition is_add (p : Point) : bool := match p with CAdd => true | _ => false end.
Definition is_spawn (p : Point) : bool := match p with CSpawn => true | _ => false end.

Record admission_inv (max_sessions : Z) (n : nat) (s : Admission) : Prop := {
  ai_listeners : length (ad_listeners s) = n;
  ai_active : ad_active s = number_at is_spawn (ad_listeners s) + number_at id (ad_sessions s);
  ai_bound : ad_active s + number_at is_add (ad_listeners s) <= max_sessions + Z.of_nat n - 1 }.

Lemma number_insert {X} (P : X -> bool) i x y l : l !! i = Some x ->
  number_at P (<[i := y]> l) = number_at P l - Z.b2z (P x) + Z.b2z (P y).
Proof.
  unfold number_at, zlen. revert i. induction l as [|z l IH]; intros [|i] H; [done..| |].
  - injection H as ->. simpl. rewrite !filter_cons. destruct (P x), (P y); simpl; lia.
  - simpl in *. specialize (IH i H). rewrite !filter_cons. destruct (decide (P z = true)); simpl; lia.
Qed.

Lemma number_snoc {X} (P : X -> bool) x l : number_at P (l ++ [x]) = number_at P l + Z.b2z (P x).
Proof.
  unfold number_at, zlen. induction l as [|z l IH]; cbn [app].
  - rewrite filter_cons. by destruct (P x).
  - rewrite !filter_cons. destruct (decide (P z = true)); simpl; lia.
Qed.

Lemma number_range {X} (P : X -> bool) l : 0 <= number_at P l <= zlen l.
Proof. unfold number_at, zlen. split; [lia|]. apply inj_le, length_filter. Qed.

Lemma listener_inv max_sessions n i accepted s s' : 0 <= max_sessions -> max_sessions + Z.of_nat n <= 2 ^ 32 ->
  admission_inv max_sessions n s -> listener_step max_sessions i accepted s = Some s' -> admission_inv max_sessions n s'.
Proof.
  intros Hm Hn [A1 A2 A3] E. unfold listener_step in E. destruct (ad_listeners s !! i) as [p|] eqn:Hi; [|done].
  assert (Hother : number_at is_add (ad_listeners s) - Z.b2z (is_add p) <= Z.of_nat n - 1).
  { pose proof (number_insert is_add i p CTop _ Hi) as H1.
    assert (Hle : number_at is_add (<[i := CTop]> (ad_listeners s)) <= Z.of_nat n - 1).
    { rewrite <- A1. clear -Hi. revert i Hi. induction (ad_listeners s) as [|z l IH]; intros [|i] Hi; [done..| |]; simpl.
      - pose proof (number_range is_add l). unfold number_at in *. rewrite filter_cons. simpl. unfold zlen in *. lia.
      - specialize (IH i Hi). unfold number_at, zlen in *. rewrite filter_cons. destruct (decide _); simpl; lia. }
    simpl in H1. lia. }
  assert (Hown : Z.b2z (is_add p) <= number_at is_add (ad_listeners s)).
  { pose proof (number_insert is_add i p CTop _ Hi) as H1. pose proof (number_range is_add (<[i := CTop]> (ad_listeners s))). simpl in H1. lia. }
  pose proof (number_range is_add (ad_listeners s)). pose proof (number_range is_spawn (ad_listeners s)). pose proof (number_range id (ad_sessions s)).
  destruct p; try discriminate E; injection E as <-; split;
    cbn [ad_listeners ad_active ad_sessions at_point add_active count_refused with_sessions] in *;
    rewrite ?length_insert, ?(number_insert is_spawn i _ _ _ Hi), ?(number_insert is_add i _ _ _ Hi), ?number_snoc; try done;
    repeat case_match; simpl in *; b2p; rewrite ?wrap_small by (unfold in_u; lia); lia.
Qed.

Lemma session_inv max_sessions n j s s' : 0 <= max_sessions -> max_sessions + Z.of_nat n <= 2 ^ 32 ->
  admission_inv max_sessions n s -> session_end j s = Some s' -> admission_inv max_sessions n s'.
Proof.
  intros Hm Hn [A1 A2 A3] E. unfold session_end in E. destruct (ad_sessions s !! j) as [[]|] eqn:Hj; [|done..]. injection E as <-.
  pose proof (number_range is_add (ad_listeners s)). pose proof (number_range is_spawn (ad_listeners s)).
  pose proof (number_insert id j true false _ Hj) as Hk. pose proof (number_range id (<[j := false]> (ad_sessions s))).
  split; cbn [ad_listeners ad_active ad_sessions add_active with_sessions]; [done| |]; simpl in Hk;
    rewrite wrap_small by (unfold in_u; lia); lia.
Qed.

Lemma admission_reachable max_sessions n s : 0 <= max_sessions -> max_sessions + Z.of_nat n <= 2 ^ 32 -> (0 < n)%nat ->
  rtc (move max_sessions) (listening n) s -> admission_inv max_sessions n s.
Proof.
  intros Hm Hn Hpos H.
  assert (I0 : admission_inv max_sessions n (listening n)).
  { assert (Hz : forall (P : Point -> bool) m, P CTop = false -> number_at P (replicate m CTop) = 0).
    { intros P m HP. unfold number_at. induction m as [|m IH]; [done|]. cbn [replicate]. rewrite filter_cons, HP. exact IH. }
    split; cbn [listening ad_listeners ad_active ad_sessions]; [apply length_replicate|by rewrite Hz|rewrite Hz by done; lia]. }
  revert I0. induction H as [s|s s1 s2 M _ IH]; intros I; [done|]. apply IH. revert I.
  destruct M as [i accepted s s' E|j s s' E|s]; intros I; [by eapply listener_inv|by eapply session_inv|by destruct I].
Qed.

(** C12: (bounds) With [n] listeners the coordinator never has more than
    [max_sessions + n - 1] sessions at a time, two listeners one more than the
    limit; and [active_sessions] counts those that were admitted and have not
    ended. *)
Theorem sessions_are_bounded max_sessions n s : 0 <= max_sessions -> max_sessions + Z.of_nat n <= 2 ^ 32 -> (0 < n)%nat ->
  rtc (move max_sessions) (listening n) s ->
  number_at id (ad_sessions s) <= max_sessions + Z.of_nat n - 1 /\
  ad_active s = number_at is_spawn (ad_listeners s) + number_at id (ad_sessions s).
Proof.
  intros Hm Hn Hp H. destruct (admission_reachable max_sessions n s Hm Hn Hp H) as [_ A2 A3]. split; [|done].
  pose proof (number_range is_add (ad_listeners s)). pose proof (number_range is_spawn (ad_listeners s)). lia.
Qed.

(** A schedule of the listeners, accepting each time. *)
Fixpoint run_listeners (max_sessions : Z) (l : list nat) (s : Admission) : option Admission :=
  match l with
  | [] => Some s
  | i :: rest => match listener_step max_sessions i (Ok tt) s with Some s' => run_listeners max_sessions rest s' | None => None end
  end.

(** (error) The limit can be exceeded: the two listeners compare and count in separate
    steps, and one place can be given to both. *)
Theorem session_limit_can_be_exceeded :
  exists s, run_listeners 1 [0; 0; 0; 1; 1; 1; 0; 0; 1; 1]%nat (listening 2) = Some s /\ number_at id (ad_sessions s) = 2.
Proof. eexists. split; vm_compute; reflexivity. Qed.

(** (error) The threads of ended sessions are kept until the coordinator stops: after any
    number of sessions none is active and all their threads are still there. *)
Theorem ended_sessions_are_kept max_sessions k : 0 < max_sessions ->
  exists s, rtc (move max_sessions) (listening 1) s /\ ad_active s = 0 /\ length (ad_sessions s) = k.
Proof.
  intros Hm. cut (exists s, rtc (move max_sessions) (listening 1) s /\ s = mkAdmission false 0 0 [CTop] (replicate k false)).
  { intros (s & H & ->). eexists. split; [exact H|]. split; [done|]. apply length_replicate. }
  induction k as [|k (s & H & ->)]; [by exists (listening 1)|]. eexists. split; [|reflexivity].
  etrans; [exact H|]. set (l := replicate k false).
  assert (Hgo : forall a b, listener_step max_sessions 0 (Ok tt) a = Some b -> move max_sessions a b) by (intros; by eapply move_listener).
  eapply rtc_l; [by apply Hgo|]. eapply rtc_l; [by apply Hgo|].
  eapply (rtc_l _ _ (mkAdmission false 0 0 [CAdd] l)).
  { apply Hgo. cbn. destruct (max_sessions <=? 0) eqn:E; [b2p; lia|done]. }
  eapply rtc_l; [by apply Hgo|]. eapply rtc_l; [by apply Hgo|]. eapply rtc_once, (move_session _ k).
  unfold session_end. cbn [ad_sessions at_point with_sessions add_active]. unfold l. rewrite lookup_app_r, length_replicate, Nat.sub_diag by (rewrite length_replicate; lia).
  cbn [lookup list_lookup]. f_equal. unfold with_sessions, add_active. cbn. f_equal.
  rewrite insert_app_r_alt, length_replicate, Nat.sub_diag by (rewrite length_replicate; lia). cbn. by rewrite <- replicate_S_end.
Qed.

Lemma sessions_are_bounded_witness :
  exists s, rtc (move 1) (listening 2) s /\ number_at id (ad_sessions s) = 1 /\ 1 <= 1 + Z.of_nat 2 - 1 /\ ad_active s = 1.
Proof.
  set (s := mkAdmission false 1 0 [CTop; CTop] [true]).
  assert (H : rtc (move 1) (listening 2) s).
  { do 5 (eapply rtc_l; [apply (move_listener _ 0 (Ok tt)); reflexivity|]). apply rtc_refl. }
  destruct (sessions_are_bounded 1 2 s ltac:(lia) ltac:(lia) ltac:(lia) H) as [Hb Ha].
  exists s. split; [exact H|]. split; [reflexivity|]. split; [exact Hb|exact Ha].
Defined.

Lemma ended_sessions_are_kept_witness :
  exists s, rtc (move 64) (listening 1) s /\ ad_active s = 0 /\ length (ad_sessions s) = 1000%nat.
Proof. exact (ended_sessions_are_kept 64 1000 ltac:(lia)). Defined.
End Admission.

(** ** Witnesses *)

Lemma schedule_turns {A} bound l : forall s s' : Threads A, run_schedule bound l s = Some s' -> rtc (turn bound) s s'.
Proof.
  induction l as [|[i e] l IH]; intros s s' E; cbn in E; [by injection E as <-|].
  destruct (step bound i e s) as [s1|] eqn:E1; [|done]. eapply rtc_l; [by eapply turn_step|]. by apply IH.
Qed.

Definition go (i : nat) : nat * Env bytes := (i, quiet_env 0).
Definition demo_item : bytes := lit "movement".

(** A worker asleep and a call of [enqueue] before its notification. *)
Definition demo_pool : list (Pc.t bytes) := [WLock; ELock demo_item; ILock].
Definition demo_queued : Threads bytes :=
  mkThreads false [demo_item] 0 0 None None [WSleep; ENotify; ILock] [demo_item] [].

Lemma demo_pool_begins : Forall begins demo_pool.
Proof. repeat constructor. Qed.

Lemma demo_queued_reachable : reachable 4 demo_queued.
Proof.
  exists demo_pool. split; [exact demo_pool_begins|]. apply (schedule_turns 4 (map go [0; 0; 0; 1; 1]%nat)). vm_compute. reflexivity.
Qed.

Lemma queued_work_can_be_taken_witness :
  exists l s', run_schedule 4 l demo_queued = Some s' /\ th_popped s' = [demo_item].
Proof.
  exact (queued_work_can_be_taken 4 demo_queued demo_item [] demo_queued_reachable
    (ex_intro _ 0%nat (ex_intro _ WSleep (conj eq_refl eq_refl))) eq_refl eq_refl).
Defined.

Lemma queue_is_exclusive_and_fifo_witness : th_pushed demo_queued = th_popped demo_queued ++ th_queue demo_queued.
Proof. exact (proj1 (proj2 (queue_is_exclusive_and_fifo 4 demo_queued demo_queued_reachable))). Defined.

(** One connection waits, the next is refused. *)
Definition demo_listener : Threads bytes := started (replicate 1 ATop ++ worker_threads 1).

Lemma data_sessions_are_bounded_witness :
  exists s, run_schedule 1 [(0, mkEnv 0 (Ok demo_item)); (0, mkEnv 0 (Ok demo_item)); go 0; go 0; go 0; go 0;
                            (0, mkEnv 0 (Ok demo_item)); go 0; go 0]%nat demo_listener = Some s /\
    zlen (th_queue s) = 1 /\ th_refused s = 1 /\ count_of running (th_pcs s) <= 1.
Proof.
  eexists. split; [vm_compute; reflexivity|]. split; [reflexivity|]. split; [reflexivity|].
  refine (proj2 (data_sessions_are_bounded 1 1 _ ltac:(lia) (schedule_turns 1
    [(0, mkEnv 0 (Ok demo_item)); (0, mkEnv 0 (Ok demo_item)); go 0; go 0; go 0; go 0; (0, mkEnv 0 (Ok demo_item)); go 0; go 0]%nat
    demo_listener _ _))).
  vm_compute. reflexivity.
Defined.

(** A shutdown asked for by a third thread, up to the end of [stop]. *)
Definition demo_service : Threads bytes := started [WLock; RLock; SExchange false].
Definition demo_asked : Threads bytes := mkThreads true [] 0 0 None None [WLock; RLock; SQueue false] [] [].
Definition demo_stopped : Threads bytes := mkThreads true [] 0 0 None None [WExited; SStopped; SDone false] [] [].

Lemma shutdown_outside_window_completes_witness :
  stuck 4 demo_stopped /\ forall j pc, th_pcs demo_stopped !! j = Some pc -> ended pc.
Proof.
  assert (Hst : stuck 4 demo_stopped) by (intros [|[|[|i]]] e; reflexivity).
  split; [exact Hst|].
  refine (shutdown_outside_window_completes 4 2 false (quiet_env 0) demo_service demo_asked demo_stopped _ eq_refl eq_refl _ eq_refl _ Hst).
  - exists [WLock; RLock; SExchange false]. split; [repeat constructor|apply rtc_refl].
  - intros ([|[|[|j]]] & pc & Hj & Hb); [injection Hj as <-; discriminate Hb..|discriminate Hj].
  - apply (schedule_turns 4 (map go [2; 2; 2; 0; 0; 1; 1; 1; 1]%nat)). vm_compute. reflexivity.
Defined.

Lemma idle_wait_sees_no_counted_work_witness :
  let s := mkThreads false [] 0 0 (Some 2%nat) None [WTaken demo_item; EDone; ITest] [demo_item] [demo_item] in
  th_queue s = [] /\ forall j a, th_pcs s !! j <> Some (WRunning a).
Proof.
  intros s. refine (idle_wait_sees_no_counted_work 4 2 (quiet_env 0) s _ _ ltac:(vm_compute; reflexivity) eq_refl eq_refl eq_refl).
  exists demo_pool. split; [exact demo_pool_begins|]. apply (schedule_turns 4 (map go [1; 1; 1; 0; 0; 2]%nat)). vm_compute. reflexivity.
Defined.
