(* ===== verification/Services.v ===== *)
(** * The service processes (apps/smf-coordinator.cpp, apps/smf-endpoint.cpp)

    [main] of both services from the command line to the exit code: the
    configuration of [Options], the start of the service, for the endpoint its
    registration and the publications it is asked for, the announcement of the
    bound addresses, [run] and [stop].  What the other threads do while [run]
    waits is a parameter. *)
From S2P Require Import Prelude Status Bytes Ids StateObject Movement MovementStore Framing Topology Compatibility ObjectStore Effect.
From S2P Require Import Coordinator Agent Publication Text Transport Faults Options Endpoint Files LogFile.

(** ** How a process ends *)

(** The exit code and the lines written to the standard outputs. *)
Record ProcessEnd := mkEnd { pe_exit : Z; pe_out : list bytes; pe_err : list bytes }.

Definition exit_failure (label : bytes) (e : Status) : ProcessEnd := mkEnd 1 [] [label ++ Status_to_string e].

(** ** The announcement *)

(** What [fwrite] and [fclose] return is not looked at. *)
Definition announce_to (h : nat) (path json : bytes) (w : Machine) : Machine * bool :=
  let '(w, opened) := fopen h path Create w in
  if opened then let '(w, _) := write h json w in ((close h w).1, true) else (w, false).

(** To the file named by [--announce], or as a line of output. *)
Definition announce_service (h : nat) (args : Arguments) (json line : bytes) (w : Machine) : Machine * (ProcessEnd + list bytes) :=
  let path := get (lit "announce") [] args in
  if bytes_eqb path [] then (w, inr [line])
  else match announce_to h path json w with
       | (w, true) => (w, inr [])
       | (w, false) => (w, inl (mkEnd 1 [] [lit "could not write the announcement file"]))
       end.

(** A string of the announcement, without escapes. *)
Definition json_string (text : bytes) : bytes := x22 :: text ++ [x22].

Definition coordinator_json (endpoint admin : SocketAddress) (epoch : Z) : bytes :=
  lit "{" ++ json_string (lit "endpoint") ++ lit ":" ++ json_string (SocketAddress_to_string endpoint) ++
  lit "," ++ json_string (lit "admin") ++ lit ":" ++ json_string (SocketAddress_to_string admin) ++
  lit "," ++ json_string (lit "epoch") ++ lit ":" ++ std_to_string epoch ++ lit "}" ++ [x0a].

Definition coordinator_line (endpoint admin : SocketAddress) (epoch : Z) : bytes :=
  lit "coordinator endpoint=" ++ SocketAddress_to_string endpoint ++ lit " admin=" ++ SocketAddress_to_string admin ++
  lit " epoch=" ++ std_to_string epoch.

Definition endpoint_json (data : SocketAddress) (epoch : Z) : bytes :=
  lit "{" ++ json_string (lit "data") ++ lit ":" ++ json_string (SocketAddress_to_string data) ++
  lit "," ++ json_string (lit "epoch") ++ lit ":" ++ std_to_string epoch ++ lit "}" ++ [x0a].

Definition endpoint_line (id : bytes) (data : SocketAddress) (epoch : Z) : bytes :=
  lit "endpoint " ++ id ++ lit " data=" ++ SocketAddress_to_string data ++ lit " epoch=" ++ std_to_string epoch.

Definition end_process {A} (out : list bytes) (stopped : Result A) : ProcessEnd :=
  match stopped with
  | Ok _ => mkEnd 0 out []
  | Err e => mkEnd 1 out [lit "shutdown reported: " ++ Status_to_string e]
  end.

(** ** smf-coordinator *)

Section coordinator_process.
Context {C P S : Type} `{!Connection C, !EntropySource S, !CompatibilityProvider P}.

(** The outcome of binding, without the address. *)
Definition bound (r : Result SocketAddress) : Result unit := let! _ := r in Ok tt.

(** [endpoint], [admin]: the outcomes of binding the listeners; [existing]: the
    log found in the state directory; [served]: what happened until the service
    was asked to stop. *)
Definition coordinator_main (h : nat) (environment : option bytes) (argv : list bytes) (existing : bytes)
    (bind : SocketAddress -> Result SocketAddress) (clock : nat -> Z) (entropy : S) (io : IoPlan)
    (served : CWorld C P S -> CWorld C P S) (w : Machine) : Startup (Machine * ProcessEnd) :=
  let~ s := coordinator_startup environment argv in
  let~ args := or_exit (parse_args argv) in
  let endpoint := bind (cs_endpoint_listen s) in
  let admin := bind (cs_admin_listen s) in
  Proceeds
    match (start (cs_config s) existing (bound endpoint) (bound admin) clock entropy io).2 with
    | Err e => (w, exit_failure (lit "coordinator failed to start: ") e)
    | Ok cw =>
      let address r := match r with Ok a => a | Err _ => no_address end in
      let epoch := inc_epoch (cd_incarnation (cw_coordinator cw)) in
      match announce_service h args (coordinator_json (address endpoint) (address admin) epoch)
              (coordinator_line (address endpoint) (address admin) epoch) w with
      | (w, inl failed) => (w, failed)
      | (w, inr out) => (w, end_process out (stop (served cw)).2)
      end
    end.
End coordinator_process.

(** ** smf-endpoint *)

Section endpoint_process.
Context {C S : Type} `{!Connection C, !EntropySource S}.
#[local] Abbreviation Ag := (Eff (AWorld C S)).

(** The publications the command line asks for, in this order; [opened] and
    [copied] are what reading the file of [--publish] finds. *)
Definition publish_device_option (args : Arguments)
    (publish_from_cuda_device : StateKind -> bytes -> Z -> Z -> Z -> bool -> Ag unit) : Ag unit :=
  let spec := get (lit "publish-cuda") [] args in
  if bytes_eqb spec [] then eff_ret tt else publish_cuda_spec publish_from_cuda_device spec true.

Definition publish_file_option (args : Arguments) (opened copied : option bytes) : Ag (list bytes) :=
  let spec := get (lit "publish") [] args in
  if bytes_eqb spec [] then eff_ret []
  else let$ published := publish_spec_to_file spec opened copied in
       eff_ret [lit "published " ++ describe published].

Definition endpoint_serve (h : nat) (args : Arguments) (coordinator : SocketAddress)
    (publish_from_cuda_device : StateKind -> bytes -> Z -> Z -> Z -> bool -> Ag unit) (opened copied : option bytes)
    (served : AWorld C S -> AWorld C S) (aw : AWorld C S) (w : Machine) : AWorld C S * Machine * ProcessEnd :=
  match connect_to_coordinator coordinator aw with
  | (aw, Err e) => (aw, w, exit_failure (lit "registration failed: ") e)
  | (aw, Ok _) =>
    match publish_device_option args publish_from_cuda_device aw with
    | (aw, Err e) => (aw, w, exit_failure (lit "device publication failed: ") e)
    | (aw, Ok _) =>
      match publish_file_option args opened copied aw with
      | (aw, Err e) => (aw, w, exit_failure (lit "publish failed: ") e)
      | (aw, Ok out) =>
        let a := aw_agent aw in
        let epoch := inc_epoch (ag_incarnation a) in
        match announce_service h args (endpoint_json (ag_data_address a) epoch)
                (endpoint_line (get (lit "id") [] args) (ag_data_address a) epoch) w with
        | (w, inl failed) => (aw, w, mkEnd (pe_exit failed) out (pe_err failed))
        | (w, inr line) =>
          let '(aw, stopped) := agent_stop (served aw) in
          (aw, w, end_process (out ++ line) stopped)
        end
      end
    end
  end.

(** [boot] is the boot id drawn, [store] and [epoch_file] what is found under the
    store's root. *)
Definition endpoint_main (h : nat) (environment : option bytes) (argv : list bytes) (boot : bytes) (store : World)
    (epoch_file : option bytes) (bind : SocketAddress -> Result SocketAddress) (clock : nat -> Z) (entropy : S)
    (network : nat -> SocketAddress -> Result (C * SocketAddress)) (others : nat -> Agent C -> Disk -> Agent C * Disk)
    (publish_from_cuda_device : StateKind -> bytes -> Z -> Z -> Z -> bool -> Ag unit) (opened copied : option bytes)
    (served : AWorld C S -> AWorld C S) (w : Machine) : Startup (Machine * ProcessEnd) :=
  let~ s := endpoint_startup environment argv in
  let~ args := or_exit (parse_args argv) in
  Proceeds
    match agent_start (es_config s) boot (bind (es_data_listen s)) (store, epoch_file) with
    | (_, Err e) => (w, exit_failure (lit "endpoint failed to start: ") e)
    | ((store, _), Ok a) =>
      let aw := mkAWorld a store clock 0 entropy network others 0 [] in
      let '(_, w, e) := endpoint_serve h args (es_coordinator s) publish_from_cuda_device opened copied served aw w in
      (w, e)
    end.
End endpoint_process.

(** ** Properties *)

(** Writing a file from nothing, when the calls work. *)
Lemma announce_to_works h path json w : faultless w -> mc_streams w !! h = None ->
  exists w', announce_to h path json w = (w', true) /\ contents (mc_fs w') path = Some json.
Proof.
  intros Hw Hs. unfold announce_to.
  assert (exists w1 i, fopen h path Create w = (w1, true) /\ entry (mc_fs w1) path = Some i /\ data_of (mc_fs w1) i = [] /\
            idle (mc_streams w) h i 0 w1) as (w1 & i & -> & He & Hd & [Is Iw]).
  { unfold fopen. destruct (faultless_next w Hw) as (w0 & d & E & Hw0 & F & G). rewrite E, F.
    destruct (entry (mc_fs w) path) as [i|] eqn:Ee; eexists _, _; (split; [reflexivity|]); cbn [mc_fs set_stream set_streams set_fs].
    - split; [exact Ee|]. split; [apply data_of_put|]. split; [|done]. simpl. by rewrite G.
    - rewrite entry_bind_eq. split; [done|]. split; [apply data_of_put|]. split; [|done]. simpl. by rewrite G. }
  set (s := mkStream i 0 [] true false) in *.
  assert (Hl : mc_streams w1 !! h = Some s) by (rewrite Is; apply lookup_insert_eq).
  destruct (write_progress h json w1) as (w2 & E2 & Hw2 & _); [split; [done|]; by exists s|]. rewrite E2.
  destruct (write_refines h json s w1 w2 _ Hl ltac:(done) E2) as (s2 & S2 & O2 & _). specialize (O2 eq_refl).
  eexists. split; [reflexivity|]. unfold close, with_file. rewrite (serves_lookup _ _ _ _ _ S2).
  destruct (fflush h s2 w2) as [w3 b] eqn:E3.
  destruct (fflush_serves h s2 w2 w3 b (sv_offset _ _ _ _ _ S2) E3) as (s3 & S3 & A3 & P3).
  assert (b = true) as ->.
  { unfold fflush in E3. destruct (faultless_next w2 Hw2) as (x & d & Ex & _). rewrite Ex in E3. by injection E3. }
  destruct (serves_trans _ _ _ _ _ _ _ S2 S3) as [_ T2 _ _ [T5 _]]. cbn [fst mc_fs set_streams].
  rewrite (contents_entry _ _ i) by (by rewrite (entry_same_but i _ _ _ T5)). f_equal.
  rewrite abs_flushed, T2 in A3 by auto. apply (f_equal af_bytes) in A3. cbn [af_bytes sm_inode s] in A3. rewrite A3.
  apply (f_equal fst) in O2. rewrite abs_flushed in O2 by done. cbn [sm_inode sm_offset s] in O2. rewrite Hd in O2.
  rewrite Durable.spec_write in O2 by (unfold zlen; simpl; lia). cbn [fst] in O2. apply (f_equal af_bytes) in O2.
  cbn [af_bytes] in O2. unfold abs in *. cbn [af_bytes] in *. rewrite <- O2. by rewrite (write_at_end []).
Qed.

Lemma stop_succeeds {C P S : Type} `{!Connection C, !EntropySource S, !CompatibilityProvider P} (cw : CWorld C P S) :
  (stop cw).2 = Ok tt.
Proof.
  unfold stop, eff_bind, eff_try. destruct (request_shutdown cw) as [w r].
  unfold change, atomically, eff_bind. repeat case_match; simplify_eq; done.
Qed.

(** (functional) A coordinator that starts tells where it listens and in which epoch:
    when the calls on the announcement file work, the process ends with 0 and the
    file named by [--announce] has the two bound addresses and the epoch of the
    incarnation it runs as. *)
Theorem coordinator_announces_its_addresses {C P S : Type} `{!Connection C, !EntropySource S, !CompatibilityProvider P}
    h environment argv existing bind clock (entropy : S) io (served : CWorld C P S -> CWorld C P S) w args
    (s : CoordinatorStartup P) (cw : CWorld C P S) endpoint admin :
  parse_args argv = Ok args -> coordinator_startup environment argv = Proceeds s ->
  bind (cs_endpoint_listen s) = Ok endpoint -> bind (cs_admin_listen s) = Ok admin ->
  (start (cs_config s) existing (Ok tt) (Ok tt) clock entropy io).2 = Ok cw ->
  get (lit "announce") [] args <> [] -> faultless w -> mc_streams w !! h = None ->
  exists w', coordinator_main h environment argv existing bind clock entropy io served w = Proceeds (w', mkEnd 0 [] []) /\
    contents (mc_fs w') (get (lit "announce") [] args) =
      Some (coordinator_json endpoint admin (inc_epoch (cd_incarnation (cw_coordinator cw)))).
Proof.
  intros Ha Hs He Hd Hc Hp Hw Hh. unfold coordinator_main. rewrite Hs, Ha. cbn [sbind or_exit]. rewrite He, Hd.
  unfold bound. cbn [rbind]. rewrite Hc. unfold announce_service. rewrite (proj2 (bytes_eqb_neq _ _) Hp).
  destruct (announce_to_works h (get (lit "announce") [] args) (coordinator_json endpoint admin (inc_epoch (cd_incarnation (cw_coordinator cw)))) w Hw Hh)
    as (w' & -> & Hcont).
  exists w'. rewrite stop_succeeds. done.
Qed.

(** (error) An announcement that is lost is reported as made: when the write fails the
    file is empty and the process carries on. *)
Theorem lost_announcement_goes_unnoticed (b : byte) (json : bytes) :
  let path := lit "announce.json" in
  let w := mkMachine (mkFs ∅ ∅) ∅ [Works 0; Fails 0 0] [] in
  (announce_to 0 path (b :: json) w).2 = true /\ contents (mc_fs (announce_to 0 path (b :: json) w).1) path = Some [].
Proof.
  intros path w. split; vm_compute; reflexivity.
Qed.

(** (functional) The endpoint's process ends with 0 only when it registered first and
    then made every publication it was asked for. *)
Theorem endpoint_success_is_registered_and_published {C S : Type} `{!Connection C, !EntropySource S} h args coordinator f opened copied
    (served : AWorld C S -> AWorld C S) aw w aw' w' e :
  endpoint_serve h args coordinator f opened copied served aw w = (aw', w', e) -> pe_exit e = 0 ->
  exists aw1 aw2 aw3 out, connect_to_coordinator coordinator aw = (aw1, Ok tt) /\
    publish_device_option args f aw1 = (aw2, Ok tt) /\ publish_file_option args opened copied aw2 = (aw3, Ok out).
Proof.
  unfold endpoint_serve. intros E Hx. destruct (connect_to_coordinator coordinator aw) as [aw1 [[]|?]]; [|by injection E as <- <- <-].
  destruct (publish_device_option args f aw1) as [aw2 [[]|?]] eqn:E2; [|by injection E as <- <- <-].
  destruct (publish_file_option args opened copied aw2) as [aw3 [out|?]] eqn:E3; [|by injection E as <- <- <-].
  by exists aw1, aw2, aw3, out.
Qed.
